(* ===== verification/_CoqProject ===== *)
-Q . S2P
Prelude.v
SmallFloat.v
CoreAllocator.v
CoreBins.v
CoreLists.v
CoreInv.v
CoreOps.v
CoreReserve.v
BufferAllocator.v
OffsetAllocator.v
SimpleAllocators.v
AllocatorTheorems.v
Identity.v
ShardedMap.v
CountMin.v
F64.v
StoreTypes.v
Strategy.v
OpLog.v
Master.v
SegmentLedger.v
MasterInv.v
MasterEvict.v
MasterOps.v
MasterSegments.v
Recovery.v
MasterSteps.v
MasterTheorems.v
MasterExamples.v
MemIndex.v
MemIndexProofs.v
Router.v
RouterPlan.v
RouterTheorems.v
Conductor.v
Order.v
Replication.v
DataPlane.v
CoScheduler.v
Control.v
IndexLaws.v
ControlTheorems.v
ControlLoop.v
ControlExamples.v
KvStore.v
KvStoreProofs.v
KvCrash.v
KvTheorems.v
KvExamples.v
DiskTier.v
StorePlane.v
StorePlaneProofs.v
StorePlaneTheorems.v
EndpointStore.v
Topology.v
TransferTypes.v
SlicePool.v
TcpTransport.v
TransferEngine.v
Client.v
ClientTheorems.v
RealClient.v
PersistIndex.v
PersistProofs.v
PersistTheorems.v
GatewayRequest.v
GatewayMetrics.v
Gateway.v
GatewayTheorems.v
GatewayExamples.v
MasterHttp.v
PdProxy.v
DeviceSegment.v
Rdma.v
EtcdMetadata.v
Bench.v
Demos.v
BenchCommand.v
DeviceTier.v
MasterHa.v
