(* ===== verification/Prelude.v ===== *)
(** * QuillCache: a verification development

    QuillCache is a KV-cache layer for LLM serving.  A _control plane_ (crate
    quillcache-core) keeps an index of which worker holds which KV block, routes requests
    by estimated cost, and plans replication; a _store_ (crate quillcache-store) keeps the
    blocks' bytes: a master allocates buffers in the segments nodes mount and tracks
    replicas, leases and eviction, and each node has a two-tier byte store with a
    write-ahead log.  Blocks carry an identity (model, tokenizer, adapter, tenant), and a
    block is only ever reused under the identity that wrote it.

    ** Files and the code they model (paths under src/crates/)

    Store, allocation (quillcache-store/src/offset_allocator.rs, allocator.rs):
    - SmallFloat: the size classes (u32 as a small float), rounding up and down.
    - CoreAllocator: [OffsetAllocatorCore]: bins, node pool, neighbour merging.
      CoreBins, CoreLists, CoreInv: its invariant (bin lists, free stack, the tiling of the
      range by nodes); CoreOps, CoreReserve: every operation keeps it and refines an
      interval allocator.
    - BufferAllocator: the [BufferAllocator] trait; OffsetAllocator: the byte-addressed
      allocator with its multiplier; SimpleAllocators: first fit and binned;
      AllocatorTheorems: disjointness, exact fit, full reclamation, size-class overhead.
    Store, master (quillcache-store/src):
    - StoreTypes (types.rs, replica.rs), Strategy (allocation_strategy.rs), ShardedMap
      (sharded_map.rs), CountMin (count_min_sketch.rs), F64 (the floating point used there),
      OpLog (op_log.rs).
    - Master: [MasterService] of master_service.rs, one definition per method.
      SegmentLedger, MasterInv, MasterEvict, MasterOps, MasterSegments, Recovery: the
      ledger of buffers per segment and its invariant through every operation; MasterSteps:
      the step relation; MasterTheorems and MasterExamples: its theorems and runs.
    Store, bytes (quillcache-store/src/lib.rs, disk_tier.rs):
    - KvStore: [LocalKvStore], with the disk as a value and each operation's writes as a
      list; KvStoreProofs: memory invariant and capacity; KvCrash: the disk invariant,
      crash points and recovery; KvTheorems, KvExamples.
    - DiskTier: [DiskTier] on the byte store.
    - StorePlane: [StoreDataPlane], the tiered block manager, an instance of the data-plane
      seam; StorePlaneProofs, StorePlaneTheorems.
    Control plane (quillcache-core/src):
    - Identity: keys, tiers, cost model and the identity guard of lib.rs; MemIndex and
      MemIndexProofs: [IndexBackend] and [MemoryIndex]; IndexLaws: the class of laws the
      control plane is proved against, discharged by [MemoryIndex]; DataPlane: the
      [DataPlane] trait and its two trivial implementations.
    - Router, RouterPlan, RouterTheorems (router.rs); Conductor
      (conductor.rs); Order (sorting by keys); Replication (replication.rs); CoScheduler
      (co_scheduler.rs).
    - Control: [ControlPlane] of control.rs; ControlTheorems, ControlLoop,
      ControlExamples.
    - PersistIndex: the two index backends on an ordered key-value store
      (index_holt.rs, index_rocksdb.rs) with their key layout; PersistProofs,
      PersistTheorems.
    - Bench (bench.rs): the synthetic workload on any index backend and its report.
    Transfer engine (quillcache-transfer-engine/src):
    - EndpointStore (endpoint_store.rs): the bounded pool of connections; Topology
      (topology.rs); TransferTypes (transport.rs, metadata.rs, the engine's data);
      EtcdMetadata (metadata_etcd.rs): the metadata backend of several nodes on one etcd.
    - SlicePool (slice_pool.rs): the workers as a step relation over every order of
      completions; TransferEngine (engine.rs, multi_transport.rs): segments, batches, tasks.
    - TcpTransport (transport/tcp.rs): the wire and the server over a byte arena;
      DeviceSegment (device_segment.rs): the same wire over GPU memory; Rdma
      (transport/rdma.rs): the handshake, the registered segment, the pooled connections, the self-test.
    GPU tier (quillcache-cuda/src):
    - DeviceTier (gpu.rs, gpu_stub.rs, kernels.cu): copies across the PCIe boundary and the quantize
      kernel, its threads run in any order.
    Store clients (quillcache-store/src/client.rs):
    - Client, ClientTheorems: put and get through the master and a transport;
      RealClient: the composition of master, engine and arenas.
    Servers (src/src):
    - GatewayRequest (request parsing and prompt blocks), GatewayMetrics, Gateway (the
      handlers of gateway.rs as tasks that stop at every await, interleaved and cancelled at
      will), GatewayTheorems, GatewayExamples.
    - MasterHttp (store_master_http.rs, master_election.rs): the master behind its HTTP
      routes, the clock task, recovery and the leader's lease; PdProxy (pd_proxy.rs).
    - MasterHa (master_election.rs, save and load of master_service.rs, run_store_master): the masters
      that share one election and one snapshot file, their saves interleaving and crashing at any point.
    - Demos (cluster.rs, pd.rs, transfer_node.rs): the whole system composed, control plane to wire.
    - BenchCommand (main.rs): the commands and the index study on the three backends.

    ** What the theorems show

    - Allocators: live buffers never overlap and stay in their segment for every trace of sizes whose rounding
      fits 64 bits (a larger size panics); an allocation succeeds exactly when a class that fits is free; freeing refines the
      interval model and merges neighbours.
    - Master: memory safety and absence of panics in every state that operations run one at a time reach, with no
      segment name mounted twice at once; reads are guarded by identity and readiness; eviction takes only what its two passes allow, in
      their order; a snapshot recovers to the same service.
    - Logs: replay inverts append; a log cut at any byte replays to a prefix.
    - Byte store: a put terminates within both budgets and changes only its own block and the evicted ones; a
      read returns its own bytes or refuses; a restart brings back the SSD tier; a crash at any byte of a
      put recovers to bytes the store held; the durable tier survives a restart with its guard.  A store may be crashed
      and reopened any number of times, except that a reopening must not have found a torn frame or a commit without its
      file: after those the code loses blocks (KvExamples).  Well-formedness of the memory holds of every store.
    - Tiered manager: placement terminates within budget and reports the exact difference; bytes are
      served only for tracked blocks.
    - Index and routing: the reverse indexes are exact; a plan takes the cheapest source of every
      block; each policy picks the minimum its definition names; point lookups decide as the full
      snapshot; the audit counts exactly the cross-identity blocks.
    - Planners: replication equals a reference plan; a co-scheduler plan holds exactly the actions a declarative
      specification of the observations warrants, in order, up to the cap.
    - Persistent indexes: where distinct blocks have distinct keys, a run of the persistent index answers as
      the in-memory one; a scan returns exactly the scope asked for.
    - Transfer engine: under any order of completions the pool stays bounded, launches every slice once and none
      after an error, ends, and announces layers in sequence; a batch of transfers is the byte-level copies in order;
      the servers of host and device arenas refine a byte memory (with a capacity, on the device) and end on
      every input; the endpoint store keeps its bound and never drops a connection in use; bytes written by
      one-sided RDMA are read back over one pooled connection; the metadata caches of all nodes converge to
      etcd's content when no watch has a gap and no request fails.
    - Clients: what a client puts is what a client gets, through allocation, wire and arenas, and a get returns
      the bytes of the last completed put under the same identity.
    - Gateway and servers: under every interleaving an engine's running count is its unanswered requests plus
      those dropped while it had them; what a request does is ordered, and a refusal tells what was done; the
      HTTP master answers and its state is the master's; the proxy asks decode only after its own prefill answered.
    - High availability: a save no other save overlaps is atomic under a crash at any byte, and the master that wins
      an election serves exactly the state of the last completed such save, when that state can be recovered; two
      overlapping saves tear the snapshot; at most one lease leads.
    - Composition: up to the range of its counters the cluster demo serves every get its bytes and
      refuses the other tenant; the benchmark leaves the same records in every index backend, one per
      block, and its scans hit exactly the block they name.
    - Runs ending in [Examples] files, and the last section of the smaller files, show behaviours outside the
      theorems: closed statements about the code as it is, recorded as findings in the manifest.

    ** Conventions

    - Unsigned integers are [Z].  An operation the debug build checks (overflow, index)
      returns [None], a panic; theorems that conclude [Some _] show it does not happen.
      Counters documented as unbounded in a file are plain [Z].
    - A loop that is not structural has a fuel argument and returns [None] without fuel; the
      caller passes a bound (the number of blocks, the length of the input), and the theorems
      prove that a result is produced.
    - A [HashMap] is a [gmap] and its iteration order the parameter [HashIter]; theorems hold
      for every order.  Other parameters stand for code outside the repository: [KeyHash]
      (the hasher), [EntryCodec], [WalCodec], [ResidencyCodec] and [SerdeJson] (serde_json and
      crc32fast), [PrefixStore] and [OrderedDb] (the key-value stores), [HeaderLib] (HTTP
      headers), [SegmentCodec] (serde_json on descriptors),
      [SnapshotCodec] (serde_json on snapshots), [Hca] (the RDMA adapter), [VerbsLib]
      and [IoMessages] (devices and the texts of system errors), [RegexEngine], [Libm], and the
      lists of results the CUDA driver and the RDMA verbs are to return; each class states
      the documented behaviour relied on and has a concrete instance.
    - A method under a lock is one step.  Methods that release a lock between
      phases, and async handlers at each await, are split into the steps other tasks can
      interleave with; a task may also be dropped at an await.
    - A mutex is poisoned by a panic under its guard, after which each [lock().unwrap()] panics;
      this is written out where a panic is reachable ([SharedSegment], [MasterHttp]).
    - The disk of the byte store: a write that returned is durable, in order; a crash keeps
      a prefix of the writes with the last one torn.  System calls do not fail otherwise.

    ** Not modelled

    The parsing of the command line and the printing of reports, the listening loops of the HTTP
    servers (axum's), and the unit tests.  What the repository calls in cudarc, etcd-client, rocksdb, holt, ibverbs, axum and
    serde is a parameter of the definitions that use it. *)
From stdpp Require Export base gmap strings list fin_maps list_numbers sorting.
From stdpp Require Import options.
#[global] Open Scope Z_scope.

(** ** Machine integers

    Every unsigned Rust integer is a [Z].  An operation that Rust checks in a
    debug build (overflow, underflow, out-of-bounds index) returns [None] when
    the check fails: a panic.  Theorems that conclude with [Some _] therefore
    also show that the release build does not wrap. *)

Definition u8_max : Z := 255.
Definition u32_max : Z := 4294967295.
Definition u64_max : Z := 18446744073709551615.
Definition is_u32 (z : Z) : Prop := 0 ≤ z ≤ u32_max.
Definition is_u64 (z : Z) : Prop := 0 ≤ z ≤ u64_max.

Definition u32_add (a b : Z) : option Z :=
  if a + b <=? u32_max then Some (a + b) else None.
Definition u32_sub (a b : Z) : option Z :=
  if b <=? a then Some (a - b) else None.
Definition u64_add (a b : Z) : option Z :=
  if a + b <=? u64_max then Some (a + b) else None.
Definition u64_sub (a b : Z) : option Z :=
  if b <=? a then Some (a - b) else None.
(** [saturating_sub] and [saturating_mul] on unsigned integers. *)
Definition sat_sub (a b : Z) : Z := Z.max 0 (a - b).
Definition u64_sat_mul (a b : Z) : Z := Z.min u64_max (a * b).
(** [iter().sum()] over [u64]: panics on overflow. *)
Definition u64_sum (l : list Z) : option Z :=
  foldl (λ acc x, a ← acc; u64_add a x) (Some 0) l.

(** [v[i]] and [v[i] = x] on a [Vec] or array. *)
Definition vget {A} (l : list A) (i : Z) : option A :=
  if 0 <=? i then l !! Z.to_nat i else None.
Definition vset {A} (l : list A) (i : Z) (x : A) : option (list A) :=
  if (0 <=? i) && (i <? Z.of_nat (length l)) then Some (<[Z.to_nat i := x]> l) else None.

(** ** Results

    [Result A] with the error type as first parameter, as in [Result<A, E>]. *)

Inductive result (E A : Type) : Type :=
| Ok (a : A)
| Err (e : E).
Arguments Ok {E A} _.
Arguments Err {E A} _.

Definition is_ok {E A} (r : result E A) : bool :=
  match r with Ok _ => true | Err _ => false end.

(** ** Automation *)

Create HintDb quill.
Create Rewrite HintDb quill.

(** Case analysis on every [match] / [if] of the goal, closing what is easy. *)
Ltac split_ifs :=
  repeat (case_match || case_bool_decide || case_decide); try done.

(** Boolean comparisons on [Z] in hypotheses and goal become propositions. *)
Ltac zbool :=
  repeat match goal with
  | H : (_ <=? _) = true |- _ => apply Z.leb_le in H
  | H : (_ <=? _) = false |- _ => apply Z.leb_gt in H
  | H : (_ <? _) = true |- _ => apply Z.ltb_lt in H
  | H : (_ <? _) = false |- _ => apply Z.ltb_ge in H
  | H : (_ =? _) = true |- _ => apply Z.eqb_eq in H
  | H : (_ =? _) = false |- _ => apply Z.eqb_neq in H
  | H : (_ && _) = true |- _ => apply andb_true_iff in H; destruct H
  | H : (_ && _) = false |- _ => apply andb_false_iff in H
  | H : (_ || _) = true |- _ => apply orb_true_iff in H
  | H : (_ || _) = false |- _ => apply orb_false_iff in H; destruct H
  | H : negb _ = true |- _ => apply negb_true_iff in H
  | H : negb _ = false |- _ => apply negb_false_iff in H
  end.

(** Destruct a successful chain of option binds in hypothesis [H]. *)
Tactic Notation "bind_inv" hyp(H) :=
  repeat match type of H with
  | (_ ≫= _) = Some _ =>
      let x := fresh "x" in let Hx := fresh "Hx" in
      apply bind_Some in H as (x & Hx & H)
  end.

(** ** Lemmas on the checked operations *)

Lemma u32_add_ok a b : a + b ≤ u32_max → u32_add a b = Some (a + b).
Proof. unfold u32_add. intros. destruct (Z.leb_spec (a + b) u32_max); [done|lia]. Qed.

Lemma u32_sub_ok a b : b ≤ a → u32_sub a b = Some (a - b).
Proof. unfold u32_sub. intros. destruct (Z.leb_spec b a); [done|lia]. Qed.

Lemma u64_add_ok a b : a + b ≤ u64_max → u64_add a b = Some (a + b).
Proof. unfold u64_add. intros. destruct (Z.leb_spec (a + b) u64_max); [done|lia]. Qed.

Lemma u64_sub_ok a b : b ≤ a → u64_sub a b = Some (a - b).
Proof. unfold u64_sub. intros. destruct (Z.leb_spec b a); [done|lia]. Qed.

Lemma u64_add_Some a b c : u64_add a b = Some c → c = a + b ∧ c ≤ u64_max.
Proof. unfold u64_add. intros. case_match; zbool; naive_solver. Qed.

Lemma u64_sum_foldl l a :
  Forall (λ x, 0 ≤ x) l → a + foldr Z.add 0 l ≤ u64_max →
  foldl (λ acc x, a ← acc; u64_add a x) (Some a) l = Some (a + foldr Z.add 0 l).
Proof.
  revert a. induction l as [|x l IH]; intros a Hpos Hle; simpl in *.
  - f_equal; lia.
  - apply Forall_cons in Hpos as [Hx Hl].
    assert (0 ≤ foldr Z.add 0 l) by (clear -Hl; induction Hl; simpl; lia).
    rewrite u64_add_ok by lia. rewrite IH by (done || lia). f_equal; lia.
Qed.

Lemma u64_sum_ok l :
  Forall (λ x, 0 ≤ x) l → foldr Z.add 0 l ≤ u64_max →
  u64_sum l = Some (foldr Z.add 0 l).
Proof. intros. unfold u64_sum. rewrite u64_sum_foldl by (done || lia). done. Qed.

Lemma foldr_add_nonneg l : Forall (λ x, 0 ≤ x) l → 0 ≤ foldr Z.add 0 l.
Proof. induction 1; simpl; lia. Qed.

Lemma foldr_add_perm l k : l ≡ₚ k → foldr Z.add 0 l = foldr Z.add 0 k.
Proof. induction 1; simpl; lia. Qed.

Lemma foldr_add_app l k : foldr Z.add 0 (l ++ k) = foldr Z.add 0 l + foldr Z.add 0 k.
Proof. induction l; simpl; lia. Qed.

Lemma vget_Some {A} (l : list A) i x :
  vget l i = Some x ↔ 0 ≤ i ∧ l !! Z.to_nat i = Some x.
Proof. unfold vget. destruct (Z.leb_spec 0 i); naive_solver lia. Qed.

Lemma vset_Some {A} (l : list A) i x l' :
  vset l i x = Some l' ↔ 0 ≤ i < Z.of_nat (length l) ∧ l' = <[Z.to_nat i := x]> l.
Proof.
  unfold vset. destruct (Z.leb_spec 0 i), (Z.ltb_spec i (Z.of_nat (length l))); simpl;
    naive_solver lia.
Qed.

Lemma vget_lt {A} (l : list A) i x : vget l i = Some x → 0 ≤ i < Z.of_nat (length l).
Proof. intros [? ?%lookup_lt_Some]%vget_Some. lia. Qed.

Lemma vget_is_Some {A} (l : list A) i :
  0 ≤ i < Z.of_nat (length l) → is_Some (vget l i).
Proof.
  intros [? ?]. unfold vget. destruct (Z.leb_spec 0 i); [|lia].
  apply lookup_lt_is_Some. lia.
Qed.

Lemma vget_insert {A} (l : list A) i j x :
  0 ≤ i < Z.of_nat (length l) →
  vget (<[Z.to_nat i := x]> l) j = if decide (i = j) then Some x else vget l j.
Proof.
  intros Hi. unfold vget. destruct (Z.leb_spec 0 j).
  - case_decide as Hd.
    + subst. rewrite list_lookup_insert_eq by lia. done.
    + rewrite list_lookup_insert_ne by lia. done.
  - case_decide; [lia|done].
Qed.

Section list_filter.
Context {A : Type} (P : A → Prop) `{∀ x, Decision (P x)}.

Lemma list_filter_all (l : list A) : (∀ x, x ∈ l → P x) → filter P l = l.
Proof.
  induction l as [|x l IH]; intros Hl; [done|]. rewrite filter_cons, decide_True by (apply Hl; set_solver).
  rewrite IH; [done|]. intros y Hy. apply Hl. by right.
Qed.

Lemma list_filter_none (l : list A) : (∀ x, x ∈ l → ¬ P x) → filter P l = [].
Proof.
  induction l as [|x l IH]; intros Hl; [done|]. rewrite filter_cons, decide_False by (apply Hl; set_solver).
  apply IH. intros y Hy. apply Hl. by right.
Qed.
End list_filter.

Lemma NoDup_fmap_filter {A B} (f : A → B) (P : A → Prop) `{∀ x, Decision (P x)} (l : list A) :
  NoDup (f <$> l) → NoDup (f <$> filter P l).
Proof.
  induction l as [|x l IH]; [done|]. rewrite fmap_cons, filter_cons. intros [Hx Hnd]%NoDup_cons. case_decide; [|by apply IH].
  rewrite fmap_cons. apply NoDup_cons. split; [|by apply IH]. intros (y & Hy & Hin)%list_elem_of_fmap.
  apply list_elem_of_filter in Hin as [_ Hin]. apply Hx. rewrite Hy. by apply list_elem_of_fmap_2.
Qed.

(** ** Stable sorting

    [slice::sort_by] and [sort_by_key] are stable.  For a total preorder the
    stable result is unique; insertion from the right computes it. *)

Section stable_sort.
Context {A : Type} (leb : A → A → bool).

Fixpoint sinsert (x : A) (l : list A) : list A :=
  match l with
  | [] => [x]
  | y :: l' => if leb x y then x :: y :: l' else y :: sinsert x l'
  end.

Definition stable_sort (l : list A) : list A := foldr sinsert [] l.

Lemma sinsert_perm x l : sinsert x l ≡ₚ x :: l.
Proof.
  induction l as [|y l IH]; simpl; [done|]. destruct (leb x y); [done|].
  rewrite IH. apply Permutation_swap.
Qed.

Lemma stable_sort_perm l : stable_sort l ≡ₚ l.
Proof. induction l as [|x l IH]; simpl; [done|]. by rewrite sinsert_perm, IH. Qed.

Lemma sinsert_sorted x l :
  (∀ a b, leb a b = false → leb b a = true) →
  (∀ a b c, leb a b = true → leb b c = true → leb a c = true) →
  StronglySorted (λ a b, leb a b = true) l →
  StronglySorted (λ a b, leb a b = true) (sinsert x l).
Proof.
  intros Htot Htr. induction 1 as [|y l Hl IH Hy]; simpl.
  - repeat constructor.
  - destruct (leb x y) eqn:Hxy.
    + constructor; [by constructor|]. constructor; [done|].
      eapply Forall_impl; [done|]. simpl. eauto.
    + constructor; [done|]. rewrite sinsert_perm. constructor; auto.
Qed.

Lemma stable_sort_sorted l :
  (∀ a b, leb a b = false → leb b a = true) →
  (∀ a b c, leb a b = true → leb b c = true → leb a c = true) →
  StronglySorted (λ a b, leb a b = true) (stable_sort l).
Proof. intros. induction l; simpl; [constructor|]. by apply sinsert_sorted. Qed.
End stable_sort.

(** ** Hash-map iteration

    A [HashMap] is a [gmap].  Its iteration order is unspecified: it is a
    parameter of every definition that iterates, constrained only to enumerate
    the map's entries. *)

Class HashIter : Type := {
  hiter : ∀ (K : Type) `{Countable K} (V : Type), gmap K V → list (K * V);
  hiter_perm : ∀ (K : Type) `{Countable K} (V : Type) (m : gmap K V),
    hiter K V m ≡ₚ map_to_list m
}.
Arguments hiter {_ _ _ _ _} _.

Definition canonical_iter : HashIter :=
  {| hiter := λ K _ _ V m, map_to_list m; hiter_perm := λ K _ _ V m, reflexivity _ |}.

Section hiter.
Context `{HashIter} `{Countable K} {V : Type}.
Implicit Types m : gmap K V.

Definition hkeys m : list K := (hiter m).*1.
Definition hvalues m : list V := (hiter m).*2.

Lemma elem_of_hiter m k v : (k, v) ∈ hiter m ↔ m !! k = Some v.
Proof. rewrite hiter_perm. apply elem_of_map_to_list. Qed.

Lemma elem_of_hkeys m k : k ∈ hkeys m ↔ is_Some (m !! k).
Proof.
  unfold hkeys. rewrite list_elem_of_fmap. split.
  - intros ([k' v] & -> & Hin%elem_of_hiter). eauto.
  - intros [v Hv]. exists (k, v). by rewrite elem_of_hiter.
Qed.

Lemma elem_of_hvalues m v : v ∈ hvalues m ↔ ∃ k, m !! k = Some v.
Proof.
  unfold hvalues. rewrite list_elem_of_fmap. split.
  - intros ([k v'] & -> & Hin%elem_of_hiter). eauto.
  - intros [k Hk]. exists (k, v). by rewrite elem_of_hiter.
Qed.

Lemma NoDup_hkeys m : NoDup (hkeys m).
Proof. unfold hkeys. rewrite hiter_perm. apply NoDup_fst_map_to_list. Qed.
End hiter.

#[export] Hint Rewrite @elem_of_hiter @elem_of_hkeys @elem_of_hvalues : quill.

(** ** Sums over maps *)

Section msum.
Context `{Countable K}.
Implicit Types m : gmap K Z.

Definition msum m : Z := map_fold (λ _ z acc, z + acc) 0 m.

Lemma msum_empty : msum ∅ = 0.
Proof. apply map_fold_empty. Qed.

Lemma msum_insert m k z : m !! k = None → msum (<[k := z]> m) = z + msum m.
Proof. intros Hk. unfold msum. rewrite map_fold_insert_L; [done|lia|done]. Qed.

Lemma msum_delete m k z : m !! k = Some z → msum m = z + msum (delete k m).
Proof. intros Hk. unfold msum. rewrite (map_fold_delete_L _ _ k z m); [done|lia|done]. Qed.

Lemma msum_nonneg m : map_Forall (λ _ z, 0 ≤ z) m → 0 ≤ msum m.
Proof.
  induction m as [|k z m Hk IH] using map_ind; intros Hm.
  - by rewrite msum_empty.
  - rewrite msum_insert by done. apply map_Forall_insert in Hm as [? ?%IH]; [lia|done].
Qed.

Lemma msum_elem m k z : map_Forall (λ _ z, 0 ≤ z) m → m !! k = Some z → z ≤ msum m.
Proof.
  intros Hm Hk. rewrite (msum_delete m k z Hk).
  pose proof (msum_nonneg (delete k m) (map_Forall_delete _ _ _ Hm)). lia.
Qed.
End msum.

Lemma msum_empty_Z : msum (∅ : gmap Z Z) = 0.
Proof. apply msum_empty. Qed.

(** ** Big-endian integers *)

(** [to_be_bytes] of an [8 * n]-bit integer. *)
Fixpoint be_bytes (n : nat) (z : Z) : list Z :=
  match n with O => [] | S n => be_bytes n (z / 256) ++ [z mod 256] end.
Definition from_be_bytes (l : list Z) : Z := foldl (λ a b, a * 256 + b) 0 l.

Lemma be_bytes_length n z : length (be_bytes n z) = n.
Proof. revert z. induction n as [|n IH]; intros z; simpl; [done|]. rewrite length_app, IH. simpl. lia. Qed.

Lemma from_be_bytes_be n z : 0 ≤ z < 256 ^ Z.of_nat n → from_be_bytes (be_bytes n z) = z.
Proof.
  revert z. induction n as [|n IH]; intros z Hz.
  { rewrite Z.pow_0_r in Hz. cbn. lia. }
  cbn [be_bytes]. unfold from_be_bytes in *. rewrite foldl_app, IH.
  - cbn. rewrite (Z.mul_comm _ 256). symmetry. apply Z.div_mod. lia.
  - rewrite Nat2Z.inj_succ, Z.pow_succ_r in Hz by lia. split; [apply Z.div_pos; lia|]. apply Z.div_lt_upper_bound; lia.
Qed.

Lemma from_be_bytes_snoc l b : from_be_bytes (l ++ [b]) = from_be_bytes l * 256 + b.
Proof. unfold from_be_bytes. by rewrite foldl_app. Qed.

Lemma from_be_bytes_bounds l : Forall (λ b, 0 ≤ b < 256) l → 0 ≤ from_be_bytes l < 256 ^ Z.of_nat (length l).
Proof.
  induction l as [|b l IH] using rev_ind; intros Hl; [by cbn|]. apply Forall_app in Hl as [Hl Hb]. apply Forall_cons in Hb as [Hb _].
  replace (Z.of_nat (length (l ++ [b]))) with (Z.succ (Z.of_nat (length l))) by (rewrite length_app; cbn; lia).
  rewrite from_be_bytes_snoc, Z.pow_succ_r by lia. specialize (IH Hl). lia.
Qed.

(** ** Running the model *)

(** A run that succeeds equals its default form: only the success is computed. *)
Lemma default_run {A} (o : option A) (z : A) : (if o then true else false) = true → o = Some (default z o).
Proof. by destruct o. Qed.
Ltac run := apply default_run; vm_compute; reflexivity.
