(* ===== verification/SmallFloat.v ===== *)
(** * Size bins of the offset allocator

    [small_float] of crates/quillcache-store/src/offset_allocator.rs: the 8-bit
    floating-point size classes (5-bit exponent, 3-bit mantissa), and the
    bit scan [find_lowest_set_bit_after].  The theorems characterise the three
    conversions by the bins' lower bounds: rounding down is the right adjoint of
    [float_to_uint], rounding up the left one. *)
From S2P Require Import Prelude.

Definition UNUSED : Z := 4294967295.
Definition NUM_TOP_BINS : nat := 32.
Definition NUM_LEAF_BINS : nat := 256.
Definition TOP_BINS_INDEX_SHIFT : Z := 3.
Definition LEAF_BINS_INDEX_MASK : Z := 7.
Definition MANTISSA_BITS : Z := 3.
Definition MANTISSA_VALUE : Z := 8.
Definition MANTISSA_MASK : Z := 7.
Definition MAX_BIN_SIZE : Z := 4026531840.

(** [u32::leading_zeros] and [u32::trailing_zeros]. *)
Definition leading_zeros32 (z : Z) : Z := if z =? 0 then 32 else 31 - Z.log2 z.

Fixpoint pos_trailing (p : positive) : Z :=
  match p with
  | xO q => 1 + pos_trailing q
  | _ => 0
  end.

Definition trailing_zeros32 (z : Z) : Z :=
  match z with Zpos p => pos_trailing p | _ => 32 end.

Definition uint_to_float_round_up (size : Z) : Z :=
  if size <? MANTISSA_VALUE then Z.shiftl 0 MANTISSA_BITS + size
  else
    let highest_set_bit := 31 - leading_zeros32 size in
    let mantissa_start_bit := highest_set_bit - MANTISSA_BITS in
    let exp := mantissa_start_bit + 1 in
    let mantissa := Z.land (Z.shiftr size mantissa_start_bit) MANTISSA_MASK in
    let low_bits_mask := Z.shiftl 1 mantissa_start_bit - 1 in
    let mantissa := if negb (Z.land size low_bits_mask =? 0) then mantissa + 1 else mantissa in
    Z.shiftl exp MANTISSA_BITS + mantissa.

Definition uint_to_float_round_down (size : Z) : Z :=
  if size <? MANTISSA_VALUE then Z.lor (Z.shiftl 0 MANTISSA_BITS) size
  else
    let highest_set_bit := 31 - leading_zeros32 size in
    let mantissa_start_bit := highest_set_bit - MANTISSA_BITS in
    let exp := mantissa_start_bit + 1 in
    let mantissa := Z.land (Z.shiftr size mantissa_start_bit) MANTISSA_MASK in
    Z.lor (Z.shiftl exp MANTISSA_BITS) mantissa.

(** The shift is on [u32]: bits past the 32nd are lost. *)
Definition float_to_uint (float_value : Z) : Z :=
  let exponent := Z.shiftr float_value MANTISSA_BITS in
  let mantissa := Z.land float_value MANTISSA_MASK in
  if exponent =? 0 then mantissa
  else Z.land (Z.shiftl (Z.lor mantissa MANTISSA_VALUE) (exponent - 1)) u32_max.

Definition find_lowest_set_bit_after (bit_mask start_bit_index : Z) : Z :=
  if 32 <=? start_bit_index then UNUSED
  else
    let mask_before_start := Z.shiftl 1 start_bit_index - 1 in
    let bits_after := Z.ldiff bit_mask mask_before_start in
    if bits_after =? 0 then UNUSED else trailing_zeros32 bits_after.

(** ** Bin lower bounds *)

(** The size a bin stands for, without the 32-bit truncation. *)
Definition bin_floor (b : Z) : Z :=
  if b <? 8 then b else (8 + b mod 8) * 2 ^ (b / 8 - 1).

Lemma bin_floor_step b : 0 ≤ b → bin_floor (b + 1) = bin_floor b + 2 ^ Z.max 0 (b / 8 - 1).
Proof.
  intros Hb. unfold bin_floor.
  destruct (Z.ltb_spec b 8), (Z.ltb_spec (b + 1) 8); try lia.
  - rewrite (Z.div_small b 8) by lia. done.
  - assert (b = 7) as -> by lia. done.
  - pose proof (Z.div_mod b 8 ltac:(lia)) as Hdm.
    pose proof (Z.mod_pos_bound b 8 ltac:(lia)).
    assert (1 ≤ b / 8) by (apply Z.div_le_lower_bound; lia).
    rewrite Z.max_r by lia.
    destruct (decide (b mod 8 = 7)) as [E|E].
    + assert ((b + 1) mod 8 = 0) as -> by (rewrite Hdm, E; replace (8 * (b / 8) + 7 + 1) with ((b / 8 + 1) * 8) by lia; apply Z_mod_mult).
      assert ((b + 1) / 8 = b / 8 + 1) as -> by (symmetry; apply (Z.div_unique _ _ _ 0); lia).
      rewrite E. replace (b / 8 + 1 - 1) with (Z.succ (b / 8 - 1)) by lia.
      rewrite Z.pow_succ_r by lia. lia.
    + assert ((b + 1) / 8 = b / 8) as -> by (symmetry; apply (Z.div_unique _ _ _ (b mod 8 + 1)); lia).
      assert ((b + 1) mod 8 = b mod 8 + 1) as -> by (symmetry; apply (Z.mod_unique _ _ (b / 8)); lia).
      lia.
Qed.

Lemma bin_floor_lt b c : 0 ≤ b < c → bin_floor b < bin_floor c.
Proof.
  intros Hbc. replace c with (b + 1 + (c - b - 1)) by lia.
  generalize (Z.le_0_sub (b + 1) c). intros [_ Hd].
  assert (0 ≤ c - b - 1) as Hk by lia. clear Hd. revert Hk.
  generalize (c - b - 1) as k. apply natlike_ind.
  - rewrite Z.add_0_r, bin_floor_step by lia. pose proof (Z.pow_pos_nonneg 2 (Z.max 0 (b / 8 - 1)) ltac:(lia) ltac:(lia)). lia.
  - intros k Hk IH. replace (b + 1 + Z.succ k) with (b + 1 + k + 1) by lia.
    rewrite bin_floor_step by lia.
    pose proof (Z.pow_pos_nonneg 2 (Z.max 0 ((b + 1 + k) / 8 - 1)) ltac:(lia) ltac:(lia)). lia.
Qed.

Lemma bin_floor_le b c : 0 ≤ b ≤ c → bin_floor b ≤ bin_floor c.
Proof. intros. destruct (decide (b = c)) as [->|]; [done|]. apply Z.lt_le_incl, bin_floor_lt. lia. Qed.

Lemma bin_floor_nonneg b : 0 ≤ b → 0 ≤ bin_floor b.
Proof. intros. pose proof (bin_floor_le 0 b ltac:(lia)) as H'. done. Qed.

(** The mantissa computed by both conversions. *)
Lemma mantissa_spec size st :
  8 ≤ size → st = Z.log2 size - 3 →
  0 ≤ st ∧ 8 ≤ size / 2 ^ st ≤ 15 ∧
  Z.land (Z.shiftr size st) MANTISSA_MASK = size / 2 ^ st - 8.
Proof.
  intros Hs ->.
  assert (3 ≤ Z.log2 size) by (apply Z.log2_le_pow2; simpl; lia).
  destruct (Z.log2_spec size ltac:(lia)) as [Hlo Hhi].
  set (st := Z.log2 size - 3) in *.
  replace (Z.log2 size) with (st + 3) in Hlo by lia.
  replace (Z.succ (Z.log2 size)) with (st + 4) in Hhi by lia.
  rewrite Z.pow_add_r in Hlo, Hhi by lia.
  assert (0 < 2 ^ st) by (apply Z.pow_pos_nonneg; lia).
  assert (8 ≤ size / 2 ^ st) by (apply Z.div_le_lower_bound; lia).
  assert (size / 2 ^ st < 16) by (apply Z.div_lt_upper_bound; lia).
  split_and!; [lia..|].
  rewrite Z.shiftr_div_pow2 by lia. change MANTISSA_MASK with (Z.ones 3).
  rewrite Z.land_ones by lia. change (2 ^ 3) with 8.
  symmetry. apply (Z.mod_unique _ _ 1); lia.
Qed.

Lemma highest_set_bit_log2 size : 0 < size → 31 - leading_zeros32 size = Z.log2 size.
Proof. intros. unfold leading_zeros32. destruct (Z.eqb_spec size 0); lia. Qed.

Lemma testbit_small m k n : 0 ≤ m < 2 ^ k → 0 ≤ k ≤ n → Z.testbit m n = false.
Proof. intros Hm Hk. rewrite <- (Z.mod_small m (2 ^ k)) by done. apply Z.mod_pow2_bits_high. lia. Qed.

Lemma lor_shiftl e m k : 0 ≤ k → 0 ≤ m < 2 ^ k → Z.lor (Z.shiftl e k) m = e * 2 ^ k + m.
Proof.
  intros Hk Hm. rewrite <- Z.shiftl_mul_pow2 by done. symmetry. apply Z.add_nocarry_lor.
  apply Z.bits_inj'. intros n Hn. rewrite Z.land_spec, Z.bits_0.
  destruct (Z.lt_ge_cases n k).
  - rewrite Z.shiftl_spec_low by done. done.
  - rewrite (testbit_small m k n) by lia. apply andb_false_r.
Qed.

Lemma land_low_ones size k : 0 ≤ k → Z.land size (Z.shiftl 1 k - 1) = size mod 2 ^ k.
Proof.
  intros. rewrite Z.shiftl_1_l. rewrite <- Z.land_ones by done.
  rewrite Z.ones_equiv. f_equal; lia.
Qed.

Lemma bin_floor_split e m : 1 ≤ e → 0 ≤ m < 8 → bin_floor (8 * e + m) = (8 + m) * 2 ^ (e - 1).
Proof.
  intros He Hm. unfold bin_floor. destruct (Z.ltb_spec (8 * e + m) 8); [lia|].
  rewrite <- (Z.div_unique (8 * e + m) 8 e m) by lia.
  rewrite <- (Z.mod_unique (8 * e + m) 8 e m) by lia. done.
Qed.

(** [float_to_uint] is the bin's lower bound, for every bin a [u32] size falls in. *)
Lemma float_to_uint_floor b : 0 ≤ b < 240 → float_to_uint b = bin_floor b.
Proof.
  intros Hb. unfold float_to_uint, bin_floor.
  change MANTISSA_MASK with (Z.ones 3). change MANTISSA_BITS with 3.
  rewrite Z.land_ones, Z.shiftr_div_pow2 by lia. change (2 ^ 3) with 8.
  destruct (Z.ltb_spec b 8).
  - rewrite Z.div_small, Z.mod_small by lia. done.
  - assert (1 ≤ b / 8) by (apply Z.div_le_lower_bound; lia).
    assert (b / 8 ≤ 29) by (apply Z.lt_succ_r, Z.div_lt_upper_bound; lia).
    destruct (Z.eqb_spec (b / 8) 0); [lia|].
    pose proof (Z.mod_pos_bound b 8 ltac:(lia)).
    rewrite Z.lor_comm. change MANTISSA_VALUE with (Z.shiftl 1 3).
    rewrite lor_shiftl by (simpl; lia). change (1 * 2 ^ 3) with 8.
    rewrite Z.shiftl_mul_pow2 by lia. change u32_max with (Z.ones 32).
    rewrite Z.land_ones by lia. apply Z.mod_small.
    assert (2 ^ (b / 8 - 1) ≤ 2 ^ 28) by (apply Z.pow_le_mono_r; lia).
    pose proof (Z.pow_pos_nonneg 2 (b / 8 - 1) ltac:(lia) ltac:(lia)).
    split; [nia|]. change (2 ^ 32) with (16 * 2 ^ 28). nia.
Qed.

Lemma round_down_bounds size :
  0 ≤ size →
  0 ≤ uint_to_float_round_down size ∧
  bin_floor (uint_to_float_round_down size) ≤ size < bin_floor (uint_to_float_round_down size + 1).
Proof.
  intros Hs. unfold uint_to_float_round_down. change MANTISSA_VALUE with 8.
  destruct (Z.ltb_spec size 8).
  - simpl. rewrite Z.shiftl_0_l, Z.lor_0_l. rewrite bin_floor_step by lia.
    rewrite Z.div_small by lia. unfold bin_floor.
    destruct (Z.ltb_spec size 8); [|lia]. simpl. lia.
  - rewrite highest_set_bit_log2 by lia. change MANTISSA_BITS with 3.
    destruct (mantissa_spec size (Z.log2 size - 3)) as (Hst & Hm & ->); [done..|].
    set (st := Z.log2 size - 3) in *. cbv zeta.
    rewrite lor_shiftl by (simpl; lia). change (2 ^ 3) with 8.
    replace ((st + 1) * 8 + (size / 2 ^ st - 8)) with (8 * (st + 1) + (size / 2 ^ st - 8)) by lia.
    set (m := size / 2 ^ st - 8) in *.
    rewrite bin_floor_step by lia. rewrite bin_floor_split by lia.
    rewrite <- (Z.div_unique (8 * (st + 1) + m) 8 (st + 1) m) by lia.
    rewrite Z.max_r by lia. replace (st + 1 - 1) with st by lia.
    assert (0 < 2 ^ st) by (apply Z.pow_pos_nonneg; lia).
    pose proof (Z.div_mod size (2 ^ st) ltac:(lia)).
    pose proof (Z.mod_pos_bound size (2 ^ st) ltac:(lia)).
    subst m. nia.
Qed.

(** Rounding up is rounding down, plus one bin when the size is not a bin bound. *)
Lemma round_up_down size :
  0 ≤ size →
  uint_to_float_round_up size =
    uint_to_float_round_down size +
    (if bin_floor (uint_to_float_round_down size) =? size then 0 else 1).
Proof.
  intros Hs. unfold uint_to_float_round_up, uint_to_float_round_down.
  change MANTISSA_VALUE with 8. destruct (Z.ltb_spec size 8).
  - rewrite Z.shiftl_0_l, Z.lor_0_l. unfold bin_floor.
    destruct (Z.ltb_spec size 8); [|lia]. rewrite Z.eqb_refl. lia.
  - rewrite highest_set_bit_log2 by lia. change MANTISSA_BITS with 3. cbv zeta.
    destruct (mantissa_spec size (Z.log2 size - 3)) as (Hst & Hm & ->); [done..|].
    set (st := Z.log2 size - 3) in *.
    rewrite lor_shiftl by (simpl; lia). rewrite Z.shiftl_mul_pow2 by lia. change (2 ^ 3) with 8.
    rewrite land_low_ones by done.
    replace ((st + 1) * 8 + (size / 2 ^ st - 8)) with (8 * (st + 1) + (size / 2 ^ st - 8)) by lia.
    rewrite bin_floor_split by lia. replace (st + 1 - 1) with st by lia.
    assert (0 < 2 ^ st) by (apply Z.pow_pos_nonneg; lia).
    pose proof (Z.div_mod size (2 ^ st) ltac:(lia)).
    destruct (Z.eqb_spec (size mod 2 ^ st) 0), (Z.eqb_spec ((8 + (size / 2 ^ st - 8)) * 2 ^ st) size);
      simpl; lia || nia.
Qed.

(** ** The adjunctions *)

Lemma round_down_adjoint size b :
  0 ≤ size → 0 ≤ b → b ≤ uint_to_float_round_down size ↔ bin_floor b ≤ size.
Proof.
  intros Hs Hb. destruct (round_down_bounds size Hs) as (H0 & Hlo & Hhi). split; intros Hle.
  - pose proof (bin_floor_le b _ (conj Hb Hle)). lia.
  - apply Z.nlt_ge. intros Hlt.
    pose proof (bin_floor_le (uint_to_float_round_down size + 1) b ltac:(lia)). lia.
Qed.

Lemma round_up_adjoint size b :
  0 ≤ size → 0 ≤ b → uint_to_float_round_up size ≤ b ↔ size ≤ bin_floor b.
Proof.
  intros Hs Hb. rewrite round_up_down by done.
  destruct (round_down_bounds size Hs) as (H0 & Hlo & Hhi).
  destruct (Z.eqb_spec (bin_floor (uint_to_float_round_down size)) size) as [E|E]; split; intros Hle.
  - rewrite <- E. apply bin_floor_le. lia.
  - apply Z.nlt_ge. intros Hlt. pose proof (bin_floor_lt b (uint_to_float_round_down size) ltac:(lia)). lia.
  - pose proof (bin_floor_le (uint_to_float_round_down size + 1) b ltac:(lia)). lia.
  - apply Z.nlt_ge. intros Hlt. pose proof (bin_floor_le b (uint_to_float_round_down size) ltac:(lia)). lia.
Qed.

Lemma round_up_nonneg size : 0 ≤ size → 0 ≤ uint_to_float_round_up size.
Proof.
  intros Hs. rewrite round_up_down by done. pose proof (round_down_bounds size Hs). case_match; lia.
Qed.

Lemma round_down_lt size b : 0 ≤ size → 0 ≤ b → size < bin_floor b → uint_to_float_round_down size < b.
Proof. intros. apply Z.nle_gt. rewrite round_down_adjoint by lia. lia. Qed.

Lemma round_down_u32 size : is_u32 size → 0 ≤ uint_to_float_round_down size < 240.
Proof.
  unfold is_u32, u32_max. intros. split; [apply round_down_bounds; lia|].
  apply round_down_lt; [lia..|]. change (bin_floor 240) with 4294967296. lia.
Qed.

Lemma round_up_max size : 0 ≤ size ≤ MAX_BIN_SIZE → 0 ≤ uint_to_float_round_up size < 240.
Proof.
  intros. split; [apply round_up_nonneg; lia|].
  enough (uint_to_float_round_up size ≤ 239) by lia.
  apply round_up_adjoint; [lia..|]. change (bin_floor 239) with MAX_BIN_SIZE. lia.
Qed.

Lemma round_down_floor b : 0 ≤ b → uint_to_float_round_down (bin_floor b) = b.
Proof.
  intros Hb. pose proof (bin_floor_nonneg b Hb) as Hf.
  apply Z.le_antisymm; [|by apply round_down_adjoint].
  apply Z.nlt_ge. intros Hlt.
  pose proof (bin_floor_lt b _ (conj Hb Hlt)).
  pose proof (round_down_bounds _ Hf). lia.
Qed.

(** ** Bit scans *)

Lemma trailing_zeros_spec z :
  0 < z → 0 ≤ trailing_zeros32 z ∧ Z.testbit z (trailing_zeros32 z) = true ∧
  ∀ j, 0 ≤ j < trailing_zeros32 z → Z.testbit z j = false.
Proof.
  destruct z as [|p|p]; [lia| |lia]. intros _. simpl.
  induction p as [p IH|p IH|]; simpl pos_trailing.
  - split_and!; [lia|done|lia].
  - destruct IH as (H0 & H1 & H2). change (Zpos (xO p)) with (2 * Zpos p).
    replace (1 + pos_trailing p) with (Z.succ (pos_trailing p)) by lia.
    split_and!; [lia| |].
    + by rewrite Z.testbit_even_succ by done.
    + intros j Hj. destruct (decide (j = 0)) as [->|]; [apply Z.testbit_even_0|].
      replace j with (Z.succ (j - 1)) by lia. rewrite Z.testbit_even_succ by lia. apply H2. lia.
  - split_and!; [lia|done|lia].
Qed.

Lemma testbit_nonzero z j : 0 ≤ z → Z.testbit z j = true → 0 < z.
Proof. intros. destruct (decide (z = 0)) as [->|]; [|lia]. by rewrite Z.bits_0 in *. Qed.

Lemma testbit_bound z k j : 0 ≤ z < 2 ^ k → 0 ≤ k → Z.testbit z j = true → 0 ≤ j < k.
Proof.
  intros Hz Hk Hb. split.
  - destruct (Z.lt_ge_cases j 0); [|done]. by rewrite Z.testbit_neg_r in Hb.
  - apply Z.nle_gt. intros ?. rewrite (testbit_small z k j) in Hb by lia. done.
Qed.

Lemma testbit_ldiff_below z s j :
  0 ≤ s → Z.testbit (Z.ldiff z (Z.shiftl 1 s - 1)) j = bool_decide (s ≤ j) && Z.testbit z j.
Proof.
  intros Hs. rewrite Z.shiftl_1_l. replace (2 ^ s - 1) with (Z.ones s) by (rewrite Z.ones_equiv; lia).
  destruct (Z.lt_ge_cases j 0).
  - rewrite !(Z.testbit_neg_r _ j) by done. by rewrite andb_false_r.
  - rewrite Z.ldiff_spec. case_bool_decide.
    + rewrite Z.ones_spec_high by lia. simpl. apply andb_true_r.
    + rewrite Z.ones_spec_low by lia. simpl. apply andb_false_r.
Qed.

(** The scan returns the least set bit at or after the start, or [UNUSED]. *)
Lemma find_lowest_set_bit_after_spec mask start :
  0 ≤ mask < 2 ^ 32 → 0 ≤ start →
  let r := find_lowest_set_bit_after mask start in
  (r = UNUSED ∧ ∀ j, start ≤ j → Z.testbit mask j = false) ∨
  (start ≤ r < 32 ∧ Z.testbit mask r = true ∧ ∀ j, start ≤ j < r → Z.testbit mask j = false).
Proof.
  intros Hm Hs. unfold find_lowest_set_bit_after. destruct (Z.leb_spec 32 start).
  - left. split; [done|]. intros j Hj. apply (testbit_small mask 32); lia.
  - set (bits := Z.ldiff mask (Z.shiftl 1 start - 1)). cbv zeta.
    assert (∀ j, Z.testbit bits j = bool_decide (start ≤ j) && Z.testbit mask j) as Hbits
      by (intros; by apply testbit_ldiff_below).
    assert (0 ≤ bits) by (apply Z.ldiff_nonneg; left; lia).
    destruct (Z.eqb_spec bits 0) as [E|E].
    + left. split; [done|]. intros j Hj. specialize (Hbits j). rewrite E, Z.bits_0 in Hbits.
      by rewrite bool_decide_true in Hbits.
    + right. destruct (trailing_zeros_spec bits ltac:(lia)) as (Ht0 & Ht1 & Ht2).
      rewrite Hbits in Ht1. apply andb_true_iff in Ht1 as [Hge%bool_decide_eq_true Hb].
      pose proof (testbit_bound mask 32 _ Hm ltac:(lia) Hb).
      split_and!; [done|lia|done|]. intros j Hj. specialize (Ht2 j ltac:(lia)).
      rewrite Hbits, bool_decide_true in Ht2 by lia. done.
Qed.
