(* ===== verification/CoreAllocator.v ===== *)
(** * The core offset allocator

    [CoreAllocator] of crates/quillcache-store/src/offset_allocator.rs (the port
    of Aaltonen's OffsetAllocator): a node pool threaded by two intrusive doubly
    linked lists (size bins and physical neighbours) and a two-level bitmap of
    non-empty bins.  Operations are state passing in the [option] monad, [None]
    being a panic (index out of bounds, [u32] overflow, failed debug assertion). *)
From S2P Require Import Prelude SmallFloat.

Record Node : Type := mkNode {
  data_offset : Z;
  data_size : Z;
  bin_list_prev : Z;
  bin_list_next : Z;
  neighbor_prev : Z;
  neighbor_next : Z;
  used : bool
}.

Definition node_default : Node := mkNode 0 0 UNUSED UNUSED UNUSED UNUSED false.

Definition set_data_size (z : Z) (n : Node) : Node :=
  mkNode (data_offset n) z (bin_list_prev n) (bin_list_next n) (neighbor_prev n) (neighbor_next n) (used n).
Definition set_bin_list_prev (z : Z) (n : Node) : Node :=
  mkNode (data_offset n) (data_size n) z (bin_list_next n) (neighbor_prev n) (neighbor_next n) (used n).
Definition set_bin_list_next (z : Z) (n : Node) : Node :=
  mkNode (data_offset n) (data_size n) (bin_list_prev n) z (neighbor_prev n) (neighbor_next n) (used n).
Definition set_neighbor_prev (z : Z) (n : Node) : Node :=
  mkNode (data_offset n) (data_size n) (bin_list_prev n) (bin_list_next n) z (neighbor_next n) (used n).
Definition set_neighbor_next (z : Z) (n : Node) : Node :=
  mkNode (data_offset n) (data_size n) (bin_list_prev n) (bin_list_next n) (neighbor_prev n) z (used n).
Definition set_used (b : bool) (n : Node) : Node :=
  mkNode (data_offset n) (data_size n) (bin_list_prev n) (bin_list_next n) (neighbor_prev n) (neighbor_next n) b.

Record OffsetAllocation : Type := mkOffsetAllocation { oa_offset : Z; oa_metadata : Z }.

Definition NO_SPACE : OffsetAllocation := mkOffsetAllocation UNUSED UNUSED.
Definition is_no_space (a : OffsetAllocation) : bool := oa_metadata a =? UNUSED.

Record StorageReport : Type := mkStorageReport { total_free_space : Z; report_largest : Z }.

Record CoreAllocator : Type := mkCore {
  core_size : Z;
  current_capacity : Z;
  max_capacity : Z;
  free_storage : Z;
  used_bins_top : Z;
  used_bins : list Z;
  bin_indices : list Z;
  nodes : list Node;
  free_nodes : list Z;
  free_offset : Z
}.

Definition with_free_storage (z : Z) (s : CoreAllocator) : CoreAllocator :=
  mkCore (core_size s) (current_capacity s) (max_capacity s) z (used_bins_top s) (used_bins s)
    (bin_indices s) (nodes s) (free_nodes s) (free_offset s).
Definition with_bitmap (top : Z) (bins : list Z) (s : CoreAllocator) : CoreAllocator :=
  mkCore (core_size s) (current_capacity s) (max_capacity s) (free_storage s) top bins
    (bin_indices s) (nodes s) (free_nodes s) (free_offset s).
Definition with_bin_indices (l : list Z) (s : CoreAllocator) : CoreAllocator :=
  mkCore (core_size s) (current_capacity s) (max_capacity s) (free_storage s) (used_bins_top s) (used_bins s)
    l (nodes s) (free_nodes s) (free_offset s).
Definition with_nodes (l : list Node) (s : CoreAllocator) : CoreAllocator :=
  mkCore (core_size s) (current_capacity s) (max_capacity s) (free_storage s) (used_bins_top s) (used_bins s)
    (bin_indices s) l (free_nodes s) (free_offset s).
Definition with_free_list (l : list Z) (off : Z) (s : CoreAllocator) : CoreAllocator :=
  mkCore (core_size s) (current_capacity s) (max_capacity s) (free_storage s) (used_bins_top s) (used_bins s)
    (bin_indices s) (nodes s) l off.

(** [self.nodes[i].field = ...]. *)
Definition update_node (i : Z) (f : Node → Node) (s : CoreAllocator) : option CoreAllocator :=
  n ← vget (nodes s) i;
  l ← vset (nodes s) i (f n);
  Some (with_nodes l s).

(** The same write, skipped when the index is the sentinel. *)
Definition update_node_opt (i : Z) (f : Node → Node) (s : CoreAllocator) : option CoreAllocator :=
  if i =? UNUSED then Some s else update_node i f s.

Definition top_bin (bin_index : Z) : Z := Z.shiftr bin_index TOP_BINS_INDEX_SHIFT.
Definition leaf_bin (bin_index : Z) : Z := Z.land bin_index LEAF_BINS_INDEX_MASK.

(** Set both bitmap levels of a bin. *)
Definition set_bin_bits (top leaf : Z) (s : CoreAllocator) : option CoreAllocator :=
  w ← vget (used_bins s) top;
  bins ← vset (used_bins s) top (Z.lor w (Z.shiftl 1 leaf));
  Some (with_bitmap (Z.lor (used_bins_top s) (Z.shiftl 1 top)) bins s).

(** Clear the leaf bit of a bin that became empty, and the top bit with the last leaf. *)
Definition clear_bin_bits (top leaf : Z) (s : CoreAllocator) : option CoreAllocator :=
  w ← vget (used_bins s) top;
  let w' := Z.ldiff w (Z.shiftl 1 leaf) in
  bins ← vset (used_bins s) top w';
  Some (with_bitmap (if w' =? 0 then Z.ldiff (used_bins_top s) (Z.shiftl 1 top) else used_bins_top s) bins s).

Definition insert_node_into_bin (size offset : Z) (s : CoreAllocator) : option (Z * CoreAllocator) :=
  let bin_index := uint_to_float_round_down size in
  let top_bin_index := top_bin bin_index in
  let leaf_bin_index := leaf_bin bin_index in
  top_node_index ← vget (bin_indices s) bin_index;
  s1 ← (if top_node_index =? UNUSED then set_bin_bits top_bin_index leaf_bin_index s else Some s);
  node_index ← vget (free_nodes s1) (free_offset s1);
  off' ← u32_add (free_offset s1) 1;
  let s2 := with_free_list (free_nodes s1) off' s1 in
  s3 ← update_node node_index
         (λ _, mkNode offset size UNUSED top_node_index UNUSED UNUSED false) s2;
  s4 ← update_node_opt top_node_index (set_bin_list_prev node_index) s3;
  bins ← vset (bin_indices s4) bin_index node_index;
  let s5 := with_bin_indices bins s4 in
  fs ← u32_add (free_storage s5) size;
  Some (node_index, with_free_storage fs s5).

(** Unlink a node from its bin list: from the middle, or by repointing the bin. *)
Definition unlink (n : Node) (s : CoreAllocator) : option CoreAllocator :=
  let prev := bin_list_prev n in
  let next := bin_list_next n in
  if negb (prev =? UNUSED) then
    s1 ← update_node prev (set_bin_list_next next) s;
    update_node_opt next (set_bin_list_prev prev) s1
  else
    let bin_index := uint_to_float_round_down (data_size n) in
    bins ← vset (bin_indices s) bin_index next;
    s1 ← update_node_opt next (set_bin_list_prev UNUSED) (with_bin_indices bins s);
    if next =? UNUSED then clear_bin_bits (top_bin bin_index) (leaf_bin bin_index) s1
    else Some s1.

Definition remove_node_from_bin (node_index : Z) (s : CoreAllocator) : option CoreAllocator :=
  n ← vget (nodes s) node_index;
  s1 ← unlink n s;
  off' ← u32_sub (free_offset s1) 1;
  fn ← vset (free_nodes s1) off' node_index;
  let s2 := with_free_list fn off' s1 in
  n' ← vget (nodes s2) node_index;
  fs ← u32_sub (free_storage s2) (data_size n');
  Some (with_free_storage fs s2).

Definition reset (s : CoreAllocator) : option CoreAllocator :=
  let n := Z.to_nat (current_capacity s) in
  let s' := mkCore (core_size s) (current_capacity s) (max_capacity s) 0 0
              (replicate NUM_TOP_BINS 0) (replicate NUM_LEAF_BINS UNUSED)
              (replicate n node_default) (seqZ 0 (current_capacity s)) 0 in
  '(_, s'') ← insert_node_into_bin (core_size s) 0 s';
  Some s''.

Definition core_new (size init_capacity max_cap : Z) : option CoreAllocator :=
  reset (mkCore size init_capacity (Z.max init_capacity max_cap) 0 0
           (replicate NUM_TOP_BINS 0) (replicate NUM_LEAF_BINS UNUSED) [] [] 0).

(** One more slot at the end of the node pool. *)
Definition grow (s : CoreAllocator) : option CoreAllocator :=
  cap ← u32_add (current_capacity s) 1;
  Some (mkCore (core_size s) cap (max_capacity s) (free_storage s) (used_bins_top s) (used_bins s)
          (bin_indices s) (nodes s ++ [node_default]) (free_nodes s ++ [current_capacity s]) (free_offset s)).

(** The two-level search: the smallest non-empty bin at or above [min_bin_index]. *)
Definition find_bin (s : CoreAllocator) (min_bin_index : Z) : option (option (Z * Z)) :=
  let min_top := top_bin min_bin_index in
  let min_leaf := leaf_bin min_bin_index in
  leaf ← (if negb (Z.land (used_bins_top s) (Z.shiftl 1 min_top) =? 0) then
            w ← vget (used_bins s) min_top;
            Some (find_lowest_set_bit_after w min_leaf)
          else Some UNUSED);
  if leaf =? UNUSED then
    let top := find_lowest_set_bit_after (used_bins_top s) (min_top + 1) in
    if top =? UNUSED then Some None
    else
      w ← vget (used_bins s) top;
      Some (Some (top, trailing_zeros32 w))
  else Some (Some (min_top, leaf)).

(** Pop the head node of a bin and mark it used with the rounded-up size. *)
Definition pop_bin (top leaf roundup_size : Z) (s : CoreAllocator) : option (Z * Node * CoreAllocator) :=
  let bin_index := Z.lor (Z.shiftl top TOP_BINS_INDEX_SHIFT) leaf in
  node_index ← vget (bin_indices s) bin_index;
  n ← vget (nodes s) node_index;
  s1 ← update_node node_index (λ m, set_used true (set_data_size roundup_size m)) s;
  bins ← vset (bin_indices s1) bin_index (bin_list_next n);
  let s2 := with_bin_indices bins s1 in
  s3 ← update_node_opt (bin_list_next n) (set_bin_list_prev UNUSED) s2;
  fs ← u32_sub (free_storage s3) (data_size n);
  let s4 := with_free_storage fs s3 in
  s5 ← (if bin_list_next n =? UNUSED then clear_bin_bits top leaf s4 else Some s4);
  Some (node_index, n, s5).

(** Push the remainder of a split node back as its next neighbour. *)
Definition push_remainder (node_index : Z) (n : Node) (roundup_size : Z) (s : CoreAllocator) : option CoreAllocator :=
  reminder_size ← u32_sub (data_size n) roundup_size;
  if 0 <? reminder_size then
    off ← u32_add (data_offset n) roundup_size;
    '(new_node_index, s1) ← insert_node_into_bin reminder_size off s;
    s2 ← update_node_opt (neighbor_next n) (set_neighbor_prev new_node_index) s1;
    s3 ← update_node new_node_index (set_neighbor_prev node_index) s2;
    s4 ← update_node new_node_index (set_neighbor_next (neighbor_next n)) s3;
    update_node node_index (set_neighbor_next new_node_index) s4
  else Some s.

Definition core_allocate (size : Z) (s : CoreAllocator) : option (OffsetAllocation * CoreAllocator) :=
  if free_offset s =? max_capacity s then Some (NO_SPACE, s)
  else
    s1 ← (if free_offset s =? current_capacity s then grow s else Some s);
    let min_bin_index := uint_to_float_round_up size in
    found ← find_bin s1 min_bin_index;
    match found with
    | None => Some (NO_SPACE, s1)
    | Some (top, leaf) =>
        let roundup_size := float_to_uint min_bin_index in
        '(node_index, n, s2) ← pop_bin top leaf roundup_size s1;
        s3 ← push_remainder node_index n roundup_size s2;
        Some (mkOffsetAllocation (data_offset n) node_index, s3)
    end.

(** Merge a node being freed with a free physical neighbour: the neighbour leaves
    its bin, its offset (when it precedes) and size join the region, and the
    freed node inherits its outer link. *)
Definition merge_prev (node_index offset size : Z) (s : CoreAllocator) : option (Z * Z * CoreAllocator) :=
  n ← vget (nodes s) node_index;
  let nb := neighbor_prev n in
  if nb =? UNUSED then Some (offset, size, s)
  else
    p ← vget (nodes s) nb;
    if used p then Some (offset, size, s)
    else
      size' ← u32_add size (data_size p);
      s1 ← remove_node_from_bin nb s;
      p' ← vget (nodes s1) nb;
      s2 ← update_node node_index (set_neighbor_prev (neighbor_prev p')) s1;
      Some (data_offset p, size', s2).

Definition merge_next (node_index size : Z) (s : CoreAllocator) : option (Z * CoreAllocator) :=
  n ← vget (nodes s) node_index;
  let nb := neighbor_next n in
  if nb =? UNUSED then Some (size, s)
  else
    p ← vget (nodes s) nb;
    if used p then Some (size, s)
    else
      size' ← u32_add size (data_size p);
      s1 ← remove_node_from_bin nb s;
      p' ← vget (nodes s1) nb;
      s2 ← update_node node_index (set_neighbor_next (neighbor_next p')) s1;
      Some (size', s2).

(** Return the node to the free list, insert the combined region and relink it. *)
Definition reinsert (node_index offset size : Z) (s : CoreAllocator) : option CoreAllocator :=
  n ← vget (nodes s) node_index;
  let final_next := neighbor_next n in
  let final_prev := neighbor_prev n in
  off' ← u32_sub (free_offset s) 1;
  fn ← vset (free_nodes s) off' node_index;
  '(combined, s1) ← insert_node_into_bin size offset (with_free_list fn off' s);
  s2 ← (if final_next =? UNUSED then Some s1
        else s2 ← update_node combined (set_neighbor_next final_next) s1;
             update_node final_next (set_neighbor_prev combined) s2);
  if final_prev =? UNUSED then Some s2
  else s3 ← update_node combined (set_neighbor_prev final_prev) s2;
       update_node final_prev (set_neighbor_next combined) s3.

Definition core_free (a : OffsetAllocation) (s : CoreAllocator) : option CoreAllocator :=
  if oa_metadata a =? UNUSED then None (* debug_assert *)
  else
    match nodes s with
    | [] => Some s
    | _ =>
        let node_index := oa_metadata a in
        n ← vget (nodes s) node_index;
        if negb (used n) then None (* debug_assert *)
        else
          '(offset, size, s1) ← merge_prev node_index (data_offset n) (data_size n) s;
          '(size', s2) ← merge_next node_index size s1;
          reinsert node_index offset size' s2
    end.

Definition core_storage_report (s : CoreAllocator) : option StorageReport :=
  if free_offset s <? max_capacity s then
    if used_bins_top s =? 0 then Some (mkStorageReport (free_storage s) 0)
    else
      let top := 31 - leading_zeros32 (used_bins_top s) in
      w ← vget (used_bins s) top;
      let leaf := 31 - leading_zeros32 w in
      Some (mkStorageReport (free_storage s)
              (float_to_uint (Z.lor (Z.shiftl top TOP_BINS_INDEX_SHIFT) leaf)))
  else Some (mkStorageReport 0 0).

(** The [while] loop grows by one slot per turn, so [n] turns are enough. *)
Fixpoint ensure_capacity_loop (fuel : nat) (n : Z) (s : CoreAllocator) : option (bool * CoreAllocator) :=
  avail ← u32_sub (current_capacity s) (free_offset s);
  if avail <? n then
    if current_capacity s =? max_capacity s then Some (false, s)
    else match fuel with
         | O => None
         | S fuel' => s' ← grow s; ensure_capacity_loop fuel' n s'
         end
  else Some (true, s).

Definition ensure_capacity (n : Z) (s : CoreAllocator) : option (bool * CoreAllocator) :=
  ensure_capacity_loop (Z.to_nat n) n s.

(** Walk one bin list for a region covering [offset, end_); a list never holds
    more nodes than the pool. *)
Fixpoint walk_bin (fuel : nat) (s : CoreAllocator) (idx offset end_ : Z) : option Z :=
  if idx =? UNUSED then Some UNUSED
  else
    match fuel with
    | O => None
    | S fuel' =>
        n ← vget (nodes s) idx;
        if data_offset n <=? offset then
          e ← u32_add (data_offset n) (data_size n);
          if end_ <=? e then Some idx else walk_bin fuel' s (bin_list_next n) offset end_
        else walk_bin fuel' s (bin_list_next n) offset end_
    end.

Fixpoint find_covering (bins : list Z) (s : CoreAllocator) (offset end_ : Z) : option Z :=
  match bins with
  | [] => Some UNUSED
  | head :: rest =>
      r ← walk_bin (length (nodes s)) s head offset end_;
      if r =? UNUSED then find_covering rest s offset end_ else Some r
  end.

(** Re-thread the pieces of a carved region between its outer neighbours. *)
Fixpoint rethread (prev : Z) (l : list Z) (s : CoreAllocator) : option (Z * CoreAllocator) :=
  match l with
  | [] => Some (prev, s)
  | cur :: l' =>
      s1 ← update_node cur (set_neighbor_prev prev) s;
      s2 ← update_node_opt prev (set_neighbor_next cur) s1;
      rethread cur l' s2
  end.

(** The before-free, used and after-free nodes of a region [r_off, r_off + r_len)
    carved at [offset, end_), with the index of the used one. *)
Definition carve_pieces (r_off r_len offset size end_ : Z) (s : CoreAllocator) :
    option (list Z * Z * CoreAllocator) :=
  '(before, s1) ← (if r_off <? offset then
                     '(i, s2) ← insert_node_into_bin (offset - r_off) r_off s;
                     Some ([i], s2)
                   else Some ([], s));
  u ← vget (free_nodes s1) (free_offset s1);
  off' ← u32_add (free_offset s1) 1;
  s2 ← update_node u (λ _, mkNode offset size UNUSED UNUSED UNUSED UNUSED true)
         (with_free_list (free_nodes s1) off' s1);
  r_end ← u32_add r_off r_len;
  '(after, s3) ← (if end_ <? r_end then
                    '(i, s2) ← insert_node_into_bin (r_end - end_) end_ s2;
                    Some ([i], s2)
                  else Some ([], s2));
  Some (before ++ [u] ++ after, u, s3).

(** Replace a covering region by its pieces and re-thread the neighbour links. *)
Definition carve (covering offset size end_ : Z) (s : CoreAllocator) : option (Z * CoreAllocator) :=
  c ← vget (nodes s) covering;
  s1 ← remove_node_from_bin covering s;
  '(pieces, u, s4) ← carve_pieces (data_offset c) (data_size c) offset size end_ s1;
  '(prev, s5) ← rethread (neighbor_prev c) pieces s4;
  s6 ← update_node prev (set_neighbor_next (neighbor_next c)) s5;
  s7 ← update_node_opt (neighbor_next c) (set_neighbor_prev prev) s6;
  Some (u, s7).

Definition core_reserve_exact (offset size : Z) (s : CoreAllocator) :
    option (option OffsetAllocation * CoreAllocator) :=
  if size =? 0 then Some (None, s)
  else
    let end_ := offset + size in
    if u32_max <? end_ then Some (None, s) (* checked_add *)
    else
      '(enough, s1) ← ensure_capacity 3 s;
      if negb enough then Some (None, s1)
      else
        covering ← find_covering (bin_indices s1) s1 offset end_;
        if covering =? UNUSED then Some (None, s1)
        else
          '(u, s2) ← carve covering offset size end_ s1;
          Some (Some (mkOffsetAllocation offset u), s2).
