(* ===== verification/CoreBins.v ===== *)
(** * Bin bookkeeping of the core allocator

    Invariants and specifications of the bitmap, of the bin lists and of the
    free-node stack, and of the two operations that maintain them,
    [insert_node_into_bin] and [remove_node_from_bin]. *)
From S2P Require Import Prelude SmallFloat CoreAllocator.

(** ** The two-level bitmap *)

Definition bitmap (top : Z) (words : list Z) (E : Z → bool) : Prop :=
  0 ≤ top < 2 ^ 32 ∧ length words = NUM_TOP_BINS ∧
  ∀ t, 0 ≤ t < 32 → ∃ w, vget words t = Some w ∧ 0 ≤ w < 2 ^ 8 ∧
    (∀ l, 0 ≤ l < 8 → Z.testbit w l = E (8 * t + l)) ∧
    Z.testbit top t = negb (w =? 0).

Lemma top_leaf_split b : 0 ≤ b → b = 8 * top_bin b + leaf_bin b ∧ 0 ≤ leaf_bin b < 8 ∧ 0 ≤ top_bin b.
Proof.
  intros Hb. unfold top_bin, leaf_bin, TOP_BINS_INDEX_SHIFT, LEAF_BINS_INDEX_MASK.
  rewrite Z.shiftr_div_pow2 by lia. change 7 with (Z.ones 3). rewrite Z.land_ones by lia.
  change (2 ^ 3) with 8. pose proof (Z.div_mod b 8 ltac:(lia)).
  pose proof (Z.mod_pos_bound b 8 ltac:(lia)). pose proof (Z.div_pos b 8 Hb ltac:(lia)). lia.
Qed.

Lemma top_bin_lt b : 0 ≤ b < 256 → 0 ≤ top_bin b < 32.
Proof. intros. destruct (top_leaf_split b); lia. Qed.

Lemma bin_of_top_leaf t l :
  0 ≤ t → 0 ≤ l < 8 → Z.lor (Z.shiftl t TOP_BINS_INDEX_SHIFT) l = 8 * t + l.
Proof. intros. unfold TOP_BINS_INDEX_SHIFT. rewrite lor_shiftl by (simpl; lia). lia. Qed.

Lemma pow2_testbit l j : 0 ≤ l → Z.testbit (Z.shiftl 1 l) j = bool_decide (j = l).
Proof.
  intros. rewrite Z.shiftl_1_l. case_bool_decide; subst.
  - by apply Z.pow2_bits_true.
  - by apply Z.pow2_bits_false.
Qed.

Lemma bits_lt w k : 0 ≤ k → 0 ≤ w → (∀ j, k ≤ j → Z.testbit w j = false) → w < 2 ^ k.
Proof.
  intros Hk Hw Hb. destruct (decide (w = 0)) as [->|]; [apply Z.pow_pos_nonneg; lia|].
  apply Z.log2_lt_pow2; [lia|]. apply Z.nle_gt. intros Hle.
  specialize (Hb _ Hle). rewrite Z.bit_log2 in Hb by lia. done.
Qed.

Lemma lor_bit_bounds w l k : 0 ≤ l < k → 0 ≤ w < 2 ^ k → 0 < Z.lor w (Z.shiftl 1 l) < 2 ^ k.
Proof.
  intros Hl Hw. assert (0 ≤ Z.lor w (Z.shiftl 1 l)) by (apply Z.lor_nonneg; rewrite Z.shiftl_1_l; split; [lia|]; apply Z.pow_nonneg; lia).
  split.
  - apply (testbit_nonzero _ l); [done|]. rewrite Z.lor_spec, pow2_testbit, bool_decide_true by lia. apply orb_true_r.
  - apply bits_lt; [lia..|]. intros j Hj.
    rewrite Z.lor_spec, pow2_testbit, (testbit_small w k) by lia. rewrite bool_decide_false by lia. done.
Qed.

Lemma ldiff_bounds w x k : 0 ≤ k → 0 ≤ w < 2 ^ k → 0 ≤ Z.ldiff w x < 2 ^ k.
Proof.
  intros Hk Hw. assert (0 ≤ Z.ldiff w x) by (apply Z.ldiff_nonneg; left; lia).
  split; [done|]. apply bits_lt; [lia..|]. intros j Hj.
  rewrite Z.ldiff_spec, (testbit_small w k) by lia. done.
Qed.

Definition upd {A} (f : Z → A) (b : Z) (x : A) : Z → A := λ b', if b' =? b then x else f b'.

Lemma upd_eq {A} (f : Z → A) b x : upd f b x b = x.
Proof. unfold upd. by rewrite Z.eqb_refl. Qed.
Lemma upd_ne {A} (f : Z → A) b b' x : b' ≠ b → upd f b x b' = f b'.
Proof. unfold upd. intros. destruct (Z.eqb_spec b' b); done. Qed.

Lemma bitmap_ext top words E E' : (∀ b, 0 ≤ b < 256 → E b = E' b) → bitmap top words E → bitmap top words E'.
Proof.
  intros HE (Ht & Hl & Hw). split; [done|split; [done|]]. intros t Htb.
  destruct (Hw t Htb) as (w & ? & ? & Hbits & ?). exists w. split_and!; try done; try lia.
  intros l Hlb. rewrite Hbits by done. apply HE. lia.
Qed.

Lemma set_bin_bits_spec s E b :
  bitmap (used_bins_top s) (used_bins s) E → 0 ≤ b < 256 →
  ∃ top words, set_bin_bits (top_bin b) (leaf_bin b) s = Some (with_bitmap top words s) ∧
    bitmap top words (upd E b true).
Proof.
  intros (Ht & Hlen & Hw) Hb. pose proof (top_bin_lt b Hb) as Htb.
  destruct (top_leaf_split b) as (Eb & Hleaf & _); [lia|].
  destruct (Hw _ Htb) as (w & Hget & Hwb & Hbits & Htop).
  unfold set_bin_bits. rewrite Hget. simpl.
  pose proof (lor_bit_bounds w (leaf_bin b) 8 Hleaf Hwb).
  assert (0 ≤ top_bin b < Z.of_nat (length (used_bins s))) as Hin by (rewrite Hlen; unfold NUM_TOP_BINS; lia).
  rewrite (proj2 (vset_Some _ _ _ _) (conj Hin eq_refl)). simpl.
  eexists _, _. split; [done|]. split_and!.
  1,2: pose proof (lor_bit_bounds (used_bins_top s) (top_bin b) 32 Htb Ht); lia.
  { by rewrite length_insert. }
  intros t Htt. rewrite vget_insert by done. rewrite Z.lor_spec, pow2_testbit by lia.
  case_decide as Hd.
  - subst t. eexists. split; [done|]. split_and!; [lia..| |].
    + intros l Hl. rewrite Z.lor_spec, pow2_testbit, Hbits by lia. unfold upd.
      case_bool_decide; destruct (Z.eqb_spec (8 * top_bin b + l) b);
        first [lia | apply orb_true_r | apply orb_false_r].
    + rewrite bool_decide_true, orb_true_r by done.
      destruct (Z.eqb_spec (Z.lor w (Z.shiftl 1 (leaf_bin b))) 0); [lia|done].
  - destruct (Hw t Htt) as (w' & ? & ? & Hb' & Htop'). exists w'. split_and!; try done; try lia.
    + intros l Hl. rewrite Hb' by done. rewrite upd_ne by lia. done.
    + by rewrite bool_decide_false, orb_false_r by lia.
Qed.

Lemma clear_bin_bits_spec s E b :
  bitmap (used_bins_top s) (used_bins s) E → 0 ≤ b < 256 →
  ∃ top words, clear_bin_bits (top_bin b) (leaf_bin b) s = Some (with_bitmap top words s) ∧
    bitmap top words (upd E b false).
Proof.
  intros (Ht & Hlen & Hw) Hb. pose proof (top_bin_lt b Hb) as Htb.
  destruct (top_leaf_split b) as (Eb & Hleaf & _); [lia|].
  destruct (Hw _ Htb) as (w & Hget & Hwb & Hbits & Htop).
  unfold clear_bin_bits. rewrite Hget. simpl.
  assert (0 ≤ top_bin b < Z.of_nat (length (used_bins s))) as Hin by (rewrite Hlen; unfold NUM_TOP_BINS; lia).
  rewrite (proj2 (vset_Some _ _ _ _) (conj Hin eq_refl)). simpl.
  set (w' := Z.ldiff w (Z.shiftl 1 (leaf_bin b))).
  pose proof (ldiff_bounds w (Z.shiftl 1 (leaf_bin b)) 8 ltac:(lia) Hwb) as Hw'. fold w' in Hw'.
  pose proof (ldiff_bounds (used_bins_top s) (Z.shiftl 1 (top_bin b)) 32 ltac:(lia) Ht).
  eexists _, _. split; [done|]. split_and!.
  1,2: case_match; lia.
  { by rewrite length_insert. }
  intros t Htt. rewrite vget_insert by done. case_decide as Hd.
  - subst t. eexists. split; [done|]. split_and!; [lia..| |].
    + intros l Hl. unfold w'. rewrite Z.ldiff_spec, pow2_testbit, Hbits by lia. unfold upd.
      case_bool_decide; destruct (Z.eqb_spec (8 * top_bin b + l) b);
        first [lia | apply andb_false_r | apply andb_true_r].
    + destruct (Z.eqb_spec w' 0) as [E0|E0]; simpl.
      * by rewrite Z.ldiff_spec, pow2_testbit, bool_decide_true, andb_false_r by lia.
      * rewrite Htop. destruct (Z.eqb_spec w 0) as [->|]; [|done]. by destruct E0.
  - destruct (Hw t Htt) as (w1 & ? & ? & Hb' & Htop'). exists w1. split_and!; try done; try lia.
    + intros l Hl. rewrite Hb' by done. rewrite upd_ne by lia. done.
    + destruct (w' =? 0); [|done].
      by rewrite Z.ldiff_spec, pow2_testbit, bool_decide_false, andb_true_r by lia.
Qed.

(** The search returns the least non-empty bin at or above its argument. *)
Lemma find_bin_spec s E m :
  bitmap (used_bins_top s) (used_bins s) E → 0 ≤ m < 256 →
  (find_bin s m = Some None ∧ ∀ b, m ≤ b < 256 → E b = false) ∨
  (∃ t l, find_bin s m = Some (Some (t, l)) ∧ 0 ≤ t < 32 ∧ 0 ≤ l < 8 ∧
     m ≤ 8 * t + l ∧ E (8 * t + l) = true ∧ ∀ b, m ≤ b < 8 * t + l → E b = false).
Proof.
  intros (Ht & Hlen & Hw) Hm. pose proof (top_bin_lt m Hm) as Htm.
  destruct (top_leaf_split m) as (Em & Hleaf & _); [lia|].
  unfold find_bin. set (t0 := top_bin m) in *. set (l0 := leaf_bin m) in *.
  destruct (Hw _ Htm) as (w & Hget & Hwb & Hbits & Htop).
  assert ((negb (Z.land (used_bins_top s) (Z.shiftl 1 t0) =? 0)) = Z.testbit (used_bins_top s) t0) as ->.
  { destruct (Z.testbit (used_bins_top s) t0) eqn:Et.
    - destruct (Z.eqb_spec (Z.land (used_bins_top s) (Z.shiftl 1 t0)) 0) as [E0|]; [|done].
      apply (f_equal (λ z, Z.testbit z t0)) in E0.
      rewrite Z.land_spec, pow2_testbit, bool_decide_true, Et, Z.bits_0 in E0 by lia. done.
    - destruct (Z.eqb_spec (Z.land (used_bins_top s) (Z.shiftl 1 t0)) 0) as [|E0]; [done|].
      destruct E0. apply Z.bits_inj'. intros j Hj. rewrite Z.land_spec, pow2_testbit, Z.bits_0 by lia.
      case_bool_decide as Hj0; [by rewrite Hj0, Et|apply andb_false_r]. }
  assert (∀ leaf, (if Z.testbit (used_bins_top s) t0
            then w0 ← vget (used_bins s) t0; Some (find_lowest_set_bit_after w0 l0)
            else Some UNUSED) = Some leaf →
          (leaf = UNUSED ∧ ∀ b, m ≤ b < 8 * t0 + 8 → E b = false) ∨
          (leaf ≠ UNUSED ∧ l0 ≤ leaf < 8 ∧ E (8 * t0 + leaf) = true ∧
           ∀ b, m ≤ b < 8 * t0 + leaf → E b = false)) as Hfirst.
  { intros leaf. rewrite Htop. destruct (Z.eqb_spec w 0) as [E0|E0]; simpl.
    - intros [= <-]. left. split; [done|]. intros b Hb.
      replace b with (8 * t0 + (b - 8 * t0)) by lia. rewrite <- Hbits by lia. by rewrite E0, Z.bits_0.
    - rewrite Hget. simpl. intros [= <-].
      destruct (find_lowest_set_bit_after_spec w l0) as [[-> Hn]|(Hr & Hs & Hn)]; [lia..| |].
      + left. split; [done|]. intros b Hb.
        replace b with (8 * t0 + (b - 8 * t0)) by lia. rewrite <- Hbits by lia. apply Hn. lia.
      + pose proof (testbit_bound w 8 _ Hwb ltac:(lia) Hs).
        right. split_and!; [unfold UNUSED; lia..| |].
        * rewrite <- Hbits by lia. done.
        * intros b Hb. replace b with (8 * t0 + (b - 8 * t0)) by lia. rewrite <- Hbits by lia. apply Hn. lia. }
  destruct (if Z.testbit (used_bins_top s) t0 then _ else _) as [leaf|] eqn:El.
  2:{ destruct (Z.testbit (used_bins_top s) t0); [|done]. by rewrite Hget in El. }
  simpl. destruct (Hfirst leaf eq_refl) as [[-> Hnone]|(Hne & Hlb & HE & Hmin)].
  - rewrite Z.eqb_refl.
    destruct (find_lowest_set_bit_after_spec (used_bins_top s) (t0 + 1)) as [[-> Hn]|(Hr & Hs & Hn)]; [lia..| |].
    + rewrite Z.eqb_refl. left. split; [done|]. intros b Hb.
      destruct (decide (b < 8 * t0 + 8)); [apply Hnone; lia|].
      destruct (top_leaf_split b) as (Eb & ? & ?); [lia|].
      destruct (Hw (top_bin b)) as (w' & ? & ? & Hb' & Htop'); [lia|].
      rewrite Hn in Htop' by lia. symmetry in Htop'. apply negb_false_iff, Z.eqb_eq in Htop'.
      rewrite Eb, <- Hb' by lia. by rewrite Htop', Z.bits_0.
    + set (t := find_lowest_set_bit_after (used_bins_top s) (t0 + 1)) in *.
      destruct (Z.eqb_spec t UNUSED); [unfold UNUSED in *; lia|].
      destruct (Hw t) as (w' & Hget' & Hw'b & Hb' & Htop'); [lia|]. rewrite Hget'. simpl.
      rewrite Hs in Htop'. symmetry in Htop'. apply negb_true_iff, Z.eqb_neq in Htop'.
      destruct (trailing_zeros_spec w') as (Hz0 & Hz1 & Hz2); [lia|].
      pose proof (testbit_bound w' 8 _ Hw'b ltac:(lia) Hz1).
      right. eexists _, _. split_and!; [done|lia..| |].
      * rewrite <- Hb' by lia. done.
      * intros b Hb. destruct (decide (b < 8 * t0 + 8)); [apply Hnone; lia|].
        destruct (top_leaf_split b) as (Eb & ? & ?); [lia|].
        destruct (decide (top_bin b = t)) as [Et|].
        -- rewrite Eb, Et, <- Hb' by lia. apply Hz2. lia.
        -- destruct (Hw (top_bin b)) as (w1 & ? & ? & Hb1 & Htop1); [lia|].
           rewrite Hn in Htop1 by lia. symmetry in Htop1. apply negb_false_iff, Z.eqb_eq in Htop1.
           rewrite Eb, <- Hb1 by lia. by rewrite Htop1, Z.bits_0.
  - destruct (Z.eqb_spec leaf UNUSED); [done|]. right. exists t0, leaf. split_and!; try done; lia.
Qed.
