(* ===== verification/CoreLists.v ===== *)
(** * Linked lists and node pool of the core allocator

    Doubly linked list segments over an abstract link function (used for the bin
    lists and for the physical-neighbour list), the free-node stack, and the
    bin-list invariant. *)
From S2P Require Import Prelude SmallFloat CoreAllocator CoreBins.

(** ** Doubly linked segments *)

Definition hd_or (d : Z) (l : list Z) : Z := match l with [] => d | i :: _ => i end.
Definition last_or (d : Z) (l : list Z) : Z := match last l with None => d | Some i => i end.

(** [link i] is the pair of the previous and next links of node [i]. *)
Fixpoint dseg (link : Z → option (Z * Z)) (pp : Z) (l : list Z) (nn : Z) : Prop :=
  match l with
  | [] => True
  | i :: l' => link i = Some (pp, hd_or nn l') ∧ dseg link i l' nn
  end.

Lemma hd_or_app d l k : hd_or d (l ++ k) = hd_or (hd_or d k) l.
Proof. by destruct l. Qed.

Lemma last_or_cons d i l : last_or d (i :: l) = last_or i l.
Proof. unfold last_or. destruct l; [done|]. rewrite last_cons_cons. by destruct (last (z :: l)) eqn:E; [|apply last_None in E]. Qed.

Lemma last_or_snoc d l i : last_or d (l ++ [i]) = i.
Proof. unfold last_or. by rewrite last_snoc. Qed.

Lemma dseg_ext link link' pp l nn :
  (∀ i, i ∈ l → link' i = link i) → dseg link pp l nn → dseg link' pp l nn.
Proof.
  revert pp. induction l as [|i l IH]; intros pp Hext; simpl; [done|].
  intros [Hi Hl]. split.
  - rewrite Hext by set_solver. done.
  - apply IH; [set_solver|done].
Qed.

Lemma dseg_app link pp l k nn :
  dseg link pp (l ++ k) nn ↔ dseg link pp l (hd_or nn k) ∧ dseg link (last_or pp l) k nn.
Proof.
  revert pp. induction l as [|i l IH]; intros pp; simpl.
  - naive_solver.
  - rewrite IH, hd_or_app, last_or_cons. naive_solver.
Qed.

Lemma dseg_set_last link pp l x p nn nn' :
  x ∉ l → dseg link pp (l ++ [x]) nn → link x = Some (p, nn) →
  dseg (upd link x (Some (p, nn'))) pp (l ++ [x]) nn'.
Proof.
  intros Hx [Hl [Hlx _]]%dseg_app Hp. apply dseg_app. simpl in *. split.
  - eapply dseg_ext, Hl. intros i Hi. apply upd_ne. set_solver.
  - split; [|done]. rewrite upd_eq. rewrite Hp in Hlx. congruence.
Qed.

Lemma dseg_set_first link pp x l q nn pp' :
  x ∉ l → dseg link pp (x :: l) nn → link x = Some (pp, q) →
  dseg (upd link x (Some (pp', q))) pp' (x :: l) nn.
Proof.
  intros Hx [Hlx Hl] Hp. simpl. split.
  - rewrite upd_eq. rewrite Hp in Hlx. congruence.
  - eapply dseg_ext, Hl. intros i Hi. apply upd_ne. set_solver.
Qed.

Lemma dseg_link link pp l nn i : dseg link pp l nn → i ∈ l → ∃ p q, link i = Some (p, q).
Proof.
  revert pp. induction l as [|j l IH]; intros pp; simpl; [set_solver|].
  intros [Hj Hl] [->|Hin]%elem_of_cons; eauto.
Qed.

(** The links of a member, by splitting the list at it. *)
Lemma dseg_split link pp l i k nn :
  dseg link pp (l ++ i :: k) nn → link i = Some (last_or pp l, hd_or nn k).
Proof. intros [_ [Hi _]]%dseg_app. done. Qed.

(** Fill the gap between two segments with [m]: the node before the gap points to
    its first node, the node after the gap back to its last. *)
Lemma dseg_fill link link' pp l x y k nn m :
  NoDup (l ++ k) → dseg link pp l x → dseg link y k nn →
  (∀ j, j ∈ l ++ k → last l ≠ Some j → head k ≠ Some j → link' j = link j) →
  (∀ l0 a p q, l = l0 ++ [a] → link a = Some (p, q) → link' a = Some (p, hd_or (hd_or nn k) m)) →
  (∀ a k0 p q, k = a :: k0 → link a = Some (p, q) → link' a = Some (last_or (last_or pp l) m, q)) →
  dseg link' (last_or pp l) m (hd_or nn k) →
  dseg link' pp (l ++ m ++ k) nn.
Proof.
  intros (Hndl & Hlk & Hndk)%NoDup_app Hl Hk Hsame Hx Hy Hm.
  apply dseg_app. rewrite hd_or_app. split; [|apply dseg_app; split; [done|]].
  - destruct l as [|a l0 _] using rev_ind; [done|].
    apply NoDup_app in Hndl as (_ & Hx0 & _).
    destruct (dseg_link _ _ _ _ a Hl) as (p & q & Hpq); [set_solver|].
    pose proof Hl as [_ [Hq _]]%dseg_app. simpl in Hq. rewrite Hq in Hpq. injection Hpq as <- <-.
    eapply dseg_ext; [|eapply (dseg_set_last _ _ _ _ _ _ (hd_or (hd_or nn k) m)); [set_solver|done|done]].
    intros j Hj. unfold upd. destruct (Z.eqb_spec j a) as [->|Hne]; [by eapply Hx|].
    apply Hsame; [set_solver|rewrite last_snoc; congruence|].
    destruct k; [done|]. simpl. intros [= ->]. set_solver.
  - destruct k as [|a k0]; [done|].
    destruct (dseg_link _ _ _ _ a Hk) as (p & q & Hpq); [set_solver|].
    pose proof Hk as [Hq _]. simpl in Hq. rewrite Hq in Hpq. injection Hpq as <- <-.
    apply NoDup_cons in Hndk as [Hyk _].
    eapply dseg_ext; [|eapply (dseg_set_first _ _ _ _ _ _ (last_or (last_or pp l) m)); [done|done|done]].
    intros j Hj. unfold upd. destruct (Z.eqb_spec j a) as [->|Hne]; [by eapply Hy|].
    apply Hsame; [set_solver| |simpl; congruence].
    intros [l0 ->]%last_Some. set_solver.
Qed.

(** Unlink [i]: the node before now points past it, the node after points back. *)
Lemma dseg_unlink link link' pp l i k nn :
  NoDup (l ++ i :: k) → dseg link pp (l ++ i :: k) nn →
  (∀ j, j ∈ l ++ k → last l ≠ Some j → head k ≠ Some j → link' j = link j) →
  (∀ l0 x p q, l = l0 ++ [x] → link x = Some (p, q) → link' x = Some (p, hd_or nn k)) →
  (∀ y k0 p q, k = y :: k0 → link y = Some (p, q) → link' y = Some (last_or pp l, q)) →
  dseg link' pp (l ++ k) nn.
Proof.
  intros Hnd [Hl [Hi Hk]]%dseg_app Hsame Hx Hy.
  eapply (dseg_fill link link' pp l _ _ k nn []); try done.
  apply NoDup_app in Hnd as (? & ? & [? ?]%NoDup_cons). apply NoDup_app. set_solver.
Qed.

(** ** The free-node stack *)

(** [L] is the list of nodes in use; the others are stacked above [fo]. *)
Definition pool (s : CoreAllocator) (L : list Z) : Prop :=
  length (nodes s) = Z.to_nat (current_capacity s) ∧
  length (free_nodes s) = Z.to_nat (current_capacity s) ∧
  0 ≤ free_offset s ≤ current_capacity s ∧
  current_capacity s ≤ max_capacity s ≤ u32_max ∧
  L ++ drop (Z.to_nat (free_offset s)) (free_nodes s) ≡ₚ seqZ 0 (current_capacity s).

Lemma pool_perm s L L' : L ≡ₚ L' → pool s L → pool s L'.
Proof. unfold pool. intros HL. by rewrite HL. Qed.

Lemma pool_length s L : pool s L → Z.of_nat (length L) = free_offset s.
Proof.
  intros (Hn & Hf & Ho & Hm & HP). apply Permutation_length in HP.
  rewrite length_app, length_drop, length_seqZ in HP. lia.
Qed.

Lemma pool_NoDup s L : pool s L → NoDup L.
Proof.
  intros (_ & _ & _ & _ & HP). pose proof (NoDup_seqZ 0 (current_capacity s)) as Hnd.
  rewrite <- HP in Hnd. by apply NoDup_app in Hnd as [? _].
Qed.

Lemma pool_elem s L i : pool s L → i ∈ L → 0 ≤ i < current_capacity s.
Proof.
  intros (_ & _ & _ & _ & HP) Hi. assert (i ∈ seqZ 0 (current_capacity s)) as H'.
  { rewrite <- HP. set_solver. }
  apply elem_of_seqZ in H'. lia.
Qed.

Lemma pool_node s L i : pool s L → i ∈ L → ∃ n, vget (nodes s) i = Some n ∧ i ≠ UNUSED.
Proof.
  intros HP Hi. pose proof (pool_elem _ _ _ HP Hi). destruct HP as (Hn & _ & _ & Hm & _).
  destruct (vget_is_Some (nodes s) i) as [n Hg]; [lia|]. exists n. split; [done|].
  unfold UNUSED, u32_max in *. lia.
Qed.

(** Popping the stack takes an unused node. *)
Lemma pool_pop s L :
  pool s L → free_offset s < current_capacity s →
  ∃ i n, vget (free_nodes s) (free_offset s) = Some i ∧ i ∉ L ∧ i ≠ UNUSED ∧
    vget (nodes s) i = Some n ∧
    i :: (L ++ drop (Z.to_nat (free_offset s + 1)) (free_nodes s)) ≡ₚ seqZ 0 (current_capacity s).
Proof.
  intros HP Hlt. pose proof HP as (Hn & Hf & Ho & Hm & Hperm).
  destruct (vget_is_Some (free_nodes s) (free_offset s)) as [i Hi]; [lia|].
  pose proof Hi as [_ Hl]%vget_Some.
  rewrite (drop_S _ _ _ Hl) in Hperm.
  assert (i ∈ seqZ 0 (current_capacity s)) as Hin by (rewrite <- Hperm; set_solver).
  apply elem_of_seqZ in Hin. destruct (vget_is_Some (nodes s) i) as [n Hg]; [lia|].
  pose proof (NoDup_seqZ 0 (current_capacity s)) as Hnd. rewrite <- Hperm in Hnd.
  apply NoDup_app in Hnd as (_ & Hdis & _).
  exists i, n. split_and!; [done|set_solver|unfold UNUSED, u32_max in *; lia|done|].
  rewrite <- Hperm. replace (Z.to_nat (free_offset s + 1)) with (S (Z.to_nat (free_offset s))) by lia.
  by rewrite Permutation_middle.
Qed.

(** Pushing a node returns it to the stack. *)
Lemma pool_push s i L :
  pool s (i :: L) →
  0 ≤ free_offset s - 1 < Z.of_nat (length (free_nodes s)) ∧
  L ++ drop (Z.to_nat (free_offset s - 1)) (<[Z.to_nat (free_offset s - 1) := i]> (free_nodes s))
    ≡ₚ seqZ 0 (current_capacity s).
Proof.
  intros HP. pose proof (pool_length _ _ HP) as Hlen. simpl in Hlen.
  destruct HP as (Hn & Hf & Ho & Hm & Hperm). split; [lia|].
  assert (Z.to_nat (free_offset s) = S (Z.to_nat (free_offset s - 1))) as Hk by lia.
  rewrite Hk in Hperm. set (k := Z.to_nat (free_offset s - 1)) in *.
  assert (k < length (free_nodes s))%nat by lia.
  rewrite (drop_S _ i k) by (by apply list_lookup_insert_eq).
  rewrite drop_insert_lt by lia. rewrite <- Hperm. simpl. by rewrite Permutation_middle.
Qed.

(** ** Bin lists *)

(** The part of a node the bin operations do not touch, and its bin links. *)
Definition body (n : Node) : Z * Z * bool * Z * Z :=
  (data_offset n, data_size n, used n, neighbor_prev n, neighbor_next n).
Definition bin_link (ns : list Node) (i : Z) : option (Z * Z) :=
  (λ n, (bin_list_prev n, bin_list_next n)) <$> vget ns i.
Definition body_of (ns : list Node) (i : Z) : option (Z * Z * bool * Z * Z) := body <$> vget ns i.

Definition nonempty {A} (l : list A) : bool := match l with [] => false | _ => true end.

(** [F] lists the free regions as (node, size); [B] the members of each bin. *)
Definition binlists (ns : list Node) (heads : list Z) (F : list (Z * Z)) (B : Z → list Z) : Prop :=
  length heads = NUM_LEAF_BINS ∧
  (∀ b, 0 ≤ b < 256 → vget heads b = Some (hd_or UNUSED (B b)) ∧
     dseg (bin_link ns) UNUSED (B b) UNUSED ∧ NoDup (B b)) ∧
  (∀ b i, 0 ≤ b < 256 → i ∈ B b ↔ ∃ sz, (i, sz) ∈ F ∧ uint_to_float_round_down sz = b).

Definition bins_inv (s : CoreAllocator) (F : list (Z * Z)) : Prop :=
  NoDup F.*1 ∧ (∀ i sz, (i, sz) ∈ F → is_u32 sz) ∧
  free_storage s = foldr Z.add 0 F.*2 ∧ 
  ∃ B, binlists (nodes s) (bin_indices s) F B ∧
       bitmap (used_bins_top s) (used_bins s) (λ b, nonempty (B b)).

Lemma bins_inv_perm s F F' : F ≡ₚ F' → bins_inv s F → bins_inv s F'.
Proof.
  intros HF (Hnd & Hsz & Hfs & B & (Hl & Hb & Hm) & Hbm). split_and!.
  - by rewrite <- HF.
  - intros i sz Hin. apply (Hsz i). by rewrite HF.
  - rewrite Hfs. apply foldr_add_perm. by rewrite HF.
  - exists B. split; [|done]. split_and!; [done..|]. intros b i Hbr. rewrite Hm by done.
    by setoid_rewrite HF.
Qed.

Lemma NoDup_fst_unique {A B} (F : list (A * B)) i x y :
  NoDup F.*1 → (i, x) ∈ F → (i, y) ∈ F → x = y.
Proof.
  induction F as [|[j z] F IH]; simpl; [set_solver|].
  intros [Hj Hnd]%NoDup_cons Hx Hy.
  assert (∀ w, (i, w) ∈ F → i ∈ F.*1) as Hin by (intros w Hw; apply list_elem_of_fmap; by exists (i, w)).
  rewrite elem_of_cons in Hx, Hy. destruct Hx, Hy; simplify_eq; naive_solver.
Qed.

(** Writing one node. *)
Lemma update_node_eq i f s n :
  vget (nodes s) i = Some n →
  update_node i f s = Some (with_nodes (<[Z.to_nat i := f n]> (nodes s)) s).
Proof.
  intros Hg. unfold update_node. rewrite Hg. simpl.
  rewrite (proj2 (vset_Some _ _ _ _) (conj (vget_lt _ _ _ Hg) eq_refl)). done.
Qed.

Lemma vget_node_insert (ns : list Node) i n n' j :
  vget ns i = Some n → vget (<[Z.to_nat i := n']> ns) j = if decide (i = j) then Some n' else vget ns j.
Proof. intros Hg. apply vget_insert. by eapply vget_lt. Qed.

Lemma bin_link_insert (ns : list Node) i n n' j :
  vget ns i = Some n →
  bin_link (<[Z.to_nat i := n']> ns) j =
    if decide (i = j) then Some (bin_list_prev n', bin_list_next n') else bin_link ns j.
Proof. intros Hg. unfold bin_link. erewrite vget_node_insert by done. by case_decide. Qed.

Lemma body_of_insert (ns : list Node) i n n' j :
  vget ns i = Some n →
  body_of (<[Z.to_nat i := n']> ns) j = if decide (i = j) then Some (body n') else body_of ns j.
Proof. intros Hg. unfold body_of. erewrite vget_node_insert by done. by case_decide. Qed.

(** A conditional link write keeps every body; it changes the links of its target only. *)
Lemma update_node_opt_eq i f s :
  (i ≠ UNUSED → ∃ n, vget (nodes s) i = Some n ∧ body (f n) = body n) →
  ∃ ns, update_node_opt i f s = Some (with_nodes ns s) ∧ length ns = length (nodes s) ∧
    (∀ j, body_of ns j = body_of (nodes s) j) ∧
    (∀ j, j ≠ i ∨ i = UNUSED → bin_link ns j = bin_link (nodes s) j) ∧
    (∀ n, i ≠ UNUSED → vget (nodes s) i = Some n →
       bin_link ns i = Some (bin_list_prev (f n), bin_list_next (f n))).
Proof.
  intros Hi. unfold update_node_opt. destruct (Z.eqb_spec i UNUSED) as [->|Hne].
  - exists (nodes s). destruct s. split_and!; done.
  - destruct (Hi Hne) as (n & Hg & Hbody). rewrite (update_node_eq _ _ _ _ Hg).
    eexists. split; [done|]. split_and!.
    + apply length_insert.
    + intros j. erewrite body_of_insert by done. case_decide; subst; [|done].
      unfold body_of. by rewrite Hg, Hbody.
    + intros j [Hj|?]; [|done]. erewrite bin_link_insert by done. by rewrite decide_False.
    + intros n' _ [= <-]%(eq_trans (eq_sym Hg)). erewrite bin_link_insert by done. by rewrite decide_True.
Qed.

(** Members of distinct bins are distinct. *)
Lemma binlists_disjoint ns heads F B b b' i :
  NoDup F.*1 → binlists ns heads F B → 0 ≤ b < 256 → 0 ≤ b' < 256 → i ∈ B b → i ∈ B b' → b = b'.
Proof.
  intros Hnd (_ & _ & Hm) Hb Hb' (sz & Hin & <-)%Hm (sz' & Hin' & <-)%Hm; [|done..].
  by rewrite (NoDup_fst_unique _ _ _ _ Hnd Hin Hin').
Qed.

Definition same_config (s s' : CoreAllocator) : Prop :=
  core_size s' = core_size s ∧ current_capacity s' = current_capacity s ∧
  max_capacity s' = max_capacity s.

#[export] Instance same_config_trans : Transitive same_config.
Proof. unfold same_config. intros ???; naive_solver congruence. Qed.
#[export] Instance same_config_refl : Reflexive same_config.
Proof. done. Qed.

Lemma hd_or_unused_nil s L l :
  pool s L → (∀ i, i ∈ l → i ∈ L) → hd_or UNUSED l = UNUSED → l = [].
Proof.
  intros HP Hl. destruct l as [|i l]; [done|]. simpl. intros ->.
  destruct (pool_node _ _ UNUSED HP) as (? & _ & ?); [set_solver|done].
Qed.

(** The members of the bins are nodes in use. *)
Definition owned (F : list (Z * Z)) (L : list Z) : Prop := ∀ i sz, (i, sz) ∈ F → i ∈ L.

Lemma binlists_owned ns heads F B L b i :
  binlists ns heads F B → owned F L → 0 ≤ b < 256 → i ∈ B b → i ∈ L.
Proof. intros (_ & _ & Hm) HF Hb (sz & Hin & _)%Hm; [|done]. by eapply HF. Qed.

(** Adding [i] at the head of bin [b] of the bin lists. *)
Lemma binlists_insert ns ns' heads F B i size :
  let b := uint_to_float_round_down size in
  is_u32 size → NoDup F.*1 → i ∉ F.*1 → binlists ns heads F B →
  bin_link ns' i = Some (UNUSED, hd_or UNUSED (B b)) →
  (∀ j, j ≠ i → head (B b) ≠ Some j → bin_link ns' j = bin_link ns j) →
  (∀ h k p q, B b = h :: k → bin_link ns h = Some (p, q) → bin_link ns' h = Some (i, q)) →
  binlists ns' (<[Z.to_nat b := i]> heads) ((i, size) :: F) (upd B b (i :: B b)).
Proof.
  intros b Hsz Hnd Hi HB Hli Hsame Hh. pose proof (round_down_u32 size Hsz) as Hb. fold b in Hb.
  pose proof HB as (Hlen & Hbin & Hm).
  assert (∀ b', 0 ≤ b' < 256 → i ∉ B b') as HiB.
  { intros b' Hb' (sz & Hin & _)%Hm; [|done]. apply Hi. apply list_elem_of_fmap. by exists (i, sz). }
  split_and!.
  - by rewrite length_insert.
  - intros b' Hb'. rewrite vget_insert by (rewrite Hlen; unfold NUM_LEAF_BINS; lia).
    destruct (Hbin b' Hb') as (Hg & Hd & Hn). case_decide as Hbb.
    + subst b'. rewrite upd_eq. simpl. split_and!; [done..| |].
      * destruct (B b) as [|h k] eqn:EB; [done|]. simpl in *.
        destruct Hd as [Hhl Hk]. assert (h ∉ k) by (by apply NoDup_cons in Hn as []).
        split; [by eapply Hh|]. eapply dseg_ext, Hk. intros j Hj.
        apply Hsame; [|set_solver]. intros ->. apply (HiB b); [lia|]. rewrite EB. set_solver.
      * apply NoDup_cons. split; [|done]. apply HiB. lia.
    + rewrite upd_ne by lia. split_and!; [done| |done]. eapply dseg_ext, Hd. intros j Hj.
      apply Hsame; [intros ->; by eapply HiB|].
      intros Hhd. apply Hbb. eapply (binlists_disjoint ns heads F B b b' j); [done..|lia|done| |done].
      destruct (B b); simplify_eq/=. set_solver.
  - intros b' j Hb'. unfold upd. destruct (Z.eqb_spec b' b) as [->|Hne].
    + rewrite elem_of_cons, Hm by done. setoid_rewrite elem_of_cons. naive_solver.
    + rewrite Hm by done. setoid_rewrite elem_of_cons. naive_solver.
Qed.

Lemma upd_nonempty (B : Z → list Z) b l :
  ∀ b', nonempty (upd B b l b') = upd (λ b, nonempty (B b)) b (nonempty l) b'.
Proof. intros b'. unfold upd. by destruct (b' =? b). Qed.

Lemma with_bitmap_id s : with_bitmap (used_bins_top s) (used_bins s) s = s.
Proof. by destruct s. Qed.

(** [insert_node_into_bin] takes an unused node, threads it at the head of its bin
    and touches no other node's body. *)
Lemma insert_node_spec s L F size off :
  pool s L → bins_inv s F → owned F L → free_offset s < current_capacity s →
  is_u32 size → free_storage s + size ≤ u32_max →
  ∃ i s', insert_node_into_bin size off s = Some (i, s') ∧ i ∉ L ∧
    pool s' (i :: L) ∧ bins_inv s' ((i, size) :: F) ∧
    body_of (nodes s') i = Some (off, size, false, UNUSED, UNUSED) ∧
    (∀ j, j ≠ i → body_of (nodes s') j = body_of (nodes s) j) ∧
    same_config s s' ∧ free_offset s' = free_offset s + 1.
Proof.
  intros HP (Hnd & Hsz & Hfs & B & HB & Hbm) HF Hfo Hsize Hst.
  pose proof (round_down_u32 size Hsize) as Hb. set (b := uint_to_float_round_down size) in *.
  pose proof HB as (Hlen & Hbin & Hm). destruct (Hbin b ltac:(lia)) as (Hhead & Hdb & Hndb).
  pose proof HP as (Hn & Hf & Ho & Hmx & _).
  destruct (pool_pop s L HP Hfo) as (i & n & Hpop & HiL & Hiu & Hgi & Hperm).
  assert (∀ b' j, 0 ≤ b' < 256 → j ∈ B b' → j ∈ L) as HBL by (intros; by eapply binlists_owned).
  unfold insert_node_into_bin. fold b. rewrite Hhead. simpl. set (h := hd_or UNUSED (B b)).
  assert (∃ top words, (if h =? UNUSED then set_bin_bits (top_bin b) (leaf_bin b) s else Some s)
            = Some (with_bitmap top words s) ∧
          bitmap top words (upd (λ b, nonempty (B b)) b true)) as (top & words & -> & Hbm').
  { destruct (Z.eqb_spec h UNUSED) as [E|E].
    - apply set_bin_bits_spec; [done|lia].
    - exists (used_bins_top s), (used_bins s). split; [by rewrite with_bitmap_id|].
      eapply bitmap_ext, Hbm. intros b' _. unfold upd. destruct (Z.eqb_spec b' b) as [->|]; [|done].
      unfold h in E. by destruct (B b). }
  simpl. rewrite Hpop. simpl. rewrite u32_add_ok by lia. simpl.
  erewrite update_node_eq by (simpl; exact Hgi). simpl.
  set (newn := mkNode off size UNUSED h UNUSED UNUSED false).
  set (ns1 := <[Z.to_nat i := newn]> (nodes s)).
  assert (∀ k, B b = h :: k → h ≠ i ∧ ∃ m, vget (nodes s) h = Some m) as Hhv.
  { intros k EB. assert (h ∈ L) as HhL by (apply (HBL b); [lia|rewrite EB; set_solver]).
    split; [set_solver|]. destruct (pool_node _ _ _ HP HhL) as (m & ? & _). eauto. }
  assert (h ≠ UNUSED → ∃ k, B b = h :: k) as Hhcons by (unfold h; destruct (B b); naive_solver).
  edestruct (update_node_opt_eq h (set_bin_list_prev i)
    (with_nodes ns1 (with_free_list (free_nodes s) (free_offset s + 1) (with_bitmap top words s))))
    as (ns & -> & Hlns & Hbody & Hlink & Hlinkh).
  { intros Hne. destruct (Hhcons Hne) as [k Hk]. destruct (Hhv k Hk) as (Hhi & m & Hgm).
    exists m. split; [|done]. simpl. unfold ns1. erewrite vget_node_insert by done. by rewrite decide_False. }
  simpl in *. rewrite (proj2 (vset_Some _ _ _ _)) by (split; [rewrite Hlen; unfold NUM_LEAF_BINS; lia|done]).
  simpl. rewrite u32_add_ok by lia. simpl.
  eexists i, _. split; [done|]. simpl.
  assert (∀ j, body_of ns j = if decide (i = j) then Some (off, size, false, UNUSED, UNUSED) else body_of (nodes s) j) as Hb'.
  { intros j. rewrite Hbody. unfold ns1. by erewrite body_of_insert. }
  assert (i ∉ F.*1) as HiF. { rewrite list_elem_of_fmap. intros ([j sz] & -> & Hin). by eapply HiL, HF. }
  split_and!; simpl.
  - done.
  - unfold pool. simpl. rewrite Hlns. unfold ns1. rewrite length_insert. split_and!; done || lia.
  - split_and!; simpl.
    + apply NoDup_cons. done.
    + intros j sz [[= -> ->]|Hin]%elem_of_cons; [done|by eapply Hsz].
    + rewrite Hfs. apply Z.add_comm.
    + exists (upd B b (i :: B b)). split.
      * eapply binlists_insert; try done.
        -- destruct (decide (h = i)) as [E|E].
           ++ destruct (decide (i = UNUSED)); [done|]. destruct Hhcons as [k Hk]; [congruence|].
              by destruct (Hhv k Hk).
           ++ rewrite Hlink by (by left). unfold ns1. erewrite bin_link_insert by done. by rewrite decide_True.
        -- intros j Hji Hjh. destruct (decide (j = h)) as [->|Hjne].
           ++ destruct (decide (h = UNUSED)) as [Hu|Hu].
              ** rewrite Hlink by (by right). unfold ns1. erewrite bin_link_insert by done. by rewrite decide_False.
              ** destruct (Hhcons Hu) as [k Hk]. destruct Hjh. fold b. by rewrite Hk.
           ++ rewrite Hlink by (by left). unfold ns1. erewrite bin_link_insert by done. by rewrite decide_False.
        -- intros h' k p q EB Hl. fold b in EB. assert (h' = h) as -> by (unfold h; by rewrite EB).
           destruct (Hhv k EB) as (Hhi & m & Hgm).
           assert (h ≠ UNUSED). { destruct (pool_node s L h HP) as (? & ? & ?); [|done]. apply (HBL b); [lia|rewrite EB; set_solver]. }
           rewrite (Hlinkh m); [|done|].
           ++ unfold bin_link in Hl. rewrite Hgm in Hl. simpl in *. congruence.
           ++ unfold ns1. erewrite vget_node_insert by done. by rewrite decide_False.
      * eapply bitmap_ext, Hbm'. intros b' _. by rewrite upd_nonempty.
  - rewrite Hb'. by rewrite decide_True.
  - intros j Hj. rewrite Hb'. by rewrite decide_False.
  - done.
  - done.
Qed.

(** Unlinking [i] from bin [b] of the bin lists. *)
Lemma binlists_remove ns ns' heads heads' F F' B i sz l k :
  let b := uint_to_float_round_down sz in
  is_u32 sz → F ≡ₚ (i, sz) :: F' → NoDup F.*1 → binlists ns heads F B → B b = l ++ i :: k →
  (∀ j, j ≠ i → last l ≠ Some j → head k ≠ Some j → bin_link ns' j = bin_link ns j) →
  (∀ l0 x p q, l = l0 ++ [x] → bin_link ns x = Some (p, q) → bin_link ns' x = Some (p, hd_or UNUSED k)) →
  (∀ y k0 p q, k = y :: k0 → bin_link ns y = Some (p, q) → bin_link ns' y = Some (last_or UNUSED l, q)) →
  length heads' = NUM_LEAF_BINS →
  (∀ b', 0 ≤ b' < 256 → vget heads' b' = if decide (b' = b) then Some (hd_or UNUSED (l ++ k)) else vget heads b') →
  binlists ns' heads' F' (upd B b (l ++ k)).
Proof.
  intros b Hsz HF Hnd HB EB Hsame Hx Hy Hlen' Hheads.
  pose proof (round_down_u32 sz Hsz) as Hb. fold b in Hb.
  pose proof HB as (Hlen & Hbin & Hm). destruct (Hbin b ltac:(lia)) as (_ & Hdb & Hndb).
  rewrite EB in Hdb, Hndb. split_and!; [done| |].
  - intros b' Hb'. rewrite Hheads by done. unfold upd.
    destruct (Z.eqb_spec b' b) as [->|Hne]; case_decide; try done.
    + split_and!; [done| |].
      * eapply dseg_unlink; [done..| |done|done]. intros j Hj Hjl Hjk.
        assert (j ≠ i) by (intros ->; clear -Hndb Hj; apply NoDup_app in Hndb as (_ & ? & [? _]%NoDup_cons); set_solver).
        by apply Hsame.
      * clear -Hndb. apply NoDup_app in Hndb as (? & ? & [? ?]%NoDup_cons). apply NoDup_app. set_solver.
    + destruct (Hbin b' Hb') as (Hg & Hd & Hn). split_and!; [done| |done].
      eapply dseg_ext, Hd. intros j Hj.
      assert (∀ x, x ∈ B b → j ≠ x) as Hdis.
      { intros x Hxb ->. apply Hne. eapply (binlists_disjoint ns heads F B b' b x); [done..|lia|done|done]. }
      apply Hsame; [apply Hdis; rewrite EB; set_solver| |].
      * intros [l0 ->]%last_Some. apply (Hdis j); [rewrite EB; set_solver|done].
      * intros E. destruct k; simplify_eq/=. apply (Hdis j); [rewrite EB; set_solver|done].
  - intros b' j Hb'. unfold upd. rewrite HF in Hnd. simpl in Hnd. apply NoDup_cons in Hnd as [HiF Hnd].
    assert (∀ sz', (i, sz') ∈ F' → False) as HiF'.
    { intros sz' Hin. apply HiF. apply list_elem_of_fmap. by exists (i, sz'). }
    assert (i ∉ l ++ k) as Hilk by (clear -Hndb; apply NoDup_app in Hndb as (_ & ? & [? _]%NoDup_cons); set_solver).
    setoid_rewrite HF in Hm. destruct (Z.eqb_spec b' b) as [->|Hne].
    + transitivity (j ≠ i ∧ j ∈ B b); [rewrite EB; set_solver|]. rewrite Hm by done.
      setoid_rewrite elem_of_cons. naive_solver.
    + rewrite Hm by done. setoid_rewrite elem_of_cons. naive_solver.
Qed.

Lemma update_node_bins i f s n :
  vget (nodes s) i = Some n → i ≠ UNUSED → update_node i f s = update_node_opt i f s.
Proof. intros _ Hi. unfold update_node_opt. by destruct (Z.eqb_spec i UNUSED). Qed.

Lemma hd_or_head d l j : head l ≠ Some j → j ≠ d → j ≠ hd_or d l.
Proof. destruct l; simpl; naive_solver. Qed.

Lemma unlink_spec s L F F' i n :
  pool s L → bins_inv s F → owned F L → F ≡ₚ (i, data_size n) :: F' → vget (nodes s) i = Some n →
  ∃ s1, unlink n s = Some s1 ∧ length (nodes s1) = length (nodes s) ∧
    (∀ j, body_of (nodes s1) j = body_of (nodes s) j) ∧
    (∃ B, binlists (nodes s1) (bin_indices s1) F' B ∧
          bitmap (used_bins_top s1) (used_bins s1) (λ b, nonempty (B b))) ∧
    same_config s s1 ∧ free_offset s1 = free_offset s ∧ free_nodes s1 = free_nodes s ∧
    free_storage s1 = free_storage s.
Proof.
  intros HP (Hnd & Hsz & Hfs & B & HB & Hbm) HF HFi Hgi.
  assert (is_u32 (data_size n)) as Hu by (apply (Hsz i); rewrite HFi; set_solver).
  pose proof (round_down_u32 _ Hu) as Hb. set (b := uint_to_float_round_down (data_size n)) in *.
  pose proof HB as (Hlen & Hbin & Hm). destruct (Hbin b ltac:(lia)) as (Hhead & Hdb & Hndb).
  assert (i ∈ B b) as HiB by (apply Hm; [lia|]; exists (data_size n); rewrite HFi; set_solver).
  apply list_elem_of_split in HiB as (l & k & EB). rewrite EB in Hdb, Hndb.
  assert (∀ j, j ∈ B b → j ∈ L) as HBL by (intros; eapply (binlists_owned _ _ _ _ _ b); [done..|lia|done]).
  pose proof (dseg_split _ _ _ _ _ _ Hdb) as Hli. unfold bin_link in Hli. rewrite Hgi in Hli.
  simpl in Hli. injection Hli as Hprev Hnext.
  assert (∀ j, j ∈ l ++ k → j ≠ i ∧ j ≠ UNUSED ∧ ∃ m, vget (nodes s) j = Some m) as Hval.
  { intros j Hj. split.
    - intros ->. clear -Hndb Hj. apply NoDup_app in Hndb as (_ & ? & [? _]%NoDup_cons). set_solver.
    - destruct (pool_node s L j HP) as (m & ? & ?); [|eauto]. apply HBL. rewrite EB. set_solver. }
  unfold unlink. fold b. rewrite Hprev, Hnext.
  destruct l as [|x l0 _] using rev_ind.
  - (* head of the bin *)
    change (last_or UNUSED []) with UNUSED. rewrite Z.eqb_refl. cbn [negb app] in *.
    rewrite (proj2 (vset_Some _ _ _ _)) by (split; [rewrite Hlen; unfold NUM_LEAF_BINS; lia|done]). simpl.
    edestruct (update_node_opt_eq (hd_or UNUSED k) (set_bin_list_prev UNUSED)
      (with_bin_indices (<[Z.to_nat b := hd_or UNUSED k]> (bin_indices s)) s)) as (ns & -> & Hl & Hbd & Hlk & Hlkh).
    { intros Hne. destruct k as [|y k0]; [done|]. simpl in *.
      destruct (Hval y) as (_ & _ & m & ?); [set_solver|]. eauto. }
    simpl in *.
    assert (binlists ns (<[Z.to_nat b := hd_or UNUSED k]> (bin_indices s)) F' (upd B b k)) as HB'.
    { apply (binlists_remove (nodes s) ns (bin_indices s) _ F F' B i (data_size n) [] k); try done.
      - intros j Hji _ Hjk. apply Hlk. destruct k; simpl in *; [by right|left; congruence].
      - intros [] ????; done.
      - intros y k0 p q -> Hl'. simpl in *. destruct (Hval y) as (_ & Hyu & m & Hgm); [set_solver|].
        rewrite (Hlkh m) by done. unfold bin_link in Hl'. rewrite Hgm in Hl'. by simplify_eq/=.
      - by rewrite length_insert.
      - intros b' Hb'. rewrite vget_insert by (rewrite Hlen; unfold NUM_LEAF_BINS; lia).
        fold b. case_decide; case_decide; congruence || done. }
    destruct (Z.eqb_spec (hd_or UNUSED k) UNUSED) as [E|E].
    + assert (k = []) as ->. { eapply hd_or_unused_nil; [done| |done]. intros; apply HBL. rewrite EB. set_solver. }
      edestruct (clear_bin_bits_spec (with_nodes ns (with_bin_indices (<[Z.to_nat b := hd_or UNUSED []]> (bin_indices s)) s)) (λ b, nonempty (B b)) b)
        as (top & words & Hclr & Hbm'); [exact Hbm|lia|]. rewrite Hclr.
      eexists. split; [done|]. simpl. split_and!; try done.
      eexists. split; [exact HB'|]. eapply bitmap_ext, Hbm'. intros b' _. by rewrite upd_nonempty.
    + eexists. split; [done|]. simpl. split_and!; try done.
      eexists. split; [exact HB'|]. eapply bitmap_ext, Hbm. intros b' _. rewrite upd_nonempty.
      unfold upd. destruct (Z.eqb_spec b' b) as [->|]; [|done]. rewrite EB. by destruct k.
  - (* middle of the bin *)
    rewrite last_or_snoc in *. destruct (Hval x) as (Hxi & Hxu & mx & Hgx); [set_solver|].
    destruct (Z.eqb_spec x UNUSED); [done|]. simpl.
    rewrite (update_node_eq _ _ _ _ Hgx). simpl. set (ns0 := <[Z.to_nat x := _]> (nodes s)).
    edestruct (update_node_opt_eq (hd_or UNUSED k) (set_bin_list_prev x) (with_nodes ns0 s))
      as (ns & -> & Hl & Hbd & Hlk & Hlkh).
    { intros Hne. destruct k as [|y k0]; [done|]. simpl in *.
      assert (x ≠ y). { clear -Hndb. intros ->. apply NoDup_app in Hndb as (_ & Hd & _). apply (Hd y); set_solver. }
      destruct (Hval y) as (_ & _ & m & ?); [set_solver|]. exists m. split; [|done].
      unfold ns0. erewrite vget_node_insert by done. by rewrite decide_False. }
    simpl in *. eexists. split; [done|]. simpl. split_and!; try done.
    { rewrite Hl. apply length_insert. }
    { intros j. rewrite Hbd. unfold ns0. erewrite body_of_insert by done. case_decide; [|done].
      subst j. unfold body_of. by rewrite Hgx. }
    exists (upd B b ((l0 ++ [x]) ++ k)). split.
    + apply (binlists_remove (nodes s) ns (bin_indices s) _ F F' B i (data_size n) (l0 ++ [x]) k); try done.
      * intros j Hji Hjl Hjk. rewrite last_snoc in Hjl. assert (j ≠ x) by congruence.
        rewrite Hlk by (destruct k; simpl in *; [by right|left; congruence]).
        unfold ns0. erewrite bin_link_insert by done. by rewrite decide_False.
      * intros l1 x' p q [<- [= <-]]%app_inj_2 Hl'; [|done].
        assert (head k ≠ Some x). { destruct k; [done|]. intros [= ->]. clear -Hndb. apply NoDup_app in Hndb as (_ & Hd & _). apply (Hd x); set_solver. }
        rewrite Hlk by (left; apply hd_or_head; done).
        unfold ns0. erewrite bin_link_insert by done. rewrite decide_True by done.
        unfold bin_link in Hl'. rewrite Hgx in Hl'. simpl in *. congruence.
      * intros y k0 p q -> Hl'. rewrite last_or_snoc. simpl in *.
        destruct (Hval y) as (_ & Hyu & m & Hgm); [set_solver|].
        assert (x ≠ y). { clear -Hndb. intros ->. apply NoDup_app in Hndb as (_ & Hd & _). apply (Hd y); set_solver. }
        rewrite (Hlkh m); [|done|].
        -- unfold bin_link in Hl'. rewrite Hgm in Hl'. simpl in *. congruence.
        -- unfold ns0. erewrite vget_node_insert by done. by rewrite decide_False.
      * intros b' Hb'. fold b. case_decide; [|done]. subst b'. rewrite Hhead, EB.
        by rewrite !hd_or_app.
    + eapply bitmap_ext, Hbm. intros b' _. rewrite upd_nonempty. unfold upd.
      destruct (Z.eqb_spec b' b) as [->|]; [|done]. rewrite EB. by destruct l0.
Qed.

Lemma body_of_Some ns i x : body_of ns i = Some x ↔ ∃ n, vget ns i = Some n ∧ body n = x.
Proof. unfold body_of. rewrite fmap_Some. naive_solver. Qed.

(** [remove_node_from_bin] unlinks a free node and returns it to the stack. *)
Lemma remove_node_spec s L F F' i n :
  pool s (i :: L) → bins_inv s F → owned F (i :: L) → F ≡ₚ (i, data_size n) :: F' →
  vget (nodes s) i = Some n →
  ∃ s', remove_node_from_bin i s = Some s' ∧ pool s' L ∧ bins_inv s' F' ∧
    (∀ j, body_of (nodes s') j = body_of (nodes s) j) ∧
    same_config s s' ∧ free_offset s' = free_offset s - 1.
Proof.
  intros HP HI HF HFi Hgi. pose proof HI as (Hnd & Hsz & Hfs & _).
  destruct (unlink_spec s (i :: L) F F' i n HP HI HF HFi Hgi)
    as (s1 & Hun & Hl & Hbd & Hbins & Hcfg & Hfo & Hfn & Hst).
  destruct (pool_push _ _ _ HP) as [Hr Hperm].
  unfold remove_node_from_bin. rewrite Hgi. simpl. rewrite Hun. simpl.
  rewrite Hfo, Hfn, u32_sub_ok by lia. simpl.
  rewrite (proj2 (vset_Some _ _ _ _) (conj Hr eq_refl)). simpl.
  assert (body_of (nodes s1) i = Some (body n)) as (n' & Hg' & Hb')%body_of_Some.
  { rewrite Hbd. unfold body_of. by rewrite Hgi. }
  rewrite Hg'. simpl. assert (data_size n' = data_size n) as -> by (unfold body in Hb'; congruence).
  assert (foldr Z.add 0 F.*2 = data_size n + foldr Z.add 0 F'.*2) as Hsum.
  { rewrite (foldr_add_perm _ ((i, data_size n) :: F').*2); [done|by rewrite HFi]. }
  rewrite HFi in Hnd. simpl in Hnd. apply NoDup_cons in Hnd as [HiF Hnd].
  assert (∀ j sz, (j, sz) ∈ F' → is_u32 sz) as Hsz' by (intros j sz ?; apply (Hsz j); rewrite HFi; set_solver).
  assert (0 ≤ foldr Z.add 0 F'.*2).
  { apply foldr_add_nonneg, Forall_forall. intros z ([j sz] & -> & Hin)%list_elem_of_fmap. apply (Hsz' j sz Hin). }
  rewrite Hst, u32_sub_ok by lia. simpl.
  eexists. split; [done|]. destruct Hcfg as (Hc1 & Hc2 & Hc3). simpl. split_and!; simpl; try done.
  - destruct HP as (Hn & Hf & Ho & Hm & _). unfold pool. simpl. rewrite Hc2, Hc3, Hl, length_insert.
    split_and!; done || lia.
  - split_and!; simpl; try done. lia.
Qed.
