(* ===== verification/CoreInv.v ===== *)
(** * Invariant of the core allocator and its abstract view

    The abstract state is the list of regions in address order; the invariant
    ties it to the node pool, the neighbour links, the bin lists and the bitmap.
    [core_allocate], [core_free] and [core_reserve_exact] are refined by region
    splits and merges, and never panic. *)
From S2P Require Import Prelude SmallFloat CoreAllocator CoreBins CoreLists.

(** ** Regions *)

Record Reg : Type := mkReg { r_idx : Z; r_off : Z; r_size : Z; r_used : bool }.

Definition data_of (ns : list Node) (i : Z) : option (Z * Z * bool) :=
  (λ '(o, z, u, _, _), (o, z, u)) <$> body_of ns i.
Definition nb_link (ns : list Node) (i : Z) : option (Z * Z) :=
  (λ '(_, _, _, p, q), (p, q)) <$> body_of ns i.

Definition free_of (R : list Reg) : list (Z * Z) :=
  (λ r, (r_idx r, r_size r)) <$> filter (λ r, r_used r = false) R.

Definition ids (R : list Reg) : list Z := r_idx <$> R.

(** [R] tiles the range from [o] to [e]; a used region is never empty. *)
Fixpoint tiles (o : Z) (R : list Reg) (e : Z) : Prop :=
  match R with
  | [] => o = e
  | r :: R' => r_off r = o ∧ 0 ≤ r_size r ∧ (r_used r = true → 0 < r_size r) ∧
               tiles (o + r_size r) R' e
  end.

(** No two neighbouring regions are both free. *)
Fixpoint coalesced (R : list Reg) : Prop :=
  match R with
  | r1 :: ((r2 :: _) as R') => (r_used r1 = true ∨ r_used r2 = true) ∧ coalesced R'
  | _ => True
  end.

Definition data_ok (ns : list Node) (R : list Reg) : Prop :=
  Forall (λ r, data_of ns (r_idx r) = Some (r_off r, r_size r, r_used r)) R.

Record core_inv (s : CoreAllocator) (R : list Reg) : Prop := {
  ci_pool : pool s (ids R);
  ci_bins : bins_inv s (free_of R);
  ci_links : dseg (nb_link (nodes s)) UNUSED (ids R) UNUSED;
  ci_data : data_ok (nodes s) R;
  ci_tiles : tiles 0 R (core_size s);
  ci_coal : coalesced R;
  ci_size : is_u32 (core_size s)
}.

Lemma tiles_app o R1 R2 e : tiles o (R1 ++ R2) e ↔ ∃ m, tiles o R1 m ∧ tiles m R2 e.
Proof.
  revert o. induction R1 as [|r R1 IH]; intros o; simpl; [naive_solver|].
  rewrite IH. naive_solver.
Qed.

Lemma tiles_le o R e : tiles o R e → o ≤ e.
Proof. revert o. induction R as [|r R IH]; simpl; intros o; [lia|]. intros (? & ? & ? & ?%IH). lia. Qed.

(** Regions of a tiling lie inside it, in order. *)
Lemma tiles_bounds o R e r : tiles o R e → r ∈ R → o ≤ r_off r ∧ 0 ≤ r_size r ∧ r_off r + r_size r ≤ e.
Proof.
  revert o. induction R as [|r' R IH]; simpl; intros o; [set_solver|].
  intros (Ho & Hs & _ & Ht) [->|Hin]%elem_of_cons.
  - apply tiles_le in Ht. lia.
  - destruct (IH _ Ht Hin). lia.
Qed.

Lemma free_of_app R1 R2 : free_of (R1 ++ R2) = free_of R1 ++ free_of R2.
Proof. unfold free_of. by rewrite filter_app, fmap_app. Qed.

Lemma free_of_cons r R :
  free_of (r :: R) = if r_used r then free_of R else (r_idx r, r_size r) :: free_of R.
Proof. unfold free_of. rewrite filter_cons. destruct (r_used r); case_decide; done. Qed.

Lemma ids_app R1 R2 : ids (R1 ++ R2) = ids R1 ++ ids R2.
Proof. apply fmap_app. Qed.

Lemma elem_of_free_of i sz R :
  (i, sz) ∈ free_of R ↔ ∃ r, r ∈ R ∧ r_used r = false ∧ r_idx r = i ∧ r_size r = sz.
Proof. unfold free_of. rewrite list_elem_of_fmap. setoid_rewrite list_elem_of_filter. naive_solver. Qed.

Lemma owned_free_of R L : ids R ⊆ L → owned (free_of R) L.
Proof.
  intros Hsub i sz (r & Hr & _ & <- & _)%elem_of_free_of. apply Hsub.
  by apply list_elem_of_fmap_2.
Qed.

(** The free space is at most the span. *)
Lemma tiles_free_sum o R e : tiles o R e → 0 ≤ foldr Z.add 0 (free_of R).*2 ≤ e - o.
Proof.
  revert o. induction R as [|r R IH]; intros o; simpl; [lia|].
  intros (? & ? & _ & Ht%IH). rewrite free_of_cons.
  destruct (r_used r); [lia|]. rewrite fmap_cons. cbn [foldr snd]. lia.
Qed.

Lemma coalesced_app_inv R1 R2 : coalesced (R1 ++ R2) → coalesced R1 ∧ coalesced R2.
Proof.
  induction R1 as [|r R1 IH]; [done|]. destruct R1 as [|r' R1]; simpl in *.
  - destruct R2; [done|]. naive_solver.
  - intros [? ?%IH]. naive_solver.
Qed.

Lemma coalesced_app R1 R2 :
  coalesced R1 → coalesced R2 →
  (∀ a b, last R1 = Some a → head R2 = Some b → r_used a = true ∨ r_used b = true) →
  coalesced (R1 ++ R2).
Proof.
  induction R1 as [|r R1 IH]; [done|]. intros H1 H2 Hj. destruct R1 as [|r' R1]; simpl in *.
  - destruct R2 as [|b R2]; [done|]. split; [|done]. by apply Hj.
  - destruct H1 as [? H1]. split; [done|]. apply IH; [done..|].
    intros a b Ha Hb. by apply Hj.
Qed.

(** Everything about a region of the invariant. *)
Lemma core_inv_node s R1 r R2 :
  core_inv s (R1 ++ r :: R2) →
  ∃ n, vget (nodes s) (r_idx r) = Some n ∧ r_idx r ≠ UNUSED ∧
    body n = (r_off r, r_size r, r_used r, last_or UNUSED (ids R1), hd_or UNUSED (ids R2)).
Proof.
  intros [HP _ HL HD _ _ _]. rewrite ids_app in HL, HP. simpl in HL, HP.
  apply dseg_split in HL. unfold data_ok in HD. rewrite Forall_app, Forall_cons in HD.
  destruct HD as (_ & HD & _).
  destruct (pool_node _ _ (r_idx r) HP) as (n & Hg & Hu); [set_solver|].
  exists n. split_and!; [done..|]. unfold nb_link, data_of, body_of, body in *. rewrite Hg in *. simpl in *.
  destruct (used n), (r_used r); congruence.
Qed.

Definition sized (ns : list Node) (F : list (Z * Z)) : Prop :=
  ∀ i sz, (i, sz) ∈ F → ∃ n, vget ns i = Some n ∧ data_size n = sz.

Lemma core_inv_sized s R : core_inv s R → sized (nodes s) (free_of R).
Proof.
  intros HI i sz (r & Hr & _ & <- & <-)%elem_of_free_of.
  apply list_elem_of_split in Hr as (R1 & R2 & ->).
  destruct (core_inv_node _ _ _ _ HI) as (n & Hg & _ & Hb). exists n. split; [done|].
  unfold body in Hb. congruence.
Qed.

(** ** The bin search of [core_allocate] *)

Lemma pop_bin_spec s L F B t l i k ru :
  pool s L → NoDup F.*1 → (∀ i sz, (i, sz) ∈ F → is_u32 sz) → owned F L → sized (nodes s) F →
  free_storage s = foldr Z.add 0 F.*2 →
  binlists (nodes s) (bin_indices s) F B →
  bitmap (used_bins_top s) (used_bins s) (λ b, nonempty (B b)) →
  0 ≤ t < 32 → 0 ≤ l < 8 → B (8 * t + l) = i :: k →
  ∃ n F' s', vget (nodes s) i = Some n ∧ F ≡ₚ (i, data_size n) :: F' ∧
    uint_to_float_round_down (data_size n) = 8 * t + l ∧
    pop_bin t l ru s = Some (i, n, s') ∧ pool s' L ∧ bins_inv s' F' ∧
    body_of (nodes s') i = Some (data_offset n, ru, true, neighbor_prev n, neighbor_next n) ∧
    (∀ j, j ≠ i → body_of (nodes s') j = body_of (nodes s) j) ∧
    same_config s s' ∧ free_offset s' = free_offset s.
Proof.
  intros HP Hnd Hsz HF HS Hfs HB Hbm Ht Hl EB. set (b := 8 * t + l) in *.
  pose proof HB as (Hlen & Hbin & Hm). destruct (Hbin b ltac:(lia)) as (Hhead & Hdb & Hndb).
  assert (∃ sz, (i, sz) ∈ F ∧ uint_to_float_round_down sz = b) as (sz & Hin & Hrd).
  { apply Hm; [lia|]. rewrite EB. set_solver. }
  destruct (HS _ _ Hin) as (n & Hg & <-).
  pose proof Hin as [F' HFp]%elem_of_Permutation.
  exists n, F'. rewrite EB in Hhead, Hdb. simpl in Hhead. pose proof Hdb as [Hli _].
  assert (bin_list_next n = hd_or UNUSED k) as Hnx.
  { unfold bin_link in Hli. rewrite Hg in Hli. simpl in Hli. congruence. }
  unfold pop_bin. rewrite bin_of_top_leaf by lia. fold b. rewrite Hhead. simpl. rewrite Hg. simpl.
  rewrite (update_node_eq _ _ _ _ Hg). simpl. set (ns0 := <[Z.to_nat i := _]> (nodes s)).
  rewrite Hnx. rewrite (proj2 (vset_Some _ _ _ _)) by (split; [rewrite Hlen; unfold NUM_LEAF_BINS; lia|done]). simpl.
  assert (∀ j, j ∈ k → j ≠ i ∧ j ≠ UNUSED ∧ ∃ m, vget (nodes s) j = Some m) as Hval.
  { intros j Hj. rewrite EB in Hndb. apply NoDup_cons in Hndb as [? _]. split; [set_solver|].
    destruct (pool_node s L j HP) as (m & ? & ?); [|eauto].
    eapply (binlists_owned _ _ _ _ _ b); [done..|lia|rewrite EB; set_solver]. }
  edestruct (update_node_opt_eq (hd_or UNUSED k) (set_bin_list_prev UNUSED)
    (with_bin_indices (<[Z.to_nat b := hd_or UNUSED k]> (bin_indices s)) (with_nodes ns0 s)))
    as (ns & -> & Hln & Hbd & Hlk & Hlkh).
  { intros Hne. destruct k as [|y k0]; [done|]. simpl in *.
    destruct (Hval y) as (? & _ & m & ?); [set_solver|]. exists m. split; [|done].
    unfold ns0. erewrite vget_node_insert by done. by rewrite decide_False. }
  simpl in *.
  assert (foldr Z.add 0 F.*2 = data_size n + foldr Z.add 0 F'.*2) as Hsum.
  { rewrite (foldr_add_perm _ ((i, data_size n) :: F').*2); [done|by rewrite HFp]. }
  assert (0 ≤ foldr Z.add 0 F'.*2).
  { apply foldr_add_nonneg, Forall_forall. intros z ([j zz] & -> & Hj)%list_elem_of_fmap.
    apply (Hsz j zz). rewrite HFp. set_solver. }
  rewrite u32_sub_ok by lia. simpl.
  assert (binlists ns (<[Z.to_nat b := hd_or UNUSED k]> (bin_indices s)) F' (upd B b k)) as HB'.
  { rewrite <- Hrd in *.
    apply (binlists_remove (nodes s) ns (bin_indices s) _ F F' B i (data_size n) [] k); try done.
    - by eapply Hsz.
    - intros j Hji _ Hjk. rewrite Hlk by (destruct k; simpl in *; [by right|left; congruence]).
      unfold ns0. erewrite bin_link_insert by done. by rewrite decide_False.
    - intros [] ????; done.
    - intros y k0 p q -> Hl'. simpl in *. destruct (Hval y) as (Hyi & Hyu & m & Hgm); [set_solver|].
      rewrite (Hlkh m); [|done|].
      + unfold bin_link in Hl'. rewrite Hgm in Hl'. by simplify_eq/=.
      + unfold ns0. erewrite vget_node_insert by done. by rewrite decide_False.
    - by rewrite length_insert.
    - intros b' Hb'. rewrite vget_insert by (rewrite Hlen; unfold NUM_LEAF_BINS; lia).
      case_decide; case_decide; congruence || done. }
  assert (∃ top words, (if hd_or UNUSED k =? UNUSED
      then clear_bin_bits t l (with_free_storage (free_storage s - data_size n)
             (with_nodes ns (with_bin_indices (<[Z.to_nat b := hd_or UNUSED k]> (bin_indices s)) (with_nodes ns0 s))))
      else Some (with_free_storage (free_storage s - data_size n)
             (with_nodes ns (with_bin_indices (<[Z.to_nat b := hd_or UNUSED k]> (bin_indices s)) (with_nodes ns0 s)))))
      = Some (with_bitmap top words (with_free_storage (free_storage s - data_size n)
             (with_nodes ns (with_bin_indices (<[Z.to_nat b := hd_or UNUSED k]> (bin_indices s)) s)))) ∧
      bitmap top words (λ b', nonempty (upd B b k b'))) as (top & words & -> & Hbm').
  { destruct (Z.eqb_spec (hd_or UNUSED k) UNUSED) as [E|E].
    - assert (k = []) as ->.
      { destruct k as [|y k0]; [done|]. destruct (Hval y) as (_ & ? & _); [set_solver|done]. }
      assert (top_bin b = t ∧ leaf_bin b = l) as [Htb Hlb] by (destruct (top_leaf_split b); lia).
      edestruct (clear_bin_bits_spec (with_free_storage (free_storage s - data_size n)
        (with_nodes ns (with_bin_indices (<[Z.to_nat b := hd_or UNUSED []]> (bin_indices s)) (with_nodes ns0 s))))
        (λ b, nonempty (B b)) b) as (top & words & Hclr & Hbm'); [exact Hbm|lia|].
      rewrite Htb, Hlb in Hclr. exists top, words. split; [exact Hclr|].
      eapply bitmap_ext, Hbm'. intros b' _. by rewrite upd_nonempty.
    - exists (used_bins_top s), (used_bins s). split; [done|].
      eapply bitmap_ext, Hbm. intros b' _. rewrite upd_nonempty. unfold upd.
      destruct (Z.eqb_spec b' b) as [->|]; [|done]. rewrite EB. by destruct k. }
  simpl. eexists. split_and!; try done; simpl.
  - destruct HP as (? & ? & ? & ? & ?). unfold pool. simpl. rewrite Hln. unfold ns0. by rewrite length_insert.
  - rewrite HFp in Hnd. simpl in Hnd. apply NoDup_cons in Hnd as [_ Hnd]. split_and!; simpl; [done| |lia|eauto].
    intros j z Hj. apply (Hsz j). rewrite HFp. set_solver.
  - rewrite Hbd. unfold ns0. erewrite body_of_insert by done. by rewrite decide_True.
  - intros j Hj. rewrite Hbd. unfold ns0. erewrite body_of_insert by done. by rewrite decide_False.
Qed.

(** ** Neighbour-link writes *)

(** The states differ in neighbour links only. *)
Record nbr_step (s s' : CoreAllocator) : Prop := {
  ns_cfg : same_config s s';
  ns_off : free_offset s' = free_offset s;
  ns_fn : free_nodes s' = free_nodes s;
  ns_fs : free_storage s' = free_storage s;
  ns_bi : bin_indices s' = bin_indices s;
  ns_top : used_bins_top s' = used_bins_top s;
  ns_bins : used_bins s' = used_bins s;
  ns_len : length (nodes s') = length (nodes s);
  ns_bl : ∀ j, bin_link (nodes s') j = bin_link (nodes s) j;
  ns_data : ∀ j, data_of (nodes s') j = data_of (nodes s) j
}.

#[export] Instance nbr_step_refl : Reflexive nbr_step.
Proof. by constructor. Qed.
#[export] Instance nbr_step_trans : Transitive nbr_step.
Proof.
  intros s1 s2 s3 [] []. constructor; first [congruence | by etrans | intros j; by etrans].
Qed.

Lemma nbr_step_pool s s' L : nbr_step s s' → pool s L → pool s' L.
Proof.
  intros [[? [Hc Hm]] Ho Hf _ _ _ _ Hl _ _] (? & ? & ? & ? & ?). unfold pool.
  rewrite Hc, Hm, Ho, Hf, Hl. done.
Qed.

Lemma nbr_step_bins s s' F : nbr_step s s' → bins_inv s F → bins_inv s' F.
Proof.
  intros [_ _ _ Hfs Hbi Htop Hbins _ Hbl _] (? & ? & ? & B & (Hlen & Hb & Hm) & Hbm).
  split_and!; [done..|congruence|]. exists B. rewrite Hbi, Htop, Hbins. split; [|done].
  split_and!; [done| |done]. intros b Hbr. destruct (Hb b Hbr) as (? & ? & ?).
  split_and!; [done| |done]. eapply dseg_ext; [|done]. intros j _. apply Hbl.
Qed.

Lemma nbr_step_data s s' R : nbr_step s s' → data_ok (nodes s) R → data_ok (nodes s') R.
Proof. intros Hn Hd. eapply Forall_impl; [exact Hd|]. intros r Hr. simpl in *. by rewrite (ns_data _ _ Hn). Qed.

Lemma update_nbr f s i n :
  vget (nodes s) i = Some n →
  (bin_list_prev (f n), bin_list_next (f n)) = (bin_list_prev n, bin_list_next n) →
  (data_offset (f n), data_size (f n), used (f n)) = (data_offset n, data_size n, used n) →
  ∃ s', update_node i f s = Some s' ∧ nbr_step s s' ∧
    ∀ j, nb_link (nodes s') j =
      upd (nb_link (nodes s)) i (Some (neighbor_prev (f n), neighbor_next (f n))) j.
Proof.
  intros Hg Hb Hd. rewrite (update_node_eq _ _ _ _ Hg). eexists. split; [done|]. split.
  - constructor; try done; simpl.
    + apply length_insert.
    + intros j. erewrite bin_link_insert by done. case_decide; [|done]. subst.
      unfold bin_link. by rewrite Hg, Hb.
    + intros j. unfold data_of. erewrite body_of_insert by done. case_decide; [|done]. subst.
      unfold body_of. rewrite Hg. unfold body. simpl. by rewrite Hd.
  - intros j. simpl. unfold nb_link, upd. erewrite body_of_insert by done.
    destruct (Z.eqb_spec j i); case_decide; congruence || done.
Qed.

Lemma nb_link_node ns i p q :
  nb_link ns i = Some (p, q) → ∃ n, vget ns i = Some n ∧ neighbor_prev n = p ∧ neighbor_next n = q.
Proof.
  unfold nb_link, body_of, body. intros H. destruct (vget ns i) as [n|]; [|done]. exists n. naive_solver.
Qed.

Lemma set_prev_spec s i p q v :
  nb_link (nodes s) i = Some (p, q) →
  ∃ s', update_node i (set_neighbor_prev v) s = Some s' ∧ nbr_step s s' ∧
    ∀ j, nb_link (nodes s') j = upd (nb_link (nodes s)) i (Some (v, q)) j.
Proof. intros (n & Hg & <- & <-)%nb_link_node. by apply (update_nbr (set_neighbor_prev v) s i n). Qed.

Lemma set_next_spec s i p q v :
  nb_link (nodes s) i = Some (p, q) →
  ∃ s', update_node i (set_neighbor_next v) s = Some s' ∧ nbr_step s s' ∧
    ∀ j, nb_link (nodes s') j = upd (nb_link (nodes s)) i (Some (p, v)) j.
Proof. intros (n & Hg & <- & <-)%nb_link_node. by apply (update_nbr (set_neighbor_next v) s i n). Qed.

(** Conditional writes, phrased on the option of the node they target. *)
Lemma set_prev_opt_spec s l v :
  (∀ i, head l = Some i → i ≠ UNUSED ∧ ∃ p q, nb_link (nodes s) i = Some (p, q)) →
  ∃ s', update_node_opt (hd_or UNUSED l) (set_neighbor_prev v) s = Some s' ∧ nbr_step s s' ∧
    (∀ j, head l ≠ Some j → nb_link (nodes s') j = nb_link (nodes s) j) ∧
    (∀ i p q, head l = Some i → nb_link (nodes s) i = Some (p, q) → nb_link (nodes s') i = Some (v, q)).
Proof.
  intros Hl. unfold update_node_opt. destruct l as [|i l]; cbn [head hd_or] in *.
  - rewrite Z.eqb_refl. exists s. split_and!; done.
  - destruct (Hl i eq_refl) as (Hu & p & q & Hpq). destruct (Z.eqb_spec i UNUSED); [done|].
    destruct (set_prev_spec s i p q v Hpq) as (s' & -> & Hn & Hl'). exists s'. split_and!; [done..| |].
    + intros j Hj. rewrite Hl'. apply upd_ne. congruence.
    + intros i' p' q' [= <-] Hpq'. rewrite Hl', upd_eq. congruence.
Qed.

Lemma set_next_opt_spec s l v :
  (∀ i, last l = Some i → i ≠ UNUSED ∧ ∃ p q, nb_link (nodes s) i = Some (p, q)) →
  ∃ s', update_node_opt (last_or UNUSED l) (set_neighbor_next v) s = Some s' ∧ nbr_step s s' ∧
    (∀ j, last l ≠ Some j → nb_link (nodes s') j = nb_link (nodes s) j) ∧
    (∀ i p q, last l = Some i → nb_link (nodes s) i = Some (p, q) → nb_link (nodes s') i = Some (p, v)).
Proof.
  intros Hl. unfold update_node_opt, last_or. destruct (last l) as [i|].
  - destruct (Hl i eq_refl) as (Hu & p & q & Hpq). destruct (Z.eqb_spec i UNUSED); [done|].
    destruct (set_next_spec s i p q v Hpq) as (s' & -> & Hn & Hl'). exists s'. split_and!; [done..| |].
    + intros j Hj. rewrite Hl'. apply upd_ne. congruence.
    + intros i' p' q' [= <-] Hpq'. rewrite Hl', upd_eq. congruence.
  - rewrite Z.eqb_refl. exists s. split_and!; done.
Qed.

(** ** Growing the pool *)

Lemma vget_app_l {A} (l k : list A) i x : vget l i = Some x → vget (l ++ k) i = Some x.
Proof. intros [? ?]%vget_Some. apply vget_Some. split; [done|]. by apply lookup_app_l_Some. Qed.

Lemma core_inv_grow s R :
  core_inv s R → current_capacity s < max_capacity s →
  ∃ s', grow s = Some s' ∧ core_inv s' R ∧ core_size s' = core_size s ∧
    max_capacity s' = max_capacity s ∧ free_offset s' = free_offset s ∧
    current_capacity s' = current_capacity s + 1.
Proof.
  intros [HP HB HL HD HT HC HS] Hlt. pose proof HP as (Hn & Hf & Ho & Hm & Hperm).
  unfold grow. rewrite u32_add_ok by lia. simpl. eexists. split; [done|]. split_and!; try done.
  assert (∀ i x, body_of (nodes s) i = Some x → body_of (nodes s ++ [node_default]) i = Some x) as Hbody.
  { unfold body_of. intros i x (n & Hg & ->)%fmap_Some. by rewrite (vget_app_l _ _ _ _ Hg). }
  constructor; simpl; try done.
  - split_and!; simpl; try lia.
    + rewrite length_app. simpl. lia.
    + rewrite length_app. simpl. lia.
    + rewrite drop_app_le by lia. rewrite app_assoc, Hperm.
      replace (current_capacity s + 1) with (Z.of_nat (S (Z.to_nat (current_capacity s)))) by lia.
      rewrite seqZ_S. rewrite Z2Nat.id by lia. done.
  - destruct HB as (? & ? & ? & B & (Hlen & Hb & Hmem) & Hbm). split_and!; [done..|].
    exists B. split; [|done]. split_and!; [done| |done]. intros b Hbr. destruct (Hb b Hbr) as (? & Hd & ?).
    split_and!; [done| |done]. eapply dseg_ext, Hd. intros i Hi.
    destruct (dseg_link _ _ _ _ i Hd Hi) as (p & q & Hpq). simpl. rewrite Hpq. unfold bin_link in *.
    apply fmap_Some in Hpq as (n & Hg & ->). by rewrite (vget_app_l _ _ _ _ Hg).
  - eapply dseg_ext, HL. intros i Hi. destruct (dseg_link _ _ _ _ i HL Hi) as (p & q & Hpq).
    rewrite Hpq. unfold nb_link in *. apply fmap_Some in Hpq as (x & Hx & ->). by rewrite (Hbody _ _ Hx).
  - eapply Forall_impl; [exact HD|]. intros r Hr. unfold data_of in *. simpl in *.
    apply fmap_Some in Hr as (x & Hx & ->). by rewrite (Hbody _ _ Hx).
Qed.

(** ** Allocation *)

(** A free region [r] split at [ru]: the used part keeps the node, the remainder
    (if any) takes node [j]. *)
Definition split_region (r : Reg) (ru j : Z) : list Reg :=
  mkReg (r_idx r) (r_off r) ru true ::
  (if r_size r =? ru then [] else [mkReg j (r_off r + ru) (r_size r - ru) false]).

Lemma body_links s s' :
  (∀ j, body_of (nodes s') j = body_of (nodes s) j) →
  (∀ j, nb_link (nodes s') j = nb_link (nodes s) j) ∧ (∀ j, data_of (nodes s') j = data_of (nodes s) j).
Proof. intros Hb. unfold nb_link, data_of. split; intros j; by rewrite Hb. Qed.

Lemma search_spec s R m ru :
  core_inv s R → 0 ≤ m < 256 →
  (find_bin s m = Some None ∧ ∀ r, r ∈ R → r_used r = false → uint_to_float_round_down (r_size r) < m) ∨
  (∃ t l R1 r R2 n s', find_bin s m = Some (Some (t, l)) ∧ R = R1 ++ r :: R2 ∧ r_used r = false ∧
     m ≤ uint_to_float_round_down (r_size r) ∧
     body n = (r_off r, r_size r, false, last_or UNUSED (ids R1), hd_or UNUSED (ids R2)) ∧
     pop_bin t l ru s = Some (r_idx r, n, s') ∧ pool s' (ids R) ∧ bins_inv s' (free_of (R1 ++ R2)) ∧
     body_of (nodes s') (r_idx r) = Some (r_off r, ru, true, last_or UNUSED (ids R1), hd_or UNUSED (ids R2)) ∧
     (∀ j, j ≠ r_idx r → body_of (nodes s') j = body_of (nodes s) j) ∧
     same_config s s' ∧ free_offset s' = free_offset s).
Proof.
  intros HI Hm. pose proof HI as [HP (Hnd & Hsz & Hfs & B & HB & Hbm) HL HD HT HC HS].
  pose proof HB as (_ & _ & Hmem).
  destruct (find_bin_spec s _ m Hbm Hm) as [[Hf Hnone]|(t & l & Hf & Ht & Hl & Hge & HE & _)].
  - left. split; [done|]. intros r Hr Hu. apply Z.nle_gt. intros Hle.
    assert ((r_idx r, r_size r) ∈ free_of R) as Hin by (apply elem_of_free_of; eauto).
    pose proof (round_down_u32 _ (Hsz _ _ Hin)) as Hb.
    specialize (Hnone (uint_to_float_round_down (r_size r)) ltac:(lia)).
    assert (r_idx r ∈ B (uint_to_float_round_down (r_size r))) as HiB by (apply Hmem; [lia|eauto]).
    destruct (B _); [set_solver|done].
  - right. destruct (B (8 * t + l)) as [|i k] eqn:EB; [done|].
    destruct (pop_bin_spec s (ids R) (free_of R) B t l i k ru) as
      (n & F' & s' & Hg & HFp & Hrd & Hpop & HP' & HB' & Hbi & Hbj & Hcfg & Hfo); try done.
    { by apply owned_free_of. } { by apply core_inv_sized. }
    assert ((i, data_size n) ∈ free_of R) as (r & Hr & Hu & <- & Hrs)%elem_of_free_of by (rewrite HFp; set_solver).
    apply list_elem_of_split in Hr as (R1 & R2 & ->).
    destruct (core_inv_node _ _ _ _ HI) as (n' & Hg' & _ & Hbody).
    rewrite Hg in Hg'. injection Hg' as <-. rewrite Hu in Hbody.
    exists t, l, R1, r, R2, n, s'. split_and!; try done.
    + rewrite Hrs, Hrd. done.
    + eapply bins_inv_perm, HB'. rewrite free_of_app, free_of_cons, Hu, <- Hrs in HFp.
      rewrite free_of_app. symmetry. rewrite <- Permutation_middle in HFp. by apply Permutation_cons_inv in HFp.
    + rewrite Hbi. unfold body in Hbody. congruence.
Qed.

Lemma coalesced_split R1 r R2 ru j :
  r_used r = false → coalesced (R1 ++ r :: R2) → coalesced (R1 ++ split_region r ru j ++ R2).
Proof.
  intros Hu HC. pose proof HC as [H1 H2]%coalesced_app_inv.
  apply coalesced_app; [done| |].
  - unfold split_region. simpl. destruct (r_size r =? ru); simpl.
    + destruct R2; [done|]. split; [by left|]. by destruct H2.
    + destruct R2 as [|r2 R2]; [naive_solver|]. destruct H2 as [[?|?] ?]; [congruence|].
      split; [by left|]. split; [by right|done].
  - intros a b _ [= <-]. by right.
Qed.

Lemma tiles_split R1 r R2 ru j o e :
  0 < ru ≤ r_size r → tiles o (R1 ++ r :: R2) e → tiles o (R1 ++ split_region r ru j ++ R2) e.
Proof.
  intros Hru (m & H1 & Ho & Hs & Hu & H2)%tiles_app. apply tiles_app. exists m. split; [done|].
  unfold split_region. simpl. split_and!; [done|lia..|].
  destruct (Z.eqb_spec (r_size r) ru) as [<-|Hne]; simpl; [done|].
  split_and!; [lia|lia|done|]. by replace (m + ru + (r_size r - ru)) with (m + r_size r) by lia.
Qed.

Lemma data_ok_ext ns ns' R :
  (∀ i, i ∈ ids R → data_of ns' i = data_of ns i) → data_ok ns R → data_ok ns' R.
Proof.
  intros He Hd. unfold data_ok in *. rewrite Forall_forall in *. intros r Hr. rewrite He; [by apply Hd|].
  by apply list_elem_of_fmap_2.
Qed.

Lemma NoDup_mid {A} (l k : list A) x : NoDup (l ++ x :: k) → x ∉ l ∧ x ∉ k ∧ NoDup (l ++ k).
Proof.
  intros (? & ? & [? ?]%NoDup_cons)%NoDup_app. split_and!; [set_solver|done|].
  apply NoDup_app. set_solver.
Qed.

(** Facts about the outer parts of a list of regions around [r]. *)
Lemma core_inv_outer s R1 r R2 :
  core_inv s (R1 ++ r :: R2) →
  NoDup (ids R1 ++ r_idx r :: ids R2) ∧
  (∀ i, i ∈ ids R1 ++ ids R2 → i ≠ UNUSED ∧ ∃ p q, nb_link (nodes s) i = Some (p, q)) ∧
  dseg (nb_link (nodes s)) UNUSED (ids R1) (r_idx r) ∧
  dseg (nb_link (nodes s)) (r_idx r) (ids R2) UNUSED ∧
  data_ok (nodes s) R1 ∧ data_ok (nodes s) R2.
Proof.
  intros [HP _ HL HD _ _ _]. pose proof (pool_NoDup _ _ HP) as Hnd. rewrite ids_app in *. simpl in *.
  split; [done|]. split.
  - intros i Hi. destruct (pool_node _ _ i HP) as (_ & _ & ?); [set_solver|]. split; [done|].
    eapply dseg_link; [exact HL|set_solver].
  - apply dseg_app in HL as [? [_ ?]]. unfold data_ok in *. rewrite Forall_app, Forall_cons in HD. naive_solver.
Qed.

Lemma perm_snd {A} (l k : list A) i j : j :: l ++ i :: k ≡ₚ l ++ i :: j :: k.
Proof.
  rewrite <- (Permutation_middle l k i), <- (Permutation_middle l (j :: k) i), <- (Permutation_middle l k j).
  apply perm_swap.
Qed.

Lemma push_remainder_spec s0 s R1 r R2 n ru :
  core_inv s0 (R1 ++ r :: R2) → r_used r = false → 0 < ru ≤ r_size r →
  body n = (r_off r, r_size r, false, last_or UNUSED (ids R1), hd_or UNUSED (ids R2)) →
  pool s (ids (R1 ++ r :: R2)) → bins_inv s (free_of (R1 ++ R2)) →
  body_of (nodes s) (r_idx r) = Some (r_off r, ru, true, last_or UNUSED (ids R1), hd_or UNUSED (ids R2)) →
  (∀ j, j ≠ r_idx r → body_of (nodes s) j = body_of (nodes s0) j) →
  same_config s0 s → free_offset s < current_capacity s →
  ∃ j s', push_remainder (r_idx r) n ru s = Some s' ∧ core_inv s' (R1 ++ split_region r ru j ++ R2) ∧
    same_config s s'.
Proof.
  intros HI Hu Hru Hn HP HB Hbi Hbj Hcfg Hfo.
  destruct (core_inv_outer _ _ _ _ HI) as (Hnd & Hout & HL1 & HL2 & HD1 & HD2).
  destruct (NoDup_mid _ _ _ Hnd) as (Hi1 & Hi2 & Hnd').
  assert (∀ j, coalesced (R1 ++ split_region r ru j ++ R2)) as HC
    by (intros; apply coalesced_split; [done|apply HI]).
  pose proof (ci_tiles _ _ HI) as HT. pose proof (ci_size _ _ HI) as HS.
  assert (∀ j, j ≠ r_idx r → nb_link (nodes s) j = nb_link (nodes s0) j ∧ data_of (nodes s) j = data_of (nodes s0) j) as Hsame.
  { intros j Hj. unfold nb_link, data_of. by rewrite Hbj. }
  assert (nb_link (nodes s) (r_idx r) = Some (last_or UNUSED (ids R1), hd_or UNUSED (ids R2))) as Hli.
  { unfold nb_link. by rewrite Hbi. }
  assert (data_of (nodes s) (r_idx r) = Some (r_off r, ru, true)) as Hdi.
  { unfold data_of. by rewrite Hbi. }
  assert (data_size n = r_size r ∧ data_offset n = r_off r ∧ neighbor_next n = hd_or UNUSED (ids R2)) as (Hns & Hno & Hnn)
    by (unfold body in Hn; split_and!; congruence).
  unfold push_remainder. rewrite Hns, Hno, Hnn, u32_sub_ok by lia. cbn [mbind option_bind].
  destruct Hcfg as (Hc1 & Hc2 & Hc3).
  destruct (Z.ltb_spec 0 (r_size r - ru)) as [Hlt|Hge].
  2:{ exists 0, s. assert (r_size r = ru) as Heq by lia. split; [done|]. split; [|done].
      specialize (HC 0). apply (tiles_split _ _ _ ru 0) in HT; [|done].
      unfold split_region in *. rewrite Heq, Z.eqb_refl in *. simpl in *.
      constructor; simpl; rewrite ?Hc1; try done.
      - by rewrite ids_app in *.
      - by rewrite free_of_app, free_of_cons in *.
      - rewrite ids_app. simpl. apply dseg_app. split; [|split; [done|]].
        + eapply dseg_ext, HL1. intros j Hj. apply Hsame. set_solver.
        + eapply dseg_ext, HL2. intros j Hj. apply Hsame. set_solver.
      - apply Forall_app. split; [|apply Forall_cons; split; [done|]].
        + eapply data_ok_ext, HD1. intros j Hj. apply Hsame. set_solver.
        + eapply data_ok_ext, HD2. intros j Hj. apply Hsame. set_solver. }
  pose proof (tiles_bounds _ _ _ r HT ltac:(set_solver)) as Hbd.
  unfold is_u32 in HS.
  assert (free_storage s + (r_size r - ru) ≤ u32_max) as Hstore.
  { destruct HB as (_ & _ & -> & _). pose proof (tiles_free_sum _ _ _ HT) as Hsum.
    rewrite free_of_app, free_of_cons, Hu in Hsum. rewrite free_of_app.
    rewrite fmap_app, fmap_cons, foldr_add_app in *. cbn [foldr snd] in Hsum. lia. }
  rewrite u32_add_ok by lia. cbn [mbind option_bind].
  destruct (insert_node_spec s (ids (R1 ++ r :: R2)) (free_of (R1 ++ R2)) (r_size r - ru) (r_off r + ru))
    as (j & s1 & -> & HjL & HP1 & HB1 & Hbj1 & Hbo1 & Hcfg1 & Hfo1); try done.
  { apply owned_free_of. rewrite !ids_app. simpl. set_solver. }
  { unfold is_u32. lia. }
  rewrite ids_app in HjL. simpl in HjL.
  assert (j ≠ r_idx r ∧ j ∉ ids R1 ∧ j ∉ ids R2) as (Hji & Hj1 & Hj2) by set_solver.
  assert (∀ i, i ≠ j → nb_link (nodes s1) i = nb_link (nodes s) i) as Hl1
    by (intros; unfold nb_link; by rewrite Hbo1).
  assert (∀ i, i ≠ j → data_of (nodes s1) i = data_of (nodes s) i) as Hd1
    by (intros; unfold data_of; by rewrite Hbo1).
  assert (nb_link (nodes s1) j = Some (UNUSED, UNUSED)) as Hlj by (unfold nb_link; by rewrite Hbj1).
  cbn [mbind option_bind].
  destruct (set_prev_opt_spec s1 (ids R2) j) as (s2 & -> & Hn2 & Hs2 & Hh2).
  { intros i Hhd. assert (i ∈ ids R2) by (destruct (ids R2); simplify_eq/=; set_solver).
    destruct (Hout i) as (? & p & q & Hpq); [set_solver|]. split; [done|]. exists p, q.
    rewrite Hl1 by set_solver. by rewrite (proj1 (Hsame i ltac:(set_solver))). }
  assert (head (ids R2) ≠ Some j ∧ head (ids R2) ≠ Some (r_idx r)) as [Hhj Hhi]
    by (destruct (ids R2); simpl; set_solver).
  cbn [mbind option_bind].
  destruct (set_prev_spec s2 j UNUSED UNUSED (r_idx r)) as (s3 & -> & Hn3 & Hl3); [by rewrite Hs2|].
  cbn [mbind option_bind].
  destruct (set_next_spec s3 j (r_idx r) UNUSED (hd_or UNUSED (ids R2))) as (s4 & -> & Hn4 & Hl4); [by rewrite Hl3, upd_eq|].
  cbn [mbind option_bind].
  destruct (set_next_spec s4 (r_idx r) (last_or UNUSED (ids R1)) (hd_or UNUSED (ids R2)) j) as (s5 & -> & Hn5 & Hl5).
  { rewrite Hl4, upd_ne, Hl3, upd_ne, Hs2, Hl1 by done. done. }
  assert (nbr_step s1 s5) as Hstep by (etrans; [done|]; etrans; [done|]; by etrans).
  exists j, s5. split; [done|].
  assert (split_region r ru j = [mkReg (r_idx r) (r_off r) ru true; mkReg j (r_off r + ru) (r_size r - ru) false]) as Hsp.
  { unfold split_region. destruct (Z.eqb_spec (r_size r) ru); [lia|done]. }
  assert (same_config s s5) as Hcfg5 by (etrans; [done|apply Hstep]).
  split; [|done]. destruct Hcfg5 as (Hc5 & _ & _).
  specialize (HC j). apply (tiles_split _ _ _ ru j) in HT; [|done]. rewrite Hsp in *.
  constructor; rewrite ?Hc5, ?Hc1; try done.
  - eapply pool_perm; [|eapply nbr_step_pool; [exact Hstep|exact HP1]].
    rewrite !ids_app. cbn [ids fmap list_fmap r_idx app]. apply perm_snd.
  - eapply bins_inv_perm; [|eapply nbr_step_bins; [exact Hstep|exact HB1]].
    rewrite !free_of_app, !free_of_cons. simpl. by rewrite Permutation_middle.
  - rewrite !ids_app. simpl.
    replace (ids R1 ++ r_idx r :: j :: ids R2) with ((ids R1 ++ [r_idx r]) ++ [j] ++ ids R2) by (by rewrite <- app_assoc).
    assert (∀ i, i ≠ j → i ≠ r_idx r → head (ids R2) ≠ Some i → nb_link (nodes s5) i = nb_link (nodes s0) i) as Hoth.
    { intros i ???. rewrite Hl5, upd_ne, Hl4, upd_ne, Hl3, upd_ne, Hs2, Hl1 by done. by apply Hsame. }
    assert (nb_link (nodes s5) (r_idx r) = Some (last_or UNUSED (ids R1), j)) as Hl5i by (by rewrite Hl5, upd_eq).
    eapply (dseg_fill (nb_link (nodes s)) _ _ _ (hd_or UNUSED (ids R2)) (r_idx r)).
    + rewrite <- app_assoc. done.
    + apply dseg_app. split; [|done]. eapply dseg_ext, HL1. intros i Hi. apply Hsame. set_solver.
    + eapply dseg_ext, HL2. intros i Hi. apply Hsame. set_solver.
    + intros i Hi Hla Hhd. rewrite last_snoc in Hla. assert (i ≠ r_idx r) by congruence.
      rewrite Hoth by set_solver. symmetry. by apply Hsame.
    + intros l0 a p q [_ [= <-]]%app_inj_2 Hpq; [|done]. rewrite Hl5i. simpl. congruence.
    + intros a k0 p q Hk Hpq. rewrite Hk in *. assert (a ≠ j ∧ a ≠ r_idx r) as [??] by set_solver.
      rewrite Hl5, upd_ne, Hl4, upd_ne, Hl3, upd_ne by done. simpl. unfold last_or at 1. simpl.
      eapply Hh2; [done|]. by rewrite Hl1.
    + rewrite last_or_snoc. simpl. split; [|done]. rewrite Hl5, upd_ne, Hl4, upd_eq by done. done.
  - assert (∀ i, i ≠ j → data_of (nodes s5) i = data_of (nodes s) i) as Hd5.
    { intros i Hi. rewrite (ns_data _ _ Hstep). by apply Hd1. }
    unfold data_ok. rewrite !Forall_app, !Forall_cons. split_and!; try done.
    + eapply data_ok_ext, HD1. intros i Hi. rewrite Hd5 by set_solver. apply Hsame. set_solver.
    + rewrite Hd5 by done. done.
    + rewrite (ns_data _ _ Hstep). unfold data_of. simpl. by rewrite Hbj1.
    + eapply data_ok_ext, HD2. intros i Hi. rewrite Hd5 by set_solver. apply Hsame. set_solver.
Qed.
