(* ===== verification/CoreOps.v ===== *)
(** * Specifications of the core allocator's operations

    Allocation splits a free region, freeing merges a used region with its free
    neighbours, reserving carves an addressed range; each preserves the
    invariant of CoreInv and none panics. *)
From S2P Require Import Prelude SmallFloat CoreAllocator CoreBins CoreLists CoreInv.

(** The size an allocation request occupies. *)
Definition rounded (size : Z) : Z := float_to_uint (uint_to_float_round_up size).

Lemma rounded_bounds size :
  0 < size ≤ MAX_BIN_SIZE →
  size ≤ rounded size ∧ rounded size = bin_floor (uint_to_float_round_up size).
Proof.
  intros Hs. pose proof (round_up_max size ltac:(lia)). unfold rounded.
  rewrite float_to_uint_floor by lia. split; [|done]. by apply round_up_adjoint; lia.
Qed.

Lemma alloc_step s R size :
  core_inv s R → 0 < size ≤ MAX_BIN_SIZE → free_offset s < current_capacity s →
  ∃ a s', (found ← find_bin s (uint_to_float_round_up size);
           match found with
           | None => Some (NO_SPACE, s)
           | Some (top, leaf) =>
               '(node_index, n, s2) ← pop_bin top leaf (rounded size) s;
               s3 ← push_remainder node_index n (rounded size) s2;
               Some (mkOffsetAllocation (data_offset n) node_index, s3)
           end) = Some (a, s') ∧ core_size s' = core_size s ∧ max_capacity s' = max_capacity s ∧
    ((a = NO_SPACE ∧ core_inv s' R ∧
      ∀ r, r ∈ R → r_used r = false → bin_floor (uint_to_float_round_down (r_size r)) < size) ∨
     (∃ R1 r R2 j, R = R1 ++ r :: R2 ∧ r_used r = false ∧ rounded size ≤ r_size r ∧
        a = mkOffsetAllocation (r_off r) (r_idx r) ∧ r_idx r ≠ UNUSED ∧
        core_inv s' (R1 ++ split_region r (rounded size) j ++ R2))).
Proof.
  intros HI Hs Hfo. pose proof (round_up_max size ltac:(lia)) as Hm.
  destruct (rounded_bounds size Hs) as [Hru Hfl].
  destruct (search_spec s R (uint_to_float_round_up size) (rounded size) HI ltac:(lia))
    as [[-> Hnone]|(t & l & R1 & r & R2 & n & s1 & -> & -> & Hu & Hge & Hn & Hpop & HP & HB & Hbi & Hbj & Hcfg & Hfo1)].
  - simpl. exists NO_SPACE, s. split_and!; try done. left. split_and!; [done..|].
    intros r Hr Hu. specialize (Hnone r Hr Hu).
    pose proof (tiles_bounds _ _ _ r (ci_tiles _ _ HI) Hr) as Hb.
    pose proof (proj1 (round_down_bounds (r_size r) ltac:(lia))).
    apply Z.nle_gt. rewrite <- round_up_adjoint by lia. lia.
  - cbn [mbind option_bind]. rewrite Hpop. cbn [mbind option_bind].
    pose proof (tiles_bounds _ _ _ r (ci_tiles _ _ HI) ltac:(set_solver)) as Hb.
    assert (rounded size ≤ r_size r) by (rewrite Hfl; apply round_down_adjoint; lia).
    destruct (core_inv_node _ _ _ _ HI) as (_ & _ & Hidx & _).
    destruct (push_remainder_spec s s1 R1 r R2 n (rounded size)) as (j & s2 & -> & HI2 & Hcfg2); try done.
    { lia. } { destruct Hcfg as (_ & -> & _). lia. }
    cbn [mbind option_bind].
    assert (data_offset n = r_off r) as -> by (unfold body in Hn; congruence).
    destruct Hcfg as (Hc & _ & Hx), Hcfg2 as (Hc2 & _ & Hx2).
    eexists _, s2. split; [done|]. split_and!; [congruence..|]. right. exists R1, r, R2, j. done.
Qed.

(** [core_allocate] never panics; it fails only when the node pool is exhausted or no
    free region's bin covers the request, and otherwise splits a free region. *)
Lemma core_allocate_spec s R size :
  core_inv s R → 0 < size ≤ MAX_BIN_SIZE →
  ∃ a s', core_allocate size s = Some (a, s') ∧
    core_size s' = core_size s ∧ max_capacity s' = max_capacity s ∧
    ((a = NO_SPACE ∧ core_inv s' R ∧
      (free_offset s = max_capacity s ∨
       ∀ r, r ∈ R → r_used r = false → bin_floor (uint_to_float_round_down (r_size r)) < size)) ∨
     (∃ R1 r R2 j, free_offset s ≠ max_capacity s ∧
        R = R1 ++ r :: R2 ∧ r_used r = false ∧ rounded size ≤ r_size r ∧
        a = mkOffsetAllocation (r_off r) (r_idx r) ∧ r_idx r ≠ UNUSED ∧
        core_inv s' (R1 ++ split_region r (rounded size) j ++ R2))).
Proof.
  intros HI Hs. pose proof (ci_pool _ _ HI) as (_ & _ & Ho & Hm & _).
  unfold core_allocate. destruct (Z.eqb_spec (free_offset s) (max_capacity s)).
  { exists NO_SPACE, s. split_and!; try done. left. split_and!; [done..|]. by left. }
  assert (∃ s1, (if free_offset s =? current_capacity s then grow s else Some s) = Some s1 ∧
            core_inv s1 R ∧ core_size s1 = core_size s ∧ max_capacity s1 = max_capacity s ∧
            free_offset s1 < current_capacity s1) as (s1 & -> & HI1 & Hc1 & Hm1 & Hfo1).
  { destruct (Z.eqb_spec (free_offset s) (current_capacity s)).
    - destruct (core_inv_grow s R HI) as (s1 & -> & ? & ? & ? & ? & ?); [lia|].
      exists s1. split_and!; try done. lia.
    - exists s. split_and!; try done. lia. }
  cbn [mbind option_bind].
  destruct (alloc_step s1 R size HI1 Hs Hfo1) as (a & s' & Heq & Hc & Hx & Hcase).
  exists a, s'. split; [exact Heq|]. split_and!; [congruence..|]. naive_solver.
Qed.

(** ** Freeing *)

(** The state around the node [i] being freed, whose region is [o, o + z): [R1] and
    [R2] are the regions before and after it. *)
Record gap_inv (s : CoreAllocator) (i o z : Z) (R1 R2 : list Reg) : Prop := {
  gi_pool : pool s (i :: ids R1 ++ ids R2);
  gi_bins : bins_inv s (free_of (R1 ++ R2));
  gi_link : nb_link (nodes s) i = Some (last_or UNUSED (ids R1), hd_or UNUSED (ids R2));
  gi_left : ∃ x, dseg (nb_link (nodes s)) UNUSED (ids R1) x;
  gi_right : ∃ y, dseg (nb_link (nodes s)) y (ids R2) UNUSED;
  gi_data1 : data_ok (nodes s) R1;
  gi_data2 : data_ok (nodes s) R2;
  gi_tiles1 : tiles 0 R1 o;
  gi_tiles2 : tiles (o + z) R2 (core_size s);
  gi_pos : 0 < z;
  gi_coal1 : coalesced R1;
  gi_coal2 : coalesced R2;
  gi_size : is_u32 (core_size s)
}.

Lemma core_inv_gap s R1 r R2 :
  core_inv s (R1 ++ r :: R2) → r_used r = true → gap_inv s (r_idx r) (r_off r) (r_size r) R1 R2.
Proof.
  intros HI Hu. destruct (core_inv_outer _ _ _ _ HI) as (Hnd & Hout & HL1 & HL2 & HD1 & HD2).
  destruct (core_inv_node _ _ _ _ HI) as (n & Hg & Hidx & Hb).
  destruct HI as [HP HB HL HD HT HC HS].
  apply coalesced_app_inv in HC as [HC1 HC2]. apply (coalesced_app_inv [r]) in HC2 as [_ HC2].
  apply tiles_app in HT as (m & HT1 & -> & ? & ? & HT2).
  constructor; eauto.
  - eapply pool_perm, HP. rewrite ids_app. simpl. by rewrite Permutation_middle.
  - by rewrite free_of_app, free_of_cons, Hu, <- free_of_app in HB.
  - unfold nb_link, body_of. rewrite Hg. cbn. unfold body in Hb. congruence.
Qed.

Lemma data_ok_app ns R1 R2 : data_ok ns (R1 ++ R2) ↔ data_ok ns R1 ∧ data_ok ns R2.
Proof. apply Forall_app. Qed.

(** The node of a region, from its links and data. *)
Lemma region_node ns r p q :
  data_of ns (r_idx r) = Some (r_off r, r_size r, r_used r) → nb_link ns (r_idx r) = Some (p, q) →
  ∃ n, vget ns (r_idx r) = Some n ∧ body n = (r_off r, r_size r, r_used r, p, q).
Proof.
  unfold data_of, nb_link, body_of, body. destruct (vget ns (r_idx r)) as [n|]; [|done].
  simpl. intros [= ] [= ]. exists n. split; [done|]. congruence.
Qed.

Definition used_or_none (o : option Reg) : Prop := ∀ r, o = Some r → r_used r = true.

Lemma coalesced_last R0 p : coalesced (R0 ++ [p]) → r_used p = false → used_or_none (last R0).
Proof.
  intros HC Hp r [R ->]%last_Some. rewrite <- app_assoc in HC. apply coalesced_app_inv in HC as [_ HC].
  simpl in HC. destruct HC as [[?|?] _]; congruence.
Qed.

Lemma coalesced_head p R0 : coalesced (p :: R0) → r_used p = false → used_or_none (head R0).
Proof. intros HC Hp r Hr. destruct R0; simplify_eq/=. destruct HC as [[?|?] _]; congruence. Qed.

Lemma ids_snoc R p : ids (R ++ [p]) = ids R ++ [r_idx p].
Proof. by rewrite ids_app. Qed.

(** The links of the outer regions survive any step that keeps them. *)
Lemma gap_inv_step s s' i o0 z0 o z R1 R2 R1' R2' :
  pool s' (i :: ids R1' ++ ids R2') → bins_inv s' (free_of (R1' ++ R2')) →
  same_config s s' →
  nb_link (nodes s') i = Some (last_or UNUSED (ids R1'), hd_or UNUSED (ids R2')) →
  (∀ j, j ≠ i → nb_link (nodes s') j = nb_link (nodes s) j ∧ data_of (nodes s') j = data_of (nodes s) j) →
  (∃ E, R1 = R1' ++ E) → (∃ E, R2 = E ++ R2') →
  tiles 0 R1' o → tiles (o + z) R2' (core_size s) → 0 < z →
  gap_inv s i o0 z0 R1 R2 → gap_inv s' i o z R1' R2'.
Proof.
  intros HP HB (Hc & _ & _) Hl Hbo [E1 ->] [E2 ->] HT1 HT2 Hz
    [HP0 _ _ [x HL1] [y HL2] HD1 HD2 _ _ _ HC1 HC2 HS].
  pose proof (pool_NoDup _ _ HP) as [Hi _]%NoDup_cons.
  assert (∀ j, j ∈ ids R1' ++ ids R2' → nb_link (nodes s') j = nb_link (nodes s) j ∧
            data_of (nodes s') j = data_of (nodes s) j) as Hsame.
  { intros j Hj. apply Hbo. set_solver. }
  apply coalesced_app_inv in HC1 as [? _], HC2 as [_ ?].
  apply data_ok_app in HD1 as [? _], HD2 as [_ ?]. rewrite ids_app in HL1, HL2.
  apply dseg_app in HL1 as [HL1 _], HL2 as [_ HL2].
  constructor; rewrite ?Hc; try done.
  - eexists. eapply dseg_ext, HL1. intros. apply Hsame. set_solver.
  - eexists. eapply dseg_ext, HL2. intros. apply Hsame. set_solver.
  - eapply data_ok_ext; [|done]. intros. apply Hsame. set_solver.
  - eapply data_ok_ext; [|done]. intros. apply Hsame. set_solver.
Qed.

(** Taking a free neighbour [p] out of its bin while [i] is being freed. *)
Lemma gap_remove s i o z R1 R2 p L :
  gap_inv s i o z R1 R2 → p ∈ R1 ++ R2 → r_used p = false →
  (r_idx p :: L ≡ₚ i :: ids R1 ++ ids R2) →
  ∀ F, free_of (R1 ++ R2) ≡ₚ (r_idx p, r_size p) :: F →
  ∃ s', remove_node_from_bin (r_idx p) s = Some s' ∧ pool s' L ∧ bins_inv s' F ∧
    (∀ j, body_of (nodes s') j = body_of (nodes s) j) ∧ same_config s s'.
Proof.
  intros HG Hp Hu HL F HF. destruct HG as [HP HB _ _ _ HD1 HD2 _ _ _ _ _ _].
  pose proof (proj2 (data_ok_app _ _ _) (conj HD1 HD2)) as HD. unfold data_ok in HD.
  rewrite Forall_forall in HD. specialize (HD p Hp). unfold data_of, body_of in HD.
  destruct (vget (nodes s) (r_idx p)) as [n|] eqn:Hg; [|done]. simpl in HD.
  assert (data_size n = r_size p) as Hsz by congruence. rewrite <- Hsz in HF.
  destruct (remove_node_spec s L (free_of (R1 ++ R2)) F (r_idx p) n) as (s' & ? & ? & ? & ? & ? & _); try done.
  - by eapply pool_perm.
  - apply owned_free_of. rewrite HL, ids_app. set_solver.
  - by exists s'.
Qed.

Lemma merge_prev_spec s i o z R1 R2 :
  gap_inv s i o z R1 R2 →
  ∃ o' z' s' R1', merge_prev i o z s = Some (o', z', s') ∧ gap_inv s' i o' z' R1' R2 ∧
    used_or_none (last R1') ∧ same_config s s' ∧ o' + z' = o + z ∧
    (R1' = R1 ∨ ∃ p, R1 = R1' ++ [p] ∧ r_used p = false).
Proof.
  intros HG. pose proof HG as [HP HB Hl [x HL1] _ HD1 _ HT1 HT2 Hz HC1 _ HS].
  destruct (nb_link_node _ _ _ _ Hl) as (n & Hg & Hprev & _).
  unfold merge_prev. rewrite Hg. cbn [mbind option_bind]. rewrite Hprev. clear n Hg Hprev.
  destruct R1 as [|p R0 _] using rev_ind.
  { exists o, z, s, []. split; [done|]. split_and!; [done| |done|done|by left]. intros r [=]. }
  rewrite ids_snoc in *. rewrite last_or_snoc in *.
  destruct (pool_node _ _ (r_idx p) HP) as (_ & _ & Hpu); [set_solver|].
  destruct (Z.eqb_spec (r_idx p) UNUSED); [done|].
  apply data_ok_app in HD1 as [_ HDp]. unfold data_ok in HDp. rewrite Forall_singleton in HDp.
  pose proof (dseg_split _ _ _ _ [] _ HL1) as Hlp. cbn [hd_or] in Hlp.
  destruct (region_node _ _ _ _ HDp Hlp) as (m & Hgm & Hbm).
  assert (used m = r_used p ∧ data_size m = r_size p ∧ data_offset m = r_off p) as (Hmu & Hms & Hmo)
    by (unfold body in Hbm; split_and!; congruence).
  rewrite Hgm. cbn [mbind option_bind]. rewrite Hmu, Hms, Hmo. clear Hmu Hms Hmo.
  destruct (r_used p) eqn:Hu.
  { exists o, z, s, (R0 ++ [p]). split; [done|]. split_and!; [done| |done|done|by left].
    intros r. rewrite last_snoc. congruence. }
  apply tiles_app in HT1 as (o' & HT0 & Hpo & Hps & _ & Ho). cbn [tiles] in Ho.
  pose proof (tiles_le _ _ _ HT0). pose proof (tiles_le _ _ _ HT2). unfold is_u32 in HS.
  rewrite u32_add_ok by lia. cbn [mbind option_bind].
  destruct (gap_remove s i o z (R0 ++ [p]) R2 p (i :: ids R0 ++ ids R2)) with (F := free_of (R0 ++ R2))
    as (s1 & -> & HP1 & HB1 & Hbo1 & Hcfg1); try done.
  { set_solver. }
  { rewrite ids_snoc, <- app_assoc. cbn [app]. rewrite <- (Permutation_middle (ids R0)). apply perm_swap. }
  { rewrite !free_of_app, free_of_cons, Hu, <- app_assoc. cbn [app]. by rewrite <- Permutation_middle. }
  cbn [mbind option_bind]. destruct (body_links s s1 Hbo1) as [Hnl1 Hda1].
  destruct (nb_link_node (nodes s1) (r_idx p) (last_or UNUSED (ids R0)) x) as (m' & -> & Hpp & _).
  { by rewrite Hnl1. }
  cbn [mbind option_bind]. rewrite Hpp.
  edestruct (set_prev_spec s1 i) as (s2 & -> & Hn2 & Hl2); [by rewrite Hnl1|].
  cbn [mbind option_bind]. exists (r_off p), (z + r_size p), s2, R0. split; [done|].
  assert (same_config s s2) as Hcfg by (etrans; [done|apply Hn2]).
  split_and!; [| |done|lia|right; eauto].
  - eapply (gap_inv_step s s2 i o z); try done.
    + by eapply nbr_step_pool.
    + by eapply nbr_step_bins.
    + by rewrite Hl2, upd_eq.
    + intros j Hj. rewrite Hl2, upd_ne, (ns_data _ _ Hn2) by done. by rewrite Hnl1, Hda1.
    + by exists [p].
    + by exists [].
    + by rewrite Hpo.
    + by replace (r_off p + (z + r_size p)) with (o + z) by lia.
    + lia.
  - eapply coalesced_last; done.
Qed.

Lemma merge_next_spec s i o z R1 R2 :
  gap_inv s i o z R1 R2 →
  ∃ z' s' R2', merge_next i z s = Some (z', s') ∧ gap_inv s' i o z' R1 R2' ∧
    used_or_none (head R2') ∧ same_config s s' ∧
    (R2' = R2 ∨ ∃ p, R2 = p :: R2' ∧ r_used p = false).
Proof.
  intros HG. pose proof HG as [HP HB Hl _ [y HL2] _ HD2 HT1 HT2 Hz _ HC2 HS].
  destruct (nb_link_node _ _ _ _ Hl) as (n & Hg & _ & Hnext).
  unfold merge_next. rewrite Hg. cbn [mbind option_bind]. rewrite Hnext. clear n Hg Hnext.
  destruct R2 as [|p R0].
  { exists z, s, []. split; [done|]. split_and!; [done| |done|by left]. intros r [=]. }
  destruct (pool_node _ _ (r_idx p) HP) as (_ & _ & Hpu); [simpl; set_solver|].
  cbn [ids fmap list_fmap hd_or] in *. fold (ids R0) in *.
  destruct (Z.eqb_spec (r_idx p) UNUSED); [done|].
  apply Forall_cons in HD2 as [HDp _]. destruct HL2 as [Hlp _].
  destruct (region_node _ _ _ _ HDp Hlp) as (m & Hgm & Hbm).
  assert (used m = r_used p ∧ data_size m = r_size p) as (Hmu & Hms)
    by (unfold body in Hbm; split_and!; congruence).
  rewrite Hgm. cbn [mbind option_bind]. rewrite Hmu, Hms. clear Hmu Hms.
  destruct (r_used p) eqn:Hu.
  { exists z, s, (p :: R0). split; [done|]. split_and!; [done| |done|by left].
    intros r. simpl. congruence. }
  destruct HT2 as (Hpo & Hps & _ & HT0).
  pose proof (tiles_le _ _ _ HT0). pose proof (tiles_le _ _ _ HT1). unfold is_u32 in HS.
  rewrite u32_add_ok by lia. cbn [mbind option_bind].
  destruct (gap_remove s i o z R1 (p :: R0) p (i :: ids R1 ++ ids R0)) with (F := free_of (R1 ++ R0))
    as (s1 & -> & HP1 & HB1 & Hbo1 & Hcfg1); try done.
  { set_solver. }
  { cbn [ids fmap list_fmap]. fold (ids R0). rewrite <- (Permutation_middle (ids R1)). apply perm_swap. }
  { rewrite !free_of_app, free_of_cons, Hu. by rewrite <- Permutation_middle. }
  cbn [mbind option_bind]. destruct (body_links s s1 Hbo1) as [Hnl1 Hda1].
  destruct (nb_link_node (nodes s1) (r_idx p) y (hd_or UNUSED (ids R0))) as (m' & -> & _ & Hnn).
  { by rewrite Hnl1. }
  cbn [mbind option_bind]. rewrite Hnn.
  edestruct (set_next_spec s1 i) as (s2 & -> & Hn2 & Hl2); [by rewrite Hnl1|].
  cbn [mbind option_bind]. exists (z + r_size p), s2, R0. split; [done|].
  assert (same_config s s2) as Hcfg by (etrans; [done|apply Hn2]).
  split_and!; [| |done|right; eauto].
  - eapply (gap_inv_step s s2 i o z); try done.
    + by eapply nbr_step_pool.
    + by eapply nbr_step_bins.
    + by rewrite Hl2, upd_eq.
    + intros j Hj. rewrite Hl2, upd_ne, (ns_data _ _ Hn2) by done. by rewrite Hnl1, Hda1.
    + exists []. by rewrite app_nil_r.
    + by exists [p].
    + by rewrite Z.add_assoc.
    + lia.
  - eapply coalesced_head; done.
Qed.

(** Linking a fresh node [c] to its next neighbour, and to its previous one. *)
Lemma relink_next s c l p :
  nb_link (nodes s) c = Some (p, UNUSED) → c ∉ l →
  (∀ i, i ∈ l → i ≠ UNUSED ∧ ∃ p q, nb_link (nodes s) i = Some (p, q)) →
  ∃ s', (if hd_or UNUSED l =? UNUSED then Some s
         else s2 ← update_node c (set_neighbor_next (hd_or UNUSED l)) s;
              update_node (hd_or UNUSED l) (set_neighbor_prev c) s2) = Some s' ∧
    nbr_step s s' ∧ nb_link (nodes s') c = Some (p, hd_or UNUSED l) ∧
    (∀ j, j ≠ c → head l ≠ Some j → nb_link (nodes s') j = nb_link (nodes s) j) ∧
    (∀ a p q, head l = Some a → nb_link (nodes s) a = Some (p, q) → nb_link (nodes s') a = Some (c, q)).
Proof.
  intros Hc Hnl Hl. destruct l as [|i l]; cbn [head hd_or] in *.
  - rewrite Z.eqb_refl. exists s. split_and!; done.
  - destruct (Hl i) as (Hu & p' & q & Hpq); [set_solver|]. destruct (Z.eqb_spec i UNUSED); [done|].
    assert (i ≠ c) by set_solver.
    edestruct (set_next_spec s c) as (s1 & -> & Hn1 & Hl1); [done|]. cbn [mbind option_bind].
    edestruct (set_prev_spec s1 i) as (s2 & -> & Hn2 & Hl2); [by rewrite Hl1, upd_ne|].
    exists s2. split_and!; [done|by etrans|by rewrite Hl2, upd_ne, Hl1, upd_eq by done| |].
    + intros j Hj Hji. rewrite Hl2, upd_ne, Hl1, upd_ne by congruence. done.
    + intros a pa qa [= <-] Ha. rewrite Hl2, upd_eq. congruence.
Qed.

Lemma relink_prev s c l q :
  nb_link (nodes s) c = Some (UNUSED, q) → c ∉ l →
  (∀ i, i ∈ l → i ≠ UNUSED ∧ ∃ p q, nb_link (nodes s) i = Some (p, q)) →
  ∃ s', (if last_or UNUSED l =? UNUSED then Some s
         else s2 ← update_node c (set_neighbor_prev (last_or UNUSED l)) s;
              update_node (last_or UNUSED l) (set_neighbor_next c) s2) = Some s' ∧
    nbr_step s s' ∧ nb_link (nodes s') c = Some (last_or UNUSED l, q) ∧
    (∀ j, j ≠ c → last l ≠ Some j → nb_link (nodes s') j = nb_link (nodes s) j) ∧
    (∀ a p q, last l = Some a → nb_link (nodes s) a = Some (p, q) → nb_link (nodes s') a = Some (p, c)).
Proof.
  intros Hc Hnl Hl. unfold last_or. destruct (last l) as [i|] eqn:E.
  - assert (i ∈ l) by (apply last_Some in E as [? ->]; set_solver).
    destruct (Hl i) as (Hu & p & q' & Hpq); [done|]. destruct (Z.eqb_spec i UNUSED); [done|].
    assert (i ≠ c) by set_solver.
    edestruct (set_prev_spec s c) as (s1 & -> & Hn1 & Hl1); [done|]. cbn [mbind option_bind].
    edestruct (set_next_spec s1 i) as (s2 & -> & Hn2 & Hl2); [by rewrite Hl1, upd_ne|].
    exists s2. split_and!; [done|by etrans|by rewrite Hl2, upd_ne, Hl1, upd_eq by done| |].
    + intros j Hj Hji. rewrite Hl2, upd_ne, Hl1, upd_ne by congruence. done.
    + intros a pa qa [= <-] Ha. rewrite Hl2, upd_eq. congruence.
  - rewrite Z.eqb_refl. exists s. split_and!; done.
Qed.

(** A gap filled by one free node [c] satisfies the invariant again. *)
Lemma gap_fill s s' i c o z R1 R2 :
  gap_inv s i o z R1 R2 → used_or_none (last R1) → used_or_none (head R2) →
  c ∉ ids R1 → c ∉ ids R2 →
  pool s' (c :: ids R1 ++ ids R2) → bins_inv s' ((c, z) :: free_of (R1 ++ R2)) →
  core_size s' = core_size s →
  (∀ j, j ≠ c → data_of (nodes s') j = data_of (nodes s) j) →
  data_of (nodes s') c = Some (o, z, false) →
  nb_link (nodes s') c = Some (last_or UNUSED (ids R1), hd_or UNUSED (ids R2)) →
  (∀ j, j ≠ c → last (ids R1) ≠ Some j → head (ids R2) ≠ Some j →
     nb_link (nodes s') j = nb_link (nodes s) j) →
  (∀ a p q, last (ids R1) = Some a → nb_link (nodes s) a = Some (p, q) → nb_link (nodes s') a = Some (p, c)) →
  (∀ a p q, head (ids R2) = Some a → nb_link (nodes s) a = Some (p, q) → nb_link (nodes s') a = Some (c, q)) →
  core_inv s' (R1 ++ mkReg c o z false :: R2).
Proof.
  intros [HP0 HB0 _ [x HL1] [y HL2] HD1 HD2 HT1 HT2 Hz HC1 HC2 HS] Hu1 Hu2 Hc1 Hc2 HP HB Hcs Hd Hdc Hlc Hlo Hla Hhd.
  constructor; rewrite ?Hcs; try done.
  - eapply pool_perm, HP. rewrite ids_app. simpl. apply Permutation_middle.
  - eapply bins_inv_perm, HB. rewrite !free_of_app, free_of_cons. simpl. apply Permutation_middle.
  - rewrite ids_app. simpl. apply (dseg_fill (nb_link (nodes s)) _ UNUSED (ids R1) x y (ids R2) UNUSED [c]); try done.
    + by apply pool_NoDup, NoDup_cons in HP as [_ ?].
    + intros j Hj ? ?. apply Hlo; [set_solver|done..].
    + intros l0 a p q Hl Ha. eapply Hla; [|done]. by rewrite Hl, last_snoc.
    + intros a k0 p q Hl Ha. eapply Hhd; [|done]. by rewrite Hl.
  - apply data_ok_app. split; [|apply Forall_cons; split; [done|]].
    + eapply data_ok_ext, HD1. intros j Hj. apply Hd. set_solver.
    + eapply data_ok_ext, HD2. intros j Hj. apply Hd. set_solver.
  - apply tiles_app. exists o. split; [done|]. simpl. split_and!; [done|lia|done..].
  - apply coalesced_app; [done| |].
    + destruct R2 as [|r R2]; [done|]. split; [|done]. right. by apply Hu2.
    + intros a b Ha [= <-]. left. by apply Hu1.
Qed.

Lemma reinsert_spec s i o z R1 R2 :
  gap_inv s i o z R1 R2 → used_or_none (last R1) → used_or_none (head R2) →
  ∃ c s', reinsert i o z s = Some s' ∧ core_inv s' (R1 ++ mkReg c o z false :: R2) ∧
    same_config s s'.
Proof.
  intros HG Hu1 Hu2. pose proof HG as [HP HB Hl [x HL1] [y HL2] _ _ HT1 HT2 Hz _ _ HS].
  destruct (nb_link_node _ _ _ _ Hl) as (n & Hg & Hp & Hn).
  unfold reinsert. rewrite Hg. cbn [mbind option_bind]. rewrite Hp, Hn.
  destruct (pool_push _ _ _ HP) as [Hoff Hperm]. pose proof HP as (Hln & Hlf & Ho & Hm & _).
  rewrite u32_sub_ok by lia. cbn [mbind option_bind].
  rewrite (proj2 (vset_Some _ _ _ _)) by (split; [lia|done]). cbn [mbind option_bind].
  set (s0 := with_free_list _ _ s).
  pose proof (tiles_le _ _ _ HT1). pose proof (tiles_le _ _ _ HT2). unfold is_u32 in HS.
  assert (free_storage s + z ≤ u32_max) as Hstore.
  { destruct HB as (_ & _ & -> & _). apply tiles_free_sum in HT1, HT2.
    rewrite free_of_app, fmap_app, foldr_add_app. lia. }
  destruct (insert_node_spec s0 (ids R1 ++ ids R2) (free_of (R1 ++ R2)) z o)
    as (c & s1 & -> & HcL & HP1 & HB1 & Hbc1 & Hbo1 & Hcfg1 & _); try done.
  { split_and!; simpl; [done|by rewrite length_insert|lia..|done]. }
  { apply owned_free_of. by rewrite ids_app. }
  { simpl. lia. }
  { unfold is_u32. lia. }
  cbn [mbind option_bind].
  assert (c ∉ ids R1 ∧ c ∉ ids R2) as [Hc1 Hc2] by set_solver.
  assert (∀ j, j ≠ c → nb_link (nodes s1) j = nb_link (nodes s) j ∧ data_of (nodes s1) j = data_of (nodes s) j) as Hsame.
  { intros j Hj. unfold nb_link, data_of. by rewrite Hbo1. }
  assert (nb_link (nodes s1) c = Some (UNUSED, UNUSED)) as Hlc by (unfold nb_link; by rewrite Hbc1).
  assert (data_of (nodes s1) c = Some (o, z, false)) as Hdc by (unfold data_of; by rewrite Hbc1).
  assert (∀ l a b j, dseg (nb_link (nodes s)) a l b → c ∉ l → (∀ k, k ∈ l → k ∈ ids R1 ++ ids R2) → j ∈ l →
            j ≠ UNUSED ∧ ∃ p q, nb_link (nodes s1) j = Some (p, q)) as Hval.
  { intros l a b j Hdl Hcl Hsub Hj. destruct (pool_node _ _ j HP) as (_ & _ & ?); [set_solver|].
    split; [done|]. rewrite (proj1 (Hsame j ltac:(set_solver))). by eapply dseg_link. }
  destruct (relink_next s1 c (ids R2) UNUSED) as (s2 & -> & Hn2 & Hc2' & Ho2 & Hh2); try done.
  { intros j Hj. eapply Hval; [exact HL2|done|set_solver|done]. }
  cbn [mbind option_bind].
  assert (NoDup (ids R1 ++ ids R2)) as Hnd by (by apply pool_NoDup, NoDup_cons in HP as [_ ?]).
  assert (∀ j, j ∈ ids R1 → nb_link (nodes s2) j = nb_link (nodes s1) j) as H12.
  { intros j Hj. apply Ho2; [set_solver|]. intros Hh. apply NoDup_app in Hnd as (_ & Hd & _).
    apply (Hd j Hj). destruct (ids R2); set_solver. }
  destruct (relink_prev s2 c (ids R1) (hd_or UNUSED (ids R2))) as (s3 & -> & Hn3 & Hc3 & Ho3 & Hl3); try done.
  { intros j Hj. rewrite H12 by done. eapply Hval; [exact HL1|done|set_solver|done]. }
  assert (nbr_step s1 s3) as Hst by (by etrans).
  assert (same_config s s3) as Hcfg by (etrans; [exact Hcfg1|apply Hst]).
  exists c, s3. split; [done|]. split; [|done].
  eapply (gap_fill s s3 i c); try done.
  - by eapply nbr_step_pool.
  - by eapply nbr_step_bins.
  - apply Hcfg.
  - intros j Hj. rewrite (ns_data _ _ Hst). by apply Hsame.
  - by rewrite (ns_data _ _ Hst).
  - intros j Hj Hla Hhd. rewrite Ho3, Ho2 by done. by apply Hsame.
  - intros a p q Ha Hpq. assert (a ∈ ids R1) by (apply last_Some in Ha as [? ->]; set_solver).
    eapply Hl3; [done|]. rewrite H12 by done. rewrite (proj1 (Hsame a ltac:(set_solver))). done.
  - intros a p q Ha Hpq. assert (a ∈ ids R2) by (destruct (ids R2); simplify_eq/=; set_solver).
    assert (a ≠ c) by set_solver.
    assert (last (ids R1) ≠ Some a).
    { intros [? Hl1]%last_Some. rewrite Hl1 in Hnd. apply NoDup_app in Hnd as (_ & Hd & _). set_solver. }
    rewrite Ho3 by done. eapply Hh2; [done|]. by rewrite (proj1 (Hsame a ltac:(done))).
Qed.

(** Freeing a used region merges it with its free neighbours; [core_free] never panics. *)
Lemma core_free_spec s R1 r R2 :
  core_inv s (R1 ++ r :: R2) → r_used r = true →
  ∃ c o z s' R1' R2', core_free (mkOffsetAllocation (r_off r) (r_idx r)) s = Some s' ∧
    core_inv s' (R1' ++ mkReg c o z false :: R2') ∧ same_config s s' ∧
    (R1' = R1 ∨ ∃ p, R1 = R1' ++ [p] ∧ r_used p = false) ∧
    (R2' = R2 ∨ ∃ p, R2 = p :: R2' ∧ r_used p = false).
Proof.
  intros HI Hu. destruct (core_inv_node _ _ _ _ HI) as (n & Hg & Hidx & Hb).
  assert (used n = true ∧ data_offset n = r_off r ∧ data_size n = r_size r) as (Hnu & Hno & Hns)
    by (unfold body in Hb; split_and!; congruence).
  pose proof (core_inv_gap _ _ _ _ HI Hu) as HG.
  unfold core_free. cbn [oa_metadata]. destruct (Z.eqb_spec (r_idx r) UNUSED) as [|_]; [done|].
  assert (∃ n0 ns, nodes s = n0 :: ns) as (n0 & ns & Hns0).
  { destruct (nodes s) as [|n0 ns] eqn:E; [|eauto]. apply vget_lt in Hg. simpl in Hg. lia. }
  rewrite Hns0, <- Hns0, Hg. cbn [mbind option_bind]. rewrite Hnu, Hno, Hns. cbn [negb].
  destruct (merge_prev_spec _ _ _ _ _ _ HG) as (o & z & s1 & R1' & -> & HG1 & Hu1 & Hcfg1 & _ & Hc1).
  cbn [mbind option_bind].
  destruct (merge_next_spec _ _ _ _ _ _ HG1) as (z' & s2 & R2' & -> & HG2 & Hu2 & Hcfg2 & Hc2).
  cbn [mbind option_bind].
  destruct (reinsert_spec _ _ _ _ _ _ HG2 Hu1 Hu2) as (c & s3 & -> & HI3 & Hcfg3).
  exists c, o, z', s3, R1', R2'. split_and!; try done. etrans; [done|]. by etrans.
Qed.
