(* ===== verification/CoreReserve.v ===== *)
(** * Reserving an addressed range, and the storage report

    [ensure_capacity], the covering-region walk and the carve of
    [CoreAllocator::reserve_exact]: the walk terminates on every bin list and finds
    a covering free region exactly when one exists, and the carve replaces that
    region by up to three pieces. *)
From S2P Require Import Prelude SmallFloat CoreAllocator CoreBins CoreLists CoreInv CoreOps.

(** ** Growing the pool on demand *)

Lemma ensure_capacity_loop_spec fuel n s R :
  core_inv s R → n - (current_capacity s - free_offset s) ≤ Z.of_nat fuel →
  ∃ b s', ensure_capacity_loop fuel n s = Some (b, s') ∧ core_inv s' R ∧
    core_size s' = core_size s ∧ max_capacity s' = max_capacity s ∧ free_offset s' = free_offset s ∧
    b = bool_decide (n ≤ max_capacity s - free_offset s) ∧
    (b = true → n ≤ current_capacity s' - free_offset s').
Proof.
  revert s. induction fuel as [|fuel IH]; intros s HI Hf;
    pose proof (ci_pool _ _ HI) as (_ & _ & Ho & Hm & _); simpl.
  - rewrite u32_sub_ok by lia. cbn [mbind option_bind].
    destruct (Z.ltb_spec (current_capacity s - free_offset s) n); [lia|].
    exists true, s. rewrite bool_decide_eq_true_2 by lia. done.
  - rewrite u32_sub_ok by lia. cbn [mbind option_bind].
    destruct (Z.ltb_spec (current_capacity s - free_offset s) n).
    2:{ exists true, s. rewrite bool_decide_eq_true_2 by lia. done. }
    destruct (Z.eqb_spec (current_capacity s) (max_capacity s)).
    { exists false, s. rewrite bool_decide_eq_false_2 by lia. done. }
    destruct (core_inv_grow s R HI) as (s1 & -> & HI1 & Hc1 & Hx1 & Ho1 & Hcc1); [lia|].
    cbn [mbind option_bind]. destruct (IH s1 HI1) as (b & s2 & -> & ? & ? & ? & ? & Hb & ?); [lia|].
    exists b, s2. rewrite Hx1, Ho1 in Hb. split_and!; try done; lia.
Qed.

(** ** The covering walk *)

Definition covers (ns : list Node) (offset end_ i : Z) : Prop :=
  ∃ n, vget ns i = Some n ∧ data_offset n ≤ offset ∧ end_ ≤ data_offset n + data_size n.

Definition walkable (ns : list Node) (i : Z) : Prop :=
  i ≠ UNUSED ∧ ∃ n, vget ns i = Some n ∧ data_offset n + data_size n ≤ u32_max.

Lemma walk_bin_spec s offset end_ fuel pp l :
  dseg (bin_link (nodes s)) pp l UNUSED → Forall (walkable (nodes s)) l → (length l ≤ fuel)%nat →
  ∃ res, walk_bin fuel s (hd_or UNUSED l) offset end_ = Some res ∧
    ((res = UNUSED ∧ Forall (λ i, ¬ covers (nodes s) offset end_ i) l) ∨
     (res ∈ l ∧ res ≠ UNUSED ∧ covers (nodes s) offset end_ res)).
Proof.
  revert fuel pp. induction l as [|i l IH]; intros fuel pp Hd Hw Hf.
  { exists UNUSED. split; [by destruct fuel|left]. done. }
  destruct fuel as [|fuel]; [simpl in Hf; lia|]. apply Forall_cons in Hw as [(Hu & n & Hg & Hle) Hw].
  destruct Hd as [Hl Hd]. simpl in Hf. unfold bin_link in Hl. rewrite Hg in Hl.
  assert (bin_list_next n = hd_or UNUSED l) as Hnx by (simpl in Hl; congruence).
  destruct (IH fuel i Hd Hw ltac:(lia)) as (res & Hrec & Hres).
  assert (¬ covers (nodes s) offset end_ i → ∃ r, walk_bin fuel s (bin_list_next n) offset end_ = Some r ∧
    ((r = UNUSED ∧ Forall (λ i, ¬ covers (nodes s) offset end_ i) (i :: l)) ∨
     (r ∈ i :: l ∧ r ≠ UNUSED ∧ covers (nodes s) offset end_ r))) as Hskip.
  { intros Hn. rewrite Hnx. exists res. split; [done|]. destruct Hres as [[-> ?]|(? & ? & ?)]; [left|right].
    - by split; [|constructor]. - set_solver. }
  cbn [walk_bin hd_or]. destruct (Z.eqb_spec i UNUSED) as [|_]; [done|]. rewrite Hg. cbn [mbind option_bind].
  destruct (Z.leb_spec (data_offset n) offset).
  2:{ apply Hskip. intros (n' & ? & ? & _). simplify_eq. lia. }
  rewrite u32_add_ok by done. cbn [mbind option_bind].
  destruct (Z.leb_spec end_ (data_offset n + data_size n)).
  - exists i. split; [done|right]. split_and!; [set_solver|done|]. by exists n.
  - apply Hskip. intros (n' & ? & _ & ?). simplify_eq. lia.
Qed.

Lemma find_covering_spec s offset end_ heads lists :
  Forall2 (λ h l, h = hd_or UNUSED l ∧ dseg (bin_link (nodes s)) UNUSED l UNUSED ∧
             Forall (walkable (nodes s)) l ∧ (length l ≤ length (nodes s))%nat) heads lists →
  ∃ res, find_covering heads s offset end_ = Some res ∧
    ((res = UNUSED ∧ ∀ l, l ∈ lists → Forall (λ i, ¬ covers (nodes s) offset end_ i) l) ∨
     (res ≠ UNUSED ∧ covers (nodes s) offset end_ res ∧ ∃ l, l ∈ lists ∧ res ∈ l)).
Proof.
  induction 1 as [|h l heads lists (-> & Hd & Hw & Hlen) _ IH]; simpl.
  { exists UNUSED. split; [done|left]. set_solver. }
  destruct (walk_bin_spec s offset end_ _ _ _ Hd Hw Hlen) as (r & -> & [[-> Hnone]|(Hin & Hu & Hc)]).
  - cbn [mbind option_bind]. rewrite Z.eqb_refl. destruct IH as (res & -> & [[-> ?]|(? & ? & l' & ? & ?)]);
      eexists; (split; [done|]); [left|right]; set_solver.
  - cbn [mbind option_bind]. destruct (Z.eqb_spec r UNUSED) as [|_]; [done|].
    exists r. split; [done|right]. split_and!; [done..|]. set_solver.
Qed.

(** A region of the invariant covers the range iff its node does. *)
Lemma covers_region s R r offset end_ :
  core_inv s R → r ∈ R →
  covers (nodes s) offset end_ (r_idx r) ↔ r_off r ≤ offset ∧ end_ ≤ r_off r + r_size r.
Proof.
  intros HI (R1 & R2 & ->)%list_elem_of_split.
  destruct (core_inv_node _ _ _ _ HI) as (n & Hg & _ & Hb). unfold covers. rewrite Hg.
  assert (data_offset n = r_off r ∧ data_size n = r_size r) as [<- <-] by (unfold body in Hb; split; congruence).
  split; [intros (? & [= <-] & ?)|]; eauto.
Qed.

Lemma list_heads heads (B : Z → list Z) (P : Z → list Z → Prop) :
  length heads = NUM_LEAF_BINS →
  (∀ b, 0 ≤ b < 256 → ∃ h, vget heads b = Some h ∧ P h (B b)) → Forall2 P heads (B <$> seqZ 0 256).
Proof.
  intros Hlen HP. apply Forall2_same_length_lookup. split.
  { by rewrite length_fmap, length_seqZ, Hlen. }
  intros k h l Hh (b & -> & Hb)%list_lookup_fmap_Some.
  apply lookup_seqZ in Hb as [-> Hk]. destruct (HP (0 + Z.of_nat k)) as (h' & Hg & ?); [lia|].
  apply vget_Some in Hg as [_ Hg]. replace (Z.to_nat (0 + Z.of_nat k)) with k in Hg by lia. congruence.
Qed.

Lemma covering_spec s R offset end_ :
  core_inv s R →
  (find_covering (bin_indices s) s offset end_ = Some UNUSED ∧
     ∀ r, r ∈ R → r_used r = false → ¬ (r_off r ≤ offset ∧ end_ ≤ r_off r + r_size r)) ∨
  (∃ R1 r R2, R = R1 ++ r :: R2 ∧ r_used r = false ∧ r_off r ≤ offset ∧ end_ ≤ r_off r + r_size r ∧
     r_idx r ≠ UNUSED ∧ find_covering (bin_indices s) s offset end_ = Some (r_idx r)).
Proof.
  intros HI. pose proof HI as [HP (Hnd & Hsz & _ & B & HB & _) _ _ HT _ HS].
  pose proof HB as (Hlen & Hbin & Hm).
  destruct (find_covering_spec s offset end_ (bin_indices s) (B <$> seqZ 0 256)) as (res & Hf & Hres).
  { apply list_heads; [done|]. intros b Hb. destruct (Hbin b Hb) as (Hh & Hd & Hndb).
    eexists. split_and!; [done|done|done| |].
    - apply Forall_forall. intros i Hi.
      assert (i ∈ ids R) as (r & -> & (R1 & R2 & ->)%list_elem_of_split)%list_elem_of_fmap.
      { eapply binlists_owned; [done|by apply owned_free_of|done..]. }
      destruct (core_inv_node _ _ _ _ HI) as (n & Hg & Hu & Hbd). split; [done|]. exists n. split; [done|].
      assert (data_offset n = r_off r ∧ data_size n = r_size r) as [-> ->] by (unfold body in Hbd; split; congruence).
      pose proof (tiles_bounds _ _ _ r HT ltac:(set_solver)). unfold is_u32 in HS. lia.
    - assert (length (B b) ≤ length (ids R))%nat as Hle.
      { apply submseteq_length, NoDup_submseteq; [done|]. intros i Hi.
        eapply binlists_owned; [done|by apply owned_free_of|done..]. }
      pose proof (pool_length _ _ HP). destruct HP as (? & _ & ? & _). lia. }
  assert (∀ r, r ∈ R → r_used r = false → ∃ l, l ∈ B <$> seqZ 0 256 ∧ r_idx r ∈ l) as Hmem.
  { intros r Hr Hu. assert ((r_idx r, r_size r) ∈ free_of R) as Hin by (apply elem_of_free_of; eauto).
    pose proof (round_down_u32 _ (Hsz _ _ Hin)). exists (B (uint_to_float_round_down (r_size r))). split.
    - apply list_elem_of_fmap_2, elem_of_seqZ. lia.
    - apply Hm; [lia|eauto]. }
  destruct Hres as [[-> Hnone]|(Hu & Hc & l & (b & -> & Hb)%list_elem_of_fmap & Hin)].
  - left. split; [done|]. intros r Hr Hru. destruct (Hmem r Hr Hru) as (l & Hl & Hil).
    specialize (Hnone l Hl). rewrite Forall_forall in Hnone.
    rewrite <- (covers_region s R) by done. by apply Hnone.
  - right. apply elem_of_seqZ in Hb. apply Hm in Hin as (sz & (r & Hr & Hru & <- & _)%elem_of_free_of & _); [|lia].
    apply (covers_region s R) in Hc as [? ?]; [|done..].
    apply list_elem_of_split in Hr as (R1 & R2 & ->). exists R1, r, R2. done.
Qed.

(** ** The carve *)

Lemma rethread_spec s prev l :
  NoDup l → prev ∉ l → (prev ≠ UNUSED → ∃ p q, nb_link (nodes s) prev = Some (p, q)) →
  (∀ i, i ∈ l → i ≠ UNUSED ∧ ∃ p, nb_link (nodes s) i = Some (p, UNUSED)) →
  ∃ s', rethread prev l s = Some (last_or prev l, s') ∧ nbr_step s s' ∧
    dseg (nb_link (nodes s')) prev l UNUSED ∧
    (∀ j, j ∉ l → j ≠ prev → nb_link (nodes s') j = nb_link (nodes s) j) ∧
    (∀ p q, prev ≠ UNUSED → nb_link (nodes s) prev = Some (p, q) →
       nb_link (nodes s') prev = Some (p, hd_or q l)).
Proof.
  revert s prev. induction l as [|i l IH]; intros s prev Hnd Hp Hpl Hl.
  { exists s. split_and!; done. }
  apply NoDup_cons in Hnd as [Hi Hnd]. destruct (Hl i) as (Hu & p & Hpi); [set_solver|].
  cbn [rethread]. destruct (set_prev_spec s i p UNUSED prev Hpi) as (s1 & -> & Hn1 & Hl1).
  cbn [mbind option_bind]. assert (i ≠ prev) by set_solver.
  assert (∃ s2, update_node_opt prev (set_neighbor_next i) s1 = Some s2 ∧ nbr_step s1 s2 ∧
    (∀ j, j ≠ prev → nb_link (nodes s2) j = nb_link (nodes s1) j) ∧
    (∀ p q, prev ≠ UNUSED → nb_link (nodes s) prev = Some (p, q) → nb_link (nodes s2) prev = Some (p, i)))
    as (s2 & -> & Hn2 & Hl2 & Hlp2).
  { unfold update_node_opt. destruct (Z.eqb_spec prev UNUSED) as [->|Hne].
    - exists s1. split_and!; done.
    - destruct (Hpl Hne) as (p' & q' & Hpq'). edestruct (set_next_spec s1 prev) as (s2 & -> & Hn2 & Hl2).
      { by rewrite Hl1, upd_ne. }
      exists s2. split_and!; [done..| |].
      + intros j Hj. by rewrite Hl2, upd_ne.
      + intros p0 q0 _ Hpq0. rewrite Hl2, upd_eq. congruence. }
  cbn [mbind option_bind].
  assert (nb_link (nodes s2) i = Some (prev, UNUSED)) as Hi2 by (by rewrite Hl2, Hl1, upd_eq).
  destruct (IH s2 i) as (s3 & -> & Hn3 & Hd3 & Ho3 & Hp3); try done.
  { eauto. }
  { intros j Hj. destruct (Hl j) as (? & p' & ?); [set_solver|]. split; [done|]. exists p'.
    rewrite Hl2, Hl1, upd_ne by set_solver. done. }
  exists s3. rewrite last_or_cons. split_and!; [done|by etrans; [|etrans]| | |].
  - split; [|done]. by apply (Hp3 prev UNUSED).
  - intros j Hj Hjp. rewrite Ho3, Hl2, Hl1, upd_ne by set_solver. done.
  - intros p0 q0 Hne Hpq. rewrite Ho3 by set_solver. by eapply Hlp2.
Qed.

(** The regions between [R1] and [R2] replaced by [M]. *)
Lemma core_inv_fill s s' R1 M R2 x y :
  dseg (nb_link (nodes s)) UNUSED (ids R1) x → dseg (nb_link (nodes s)) y (ids R2) UNUSED →
  data_ok (nodes s) R1 → data_ok (nodes s) R2 → data_ok (nodes s') M →
  pool s' (ids (R1 ++ M ++ R2)) → bins_inv s' (free_of (R1 ++ M ++ R2)) →
  tiles 0 (R1 ++ M ++ R2) (core_size s') → coalesced (R1 ++ M ++ R2) → is_u32 (core_size s') →
  dseg (nb_link (nodes s')) (last_or UNUSED (ids R1)) (ids M) (hd_or UNUSED (ids R2)) → M ≠ [] →
  (∀ j, j ∈ ids R1 ++ ids R2 → data_of (nodes s') j = data_of (nodes s) j) →
  (∀ j, j ∈ ids R1 ++ ids R2 → last (ids R1) ≠ Some j → head (ids R2) ≠ Some j →
     nb_link (nodes s') j = nb_link (nodes s) j) →
  (∀ a p q, last (ids R1) = Some a → nb_link (nodes s) a = Some (p, q) →
     nb_link (nodes s') a = Some (p, hd_or UNUSED (ids M))) →
  (∀ a p q, head (ids R2) = Some a → nb_link (nodes s) a = Some (p, q) →
     nb_link (nodes s') a = Some (last_or UNUSED (ids M), q)) →
  core_inv s' (R1 ++ M ++ R2).
Proof.
  intros HL1 HL2 HD1 HD2 HDM HP HB HT HC HS HLM Hne Hd Ho Hla Hhd. constructor; try done.
  - pose proof (pool_NoDup _ _ HP) as Hnd. rewrite !ids_app in *.
    assert (ids M ≠ []) as HneM by (by intros ?%fmap_nil_inv).
    eapply (dseg_fill (nb_link (nodes s)) _ _ _ x y); try done.
    + apply NoDup_app in Hnd as (? & Hd1 & (_ & ? & ?)%NoDup_app). apply NoDup_app. set_solver.
    + intros l0 a p q Hl Ha. erewrite Hla; [|by rewrite Hl, last_snoc|done]. by destruct (ids M).
    + intros a k0 p q Hk Ha. erewrite Hhd; [|by rewrite Hk|done].
      destruct (ids M) as [|i k]; [done|]. by rewrite !last_or_cons.
  - rewrite !data_ok_app. split_and!; [|done|].
    + eapply data_ok_ext, HD1. intros. apply Hd. set_solver.
    + eapply data_ok_ext, HD2. intros. apply Hd. set_solver.
Qed.

(** A free piece, present only when the condition holds. *)
Definition piece (c : bool) (i off size : Z) : list Reg :=
  if c then [mkReg i off size false] else [].

Definition fresh_body (ns : list Node) (r : Reg) : Prop :=
  body_of ns (r_idx r) = Some (r_off r, r_size r, r_used r, UNUSED, UNUSED).

Lemma insert_if_spec s L F (c : bool) size off :
  pool s L → bins_inv s F → owned F L → free_offset s < current_capacity s →
  (c = true → is_u32 size ∧ free_storage s + size ≤ u32_max) →
  ∃ i s', let M := piece c i off size in
    (if c then '(i, s2) ← insert_node_into_bin size off s; Some ([i], s2) else Some ([], s))
      = Some (ids M, s') ∧
    pool s' (ids M ++ L) ∧ bins_inv s' (free_of M ++ F) ∧ Forall (fresh_body (nodes s')) M ∧
    (∀ j, j ∉ ids M → body_of (nodes s') j = body_of (nodes s) j) ∧
    same_config s s' ∧ free_offset s' ≤ free_offset s + 1 ∧
    free_storage s' = free_storage s + (if c then size else 0).
Proof.
  intros HP HB HF Hfo Hc. destruct c.
  - destruct (Hc eq_refl) as [Hs Hfs].
    destruct (insert_node_spec s L F size off) as (i & s' & -> & Hi & HP' & HB' & Hbi & Hbo & Hcfg & Hfo'); try done.
    exists i, s'. simpl. split_and!; try done; [by repeat constructor| |lia|].
    + intros j Hj. apply Hbo. set_solver.
    + destruct HB' as (_ & _ & -> & _), HB as (_ & _ & -> & _). rewrite fmap_cons. cbn [foldr snd]. lia.
  - exists 0, s. simpl. split_and!; try done; lia.
Qed.

Lemma take_used_spec s L F offset size :
  pool s L → bins_inv s F → owned F L → free_offset s < current_capacity s →
  ∃ u s', vget (free_nodes s) (free_offset s) = Some u ∧
    update_node u (λ _, mkNode offset size UNUSED UNUSED UNUSED UNUSED true)
      (with_free_list (free_nodes s) (free_offset s + 1) s) = Some s' ∧
    pool s' (u :: L) ∧ bins_inv s' F ∧ fresh_body (nodes s') (mkReg u offset size true) ∧
    (∀ j, j ≠ u → body_of (nodes s') j = body_of (nodes s) j) ∧
    same_config s s' ∧ free_offset s' = free_offset s + 1 ∧ free_storage s' = free_storage s.
Proof.
  intros HP (Hnd & Hsz & Hfs & B & HB & Hbm) HF Hfo.
  destruct (pool_pop s L HP Hfo) as (u & n & Hu & HuL & HuU & Hg & Hperm).
  exists u. erewrite update_node_eq by done. eexists. split; [done|]. split; [done|].
  pose proof HP as (Hln & Hlf & Ho & Hm & _).
  assert (u ∉ L) as HuL' by done. split_and!; simpl.
  - split_and!; simpl; [by rewrite length_insert|done|lia..|done].
  - split_and!; simpl; [done..|]. exists B. split; [|done].
    pose proof HB as (Hlen & Hbin & Hmem). split_and!; [done| |done].
    intros b Hb. destruct (Hbin b Hb) as (? & Hd & ?). split_and!; [done| |done].
    eapply dseg_ext, Hd. intros j Hj. erewrite bin_link_insert by done.
    rewrite decide_False; [done|]. intros <-. by eapply HuL, (binlists_owned _ _ _ _ _ b).
  - unfold fresh_body. simpl. erewrite body_of_insert by done. by rewrite decide_True.
  - intros j Hj. erewrite body_of_insert by done. by rewrite decide_False.
  - done.
  - done.
  - done.
Qed.

(** The pieces of [o, e) carved at [offset, offset + size). *)
Definition pieces (o e offset size b u a : Z) : list Reg :=
  piece (o <? offset) b o (offset - o) ++ [mkReg u offset size true] ++
  piece (offset + size <? e) a (offset + size) (e - (offset + size)).

Lemma fresh_body_ext ns ns' M :
  (∀ r, r ∈ M → body_of ns' (r_idx r) = body_of ns (r_idx r)) →
  Forall (fresh_body ns) M → Forall (fresh_body ns') M.
Proof.
  intros He. rewrite !Forall_forall. intros Hf r Hr. unfold fresh_body. rewrite He by done. by apply Hf.
Qed.

Lemma owned_app F1 F2 L1 L2 : owned F1 L1 → owned F2 L2 → owned (F1 ++ F2) (L1 ++ L2).
Proof. intros H1 H2 i sz [?%H1|?%H2]%elem_of_app; set_solver. Qed.

Lemma carve_pieces_spec s L F o len offset size :
  pool s L → bins_inv s F → owned F L → free_offset s + 2 < current_capacity s →
  0 ≤ o ≤ offset → 0 < size → offset + size ≤ o + len ≤ u32_max → free_storage s + len ≤ u32_max →
  ∃ b u a s', let M := pieces o (o + len) offset size b u a in
    carve_pieces o len offset size (offset + size) s = Some (ids M, u, s') ∧
    pool s' (ids M ++ L) ∧ bins_inv s' (free_of M ++ F) ∧ Forall (fresh_body (nodes s')) M ∧
    (∀ j, j ∉ ids M → body_of (nodes s') j = body_of (nodes s) j) ∧ same_config s s'.
Proof.
  intros HP HB HF Hfo Ho Hs He Hst. unfold carve_pieces, pieces.
  destruct (insert_if_spec s L F (o <? offset) (offset - o) o) as
    (b & s1 & -> & HP1 & HB1 & Hfb1 & Hbo1 & Hcfg1 & Hfo1 & Hst1); try done; [lia| |].
  { intros ?%Z.ltb_lt. unfold is_u32. lia. }
  set (Mb := piece (o <? offset) b o (offset - o)) in *. cbn [mbind option_bind].
  assert (owned (free_of Mb ++ F) (ids Mb ++ L)) as HF1 by (apply owned_app; [by apply owned_free_of|done]).
  destruct Hcfg1 as (Hc1 & Hcc1 & Hx1). pose proof HP1 as (_ & _ & _ & Hm1 & _).
  destruct (take_used_spec s1 _ _ offset size HP1 HB1 HF1) as
    (u & s2 & -> & Hup & HP2 & HB2 & Hfb2 & Hbo2 & Hcfg2 & Hfo2 & Hst2); [lia|].
  cbn [mbind option_bind]. rewrite (u32_add_ok (free_offset s1)) by lia. cbn [mbind option_bind].
  rewrite Hup. cbn [mbind option_bind]. rewrite u32_add_ok by lia. cbn [mbind option_bind].
  destruct Hcfg2 as (Hc2 & Hcc2 & Hx2).
  destruct (insert_if_spec s2 (u :: ids Mb ++ L) (free_of Mb ++ F) (offset + size <? o + len)
      (o + len - (offset + size)) (offset + size)) as
    (a & s3 & -> & HP3 & HB3 & Hfb3 & Hbo3 & Hcfg3 & Hfo3 & Hst3); try done; [|lia| |].
  { intros i sz Hi. apply HF1 in Hi. set_solver. }
  { intros ?%Z.ltb_lt. unfold is_u32. destruct (Z.ltb_spec o offset); lia. }
  set (Ma := piece (offset + size <? o + len) a _ _) in *. cbn [mbind option_bind].
  exists b, u, a, s3. rewrite !ids_app. cbn [ids fmap list_fmap r_idx]. fold (ids Mb). fold (ids Ma).
  pose proof (pool_NoDup _ _ HP3) as Hnd.
  assert (ids Ma ++ u :: ids Mb ++ L ≡ₚ ids Mb ++ [u] ++ ids Ma ++ L) as Hperm by solve_Permutation.
  split; [done|]. split_and!.
  - eapply pool_perm, HP3. rewrite Hperm. by rewrite <- !app_assoc.
  - eapply bins_inv_perm, HB3. rewrite !free_of_app, free_of_cons. simpl. solve_Permutation.
  - apply NoDup_app in Hnd as (_ & Hda & [Hu Hnd2]%NoDup_cons).
    apply Forall_app. split; [|apply Forall_cons; split; [|done]].
    + eapply fresh_body_ext, Hfb1. intros r Hr%(list_elem_of_fmap_2 r_idx). fold (ids Mb) in Hr.
      rewrite Hbo3, Hbo2; [done|set_solver|]. intros Hin. apply (Hda _ Hin). set_solver.
    + unfold fresh_body in *. simpl in *. rewrite Hbo3; [done|]. intros Hin. apply (Hda _ Hin). set_solver.
  - intros j Hj. rewrite Hbo3, Hbo2, Hbo1; [done|set_solver..].
  - destruct Hcfg3 as (? & ? & ?). split_and!; congruence.
Qed.

Lemma pieces_tiles o e offset size b u a :
  o ≤ offset → 0 < size → offset + size ≤ e → tiles o (pieces o e offset size b u a) e.
Proof.
  intros Ho Hs He. unfold pieces, piece.
  destruct (Z.ltb_spec o offset), (Z.ltb_spec (offset + size) e); simpl; split_and!; try done; lia.
Qed.

Lemma pieces_coalesced R1 R2 o e offset size b u a :
  coalesced R1 → coalesced R2 → used_or_none (last R1) → used_or_none (head R2) →
  coalesced (R1 ++ pieces o e offset size b u a ++ R2).
Proof.
  intros H1 H2 Hl Hh. apply coalesced_app; [done| |].
  - unfold pieces, piece. destruct R2 as [|r2 R2].
    + destruct (o <? offset), (offset + size <? e); simpl; tauto.
    + specialize (Hh r2 eq_refl). destruct (o <? offset), (offset + size <? e); simpl in *; tauto.
  - intros x y Hx _. left. by apply Hl.
Qed.

Lemma last_ids R r : last R = Some r → last (ids R) = Some (r_idx r).
Proof. intros [? ->]%last_Some. by rewrite ids_snoc, last_snoc. Qed.

Lemma pieces_snoc o e offset size b u a :
  ∃ l x, ids (pieces o e offset size b u a) = l ++ [x].
Proof.
  unfold pieces, piece. destruct (offset + size <? e).
  - eexists (ids (_ ++ [_])), a. rewrite app_assoc. apply ids_snoc.
  - eexists (ids _), u. rewrite app_nil_r. apply ids_snoc.
Qed.

(** Re-threading the fresh nodes [m] between [l] and [k]. *)
Lemma thread_spec s l m0 x k :
  let m := m0 ++ [x] in
  NoDup (l ++ m ++ k) → (∀ i, i ∈ l ++ m ++ k → i ≠ UNUSED) →
  (∀ i, i ∈ l ++ k → ∃ p q, nb_link (nodes s) i = Some (p, q)) →
  (∀ i, i ∈ m → nb_link (nodes s) i = Some (UNUSED, UNUSED)) →
  ∃ s1 s2 s3, rethread (last_or UNUSED l) m s = Some (x, s1) ∧
    update_node x (set_neighbor_next (hd_or UNUSED k)) s1 = Some s2 ∧
    update_node_opt (hd_or UNUSED k) (set_neighbor_prev x) s2 = Some s3 ∧
    nbr_step s s3 ∧ dseg (nb_link (nodes s3)) (last_or UNUSED l) m (hd_or UNUSED k) ∧
    (∀ j, j ∈ l ++ k → last l ≠ Some j → head k ≠ Some j → nb_link (nodes s3) j = nb_link (nodes s) j) ∧
    (∀ i p q, last l = Some i → nb_link (nodes s) i = Some (p, q) → nb_link (nodes s3) i = Some (p, hd_or UNUSED m)) ∧
    (∀ i p q, head k = Some i → nb_link (nodes s) i = Some (p, q) → nb_link (nodes s3) i = Some (x, q)).
Proof.
  intros m Hnd Hu Hlk Hm.
  assert (∀ i, last l = Some i → i ∈ l) as Hlast by (intros i [? ->]%last_Some; set_solver).
  assert (∀ i, head k = Some i → i ∈ k) as Hhead by (intros i; destruct k; set_solver).
  apply NoDup_app in Hnd as (Hndl & Hd1 & (Hndm & Hd2 & Hndk)%NoDup_app).
  destruct (rethread_spec s (last_or UNUSED l) m) as (s1 & Hre & Hn1 & Hdm & Ho1 & Hp1); try done.
  { unfold last_or. destruct (last l) as [i|] eqn:E.
    - intros Hin. apply (Hd1 i); [eauto|set_solver].
    - intros Hin. apply (Hu UNUSED); set_solver. }
  { unfold last_or. destruct (last l) as [i|] eqn:E; [|done]. intros _. apply Hlk. set_solver. }
  { intros i Hi. split; [set_solver|]. eauto. }
  assert (∀ j, j ∈ l → last l ≠ Some j → j ≠ last_or UNUSED l) as Hnl.
  { intros j Hj Hne ->. unfold last_or in *. destruct (last l) eqn:E; [done|]. apply (Hu UNUSED); set_solver. }
  assert (∀ j, j ∈ k → j ∉ m ∧ j ≠ last_or UNUSED l) as Hk1.
  { intros j Hj. split; [set_solver|]. intros ->. unfold last_or in *. destruct (last l) as [i|] eqn:E.
    - apply (Hd1 i); [eauto|set_solver]. - apply (Hu UNUSED); set_solver. }
  unfold m in Hre. rewrite last_or_snoc in Hre. unfold m in Hdm. fold m in Hre.
  pose proof (dseg_split _ _ _ _ [] _ Hdm) as Hx. cbn [hd_or] in Hx.
  edestruct (set_next_spec s1 x) as (s2 & Hs2 & Hn2 & Hl2); [done|].
  assert (x ∉ m0) by (apply NoDup_app in Hndm as (_ & Hd & _); set_solver).
  assert (x ∈ m) by (unfold m; set_solver).
  destruct (set_prev_opt_spec s2 k x) as (s3 & Hs3 & Hn3 & Hl3 & Hh3).
  { intros i Hi. split; [apply Hu; set_solver|]. assert (i ∈ k) by auto. destruct (Hk1 i) as [??]; [done|].
    rewrite Hl2, upd_ne, Ho1 by set_solver. apply Hlk. set_solver. }
  exists s1, s2, s3. split_and!; [done..|by etrans; [|etrans]| | | |].
  - eapply dseg_ext; [|by eapply (dseg_set_last _ _ m0 x), Hx].
    intros i Hi. rewrite Hl3; [apply Hl2|]. intros Hh%Hhead. by apply (Hd2 i).
  - intros j Hj Hne Hnh. rewrite Hl3 by done. rewrite Hl2, upd_ne by set_solver.
    apply Ho1; [set_solver|]. apply elem_of_app in Hj as [Hj|Hj]; [by apply Hnl|by apply Hk1].
  - intros i p q Hi Hpq. assert (i ∈ l) by auto.
    rewrite Hl3 by (intros ?%Hhead; apply (Hd1 i); set_solver).
    rewrite Hl2, upd_ne by (intros Hix; apply (Hd1 i); [done|rewrite Hix; set_solver]).
    replace i with (last_or UNUSED l) in * by (unfold last_or; by rewrite Hi).
    rewrite (Hp1 p q); [|apply Hu; set_solver|done]. unfold m. by destruct m0.
  - intros i p q Hi Hpq. assert (i ∈ k) by auto. destruct (Hk1 i) as [??]; [done|]. eapply Hh3; [done|].
    rewrite Hl2, upd_ne by set_solver. by rewrite Ho1.
Qed.

Lemma coalesced_around R1 r R2 :
  coalesced (R1 ++ r :: R2) → r_used r = false →
  coalesced R1 ∧ coalesced R2 ∧ used_or_none (last R1) ∧ used_or_none (head R2).
Proof.
  intros HC Hu. pose proof HC as [H1 H2]%coalesced_app_inv.
  pose proof H2 as [_ H3]%(coalesced_app_inv [r]). split_and!; [done|done| |by eapply coalesced_head].
  rewrite cons_middle, app_assoc in HC. apply coalesced_app_inv in HC as [HC _]. by eapply coalesced_last.
Qed.

Lemma carve_spec s R1 r R2 offset size :
  core_inv s (R1 ++ r :: R2) → r_used r = false → 0 < size → r_off r ≤ offset →
  offset + size ≤ r_off r + r_size r → 3 ≤ current_capacity s - free_offset s →
  ∃ b u a s', carve (r_idx r) offset size (offset + size) s = Some (u, s') ∧ u ≠ UNUSED ∧
    core_inv s' (R1 ++ pieces (r_off r) (r_off r + r_size r) offset size b u a ++ R2) ∧ same_config s s'.
Proof.
  intros HI Hu Hs Ho He Hcap. destruct (core_inv_outer _ _ _ _ HI) as (Hnd & Hout & HL1 & HL2 & HD1 & HD2).
  destruct (core_inv_node _ _ _ _ HI) as (n & Hg & Hidx & Hb). pose proof HI as [HP HB _ _ HT HC HS].
  pose proof (tiles_bounds _ _ _ r HT ltac:(set_solver)) as Hbd. unfold is_u32 in HS.
  assert (data_offset n = r_off r ∧ data_size n = r_size r ∧ neighbor_prev n = last_or UNUSED (ids R1) ∧
    neighbor_next n = hd_or UNUSED (ids R2)) as (Hno & Hns & Hnp & Hnn) by (unfold body in Hb; split_and!; congruence).
  unfold carve. rewrite Hg. cbn [mbind option_bind]. rewrite Hno, Hns, Hnp, Hnn.
  assert (free_of (R1 ++ r :: R2) ≡ₚ (r_idx r, r_size r) :: free_of (R1 ++ R2)) as HFp.
  { rewrite !free_of_app, free_of_cons, Hu. by rewrite <- Permutation_middle. }
  destruct (remove_node_spec s (ids R1 ++ ids R2) (free_of (R1 ++ r :: R2)) (free_of (R1 ++ R2)) (r_idx r) n)
    as (s1 & -> & HP1 & HB1 & Hbo1 & Hcfg1 & Hfo1); try done; [| |by rewrite Hns|].
  { eapply pool_perm, HP. rewrite ids_app. simpl. by rewrite Permutation_middle. }
  { apply owned_free_of. rewrite ids_app. simpl. set_solver. }
  cbn [mbind option_bind].
  assert (free_storage s1 + r_size r ≤ u32_max) as Hst.
  { destruct HB1 as (_ & _ & -> & _). pose proof (tiles_free_sum _ _ _ HT) as Hsum.
    rewrite (foldr_add_perm _ (((r_idx r, r_size r) :: free_of (R1 ++ R2)).*2)) in Hsum by (by rewrite HFp).
    rewrite fmap_cons in Hsum. cbn [foldr snd] in Hsum. lia. }
  destruct Hcfg1 as (Hc1 & Hcc1 & Hx1).
  destruct (carve_pieces_spec s1 (ids R1 ++ ids R2) (free_of (R1 ++ R2)) (r_off r) (r_size r) offset size) as
    (b & u & a & s2 & -> & HP2 & HB2 & Hfb2 & Hbo2 & Hc2 & Hcc2 & Hx2); try done; try lia.
  { apply owned_free_of. by rewrite ids_app. }
  set (M := pieces _ _ _ _ _ _ _) in *. cbn [mbind option_bind].
  destruct (pieces_snoc (r_off r) (r_off r + r_size r) offset size b u a) as (m0 & x & HMs). fold M in HMs.
  pose proof (pool_NoDup _ _ HP2) as Hnd2.
  assert (NoDup (ids R1 ++ ids M ++ ids R2)) as HndM.
  { rewrite app_assoc, (Permutation_app_comm (ids R1)), <- app_assoc. done. }
  assert (∀ j, j ∈ ids R1 ++ ids R2 → body_of (nodes s2) j = body_of (nodes s) j) as Hsame.
  { intros j Hj. rewrite Hbo2; [apply Hbo1|]. apply NoDup_app in Hnd2 as (_ & Hd & _). intros Hin. by apply (Hd j Hin). }
  destruct (thread_spec s2 (ids R1) m0 x (ids R2)) as (s3 & s4 & s5 & Ht & Hs4 & Hs5 & Hst5 & Hd5 & Ho5 & Hl5 & Hh5);
    rewrite <- ?HMs; try done.
  { intros i Hi. destruct (pool_node _ _ i HP2) as (_ & _ & ?); [|done]. rewrite !elem_of_app in *. tauto. }
  { intros i Hi. destruct (Hout i Hi) as (_ & p & q & Hpq). exists p, q. unfold nb_link. by rewrite Hsame. }
  { intros i (r' & -> & Hr')%list_elem_of_fmap. rewrite Forall_forall in Hfb2. unfold nb_link.
    by rewrite (Hfb2 _ Hr'). }
  rewrite HMs, Ht. cbn [mbind option_bind]. rewrite Hs4. cbn [mbind option_bind]. rewrite Hs5.
  cbn [mbind option_bind]. rewrite <- HMs in *.
  assert (same_config s s5) as Hcfg by (destruct (ns_cfg _ _ Hst5) as (? & ? & ?); split_and!; congruence).
  exists b, u, a, s5. split; [done|]. split.
  { destruct (pool_node _ _ u HP2) as (_ & _ & ?); [|done]. unfold M, pieces. rewrite !ids_app, !elem_of_app.
    simpl. rewrite list_elem_of_singleton. tauto. }
  split; [|done]. destruct Hcfg as (Hcs & _ & _).
  destruct (coalesced_around _ _ _ HC Hu) as (HC1 & HC2 & Hu1 & Hu2).
  eapply (core_inv_fill s s5 R1 M R2); try done.
  - apply Forall_forall. intros r' Hr'. rewrite Forall_forall in Hfb2.
    rewrite (ns_data _ _ Hst5). unfold data_of. by rewrite (Hfb2 _ Hr').
  - eapply pool_perm, nbr_step_pool, HP2; [|done]. rewrite !ids_app.
    rewrite app_assoc, (Permutation_app_comm (ids M)), <- app_assoc. done.
  - eapply bins_inv_perm, nbr_step_bins, HB2; [|done]. rewrite !free_of_app. solve_Permutation.
  - rewrite Hcs. apply tiles_app in HT as (m & HT1 & <- & _ & _ & HT2). apply tiles_app. eexists. split; [done|].
    apply tiles_app. eexists. split; [by apply pieces_tiles|done].
  - by apply pieces_coalesced.
  - by rewrite Hcs.
  - intros E. rewrite E in HMs. by destruct m0.
  - intros j Hj. rewrite (ns_data _ _ Hst5). unfold data_of. by rewrite Hsame.
  - intros j Hj Hla Hhd. rewrite Ho5 by done. unfold nb_link. by rewrite Hsame.
  - intros i p q Hi Hpq. eapply Hl5; [done|]. unfold nb_link in *. rewrite Hsame; [done|].
    apply last_Some in Hi as [? ->]. set_solver.
  - intros i p q Hi Hpq. rewrite HMs, last_or_snoc. eapply Hh5; [done|]. unfold nb_link in *. rewrite Hsame; [done|].
    destruct (ids R2); set_solver.
Qed.

(** [core_reserve_exact] never panics.  With three spare node slots it fails exactly when
    no free region covers the range; otherwise the range becomes a used region. *)
Lemma core_reserve_exact_spec s R offset size :
  core_inv s R → 0 ≤ offset → 0 ≤ size →
  ∃ res s', core_reserve_exact offset size s = Some (res, s') ∧
    core_size s' = core_size s ∧ max_capacity s' = max_capacity s ∧
    ((res = None ∧ core_inv s' R ∧
      (size = 0 ∨ max_capacity s - free_offset s < 3 ∨
       ∀ r, r ∈ R → r_used r = false → ¬ (r_off r ≤ offset ∧ offset + size ≤ r_off r + r_size r))) ∨
     (∃ R1 r R2 b u a, R = R1 ++ r :: R2 ∧ r_used r = false ∧ r_off r ≤ offset ∧
        offset + size ≤ r_off r + r_size r ∧ 0 < size ∧
        res = Some (mkOffsetAllocation offset u) ∧ u ≠ UNUSED ∧
        core_inv s' (R1 ++ pieces (r_off r) (r_off r + r_size r) offset size b u a ++ R2))).
Proof.
  intros HI Ho Hs. unfold core_reserve_exact.
  destruct (Z.eqb_spec size 0) as [->|Hne].
  { exists None, s. split_and!; try done. left. split_and!; [done..|by left]. }
  destruct (Z.ltb_spec u32_max (offset + size)) as [Hov|Hov].
  { exists None, s. split_and!; try done. left. split_and!; [done..|]. right; right.
    intros r Hr _ [_ Hge]. pose proof (tiles_bounds _ _ _ r (ci_tiles _ _ HI) Hr).
    pose proof (ci_size _ _ HI) as [_ ?]. lia. }
  destruct (ensure_capacity_loop_spec (Z.to_nat 3) 3 s R HI) as
    (b & s1 & Hen & HI1 & Hc1 & Hm1 & Hf1 & -> & Hcap).
  { pose proof (ci_pool _ _ HI) as (_ & _ & ? & _). lia. }
  unfold ensure_capacity. rewrite Hen. cbn [mbind option_bind].
  case_bool_decide as Hen3; cbn [negb].
  2:{ exists None, s1. split_and!; try done. left. split_and!; [done..|]. right; left. lia. }
  destruct (covering_spec s1 R offset (offset + size) HI1)
    as [[-> Hnone]|(R1 & r & R2 & -> & Hu & Hlo & Hhi & Hidx & ->)]; cbn [mbind option_bind].
  { rewrite Z.eqb_refl. exists None, s1. split_and!; try done. left. split_and!; [done..|]. right; right. done. }
  destruct (Z.eqb_spec (r_idx r) UNUSED) as [|_]; [done|].
  destruct (carve_spec s1 R1 r R2 offset size HI1) as (b & u & a & s2 & -> & Hu2 & HI2 & Hc2 & _ & Hm2);
    [done|lia|done|done|by apply Hcap|]. cbn [mbind option_bind].
  eexists _, s2. split; [done|]. split_and!; [congruence..|]. right.
  exists R1, r, R2, b, u, a. split_and!; try done. lia.
Qed.

(** ** Fresh allocators *)

Lemma pool_init size cap mx :
  0 ≤ cap → cap ≤ mx ≤ u32_max →
  pool (mkCore size cap mx 0 0 (replicate NUM_TOP_BINS 0) (replicate NUM_LEAF_BINS UNUSED)
          (replicate (Z.to_nat cap) node_default) (seqZ 0 cap) 0) [].
Proof.
  intros. split_and!; simpl; [by rewrite length_replicate|by rewrite length_seqZ|lia..|done].
Qed.

Lemma bitmap_init : bitmap 0 (replicate NUM_TOP_BINS 0) (λ _, false).
Proof.
  split_and!; [lia..|done|]. intros t Ht. exists 0. split_and!; try lia.
  - unfold vget. destruct (Z.leb_spec 0 t); [|lia]. apply lookup_replicate_2. unfold NUM_TOP_BINS. lia.
  - intros. apply Z.bits_0.
  - apply Z.bits_0.
Qed.

Lemma binlists_init ns : binlists ns (replicate NUM_LEAF_BINS UNUSED) [] (λ _, []).
Proof.
  split_and!; [by rewrite length_replicate| |set_solver]. intros b Hb.
  split_and!; [|done|constructor]. unfold vget. destruct (Z.leb_spec 0 b); [|lia].
  apply lookup_replicate_2. unfold NUM_LEAF_BINS. lia.
Qed.

(** A fresh allocator is one free region. *)
Lemma core_new_spec size init_cap max_cap :
  is_u32 size → 0 < init_cap → Z.max init_cap max_cap ≤ u32_max →
  ∃ c s, core_new size init_cap max_cap = Some s ∧ core_inv s [mkReg c 0 size false] ∧
    core_size s = size ∧ max_capacity s = Z.max init_cap max_cap.
Proof.
  intros Hs Hi Hm. unfold core_new, reset.
  cbn [core_size current_capacity max_capacity].
  destruct (insert_node_spec _ [] [] size 0 (pool_init size init_cap (Z.max init_cap max_cap) ltac:(lia) ltac:(lia)))
    as (i & s' & Hins & _ & HP & HB & Hbi & _ & (Hc & _ & Hx) & _); try done.
  { split_and!; simpl; [constructor|set_solver|done|]. exists (λ _, []). split; [apply binlists_init|].
    apply bitmap_init. }
  { intros i sz Hin. set_solver. }
  { unfold is_u32 in *. simpl. lia. }
  rewrite Hins. cbn [mbind option_bind]. exists i, s'. split; [done|]. split; [|done].
  simpl in Hc. constructor; simpl; rewrite ?Hc; try done.
  - split; [|done]. unfold nb_link. by rewrite Hbi.
  - repeat constructor. unfold data_of. simpl. by rewrite Hbi.
  - unfold is_u32 in Hs. split_and!; [done|lia|done|lia].
Qed.

(** ** The storage report *)

Lemma bitmap_highest top words E :
  bitmap top words E → 0 < top →
  ∃ w, vget words (Z.log2 top) = Some w ∧ 0 ≤ Z.log2 top < 32 ∧ 0 < w ∧ 0 ≤ Z.log2 w < 8 ∧
    E (8 * Z.log2 top + Z.log2 w) = true ∧
    ∀ b, 0 ≤ b < 256 → E b = true → b ≤ 8 * Z.log2 top + Z.log2 w.
Proof.
  intros (Ht & _ & Hw) Hpos. pose proof (Z.log2_nonneg top).
  assert (Z.log2 top < 32) by (apply Z.log2_lt_pow2; lia).
  destruct (Hw (Z.log2 top)) as (w & Hg & Hwb & Hbits & Htop); [lia|].
  rewrite Z.bit_log2 in Htop by lia. symmetry in Htop. apply negb_true_iff, Z.eqb_neq in Htop.
  pose proof (Z.log2_nonneg w). assert (Z.log2 w < 8) by (apply Z.log2_lt_pow2; lia).
  exists w. split_and!; [done|lia..| |].
  - rewrite <- Hbits by lia. apply Z.bit_log2. lia.
  - intros b Hb HE. destruct (top_leaf_split b) as (Eb & Hl & _); [lia|].
    destruct (Hw (top_bin b)) as (w' & Hg' & Hwb' & Hbits' & Htop'); [by apply top_bin_lt|].
    rewrite Eb, <- Hbits' in HE by done. pose proof (testbit_nonzero w' _ ltac:(lia) HE).
    destruct (Z.eqb_spec w' 0); [lia|].
    assert (top_bin b ≤ Z.log2 top).
    { apply Z.nlt_ge. intros ?. rewrite Z.bits_above_log2 in Htop' by lia. done. }
    destruct (decide (top_bin b = Z.log2 top)) as [Et|]; [|lia].
    rewrite Et in Hg'. simplify_eq.
    assert (leaf_bin b ≤ Z.log2 w); [|lia].
    apply Z.nlt_ge. intros ?. rewrite Z.bits_above_log2 in HE by lia. done.
Qed.

Lemma bitmap_zero words E : bitmap 0 words E → ∀ b, 0 ≤ b < 256 → E b = false.
Proof.
  intros (_ & _ & Hw) b Hb. destruct (top_leaf_split b) as (Eb & Hl & _); [lia|].
  destruct (Hw (top_bin b)) as (w & _ & _ & Hbits & Htop); [by apply top_bin_lt|].
  rewrite Z.bits_0 in Htop. symmetry in Htop. apply negb_false_iff, Z.eqb_eq in Htop as ->.
  rewrite Eb, <- Hbits by done. apply Z.bits_0.
Qed.

(** The class a free region is binned in, in bytes. *)
Definition class_of (size : Z) : Z := bin_floor (uint_to_float_round_down size).

(** The report never panics; its largest region is the largest size class present. *)
Lemma core_storage_report_spec s R :
  core_inv s R →
  ∃ rep, core_storage_report s = Some rep ∧
    (free_offset s = max_capacity s → rep = mkStorageReport 0 0) ∧
    (free_offset s < max_capacity s →
       total_free_space rep = foldr Z.add 0 (free_of R).*2 ∧
       (∀ r, r ∈ R → r_used r = false → class_of (r_size r) ≤ report_largest rep) ∧
       (0 < report_largest rep → ∃ r, r ∈ R ∧ r_used r = false ∧ class_of (r_size r) = report_largest rep)) ∧
    0 ≤ report_largest rep ≤ MAX_BIN_SIZE.
Proof.
  intros HI. pose proof HI as [HP (Hnd & Hsz & Hfs & B & (_ & _ & Hm) & Hbm) _ _ _ _ _].
  assert (∀ r, r ∈ R → r_used r = false → let b := uint_to_float_round_down (r_size r) in
            0 ≤ b < 240 ∧ nonempty (B b) = true) as Hbin.
  { intros r Hr Hu b. assert ((r_idx r, r_size r) ∈ free_of R) as Hin by (apply elem_of_free_of; eauto).
    pose proof (round_down_u32 _ (Hsz _ _ Hin)). split; [done|].
    assert (r_idx r ∈ B b) as Hib by (apply Hm; [lia|eauto]). by destruct (B b); [set_solver|]. }
  destruct HP as (_ & _ & Ho & Hx & _). unfold core_storage_report.
  destruct (Z.ltb_spec (free_offset s) (max_capacity s)).
  2:{ eexists. split; [done|]. split_and!; [done|lia|done|done]. }
  destruct (Z.eqb_spec (used_bins_top s) 0) as [E0|E0].
  - eexists. split; [done|]. rewrite E0 in Hbm. split; [lia|]. split; [|done].
    intros _. simpl. split_and!; [done| |lia]. intros r Hr Hu. destruct (Hbin r Hr Hu) as [Hb Hne].
    by rewrite (bitmap_zero _ _ Hbm) in Hne by lia.
  - pose proof Hbm as (Ht & _). rewrite highest_set_bit_log2 by lia.
    destruct (bitmap_highest _ _ _ Hbm) as (w & -> & Htb & Hw & Hwb & HE & Hmax); [lia|].
    cbn [mbind option_bind]. rewrite highest_set_bit_log2, bin_of_top_leaf by lia.
    set (b := 8 * Z.log2 (used_bins_top s) + Z.log2 w) in *.
    destruct (B b) as [|i k] eqn:EB; [done|].
    assert (∃ sz, (i, sz) ∈ free_of R ∧ uint_to_float_round_down sz = b) as (sz & Hin & Hb).
    { apply Hm; [lia|]. rewrite EB. set_solver. }
    pose proof (round_down_u32 _ (Hsz _ _ Hin)) as Hb'. rewrite Hb in Hb'. rewrite float_to_uint_floor by done.
    eexists. split; [done|]. split; [lia|]. simpl. split.
    + intros _. split_and!; [done| |].
      * intros r Hr Hu. destruct (Hbin r Hr Hu) as [Hbr Hne]. apply bin_floor_le.
        assert (uint_to_float_round_down (r_size r) ≤ b); [|lia]. by apply Hmax; [lia|].
      * intros _. apply elem_of_free_of in Hin as (r & ? & ? & _ & <-). exists r. unfold class_of. by rewrite Hb.
    + split; [apply bin_floor_nonneg; lia|]. change MAX_BIN_SIZE with (bin_floor 239). apply bin_floor_le. lia.
Qed.
