(* ===== verification/BufferAllocator.v ===== *)
(** * The allocator interface of a segment

    The [BufferAllocator] trait of crates/quillcache-store/src/allocator.rs as a
    class of operations, and the contract its clients (the placement strategies and
    the master) rely on as a class of laws over an abstract view: the map of live
    buffers, from offset to size. *)
From S2P Require Import Prelude.

Record AllocatedBuffer : Type := mkBuffer {
  buf_segment_name : string;
  buf_offset : Z;
  buf_size : Z
}.

#[export] Instance AllocatedBuffer_eq_dec : EqDecision AllocatedBuffer.
Proof. solve_decision. Defined.

(** [None] is a panic of the operation. *)
Class BufferAllocator (A : Type) : Type := {
  segment_name : A → string;
  capacity : A → Z;
  allocated : A → Z;
  allocate : Z → A → option (option AllocatedBuffer * A);
  deallocate : AllocatedBuffer → A → option A;
  largest_free_region : A → option Z;
  reserve : Z → Z → A → option (bool * A)
}.

(** Segments and requests below 2^63 bytes: no 64-bit sum of the allocators overflows. *)
Definition MAX_SEGMENT : Z := 9223372036854775808.

Definition buffers_disjoint (o1 z1 o2 z2 : Z) : Prop := o1 + z1 ≤ o2 ∨ o2 + z2 ≤ o1.

(** Live buffers lie inside the segment and never overlap. *)
Definition live_ok (cap : Z) (L : gmap Z Z) : Prop :=
  (∀ o z, L !! o = Some z → 0 ≤ o ∧ 0 < z ∧ o + z ≤ cap) ∧
  (∀ o1 z1 o2 z2, L !! o1 = Some z1 → L !! o2 = Some z2 → o1 ≠ o2 → buffers_disjoint o1 z1 o2 z2).

(** [ba_inv a L]: the allocator is well formed and its live buffers are [L]. *)
Class AllocatorLaws (A : Type) `{BufferAllocator A} : Type := {
  ba_inv : A → gmap Z Z → Prop;
  ba_live_ok a L : ba_inv a L → live_ok (capacity a) L;
  ba_capacity a L : ba_inv a L → 0 ≤ capacity a ≤ MAX_SEGMENT;
  ba_allocated a L : ba_inv a L → allocated a = msum L ∧ msum L ≤ capacity a;
  ba_allocate a L size : ba_inv a L → 0 ≤ size ≤ MAX_SEGMENT →
    ∃ res a', allocate size a = Some (res, a') ∧
      segment_name a' = segment_name a ∧ capacity a' = capacity a ∧
      match res with
      | None => ba_inv a' L
      | Some b => 0 < size ∧ buf_segment_name b = segment_name a ∧ buf_size b = size ∧
                  L !! buf_offset b = None ∧ ba_inv a' (<[buf_offset b := size]> L)
      end;
  ba_largest a L : ba_inv a L →
    ∃ m, largest_free_region a = Some m ∧ 0 ≤ m ≤ capacity a ∧
      (∀ size, 0 < size ≤ m → ∃ b a', allocate size a = Some (Some b, a'));
  ba_deallocate a L b : ba_inv a L → L !! buf_offset b = Some (buf_size b) →
    ∃ a', deallocate b a = Some a' ∧ segment_name a' = segment_name a ∧ capacity a' = capacity a ∧
      ba_inv a' (delete (buf_offset b) L);
  ba_reserve a L offset size : ba_inv a L → 0 ≤ offset → 0 ≤ size → offset + size ≤ u64_max →
    ∃ ok a', reserve offset size a = Some (ok, a') ∧
      segment_name a' = segment_name a ∧ capacity a' = capacity a ∧
      if (ok : bool) then L !! offset = None ∧ ba_inv a' (<[offset := size]> L) else ba_inv a' L
}.

#[global] Hint Mode AllocatorLaws ! - : typeclass_instances.

(** A new buffer never overlaps a live one: a consequence for any lawful allocator. *)
Lemma live_ok_fresh cap L o z o' z' :
  live_ok cap (<[o := z]> L) → L !! o = None → L !! o' = Some z' →
  buffers_disjoint o z o' z' ∧ 0 ≤ o ∧ o + z ≤ cap.
Proof.
  intros [Hin Hd] Hn Ho'. assert (o ≠ o') by congruence. split.
  - apply Hd; [by rewrite lookup_insert_eq|by rewrite lookup_insert_ne|done].
  - destruct (Hin o z) as (? & ? & ?); [by rewrite lookup_insert_eq|lia].
Qed.
