(* ===== verification/OffsetAllocator.v ===== *)
(** * The byte-addressed offset allocator

    [OffsetAllocator] (a base and a size scaling over the 32-bit core) and
    [OffsetBufferAllocator], the store's default [BufferAllocator], of
    crates/quillcache-store/src/offset_allocator.rs.  The second implements the
    allocator contract. *)
From S2P Require Import Prelude SmallFloat CoreAllocator CoreBins CoreLists CoreInv CoreOps CoreReserve BufferAllocator.

(** The [while] loop on a [u64]: 64 turns are enough, since [size >> 64 = 0]. *)
Fixpoint calculate_multiplier_loop (fuel : nat) (size multiplier_bits : Z) : option Z :=
  if MAX_BIN_SIZE <? Z.shiftr size multiplier_bits then
    match fuel with
    | O => None
    | S fuel' => calculate_multiplier_loop fuel' size (multiplier_bits + 1)
    end
  else Some multiplier_bits.

Definition calculate_multiplier (size : Z) : option Z := calculate_multiplier_loop 64 size 0.

Record Allocation : Type := mkAllocation {
  al_offset : Z;
  al_size : Z;
  al_core : OffsetAllocation
}.

Record OffsetAllocator : Type := mkOffsetAllocator {
  core : CoreAllocator;
  base : Z;
  multiplier_bits : Z;
  oa_capacity : Z;
  allocated_size : Z;
  allocated_num : Z
}.

(** [x << k] on a [u64] drops the bits past the 64th. *)
Definition u64_shl (x k : Z) : Z := Z.land (Z.shiftl x k) u64_max.

Definition oa_new (base size init_capacity max_capacity : Z) : option OffsetAllocator :=
  m ← calculate_multiplier size;
  c ← core_new (Z.land (Z.shiftr size m) u32_max) init_capacity max_capacity;
  Some (mkOffsetAllocator c base m size 0 0).

Definition oa_allocate (size : Z) (a : OffsetAllocator) : option (option Allocation * OffsetAllocator) :=
  if size =? 0 then Some (None, a)
  else
    fake_size ← (if 0 <? multiplier_bits a then
                   t ← u64_add size (u64_shl 1 (multiplier_bits a));
                   t' ← u64_sub t 1;
                   Some (Z.shiftr t' (multiplier_bits a))
                 else Some size);
    if MAX_BIN_SIZE <? fake_size then Some (None, a)
    else
      '(allocation, c) ← core_allocate (Z.land fake_size u32_max) (core a);
      if is_no_space allocation then
        Some (None, mkOffsetAllocator c (base a) (multiplier_bits a) (oa_capacity a) (allocated_size a) (allocated_num a))
      else
        sz ← u64_add (allocated_size a) size;
        num ← u64_add (allocated_num a) 1;
        off ← u64_add (base a) (u64_shl (oa_offset allocation) (multiplier_bits a));
        Some (Some (mkAllocation off size allocation),
              mkOffsetAllocator c (base a) (multiplier_bits a) (oa_capacity a) sz num).

Definition oa_free (al : Allocation) (a : OffsetAllocator) : option OffsetAllocator :=
  c ← core_free (al_core al) (core a);
  Some (mkOffsetAllocator c (base a) (multiplier_bits a) (oa_capacity a)
          (sat_sub (allocated_size a) (al_size al)) (sat_sub (allocated_num a) 1)).

Definition oa_reserve_exact (offset size : Z) (a : OffsetAllocator) : option (option Allocation * OffsetAllocator) :=
  if (size =? 0) || (offset <? base a) || negb (multiplier_bits a =? 0) then Some (None, a)
  else if (u32_max <? offset - base a) || (u32_max <? size) then Some (None, a)
  else
    '(r, c) ← core_reserve_exact (offset - base a) size (core a);
    let a' := mkOffsetAllocator c (base a) (multiplier_bits a) (oa_capacity a) (allocated_size a) (allocated_num a) in
    match r with
    | None => Some (None, a')
    | Some al =>
        sz ← u64_add (allocated_size a) size;
        num ← u64_add (allocated_num a) 1;
        Some (Some (mkAllocation offset size al),
              mkOffsetAllocator c (base a) (multiplier_bits a) (oa_capacity a) sz num)
    end.

Definition oa_storage_report (a : OffsetAllocator) : option (Z * Z) :=
  r ← core_storage_report (core a);
  Some (u64_shl (total_free_space r) (multiplier_bits a), u64_shl (report_largest r) (multiplier_bits a)).

Record OffsetBufferAllocator : Type := mkOBA {
  oba_segment_name : string;
  inner : OffsetAllocator;
  live : gmap Z Allocation
}.

Definition oba_new (name : string) (cap : Z) : option OffsetBufferAllocator :=
  i ← oa_new 0 cap 256 (Z.shiftl 1 22);
  Some (mkOBA name i ∅).

Definition oba_allocate (size : Z) (a : OffsetBufferAllocator) : option (option AllocatedBuffer * OffsetBufferAllocator) :=
  '(r, i) ← oa_allocate size (inner a);
  match r with
  | None => Some (None, mkOBA (oba_segment_name a) i (live a))
  | Some al => Some (Some (mkBuffer (oba_segment_name a) (al_offset al) size),
                     mkOBA (oba_segment_name a) i (<[al_offset al := al]> (live a)))
  end.

Definition oba_deallocate (b : AllocatedBuffer) (a : OffsetBufferAllocator) : option OffsetBufferAllocator :=
  match live a !! buf_offset b with
  | Some al => i ← oa_free al (inner a);
               Some (mkOBA (oba_segment_name a) i (delete (buf_offset b) (live a)))
  | None => Some a
  end.

Definition oba_reserve (offset size : Z) (a : OffsetBufferAllocator) : option (bool * OffsetBufferAllocator) :=
  '(r, i) ← oa_reserve_exact offset size (inner a);
  match r with
  | Some al => Some (true, mkOBA (oba_segment_name a) i (<[al_offset al := al]> (live a)))
  | None => Some (false, mkOBA (oba_segment_name a) i (live a))
  end.

#[export] Instance oba_allocator : BufferAllocator OffsetBufferAllocator := {|
  segment_name := oba_segment_name;
  capacity a := oa_capacity (inner a);
  allocated a := allocated_size (inner a);
  allocate := oba_allocate;
  deallocate := oba_deallocate;
  largest_free_region a := '(_, l) ← oa_storage_report (inner a); Some l;
  reserve := oba_reserve
|}.

(** Cross-checks against the unit tests of the source. *)
Example oba_test_coalesce :
  (a ← oba_new "s" 1024;
   '(r1, a) ← oba_allocate 512 a; '(r2, a) ← oba_allocate 512 a;
   full ← largest_free_region a;
   b1 ← r1; b2 ← r2;
   a ← oba_deallocate b1 a; a ← oba_deallocate b2 a;
   l ← largest_free_region a; Some (buf_offset b1, buf_offset b2, full, l)) = Some (0, 512, 0, 1024).
Proof. vm_compute. reflexivity. Qed.

(** ** Scaling *)

Lemma calculate_multiplier_loop_spec fuel size m :
  is_u64 size → 0 ≤ m ≤ 33 → 33 - m ≤ Z.of_nat fuel →
  (0 < m → MAX_BIN_SIZE < Z.shiftr size (m - 1)) →
  ∃ m', calculate_multiplier_loop fuel size m = Some m' ∧ 0 ≤ m' ≤ 33 ∧
    Z.shiftr size m' ≤ MAX_BIN_SIZE ∧ (0 < m' → MAX_BIN_SIZE < Z.shiftr size (m' - 1)).
Proof.
  intros Hs. revert m. induction fuel as [|fuel IH]; intros m Hm Hf Hlow; simpl.
  - assert (m = 33) as -> by lia. destruct (Z.ltb_spec MAX_BIN_SIZE (Z.shiftr size 33)) as [Hlt|].
    + rewrite Z.shiftr_div_pow2 in Hlt by lia. unfold is_u64, u64_max, MAX_BIN_SIZE in *.
      assert (size / 2 ^ 33 ≤ 18446744073709551615 / 2 ^ 33) as Hle by (apply Z.div_le_mono; lia).
      change (18446744073709551615 / 2 ^ 33) with 2147483647 in Hle. lia.
    + exists 33. done.
  - destruct (Z.ltb_spec MAX_BIN_SIZE (Z.shiftr size m)) as [Hlt|]; [|by exists m].
    apply IH; [|lia|].
    + destruct (decide (m = 33)) as [->|]; [|lia]. exfalso.
      rewrite Z.shiftr_div_pow2 in Hlt by lia. unfold is_u64, u64_max, MAX_BIN_SIZE in *.
      assert (size / 2 ^ 33 ≤ 18446744073709551615 / 2 ^ 33) as Hle by (apply Z.div_le_mono; lia).
      change (18446744073709551615 / 2 ^ 33) with 2147483647 in Hle. lia.
    + intros _. by replace (m + 1 - 1) with m by lia.
Qed.

Lemma calculate_multiplier_spec size :
  is_u64 size →
  ∃ m, calculate_multiplier size = Some m ∧ 0 ≤ m ≤ 33 ∧ Z.shiftr size m ≤ MAX_BIN_SIZE ∧
    (0 < m → MAX_BIN_SIZE < Z.shiftr size (m - 1)).
Proof. intros. apply calculate_multiplier_loop_spec; [done|lia..]. Qed.

Lemma land_u32 x : is_u32 x → Z.land x u32_max = x.
Proof. unfold is_u32, u32_max. intros. change 4294967295 with (Z.ones 32). rewrite Z.land_ones, Z.mod_small by lia. done. Qed.

Lemma u64_shl_small x k : 0 ≤ k → 0 ≤ x → x * 2 ^ k ≤ u64_max → u64_shl x k = x * 2 ^ k.
Proof.
  unfold u64_shl, u64_max. intros. rewrite Z.shiftl_mul_pow2 by lia.
  change 18446744073709551615 with (Z.ones 64). rewrite Z.land_ones, Z.mod_small by lia. done.
Qed.

(** ** Live allocations and used regions *)

Definition live_regs (lv : gmap Z Allocation) (R : list Reg) (k : Z) : Prop :=
  (∀ off al, lv !! off = Some al → al_offset al = off ∧ 0 < al_size al ∧
     ∃ r, r ∈ R ∧ r_used r = true ∧ off = r_off r * k ∧
       al_core al = mkOffsetAllocation (r_off r) (r_idx r) ∧ al_size al ≤ r_size r * k) ∧
  (∀ r, r ∈ R → r_used r = true → is_Some (lv !! (r_off r * k))).

Lemma tiles_disjoint o R e r1 r2 :
  tiles o R e → r1 ∈ R → r2 ∈ R → r1 ≠ r2 →
  r_off r1 + r_size r1 ≤ r_off r2 ∨ r_off r2 + r_size r2 ≤ r_off r1.
Proof.
  revert o. induction R as [|r R IH]; intros o; simpl; [set_solver|].
  intros (Ho & Hs & _ & Ht) [->|H1]%elem_of_cons [->|H2]%elem_of_cons Hne; [done|..].
  - left. pose proof (tiles_bounds _ _ _ _ Ht H2). lia.
  - right. pose proof (tiles_bounds _ _ _ _ Ht H1). lia.
  - by eapply IH.
Qed.

Lemma tiles_used_pos o R e r : tiles o R e → r ∈ R → r_used r = true → 0 < r_size r.
Proof.
  revert o. induction R as [|r' R IH]; intros o; simpl; [set_solver|].
  intros (_ & _ & Hp & Ht) [->|Hr]%elem_of_cons; [done|by eapply IH].
Qed.

(** Used regions are determined by their offset. *)
Lemma tiles_used_inj o R e r1 r2 :
  tiles o R e → r1 ∈ R → r2 ∈ R → r_used r1 = true → r_used r2 = true → r_off r1 = r_off r2 → r1 = r2.
Proof.
  intros Ht H1 H2 Hu1 Hu2 He. assert (r1 = r2 ∨ r1 ≠ r2) as [?|Hne]; [|done|].
  { destruct r1 as [i1 o1 z1 u1], r2 as [i2 o2 z2 u2]. simpl in *. subst.
    destruct (decide (i1 = i2)) as [->|]; [|right; congruence].
    destruct (decide (z1 = z2)) as [->|]; [by left|right; congruence]. }
  pose proof (tiles_used_pos _ _ _ _ Ht H1 Hu1). pose proof (tiles_used_pos _ _ _ _ Ht H2 Hu2).
  destruct (tiles_disjoint _ _ _ _ _ Ht H1 H2 Hne); lia.
Qed.

(** Nor does a used region occur twice. *)
Lemma tiles_used_once o R1 r R2 e : tiles o (R1 ++ r :: R2) e → r_used r = true → r ∉ R1 ++ R2.
Proof.
  intros (m & H1 & Ho & Hs & Hp & H2)%tiles_app Hu Hin. specialize (Hp Hu).
  apply elem_of_app in Hin as [Hin|Hin].
  - pose proof (tiles_bounds _ _ _ _ H1 Hin). lia.
  - pose proof (tiles_bounds _ _ _ _ H2 Hin). lia.
Qed.

Lemma live_regs_add lv R1 r0 M1 r M2 R2 k e al :
  0 < k → live_regs lv (R1 ++ r0 :: R2) k → r_used r0 = false →
  tiles 0 (R1 ++ (M1 ++ r :: M2) ++ R2) e → r_used r = true → Forall (λ x, r_used x = false) (M1 ++ M2) →
  al_offset al = r_off r * k → 0 < al_size al → al_size al ≤ r_size r * k →
  al_core al = mkOffsetAllocation (r_off r) (r_idx r) →
  lv !! al_offset al = None ∧ live_regs (<[al_offset al := al]> lv) (R1 ++ (M1 ++ r :: M2) ++ R2) k.
Proof.
  intros Hk [HL HR] Hu0 HT Hu HM Ho Hpos Hsz Hc. rewrite Forall_forall in HM.
  assert (r ∉ R1 ++ R2) as Honce.
  { assert (R1 ++ (M1 ++ r :: M2) ++ R2 = (R1 ++ M1) ++ r :: (M2 ++ R2)) as Heq by (by rewrite <- !app_assoc).
    rewrite Heq in HT. intros Hin. apply (tiles_used_once _ _ _ _ _ HT Hu). set_solver. }
  assert (lv !! al_offset al = None) as Hnone.
  { destruct (lv !! al_offset al) as [al'|] eqn:E; [|done]. exfalso.
    destruct (HL _ _ E) as (_ & _ & r' & Hr' & Hu' & Ho' & _). rewrite Ho in Ho'.
    assert (r' ≠ r0) by congruence.
    assert (r' ∈ R1 ++ R2) as Hin by (rewrite elem_of_app, elem_of_cons in Hr'; rewrite elem_of_app; tauto).
    assert (r' = r) as -> by (eapply (tiles_used_inj _ _ _ _ _ HT); [set_solver|set_solver|done|done|nia]).
    done. }
  split; [done|]. split.
  - intros off al'. rewrite lookup_insert_Some. intros [[<- <-]|[Hne Hl]].
    + split_and!; [done|done|]. exists r. split_and!; [set_solver|done..].
    + destruct (HL _ _ Hl) as (? & ? & r' & Hr' & Hu' & ? & ? & ?). split_and!; [done|done|].
      exists r'. split_and!; [|done..]. assert (r' ≠ r0) by congruence.
      rewrite elem_of_app, elem_of_cons in Hr'. rewrite !elem_of_app. tauto.
  - intros r' Hr' Hu'. destruct (decide (al_offset al = r_off r' * k)) as [->|Hne]; [by rewrite lookup_insert_eq|].
    rewrite lookup_insert_ne by done. apply HR; [|done].
    assert (r' ≠ r) by congruence. assert (r' ∉ M1 ++ M2) by (intros Hin%HM; congruence).
    rewrite !elem_of_app, !elem_of_cons in *. tauto.
Qed.

Lemma live_regs_remove lv R1 r R2 R1' r0 R2' k e :
  0 < k → live_regs lv (R1 ++ r :: R2) k → tiles 0 (R1 ++ r :: R2) e → r_used r = true → r_used r0 = false →
  (R1' = R1 ∨ ∃ p, R1 = R1' ++ [p] ∧ r_used p = false) → (R2' = R2 ∨ ∃ p, R2 = p :: R2' ∧ r_used p = false) →
  live_regs (delete (r_off r * k) lv) (R1' ++ r0 :: R2') k.
Proof.
  intros Hk [HL HR] HT Hu Hu0 H1 H2. pose proof (tiles_used_once _ _ _ _ _ HT Hu) as Honce.
  assert (∀ x, r_used x = true → x ∈ R1' ++ r0 :: R2' ↔ x ∈ R1 ++ R2) as Hx.
  { intros x Hxu. rewrite !elem_of_app, elem_of_cons.
    assert (x ≠ r0) by congruence.
    destruct H1 as [->|(p & -> & ?)], H2 as [->|(q & -> & ?)];
      rewrite ?elem_of_app, ?elem_of_cons, ?elem_of_nil;
      try (assert (x ≠ p) by congruence); try (assert (x ≠ q) by congruence); tauto. }
  split.
  - intros off al [Hne Hl]%lookup_delete_Some. destruct (HL _ _ Hl) as (? & ? & r' & Hr' & Hu' & ? & ? & ?).
    split_and!; [done|done|]. exists r'. split_and!; [|done..]. apply Hx; [done|].
    rewrite elem_of_app, elem_of_cons in Hr'. assert (r' ≠ r) by congruence. rewrite elem_of_app. tauto.
  - intros r' Hr' Hu'. apply Hx in Hr'; [|done].
    rewrite lookup_delete_ne; [apply HR; [set_solver|done]|]. intros He.
    assert (r = r') as <-; [|done].
    eapply (tiles_used_inj _ _ _ _ _ HT); [set_solver..|done|done|nia].
Qed.

(** The bytes handed out fit in the span. *)
Lemma live_regs_sum (L : gmap Z Z) R k o e :
  0 < k → tiles o R e →
  (∀ off z, L !! off = Some z → ∃ r, r ∈ R ∧ r_used r = true ∧ off = r_off r * k ∧ z ≤ r_size r * k) →
  msum L ≤ (e - o) * k.
Proof.
  intros Hk. revert o L. induction R as [|r R IH]; intros o L HT HL.
  - assert (L = ∅) as ->; [|rewrite msum_empty; simpl in HT; nia].
    apply map_empty. intros off. destruct (L !! off) eqn:E; [|done]. destruct (HL _ _ E); set_solver.
  - pose proof HT as (Ho & Hs & Hp & Ht). destruct (r_used r) eqn:Hu.
    2:{ assert (msum L ≤ (e - (o + r_size r)) * k); [|nia]. apply IH; [done|]. intros off z' Hl.
        destruct (HL _ _ Hl) as (r' & [->|?]%elem_of_cons & ? & -> & ?); [congruence|eauto]. }
    specialize (Hp eq_refl). destruct (L !! (r_off r * k)) as [z|] eqn:E.
    + rewrite (msum_delete _ _ _ E). destruct (HL _ _ E) as (r' & Hr' & Hu' & Ho' & Hz).
      assert (r' = r) as ->.
      { assert (r_off r' = r_off r) by nia. apply elem_of_cons in Hr' as [->|Hr']; [done|].
        pose proof (tiles_bounds _ _ _ _ Ht Hr'). lia. }
      assert (msum (delete (r_off r * k) L) ≤ (e - (o + r_size r)) * k); [|nia].
      apply IH; [done|]. intros off z' [Hne Hl]%lookup_delete_Some.
      destruct (HL _ _ Hl) as (r' & [->|?]%elem_of_cons & ? & ? & ?); [done|eauto].
    + assert (msum L ≤ (e - (o + r_size r)) * k); [|nia]. apply IH; [done|]. intros off z' Hl.
      destruct (HL _ _ Hl) as (r' & [->|?]%elem_of_cons & ? & -> & ?); [congruence|eauto].
Qed.

(** ** The buffer allocator's invariant *)

Record oba_wf (a : OffsetBufferAllocator) (R : list Reg) : Prop := {
  ow_core : core_inv (core (inner a)) R;
  ow_base : base (inner a) = 0;
  ow_bits : 0 ≤ multiplier_bits (inner a) ≤ 33;
  ow_cap : 0 ≤ oa_capacity (inner a) ≤ MAX_SEGMENT;
  ow_span : core_size (core (inner a)) = Z.shiftr (oa_capacity (inner a)) (multiplier_bits (inner a));
  ow_live : live_regs (live a) R (2 ^ multiplier_bits (inner a));
  ow_bytes : allocated_size (inner a) = msum (al_size <$> live a);
  ow_num : allocated_num (inner a) = Z.of_nat (size (live a));
  ow_mult : calculate_multiplier (oa_capacity (inner a)) = Some (multiplier_bits (inner a));
  ow_pool : max_capacity (core (inner a)) = 4194304
}.

Definition oba_inv (a : OffsetBufferAllocator) (L : gmap Z Z) : Prop :=
  L = al_size <$> live a ∧ ∃ R, oba_wf a R.

Lemma span_bytes cap m : 0 ≤ m → 0 ≤ cap → Z.shiftr cap m * 2 ^ m ≤ cap.
Proof.
  intros. rewrite Z.shiftr_div_pow2 by lia. rewrite Z.mul_comm. apply Z.mul_div_le. by apply Z.pow_pos_nonneg.
Qed.

Lemma oba_wf_sum a R :
  oba_wf a R → 0 ≤ msum (al_size <$> live a) ≤ oa_capacity (inner a).
Proof.
  intros HW. pose proof (ow_bits _ _ HW) as Hm. pose proof (ow_cap _ _ HW). destruct (ow_live _ _ HW) as [HL _].
  split.
  - apply msum_nonneg. intros o z (al & <- & Hal)%lookup_fmap_Some. destruct (HL _ _ Hal) as (_ & ? & _). lia.
  - pose proof (span_bytes (oa_capacity (inner a)) (multiplier_bits (inner a)) ltac:(lia) ltac:(lia)).
    rewrite <- (ow_span _ _ HW) in *.
    enough (msum (al_size <$> live a) ≤ (core_size (core (inner a)) - 0) * 2 ^ multiplier_bits (inner a)) by lia.
    eapply live_regs_sum; [by apply Z.pow_pos_nonneg; lia|apply HW|].
    intros o z (al & <- & Hal)%lookup_fmap_Some. destruct (HL _ _ Hal) as (_ & _ & r & ? & ? & ? & _ & ?). eauto.
Qed.

Lemma size_le_msum (L : gmap Z Z) : map_Forall (λ _ z, 1 ≤ z) L → Z.of_nat (size L) ≤ msum L.
Proof.
  induction L as [|k z L Hk IH] using map_ind; intros HL.
  - by rewrite map_size_empty, (msum_empty (K:=Z)).
  - apply map_Forall_insert in HL as [? ?%IH]; [|done]. rewrite msum_insert, map_size_insert_None by done. lia.
Qed.

Lemma oba_wf_num a R : oba_wf a R → Z.of_nat (size (live a)) ≤ oa_capacity (inner a).
Proof.
  intros HW. pose proof (oba_wf_sum _ _ HW). rewrite <- (map_size_fmap al_size).
  etrans; [apply size_le_msum|lia]. intros o z (al & <- & Hal)%lookup_fmap_Some.
  destruct (ow_live _ _ HW) as [HL _]. destruct (HL _ _ Hal) as (_ & ? & _). lia.
Qed.

(** Byte ranges of live allocations: inside the segment, pairwise disjoint. *)
Lemma oba_wf_live_ok a R : oba_wf a R → live_ok (oa_capacity (inner a)) (al_size <$> live a).
Proof.
  intros HW. pose proof (ow_bits _ _ HW) as Hm. pose proof (ow_cap _ _ HW). destruct (ow_live _ _ HW) as [HL _].
  pose proof (span_bytes (oa_capacity (inner a)) (multiplier_bits (inner a)) ltac:(lia) ltac:(lia)) as Hsp.
  rewrite <- (ow_span _ _ HW) in Hsp. pose proof (ci_tiles _ _ (ow_core _ _ HW)) as HT.
  set (k := 2 ^ multiplier_bits (inner a)) in *.
  assert (0 < k) by (apply Z.pow_pos_nonneg; lia). split.
  - intros o z (al & <- & Hal)%lookup_fmap_Some. destruct (HL _ _ Hal) as (_ & ? & r & Hr & Hu & -> & _ & ?).
    pose proof (tiles_bounds _ _ _ _ HT Hr). split_and!; [nia|done|nia].
  - intros o1 z1 o2 z2 (a1 & <- & H1)%lookup_fmap_Some (a2 & <- & H2)%lookup_fmap_Some Hne.
    destruct (HL _ _ H1) as (_ & _ & r1 & Hr1 & Hu1 & -> & _ & ?).
    destruct (HL _ _ H2) as (_ & _ & r2 & Hr2 & Hu2 & -> & _ & ?).
    destruct (tiles_disjoint _ _ _ r1 r2 HT) as [?|?]; [done..|congruence| |].
    + left. nia.
    + right. nia.
Qed.

(** The scaled request: the least number of units that covers [size] bytes. *)
(** Rounding [size] up to the scale does not overflow a [u64]. *)
Definition round_ok (m size : Z) : Prop := m = 0 ∨ size + 2 ^ m ≤ u64_max.

Lemma round_ok_segment m size : 0 ≤ m ≤ 33 → size ≤ MAX_SEGMENT → round_ok m size.
Proof. intros Hm Hs. right. assert (2 ^ m ≤ 2 ^ 33) by (apply Z.pow_le_mono_r; lia). unfold MAX_SEGMENT, u64_max in *. lia. Qed.

Lemma fake_size_spec (m size : Z) :
  0 ≤ m ≤ 33 → 0 < size → round_ok m size →
  ∃ f, (if 0 <? m then t ← u64_add size (u64_shl 1 m); t' ← u64_sub t 1; Some (Z.shiftr t' m)
        else Some size) = Some f ∧ 0 < f ∧ size ≤ f * 2 ^ m ∧
    ∀ g, size ≤ g * 2 ^ m → f ≤ g.
Proof.
  intros Hm Hs Hro. assert (0 < 2 ^ m ≤ 2 ^ 33) as Hk by (split; [apply Z.pow_pos_nonneg; lia|apply Z.pow_le_mono_r; lia]).
  destruct (Z.ltb_spec 0 m) as [Hpos|Hz].
  - destruct Hro as [?|Hro]; [lia|]. rewrite u64_shl_small by (unfold u64_max; lia).
    rewrite u64_add_ok by lia. cbn [mbind option_bind].
    rewrite u64_sub_ok by lia. cbn [mbind option_bind]. eexists. split; [done|].
    rewrite Z.shiftr_div_pow2 by lia.
    set (k := 2 ^ m) in *. set (q := (size + 1 * k - 1) / k).
    pose proof (Z.div_mod (size + 1 * k - 1) k ltac:(lia)) as Hdm.
    pose proof (Z.mod_pos_bound (size + 1 * k - 1) k ltac:(lia)) as Hmb. fold q in Hdm.
    split_and!; [nia|nia|]. intros g Hg. nia.
  - assert (m = 0) as -> by lia. exists size. split; [done|]. change (2 ^ 0) with 1. split_and!; [lia..|]. intros; lia.
Qed.

(** ** Operations *)

Definition with_core (c : CoreAllocator) (a : OffsetAllocator) : OffsetAllocator :=
  mkOffsetAllocator c (base a) (multiplier_bits a) (oa_capacity a) (allocated_size a) (allocated_num a).

Lemma oba_wf_core a R c :
  oba_wf a R → core_inv c R → core_size c = core_size (core (inner a)) →
  max_capacity c = max_capacity (core (inner a)) →
  oba_wf (mkOBA (oba_segment_name a) (with_core c (inner a)) (live a)) R.
Proof. intros [? ? ? ? ? ? ? ? ? ?] ? ? ?. constructor; simpl; congruence || done || lia. Qed.

(** A used region [r] carved out of a free region [r0], as a new live allocation. *)
Lemma oba_wf_add a R1 r0 R2 c M1 r M2 al :
  oba_wf a (R1 ++ r0 :: R2) → r_used r0 = false →
  core_inv c (R1 ++ (M1 ++ r :: M2) ++ R2) → core_size c = core_size (core (inner a)) →
  max_capacity c = max_capacity (core (inner a)) →
  r_used r = true → Forall (λ x, r_used x = false) (M1 ++ M2) →
  al_offset al = r_off r * 2 ^ multiplier_bits (inner a) → 0 < al_size al →
  al_size al ≤ r_size r * 2 ^ multiplier_bits (inner a) →
  al_core al = mkOffsetAllocation (r_off r) (r_idx r) →
  live a !! al_offset al = None ∧
  u64_add (allocated_size (inner a)) (al_size al) = Some (allocated_size (inner a) + al_size al) ∧
  u64_add (allocated_num (inner a)) 1 = Some (allocated_num (inner a) + 1) ∧
  oba_wf (mkOBA (oba_segment_name a)
    (mkOffsetAllocator c (base (inner a)) (multiplier_bits (inner a)) (oa_capacity (inner a))
       (allocated_size (inner a) + al_size al) (allocated_num (inner a) + 1))
    (<[al_offset al := al]> (live a))) (R1 ++ (M1 ++ r :: M2) ++ R2).
Proof.
  intros HW Hu0 HI Hcs Hmc Hu HM Ho Hp Hsz Hc. pose proof HW as [_ Hb Hm Hcap Hsp HL Hby Hnum Hmult Hpool].
  assert (0 < 2 ^ multiplier_bits (inner a)) as Hk by (apply Z.pow_pos_nonneg; lia).
  destruct (live_regs_add _ _ _ _ _ _ _ _ _ _ Hk HL Hu0 (ci_tiles _ _ HI) Hu HM Ho Hp Hsz Hc) as [Hnone HL'].
  assert (oba_wf (mkOBA (oba_segment_name a)
    (mkOffsetAllocator c (base (inner a)) (multiplier_bits (inner a)) (oa_capacity (inner a))
       (allocated_size (inner a) + al_size al) (allocated_num (inner a) + 1))
    (<[al_offset al := al]> (live a))) (R1 ++ (M1 ++ r :: M2) ++ R2)) as HW'.
  { constructor; simpl; try done; [congruence| | |lia].
    - rewrite fmap_insert, msum_insert by (by rewrite lookup_fmap, Hnone). lia.
    - rewrite map_size_insert_None by done. lia. }
  pose proof (oba_wf_sum _ _ HW') as Hs'. pose proof (oba_wf_num _ _ HW') as Hn'. simpl in *.
  rewrite fmap_insert, msum_insert in Hs' by (by rewrite lookup_fmap, Hnone).
  rewrite map_size_insert_None in Hn' by done. unfold MAX_SEGMENT, u64_max in *.
  split_and!; [done| | |done]; apply u64_add_ok; unfold u64_max; lia.
Qed.

Lemma split_region_shape r ru j :
  ∃ M2, split_region r ru j = mkReg (r_idx r) (r_off r) ru true :: M2 ∧ Forall (λ x, r_used x = false) M2.
Proof.
  unfold split_region. destruct (r_size r =? ru); eexists; (split; [done|]); by repeat constructor.
Qed.

(** The allocation path never panics; it fails only if the request exceeds every free
    size class, the largest bin or the node pool. *)
Lemma oba_allocate_spec a R size :
  oba_wf a R → 0 ≤ size → round_ok (multiplier_bits (inner a)) size →
  ∃ res a' R', oba_allocate size a = Some (res, a') ∧ oba_wf a' R' ∧
    oba_segment_name a' = oba_segment_name a ∧ oa_capacity (inner a') = oa_capacity (inner a) ∧
    match res with
    | None => live a' = live a ∧
        (size = 0 ∨ free_offset (core (inner a)) = max_capacity (core (inner a)) ∨
         MAX_BIN_SIZE * 2 ^ multiplier_bits (inner a) < size ∨
         ∀ r, r ∈ R → r_used r = false → class_of (r_size r) * 2 ^ multiplier_bits (inner a) < size)
    | Some b => 0 < size ∧ buf_segment_name b = oba_segment_name a ∧ buf_size b = size ∧
        live a !! buf_offset b = None ∧
        (∃ al, live a' = <[buf_offset b := al]> (live a) ∧ al_size al = size) ∧
        free_offset (core (inner a)) ≠ max_capacity (core (inner a)) ∧
        ∃ r, r ∈ R ∧ r_used r = false ∧ size ≤ class_of (r_size r) * 2 ^ multiplier_bits (inner a)
    end.
Proof.
  intros HW Hs Hro. pose proof HW as [HI Hb Hm Hcap Hsp HL Hby Hnum Hmult Hpool].
  unfold oba_allocate, oa_allocate. destruct (Z.eqb_spec size 0) as [->|Hne].
  { exists None, a, R. destruct a; simpl. split_and!; try done. by left. }
  set (m := multiplier_bits (inner a)) in *.
  destruct (fake_size_spec m size Hm ltac:(lia) Hro) as (f & -> & Hf0 & Hfs & Hmin). cbn [mbind option_bind].
  assert (0 < 2 ^ m) as Hk by (apply Z.pow_pos_nonneg; lia).
  destruct (Z.ltb_spec MAX_BIN_SIZE f) as [Hbig|Hfit]; cbn [mbind option_bind].
  { exists None, a, R. destruct a; simpl. split_and!; try done. right; right; left.
    apply Z.nle_gt. intros ?%Hmin. lia. }
  rewrite land_u32 by (unfold is_u32, MAX_BIN_SIZE, u32_max in *; lia).
  destruct (core_allocate_spec (core (inner a)) R f HI ltac:(lia)) as
    (oa & c & -> & Hc1 & Hmc & [(-> & HI' & Hwhy)|(R1 & r & R2 & j & Hfo & -> & Hu & Hge & -> & Hidx & HI')]);
    cbn [mbind option_bind].
  - exists None, (mkOBA (oba_segment_name a) (with_core c (inner a)) (live a)), R. split; [done|].
    split; [by apply oba_wf_core|]. simpl. split_and!; [done..|]. right.
    destruct Hwhy as [?|Hno]; [by left|right; right]. intros r Hr Hu.
    apply Z.nle_gt. intros ?%Hmin. specialize (Hno r Hr Hu). unfold class_of in *. lia.
  - unfold is_no_space. simpl oa_metadata. destruct (Z.eqb_spec (r_idx r) UNUSED) as [|_]; [done|].
    destruct (split_region_shape r (rounded f) j) as (M2 & HspR & HM2). rewrite HspR in HI'.
    pose proof (rounded_bounds f ltac:(lia)) as [Hru _].
    set (al := mkAllocation (r_off r * 2 ^ m) size (mkOffsetAllocation (r_off r) (r_idx r))).
    destruct (oba_wf_add a R1 r R2 c [] (mkReg (r_idx r) (r_off r) (rounded f) true) M2 al)
      as (Hnone & Hsz & Hnm & HW'); simpl; try done; [unfold al; simpl; lia|unfold al; simpl; etrans; [exact Hfs|apply Z.mul_le_mono_nonneg_r; lia]|].
    simpl in Hsz. rewrite Hsz. cbn [mbind option_bind]. rewrite Hnm. cbn [mbind option_bind].
    pose proof (tiles_bounds _ _ _ r (ci_tiles _ _ HI) ltac:(set_solver)) as Hbd.
    pose proof (span_bytes (oa_capacity (inner a)) m ltac:(lia) ltac:(lia)) as Hspan. rewrite <- Hsp in Hspan.
    assert (r_off r * 2 ^ m ≤ u64_max) by (unfold MAX_SEGMENT, u64_max in *; nia).
    rewrite u64_shl_small by (done || lia). rewrite Hb, u64_add_ok by lia. cbn [mbind option_bind]. rewrite Z.add_0_l.
    eexists _, _, _. split; [done|]. simpl. rewrite Hb in HW'.
    split; [exact HW'|]. split_and!; try done; [lia|by exists al|].
    exists r. split_and!; [set_solver|done|].
    assert (f ≤ class_of (r_size r)); [|etrans; [exact Hfs|apply Z.mul_le_mono_nonneg_r; lia]].
    etrans; [exact Hru|]. pose proof (rounded_bounds f ltac:(lia)) as [_ Hrf].
    pose proof (round_up_max f ltac:(lia)). rewrite Hrf in *. unfold class_of. apply bin_floor_le.
    split; [lia|]. apply round_down_adjoint; lia.
Qed.

(** Beyond that the rounding overflows. *)
Lemma oba_allocate_overflow a R size :
  oba_wf a R → 0 ≤ size ≤ u64_max → ¬ round_ok (multiplier_bits (inner a)) size → oba_allocate size a = None.
Proof.
  intros HW Hs Hro. pose proof (ow_bits _ _ HW) as Hm. unfold oba_allocate, oa_allocate. set (m := multiplier_bits (inner a)) in *.
  assert (m ≠ 0 ∧ u64_max < size + 2 ^ m) as [Hm0 Hov] by (unfold round_ok in Hro; lia).
  assert (0 < 2 ^ m ≤ 2 ^ 33) as Hk by (split; [apply Z.pow_pos_nonneg; lia|apply Z.pow_le_mono_r; lia]).
  rewrite (proj2 (Z.eqb_neq _ _)) by (unfold u64_max in *; lia). rewrite (proj2 (Z.ltb_lt _ _)) by lia.
  rewrite u64_shl_small by (unfold u64_max in *; lia). unfold u64_add. rewrite Z.mul_1_l.
  destruct (Z.leb_spec (size + 2 ^ m) u64_max); [lia|]. by cbn.
Qed.

Lemma oba_deallocate_spec a R b :
  oba_wf a R → is_Some (live a !! buf_offset b) →
  ∃ a' R', oba_deallocate b a = Some a' ∧ oba_wf a' R' ∧
    oba_segment_name a' = oba_segment_name a ∧ oa_capacity (inner a') = oa_capacity (inner a) ∧
    live a' = delete (buf_offset b) (live a).
Proof.
  intros HW [al Hal]. pose proof HW as [HI Hb Hm Hcap Hsp HL Hby Hnum Hmult Hpool].
  assert (0 < 2 ^ multiplier_bits (inner a)) as Hk by (apply Z.pow_pos_nonneg; lia).
  unfold oba_deallocate, oa_free. rewrite Hal. destruct (proj1 HL _ _ Hal) as (_ & Hp & r & Hr & Hu & Ho & Hc & _).
  apply list_elem_of_split in Hr as (R1 & R2 & ->). rewrite Hc.
  destruct (core_free_spec _ _ _ _ HI Hu) as (i & o & z & c & R1' & R2' & -> & HI' & (Hcs & _ & Hmc) & H1 & H2).
  cbn [mbind option_bind]. eexists _, _. split; [done|]. split; [|done].
  constructor; simpl; try done.
  - congruence.
  - rewrite Ho. by eapply (live_regs_remove _ R1 r R2 R1' _ R2'); [..|apply (ci_tiles _ _ HI)| | | |].
  - rewrite fmap_delete, Hby, (msum_delete _ (buf_offset b) (al_size al)) by (by rewrite lookup_fmap, Hal).
    unfold sat_sub. rewrite Z.max_r; [lia|].
    assert (0 ≤ msum (delete (buf_offset b) (al_size <$> live a))); [|lia].
    apply msum_nonneg. intros o' z' [_ (al' & <- & Hal')%lookup_fmap_Some]%lookup_delete_Some.
    destruct (proj1 HL _ _ Hal') as (_ & ? & _). lia.
  - rewrite Hnum. unfold sat_sub. rewrite (map_size_delete_Some (buf_offset b) (live a)) by eauto.
    assert (size (live a) ≠ 0%nat) by (intros E%map_size_empty_inv; by rewrite E, lookup_empty in Hal). lia.
  - lia.
Qed.

Lemma pieces_shape o e offset size b u a :
  ∃ M1 M2, pieces o e offset size b u a = M1 ++ mkReg u offset size true :: M2 ∧
    Forall (λ x, r_used x = false) (M1 ++ M2).
Proof.
  unfold pieces, piece. eexists _, _. split; [done|]. destruct (o <? offset), (offset + size <? e); by repeat constructor.
Qed.

Lemma oba_reserve_spec a R offset size :
  oba_wf a R → 0 ≤ offset → 0 ≤ size →
  ∃ ok a' R', oba_reserve offset size a = Some (ok, a') ∧ oba_wf a' R' ∧
    oba_segment_name a' = oba_segment_name a ∧ oa_capacity (inner a') = oa_capacity (inner a) ∧
    if (ok : bool)
    then live a !! offset = None ∧ (∃ al, live a' = <[offset := al]> (live a) ∧ al_size al = size) ∧
      (∀ x, x ∈ R' → r_used x = true → x ∈ R ∨ r_off x = offset ∧ r_size x = size)
    else live a' = live a ∧
      (size = 0 ∨ multiplier_bits (inner a) ≠ 0 ∨
       max_capacity (core (inner a)) - free_offset (core (inner a)) < 3 ∨
       ∀ r, r ∈ R → r_used r = false → ¬ (r_off r ≤ offset ∧ offset + size ≤ r_off r + r_size r)).
Proof.
  intros HW Ho Hs. pose proof HW as [HI Hb Hm Hcap Hsp HL Hby Hnum Hmult Hpool].
  assert (oba_wf (mkOBA (oba_segment_name a) (inner a) (live a)) R) as HWa by (by destruct a).
  unfold oba_reserve, oa_reserve_exact. rewrite Hb, Z.sub_0_r.
  destruct (Z.eqb_spec size 0) as [->|Hne]; cbn [orb].
  { eexists _, _, R. split; [done|]. split; [exact HWa|]. split_and!; [done..|]. by left. }
  destruct (Z.ltb_spec offset 0) as [|_]; [lia|]. cbn [orb].
  destruct (Z.eqb_spec (multiplier_bits (inner a)) 0) as [Hm0|Hm0]; cbn [negb].
  2:{ eexists _, _, R. split; [done|]. split; [exact HWa|]. split_and!; [done..|]. by right; left. }
  destruct ((u32_max <? offset) || (u32_max <? size)) eqn:Hbig.
  { eexists _, _, R. split; [done|]. split; [exact HWa|]. split_and!; [done..|]. right; right; right.
    intros r Hr _ [? ?]. pose proof (tiles_bounds _ _ _ r (ci_tiles _ _ HI) Hr).
    pose proof (ci_size _ _ HI) as [_ ?]. apply orb_true_iff in Hbig as [?%Z.ltb_lt|?%Z.ltb_lt]; lia. }
  destruct (core_reserve_exact_spec _ _ offset size HI Ho Hs) as (res & c & -> & Hcs & Hmc &
    [(-> & HI' & Hwhy)|(R1 & r & R2 & b & u & x & -> & Hu & Hlo & Hhi & Hp & -> & Hun & HI')]);
    cbn [mbind option_bind].
  { pose proof (oba_wf_core a R c HW HI' Hcs Hmc) as HWc. unfold with_core in HWc. rewrite Hb in HWc.
    eexists _, _, R. split; [done|]. split; [exact HWc|]. split_and!; [done..|].
    destruct Hwhy as [?|[?|?]]; [done|by right; right; left|by right; right; right]. }
  destruct (pieces_shape (r_off r) (r_off r + r_size r) offset size b u x) as (M1 & M2 & HM & HMf).
  rewrite HM in HI'.
  destruct (oba_wf_add a R1 r R2 c M1 (mkReg u offset size true) M2
    (mkAllocation offset size (mkOffsetAllocation offset u))) as (Hnone & Hsz & Hnm & HW');
    simpl; rewrite ?Hm0; try done; try lia.
  simpl in Hsz, Hnone. rewrite Hsz. cbn [mbind option_bind]. rewrite Hnm. cbn [mbind option_bind].
  eexists _, _, _. split; [done|]. rewrite Hb in HW'. rewrite Hm0 in HW'. simpl in HW'.
  split; [exact HW'|]. simpl. split_and!; [done..| |]; [eauto|].
  intros y. rewrite !elem_of_app, elem_of_cons. rewrite Forall_forall in HMf. setoid_rewrite elem_of_app in HMf.
  intros [Hy|[[Hy|[->|Hy]]|Hy]] Huy; [left; by left| |by right| |left; by do 2 right]; rewrite (HMf y) in Huy by tauto; done.
Qed.

Lemma oba_largest_spec a R :
  oba_wf a R →
  ∃ l, largest_free_region a = Some l ∧ 0 ≤ l ≤ oa_capacity (inner a) ∧
    (free_offset (core (inner a)) < max_capacity (core (inner a)) →
     (∀ r, r ∈ R → r_used r = false → class_of (r_size r) * 2 ^ multiplier_bits (inner a) ≤ l)) ∧
    (0 < l → free_offset (core (inner a)) ≠ max_capacity (core (inner a)) ∧
       ∃ r, r ∈ R ∧ r_used r = false ∧ class_of (r_size r) * 2 ^ multiplier_bits (inner a) = l).
Proof.
  intros HW. pose proof HW as [HI Hb Hm Hcap Hsp HL Hby Hnum Hmult Hpool].
  assert (0 < 2 ^ multiplier_bits (inner a)) as Hk by (apply Z.pow_pos_nonneg; lia).
  destruct (core_storage_report_spec _ _ HI) as (rep & Hrep & Hfull & Hopen & Hl).
  pose proof (span_bytes (oa_capacity (inner a)) (multiplier_bits (inner a)) ltac:(lia) ltac:(lia)) as Hspan.
  rewrite <- Hsp in Hspan. pose proof (ci_pool _ _ HI) as (_ & _ & Ho & Hx & _).
  assert (report_largest rep ≤ core_size (core (inner a))) as Hle.
  { destruct (decide (0 < report_largest rep)) as [Hpos|]; [|pose proof (tiles_le _ _ _ (ci_tiles _ _ HI)); lia].
    destruct (decide (free_offset (core (inner a)) = max_capacity (core (inner a)))) as [E|].
    { rewrite (Hfull E) in Hpos. done. }
    destruct (Hopen ltac:(lia)) as (_ & _ & Hex). destruct (Hex Hpos) as (r & Hr & _ & <-).
    pose proof (tiles_bounds _ _ _ r (ci_tiles _ _ HI) Hr).
    pose proof (round_down_bounds (r_size r) ltac:(lia)). unfold class_of. lia. }
  simpl. unfold oa_storage_report. rewrite Hrep. cbn [mbind option_bind].
  assert (report_largest rep * 2 ^ multiplier_bits (inner a) ≤ oa_capacity (inner a)) by nia.
  rewrite u64_shl_small by (unfold MAX_SEGMENT, u64_max in *; lia).
  eexists. split; [done|]. split; [nia|]. split.
  - intros Hlt r Hr Hu. destruct (Hopen Hlt) as (_ & Hall & _). specialize (Hall r Hr Hu). nia.
  - intros Hpos. assert (0 < report_largest rep) as Hpos' by nia.
    destruct (decide (free_offset (core (inner a)) = max_capacity (core (inner a)))) as [E|Hne].
    { rewrite (Hfull E) in Hpos'. done. }
    split; [done|]. destruct (Hopen ltac:(lia)) as (_ & _ & Hex).
    destruct (Hex Hpos') as (r & ? & ? & ?). exists r. split_and!; congruence.
Qed.

Lemma oba_new_spec name cap :
  0 ≤ cap ≤ MAX_SEGMENT →
  ∃ a c, oba_new name cap = Some a ∧ oba_segment_name a = name ∧ oa_capacity (inner a) = cap ∧
    live a = ∅ ∧ oba_wf a [mkReg c 0 (Z.shiftr cap (multiplier_bits (inner a))) false].
Proof.
  intros Hc. unfold oba_new, oa_new.
  destruct (calculate_multiplier_spec cap) as (m & Hmult & Hm & Hmax & _).
  { unfold is_u64, MAX_SEGMENT, u64_max in *. lia. }
  rewrite Hmult. cbn [mbind option_bind]. pose proof (proj2 (Z.shiftr_nonneg cap m) ltac:(lia)).
  assert (is_u32 (Z.shiftr cap m)) as Hu by (unfold is_u32, MAX_BIN_SIZE, u32_max in *; lia).
  rewrite land_u32 by done.
  destruct (core_new_spec (Z.shiftr cap m) 256 (Z.shiftl 1 22) Hu) as (c & s & -> & HI & Hcs & Hmc).
  { lia. } { change (Z.shiftl 1 22) with 4194304. unfold u32_max. lia. }
  cbn [mbind option_bind]. eexists _, c. split; [done|]. simpl. split_and!; [done..|].
  constructor; simpl; try done.
  - split; [intros off al; by rewrite lookup_empty|]. intros r ->%list_elem_of_singleton. done.
Qed.

(** ** The contract *)

#[export] Instance oba_laws : AllocatorLaws OffsetBufferAllocator.
Proof.
  refine {| ba_inv := oba_inv |}.
  - intros a L [-> [R HW]]. by eapply oba_wf_live_ok.
  - intros a L [_ [R HW]]. apply HW.
  - intros a L [-> [R HW]]. split; [apply HW|]. by eapply oba_wf_sum.
  - intros a L size [-> [R HW]] Hs.
    destruct (oba_allocate_spec a R size HW (proj1 Hs) (round_ok_segment _ _ (ow_bits _ _ HW) (proj2 Hs))) as (res & a' & R' & Heq & HW' & Hn & Hc & Hres).
    exists res, a'. split_and!; [done..|]. destruct res as [b|].
    + destruct Hres as (? & ? & ? & Hnone & (al & Hl & <-) & _). split_and!; [done..| |].
      * by rewrite lookup_fmap, Hnone.
      * split; [by rewrite Hl, fmap_insert|eauto].
    + destruct Hres as [Hl _]. split; [by rewrite Hl|eauto].
  - intros a L [-> [R HW]]. destruct (oba_largest_spec a R HW) as (l & Hl & Hb & _ & Hex).
    exists l. split; [done|]. split; [done|]. intros size Hs.
    destruct (Hex ltac:(lia)) as (Hfo & r & Hr & Hu & Hcl). pose proof (ow_cap _ _ HW).
    destruct (oba_allocate_spec a R size HW ltac:(lia) (round_ok_segment _ size (ow_bits _ _ HW) ltac:(lia))) as (res & a' & R' & Heq & _ & _ & _ & Hres).
    destruct res as [b|]; [by exists b, a'|].
    destruct Hres as (_ & [?|[?|[Hbig|Hno]]]); [lia|done| |].
    + pose proof (core_storage_report_spec _ _ (ow_core _ _ HW)) as (rep & Hrep & _ & _ & Hmx).
      simpl in Hl. unfold oa_storage_report in Hl. rewrite Hrep in Hl. simpl in Hl. injection Hl as Hl.
      pose proof (tiles_bounds _ _ _ r (ci_tiles _ _ (ow_core _ _ HW)) Hr) as Hbd.
      assert (class_of (r_size r) ≤ MAX_BIN_SIZE).
      { unfold class_of. change MAX_BIN_SIZE with (bin_floor 239). apply bin_floor_le.
        pose proof (ci_size _ _ (ow_core _ _ HW)) as [_ Hsz].
        pose proof (round_down_u32 (r_size r) ltac:(unfold is_u32; lia)). lia. }
      assert (0 < 2 ^ multiplier_bits (inner a)) by (apply Z.pow_pos_nonneg; pose proof (ow_bits _ _ HW); lia).
      nia.
    + specialize (Hno r Hr Hu). lia.
  - intros a L b [-> [R HW]] (al & Hsz & Hal)%lookup_fmap_Some.
    destruct (oba_deallocate_spec a R b HW) as (a' & R' & ? & HW' & ? & ? & Hl); [eauto|].
    exists a'. split_and!; [done..|]. split; [by rewrite Hl, fmap_delete|eauto].
  - intros a L offset size [-> [R HW]] Ho Hs _.
    destruct (oba_reserve_spec a R offset size HW Ho Hs) as (ok & a' & R' & ? & HW' & ? & ? & Hok).
    exists ok, a'. split_and!; [done..|]. destruct ok.
    + destruct Hok as (Hnone & (al & Hl & <-) & _). split; [by rewrite lookup_fmap, Hnone|].
      split; [by rewrite Hl, fmap_insert|eauto].
    + destruct Hok as [Hl _]. split; [by rewrite Hl|eauto].
Defined.

Lemma oba_new_inv name cap :
  0 ≤ cap ≤ MAX_SEGMENT →
  ∃ a, oba_new name cap = Some a ∧ segment_name a = name ∧ capacity a = cap ∧ ba_inv a ∅.
Proof.
  intros Hc. destruct (oba_new_spec name cap Hc) as (a & c & ? & ? & ? & Hl & HW).
  exists a. split_and!; [done..|]. split; [by rewrite Hl, fmap_empty|eauto].
Qed.
