(* ===== verification/SimpleAllocators.v ===== *)
(** * The first-fit and the binned allocator

    [FirstFitBufferAllocator] and [BinnedBufferAllocator] of
    crates/quillcache-store/src/allocator.rs.  A [BTreeMap] from offsets is a [gmap]
    with the ordered queries [min_key] and [max_key]; a [BTreeSet] is a [gset]
    iterated in increasing order.  Both keep the same free map by the same splits
    and merges, and both implement the allocator contract. *)
From S2P Require Import Prelude SmallFloat CoreAllocator CoreBins BufferAllocator.

(** ** Ordered queries *)

(** First and last entry of a [BTreeMap]. *)
Definition min_key {V} (m : gmap Z V) : option (Z * V) :=
  map_fold (λ k v acc, match acc with
                       | Some (k', v') => if k <? k' then Some (k, v) else Some (k', v')
                       | None => Some (k, v)
                       end) None m.
Definition max_key {V} (m : gmap Z V) : option (Z * V) :=
  map_fold (λ k v acc, match acc with
                       | Some (k', v') => if k' <? k then Some (k, v) else Some (k', v')
                       | None => Some (k, v)
                       end) None m.

(** [iter().find(..)], [range(..k).next_back()], [range(..=k).next_back()], [range(k..).next()]. *)
Definition first_fitting (size : Z) (m : gmap Z Z) : option (Z * Z) :=
  min_key (filter (λ kv, size ≤ kv.2) m).
Definition last_below (k : Z) (m : gmap Z Z) : option (Z * Z) :=
  max_key (filter (λ kv, kv.1 < k) m).
Definition last_upto (k : Z) (m : gmap Z Z) : option (Z * Z) :=
  max_key (filter (λ kv, kv.1 ≤ k) m).
Definition first_from (k : Z) (m : gmap Z Z) : option (Z * Z) :=
  min_key (filter (λ kv, k ≤ kv.1) m).

(** [values().copied().max().unwrap_or(0)]. *)
Definition max_value (m : gmap Z Z) : Z := map_fold (λ _ v acc, Z.max v acc) 0 m.

(** ** First fit *)

Record FirstFitBufferAllocator : Type := mkFF {
  ff_segment_name : string;
  ff_capacity : Z;
  ff_free : gmap Z Z;
  ff_allocated : Z
}.

Definition ff_new (name : string) (cap : Z) : FirstFitBufferAllocator :=
  mkFF name cap (if 0 <? cap then {[0 := cap]} else ∅) 0.

Definition ff_allocate (size : Z) (a : FirstFitBufferAllocator) : option (option AllocatedBuffer * FirstFitBufferAllocator) :=
  if size =? 0 then Some (None, a)
  else
    match first_fitting size (ff_free a) with
    | None => Some (None, a)
    | Some (offset, region_len) =>
        let free := delete offset (ff_free a) in
        free' ← (if size <? region_len then
                   o ← u64_add offset size;
                   Some (<[o := region_len - size]> free)
                 else Some free);
        al ← u64_add (ff_allocated a) size;
        Some (Some (mkBuffer (ff_segment_name a) offset size),
              mkFF (ff_segment_name a) (ff_capacity a) free' al)
    end.

(** Coalesce with the abutting region before, then with the one after. *)
Definition ff_merge_prev (start : Z) (free : gmap Z Z) : option (Z * gmap Z Z) :=
  match last_below start free with
  | Some (p_off, p_len) =>
      e ← u64_add p_off p_len;
      if e =? start then Some (p_off, delete p_off free) else Some (start, free)
  | None => Some (start, free)
  end.

Definition ff_merge_next (end_ : Z) (free : gmap Z Z) : option (Z * gmap Z Z) :=
  match first_from end_ free with
  | Some (n_off, n_len) =>
      if n_off =? end_ then e ← u64_add n_off n_len; Some (e, delete n_off free)
      else Some (end_, free)
  | None => Some (end_, free)
  end.

Definition ff_deallocate (b : AllocatedBuffer) (a : FirstFitBufferAllocator) : option FirstFitBufferAllocator :=
  end_ ← u64_add (buf_offset b) (buf_size b);
  '(start, free) ← ff_merge_prev (buf_offset b) (ff_free a);
  '(end', free') ← ff_merge_next end_ free;
  len ← u64_sub end' start;
  Some (mkFF (ff_segment_name a) (ff_capacity a) (<[start := len]> free')
          (sat_sub (ff_allocated a) (buf_size b))).

Definition ff_reserve (offset size : Z) (a : FirstFitBufferAllocator) : option (bool * FirstFitBufferAllocator) :=
  if size =? 0 then Some (false, a)
  else
    end_ ← u64_add offset size;
    match last_upto offset (ff_free a) with
    | None => Some (false, a)
    | Some (r_off, r_len) =>
        r_end ← u64_add r_off r_len;
        if end_ <=? r_end then
          let free := delete r_off (ff_free a) in
          let free := if r_off <? offset then <[r_off := offset - r_off]> free else free in
          let free := if end_ <? r_end then <[end_ := r_end - end_]> free else free in
          al ← u64_add (ff_allocated a) size;
          Some (true, mkFF (ff_segment_name a) (ff_capacity a) free al)
        else Some (false, a)
    end.

#[export] Instance ff_allocator : BufferAllocator FirstFitBufferAllocator := {|
  segment_name := ff_segment_name;
  capacity := ff_capacity;
  allocated := ff_allocated;
  allocate := ff_allocate;
  deallocate := ff_deallocate;
  largest_free_region a := Some (max_value (ff_free a));
  reserve := ff_reserve
|}.

(** ** Binned *)

Record BinnedBufferAllocator : Type := mkBinned {
  bn_segment_name : string;
  bn_capacity : Z;
  bn_allocated : Z;
  by_offset : gmap Z Z;
  bins : list (gset Z);
  bn_nonempty : Z
}.

(** [63 - size.leading_zeros()]: floor(log2 size), an underflow on 0. *)
Definition bin_of (size : Z) : option Z := if size =? 0 then None else Some (Z.log2 size).

Definition with_free (f : gmap Z Z) (bs : list (gset Z)) (ne : Z) (a : BinnedBufferAllocator) : BinnedBufferAllocator :=
  mkBinned (bn_segment_name a) (bn_capacity a) (bn_allocated a) f bs ne.
Definition with_allocated (z : Z) (a : BinnedBufferAllocator) : BinnedBufferAllocator :=
  mkBinned (bn_segment_name a) (bn_capacity a) z (by_offset a) (bins a) (bn_nonempty a).

Definition add_free (offset size : Z) (a : BinnedBufferAllocator) : option BinnedBufferAllocator :=
  if size =? 0 then Some a
  else
    b ← bin_of size;
    X ← vget (bins a) b;
    bs ← vset (bins a) b ({[offset]} ∪ X);
    Some (with_free (<[offset := size]> (by_offset a)) bs (Z.lor (bn_nonempty a) (Z.shiftl 1 b)) a).

Definition remove_free (offset : Z) (a : BinnedBufferAllocator) : option (option Z * BinnedBufferAllocator) :=
  match by_offset a !! offset with
  | None => Some (None, a)
  | Some size =>
      b ← bin_of size;
      X ← vget (bins a) b;
      let X' := X ∖ {[offset]} in
      bs ← vset (bins a) b X';
      Some (Some size,
            with_free (delete offset (by_offset a)) bs
              (if decide (X' = ∅) then Z.ldiff (bn_nonempty a) (Z.shiftl 1 b) else bn_nonempty a) a)
  end.

Definition bn_new (name : string) (cap : Z) : option BinnedBufferAllocator :=
  let a := mkBinned name cap 0 ∅ (replicate 64 ∅) 0 in
  if 0 <? cap then add_free 0 cap a else Some a.

(** A [BTreeSet] in increasing order. *)
Definition sorted_elements (X : gset Z) : list Z := merge_sort Z.le (elements X).

(** Scan of the floor bin: [self.by_offset[&offset]] panics on a missing key. *)
Fixpoint scan_bin (size : Z) (f : gmap Z Z) (l : list Z) : option (option Z) :=
  match l with
  | [] => Some None
  | offset :: l' => len ← f !! offset;
                    if size <=? len then Some (Some offset) else scan_bin size f l'
  end.

Definition trailing_zeros64 (z : Z) : Z := match z with Zpos p => pos_trailing p | _ => 64 end.

Definition choose_region (size : Z) (a : BinnedBufferAllocator) : option (option Z) :=
  floor ← bin_of size;
  chosen ← (if Z.land (Z.shiftr (bn_nonempty a) floor) 1 =? 1 then
              X ← vget (bins a) floor;
              scan_bin size (by_offset a) (sorted_elements X)
            else Some None);
  match chosen with
  | Some o => Some (Some o)
  | None =>
      let higher := if 64 <=? floor + 1 then 0
                    else Z.ldiff (bn_nonempty a) (Z.shiftl 1 (floor + 1) - 1) in
      if negb (higher =? 0) then
        X ← vget (bins a) (trailing_zeros64 higher);
        Some (head (sorted_elements X))
      else Some None
  end.

Definition bn_allocate (size : Z) (a : BinnedBufferAllocator) : option (option AllocatedBuffer * BinnedBufferAllocator) :=
  if size =? 0 then Some (None, a)
  else
    chosen ← choose_region size a;
    match chosen with
    | None => Some (None, a)
    | Some offset =>
        '(r, a1) ← remove_free offset a;
        region ← r;
        a2 ← (if size <? region then o ← u64_add offset size; add_free o (region - size) a1
              else Some a1);
        al ← u64_add (bn_allocated a2) size;
        Some (Some (mkBuffer (bn_segment_name a) offset size), with_allocated al a2)
    end.

Definition bn_merge_prev (start : Z) (a : BinnedBufferAllocator) : option (Z * BinnedBufferAllocator) :=
  match last_below start (by_offset a) with
  | Some (p_off, p_len) =>
      e ← u64_add p_off p_len;
      if e =? start then '(_, a') ← remove_free p_off a; Some (p_off, a') else Some (start, a)
  | None => Some (start, a)
  end.

Definition bn_merge_next (end_ : Z) (a : BinnedBufferAllocator) : option (Z * BinnedBufferAllocator) :=
  match first_from end_ (by_offset a) with
  | Some (n_off, n_len) =>
      if n_off =? end_ then e ← u64_add n_off n_len; '(_, a') ← remove_free n_off a; Some (e, a')
      else Some (end_, a)
  | None => Some (end_, a)
  end.

Definition bn_deallocate (b : AllocatedBuffer) (a : BinnedBufferAllocator) : option BinnedBufferAllocator :=
  end_ ← u64_add (buf_offset b) (buf_size b);
  '(start, a1) ← bn_merge_prev (buf_offset b) a;
  '(end', a2) ← bn_merge_next end_ a1;
  len ← u64_sub end' start;
  a3 ← add_free start len a2;
  Some (with_allocated (sat_sub (bn_allocated a3) (buf_size b)) a3).

Definition bn_reserve (offset size : Z) (a : BinnedBufferAllocator) : option (bool * BinnedBufferAllocator) :=
  if size =? 0 then Some (false, a)
  else
    end_ ← u64_add offset size;
    match last_upto offset (by_offset a) with
    | None => Some (false, a)
    | Some (r_off, r_len) =>
        r_end ← u64_add r_off r_len;
        if end_ <=? r_end then
          '(_, a1) ← remove_free r_off a;
          a2 ← (if r_off <? offset then add_free r_off (offset - r_off) a1 else Some a1);
          a3 ← (if end_ <? r_end then add_free end_ (r_end - end_) a2 else Some a2);
          al ← u64_add (bn_allocated a3) size;
          Some (true, with_allocated al a3)
        else Some (false, a)
    end.

#[export] Instance bn_allocator : BufferAllocator BinnedBufferAllocator := {|
  segment_name := bn_segment_name;
  capacity := bn_capacity;
  allocated := bn_allocated;
  allocate := bn_allocate;
  deallocate := bn_deallocate;
  largest_free_region a := Some (max_value (by_offset a));
  reserve := bn_reserve
|}.

(** Cross-checks against the unit tests of the source, for both allocators. *)
Definition scenario {A} `{BufferAllocator A} (a : A) : option (Z * Z * Z * Z * bool) :=
  '(r1, a) ← allocate 40 a; '(r2, a) ← allocate 40 a; l ← largest_free_region a;
  '(r3, a) ← allocate 30 a;
  b1 ← r1; b2 ← r2; a ← deallocate b2 a; a ← deallocate b1 a; l' ← largest_free_region a;
  Some (buf_offset b1, buf_offset b2, l, l', bool_decide (r3 = None)).

Example scenario_first_fit : scenario (ff_new "s" 100) = Some (0, 40, 20, 100, true).
Proof. vm_compute. reflexivity. Qed.
Example scenario_binned : (bn_new "s" 100 ≫= scenario) = Some (0, 40, 20, 100, true).
Proof. vm_compute. reflexivity. Qed.

(** ** Ordered queries, specified *)

Lemma min_key_spec {V} (m : gmap Z V) :
  match min_key m with
  | None => m = ∅
  | Some (k, v) => m !! k = Some v ∧ ∀ k' v', m !! k' = Some v' → k ≤ k'
  end.
Proof.
  unfold min_key. eapply (map_fold_weak_ind (λ acc m, match acc with
    | None => m = ∅ | Some (k, v) => m !! k = Some v ∧ ∀ k' v', m !! k' = Some v' → k ≤ k' end)); [done|].
  intros k v m' [[k0 v0]|] Hk.
  - intros [H0 Hmin]. assert (k ≠ k0) by congruence. destruct (Z.ltb_spec k k0).
    + split; [by rewrite lookup_insert_eq|]. intros k' v' [[<- _]|[_ ?%Hmin]]%lookup_insert_Some; lia.
    + split; [by rewrite lookup_insert_ne|]. intros k' v' [[<- _]|[_ ?%Hmin]]%lookup_insert_Some; lia.
  - intros ->. split; [by rewrite lookup_insert_eq|].
    intros k' v' [[<- _]|[_ ?]]%lookup_insert_Some; [lia|]. by rewrite lookup_empty in *.
Qed.

Lemma max_key_spec {V} (m : gmap Z V) :
  match max_key m with
  | None => m = ∅
  | Some (k, v) => m !! k = Some v ∧ ∀ k' v', m !! k' = Some v' → k' ≤ k
  end.
Proof.
  unfold max_key. eapply (map_fold_weak_ind (λ acc m, match acc with
    | None => m = ∅ | Some (k, v) => m !! k = Some v ∧ ∀ k' v', m !! k' = Some v' → k' ≤ k end)); [done|].
  intros k v m' [[k0 v0]|] Hk.
  - intros [H0 Hmax]. assert (k ≠ k0) by congruence. destruct (Z.ltb_spec k0 k).
    + split; [by rewrite lookup_insert_eq|]. intros k' v' [[<- _]|[_ ?%Hmax]]%lookup_insert_Some; lia.
    + split; [by rewrite lookup_insert_ne|]. intros k' v' [[<- _]|[_ ?%Hmax]]%lookup_insert_Some; lia.
  - intros ->. split; [by rewrite lookup_insert_eq|].
    intros k' v' [[<- _]|[_ ?]]%lookup_insert_Some; [lia|]. by rewrite lookup_empty in *.
Qed.

Lemma query_spec (P : Z * Z → Prop) `{!∀ x, Decision (P x)} (m : gmap Z Z) :
  (match min_key (filter P m) with
   | None => ∀ k v, m !! k = Some v → ¬ P (k, v)
   | Some (k, v) => m !! k = Some v ∧ P (k, v) ∧ ∀ k' v', m !! k' = Some v' → P (k', v') → k ≤ k'
   end) ∧
  (match max_key (filter P m) with
   | None => ∀ k v, m !! k = Some v → ¬ P (k, v)
   | Some (k, v) => m !! k = Some v ∧ P (k, v) ∧ ∀ k' v', m !! k' = Some v' → P (k', v') → k' ≤ k
   end).
Proof.
  assert (filter P m = ∅ → ∀ k v, m !! k = Some v → ¬ P (k, v)) as Hemp.
  { intros He k v Hk HP. assert (filter P m !! k = Some v) as E by (by apply map_lookup_filter_Some).
    by rewrite He, lookup_empty in E. }
  split.
  - pose proof (min_key_spec (filter P m)) as Hm. destruct (min_key (filter P m)) as [[k v]|]; [|auto].
    destruct Hm as [[? ?]%map_lookup_filter_Some Hmin]. split_and!; [done..|].
    intros k' v' ? ?. eapply Hmin. by apply map_lookup_filter_Some.
  - pose proof (max_key_spec (filter P m)) as Hm. destruct (max_key (filter P m)) as [[k v]|]; [|auto].
    destruct Hm as [[? ?]%map_lookup_filter_Some Hmax]. split_and!; [done..|].
    intros k' v' ? ?. eapply Hmax. by apply map_lookup_filter_Some.
Qed.

Lemma max_value_spec (m : gmap Z Z) :
  0 ≤ max_value m ∧ (∀ k v, m !! k = Some v → v ≤ max_value m) ∧
  (0 < max_value m → ∃ k, m !! k = Some (max_value m)).
Proof.
  unfold max_value. eapply (map_fold_weak_ind (λ acc m, 0 ≤ acc ∧ (∀ k v, m !! k = Some v → v ≤ acc) ∧
    (0 < acc → ∃ k, m !! k = Some acc))).
  - split_and!; [lia| |lia]. intros k v. by rewrite lookup_empty.
  - intros k v m' acc Hk (H0 & Hle & Hex). split_and!; [lia| |].
    + intros k' v' [[<- <-]|[_ ?%Hle]]%lookup_insert_Some; lia.
    + intros Hp. destruct (Z.max_spec v acc) as [[? ->]|[? ->]].
      * destruct Hex as [k' Hk']; [lia|]. exists k'. rewrite lookup_insert_ne by congruence. done.
      * exists k. by rewrite lookup_insert_eq.
Qed.

(** ** The free map *)

(** Free and live ranges partition the segment; no two free ranges abut. *)
Record free_inv (cap : Z) (F L : gmap Z Z) : Prop := {
  fi_cap : 0 ≤ cap ≤ MAX_SEGMENT;
  fi_free : live_ok cap F;
  fi_live : live_ok cap L;
  fi_cross : ∀ o1 z1 o2 z2, F !! o1 = Some z1 → L !! o2 = Some z2 → buffers_disjoint o1 z1 o2 z2;
  fi_coal : ∀ o z, F !! o = Some z → F !! (o + z) = None;
  fi_sum : msum F + msum L = cap
}.

Lemma live_ok_nonneg cap L : live_ok cap L → map_Forall (λ _ z, 0 ≤ z) L.
Proof. intros [HL _] o z Ho. destruct (HL _ _ Ho). lia. Qed.

(** The free map once [offset, offset + size) is cut out of the region [r_off, r_off + r_len). *)
Definition carve_map (r_off r_len offset size : Z) (F : gmap Z Z) : gmap Z Z :=
  let F := delete r_off F in
  let F := if r_off <? offset then <[r_off := offset - r_off]> F else F in
  if offset + size <? r_off + r_len then <[offset + size := r_off + r_len - (offset + size)]> F else F.

Lemma carve_lookup r_off r_len offset size F o z :
  0 < size → r_off ≤ offset → carve_map r_off r_len offset size F !! o = Some z →
  (F !! o = Some z ∧ o ≠ r_off) ∨ (o = r_off ∧ z = offset - r_off ∧ 0 < z) ∨
  (o = offset + size ∧ z = r_off + r_len - (offset + size) ∧ 0 < z).
Proof.
  intros Hs Ho. unfold carve_map.
  destruct (Z.ltb_spec r_off offset), (Z.ltb_spec (offset + size) (r_off + r_len));
    rewrite ?lookup_insert_Some, ?lookup_delete_Some; naive_solver lia.
Qed.

Lemma carve_msum cap r_off r_len offset size F :
  live_ok cap F → F !! r_off = Some r_len → 0 < size → r_off ≤ offset → offset + size ≤ r_off + r_len →
  msum (carve_map r_off r_len offset size F) = msum F - size.
Proof.
  intros [HF Hd] Hr Hs Ho He. rewrite (msum_delete F r_off r_len Hr). unfold carve_map.
  assert (∀ o, r_off < o < r_off + r_len → F !! o = None) as Hin.
  { intros o Hb. destruct (F !! o) as [z|] eqn:E; [|done]. destruct (HF _ _ E).
    destruct (Hd _ _ _ _ E Hr ltac:(lia)); lia. }
  destruct (Z.ltb_spec r_off offset), (Z.ltb_spec (offset + size) (r_off + r_len));
    rewrite ?msum_insert; rewrite ?lookup_insert_ne, ?lookup_delete_ne, ?lookup_delete_eq by lia;
    first [lia | by apply Hin; lia | done | idtac].
Qed.

Ltac range_facts :=
  repeat match goal with
  | HF : live_ok ?cap ?F, E : ?F !! ?o = Some ?z |- _ =>
      lazymatch goal with
      | _ : 0 ≤ o ∧ 0 < z ∧ o + z ≤ cap |- _ => fail
      | _ => pose proof (proj1 HF _ _ E)
      end
  end.

Lemma free_carve cap F L r_off r_len offset size :
  free_inv cap F L → F !! r_off = Some r_len → 0 < size → r_off ≤ offset → offset + size ≤ r_off + r_len →
  L !! offset = None ∧ free_inv cap (carve_map r_off r_len offset size F) (<[offset := size]> L).
Proof.
  intros [Hc HF HL Hx Hcoal Hsum] Hr Hs Ho He.
  assert (L !! offset = None) as Hnone.
  { destruct (L !! offset) as [z|] eqn:E; [|done]. range_facts. destruct (Hx _ _ _ _ Hr E); lia. }
  split; [done|]. pose proof (proj1 HF _ _ Hr) as Hrb.
  assert (∀ o z, F !! o = Some z → o ≠ r_off → buffers_disjoint r_off r_len o z) as Hrd.
  { intros o z Eo Hne. by apply (proj2 HF). }
  constructor; [done|split|split|..].
  - intros o z [[Eo _]|[(-> & -> & ?)|(-> & -> & ?)]]%carve_lookup; [|lia..|done|done]. by apply HF.
  - intros o1 z1 o2 z2 C1%carve_lookup C2%carve_lookup Hne; [|done..]. unfold buffers_disjoint in *.
    destruct C1 as [[E1 N1]|[(-> & -> & ?)|(-> & -> & ?)]], C2 as [[E2 N2]|[(-> & -> & ?)|(-> & -> & ?)]];
      try lia; [by apply (proj2 HF)|..];
      repeat match goal with E : F !! ?o = Some ?z, N : ?o ≠ r_off |- _ => pose proof (Hrd _ _ E N); clear N end; range_facts; lia.
  - intros o z [[<- <-]|[_ Eo]]%lookup_insert_Some; [lia|]. by apply HL.
  - intros o1 z1 o2 z2 [[<- <-]|[N1 E1]]%lookup_insert_Some [[<- <-]|[N2 E2]]%lookup_insert_Some Hne;
      [done|..|by apply (proj2 HL)]; unfold buffers_disjoint in *.
    + pose proof (Hx _ _ _ _ Hr E2). range_facts. lia.
    + pose proof (Hx _ _ _ _ Hr E1). range_facts. lia.
  - intros o1 z1 o2 z2 C1%carve_lookup C2%lookup_insert_Some; [|done..]. unfold buffers_disjoint in *.
    destruct C1 as [[E1 N1]|[(-> & -> & ?)|(-> & -> & ?)]], C2 as [[<- <-]|[N2 E2]]; try lia; range_facts;
      try (pose proof (Hx _ _ _ _ Hr E2)); try (pose proof (Hrd _ _ E1 N1)); try (pose proof (Hx _ _ _ _ E1 E2)); lia.
  - intros o z C1%carve_lookup; [|done..].
    destruct (carve_map _ _ _ _ _ !! (o + z)) as [w|] eqn:E; [|done]. exfalso.
    apply carve_lookup in E; [|done..].
    destruct C1 as [[E1 N1]|[(-> & -> & ?)|(-> & -> & ?)]]; range_facts;
      destruct E as [[E2 N2]|[(E2 & -> & ?)|(E2 & -> & ?)]]; range_facts; try lia.
    + by rewrite (Hcoal _ _ E1) in E2.
    + rewrite E2 in *. pose proof (Hcoal _ _ E1). congruence.
    + pose proof (Hrd _ _ E1 N1) as [?|?]; lia.
    + pose proof (Hrd _ _ E2 N2) as [?|?]; lia.
    + replace (offset + size + (r_off + r_len - (offset + size))) with (r_off + r_len) in E2 by lia.
      rewrite (Hcoal _ _ Hr) in E2. done.
  - rewrite (carve_msum cap), msum_insert by done. lia.
Qed.

(** What merging with the region before (after) a range does to the free map. *)
Definition merged_prev (F : gmap Z Z) (o start : Z) (F1 : gmap Z Z) : Prop :=
  (start = o ∧ F1 = F ∧ ∀ p l, F !! p = Some l → p + l ≠ o) ∨
  (∃ l, F !! start = Some l ∧ start + l = o ∧ F1 = delete start F).
Definition merged_next (F : gmap Z Z) (e end' : Z) (F2 : gmap Z Z) : Prop :=
  (end' = e ∧ F2 = F ∧ F !! e = None) ∨
  (∃ l, F !! e = Some l ∧ end' = e + l ∧ F2 = delete e F).

Lemma last_below_spec k F :
  match last_below k F with
  | None => ∀ p l, F !! p = Some l → k ≤ p
  | Some (p, l) => F !! p = Some l ∧ p < k ∧ ∀ p' l', F !! p' = Some l' → p' < k → p' ≤ p
  end.
Proof.
  pose proof (proj2 (query_spec (λ kv, kv.1 < k) F)) as Hq. unfold last_below.
  destruct (max_key _) as [[p l]|]; [exact Hq|]. intros p l Hp. specialize (Hq p l Hp). simpl in Hq. lia.
Qed.

Lemma first_from_spec k F :
  match first_from k F with
  | None => ∀ p l, F !! p = Some l → p < k
  | Some (p, l) => F !! p = Some l ∧ k ≤ p ∧ ∀ p' l', F !! p' = Some l' → k ≤ p' → p ≤ p'
  end.
Proof.
  pose proof (proj1 (query_spec (λ kv, k ≤ kv.1) F)) as Hq. unfold first_from.
  destruct (min_key _) as [[p l]|]; [exact Hq|]. intros p l Hp. specialize (Hq p l Hp). simpl in Hq. lia.
Qed.

Lemma merge_prev_decide cap F o :
  live_ok cap F → cap ≤ MAX_SEGMENT →
  match last_below o F with
  | Some (p, l) => u64_add p l = Some (p + l) ∧ F !! p = Some l ∧
      (p + l = o → merged_prev F o p (delete p F)) ∧ (p + l ≠ o → merged_prev F o o F)
  | None => merged_prev F o o F
  end.
Proof.
  intros HF Hc. pose proof (last_below_spec o F) as Hq. destruct (last_below o F) as [[p l]|].
  - destruct Hq as (Hp & Hlt & Hmax). range_facts. split_and!; [|done|..].
    + apply u64_add_ok. unfold MAX_SEGMENT, u64_max in *. lia.
    + intros He. right. by exists l.
    + intros Hne. left. split_and!; [done..|]. intros p' l' Hp' He. range_facts.
      destruct (decide (p' = p)) as [->|Hpp]; [congruence|].
      specialize (Hmax _ _ Hp' ltac:(lia)). destruct (proj2 HF _ _ _ _ Hp Hp' ltac:(lia)); lia.
  - left. split_and!; [done..|]. intros p l Hp. specialize (Hq _ _ Hp). range_facts. lia.
Qed.

Lemma merge_next_decide cap F e :
  live_ok cap F → cap ≤ MAX_SEGMENT →
  match first_from e F with
  | Some (n, l) => u64_add n l = Some (n + l) ∧ F !! n = Some l ∧
      (n = e → merged_next F e (n + l) (delete n F)) ∧ (n ≠ e → merged_next F e e F)
  | None => merged_next F e e F
  end.
Proof.
  intros HF Hc. pose proof (first_from_spec e F) as Hq. destruct (first_from e F) as [[n l]|].
  - destruct Hq as (Hn & Hle & Hmin). range_facts. split_and!; [|done|..].
    + apply u64_add_ok. unfold MAX_SEGMENT, u64_max in *. lia.
    + intros ->. right. by exists l.
    + intros Hne. left. split_and!; [done..|]. destruct (F !! e) as [w|] eqn:E; [|done].
      specialize (Hmin _ _ E ltac:(lia)). lia.
  - left. split_and!; [done..|]. destruct (F !! e) as [w|] eqn:E; [|done]. specialize (Hq _ _ E). lia.
Qed.

Lemma live_ok_delete cap L k : live_ok cap L → live_ok cap (delete k L).
Proof.
  intros [H1 H2]. split.
  - intros o z [_ ?]%lookup_delete_Some. by apply H1.
  - intros o1 z1 o2 z2 [_ ?]%lookup_delete_Some [_ ?]%lookup_delete_Some. by apply H2.
Qed.

Lemma live_ok_insert cap F o z :
  live_ok cap F → 0 ≤ o → 0 < z → o + z ≤ cap →
  (∀ x w, F !! x = Some w → x ≠ o → buffers_disjoint o z x w) → live_ok cap (<[o := z]> F).
Proof.
  intros [H1 H2] ? ? ? Hd. split.
  - intros x w [[<- <-]|[_ ?]]%lookup_insert_Some; [done|by apply H1].
  - intros x1 w1 x2 w2 [[<- <-]|[N1 E1]]%lookup_insert_Some [[<- <-]|[N2 E2]]%lookup_insert_Some Hne; [done|..].
    + by apply Hd.
    + destruct (Hd _ _ E1); [done|by right|by left].
    + by apply H2.
Qed.

Lemma free_give cap F L o z start F1 end' F2 :
  free_inv cap F L → L !! o = Some z → merged_prev F o start F1 → merged_next F1 (o + z) end' F2 →
  0 ≤ start < end' ∧ end' ≤ cap ∧ F2 !! start = None ∧
  free_inv cap (<[start := end' - start]> F2) (delete o L).
Proof.
  intros [Hc HF HL Hx Hcoal Hsum] Ho Hp Hn. pose proof (proj1 HL _ _ Ho) as Hob.
  assert (live_ok cap F1 ∧ (∀ x w, F1 !! x = Some w → F !! x = Some w)) as [HF1 Hsub1].
  { destruct Hp as [(-> & -> & _)|(l & _ & _ & ->)]; [done|]. split; [by apply live_ok_delete|].
    by intros x w [_ ?]%lookup_delete_Some. }
  assert (live_ok cap F2 ∧ (∀ x w, F2 !! x = Some w → F !! x = Some w ∧ x ≠ o + z)) as [HF2 Hsub2].
  { destruct Hn as [(-> & -> & Hne)|(l & Hl & -> & ->)].
    - split; [done|]. intros x w E. split; [auto|congruence].
    - split; [by apply live_ok_delete|]. intros x w [? ?]%lookup_delete_Some. split; [auto|done]. }
  assert (0 ≤ start ≤ o ∧ (∀ x w, F2 !! x = Some w → x ≠ start ∧ x + w ≠ start ∧ (x + w ≤ start ∨ o + z ≤ x))) as [Hs Hbefore].
  { destruct Hp as [(-> & -> & Hno)|(l & Hl & He & ->)].
    - split; [lia|]. intros x w [E Hne]%Hsub2. range_facts. specialize (Hno _ _ E).
      destruct (Hx _ _ _ _ E Ho); lia.
    - range_facts. split; [lia|]. intros x w E2. pose proof (Hsub2 _ _ E2) as [E Hne].
      assert (x ≠ start) as Hxs.
      { intros ->. destruct Hn as [(_ & -> & _)|(l' & _ & _ & ->)]; simplify_map_eq. }
      range_facts. pose proof (Hcoal _ _ E) as Hco.
      split_and!; [done|intros Ex; rewrite Ex in Hco; congruence|].
      destruct (Hx _ _ _ _ E Ho), (proj2 HF _ _ _ _ E Hl Hxs); lia. }
  assert (o + z ≤ end' ≤ cap ∧ (∀ x w, F2 !! x = Some w → x ≠ end' ∧ (x + w ≤ start ∨ end' ≤ x)) ∧
          msum F2 + (end' - start) = msum F + z) as (He & Hafter & Hms).
  { assert (msum F1 + (o - start) = msum F) as Hms1.
    { destruct Hp as [(-> & -> & _)|(l & Hl & Hll & ->)]; [lia|]. rewrite (msum_delete F _ _ Hl). lia. }
    destruct Hn as [(-> & -> & Hne)|(l & Hl & -> & ->)].
    - split; [lia|]. split; [|lia]. intros x w E. destruct (Hbefore _ _ E) as (_ & _ & ?).
      split; [congruence|done].
    - pose proof (Hsub1 _ _ Hl) as HlF. range_facts. split; [lia|]. split.
      + intros x w E. pose proof (Hsub2 _ _ E) as [EF Hne]. destruct (Hbefore _ _ E) as (_ & _ & Hb). range_facts.
        split; [|destruct (proj2 HF _ _ _ _ EF HlF Hne); lia].
        intros ->. by rewrite (Hcoal _ _ HlF) in EF.
      + rewrite (msum_delete F1 _ _ Hl) in Hms1. lia. }
  assert (F2 !! start = None) as Hnone.
  { destruct (F2 !! start) eqn:E; [|done]. by destruct (Hbefore _ _ E). }
  split; [lia|]. split; [lia|]. split; [done|]. constructor.
  - done.
  - apply live_ok_insert; [done|lia..|]. intros x w E _. unfold buffers_disjoint. destruct (Hafter _ _ E). lia.
  - by apply live_ok_delete.
  - intros o1 z1 o2 z2 E1 [N2 E2]%lookup_delete_Some.
    pose proof (proj2 HL _ _ _ _ Ho E2 N2) as Hd0.
    apply lookup_insert_Some in E1 as [[<- <-]|[_ E1]]; [|by eapply Hx; [apply Hsub2|]].
    unfold buffers_disjoint in *. range_facts.
    destruct Hp as [(-> & -> & _)|(l & Hl & Hll & ->)].
    + destruct Hn as [(-> & -> & _)|(l' & Hl' & -> & ->)]; [lia|]. pose proof (Hx _ _ _ _ Hl' E2) as Hd1.
      unfold buffers_disjoint in Hd1. lia.
    + pose proof (Hx _ _ _ _ Hl E2) as Hd1. unfold buffers_disjoint in Hd1.
      destruct Hn as [(-> & -> & _)|(l' & Hl' & -> & ->)]; [lia|].
      pose proof (Hx _ _ _ _ (Hsub1 _ _ Hl') E2) as Hd2. unfold buffers_disjoint in Hd2. lia.
  - intros x w [[<- <-]|[Nx Ex]]%lookup_insert_Some.
    + replace (start + (end' - start)) with end' by lia. rewrite lookup_insert_ne by lia.
      destruct (F2 !! end') eqn:E; [|done]. by destruct (Hafter _ _ E).
    + destruct (Hbefore _ _ Ex) as (_ & ? & _). rewrite lookup_insert_ne by done.
      destruct (F2 !! (x + w)) as [w'|] eqn:E; [|done].
      apply Hsub2 in Ex as [Ex _], E as [E _]. by rewrite (Hcoal _ _ Ex) in E.
  - rewrite msum_insert by done. rewrite (msum_delete L _ _ Ho) in Hsum. lia.
Qed.

(** ** First fit meets the contract *)

Definition ff_inv (a : FirstFitBufferAllocator) (L : gmap Z Z) : Prop :=
  free_inv (ff_capacity a) (ff_free a) L ∧ ff_allocated a = msum L.

Lemma free_inv_sums cap F L : free_inv cap F L → 0 ≤ msum L ≤ cap ∧ 0 ≤ msum F ≤ cap.
Proof.
  intros [? HF HL _ _ ?]. pose proof (msum_nonneg _ (live_ok_nonneg _ _ HF)).
  pose proof (msum_nonneg _ (live_ok_nonneg _ _ HL)). lia.
Qed.

Lemma allocated_add cap F L al size :
  free_inv cap F (<[al := size]> L) → L !! al = None → u64_add (msum L) size = Some (msum (<[al := size]> L)).
Proof.
  intros HI Hn. pose proof (free_inv_sums _ _ _ HI) as [Hs _]. pose proof (fi_cap _ _ _ HI).
  rewrite msum_insert in * by done. rewrite u64_add_ok by (unfold MAX_SEGMENT, u64_max in *; lia). f_equal. lia.
Qed.

Lemma allocated_sub cap F L o z :
  free_inv cap F L → L !! o = Some z → sat_sub (msum L) z = msum (delete o L).
Proof.
  intros HI Ho. pose proof (fi_live _ _ _ HI) as HL. rewrite (msum_delete L _ _ Ho). unfold sat_sub.
  pose proof (msum_nonneg _ (live_ok_nonneg _ _ (live_ok_delete _ _ o HL))). lia.
Qed.

(** The remainder an allocation leaves is a carve at the region's start. *)
Lemma take_carve o len size F :
  0 < size → size ≤ len →
  (if size <? len then <[o + size := len - size]> (delete o F) else delete o F) = carve_map o len o size F.
Proof.
  intros. unfold carve_map. rewrite Z.ltb_irrefl.
  destruct (Z.ltb_spec size len), (Z.ltb_spec (o + size) (o + len)); try lia; [|done].
  by replace (o + len - (o + size)) with (len - size) by lia.
Qed.

Lemma ff_allocate_spec a L size :
  ff_inv a L → 0 ≤ size → 
  (ff_allocate size a = Some (None, a) ∧ (size = 0 ∨ ∀ o z, ff_free a !! o = Some z → z < size)) ∨
  (∃ o a', ff_allocate size a = Some (Some (mkBuffer (ff_segment_name a) o size), a') ∧ 0 < size ∧
     ff_segment_name a' = ff_segment_name a ∧ ff_capacity a' = ff_capacity a ∧
     L !! o = None ∧ ff_inv a' (<[o := size]> L)).
Proof.
  intros [HI Hal] Hs. unfold ff_allocate. destruct (Z.eqb_spec size 0) as [->|Hne]; [left; by auto|].
  pose proof (proj1 (query_spec (λ kv, size ≤ kv.2) (ff_free a))) as Hq. fold (first_fitting size (ff_free a)) in Hq.
  destruct (first_fitting size (ff_free a)) as [[o len]|].
  2:{ left. split; [done|right]. intros o z Ho. specialize (Hq _ _ Ho). simpl in Hq. lia. }
  destruct Hq as (Ho & Hle & _). simpl in Hle. right. pose proof (proj1 (fi_free _ _ _ HI) _ _ Ho).
  pose proof (fi_cap _ _ _ HI).
  destruct (free_carve _ _ _ o len o size HI Ho) as [Hn HI']; [lia..|].
  assert ((if size <? len then o0 ← u64_add o size; Some (<[o0 := len - size]> (delete o (ff_free a)))
           else Some (delete o (ff_free a))) = Some (carve_map o len o size (ff_free a))) as ->.
  { rewrite <- take_carve by lia. destruct (size <? len); [|done].
    rewrite u64_add_ok by (unfold MAX_SEGMENT, u64_max in *; lia). done. }
  cbn [mbind option_bind]. rewrite Hal, (allocated_add _ _ _ o size HI' Hn). cbn [mbind option_bind].
  eexists _, _. split; [done|]. simpl. split_and!; try done. lia.
Qed.

Lemma ff_merge_prev_spec cap F o :
  live_ok cap F → cap ≤ MAX_SEGMENT →
  ∃ start F1, ff_merge_prev o F = Some (start, F1) ∧ merged_prev F o start F1.
Proof.
  intros HF Hc. pose proof (merge_prev_decide cap F o HF Hc) as Hd. unfold ff_merge_prev.
  destruct (last_below o F) as [[p l]|]; [|eauto]. destruct Hd as (-> & _ & Hy & Hn). cbn [mbind option_bind].
  destruct (Z.eqb_spec (p + l) o); eauto.
Qed.

Lemma ff_merge_next_spec cap F e :
  live_ok cap F → cap ≤ MAX_SEGMENT →
  ∃ end' F2, ff_merge_next e F = Some (end', F2) ∧ merged_next F e end' F2.
Proof.
  intros HF Hc. pose proof (merge_next_decide cap F e HF Hc) as Hd. unfold ff_merge_next.
  destruct (first_from e F) as [[n l]|]; [|eauto]. destruct Hd as (-> & _ & Hy & Hn).
  destruct (Z.eqb_spec n e); cbn [mbind option_bind]; eauto.
Qed.

Lemma merged_prev_ok cap F o start F1 : live_ok cap F → merged_prev F o start F1 → live_ok cap F1.
Proof. intros HF [(_ & -> & _)|(l & _ & _ & ->)]; [done|by apply live_ok_delete]. Qed.

Lemma ff_deallocate_spec a L b :
  ff_inv a L → L !! buf_offset b = Some (buf_size b) →
  ∃ a', ff_deallocate b a = Some a' ∧ ff_segment_name a' = ff_segment_name a ∧
    ff_capacity a' = ff_capacity a ∧ ff_inv a' (delete (buf_offset b) L).
Proof.
  intros [HI Hal] Ho. pose proof (proj1 (fi_live _ _ _ HI) _ _ Ho). pose proof (fi_cap _ _ _ HI).
  pose proof (fi_free _ _ _ HI) as HF. unfold ff_deallocate.
  rewrite u64_add_ok by (unfold MAX_SEGMENT, u64_max in *; lia). cbn [mbind option_bind].
  destruct (ff_merge_prev_spec _ _ (buf_offset b) HF) as (st & F1 & -> & Hp); [lia|]. cbn [mbind option_bind].
  pose proof (merged_prev_ok _ _ _ _ _ HF Hp) as HF1.
  destruct (ff_merge_next_spec _ _ (buf_offset b + buf_size b) HF1) as (en & F2 & -> & Hn); [lia|].
  cbn [mbind option_bind]. destruct (free_give _ _ _ _ _ _ _ _ _ HI Ho Hp Hn) as (? & ? & _ & HI').
  rewrite u64_sub_ok by lia. cbn [mbind option_bind]. eexists. split; [done|]. split_and!; [done..|].
  split; [done|]. simpl. rewrite Hal. by eapply allocated_sub.
Qed.

(** Reserving fails exactly when no free region contains the range. *)
Lemma last_upto_spec k F :
  match last_upto k F with
  | None => ∀ p l, F !! p = Some l → k < p
  | Some (p, l) => F !! p = Some l ∧ p ≤ k ∧ ∀ p' l', F !! p' = Some l' → p' ≤ k → p' ≤ p
  end.
Proof.
  pose proof (proj2 (query_spec (λ kv, kv.1 ≤ k) F)) as Hq. unfold last_upto.
  destruct (max_key _) as [[p l]|]; [exact Hq|]. intros p l Hp. specialize (Hq p l Hp). simpl in Hq. lia.
Qed.

Lemma ff_reserve_spec a L offset size :
  ff_inv a L → 0 ≤ offset → 0 ≤ size → offset + size ≤ u64_max →
  (ff_reserve offset size a = Some (false, a) ∧
     (size = 0 ∨ ∀ o z, ff_free a !! o = Some z → ¬ (o ≤ offset ∧ offset + size ≤ o + z))) ∨
  (∃ a', ff_reserve offset size a = Some (true, a') ∧ 0 < size ∧
     ff_segment_name a' = ff_segment_name a ∧ ff_capacity a' = ff_capacity a ∧
     L !! offset = None ∧ ff_inv a' (<[offset := size]> L)).
Proof.
  intros [HI Hal] Ho Hs Hmax. pose proof (fi_cap _ _ _ HI). pose proof (fi_free _ _ _ HI) as HF.
  unfold ff_reserve. destruct (Z.eqb_spec size 0) as [->|Hne]; [left; by auto|].
  rewrite (u64_add_ok offset size) by lia. cbn [mbind option_bind].
  pose proof (last_upto_spec offset (ff_free a)) as Hq. destruct (last_upto offset (ff_free a)) as [[p l]|].
  2:{ left. split; [done|right]. intros o z Eo. specialize (Hq _ _ Eo). lia. }
  destruct Hq as (Ep & Hle & Hm). range_facts.
  rewrite (u64_add_ok p l) by (unfold MAX_SEGMENT, u64_max in *; lia). cbn [mbind option_bind].
  destruct (Z.leb_spec (offset + size) (p + l)).
  2:{ left. split; [done|right]. intros o z Eo [? ?]. specialize (Hm _ _ Eo ltac:(lia)). range_facts.
      destruct (decide (o = p)) as [->|Hop]; [simplify_eq; lia|]. destruct (proj2 HF _ _ _ _ Ep Eo ltac:(done)); lia. }
  right. destruct (free_carve _ _ _ p l offset size HI Ep) as [Hn HI']; [lia..|].
  fold (carve_map p l offset size (ff_free a)).
  rewrite Hal, (allocated_add _ _ _ offset size HI' Hn). cbn [mbind option_bind].
  eexists. split; [done|]. simpl. split_and!; try done. lia.
Qed.

#[export] Instance ff_laws : AllocatorLaws FirstFitBufferAllocator.
Proof.
  refine {| ba_inv := ff_inv |}.
  - intros a L [HI _]. apply HI.
  - intros a L [HI _]. apply HI.
  - intros a L [HI Hal]. split; [done|]. pose proof (free_inv_sums _ _ _ HI). simpl. lia.
  - intros a L size HI Hs. cbn [allocate ff_allocator]. destruct (ff_allocate_spec a L size HI) as [[-> _]|(o & a' & -> & ? & ? & ? & ? & ?)]; [lia|..].
    + by exists None, a.
    + eexists _, a'. done.
  - intros a L HI. exists (max_value (ff_free a)). split; [done|].
    destruct (max_value_spec (ff_free a)) as (H0 & Hle & Hex). destruct HI as [HI Hal].
    pose proof (fi_cap _ _ _ HI). split.
    + split; [done|]. destruct (decide (0 < max_value (ff_free a))) as [Hp|]; [|simpl; lia].
      destruct (Hex Hp) as [k Hk]. pose proof (proj1 (fi_free _ _ _ HI) _ _ Hk). simpl. lia.
    + intros size Hs. destruct (ff_allocate_spec a L size (conj HI Hal)) as [[_ [?|Hno]]|(o & a' & ? & _)]; [lia..| |eauto].
      destruct (Hex ltac:(lia)) as [k Hk]. specialize (Hno _ _ Hk). lia.
  - intros a L b HI Ho. by apply ff_deallocate_spec.
  - intros a L offset size HI Ho Hs Hm. cbn [reserve ff_allocator].
    destruct (ff_reserve_spec a L offset size HI Ho Hs Hm) as [[-> _]|(a' & -> & ? & ? & ? & ? & ?)].
    + by exists false, a.
    + by exists true, a'.
Defined.

(** ** The bins index the free map *)

Record binned_ok (a : BinnedBufferAllocator) : Prop := {
  bo_len : length (bins a) = 64%nat;
  bo_mask : 0 ≤ bn_nonempty a < 2 ^ 64;
  bo_bin : ∀ b, 0 ≤ b < 64 → ∃ X, vget (bins a) b = Some X ∧
    (∀ o, o ∈ X ↔ ∃ z, by_offset a !! o = Some z ∧ Z.log2 z = b) ∧
    Z.testbit (bn_nonempty a) b = bool_decide (X ≠ ∅)
}.

(** Everything but the free index is unchanged. *)
Definition same_meta (a a' : BinnedBufferAllocator) : Prop :=
  bn_segment_name a' = bn_segment_name a ∧ bn_capacity a' = bn_capacity a ∧ bn_allocated a' = bn_allocated a.

Lemma bin_of_bounds z : 0 < z ≤ MAX_SEGMENT → bin_of z = Some (Z.log2 z) ∧ 0 ≤ Z.log2 z < 64.
Proof.
  intros Hz. unfold bin_of. destruct (Z.eqb_spec z 0); [lia|]. split; [done|]. split; [apply Z.log2_nonneg|].
  apply Z.log2_lt_pow2; [lia|]. unfold MAX_SEGMENT in Hz. change (2 ^ 64) with 18446744073709551616. lia.
Qed.

Lemma add_free_spec a o z :
  binned_ok a → by_offset a !! o = None → 0 < z ≤ MAX_SEGMENT →
  ∃ a', add_free o z a = Some a' ∧ by_offset a' = <[o := z]> (by_offset a) ∧ binned_ok a' ∧ same_meta a a'.
Proof.
  intros [Hlen Hm Hb] Hn Hz. destruct (bin_of_bounds z Hz) as [Hbo Hlt].
  unfold add_free. destruct (Z.eqb_spec z 0); [lia|]. rewrite Hbo. cbn [mbind option_bind].
  destruct (Hb _ Hlt) as (X & HX & Hin & Hbit). rewrite HX. cbn [mbind option_bind].
  rewrite (proj2 (vset_Some _ _ _ _)) by (split; [rewrite Hlen; lia|done]). cbn [mbind option_bind].
  eexists. split; [done|]. simpl. split; [done|]. split; [|done]. constructor; simpl.
  - by rewrite length_insert.
  - pose proof (lor_bit_bounds (bn_nonempty a) (Z.log2 z) 64 Hlt Hm). lia.
  - intros b Hbr. rewrite vget_insert by (rewrite Hlen; lia). rewrite Z.lor_spec, pow2_testbit by lia.
    destruct (decide (Z.log2 z = b)) as [Hd|Hd].
    + subst b. eexists. split; [done|]. split.
      * intros o'. rewrite elem_of_union, elem_of_singleton, Hin. setoid_rewrite lookup_insert_Some.
        split; [intros [->|(z' & ? & ?)]|intros (z' & [[-> ->]|[? ?]] & ?)]; [by eauto|..|by auto|by eauto].
        exists z'. split; [|done]. right. split; [congruence|done].
      * rewrite (bool_decide_eq_true_2 (Z.log2 z = _)), orb_true_r by done.
        symmetry. apply bool_decide_eq_true_2. set_solver.
    + destruct (Hb b Hbr) as (Y & HY & HinY & HbitY). exists Y. split; [done|]. split.
      * intros o'. rewrite HinY. setoid_rewrite lookup_insert_Some.
        split; [intros (z' & ? & ?)|intros (z' & [[-> ->]|[? ?]] & ?)]; [|done|by eauto].
        exists z'. split; [|done]. right. split; [congruence|done].
      * rewrite (bool_decide_eq_false_2 (b = _)), orb_false_r by done. done.
Qed.

Lemma remove_free_spec a o z :
  binned_ok a → by_offset a !! o = Some z → 0 < z ≤ MAX_SEGMENT →
  ∃ a', remove_free o a = Some (Some z, a') ∧ by_offset a' = delete o (by_offset a) ∧ binned_ok a' ∧ same_meta a a'.
Proof.
  intros [Hlen Hm Hb] Ho Hz. destruct (bin_of_bounds z Hz) as [Hbo Hlt].
  unfold remove_free. rewrite Ho, Hbo. cbn [mbind option_bind].
  destruct (Hb _ Hlt) as (X & HX & Hin & Hbit). rewrite HX. cbn [mbind option_bind].
  rewrite (proj2 (vset_Some _ _ _ _)) by (split; [rewrite Hlen; lia|done]). cbn [mbind option_bind].
  eexists. split; [done|]. simpl. split; [done|]. split; [|done]. constructor; simpl.
  - by rewrite length_insert.
  - destruct (decide (X ∖ {[o]} = ∅)); [by apply ldiff_bounds|done].
  - intros b Hbr. rewrite vget_insert by (rewrite Hlen; lia). destruct (decide (Z.log2 z = b)) as [Hd|Hd].
    + subst b. eexists. split; [done|]. split.
      * intros o'. rewrite elem_of_difference, elem_of_singleton, Hin. setoid_rewrite lookup_delete_Some.
        naive_solver.
      * destruct (decide (X ∖ {[o]} = ∅)) as [He|He].
        -- rewrite Z.ldiff_spec, pow2_testbit, (bool_decide_eq_true_2 (Z.log2 z = _)), andb_false_r by lia.
           symmetry. apply bool_decide_eq_false_2. naive_solver.
        -- rewrite Hbit. rewrite !bool_decide_eq_true_2; [done|done|]. intros ->. set_solver.
    + destruct (Hb b Hbr) as (Y & HY & HinY & HbitY). exists Y. split; [done|]. split.
      * intros o'. rewrite HinY. setoid_rewrite lookup_delete_Some. naive_solver.
      * destruct (decide (X ∖ {[o]} = ∅)); [|done]. rewrite Z.ldiff_spec, pow2_testbit, (bool_decide_eq_false_2 (b = _)), andb_true_r by (done || lia).
        done.
Qed.

Lemma elem_of_sorted_elements X o : o ∈ sorted_elements X ↔ o ∈ X.
Proof. unfold sorted_elements. rewrite merge_sort_Permutation. apply elem_of_elements. Qed.

Lemma scan_bin_spec size f l :
  (∀ o, o ∈ l → is_Some (f !! o)) →
  ∃ c, scan_bin size f l = Some c ∧
    match c with
    | None => ∀ o z, o ∈ l → f !! o = Some z → z < size
    | Some o => o ∈ l ∧ ∃ z, f !! o = Some z ∧ size ≤ z
    end.
Proof.
  induction l as [|o l IH]; intros Hl; simpl.
  { exists None. split; [done|]. set_solver. }
  destruct (Hl o) as [z Hz]; [set_solver|]. rewrite Hz. cbn [mbind option_bind].
  destruct (Z.leb_spec size z).
  - exists (Some o). split; [done|]. split; [set_solver|eauto].
  - destruct IH as (c & -> & Hc); [set_solver|]. exists c. split; [done|].
    destruct c as [o'|].
    + destruct Hc. split; [set_solver|done].
    + intros o' z' [->|?]%elem_of_cons ?; [congruence|eauto].
Qed.

(** The chosen region fits; none is chosen only if none fits. *)
Lemma choose_region_spec a cap L size :
  binned_ok a → free_inv cap (by_offset a) L → 0 < size ≤ MAX_SEGMENT →
  ∃ c, choose_region size a = Some c ∧
    match c with
    | None => ∀ o z, by_offset a !! o = Some z → z < size
    | Some o => ∃ z, by_offset a !! o = Some z ∧ size ≤ z
    end.
Proof.
  intros [Hlen Hm Hb] HI Hs. destruct (bin_of_bounds size Hs) as [Hbo Hlt]. unfold choose_region.
  rewrite Hbo. cbn [mbind option_bind]. set (fl := Z.log2 size) in *.
  destruct (Hb fl Hlt) as (X & HX & Hin & Hbit).
  assert (∃ c, (if Z.land (Z.shiftr (bn_nonempty a) fl) 1 =? 1
                then X0 ← vget (bins a) fl; scan_bin size (by_offset a) (sorted_elements X0) else Some None) = Some c ∧
    match c with
    | None => ∀ o z, by_offset a !! o = Some z → Z.log2 z = fl → z < size
    | Some o => ∃ z, by_offset a !! o = Some z ∧ size ≤ z
    end) as (c & -> & Hc).
  { change 1 with (Z.ones 1) at 1. rewrite Z.land_ones, Z.shiftr_div_pow2 by lia. change (2 ^ 1) with 2.
    rewrite <- Z.testbit_spec' in * by lia. rewrite Hbit. case_bool_decide as HXe; simpl.
    - rewrite HX. cbn [mbind option_bind].
      destruct (scan_bin_spec size (by_offset a) (sorted_elements X)) as (c & -> & Hc).
      { intros o (z & ? & _)%elem_of_sorted_elements%Hin. eauto. }
      exists c. split; [done|]. destruct c; [naive_solver|]. intros o z Ho Hz. eapply Hc; [|done].
      apply elem_of_sorted_elements, Hin. eauto.
    - exists None. split; [done|]. intros o z Ho Hz. assert (o ∈ X) by (apply Hin; eauto). set_solver. }
  cbn [mbind option_bind]. destruct c as [o|]; [by exists (Some o)|].
  assert (∀ o z, by_offset a !! o = Some z → 0 < z ≤ MAX_SEGMENT) as Hpos.
  { intros o z Ho. pose proof (proj1 (fi_free _ _ _ HI) _ _ Ho). pose proof (fi_cap _ _ _ HI). lia. }
  assert (∀ o z, by_offset a !! o = Some z → Z.log2 z ≤ fl → z < size) as Hlow.
  { intros o z Ho Hle. destruct (decide (Z.log2 z = fl)) as [|Hne]; [eauto|].
    apply Z.log2_lt_cancel. unfold fl in *. lia. }
  destruct (Z.leb_spec 64 (fl + 1)) as [H64|H64]; simpl.
  { exists None. split; [done|]. intros o z Ho. eapply Hlow; [done|]. destruct (bin_of_bounds z (Hpos _ _ Ho)). lia. }
  set (higher := Z.ldiff (bn_nonempty a) (Z.shiftl 1 (fl + 1) - 1)).
  assert (0 ≤ higher) by (apply Z.ldiff_nonneg; lia).
  assert (∀ j, Z.testbit higher j = bool_decide (fl + 1 ≤ j) && Z.testbit (bn_nonempty a) j) as Hhb.
  { intros j. apply testbit_ldiff_below. lia. }
  destruct (Z.eqb_spec higher 0) as [E0|E0]; simpl.
  - exists None. split; [done|]. intros o z Ho. destruct (decide (Z.log2 z ≤ fl)) as [|Hgt]; [eauto|].
    destruct (bin_of_bounds z (Hpos _ _ Ho)) as [_ Hzl]. destruct (Hb _ Hzl) as (Y & _ & HinY & HbitY).
    specialize (Hhb (Z.log2 z)). rewrite E0, Z.bits_0, bool_decide_eq_true_2, HbitY in Hhb by lia. simpl in Hhb.
    symmetry in Hhb. apply bool_decide_eq_false in Hhb. destruct Hhb. assert (o ∈ Y) by (apply HinY; eauto). set_solver.
  - destruct (trailing_zeros_spec higher) as (Ht0 & Ht1 & _); [lia|].
    assert (trailing_zeros64 higher = trailing_zeros32 higher) as -> by (by destruct higher).
    set (t := trailing_zeros32 higher) in *. rewrite Hhb in Ht1. apply andb_true_iff in Ht1 as [Hge%bool_decide_eq_true Hbt].
    pose proof (testbit_bound _ 64 _ Hm ltac:(lia) Hbt) as Htb. destruct (Hb t Htb) as (Y & -> & HinY & HbitY).
    cbn [mbind option_bind]. eexists. split; [done|]. rewrite Hbt in HbitY. symmetry in HbitY.
    apply bool_decide_eq_true in HbitY.
    destruct (sorted_elements Y) as [|o l] eqn:El.
    { exfalso. apply HbitY. apply elem_of_equiv_empty_L. intros o Ho%elem_of_sorted_elements. rewrite El in Ho. set_solver. }
    simpl. assert (o ∈ Y) as (z & Ho & Hz)%HinY by (apply elem_of_sorted_elements; rewrite El; set_solver).
    exists z. split; [done|]. assert (size < z); [|lia]. apply Z.log2_lt_cancel. fold fl. lia.
Qed.

(** ** The binned allocator meets the contract *)

Record bn_inv (a : BinnedBufferAllocator) (L : gmap Z Z) : Prop := {
  bi_index : binned_ok a;
  bi_free : free_inv (bn_capacity a) (by_offset a) L;
  bi_alloc : bn_allocated a = msum L
}.

Lemma binned_ok_alloc z a : binned_ok a → binned_ok (with_allocated z a).
Proof. intros [? ? ?]. by constructor. Qed.

Lemma free_inv_size cap F L o z : free_inv cap F L → F !! o = Some z → 0 < z ≤ MAX_SEGMENT ∧ 0 ≤ o ∧ o + z ≤ cap.
Proof. intros HI Ho. pose proof (proj1 (fi_free _ _ _ HI) _ _ Ho). pose proof (fi_cap _ _ _ HI). lia. Qed.

(** Removing a region and adding back its parts around [offset, offset + size). *)
Lemma bn_carve a cap L p l offset size :
  binned_ok a → free_inv cap (by_offset a) L → by_offset a !! p = Some l →
  0 < size → p ≤ offset → offset + size ≤ p + l →
  ∃ a1 a2 a3, remove_free p a = Some (Some l, a1) ∧
    (if p <? offset then add_free p (offset - p) a1 else Some a1) = Some a2 ∧
    (if offset + size <? p + l then add_free (offset + size) (p + l - (offset + size)) a2 else Some a2) = Some a3 ∧
    by_offset a3 = carve_map p l offset size (by_offset a) ∧ binned_ok a3 ∧ same_meta a a3.
Proof.
  intros HB HI Hp Hs Hlo Hhi. destruct (free_inv_size _ _ _ _ _ HI Hp) as (Hl & Hp0 & _).
  destruct (remove_free_spec a p l HB Hp Hl) as (a1 & -> & Hf1 & HB1 & Hs1 & Hs1' & Hs1''). exists a1.
  assert (∃ a2, (if p <? offset then add_free p (offset - p) a1 else Some a1) = Some a2 ∧
    by_offset a2 = (if p <? offset then <[p := offset - p]> (by_offset a1) else by_offset a1) ∧
    binned_ok a2 ∧ same_meta a1 a2) as (a2 & -> & Hf2 & HB2 & Hs2 & Hs2' & Hs2'').
  { destruct (Z.ltb_spec p offset); [|by exists a1]. apply add_free_spec; [done| |lia].
    rewrite Hf1. apply lookup_delete_eq. }
  exists a2.
  assert (∃ a3, (if offset + size <? p + l then add_free (offset + size) (p + l - (offset + size)) a2 else Some a2) = Some a3 ∧
    by_offset a3 = (if offset + size <? p + l then <[offset + size := p + l - (offset + size)]> (by_offset a2) else by_offset a2) ∧
    binned_ok a3 ∧ same_meta a2 a3) as (a3 & -> & Hf3 & HB3 & Hs3 & Hs3' & Hs3'').
  { destruct (Z.ltb_spec (offset + size) (p + l)); [|by exists a2]. apply add_free_spec; [done| |lia].
    rewrite Hf2, Hf1. assert (by_offset a !! (offset + size) = None) as Hn.
    { destruct (by_offset a !! (offset + size)) as [w|] eqn:E; [|done].
      pose proof (proj1 (fi_free _ _ _ HI) _ _ E). destruct (proj2 (fi_free _ _ _ HI) _ _ _ _ Hp E ltac:(lia)); lia. }
    destruct (p <? offset); rewrite ?lookup_insert_ne, ?lookup_delete_ne by lia; done. }
  exists a3. split_and!; try done; try congruence. unfold carve_map. by rewrite Hf3, Hf2, Hf1.
  split_and!; congruence.
Qed.

Lemma bn_allocate_spec a L size :
  bn_inv a L → 0 ≤ size ≤ MAX_SEGMENT →
  (bn_allocate size a = Some (None, a) ∧ (size = 0 ∨ ∀ o z, by_offset a !! o = Some z → z < size)) ∨
  (∃ o a', bn_allocate size a = Some (Some (mkBuffer (bn_segment_name a) o size), a') ∧ 0 < size ∧
     bn_segment_name a' = bn_segment_name a ∧ bn_capacity a' = bn_capacity a ∧
     L !! o = None ∧ bn_inv a' (<[o := size]> L)).
Proof.
  intros [HB HI Hal] Hs. unfold bn_allocate. destruct (Z.eqb_spec size 0) as [->|Hne]; [left; by auto|].
  destruct (choose_region_spec a _ L size HB HI) as ([o|] & -> & Hc); [lia|..]; cbn [mbind option_bind].
  2:{ left. split; [done|by right]. }
  destruct Hc as (z & Ho & Hz). right. destruct (free_inv_size _ _ _ _ _ HI Ho) as (? & ? & ?). pose proof (fi_cap _ _ _ HI).
  destruct (free_carve _ _ _ o z o size HI Ho) as [Hn HI']; [lia..|].
  destruct (bn_carve a _ L o z o size HB HI Ho) as (a1 & a2 & a3 & -> & Hs2 & Hs3 & Hf3 & HB3 & Hm1 & Hm2 & Hm3); [lia..|].
  rewrite Z.ltb_irrefl in Hs2. injection Hs2 as <-. cbn [mbind option_bind].
  assert ((if size <? z then o0 ← u64_add o size; add_free o0 (z - size) a1 else Some a1) = Some a3) as ->.
  { rewrite <- Hs3. destruct (Z.ltb_spec size z), (Z.ltb_spec (o + size) (o + z)); try lia; [|done].
    rewrite u64_add_ok by (unfold MAX_SEGMENT, u64_max in *; lia). cbn [mbind option_bind].
    f_equal; lia. }
  cbn [mbind option_bind]. rewrite Hm3, Hal, (allocated_add _ _ _ o size HI' Hn). cbn [mbind option_bind].
  eexists _, _. split; [done|]. simpl. split_and!; try done; [lia|].
  constructor; simpl; [by apply binned_ok_alloc|congruence|done].
Qed.

Lemma bn_merge_prev_spec a cap L o :
  binned_ok a → free_inv cap (by_offset a) L →
  ∃ start a1, bn_merge_prev o a = Some (start, a1) ∧ merged_prev (by_offset a) o start (by_offset a1) ∧
    binned_ok a1 ∧ same_meta a a1.
Proof.
  intros HB HI. pose proof (fi_cap _ _ _ HI). pose proof (merge_prev_decide cap (by_offset a) o (fi_free _ _ _ HI) ltac:(lia)) as Hd.
  unfold bn_merge_prev. destruct (last_below o (by_offset a)) as [[p l]|]; [|by exists o, a].
  destruct Hd as (-> & Hp & Hy & Hn). cbn [mbind option_bind].
  destruct (Z.eqb_spec (p + l) o) as [E|E]; [|exists o, a; split_and!; auto; done].
  destruct (free_inv_size _ _ _ _ _ HI Hp) as (Hl & _).
  destruct (remove_free_spec a p l HB Hp Hl) as (a1 & -> & Hf & HB1 & Hm). exists p, a1. rewrite Hf. auto.
Qed.

Lemma bn_merge_next_spec a cap e :
  binned_ok a → live_ok cap (by_offset a) → cap ≤ MAX_SEGMENT →
  ∃ end' a2, bn_merge_next e a = Some (end', a2) ∧ merged_next (by_offset a) e end' (by_offset a2) ∧
    binned_ok a2 ∧ same_meta a a2.
Proof.
  intros HB HF Hc. pose proof (merge_next_decide cap (by_offset a) e HF Hc) as Hd.
  unfold bn_merge_next. destruct (first_from e (by_offset a)) as [[n l]|]; [|by exists e, a].
  destruct Hd as (-> & Hp & Hy & Hn).
  destruct (Z.eqb_spec n e) as [E|E]; cbn [mbind option_bind]; [|exists e, a; split_and!; auto; done].
  pose proof (proj1 HF _ _ Hp) as Hl.
  destruct (remove_free_spec a n l HB Hp) as (a1 & -> & Hf & HB1 & Hm); [lia|]. exists (n + l), a1. rewrite Hf. auto.
Qed.

Lemma bn_deallocate_spec a L b :
  bn_inv a L → L !! buf_offset b = Some (buf_size b) →
  ∃ a', bn_deallocate b a = Some a' ∧ bn_segment_name a' = bn_segment_name a ∧
    bn_capacity a' = bn_capacity a ∧ bn_inv a' (delete (buf_offset b) L).
Proof.
  intros [HB HI Hal] Ho. pose proof (proj1 (fi_live _ _ _ HI) _ _ Ho). pose proof (fi_cap _ _ _ HI).
  pose proof (fi_free _ _ _ HI) as HF. unfold bn_deallocate.
  rewrite u64_add_ok by (unfold MAX_SEGMENT, u64_max in *; lia). cbn [mbind option_bind].
  destruct (bn_merge_prev_spec a _ L (buf_offset b) HB HI) as (st & a1 & -> & Hp & HB1 & Hm1 & Hm1' & Hm1'').
  cbn [mbind option_bind]. pose proof (merged_prev_ok _ _ _ _ _ HF Hp) as HF1.
  destruct (bn_merge_next_spec a1 _ (buf_offset b + buf_size b) HB1 HF1) as (en & a2 & -> & Hn & HB2 & Hm2 & Hm2' & Hm2''); [lia|].
  cbn [mbind option_bind]. destruct (free_give _ _ _ _ _ _ _ _ _ HI Ho Hp Hn) as (? & ? & Hnone & HI').
  rewrite u64_sub_ok by lia. cbn [mbind option_bind].
  destruct (add_free_spec a2 st (en - st) HB2 Hnone) as (a3 & -> & Hf3 & HB3 & Hm3 & Hm3' & Hm3''); [lia|].
  cbn [mbind option_bind]. eexists. split; [done|]. simpl. split_and!; try congruence.
  constructor; simpl; [by apply binned_ok_alloc|by rewrite Hf3, Hm3', Hm2', Hm1'|].
  rewrite Hm3'', Hm2'', Hm1'', Hal. by eapply allocated_sub.
Qed.

Lemma bn_reserve_spec a L offset size :
  bn_inv a L → 0 ≤ offset → 0 ≤ size → offset + size ≤ u64_max →
  (bn_reserve offset size a = Some (false, a) ∧
     (size = 0 ∨ ∀ o z, by_offset a !! o = Some z → ¬ (o ≤ offset ∧ offset + size ≤ o + z))) ∨
  (∃ a', bn_reserve offset size a = Some (true, a') ∧ 0 < size ∧
     bn_segment_name a' = bn_segment_name a ∧ bn_capacity a' = bn_capacity a ∧
     L !! offset = None ∧ bn_inv a' (<[offset := size]> L)).
Proof.
  intros [HB HI Hal] Ho Hs Hmax. pose proof (fi_cap _ _ _ HI). pose proof (fi_free _ _ _ HI) as HF.
  unfold bn_reserve. destruct (Z.eqb_spec size 0) as [->|Hne]; [left; by auto|].
  rewrite (u64_add_ok offset size) by lia. cbn [mbind option_bind].
  pose proof (last_upto_spec offset (by_offset a)) as Hq. destruct (last_upto offset (by_offset a)) as [[p l]|].
  2:{ left. split; [done|right]. intros o z Eo. specialize (Hq _ _ Eo). lia. }
  destruct Hq as (Ep & Hle & Hm). range_facts.
  rewrite (u64_add_ok p l) by (unfold MAX_SEGMENT, u64_max in *; lia). cbn [mbind option_bind].
  destruct (Z.leb_spec (offset + size) (p + l)).
  2:{ left. split; [done|right]. intros o z Eo [? ?]. specialize (Hm _ _ Eo ltac:(lia)). range_facts.
      destruct (decide (o = p)) as [->|Hop]; [simplify_eq; lia|]. destruct (proj2 HF _ _ _ _ Ep Eo ltac:(done)); lia. }
  right. destruct (free_carve _ _ _ p l offset size HI Ep) as [Hn HI']; [lia..|].
  destruct (bn_carve a _ L p l offset size HB HI Ep) as (a1 & a2 & a3 & -> & Hs2 & Hs3 & Hf3 & HB3 & Hm1 & Hm2 & Hm3); [lia..|].
  cbn [mbind option_bind]. rewrite Hs2. cbn [mbind option_bind]. rewrite Hs3. cbn [mbind option_bind].
  rewrite Hm3, Hal, (allocated_add _ _ _ offset size HI' Hn). cbn [mbind option_bind].
  eexists. split; [done|]. simpl. split_and!; try done; [lia|].
  constructor; simpl; [by apply binned_ok_alloc|congruence|done].
Qed.

#[export] Instance bn_laws : AllocatorLaws BinnedBufferAllocator.
Proof.
  refine {| ba_inv := bn_inv |}.
  - intros a L HI. apply (bi_free _ _ HI).
  - intros a L HI. apply (bi_free _ _ HI).
  - intros a L [_ HI Hal]. split; [done|]. pose proof (free_inv_sums _ _ _ HI). simpl. lia.
  - intros a L size HI Hs. cbn [allocate bn_allocator].
    destruct (bn_allocate_spec a L size HI Hs) as [[-> _]|(o & a' & -> & ? & ? & ? & ? & ?)].
    + by exists None, a.
    + eexists _, a'. done.
  - intros a L HI. exists (max_value (by_offset a)). split; [done|].
    destruct (max_value_spec (by_offset a)) as (H0 & Hle & Hex). pose proof (bi_free _ _ HI) as HF.
    pose proof (fi_cap _ _ _ HF). assert (max_value (by_offset a) ≤ bn_capacity a).
    { destruct (decide (0 < max_value (by_offset a))) as [Hp|]; [|lia].
      destruct (Hex Hp) as [k Hk]. pose proof (proj1 (fi_free _ _ _ HF) _ _ Hk). lia. }
    split; [done|]. intros size Hs.
    destruct (bn_allocate_spec a L size HI) as [[_ [?|Hno]]|(o & a' & ? & _)]; [lia..| |eauto].
    destruct (Hex ltac:(lia)) as [k Hk]. specialize (Hno _ _ Hk). lia.
  - intros a L b HI Ho. by apply bn_deallocate_spec.
  - intros a L offset size HI Ho Hs Hm. cbn [reserve bn_allocator].
    destruct (bn_reserve_spec a L offset size HI Ho Hs Hm) as [[-> _]|(a' & -> & ? & ? & ? & ? & ?)].
    + by exists false, a.
    + by exists true, a'.
Defined.
