(* ===== verification/AllocatorTheorems.v ===== *)
(** * Theorems about the allocators

    Safety of whole operation sequences, exactness of the free-space query,
    coalescing, the size classes, and the simulation of the binned allocator by
    the first-fit one. *)
From S2P Require Import Prelude SmallFloat CoreAllocator CoreBins CoreLists CoreInv CoreOps CoreReserve BufferAllocator OffsetAllocator SimpleAllocators.

(** ** Sequences of operations *)

Inductive alloc_op : Type :=
| OpAllocate (size : Z)
| OpDeallocate (b : AllocatedBuffer)
| OpReserve (offset size : Z).

Definition run_op {A} `{BufferAllocator A} (op : alloc_op) (a : A) : option A :=
  match op with
  | OpAllocate size => snd <$> allocate size a
  | OpDeallocate b => deallocate b a
  | OpReserve offset size => snd <$> reserve offset size a
  end.

Fixpoint run_ops {A} `{BufferAllocator A} (ops : list alloc_op) (a : A) : option A :=
  match ops with
  | [] => Some a
  | op :: ops' => a' ← run_op op a; run_ops ops' a'
  end.

(** The arguments on an allocator of [cap] bytes: sizes whose rounding up does not overflow; any buffer
    may be deallocated and any range reserved. *)
Definition op_bounded (cap : Z) (op : alloc_op) : Prop :=
  match op with
  | OpAllocate size => 0 ≤ size ∧ round_ok (default 0 (calculate_multiplier cap)) size
  | OpDeallocate _ => True
  | OpReserve offset size => 0 ≤ offset ∧ 0 ≤ size
  end.

Lemma run_op_spec op a R :
  oba_wf a R → op_bounded (oa_capacity (inner a)) op →
  ∃ a' R', run_op op a = Some a' ∧ oba_wf a' R' ∧ oba_segment_name a' = oba_segment_name a ∧
    oa_capacity (inner a') = oa_capacity (inner a).
Proof.
  intros HW Hop. destruct op as [size|b|offset size]; simpl in *.
  - rewrite (ow_mult _ _ HW) in Hop. destruct (oba_allocate_spec a R size HW (proj1 Hop) (proj2 Hop)) as (res & a' & R' & -> & ? & ? & ? & _). eauto 10.
  - destruct (live a !! buf_offset b) as [al|] eqn:E.
    + destruct (oba_deallocate_spec a R b HW) as (a' & R' & ? & ? & ? & ? & _); eauto 10.
    + exists a, R. unfold oba_deallocate. by rewrite E.
  - destruct (oba_reserve_spec a R offset size HW) as (ok & a' & R' & -> & ? & ? & ? & _); [naive_solver..|]. eauto 10.
Qed.

Lemma run_ops_spec ops a R :
  oba_wf a R → Forall (op_bounded (oa_capacity (inner a))) ops →
  ∃ a' R', run_ops ops a = Some a' ∧ oba_wf a' R' ∧ oba_segment_name a' = oba_segment_name a ∧
    oa_capacity (inner a') = oa_capacity (inner a).
Proof.
  revert a R. induction ops as [|op ops IH]; intros a R HW Hops; simpl; [eauto 10|].
  apply Forall_cons in Hops as [Hop Hops].
  destruct (run_op_spec op a R HW Hop) as (a1 & R1 & -> & HW1 & Hn & Hc). cbn [mbind option_bind].
  rewrite <- Hc in Hops. destruct (IH a1 R1 HW1 Hops) as (a2 & R2 & -> & ? & ? & ?). exists a2, R2. split_and!; congruence || done.
Qed.

(** A coalesced list of regions without a used one has at most one region. *)
Lemma coalesced_all_free R : coalesced R → (∀ r, r ∈ R → r_used r = false) → R = [] ∨ ∃ r, R = [r].
Proof.
  destruct R as [|r1 [|r2 R]]; [eauto..|]. simpl. intros [[?|?] _] Hf.
  - rewrite (Hf r1) in *; [done|set_solver].
  - rewrite (Hf r2) in *; [done|set_solver].
Qed.

Lemma oba_drained a R :
  oba_wf a R → live a = ∅ → R = [] ∨ ∃ c, R = [mkReg c 0 (core_size (core (inner a))) false].
Proof.
  intros HW He. assert (∀ r, r ∈ R → r_used r = false) as Hf.
  { intros r Hr. destruct (r_used r) eqn:Hu; [|done]. destruct (proj2 (ow_live _ _ HW) r Hr Hu) as [al Hal].
    by rewrite He, lookup_empty in Hal. }
  destruct (coalesced_all_free R (ci_coal _ _ (ow_core _ _ HW)) Hf) as [->|[r ->]]; [by left|right].
  specialize (Hf r ltac:(set_solver)). pose proof (ci_tiles _ _ (ow_core _ _ HW)) as (? & _ & _ & ?).
  exists (r_idx r). destruct r; simpl in *. f_equal. f_equal; [done|lia|done].
Qed.

(** The largest region a drained allocator reports. *)
Lemma oba_drained_largest a R :
  oba_wf a R → live a = ∅ →
  largest_free_region a =
    Some (class_of (core_size (core (inner a))) * 2 ^ multiplier_bits (inner a)).
Proof.
  intros HW He. pose proof (ow_core _ _ HW) as HI. pose proof (pool_length _ _ (ci_pool _ _ HI)) as Hlen.
  pose proof (ow_pool _ _ HW). destruct (oba_largest_spec a _ HW) as (l & -> & Hl & Hge & Hex). f_equal.
  destruct (oba_drained a R HW He) as [->|[c ->]].
  - pose proof (ci_tiles _ _ HI) as H0. simpl in H0. rewrite <- H0. change (class_of 0) with 0.
    destruct (decide (0 < l)) as [Hp|]; [|lia]. destruct (Hex Hp) as (_ & r & ? & _). set_solver.
  - simpl in Hlen.
    specialize (Hge ltac:(lia) (mkReg c 0 (core_size (core (inner a))) false) ltac:(set_solver) eq_refl). simpl in Hge.
    destruct (decide (0 < l)) as [Hp|].
    + destruct (Hex Hp) as (_ & r & ->%list_elem_of_singleton & _ & <-). done.
    + assert (0 ≤ class_of (core_size (core (inner a)))).
      { apply bin_floor_nonneg, round_down_bounds. apply (ci_size _ _ HI). }
      assert (0 < 2 ^ multiplier_bits (inner a)) by (apply Z.pow_pos_nonneg; pose proof (ow_bits _ _ HW); lia). nia.
Qed.

Definition trace (name : string) (cap : Z) (ops : list alloc_op) : option OffsetBufferAllocator :=
  a ← oba_new name cap; run_ops ops a.

Lemma trace_spec name cap ops :
  0 ≤ cap ≤ MAX_SEGMENT → Forall (op_bounded cap) ops →
  ∃ a R, trace name cap ops = Some a ∧ oba_wf a R ∧ oba_segment_name a = name ∧ oa_capacity (inner a) = cap.
Proof.
  intros Hc Hops. unfold trace. destruct (oba_new_spec name cap Hc) as (a0 & c & -> & <- & <- & _ & HW).
  cbn [mbind option_bind]. eapply run_ops_spec; [exact HW|exact Hops].
Qed.

(** C1 On a fresh [OffsetBufferAllocator] of at most 2^63 bytes, any sequence of allocations, deallocations and
    reservations whose requested sizes plus the allocator's scale fit a [u64] runs without a panic; at its end
    the live buffers lie inside the segment, are pairwise disjoint and add up to [allocated].  The bound on the
    sizes is exact: a larger [u64] size then panics, in the addition that rounds it up, instead of returning [None]. *)
Theorem oba_trace_safe name cap ops :
  0 ≤ cap ≤ MAX_SEGMENT → Forall (op_bounded cap) ops →
  ∃ a, trace name cap ops = Some a ∧ segment_name a = name ∧ capacity a = cap ∧
    live_ok cap (al_size <$> live a) ∧ allocated a = msum (al_size <$> live a) ∧ allocated a ≤ cap ∧
    ∀ size, 0 ≤ size ≤ u64_max → allocate size a = None ↔ ¬ op_bounded cap (OpAllocate size).
Proof.
  intros Hc Hops. destruct (trace_spec name cap ops Hc Hops) as (a & R & ? & HW & ? & Hcap).
  exists a. pose proof (oba_wf_sum _ _ HW). subst cap. split_and!; try done.
  - by eapply oba_wf_live_ok.
  - apply HW.
  - simpl. rewrite (ow_bytes _ _ HW). lia.
  - intros size Hs. cbn [op_bounded]. rewrite (ow_mult _ _ HW). cbn [default from_option id]. split.
    + intros Hn [_ Hro]. destruct (oba_allocate_spec a R size HW (proj1 Hs) Hro) as (? & ? & ? & E & _). simpl in Hn. congruence.
    + intros Hn. apply (oba_allocate_overflow a R); [done..|]. tauto.
Qed.

Definition demo_ops : list alloc_op :=
  [OpAllocate 100; OpAllocate 1000; OpReserve 8192 64; OpDeallocate (mkBuffer "s" 0 100); OpAllocate 17].

Lemma demo_ops_bounded : Forall (op_bounded 65536) demo_ops.
Proof. repeat constructor; simpl; lia || (left; reflexivity). Qed.

Lemma oba_trace_safe_witness :
  ∃ a, trace "s" 65536 demo_ops = Some a ∧ segment_name a = "s"%string ∧ capacity a = 65536 ∧
    live_ok 65536 (al_size <$> live a) ∧ allocated a = msum (al_size <$> live a) ∧ allocated a ≤ 65536.
Proof.
  destruct (oba_trace_safe "s" 65536 demo_ops) as (a & H1 & H2 & H3 & H4 & H5 & H6 & _); [unfold MAX_SEGMENT; lia|exact demo_ops_bounded|].
  exists a. split; [exact H1|]. split; [exact H2|]. split; [exact H3|]. split; [exact H4|]. split; [exact H5|exact H6].
Defined.

(** A size above the rounding bound panics on an 8 GiB segment, where the documentation has [None] for a size that is too large. *)
Theorem oversized_allocate_panics : ∃ a, trace "s" (2 ^ 33) [] = Some a ∧ allocate u64_max a = None.
Proof. eexists. split; [reflexivity|]. vm_compute. reflexivity. Qed.

(** [largest_free_region] is exact on every reachable state: a request succeeds iff it
    is positive and at most the reported region. *)
Theorem oba_allocate_iff_largest name cap ops :
  0 ≤ cap ≤ MAX_SEGMENT → Forall (op_bounded cap) ops →
  ∃ a l, trace name cap ops = Some a ∧ largest_free_region a = Some l ∧
    ∀ size, 0 ≤ size ≤ MAX_SEGMENT →
      (∃ b a', allocate size a = Some (Some b, a')) ↔ 0 < size ≤ l.
Proof.
  intros Hc Hops. destruct (trace_spec name cap ops Hc Hops) as (a & R & ? & HW & _).
  destruct (ba_largest a (al_size <$> live a)) as (l & Hl & _ & Hok); [by split; eauto|].
  exists a, l. split_and!; [done..|]. intros size Hs. split; [|auto].
  destruct (oba_largest_spec a R HW) as (l' & Hl' & _ & Hge & _). assert (l' = l) as -> by congruence.
  destruct (oba_allocate_spec a R size HW (proj1 Hs) (round_ok_segment _ _ (ow_bits _ _ HW) (proj2 Hs))) as (res & a1 & R1 & Heq & _ & _ & _ & Hres).
  intros (b & a' & Ha). simpl in Ha. rewrite Heq in Ha. injection Ha as -> ->.
  destruct Hres as (? & _ & _ & _ & _ & Hfo & r & Hr & Hu & Hle).
  pose proof (ci_pool _ _ (ow_core _ _ HW)) as (_ & _ & ? & ? & _).
  specialize (Hge ltac:(lia) r Hr Hu). lia.
Qed.

Lemma oba_allocate_iff_largest_witness :
  ∃ a l, trace "s" 65536 demo_ops = Some a ∧ largest_free_region a = Some l ∧
    ∀ size, 0 ≤ size ≤ MAX_SEGMENT →
      (∃ b a', allocate size a = Some (Some b, a')) ↔ 0 < size ≤ l.
Proof. apply (oba_allocate_iff_largest "s" 65536 demo_ops); [unfold MAX_SEGMENT; lia|exact demo_ops_bounded]. Defined.

(** Freeing coalesces completely: once a reachable allocator has no live buffer, it
    reports the same largest region as a fresh one. *)
Theorem oba_drained_as_fresh name cap ops a :
  0 ≤ cap ≤ MAX_SEGMENT → Forall (op_bounded cap) ops → trace name cap ops = Some a → live a = ∅ →
  ∃ a0, oba_new name cap = Some a0 ∧ largest_free_region a = largest_free_region a0.
Proof.
  intros Hc Hops Ht He. destruct (trace_spec name cap ops Hc Hops) as (a' & R & Ht' & HW & _ & Hcap).
  rewrite Ht in Ht'. injection Ht' as <-.
  destruct (oba_new_spec name cap Hc) as (a0 & c & Hnew & _ & Hcap0 & He0 & HW0). exists a0. split; [done|].
  rewrite (oba_drained_largest _ _ HW He), (oba_drained_largest _ _ HW0 He0).
  pose proof (ow_mult _ _ HW) as Hm. pose proof (ow_mult _ _ HW0) as Hm0.
  rewrite Hcap, <- Hcap0, Hm0 in Hm. injection Hm as Hm.
  by rewrite (ow_span _ _ HW), (ow_span _ _ HW0), Hcap, Hcap0, Hm.
Qed.

Definition drain_ops : list alloc_op :=
  [OpAllocate 512; OpAllocate 512; OpDeallocate (mkBuffer "s" 512 512); OpDeallocate (mkBuffer "s" 0 512)].

Lemma oba_drained_as_fresh_witness :
  ∃ a, trace "s" 1024 drain_ops = Some a ∧ live a = ∅ ∧
    ∃ a0, oba_new "s" 1024 = Some a0 ∧ largest_free_region a = largest_free_region a0.
Proof.
  destruct (trace "s" 1024 drain_ops) as [a|] eqn:E; [|vm_compute in E; discriminate].
  assert (live a = ∅) as He.
  { assert (live <$> trace "s" 1024 drain_ops = Some ∅) as E2 by (vm_compute; reflexivity).
    rewrite E in E2. by injection E2. }
  exists a. split; [done|]. split; [done|].
  apply (oba_drained_as_fresh "s" 1024 drain_ops a);
    [unfold MAX_SEGMENT; lia|repeat constructor; simpl; unfold MAX_SEGMENT; lia|exact E|exact He].
Defined.

(** ** The contract *)

(** Whatever the allocator behind the trait, a buffer it hands out has the requested
    size, lies inside the segment and overlaps no live buffer. *)
Theorem allocate_disjoint {A} `{AllocatorLaws A} (a : A) L size b a' o z :
  ba_inv a L → 0 ≤ size ≤ MAX_SEGMENT → allocate size a = Some (Some b, a') → L !! o = Some z →
  buf_size b = size ∧ 0 ≤ buf_offset b ∧ buf_offset b + size ≤ capacity a ∧
  buffers_disjoint (buf_offset b) size o z.
Proof.
  intros HI Hs Ha Ho. destruct (ba_allocate a L size HI Hs) as (res & a1 & Heq & _ & Hc & Hres).
  rewrite Ha in Heq. injection Heq as <- <-. destruct Hres as (? & _ & ? & Hn & HI').
  destruct (live_ok_fresh _ _ _ _ _ _ (ba_live_ok _ _ HI') Hn Ho) as (? & ? & ?). split_and!; [done|done|lia|done].
Qed.

Lemma ff_new_inv name cap : 0 ≤ cap ≤ MAX_SEGMENT → ba_inv (ff_new name cap) ∅.
Proof.
  intros Hc. split; simpl; [|symmetry; apply msum_empty].
  assert (live_ok cap ∅) as He by (split; [intros ??|intros ????]; by rewrite lookup_empty).
  destruct (Z.ltb_spec 0 cap).
  - constructor; [done|..|done| | |].
    + apply (live_ok_insert cap ∅ 0 cap He); [lia..|]. intros ??. by rewrite lookup_empty.
    + intros ????? . by rewrite lookup_empty.
    + intros o z [<- <-]%lookup_singleton_Some. apply lookup_singleton_ne. lia.
    + rewrite <- insert_empty, msum_insert, msum_empty_Z by (by rewrite lookup_empty). lia.
  - constructor; [done|done|done|..].
    + intros ????. by rewrite lookup_empty.
    + intros ??. by rewrite lookup_empty.
    + rewrite msum_empty_Z. lia.
Qed.

Lemma allocate_disjoint_witness :
  ∃ b a', allocate 40 (ff_new "s" 100) = Some (Some b, a') ∧
    ∃ b2 a2, allocate 30 a' = Some (Some b2, a2) ∧
      buf_size b2 = 30 ∧ 0 ≤ buf_offset b2 ∧ buf_offset b2 + 30 ≤ capacity a' ∧
      buffers_disjoint (buf_offset b2) 30 (buf_offset b) 40.
Proof.
  assert (ba_inv (ff_new "s" 100) ∅) as HI0 by (apply ff_new_inv; unfold MAX_SEGMENT; lia).
  destruct (ba_allocate _ _ 40 HI0 ltac:(unfold MAX_SEGMENT; lia)) as (res & a' & Heq & _ & Hc & Hres).
  assert (allocate 40 (ff_new "s" 100) = Some (Some (mkBuffer "s" 0 40), mkFF "s" 100 {[40 := 60]} 40)) as Ev
    by (vm_compute; reflexivity).
  rewrite Ev in Heq. injection Heq as <- <-. destruct Hres as (_ & _ & _ & _ & HI).
  eexists _, _. split; [exact Ev|]. eexists _, _. split; [vm_compute; reflexivity|].
  apply (allocate_disjoint _ _ 30 _ (mkFF "s" 100 {[70 := 30]} 70) 0 40 HI);
    [unfold MAX_SEGMENT; lia|vm_compute; reflexivity|reflexivity].
Defined.

(** ** The core *)

(** C2 [CoreAllocator::free] returns exactly one region: it never panics on a used node,
    the invariant (tiling, coalescing, bins, bitmap, links) holds again, and the used
    regions are the old ones without the freed one. *)
Theorem core_free_refines s R r :
  core_inv s R → r ∈ R → r_used r = true →
  ∃ s' R', core_free (mkOffsetAllocation (r_off r) (r_idx r)) s = Some s' ∧ core_inv s' R' ∧
    ∀ x, r_used x = true → x ∈ R' ↔ x ∈ R ∧ x ≠ r.
Proof.
  intros HI (R1 & R2 & ->)%list_elem_of_split Hu.
  pose proof (tiles_used_once _ _ _ _ _ (ci_tiles _ _ HI) Hu) as Honce.
  destruct (core_free_spec _ _ _ _ HI Hu) as (c & o & z & s' & R1' & R2' & -> & HI' & _ & H1 & H2).
  exists s', (R1' ++ mkReg c o z false :: R2'). split_and!; [done..|]. intros x Hx.
  assert (x ≠ mkReg c o z false) by (intros ->; done).
  assert (x ∈ R1' ↔ x ∈ R1) as E1.
  { destruct H1 as [->|(p & -> & ?)]; [done|]. assert (x ≠ p) by congruence. rewrite elem_of_app. set_solver. }
  assert (x ∈ R2' ↔ x ∈ R2) as E2.
  { destruct H2 as [->|(p & -> & ?)]; [done|]. assert (x ≠ p) by congruence. set_solver. }
  rewrite !elem_of_app, !elem_of_cons, E1, E2. rewrite elem_of_app in Honce.
  destruct (decide (r_off x = r_off r)) as [Ho|Ho]; [|naive_solver].
  split; [|naive_solver]. intros [?|[?|?]]; [|done|]; (split; [by auto|]); intros ->; tauto.
Qed.

Lemma core_free_refines_witness :
  ∃ s0 s r s' R', core_new 1024 4 16 = Some s0 ∧ core_allocate 100 s0 = Some (mkOffsetAllocation 0 (r_idx r), s) ∧
    core_free (mkOffsetAllocation (r_off r) (r_idx r)) s = Some s' ∧ core_inv s' R' ∧ r ∉ R'.
Proof.
  destruct (core_new_spec 1024 4 16) as (c & s0 & Hnew & HI0 & _); [unfold is_u32, u32_max; lia|lia|unfold u32_max; lia|].
  destruct (core_allocate_spec s0 _ 100 HI0) as (a & s & Hal & _ & _ & Hcase); [unfold MAX_BIN_SIZE; lia|].
  assert (∃ i, fst <$> (core_new 1024 4 16 ≫= core_allocate 100) = Some (mkOffsetAllocation 0 i) ∧ i ≠ UNUSED) as (i & Hi & Hne).
  { eexists. split; [vm_compute; reflexivity|discriminate]. }
  rewrite Hnew in Hi. simpl in Hi. rewrite Hal in Hi. simpl in Hi. injection Hi as ->.
  destruct Hcase as [(Hbad & _)|(R1 & r & R2 & j & _ & HR & _ & _ & Ha & _ & HI)]; [exfalso; apply Hne; unfold NO_SPACE in Hbad; congruence|].
  injection Ha as Ho Hri.
  set (r' := mkReg (r_idx r) (r_off r) (rounded 100) true).
  destruct (core_free_refines s _ r' HI) as (s' & R' & Hf & HI' & Hx).
  { rewrite elem_of_app. right. rewrite elem_of_app. left. unfold split_region. left. }
  { reflexivity. }
  exists s0, s, r', s', R'. split; [exact Hnew|]. split; [rewrite Hal; simpl; congruence|].
  split; [exact Hf|]. split; [exact HI'|]. intros Hin. by apply Hx in Hin as [_ ?].
Defined.

(** [CoreAllocator::reserve_exact] with three spare node slots succeeds iff some free
    region covers the requested range. *)
Theorem core_reserve_exact_iff s R offset size :
  core_inv s R → 0 ≤ offset → 0 < size → 3 ≤ max_capacity s - free_offset s →
  (∃ al s', core_reserve_exact offset size s = Some (Some al, s')) ↔
  (∃ r, r ∈ R ∧ r_used r = false ∧ r_off r ≤ offset ∧ offset + size ≤ r_off r + r_size r).
Proof.
  intros HI Ho Hs Hcap.
  destruct (core_reserve_exact_spec s R offset size HI Ho ltac:(lia)) as (res & s' & -> & _ & _ & Hcase).
  destruct Hcase as [(-> & _ & Hno)|(R1 & r & R2 & b & u & a & -> & Hu & ? & ? & _ & -> & _)].
  - split; [intros (? & ? & [=])|]. intros (r & Hr & Hu & Hcov). destruct Hno as [?|[?|Hno]]; [lia..|].
    destruct (Hno r Hr Hu Hcov).
  - split; [|eauto]. intros _. exists r. split_and!; [set_solver|done..].
Qed.

Lemma core_reserve_exact_iff_witness :
  ∃ s c, core_new 1024 4 16 = Some s ∧
    ((∃ al s', core_reserve_exact 256 512 s = Some (Some al, s')) ↔
     (∃ r, r ∈ [mkReg c 0 1024 false] ∧ r_used r = false ∧ r_off r ≤ 256 ∧ 256 + 512 ≤ r_off r + r_size r)).
Proof.
  destruct (core_new_spec 1024 4 16) as (c & s & Hnew & HI & Hcs & Hm); [unfold is_u32, u32_max; lia|lia|unfold u32_max; lia|].
  exists s, c. split; [exact Hnew|]. apply (core_reserve_exact_iff s _ 256 512 HI); [lia|lia|].
  pose proof (pool_length _ _ (ci_pool _ _ HI)) as Hl. simpl in Hl. rewrite Hm. lia.
Defined.

(** The two-level bitmap search is a good fit: it returns the lowest non-empty bin at or
    above the request's bin, and fails only if no free region's class covers it. *)
Theorem find_bin_good_fit s R size :
  core_inv s R → 0 < size ≤ MAX_BIN_SIZE →
  (find_bin s (uint_to_float_round_up size) = Some None ∧
     ∀ r, r ∈ R → r_used r = false → class_of (r_size r) < size) ∨
  (∃ t l r, find_bin s (uint_to_float_round_up size) = Some (Some (t, l)) ∧ r ∈ R ∧ r_used r = false ∧
     uint_to_float_round_down (r_size r) = 8 * t + l ∧ size ≤ class_of (r_size r) ∧
     ∀ r', r' ∈ R → r_used r' = false → size ≤ class_of (r_size r') → class_of (r_size r) ≤ class_of (r_size r')).
Proof.
  intros HI Hs. pose proof (round_up_max size ltac:(lia)) as Hm.
  pose proof HI as [HP (Hnd & Hsz & Hfs & B & (_ & _ & Hmem) & Hbm) _ _ _ _ _].
  assert (∀ r, r ∈ R → r_used r = false → 0 ≤ uint_to_float_round_down (r_size r) < 240 ∧
    (size ≤ class_of (r_size r) ↔ uint_to_float_round_up size ≤ uint_to_float_round_down (r_size r)) ∧
    nonempty (B (uint_to_float_round_down (r_size r))) = true) as Hr.
  { intros r Hr Hu. assert ((r_idx r, r_size r) ∈ free_of R) as Hin by (apply elem_of_free_of; eauto).
    pose proof (round_down_u32 _ (Hsz _ _ Hin)) as Hb. split; [done|]. split.
    - unfold class_of. by rewrite round_up_adjoint by lia.
    - assert (r_idx r ∈ B (uint_to_float_round_down (r_size r))) by (apply Hmem; [lia|eauto]).
      destruct (B _); [set_solver|done]. }
  destruct (find_bin_spec s _ (uint_to_float_round_up size) Hbm ltac:(lia)) as
    [[-> Hnone]|(t & l & -> & Ht & Hl & Hge & HE & Hmin)].
  - left. split; [done|]. intros r Hin Hu. destruct (Hr r Hin Hu) as (Hb & Hiff & Hne).
    apply Z.nle_gt. intros ?%Hiff. rewrite Hnone in Hne by lia. done.
  - right. destruct (B (8 * t + l)) as [|i k] eqn:EB; [done|].
    assert (∃ sz, (i, sz) ∈ free_of R ∧ uint_to_float_round_down sz = 8 * t + l) as (sz & Hin & Hb).
    { apply Hmem; [lia|]. rewrite EB. set_solver. }
    apply elem_of_free_of in Hin as (r & Hin & Hu & _ & <-). destruct (Hr r Hin Hu) as (_ & Hiff & _).
    exists t, l, r. split_and!; try done.
    + apply Hiff. lia.
    + intros r' Hin' Hu' Hc. destruct (Hr r' Hin' Hu') as (Hb' & Hiff' & Hne'). apply Hiff' in Hc.
      apply bin_floor_le. rewrite Hb. split; [lia|]. apply Z.nlt_ge. intros Hlt. rewrite Hmin in Hne' by lia. done.
Qed.

Lemma find_bin_good_fit_witness :
  ∃ s c, core_new 1024 4 16 = Some s ∧
  ((find_bin s (uint_to_float_round_up 100) = Some None ∧
     ∀ r, r ∈ [mkReg c 0 1024 false] → r_used r = false → class_of (r_size r) < 100) ∨
   (∃ t l r, find_bin s (uint_to_float_round_up 100) = Some (Some (t, l)) ∧ r ∈ [mkReg c 0 1024 false] ∧
     r_used r = false ∧ uint_to_float_round_down (r_size r) = 8 * t + l ∧ 100 ≤ class_of (r_size r) ∧
     ∀ r', r' ∈ [mkReg c 0 1024 false] → r_used r' = false → 100 ≤ class_of (r_size r') →
       class_of (r_size r) ≤ class_of (r_size r'))).
Proof.
  destruct (core_new_spec 1024 4 16) as (c & s & Hnew & HI & _); [unfold is_u32, u32_max; lia|lia|unfold u32_max; lia|].
  exists s, c. split; [exact Hnew|]. apply (find_bin_good_fit s _ 100 HI). unfold MAX_BIN_SIZE. lia.
Defined.

(** ** Size classes and scaling *)

(** A rounded-up request covers the request and wastes at most an eighth of it. *)
Theorem size_class_overhead size :
  0 < size ≤ MAX_BIN_SIZE →
  size ≤ float_to_uint (uint_to_float_round_up size) ≤ size + size / 8.
Proof.
  intros Hs. destruct (rounded_bounds size Hs) as [Hle Hfl]. unfold rounded in *. split; [done|].
  rewrite Hfl, round_up_down by lia. destruct (round_down_bounds size ltac:(lia)) as (Hb & Hlo & Hhi).
  set (b := uint_to_float_round_down size) in *. destruct (Z.eqb_spec (bin_floor b) size) as [E|E].
  { rewrite Z.add_0_r, E. assert (0 ≤ size / 8) by (apply Z.div_pos; lia). lia. }
  rewrite bin_floor_step in * by done. enough (2 ^ Z.max 0 (b / 8 - 1) ≤ size / 8) by lia.
  apply Z.div_le_lower_bound; [lia|]. unfold bin_floor in Hlo, Hhi, E. destruct (Z.ltb_spec b 8) as [Hb8|Hb8].
  - rewrite Z.div_small in Hhi by lia. change (2 ^ Z.max 0 (0 - 1)) with 1 in Hhi. lia.
  - assert (1 ≤ b / 8) by (apply Z.div_le_lower_bound; lia). rewrite Z.max_r in * by lia.
    pose proof (Z.mod_pos_bound b 8 ltac:(lia)). pose proof (Z.pow_pos_nonneg 2 (b / 8 - 1) ltac:(lia) ltac:(lia)). nia.
Qed.

Lemma size_class_overhead_witness : 1000 ≤ float_to_uint (uint_to_float_round_up 1000) ≤ 1000 + 1000 / 8.
Proof. apply (size_class_overhead 1000). unfold MAX_BIN_SIZE. lia. Defined.

(** [calculate_multiplier] terminates on every [u64] with the least scaling that makes
    the span fit the largest bin. *)
Theorem calculate_multiplier_least size :
  is_u64 size →
  ∃ m, calculate_multiplier size = Some m ∧ 0 ≤ m ≤ 33 ∧ Z.shiftr size m ≤ MAX_BIN_SIZE ∧
    ∀ k, 0 ≤ k < m → MAX_BIN_SIZE < Z.shiftr size k.
Proof.
  intros Hs. destruct (calculate_multiplier_spec size Hs) as (m & ? & ? & ? & Hlow). exists m.
  split_and!; try done; try lia. intros k Hk. specialize (Hlow ltac:(lia)).
  eapply Z.lt_le_trans; [exact Hlow|]. rewrite !Z.shiftr_div_pow2 by lia. unfold is_u64 in Hs.
  apply Z.div_le_compat_l; [lia|]. split; [apply Z.pow_pos_nonneg; lia|apply Z.pow_le_mono_r; lia].
Qed.

Lemma calculate_multiplier_least_witness :
  ∃ m, calculate_multiplier 68719476736 = Some m ∧ 0 ≤ m ≤ 33 ∧ Z.shiftr 68719476736 m ≤ MAX_BIN_SIZE ∧
    ∀ k, 0 ≤ k < m → MAX_BIN_SIZE < Z.shiftr 68719476736 k.
Proof. apply (calculate_multiplier_least 68719476736). unfold is_u64, u64_max. lia. Defined.
