(* ===== verification/Identity.v ===== *)
(** * Identity, residency and cost: the shared data model

    crates/quillcache-core/src/lib.rs: block keys, identity scopes and the reuse
    guard, tiers and their textual names, residency records, workers, request
    hints and the cost model.  Strings are byte strings; [u32] and [u64] fields are
    [Z], and arithmetic that Rust checks returns [None] on overflow. *)
From S2P Require Import Prelude.

Record KvBlockKey : Type := mkKey {
  model_id : string;
  tokenizer_id : string;
  adapter_id : option string;
  tenant_id : string;
  prefix_hash : string;
  block_hash : string;
  block_index : Z;
  token_count : Z
}.

#[export] Instance KvBlockKey_eq_dec : EqDecision KvBlockKey.
Proof. solve_decision. Defined.
#[export] Instance KvBlockKey_countable : Countable KvBlockKey.
Proof.
  refine (inj_countable' (λ k, (model_id k, tokenizer_id k, adapter_id k, tenant_id k,
                                prefix_hash k, block_hash k, block_index k, token_count k))
    (λ '(a, b, c, d, e, f, g, h), mkKey a b c d e f g h) _).
  by intros [].
Defined.

Definition key_new (model tokenizer tenant prefix hash : string) (index tokens : Z) : KvBlockKey :=
  mkKey model tokenizer None tenant prefix hash index tokens.

(** [ExternalKvBlockKey] has the fields of [KvBlockKey]; [external_hash] copies them. *)
Record ExternalKvBlockKey : Type := mkExternal {
  x_model_id : string;
  x_tokenizer_id : string;
  x_adapter_id : option string;
  x_tenant_id : string;
  x_prefix_hash : string;
  x_block_hash : string;
  x_block_index : Z;
  x_token_count : Z
}.

Definition external_hash (x : ExternalKvBlockKey) : KvBlockKey :=
  mkKey (x_model_id x) (x_tokenizer_id x) (x_adapter_id x) (x_tenant_id x)
    (x_prefix_hash x) (x_block_hash x) (x_block_index x) (x_token_count x).

(** ** Tiers *)

Inductive CacheTier : Type := Hbm | RemoteHbm | CpuDram | LocalSsd | ObjectStore.

#[export] Instance CacheTier_eq_dec : EqDecision CacheTier.
Proof. solve_decision. Defined.

Definition tier_fmt (t : CacheTier) : string :=
  match t with
  | Hbm => "hbm"
  | RemoteHbm => "remote_hbm"
  | CpuDram => "cpu_dram"
  | LocalSsd => "local_ssd"
  | ObjectStore => "object_store"
  end.

(** [str::to_ascii_lowercase]. *)
Definition ascii_lower (c : Ascii.ascii) : Ascii.ascii :=
  let n := Ascii.N_of_ascii c in
  if (65 <=? n)%N && (n <=? 90)%N then Ascii.ascii_of_N (n + 32) else c.
Fixpoint to_ascii_lowercase (s : string) : string :=
  match s with
  | EmptyString => EmptyString
  | String c s' => String (ascii_lower c) (to_ascii_lowercase s')
  end.

(** The error is [CacheTierParseError] with the offending value. *)
Definition tier_from_str (value : string) : result string CacheTier :=
  let v := to_ascii_lowercase value in
  let among (l : list string) := bool_decide (v ∈ l) in
  if among ["hbm"; "gpu"; "gpu_memory"; "vram"]%string then Ok Hbm
  else if among ["remote_hbm"; "remote_gpu"; "remote_gpu_memory"]%string then Ok RemoteHbm
  else if among ["cpu"; "dram"; "cpu_dram"; "host"; "host_memory"]%string then Ok CpuDram
  else if among ["ssd"; "local_ssd"; "nvme"; "disk"]%string then Ok LocalSsd
  else if among ["object"; "object_store"; "s3"; "blob"]%string then Ok ObjectStore
  else Err value.

(** ** Residency and workers *)

Record CacheResidency : Type := mkResidency {
  res_key : KvBlockKey;
  res_worker_id : string;
  res_tier : CacheTier;
  res_bytes : Z;
  res_last_access_ms : Z;
  res_ref_count : Z;
  res_pinned : bool
}.

#[export] Instance CacheResidency_eq_dec : EqDecision CacheResidency.
Proof. solve_decision. Defined.

Definition residency_hbm (worker : string) (key : KvBlockKey) (bytes : Z) : CacheResidency :=
  mkResidency key worker Hbm bytes 0 0 false.

Inductive EngineRole : Type := Aggregated | Prefill | Decode.
#[export] Instance EngineRole_eq_dec : EqDecision EngineRole.
Proof. solve_decision. Defined.

Definition can_prefill (r : EngineRole) : bool :=
  match r with Aggregated | Prefill => true | Decode => false end.
Definition can_decode (r : EngineRole) : bool :=
  match r with Aggregated | Decode => true | Prefill => false end.

Inductive EngineKind : Type := Vllm | Sglang | Lmcache | Mock.

Record WorkerState : Type := mkWorker {
  w_id : string;
  w_role : EngineRole;
  w_locality_domain : string;
  hbm_capacity_bytes : Z;
  hbm_used_bytes : Z;
  cpu_capacity_bytes : Z;
  cpu_used_bytes : Z;
  running_decodes : Z;
  queued_prefill_tokens : Z
}.

Definition worker_new (id domain : string) : WorkerState :=
  mkWorker id Aggregated domain (80 * 1024 * 1024 * 1024) 0 (512 * 1024 * 1024 * 1024) 0 0 0.
Definition worker_with_load (queued running : Z) (w : WorkerState) : WorkerState :=
  mkWorker (w_id w) (w_role w) (w_locality_domain w) (hbm_capacity_bytes w) (hbm_used_bytes w)
    (cpu_capacity_bytes w) (cpu_used_bytes w) running queued.
Definition worker_with_role (r : EngineRole) (w : WorkerState) : WorkerState :=
  mkWorker (w_id w) r (w_locality_domain w) (hbm_capacity_bytes w) (hbm_used_bytes w)
    (cpu_capacity_bytes w) (cpu_used_bytes w) (running_decodes w) (queued_prefill_tokens w).

Record EngineEndpoint : Type := mkEndpoint {
  e_id : string;
  e_kind : EngineKind;
  e_role : EngineRole;
  e_base_url : string;
  e_model_id : string;
  e_tokenizer_id : string;
  e_tenant_id : string;
  e_locality_domain : string
}.

Definition worker_state (e : EngineEndpoint) : WorkerState :=
  worker_with_role (e_role e) (worker_new (e_id e) (e_locality_domain e)).

(** ** Request hints *)

Record RequestKvHints : Type := mkHints {
  h_request_id : option string;
  h_model_id : option string;
  h_tokenizer_id : option string;
  h_adapter_id : option string;
  h_tenant_id : option string;
  h_session_id : option string;
  h_block_hashes : list string;
  h_block_tokens : option Z;
  h_estimated_decode_tokens : option Z;
  h_block_bytes : option Z
}.

(** [idx as u32]. *)
Definition as_u32 (n : Z) : Z := Z.land n u32_max.

Fixpoint to_blocks_loop (model tokenizer : string) (adapter : option string) (tenant : string)
    (tokens : Z) (parent : string) (idx : Z) (hashes : list string) : list KvBlockKey :=
  match hashes with
  | [] => []
  | h :: hashes' =>
      external_hash (mkExternal model tokenizer adapter tenant parent h (as_u32 idx) tokens)
      :: to_blocks_loop model tokenizer adapter tenant tokens h (idx + 1) hashes'
  end.

Definition to_blocks (h : RequestKvHints) (fb_model fb_tokenizer fb_tenant : string) : list KvBlockKey :=
  to_blocks_loop (default fb_model (h_model_id h)) (default fb_tokenizer (h_tokenizer_id h))
    (h_adapter_id h) (default fb_tenant (h_tenant_id h)) (default 64 (h_block_tokens h))
    (default "root"%string (h_session_id h)) 0 (h_block_hashes h).

Record SloTarget : Type := mkSlo { ttft_ms : Z; tpot_ms : Z }.
Definition slo_default : SloTarget := mkSlo 800 80.

Record RequestShape : Type := mkRequest {
  req_id : string;
  req_model_id : string;
  req_tokenizer_id : string;
  req_adapter_id : option string;
  req_tenant_id : string;
  req_session_id : option string;
  req_blocks : list KvBlockKey;
  req_estimated_decode_tokens : Z;
  req_slo : SloTarget
}.

(** [iter().sum()] over [u32]: panics on overflow. *)
Definition u32_sum (l : list Z) : option Z :=
  foldl (λ acc x, a ← acc; u32_add a x) (Some 0) l.
Definition input_tokens (r : RequestShape) : option Z := u32_sum (token_count <$> req_blocks r).

(** ** Cost model *)

Record CostModel : Type := mkCost {
  prefill_us_per_token : Z;
  decode_us_per_token : Z;
  queue_us_per_prefill_token : Z;
  running_decode_penalty_us : Z;
  hbm_hit_us : Z;
  remote_hbm_us_per_mb : Z;
  cpu_dram_us_per_mb : Z;
  local_ssd_us_per_mb : Z;
  object_store_us_per_mb : Z;
  cross_domain_penalty_us : Z
}.

Definition cost_default : CostModel := mkCost 45 80 4 1500 5 20 55 280 1800 350.

Definition u64_mul (a b : Z) : option Z := if a * b <=? u64_max then Some (a * b) else None.

Definition prefill_cost_us (c : CostModel) (tokens : Z) : option Z := u64_mul (prefill_us_per_token c) tokens.
Definition decode_cost_us (c : CostModel) (tokens running : Z) : option Z :=
  a ← u64_mul (decode_us_per_token c) tokens;
  b ← u64_mul (running_decode_penalty_us c) running;
  u64_add a b.
Definition queue_cost_us (c : CostModel) (w : WorkerState) : option Z :=
  u64_mul (queue_us_per_prefill_token c) (queued_prefill_tokens w).

(** [bytes.div_ceil(1 MiB).max(1)]. *)
Definition mib_ceil (bytes : Z) : Z := Z.max ((bytes + 1048575) / 1048576) 1.

Definition tier_us_per_mb (c : CostModel) (t : CacheTier) : Z :=
  match t with
  | Hbm | RemoteHbm => remote_hbm_us_per_mb c
  | CpuDram => cpu_dram_us_per_mb c
  | LocalSsd => local_ssd_us_per_mb c
  | ObjectStore => object_store_us_per_mb c
  end.

Definition transfer_cost_us (c : CostModel) (tier : CacheTier) (bytes : Z)
    (same_worker same_locality_domain : bool) : option Z :=
  if same_worker && bool_decide (tier = Hbm) then Some (hbm_hit_us c)
  else
    base ← u64_mul (tier_us_per_mb c tier) (mib_ceil bytes);
    if same_worker || same_locality_domain then Some base
    else u64_add base (cross_domain_penalty_us c).

(** ** The identity guard *)

Record IdentityScope : Type := mkScope {
  s_model_id : string;
  s_tokenizer_id : string;
  s_adapter_id : option string;
  s_tenant_id : string
}.

#[export] Instance IdentityScope_eq_dec : EqDecision IdentityScope.
Proof. solve_decision. Defined.
#[export] Instance IdentityScope_countable : Countable IdentityScope.
Proof.
  refine (inj_countable' (λ k, (s_model_id k, s_tokenizer_id k, s_adapter_id k, s_tenant_id k))
    (λ '(a, b, c, d), mkScope a b c d) _).
  by intros [].
Defined.

Inductive ReuseViolation : Type := VModel | VTokenizer | VAdapter | VTenant.
#[export] Instance ReuseViolation_eq_dec : EqDecision ReuseViolation.
Proof. solve_decision. Defined.

Definition is_correctness (v : ReuseViolation) : bool :=
  match v with VModel | VTokenizer | VAdapter => true | VTenant => false end.
Definition is_privacy (v : ReuseViolation) : bool :=
  match v with VTenant => true | _ => false end.
Definition violation_str (v : ReuseViolation) : string :=
  match v with
  | VModel => "cross_model"
  | VTokenizer => "cross_tokenizer"
  | VAdapter => "cross_adapter"
  | VTenant => "cross_tenant"
  end.

Definition from_key (k : KvBlockKey) : IdentityScope :=
  mkScope (model_id k) (tokenizer_id k) (adapter_id k) (tenant_id k).

Definition reuse_violation (s : IdentityScope) (k : KvBlockKey) : option ReuseViolation :=
  if decide (s_model_id s = model_id k) then
    if decide (s_tokenizer_id s = tokenizer_id k) then
      if decide (s_adapter_id s = adapter_id k) then
        if decide (s_tenant_id s = tenant_id k) then None else Some VTenant
      else Some VAdapter
    else Some VTokenizer
  else Some VModel.

Definition reuse_violation_against (s o : IdentityScope) : option ReuseViolation :=
  if decide (s_model_id s = s_model_id o) then
    if decide (s_tokenizer_id s = s_tokenizer_id o) then
      if decide (s_adapter_id s = s_adapter_id o) then
        if decide (s_tenant_id s = s_tenant_id o) then None else Some VTenant
      else Some VAdapter
    else Some VTokenizer
  else Some VModel.

Definition scope_matches (s : IdentityScope) (k : KvBlockKey) : bool :=
  match reuse_violation s k with None => true | Some _ => false end.

(** ** Lemmas *)

Lemma reuse_violation_against_None s o : reuse_violation_against s o = None ↔ s = o.
Proof.
  unfold reuse_violation_against. destruct s, o; simpl. repeat case_decide; naive_solver.
Qed.

Lemma reuse_violation_key s k : reuse_violation s k = reuse_violation_against s (from_key k).
Proof. done. Qed.

Lemma scope_matches_iff s k : scope_matches s k = true ↔ s = from_key k.
Proof.
  unfold scope_matches. rewrite reuse_violation_key, <- reuse_violation_against_None.
  destruct (reuse_violation_against s (from_key k)); naive_solver.
Qed.

#[export] Hint Rewrite reuse_violation_against_None scope_matches_iff : quill.

Lemma to_blocks_loop_lookup model tok ad ten tokens parent idx hashes i k :
  to_blocks_loop model tok ad ten tokens parent idx hashes !! i = Some k →
  from_key k = mkScope model tok ad ten ∧ hashes !! i = Some (block_hash k) ∧ token_count k = tokens ∧
  block_index k = as_u32 (idx + Z.of_nat i) ∧
  prefix_hash k = match i with O => parent | S j => default ""%string (hashes !! j) end.
Proof.
  revert parent idx i. induction hashes as [|h hashes IH]; intros parent idx i; [done|].
  destruct i as [|i]; simpl.
  - intros [= <-]. simpl. rewrite Z.add_0_r. done.
  - intros (? & ? & ? & Hidx & Hp)%IH. split_and!; try done.
    + rewrite Hidx. f_equal. lia.
    + rewrite Hp. by destruct i.
Qed.

Lemma to_blocks_loop_length model tok ad ten tokens parent idx hashes :
  length (to_blocks_loop model tok ad ten tokens parent idx hashes) = length hashes.
Proof. revert parent idx. induction hashes; simpl; intros; congruence. Qed.

(** ** Theorems *)

(** The identity guard is exact: a cached object may serve a requester iff model,
    tokenizer, adapter (including its absence) and tenant all agree; for a block key
    this is equality with the key's own scope. *)
Theorem reuse_guard_exact s o k :
  (reuse_violation_against s o = None ↔ s = o) ∧
  (reuse_violation s k = None ↔ s = from_key k) ∧ (scope_matches s k = true ↔ s = from_key k).
Proof.
  split; [apply reuse_violation_against_None|]. split; [|apply scope_matches_iff].
  rewrite reuse_violation_key. apply reuse_violation_against_None.
Qed.

(** A reported violation names the first axis, in priority order, on which the two
    identities differ; it is a privacy violation iff only the tenant differs. *)
Theorem reuse_violation_first s o :
  (reuse_violation_against s o = Some VModel ↔ s_model_id s ≠ s_model_id o) ∧
  (reuse_violation_against s o = Some VTokenizer ↔
     s_model_id s = s_model_id o ∧ s_tokenizer_id s ≠ s_tokenizer_id o) ∧
  (reuse_violation_against s o = Some VAdapter ↔
     s_model_id s = s_model_id o ∧ s_tokenizer_id s = s_tokenizer_id o ∧ s_adapter_id s ≠ s_adapter_id o) ∧
  (is_privacy <$> reuse_violation_against s o = Some true ↔
     s_model_id s = s_model_id o ∧ s_tokenizer_id s = s_tokenizer_id o ∧ s_adapter_id s = s_adapter_id o ∧
     s_tenant_id s ≠ s_tenant_id o).
Proof. unfold reuse_violation_against. repeat case_decide; simpl; naive_solver. Qed.

(** Displaying a tier and parsing it back gives the tier, whatever the letter case. *)
Theorem tier_roundtrip t s : to_ascii_lowercase s = tier_fmt t → tier_from_str s = Ok t.
Proof. intros E. unfold tier_from_str. rewrite E. destruct t; vm_compute; reflexivity. Qed.

Lemma tier_roundtrip_witness : tier_from_str "Local_SSD" = Ok LocalSsd.
Proof. apply (tier_roundtrip LocalSsd "Local_SSD"). reflexivity. Defined.

(** [to_blocks] chains the hinted hashes: one block per hash, in order, each with the
    request's scope, its position, and the previous hash (the session or "root" for the
    first) as its prefix. *)
Theorem to_blocks_chain h m t n :
  length (to_blocks h m t n) = length (h_block_hashes h) ∧
  ∀ i k, to_blocks h m t n !! i = Some k →
    from_key k = mkScope (default m (h_model_id h)) (default t (h_tokenizer_id h)) (h_adapter_id h)
                   (default n (h_tenant_id h)) ∧
    h_block_hashes h !! i = Some (block_hash k) ∧ block_index k = as_u32 (Z.of_nat i) ∧
    token_count k = default 64 (h_block_tokens h) ∧
    prefix_hash k = match i with
                    | O => default "root"%string (h_session_id h)
                    | S j => default ""%string (h_block_hashes h !! j)
                    end.
Proof.
  unfold to_blocks. split; [apply to_blocks_loop_length|].
  intros i k (? & ? & ? & Hi & ?)%to_blocks_loop_lookup. rewrite Z.add_0_l in Hi. done.
Qed.
