(* ===== verification/ShardedMap.v ===== *)
(** * The sharded map

    crates/quillcache-store/src/sharded_map.rs: a string-keyed map split into
    shards by [hash(key) % n].  The hash is the standard library's [DefaultHasher],
    whose algorithm is unspecified: it is the parameter of class [KeyHash].  The view
    of a well-routed sharded map is an ordinary map, and the two access paths
    ([with_shard], [with_all]) are specified on it. *)
From S2P Require Import Prelude.

(** [DefaultHasher] on a string key: a deterministic function to [u64]. *)
Class KeyHash : Type := {
  key_hash : string → Z;
  key_hash_u64 : ∀ k, is_u64 (key_hash k)
}.

Definition DEFAULT_SHARDS : Z := 16.

(** The shards, each a map behind its own lock. *)
Notation ShardedMap V := (list (gmap string V)).

Section sharded_map.
Context `{KeyHash} {V : Type}.

Implicit Types m : ShardedMap V.

Definition sm_new (num_shards : Z) : ShardedMap V := replicate (Z.to_nat (Z.max num_shards 1)) ∅.

Definition shard_count m : Z := Z.of_nat (length m).

(** [h.finish() as usize % self.shards.len()]; the remainder by 0 panics. *)
Definition shard_idx m (key : string) : option Z :=
  if shard_count m =? 0 then None else Some (key_hash key mod shard_count m).

(** [f] runs on the one shard that owns [key] and may panic. *)
Definition with_shard {R} (key : string) (f : gmap string V → option (R * gmap string V)) m :
    option (R * ShardedMap V) :=
  idx ← shard_idx m key;
  s ← vget m idx;
  '(r, s') ← f s;
  m' ← vset m idx s';
  Some (r, m').

(** [f] runs on all shards, in ascending order. *)
Definition with_all {R} (f : list (gmap string V) → option (R * list (gmap string V))) m :
    option (R * ShardedMap V) := f m.

Definition sm_len m : Z := foldr Z.add 0 ((λ s, Z.of_nat (size s)) <$> m).

(** The view: every entry of every shard. *)
Definition sm_view m : gmap string V := ⋃ m.

(** Every key lives in the shard its hash selects. *)
Definition sm_wf m : Prop :=
  0 < shard_count m ∧
  ∀ i s k, vget m i = Some s → is_Some (s !! k) → key_hash k mod shard_count m = i.

(** ** Lemmas *)

Lemma shard_idx_ok m k :
  sm_wf m → ∃ i s, shard_idx m k = Some i ∧ vget m i = Some s ∧ 0 ≤ i < shard_count m.
Proof.
  intros [Hn _]. unfold shard_idx. destruct (Z.eqb_spec (shard_count m) 0); [lia|].
  pose proof (Z.mod_pos_bound (key_hash k) (shard_count m) ltac:(lia)).
  destruct (vget_is_Some m (key_hash k mod shard_count m)) as [s Hs]; [unfold shard_count in *; lia|].
  eauto.
Qed.

Lemma shard_idx_mod m k i : shard_idx m k = Some i → i = key_hash k mod shard_count m.
Proof. unfold shard_idx. by destruct (shard_count m =? 0); intros [=]. Qed.

Lemma elem_of_shards m s : s ∈ m ↔ ∃ i, vget m i = Some s.
Proof.
  rewrite list_elem_of_lookup. split.
  - intros [i Hi]. exists (Z.of_nat i). apply vget_Some. rewrite Nat2Z.id. split; [lia|done].
  - intros [i [_ Hi]%vget_Some]. eauto.
Qed.

Lemma union_list_lookup (ms : list (gmap string V)) (k : string) i s :
  ms !! i = Some s → (∀ j s', ms !! j = Some s' → j ≠ i → s' !! k = None) → ⋃ ms !! k = s !! k.
Proof.
  revert i. induction ms as [|s0 ms IH]; intros i Hi Hu; [done|]. simpl.
  destruct i as [|i]; simpl in Hi.
  - injection Hi as ->. rewrite lookup_union. assert (⋃ ms !! k = None) as ->; [|by destruct (s !! k)].
    apply lookup_union_list_None, Forall_forall. intros s' [j Hj]%list_elem_of_lookup.
    apply (Hu (S j)); [done|lia].
  - rewrite lookup_union, (Hu 0%nat s0) by (done || lia). rewrite (IH i); [by destruct (s !! k)|done|].
    intros j s' Hj Hne. apply (Hu (S j)); [done|lia].
Qed.

(** A key's value in the view is its value in the shard its hash selects. *)
Lemma sm_view_lookup m k i s :
  sm_wf m → shard_idx m k = Some i → vget m i = Some s → sm_view m !! k = s !! k.
Proof.
  intros [Hn Hwf] Hi Hs. apply vget_Some in Hs as Hs'. destruct Hs' as [Hi0 Hs'].
  apply (union_list_lookup m k (Z.to_nat i)); [done|]. intros j s' Hj Hne.
  destruct (s' !! k) as [v|] eqn:E; [|done]. exfalso.
  assert (vget m (Z.of_nat j) = Some s') as Hg by (apply vget_Some; rewrite Nat2Z.id; split; [lia|done]).
  pose proof (Hwf _ _ _ Hg ltac:(eauto)) as Hk. apply shard_idx_mod in Hi. lia.
Qed.

Definition view_set (w : gmap string V) (k : string) (o : option V) : gmap string V :=
  match o with Some v => <[k := v]> w | None => delete k w end.

Lemma view_set_lookup (w : gmap string V) k o k' : view_set w k o !! k' = if decide (k = k') then o else w !! k'.
Proof.
  destruct o; simpl; case_decide; subst;
    rewrite ?lookup_insert_eq, ?lookup_delete_eq, ?lookup_insert_ne, ?lookup_delete_ne by done; done.
Qed.

Lemma sm_vset_wf m k i s s' :
  sm_wf m → shard_idx m k = Some i → vget m i = Some s → (∀ k', k' ≠ k → s' !! k' = s !! k') →
  sm_wf (<[Z.to_nat i := s']> m) ∧ sm_view (<[Z.to_nat i := s']> m) = view_set (sm_view m) k (s' !! k).
Proof.
  intros Hwf Hi Hs Ho. pose proof Hwf as [Hn Hr]. pose proof (vget_lt _ _ _ Hs) as Hlt.
  assert (shard_count (<[Z.to_nat i := s']> m) = shard_count m) as Hc by (unfold shard_count; by rewrite length_insert).
  assert (sm_wf (<[Z.to_nat i := s']> m)) as Hwf'.
  { split; rewrite Hc; [done|]. intros j t k' Hj Hk'. rewrite vget_insert in Hj by done. case_decide as Hd.
    - subst j. injection Hj as <-. destruct (decide (k' = k)) as [->|Hne]; [symmetry; by eapply shard_idx_mod|].
      rewrite Ho in Hk' by done. by eapply Hr.
    - by eapply Hr. }
  split; [done|]. apply map_eq. intros k'. rewrite view_set_lookup.
  destruct (shard_idx_ok _ k' Hwf') as (i' & t & Hi' & Ht & _).
  rewrite (sm_view_lookup _ _ _ _ Hwf' Hi' Ht). rewrite vget_insert in Ht by done.
  assert (shard_idx m k' = Some i') as Him by (unfold shard_idx in *; by rewrite Hc in Hi').
  case_decide as Hd; case_decide as Hk.
  - congruence.
  - subst i'. injection Ht as <-. rewrite Ho by done. symmetry. by eapply sm_view_lookup.
  - subst k'. congruence.
  - symmetry. by eapply sm_view_lookup.
Qed.

(** The specification of [with_shard] for closures that touch only their key. *)
Lemma with_shard_spec {R} m k (f : gmap string V → option (R * gmap string V)) r o :
  sm_wf m →
  (∀ s, s !! k = sm_view m !! k →
     ∃ s', f s = Some (r, s') ∧ s' !! k = o ∧ ∀ k', k' ≠ k → s' !! k' = s !! k') →
  ∃ m', with_shard k f m = Some (r, m') ∧ sm_wf m' ∧ sm_view m' = view_set (sm_view m) k o.
Proof.
  intros Hwf Hf. destruct (shard_idx_ok m k Hwf) as (i & s & Hi & Hs & _).
  destruct (Hf s) as (s' & Hfs & Hk & Ho); [symmetry; by eapply sm_view_lookup|].
  unfold with_shard. rewrite Hi. cbn [mbind option_bind]. rewrite Hs. cbn [mbind option_bind]. rewrite Hfs.
  cbn [mbind option_bind]. rewrite (proj2 (vset_Some _ _ _ _)) by (split; [by eapply vget_lt|done]).
  destruct (sm_vset_wf m k i s s' Hwf Hi Hs Ho) as [? Hv]. rewrite Hk in Hv. cbn [mbind option_bind]. eauto.
Qed.

Lemma sm_new_wf n : sm_wf (sm_new n) ∧ sm_view (sm_new n) = ∅.
Proof.
  assert (sm_wf (sm_new n)) as Hwf.
  { unfold sm_new. split.
    - unfold shard_count. rewrite length_replicate. lia.
    - intros i s k [_ [-> _]%lookup_replicate]%vget_Some [v Hv]. by rewrite lookup_empty in Hv. }
  split; [done|]. apply map_eq. intros k. destruct (shard_idx_ok _ k Hwf) as (i & s & Hi & Hs & _).
  rewrite (sm_view_lookup _ _ _ _ Hwf Hi Hs). apply vget_Some in Hs as [_ [-> _]%lookup_replicate]. by rewrite !lookup_empty.
Qed.

(** [flat_map(|s| s.iter())] over the shards enumerates the view. *)
Context `{HashIter}.

Definition sm_iter m : list (string * V) := s ← m; hiter s.

Lemma elem_of_sm_iter m k v : sm_wf m → (k, v) ∈ sm_iter m ↔ sm_view m !! k = Some v.
Proof.
  intros Hwf. unfold sm_iter. rewrite list_elem_of_bind. setoid_rewrite elem_of_hiter.
  destruct (shard_idx_ok m k Hwf) as (i & s & Hi & Hs & _). rewrite (sm_view_lookup _ _ _ _ Hwf Hi Hs). split.
  - intros (s' & Hk & (j & Hj)%elem_of_shards). destruct Hwf as [_ Hr].
    assert (i = j) as -> by (rewrite <- (Hr _ _ _ Hj ltac:(eauto)); by apply shard_idx_mod). congruence.
  - intros Hk. exists s. split; [done|]. apply elem_of_shards. eauto.
Qed.

Lemma NoDup_bind_fst (l : list (gmap string V)) :
  (∀ i j s t k, l !! i = Some s → l !! j = Some t → is_Some (s !! k) → is_Some (t !! k) → i = j) →
  NoDup ((s ← l; hiter s).*1).
Proof.
  induction l as [|s l IH]; intros Hd; simpl; [constructor|]. rewrite fmap_app. apply NoDup_app. split_and!.
  - apply NoDup_hkeys.
  - intros k Hk%elem_of_hkeys ([k' v] & -> & Hin)%list_elem_of_fmap.
    apply list_elem_of_bind in Hin as (t & Ht & [j Hj]%list_elem_of_lookup). apply elem_of_hiter in Ht.
    discriminate (Hd 0%nat (S j) s t k' eq_refl Hj Hk ltac:(eauto)).
  - apply IH. intros i j t u k Ht Hu Htk Huk. assert (S i = S j); [|lia]. by apply (Hd (S i) (S j) t u k).
Qed.

Lemma NoDup_sm_iter m : sm_wf m → NoDup (sm_iter m).*1.
Proof.
  intros [_ Hr]. apply NoDup_bind_fst. intros i j s t k Hs Ht Hks Hkt.
  assert (∀ i s, m !! i = Some s → vget m (Z.of_nat i) = Some s) as Hg
    by (intros; apply vget_Some; rewrite Nat2Z.id; split; [lia|done]).
  pose proof (Hr _ _ _ (Hg _ _ Hs) Hks). pose proof (Hr _ _ _ (Hg _ _ Ht) Hkt). lia.
Qed.

Lemma sm_iter_perm m : sm_wf m → sm_iter m ≡ₚ map_to_list (sm_view m).
Proof.
  intros Hwf. apply NoDup_Permutation.
  - eapply NoDup_fmap_1, NoDup_sm_iter, Hwf.
  - apply NoDup_map_to_list.
  - intros [k v]. by rewrite elem_of_sm_iter, elem_of_map_to_list.
Qed.

(** Applying a per-object update to every shard, then dropping entries. *)
Lemma sm_fmap_wf m (f : gmap string V → gmap string V) :
  sm_wf m → (∀ s k, is_Some (f s !! k) → is_Some (s !! k)) → sm_wf (f <$> m).
Proof.
  intros [Hn Hr] Hf. assert (shard_count (f <$> m) = shard_count m) as Hc by (unfold shard_count; by rewrite length_fmap).
  split; rewrite Hc; [done|]. intros i s k [Hi (s0 & -> & Hs)%list_lookup_fmap_Some]%vget_Some Hk.
  apply (Hr i s0 k); [by apply vget_Some|]. by apply Hf.
Qed.

Lemma sm_fmap_view m (f : gmap string V → gmap string V) k :
  sm_wf m → (∀ s k, is_Some (f s !! k) → is_Some (s !! k)) →
  ∃ s, sm_view m !! k = s !! k ∧ sm_view (f <$> m) !! k = f s !! k.
Proof.
  intros Hwf Hf. pose proof (sm_fmap_wf m f Hwf Hf) as Hwf'.
  destruct (shard_idx_ok m k Hwf) as (i & s & Hi & Hs & _). exists s. split; [by eapply sm_view_lookup|].
  eapply (sm_view_lookup _ _ i); [done| |].
  - unfold shard_idx, shard_count in *. by rewrite length_fmap.
  - apply vget_Some in Hs as [? Hs]. apply vget_Some. split; [done|]. by rewrite list_lookup_fmap, Hs.
Qed.

Lemma sm_len_iter m : sm_len m = Z.of_nat (length (sm_iter m)).
Proof.
  induction m as [|s m IH]; [done|]. change (sm_iter (s :: m)) with (hiter s ++ sm_iter m).
  change (sm_len (s :: m)) with (Z.of_nat (size s) + sm_len m).
  rewrite length_app, IH, (hiter_perm _ _ s), length_map_to_list. lia.
Qed.

(** Sharding is invisible: on a well-routed map, running a closure that reads and
    updates its own key under [with_shard] updates exactly that key of the flat view, and
    [len] counts the entries of the view. *)
Theorem sharded_map_refines {R} m k (f : option V → R * option V) :
  sm_wf m →
  ∃ m', with_shard k (λ s, let '(r, o) := f (s !! k) in Some (r, view_set s k o)) m
          = Some ((f (sm_view m !! k)).1, m') ∧
    sm_wf m' ∧ sm_view m' = view_set (sm_view m) k (f (sm_view m !! k)).2 ∧
    sm_len m' = Z.of_nat (size (sm_view m')).
Proof.
  intros Hwf. destruct (f (sm_view m !! k)) as [r o] eqn:Ef. simpl.
  destruct (with_shard_spec m k (λ s, let '(r, o) := f (s !! k) in Some (r, view_set s k o)) r o Hwf)
    as (m' & ? & Hwf' & ?).
  { intros s ->. rewrite Ef. eexists. split; [done|]. split; [by rewrite view_set_lookup, decide_True|].
    intros k' Hk'. by rewrite view_set_lookup, decide_False. }
  exists m'. split_and!; [done..|].
  by rewrite sm_len_iter, (sm_iter_perm m' Hwf'), length_map_to_list.
Qed.
End sharded_map.

(** A concrete hash, for examples: the length of the key. *)
Definition length_hash : KeyHash.
Proof.
  refine {| key_hash k := Z.of_nat (String.length k) mod 18446744073709551616 |}.
  intros k. unfold is_u64, u64_max. pose proof (Z.mod_pos_bound (Z.of_nat (String.length k)) 18446744073709551616 ltac:(lia)). lia.
Defined.

Lemma sharded_map_refines_witness :
  ∃ m' : ShardedMap Z,
    with_shard (H := length_hash) "k" (λ s, let '(r, o) := (s !! "k"%string, Some 7) in Some (r, view_set s "k" o))
      (sm_new 16) = Some (sm_view (sm_new 16) !! "k"%string, m') ∧
    sm_wf (H := length_hash) m' ∧ sm_view m' = view_set (sm_view (sm_new 16)) "k" (Some 7) ∧
    sm_len m' = Z.of_nat (size (sm_view m')).
Proof.
  apply (sharded_map_refines (H := length_hash) (H0 := canonical_iter) (sm_new 16) "k" (λ o, (o, Some 7))).
  apply (sm_new_wf (H := length_hash) 16).
Defined.
