(* ===== verification/CountMin.v ===== *)
(** * The count-min sketch

    crates/quillcache-store/src/count_min_sketch.rs: [depth] rows of [width] byte
    counters, saturating, halved once [width * depth] increments have accumulated.
    The base hash of a key is the parameter [KeyHash] of ShardedMap; the per-row
    mixing is written out on 64-bit words. *)
From S2P Require Import Prelude ShardedMap.

Definition DEFAULT_WIDTH : Z := 4096.
Definition DEFAULT_DEPTH : Z := 4.

Record CountMinSketch : Type := mkCMS {
  width : Z;
  depth : Z;
  table : list (list Z);
  total_increments : Z
}.

Definition cms_new (w d : Z) : CountMinSketch :=
  let w := if 0 <? w then w else DEFAULT_WIDTH in
  let d := if 0 <? d then d else DEFAULT_DEPTH in
  mkCMS w d (replicate (Z.to_nat d) (replicate (Z.to_nat w) 0)) 0.

Definition cms_default : CountMinSketch := cms_new DEFAULT_WIDTH DEFAULT_DEPTH.

(** [u64] wrapping arithmetic. *)
Definition wrap64 (z : Z) : Z := Z.land z u64_max.

Section cms.
Context `{KeyHash}.

Definition row_hash (key : string) (seed : Z) : Z :=
  let h := key_hash key in
  let h := Z.lxor h (wrap64 (wrap64 (seed * 11400714819323198485) + 5871781006564002453)) in
  let h := Z.lxor h (Z.shiftr h 33) in
  let h := wrap64 (h * 18397679294719823053) in
  Z.lxor h (Z.shiftr h 33).

(** One pass over the rows, from row [i]: the new rows and the running minimum. *)
Fixpoint increment_rows (w : Z) (key : string) (i : Z) (rows : list (list Z)) (min_val : Z) :
    option (list (list Z) * Z) :=
  match rows with
  | [] => Some ([], min_val)
  | row :: rows' =>
      let idx := row_hash key i mod w in
      c ← vget row idx;
      let c' := Z.min 255 (c + 1) in
      row' ← vset row idx c';
      '(rows'', mn) ← increment_rows w key (i + 1) rows' (Z.min min_val c');
      Some (row' :: rows'', mn)
  end.

Definition decay (s : CountMinSketch) : CountMinSketch :=
  mkCMS (width s) (depth s) ((λ row : list Z, (λ c, Z.shiftr c 1) <$> row) <$> table s) 0.

Definition increment (key : string) (s : CountMinSketch) : option (Z * CountMinSketch) :=
  '(t, mn) ← increment_rows (width s) key 0 (table s) 255;
  n ← u64_add (total_increments s) 1;
  let s' := mkCMS (width s) (depth s) t n in
  Some (mn, if width s * depth s <=? n then decay s' else s').

Fixpoint count_rows (w : Z) (key : string) (i : Z) (rows : list (list Z)) (min_val : Z) : option Z :=
  match rows with
  | [] => Some min_val
  | row :: rows' => c ← vget row (row_hash key i mod w);
                    count_rows w key (i + 1) rows' (Z.min min_val c)
  end.

Definition count (key : string) (s : CountMinSketch) : option Z := count_rows (width s) key 0 (table s) 255.

(** ** Reference: exact counts, saturating and aged the same way *)

Definition exact_increment (key : string) (age : bool) (ex : gmap string Z) : gmap string Z :=
  let ex := <[key := Z.min 255 (default 0 (ex !! key) + 1)]> ex in
  if age then (λ c, Z.shiftr c 1) <$> ex else ex.

(** The sketch and the exact counts after a sequence of increments. *)
Fixpoint run_keys (keys : list string) (s : CountMinSketch) (ex : gmap string Z) :
    option (CountMinSketch * gmap string Z) :=
  match keys with
  | [] => Some (s, ex)
  | k :: keys' =>
      '(_, s') ← increment k s;
      run_keys keys' s' (exact_increment k (width s * depth s <=? total_increments s + 1) ex)
  end.

(** ** Invariant *)

Definition row_ok (w : Z) (ex : gmap string Z) (i : Z) (row : list Z) : Prop :=
  Z.of_nat (length row) = w ∧ Forall (λ c, 0 ≤ c ≤ 255) row ∧
  ∀ k, ∃ c, vget row (row_hash k i mod w) = Some c ∧ default 0 (ex !! k) ≤ c.

Record cms_inv (s : CountMinSketch) (ex : gmap string Z) : Prop := {
  cm_width : 0 < width s;
  cm_depth : 0 < depth s;
  cm_area : width s * depth s ≤ u64_max;
  cm_total : 0 ≤ total_increments s < width s * depth s;
  cm_rows : Z.of_nat (length (table s)) = depth s;
  cm_row : ∀ i row, vget (table s) i = Some row → row_ok (width s) ex i row;
  cm_exact : ∀ k c, ex !! k = Some c → 0 ≤ c ≤ 255
}.

Lemma exact_bounds s ex k : cms_inv s ex → 0 ≤ default 0 (ex !! k) ≤ 255.
Proof. intros HI. destruct (ex !! k) as [c|] eqn:E; simpl; [|lia]. by eapply cm_exact. Qed.

Lemma count_rows_spec w key i rows mn lo :
  (∀ j row, vget rows j = Some row →
     ∃ c, vget row (row_hash key (i + j) mod w) = Some c ∧ lo ≤ c ≤ 255) →
  lo ≤ mn ≤ 255 → ∃ r, count_rows w key i rows mn = Some r ∧ lo ≤ r ≤ 255.
Proof.
  revert i mn. induction rows as [|row rows IH]; intros i mn Hr Hmn; simpl; [eauto|].
  destruct (Hr 0 row) as (c & Hc & Hle); [done|]. rewrite Z.add_0_r in Hc. rewrite Hc. cbn [mbind option_bind].
  apply IH; [|lia]. intros j row' Hj. replace (i + 1 + j) with (i + (j + 1)) by lia. apply Hr.
  apply vget_Some in Hj as [? Hj]. apply vget_Some. split; [lia|].
  replace (Z.to_nat (j + 1)) with (S (Z.to_nat j)) by lia. done.
Qed.

Lemma row_index (row : list Z) w key i : 0 < w → Z.of_nat (length row) = w → is_Some (vget row (row_hash key i mod w)).
Proof.
  intros Hw Hl. apply vget_is_Some. pose proof (Z.mod_pos_bound (row_hash key i) w Hw). lia.
Qed.

(** Incrementing one row keeps its lower bounds for the incremented exact counts. *)
Lemma row_ok_increment w ex i row key c :
  0 < w → row_ok w ex i row → vget row (row_hash key i mod w) = Some c →
  row_ok w (<[key := Z.min 255 (default 0 (ex !! key) + 1)]> ex) i
    (<[Z.to_nat (row_hash key i mod w) := Z.min 255 (c + 1)]> row).
Proof.
  intros Hw (Hlen & Hall & Hlo) Hc. pose proof (vget_lt _ _ _ Hc) as Hb. split_and!.
  - by rewrite length_insert.
  - apply Forall_insert; [done|]. assert (0 ≤ c ≤ 255); [|lia].
    rewrite Forall_forall in Hall. apply Hall. apply vget_Some in Hc as [_ Hc]. by eapply list_elem_of_lookup_2.
  - intros k. rewrite vget_insert by done. case_decide as Hd.
    + eexists. split; [done|]. destruct (Hlo k) as (c' & Hc' & Hle). rewrite <- Hd, Hc in Hc'. injection Hc' as <-.
      destruct (decide (key = k)) as [->|Hne].
      * rewrite lookup_insert_eq. simpl. lia.
      * rewrite lookup_insert_ne by done. destruct (Hlo key) as (c'' & Hc'' & Hle'').
        assert (default 0 (ex !! k) ≤ 255).
        { etrans; [exact Hle|]. rewrite Forall_forall in Hall. apply Hall.
          apply vget_Some in Hc as [_ Hc]. by eapply list_elem_of_lookup_2. }
        lia.
    + destruct (Hlo k) as (c' & Hc' & Hle). exists c'. split; [done|].
      rewrite lookup_insert_ne; [done|]. intros ->. done.
Qed.

Lemma increment_rows_spec w key ex i rows mn :
  0 < w → (∀ j row, vget rows j = Some row → row_ok w ex (i + j) row) →
  let ex' := <[key := Z.min 255 (default 0 (ex !! key) + 1)]> ex in
  default 0 (ex !! key) + 1 ≤ mn ∨ mn = 255 → mn ≤ 255 →
  ∃ rows' mn', increment_rows w key i rows mn = Some (rows', mn') ∧ length rows' = length rows ∧
    (∀ j row, vget rows' j = Some row → row_ok w ex' (i + j) row) ∧
    Z.min 255 (default 0 (ex !! key) + 1) ≤ mn' ≤ 255.
Proof.
  intros Hw Hr ex'. revert i mn Hr. induction rows as [|row rows IH]; intros i mn Hr Hmn H255; simpl.
  { exists [], mn. split; [done|]. split; [done|]. split; [|lia]. intros j row Hj%vget_lt. simpl in Hj. lia. }
  assert (row_ok w ex i row) as Hrow by (rewrite <- (Z.add_0_r i); by apply Hr).
  pose proof Hrow as (Hlen & Hall & Hlo). destruct (Hlo key) as (c & Hc & Hle). rewrite Hc. cbn [mbind option_bind].
  rewrite (proj2 (vset_Some _ _ _ _)) by (split; [by eapply vget_lt|done]). cbn [mbind option_bind].
  destruct (IH (i + 1) (Z.min mn (Z.min 255 (c + 1)))) as (rows' & mn' & -> & Hl' & Hr' & Hmn'); [|lia..|].
  { intros j row' Hj. replace (i + 1 + j) with (i + (j + 1)) by lia. apply Hr.
    apply vget_Some in Hj as [? Hj]. apply vget_Some. split; [lia|].
    replace (Z.to_nat (j + 1)) with (S (Z.to_nat j)) by lia. done. }
  cbn [mbind option_bind]. eexists _, mn'. split; [done|]. split; [simpl; lia|]. split; [|done].
  intros j row' [Hj0 Hj]%vget_Some. destruct (Z.to_nat j) as [|j'] eqn:Ej; simpl in Hj.
  - injection Hj as <-. replace (i + j) with i by lia. by apply row_ok_increment.
  - replace (i + j) with (i + 1 + Z.of_nat j') by lia. apply Hr'. apply vget_Some. rewrite Nat2Z.id. split; [lia|done].
Qed.

Lemma shiftr1 c : Z.shiftr c 1 = c / 2.
Proof. by rewrite Z.shiftr_div_pow2. Qed.

Lemma cms_inv_decay s ex : cms_inv s ex → cms_inv (decay s) ((λ c, Z.shiftr c 1) <$> ex).
Proof.
  intros [Hw Hd Ha Ht Hl Hr He]. constructor; simpl; try done; try lia.
  - by rewrite length_fmap.
  - intros i row [Hi (row0 & -> & Hrow)%list_lookup_fmap_Some]%vget_Some.
    destruct (Hr i row0) as (Hlen & Hall & Hlo); [by apply vget_Some|]. split_and!.
    + by rewrite length_fmap.
    + rewrite Forall_fmap. eapply Forall_impl; [exact Hall|]. intros c Hc. simpl in *. rewrite shiftr1.
      split; [apply Z.div_pos; lia|]. apply Z.div_le_upper_bound; lia.
    + intros k. destruct (Hlo k) as (c & Hc & Hle). exists (Z.shiftr c 1). split.
      * apply vget_Some in Hc as [? Hc]. apply vget_Some. split; [done|]. by rewrite list_lookup_fmap, Hc.
      * rewrite lookup_fmap. destruct (ex !! k); simpl in *; rewrite ?shiftr1.
        -- apply Z.div_le_mono; lia.
        -- apply Z.div_pos; lia.
  - intros k c (c0 & <- & Hc)%lookup_fmap_Some. specialize (He _ _ Hc). rewrite shiftr1.
    split; [apply Z.div_pos; lia|]. apply Z.div_le_upper_bound; lia.
Qed.

Lemma increment_spec s ex key :
  cms_inv s ex →
  ∃ mn s', increment key s = Some (mn, s') ∧ width s' = width s ∧ depth s' = depth s ∧
    cms_inv s' (exact_increment key (width s * depth s <=? total_increments s + 1) ex) ∧
    Z.min 255 (default 0 (ex !! key) + 1) ≤ mn ≤ 255.
Proof.
  intros HI. pose proof HI as [Hw Hd Ha Ht Hl Hr He]. pose proof (exact_bounds s ex key HI) as Hb.
  unfold increment.
  destruct (increment_rows_spec (width s) key ex 0 (table s) 255) as (t & mn & -> & Hlt & Hrt & Hmn); [done|done|by right|lia|].
  cbn [mbind option_bind]. rewrite u64_add_ok by lia. cbn [mbind option_bind].
  eexists _, _. split; [done|].
  assert (∀ n, 0 ≤ n < width s * depth s →
    cms_inv (mkCMS (width s) (depth s) t n) (<[key := Z.min 255 (default 0 (ex !! key) + 1)]> ex)) as HI'.
  { intros n Hn. constructor; simpl; try done; try lia.
    intros k c [[<- <-]|[_ ?]]%lookup_insert_Some; [lia|eauto]. }
  unfold exact_increment. destruct (Z.leb_spec (width s * depth s) (total_increments s + 1)).
  - split_and!; [done..| |lia|lia]. apply (cms_inv_decay (mkCMS (width s) (depth s) t 0)). apply HI'. lia.
  - split_and!; [done..| |lia|lia]. apply HI'. lia.
Qed.

Lemma vget_replicate {A} n (x : A) i y : vget (replicate n x) i = Some y → y = x ∧ 0 ≤ i < Z.of_nat n.
Proof. intros [? [? ?]%lookup_replicate]%vget_Some. split; [done|lia]. Qed.

Lemma cms_new_inv w d :
  let s := cms_new w d in width s * depth s ≤ u64_max → cms_inv s ∅.
Proof.
  intros s Ha. unfold s, cms_new in *. simpl in *.
  set (w' := if 0 <? w then w else DEFAULT_WIDTH) in *. set (d' := if 0 <? d then d else DEFAULT_DEPTH) in *.
  assert (0 < w') by (unfold w', DEFAULT_WIDTH; destruct (Z.ltb_spec 0 w); lia).
  assert (0 < d') by (unfold d', DEFAULT_DEPTH; destruct (Z.ltb_spec 0 d); lia).
  constructor; simpl; try done; try nia.
  - rewrite length_replicate. lia.
  - intros i row [-> _]%vget_replicate. split_and!.
    + rewrite length_replicate. lia.
    + apply Forall_replicate. lia.
    + intros k. rewrite lookup_empty. exists 0. split; [|simpl; lia].
      destruct (row_index (replicate (Z.to_nat w') 0) w' k i) as [c Hc]; [done|rewrite length_replicate; lia|].
      rewrite Hc. by apply vget_replicate in Hc as [-> _].
Qed.

Lemma run_keys_spec keys s ex :
  cms_inv s ex → ∃ s' ex', run_keys keys s ex = Some (s', ex') ∧ cms_inv s' ex'.
Proof.
  revert s ex. induction keys as [|k keys IH]; intros s ex HI; simpl; [eauto|].
  destruct (increment_spec s ex k HI) as (mn & s' & -> & _ & _ & HI' & _). cbn [mbind option_bind]. by apply IH.
Qed.

(** The sketch never under-counts: after any sequence of increments on a fresh sketch
    (no panic), the estimate of every key is at least its exact count under the same
    saturation and aging, and at most 255. *)
Theorem cms_never_undercounts w d keys :
  width (cms_new w d) * depth (cms_new w d) ≤ u64_max →
  ∃ s ex, run_keys keys (cms_new w d) ∅ = Some (s, ex) ∧
    ∀ k, ∃ n, count k s = Some n ∧ default 0 (ex !! k) ≤ n ≤ 255.
Proof.
  intros Ha. destruct (run_keys_spec keys _ _ (cms_new_inv w d Ha)) as (s & ex & Hrun & HI).
  exists s, ex. split; [done|]. intros k. unfold count. pose proof (exact_bounds s ex k HI).
  apply count_rows_spec; [|lia]. intros j row Hj. destruct (cm_row _ _ HI j row Hj) as (_ & Hall & Hlo).
  destruct (Hlo k) as (c & Hc & Hle). exists c. rewrite Z.add_0_l. split; [done|]. split; [done|].
  rewrite Forall_forall in Hall. apply vget_Some in Hc as [_ Hc]. apply Hall. by eapply list_elem_of_lookup_2.
Qed.
End cms.

Lemma cms_never_undercounts_witness :
  ∃ s ex, run_keys (H := length_hash) ["a"; "b"; "a"]%string (cms_new 8 2) ∅ = Some (s, ex) ∧
    ∀ k, ∃ n, count (H := length_hash) k s = Some n ∧ default 0 (ex !! k) ≤ n ≤ 255.
Proof. apply (cms_never_undercounts (H := length_hash) 8 2). unfold u64_max. simpl. lia. Defined.
