(* ===== verification/F64.v ===== *)
(** * Double-precision floats

    [f64] as IEEE-754 binary64 in the Standard Library's executable specification
    (precision 53, maximal exponent 1024), with the conversions Rust's [as] performs
    between [u64] and [f64].  The code uses floats only for ratios and watermarks. *)
From Corelib Require Import SpecFloat.
From S2P Require Import Prelude.

Definition f64 : Type := spec_float.

Definition f64_of_u64 (n : Z) : f64 := binary_normalize 53 1024 n 0 false.
Definition f64_div (x y : f64) : f64 := SFdiv 53 1024 x y.
Definition f64_mul (x y : f64) : f64 := SFmul 53 1024 x y.
Definition f64_add (x y : f64) : f64 := SFadd 53 1024 x y.
Definition f64_sub (x y : f64) : f64 := SFsub 53 1024 x y.
Definition f64_ltb (x y : f64) : bool := SFltb x y.
(** [partial_cmp]. *)
Definition f64_cmp (x y : f64) : option comparison := SFcompare x y.

(** [x as u64]: truncates, saturates, and maps NaN to 0. *)
Definition f64_to_u64 (x : f64) : Z :=
  match x with
  | S754_finite false m e =>
      Z.min u64_max (if 0 <=? e then Z.shiftl (Zpos m) e else Z.shiftr (Zpos m) (- e))
  | S754_infinity false => u64_max
  | _ => 0
  end.

(** A decimal literal [n / d] with [n] and [d] exact: division rounds correctly. *)
Definition f64_lit (n d : Z) : f64 := f64_div (f64_of_u64 n) (f64_of_u64 d).

Example f64_lit_095 : f64_lit 95 100 = S754_finite false 8556839292003942 (-53).
Proof. vm_compute. reflexivity. Qed.
Example f64_trunc : f64_to_u64 (f64_mul (f64_lit 95 100) (f64_of_u64 1000)) = 950.
Proof. vm_compute. reflexivity. Qed.
