(* ===== verification/StoreTypes.v ===== *)
(** * Store data model

    crates/quillcache-store/src/types.rs and replica.rs: error codes, replication
    configuration, replicas and their lifecycle. *)
From S2P Require Import Prelude BufferAllocator Identity.

Record ReplicateConfig : Type := mkConfig {
  replica_num : Z;
  with_soft_pin : bool;
  with_hard_pin : bool;
  preferred_segment : option string
}.

Definition config_default : ReplicateConfig := mkConfig 1 false false None.
Definition config_replicas (n : Z) : ReplicateConfig := mkConfig (Z.max n 1) false false None.

Inductive ErrorCode : Type :=
| ObjectNotFound
| ObjectAlreadyExists
| ObjectNotReady
| SegmentNotFound
| NoAvailableSegment
| BufferOverflow
| InvalidReplica
| Io (msg : string)
| UnsafeReuse (v : ReuseViolation).

#[export] Instance ErrorCode_eq_dec : EqDecision ErrorCode.
Proof. solve_decision. Defined.

Inductive ReplicaStatus : Type := Undefined | Initialized | Processing | Complete | Removed | Failed.
#[export] Instance ReplicaStatus_eq_dec : EqDecision ReplicaStatus.
Proof. solve_decision. Defined.

Inductive ReplicaData : Type :=
| Memory (b : AllocatedBuffer)
| Disk (file_path : string) (object_size : Z).
#[export] Instance ReplicaData_eq_dec : EqDecision ReplicaData.
Proof. solve_decision. Defined.

Definition data_segment_name (d : ReplicaData) : option string :=
  match d with Memory b => Some (buf_segment_name b) | Disk _ _ => None end.
Definition rdata_size (d : ReplicaData) : Z :=
  match d with Memory b => buf_size b | Disk _ n => n end.
Definition is_disk (d : ReplicaData) : bool :=
  match d with Disk _ _ => true | Memory _ => false end.

Record Replica : Type := mkReplica {
  rep_id : Z;
  rep_status : ReplicaStatus;
  rep_ref_count : Z;
  rep_data : ReplicaData
}.
#[export] Instance Replica_eq_dec : EqDecision Replica.
Proof. solve_decision. Defined.

Definition replica_new (id : Z) (d : ReplicaData) : Replica := mkReplica id Initialized 0 d.
Definition is_complete (r : Replica) : bool := bool_decide (rep_status r = Complete).
Definition replica_segment_name (r : Replica) : option string := data_segment_name (rep_data r).
Definition replica_size (r : Replica) : Z := rdata_size (rep_data r).
Definition set_status (st : ReplicaStatus) (r : Replica) : Replica :=
  mkReplica (rep_id r) st (rep_ref_count r) (rep_data r).

(** [ReplicaList] is a [HashMap] from replica ids. *)
Notation ReplicaList := (gmap Z Replica).
