(* ===== verification/Strategy.v ===== *)
(** * Allocation strategies

    crates/quillcache-store/src/allocation_strategy.rs over any lawful allocator:
    choose the segments that fit, order them, and place one buffer on each of the
    first [replica_num].  Placement is all or nothing, on distinct segments. *)
From S2P Require Import Prelude F64 BufferAllocator SimpleAllocators AllocatorTheorems Identity StoreTypes.

Inductive Strategy : Type := RandomAllocation | FreeRatioFirst.

(** [create_allocation_strategy]. *)
Definition create_strategy (name : string) : Strategy :=
  if decide (name = "free_ratio_first"%string) then FreeRatioFirst else RandomAllocation.

Section strategy.
Context {A : Type} `{BufferAllocator A}.
Implicit Types allocs : list A.

(** Indices that are not excluded and can fit [size], from index [i]. *)
Fixpoint candidates_from (i : nat) (size : Z) (excluded : list string) allocs : option (list nat) :=
  match allocs with
  | [] => Some []
  | a :: allocs' =>
      l ← largest_free_region a;
      rest ← candidates_from (S i) size excluded allocs';
      Some (if (size <=? l) && negb (bool_decide (segment_name a ∈ excluded)) then i :: rest else rest)
  end.

Definition candidates (size : Z) (excluded : list string) allocs : option (list nat) :=
  candidates_from 0 size excluded allocs.

(** A lawful allocator has [allocated <= capacity], so the [u64] difference is exact. *)
Definition free_ratio (a : A) : f64 :=
  if capacity a =? 0 then f64_of_u64 0
  else f64_div (f64_of_u64 (capacity a - allocated a)) (f64_of_u64 (capacity a)).

(** Allocate on the given indices in order; an early failure returns at once. *)
Fixpoint place_loop (order : list nat) (size : Z) (out : list AllocatedBuffer) allocs :
    option (result ErrorCode (list AllocatedBuffer) * list A) :=
  match order with
  | [] => Some (Ok out, allocs)
  | i :: order' =>
      a ← allocs !! i;
      '(r, a') ← allocate size a;
      let allocs' := <[i := a']> allocs in
      match r with
      | None => Some (Err NoAvailableSegment, allocs')
      | Some b => place_loop order' size (out ++ [b]) allocs'
      end
  end.

Definition place (order : list nat) (size n : Z) allocs :
    option (result ErrorCode (list AllocatedBuffer) * list A) :=
  if Z.of_nat (length order) <? n then Some (Err NoAvailableSegment, allocs)
  else place_loop (take (Z.to_nat n) order) size [] allocs.

(** [sort_by_key(|&i| allocators[i].segment_name() != pref)]: [false] sorts first. *)
Definition not_preferred (pref : string) allocs (i : nat) : bool :=
  match allocs !! i with
  | Some a => negb (bool_decide (segment_name a = pref))
  | None => true
  end.
Definition prefer (preferred : option string) allocs (order : list nat) : list nat :=
  match preferred with
  | Some pref => stable_sort (λ i j, implb (not_preferred pref allocs i) (not_preferred pref allocs j)) order
  | None => order
  end.

(** Descending free ratio; an unordered comparison counts as equal. *)
Definition ratio_before allocs (i j : nat) : bool :=
  match allocs !! i, allocs !! j with
  | Some a, Some b => match f64_cmp (free_ratio b) (free_ratio a) with Some Gt => false | _ => true end
  | _, _ => true
  end.

Definition strategy_order (st : Strategy) (preferred : option string) allocs (order : list nat) : list nat :=
  prefer preferred allocs
    (match st with
     | RandomAllocation => order
     | FreeRatioFirst => stable_sort (ratio_before allocs) order
     end).

Definition strategy_allocate (st : Strategy) (size n : Z) (preferred : option string)
    (excluded : list string) allocs : option (result ErrorCode (list AllocatedBuffer) * list A) :=
  order ← candidates size excluded allocs;
  place (strategy_order st preferred allocs order) size n allocs.

Lemma strategy_order_perm st preferred allocs order : strategy_order st preferred allocs order ≡ₚ order.
Proof.
  unfold strategy_order, prefer. destruct preferred, st; rewrite ?stable_sort_perm; done.
Qed.
End strategy.

(** ** Placement against the allocator contract *)

Section strategy_laws.
Context {A : Type} `{AllocatorLaws A}.
Implicit Types allocs : list A.

(** The live buffers of each segment, by position. *)
Definition all_inv allocs (Ls : list (gmap Z Z)) : Prop := Forall2 ba_inv allocs Ls.

(** The buffer [b] was placed on position [i]: the live map there gains it. *)
Definition placed_on allocs (i : nat) (size : Z) (b : AllocatedBuffer) (Ls Ls' : list (gmap Z Z)) : Prop :=
  ∃ a L, allocs !! i = Some a ∧ Ls !! i = Some L ∧ buf_segment_name b = segment_name a ∧
    buf_size b = size ∧ L !! buf_offset b = None ∧ Ls' = <[i := <[buf_offset b := size]> L]> Ls.

(** Names and capacities, which placement keeps. *)
Definition shape allocs : list (string * Z) := (λ a, (segment_name a, capacity a)) <$> allocs.

Lemma candidates_from_spec i size excluded allocs Ls :
  all_inv allocs Ls → 0 ≤ size →
  ∃ order, candidates_from i size excluded allocs = Some order ∧ NoDup order ∧
    ∀ j, j ∈ order ↔ ∃ k a l, j = (i + k)%nat ∧ allocs !! k = Some a ∧ largest_free_region a = Some l ∧
      size ≤ l ∧ segment_name a ∉ excluded.
Proof.
  intros HI Hs. revert i. induction HI as [|a L allocs Ls Ha HI IH]; intros i; simpl.
  { exists []. split_and!; [done|constructor|]. intros j. split; [set_solver|]. by intros (k & ? & ? & _ & ? & _). }
  destruct (ba_largest a L Ha) as (l & Hl & _). rewrite Hl. cbn [mbind option_bind].
  destruct (IH (S i)) as (rest & -> & Hnd & Hin). cbn [mbind option_bind].
  assert (i ∉ rest) as Hi by (rewrite Hin; intros (k & ? & ? & Hk & _); lia).
  assert (∀ j, j ∈ rest ↔ ∃ k a l, j = (i + S k)%nat ∧ allocs !! k = Some a ∧ largest_free_region a = Some l ∧
    size ≤ l ∧ segment_name a ∉ excluded) as Hin'.
  { intros j. rewrite Hin. split; intros (k & x & y & -> & ?); exists k, x, y; (split; [lia|done]). }
  eexists. split; [done|]. destruct ((size <=? l) && negb (bool_decide (segment_name a ∈ excluded))) eqn:E.
  - apply andb_true_iff in E as [E1%Z.leb_le E2]. apply negb_true_iff, bool_decide_eq_false in E2.
    split; [by constructor|]. intros j. rewrite elem_of_cons, Hin'. split.
    + intros [->|(k & x & y & -> & ?)]; [exists 0%nat, a, l|exists (S k), x, y]; (split; [lia|done]).
    + intros ([|k] & x & y & -> & Hk & ?); [left; lia|right]. eauto 10.
  - split; [done|]. intros j. rewrite Hin'. split.
    + intros (k & x & y & -> & ?). exists (S k), x, y. done.
    + intros ([|k] & x & y & -> & Hk & Hy & ? & ?); [|eauto 10]. simpl in Hk. simplify_eq.
      apply andb_false_iff in E as [E%Z.leb_gt|E]; [lia|]. by apply negb_false_iff, bool_decide_eq_true in E.
Qed.

(** Placing on distinct indices that fit succeeds on each of them. *)
Inductive placements (size : Z) (allocs : list A) : list nat → list AllocatedBuffer → list (gmap Z Z) → list (gmap Z Z) → Prop :=
| placements_nil Ls : placements size allocs [] [] Ls Ls
| placements_cons i order b bs Ls Ls1 Ls2 :
    placed_on allocs i size b Ls Ls1 → placements size allocs order bs Ls1 Ls2 →
    placements size allocs (i :: order) (b :: bs) Ls Ls2.

Lemma placements_length size allocs order bs Ls Ls' :
  placements size allocs order bs Ls Ls' → length bs = length order.
Proof. induction 1; simpl; congruence. Qed.

Lemma placed_on_shape allocs allocs' i size b Ls Ls' :
  shape allocs' = shape allocs → placed_on allocs' i size b Ls Ls' → placed_on allocs i size b Ls Ls'.
Proof.
  intros Hs (a & L & Ha & HL & Hn & ? & ? & ?). apply (f_equal (λ l, l !! i)) in Hs. unfold shape in Hs.
  rewrite !list_lookup_fmap, Ha in Hs. destruct (allocs !! i) as [a0|] eqn:E; [|done]. simpl in Hs. injection Hs as Hs1 Hs2.
  exists a0, L. split_and!; congruence || done.
Qed.

Lemma shape_insert allocs i a a' :
  allocs !! i = Some a → segment_name a' = segment_name a → capacity a' = capacity a →
  shape (<[i := a']> allocs) = shape allocs.
Proof.
  intros Ha Hn Hc. unfold shape. rewrite list_fmap_insert. apply list_insert_id. by rewrite list_lookup_fmap, Ha, Hn, Hc.
Qed.

Lemma place_loop_spec order size out allocs Ls :
  all_inv allocs Ls → 0 < size ≤ MAX_SEGMENT → NoDup order →
  (∀ i, i ∈ order → ∃ a l, allocs !! i = Some a ∧ largest_free_region a = Some l ∧ size ≤ l) →
  ∃ bs allocs' Ls', place_loop order size out allocs = Some (Ok (out ++ bs), allocs') ∧
    all_inv allocs' Ls' ∧ shape allocs' = shape allocs ∧ placements size allocs order bs Ls Ls'.
Proof.
  intros HI Hs. revert out allocs Ls HI. induction order as [|i order IH]; intros out allocs Ls HI Hnd Hfit; simpl.
  { exists [], allocs, Ls. rewrite app_nil_r. split_and!; try done. constructor. }
  apply NoDup_cons in Hnd as [Hi Hnd]. destruct (Hfit i) as (a & l & Ha & Hl & Hle); [set_solver|].
  rewrite Ha. cbn [mbind option_bind].
  destruct (Forall2_lookup_l _ _ _ _ _ HI Ha) as (L & HL & HaL).
  destruct (ba_largest a L HaL) as (l' & Hl' & _ & Hok). assert (l' = l) as -> by congruence.
  destruct (Hok size ltac:(lia)) as (b & a' & Hall). rewrite Hall. cbn [mbind option_bind].
  destruct (ba_allocate a L size HaL ltac:(lia)) as (res & a1 & Heq & Hn & Hc & Hres).
  rewrite Hall in Heq. injection Heq as <- <-. destruct Hres as (_ & Hbn & Hbs & Hnone & HaL').
  assert (all_inv (<[i := a']> allocs) (<[i := <[buf_offset b := size]> L]> Ls)) as HI'
    by (by apply Forall2_insert).
  assert (shape (<[i := a']> allocs) = shape allocs) as Hsh by (by eapply shape_insert).
  destruct (IH (out ++ [b]) _ _ HI' Hnd) as (bs & allocs' & Ls' & -> & HI2 & Hsh2 & Hpl).
  { intros j Hj. destruct (Hfit j) as (x & y & Hx & ?); [set_solver|]. exists x, y.
    rewrite list_lookup_insert_ne by set_solver. done. }
  exists (b :: bs), allocs', Ls'. rewrite <- app_assoc. split_and!; [done|done|congruence|].
  econstructor; [by exists a, L|]. clear -Hpl Hsh.
  induction Hpl; econstructor; [|done]. by eapply placed_on_shape.
Qed.

(** A request of 0 bytes is refused by the first segment it is tried on. *)
Lemma place_loop_zero order out allocs Ls :
  all_inv allocs Ls → (∀ i, i ∈ order → is_Some (allocs !! i)) →
  ∃ res allocs', place_loop order 0 out allocs = Some (res, allocs') ∧ all_inv allocs' Ls ∧
    shape allocs' = shape allocs ∧ res = if order is [] then Ok out else Err NoAvailableSegment.
Proof.
  intros HI Hin. destruct order as [|i order]; simpl; [by eauto 10|].
  destruct (Hin i) as [a Ha]; [set_solver|]. rewrite Ha. cbn [mbind option_bind].
  destruct (Forall2_lookup_l _ _ _ _ _ HI Ha) as (L & HL & HaL).
  destruct (ba_allocate a L 0 HaL) as (res & a' & -> & Hn & Hc & Hres); [unfold MAX_SEGMENT; lia|].
  cbn [mbind option_bind]. destruct res; [lia|]. eexists _, _. split_and!; [done| |by eapply shape_insert|done].
  rewrite <- (list_insert_id Ls i L HL). by apply Forall2_insert.
Qed.

(** The whole strategy: success places [n] buffers on [n] distinct segments that fit and
    are not excluded; failure means too few such segments (or a request of 0 bytes) and
    leaves every live buffer as it was. *)
Lemma strategy_allocate_spec st size n preferred excluded allocs Ls :
  all_inv allocs Ls → 0 ≤ size → 0 ≤ n →
  ∃ res allocs' Ls', strategy_allocate st size n preferred excluded allocs = Some (res, allocs') ∧
    all_inv allocs' Ls' ∧ shape allocs' = shape allocs ∧
    match res with
    | Ok bs => ∃ cand order, candidates size excluded allocs = Some cand ∧
        order = take (Z.to_nat n) (strategy_order st preferred allocs cand) ∧
        placements size allocs order bs Ls Ls' ∧ NoDup order ∧ Z.of_nat (length bs) = n ∧
        (∀ i, i ∈ order → ∃ a l, allocs !! i = Some a ∧ largest_free_region a = Some l ∧ size ≤ l ∧ segment_name a ∉ excluded)
    | Err e => e = NoAvailableSegment ∧ Ls' = Ls ∧ 0 < n ∧
        (size = 0 ∨ ∃ cand, candidates size excluded allocs = Some cand ∧ Z.of_nat (length cand) < n)
    end.
Proof.
  intros HI Hs Hn. unfold strategy_allocate, candidates.
  destruct (candidates_from_spec 0 size excluded allocs Ls HI Hs) as (cand & Hcand & Hnd & Hin).
  rewrite Hcand. cbn [mbind option_bind]. pose proof (strategy_order_perm st preferred allocs cand) as Hp.
  set (order := strategy_order st preferred allocs cand) in *. unfold place. pose proof (Permutation_length Hp) as Hlen. rewrite Hlen.
  destruct (Z.ltb_spec (Z.of_nat (length cand)) n).
  { eexists _, allocs, Ls. split; [done|]. split_and!; try done; [lia|]. eauto. }
  assert (∀ i, i ∈ take (Z.to_nat n) order → i ∈ cand) as Hsub.
  { intros i Hi. rewrite <- Hp. rewrite <- (take_drop (Z.to_nat n) order). set_solver. }
  assert (NoDup (take (Z.to_nat n) order)) as Hndt.
  { assert (NoDup order) as Hndo by (by rewrite Hp). rewrite <- (take_drop (Z.to_nat n) order) in Hndo.
    by apply NoDup_app in Hndo as (? & _). }
  assert (∀ i, i ∈ take (Z.to_nat n) order → ∃ a l, allocs !! i = Some a ∧ largest_free_region a = Some l ∧
    size ≤ l ∧ segment_name a ∉ excluded) as Hfit.
  { intros i Hi%Hsub%Hin. destruct Hi as (k & a & l & -> & ?). eauto. }
  assert (length (take (Z.to_nat n) order) = Z.to_nat n) as Hlt by (rewrite length_take; lia).
  destruct (take (Z.to_nat n) order) as [|i0 o0] eqn:Eo.
  { eexists _, allocs, Ls. split; [done|]. split_and!; try done. exists cand, []. pose proof (placements_nil size allocs Ls). split_and!; try done. simpl in *; lia. }
  rewrite <- Eo in *. assert (size ≤ MAX_SEGMENT) as Hmax.
  { destruct (Hfit i0) as (a & l & Ha & Hl & ? & _); [rewrite Eo; set_solver|].
    destruct (Forall2_lookup_l _ _ _ _ _ HI Ha) as (L & HL & HaL). pose proof (ba_capacity a L HaL).
    destruct (ba_largest a L HaL) as (l' & Hl' & ? & _). simplify_eq. lia. }
  destruct (decide (size = 0)) as [->|].
  { destruct (place_loop_zero (take (Z.to_nat n) order) [] allocs Ls HI) as (res & allocs' & -> & HI' & Hsh & Hres).
    { intros i Hi. destruct (Hfit i Hi) as (a & l & -> & _). eauto. }
    rewrite Eo in Hres. subst res. eexists _, allocs', Ls. split_and!; try done.
    rewrite Eo in Hlt. simpl in Hlt. split_and!; [done..|lia|by left]. }
  destruct (place_loop_spec (take (Z.to_nat n) order) size [] allocs Ls) as (bs & allocs' & Ls' & -> & HI' & Hsh & Hpl); try done; [lia| |].
  { intros i Hi. destruct (Hfit i Hi) as (a & l & ? & ? & ? & ?). eauto. }
  eexists _, allocs', Ls'. split; [done|]. split_and!; try done. exists cand, (take (Z.to_nat n) order). split_and!; try done.
  simpl. rewrite (placements_length _ _ _ _ _ _ Hpl), Hlt. lia.
Qed.

Lemma placements_names size allocs order bs Ls Ls' :
  placements size allocs order bs Ls Ls' →
  Forall2 (λ i b, ∃ a, allocs !! i = Some a ∧ buf_segment_name b = segment_name a ∧ buf_size b = size) order bs.
Proof.
  induction 1 as [|i order b bs Ls Ls1 Ls2 (a & L & ? & ? & ? & ? & ?) Hpl IH]; constructor; eauto.
Qed.

(** Distinct positions of a list of segments with distinct names have distinct names. *)
Lemma placements_nodup size allocs order bs Ls Ls' :
  NoDup (segment_name <$> allocs) → NoDup order → placements size allocs order bs Ls Ls' →
  NoDup (buf_segment_name <$> bs).
Proof.
  intros Hnames Hnd Hpl%placements_names. induction Hpl as [|i b order bs (a & Ha & Hb & _) Hpl IH]; [constructor|].
  apply NoDup_cons in Hnd as [Hi Hnd]. rewrite fmap_cons. apply NoDup_cons. split; [|by apply IH].
  rewrite list_elem_of_fmap. intros (b' & Heq & Hb'). apply list_elem_of_lookup in Hb' as [k Hk].
  destruct (Forall2_lookup_r _ _ _ _ _ Hpl Hk) as (j & Hj & a' & Ha' & Hb'' & _).
  apply Hi. rewrite list_elem_of_lookup. exists k. rewrite Hj. f_equal.
  eapply (NoDup_lookup (segment_name <$> allocs)); [done|rewrite list_lookup_fmap, Ha'; reflexivity|].
  rewrite list_lookup_fmap, Ha. simpl. congruence.
Qed.

Lemma candidates_spec size excluded allocs Ls :
  all_inv allocs Ls → 0 ≤ size →
  ∃ cand, candidates size excluded allocs = Some cand ∧ NoDup cand ∧
    ∀ i, i ∈ cand ↔ ∃ a l, allocs !! i = Some a ∧ largest_free_region a = Some l ∧ size ≤ l ∧ segment_name a ∉ excluded.
Proof.
  intros HI Hs. destruct (candidates_from_spec 0 size excluded allocs Ls HI Hs) as (cand & ? & ? & Hin).
  exists cand. split_and!; [done..|]. intros i. rewrite Hin. split; [intros (k & a & l & -> & ?)|intros (a & l & ?)]; eauto.
Qed.

(** The preferred segment, when it is a candidate, comes first in the order. *)
Lemma prefer_head pref allocs order i a :
  i ∈ order → allocs !! i = Some a → segment_name a = pref →
  ∃ j rest a', prefer (Some pref) allocs order = j :: rest ∧ (is_Some (allocs !! j) → allocs !! j = Some a' ∧ segment_name a' = pref).
Proof.
  intros Hi Ha Hp. simpl. set (leb := λ i j, implb (not_preferred pref allocs i) (not_preferred pref allocs j)).
  pose proof (stable_sort_perm leb order) as Hperm.
  assert (StronglySorted (λ a b, leb a b = true) (stable_sort leb order)) as Hsort.
  { apply stable_sort_sorted; unfold leb; intros; repeat destruct (not_preferred pref allocs _); done. }
  destruct (stable_sort leb order) as [|j rest]; [by rewrite <- Hperm, elem_of_nil in Hi|].
  apply StronglySorted_inv in Hsort as [_ Hall]. rewrite Forall_forall in Hall.
  assert (not_preferred pref allocs i = false) as Hni.
  { unfold not_preferred. rewrite Ha. by rewrite bool_decide_true. }
  assert (not_preferred pref allocs j = false) as Hnj.
  { rewrite <- Hperm, elem_of_cons in Hi. destruct Hi as [<-|Hi]; [done|].
    specialize (Hall i Hi). unfold leb in Hall. rewrite Hni in Hall. by destruct (not_preferred pref allocs j). }
  unfold not_preferred in Hnj. destruct (allocs !! j) as [a'|] eqn:Ej; [|done].
  exists j, rest, a'. split; [done|]. intros _. split; [done|].
  by apply negb_false_iff, bool_decide_eq_true in Hnj.
Qed.

(** Replica placement is all or nothing, on distinct segments: with distinct segment
    names, a successful request of [n] replicas returns [n] buffers of the requested size
    on [n] different mounted segments that are not excluded, and a refused one leaves the
    live buffers of every segment as they were and means that fewer than [n] segments
    could fit the request (or that it was for 0 bytes). *)
Theorem placement_all_or_nothing st size n preferred excluded allocs Ls :
  all_inv allocs Ls → NoDup (segment_name <$> allocs) → 0 ≤ size → 0 ≤ n →
  ∃ res allocs' Ls', strategy_allocate st size n preferred excluded allocs = Some (res, allocs') ∧
    all_inv allocs' Ls' ∧ segment_name <$> allocs' = segment_name <$> allocs ∧
    match res with
    | Ok bs => Z.of_nat (length bs) = n ∧ NoDup (buf_segment_name <$> bs) ∧
        Forall (λ b, buf_size b = size ∧ buf_segment_name b ∈ (segment_name <$> allocs) ∧
                     buf_segment_name b ∉ excluded) bs
    | Err e => e = NoAvailableSegment ∧ Ls' = Ls ∧
        (size = 0 ∨ ∃ cand, NoDup cand ∧ Z.of_nat (length cand) < n ∧
           ∀ i, i ∈ cand ↔ ∃ a l, allocs !! i = Some a ∧ largest_free_region a = Some l ∧
             size ≤ l ∧ segment_name a ∉ excluded)
    end.
Proof.
  intros HI Hnames Hs Hn.
  destruct (strategy_allocate_spec st size n preferred excluded allocs Ls HI Hs Hn) as (res & allocs' & Ls' & -> & HI' & Hsh & Hres).
  exists res, allocs', Ls'. split_and!; [done..| |].
  { apply (f_equal (fmap fst)) in Hsh. unfold shape in Hsh. by rewrite <- !list_fmap_compose in Hsh. }
  destruct res as [bs|e].
  - destruct Hres as (cand & order & _ & _ & Hpl & Hnd & Hlen & Hel). split_and!; [done|by eapply placements_nodup|].
    apply placements_names in Hpl. apply Forall_lookup. intros k b Hk.
    destruct (Forall2_lookup_r _ _ _ _ _ Hpl Hk) as (i & Hi & a & Ha & Hb & Hz).
    destruct (Hel i) as (a' & l & Ha' & _ & _ & Hex); [by eapply list_elem_of_lookup_2|]. simplify_eq.
    rewrite Hb. split_and!; [done| |done]. apply list_elem_of_fmap. exists a. split; [done|]. by eapply list_elem_of_lookup_2.
  - destruct Hres as (-> & -> & _ & Hres). split_and!; [done..|]. destruct Hres as [?|(cand & Hc & Hlt)]; [by left|right].
    destruct (candidates_spec size excluded allocs Ls HI Hs) as (cand' & Hc' & ? & ?). simplify_eq. eauto.
Qed.

(** The preferred segment gets the first replica: if it is mounted, not excluded and
    can fit the request, a successful placement of at least one replica puts its first
    buffer there. *)
Theorem placement_prefers st size n pref excluded allocs Ls bs allocs' i a l :
  all_inv allocs Ls → 0 ≤ size → 0 < n →
  allocs !! i = Some a → segment_name a = pref → largest_free_region a = Some l → size ≤ l → pref ∉ excluded →
  strategy_allocate st size n (Some pref) excluded allocs = Some (Ok bs, allocs') →
  ∃ b rest, bs = b :: rest ∧ buf_segment_name b = pref.
Proof.
  intros HI Hs Hn Ha Hp Hl Hle Hex Hal.
  destruct (strategy_allocate_spec st size n (Some pref) excluded allocs Ls HI Hs ltac:(lia)) as (res & al & Ls' & Heq & _ & _ & Hres).
  rewrite Hal in Heq. injection Heq as <- <-. destruct Hres as (cand & order & Hc & Ho & Hpl & _ & Hlen & Hel).
  destruct (candidates_spec size excluded allocs Ls HI Hs) as (cand' & Hc' & _ & Hin). assert (cand' = cand) as -> by congruence. subst order pref.
  assert (i ∈ cand) as Hi by (apply Hin; eauto 10).
  unfold strategy_order in *. set (c := match st with RandomAllocation => _ | _ => _ end) in *.
  assert (i ∈ c) as Hic by (unfold c; destruct st; [done|by rewrite stable_sort_perm]).
  destruct (prefer_head (segment_name a) allocs c i a Hic Ha eq_refl) as (j & rest & a' & Hhd & Hj).
  rewrite Hhd in *. destruct (Z.to_nat n) as [|m] eqn:En; [lia|]. simpl in Hpl, Hel.
  destruct (Hel j) as (aj & _ & Haj & _); [set_solver|]. destruct Hj as [Hj Hname]; [eauto|].
  apply placements_names in Hpl. inversion Hpl as [|? b ? bs' (a2 & Ha2 & Hb & _) _]; subst.
  exists b, bs'. split; [done|]. congruence.
Qed.
End strategy_laws.

Definition demo_segments : list FirstFitBufferAllocator := [ff_new "a" 100; ff_new "b" 200; ff_new "c" 50].

Lemma demo_segments_inv : all_inv demo_segments [∅; ∅; ∅].
Proof.
  unfold all_inv, demo_segments.
  repeat (apply Forall2_cons_2; [apply ff_new_inv; unfold MAX_SEGMENT; lia|]). apply Forall2_nil_2.
Qed.

Lemma placement_all_or_nothing_witness :
  (segment_name <$> demo_segments) = ["a"; "b"; "c"]%string ∧
  ∃ res allocs' Ls', strategy_allocate FreeRatioFirst 60 2 None [] demo_segments = Some (res, allocs') ∧
    all_inv allocs' Ls' ∧ is_ok res = true.
Proof.
  split; [reflexivity|].
  destruct (placement_all_or_nothing FreeRatioFirst 60 2 None [] demo_segments [∅; ∅; ∅]) as (res & allocs' & Ls' & Heq & HI & _).
  - exact demo_segments_inv.
  - change (NoDup ["a"; "b"; "c"]%string). repeat constructor; set_solver.
  - lia.
  - lia.
  - exists res, allocs', Ls'. split; [exact Heq|]. split; [exact HI|].
    vm_compute in Heq. injection Heq as <- _. reflexivity.
Defined.

Lemma placement_prefers_witness :
  ∃ bs allocs', strategy_allocate RandomAllocation 60 2 (Some "b"%string) [] demo_segments = Some (Ok bs, allocs') ∧
    ∃ b rest, bs = b :: rest ∧ buf_segment_name b = "b"%string.
Proof.
  eexists _, _. split; [vm_compute; reflexivity|].
  eapply (placement_prefers RandomAllocation 60 2 "b" [] demo_segments [∅; ∅; ∅] _ _ 1%nat (ff_new "b" 200) 200).
  - exact demo_segments_inv.
  - lia.
  - lia.
  - reflexivity.
  - reflexivity.
  - reflexivity.
  - lia.
  - set_solver.
  - vm_compute. reflexivity.
Defined.
