(* ===== verification/OpLog.v ===== *)
(** * The master's operation log

    crates/quillcache-store/src/op_log.rs: entries, the append framing
    [u32 len][u32 crc][payload] and the replay loop that stops at the first torn or
    corrupt frame.  A file is its list of bytes.  JSON encoding and CRC-32 are code of
    other crates: class [EntryCodec] carries them with what the log relies on. *)
From S2P Require Import Prelude BufferAllocator Identity StoreTypes.

Inductive OpLogEntry : Type :=
| SegmentMounted (name : string) (cap : Z)
| SegmentUnmounted (name : string)
| PutCommitted (key : string) (identity : IdentityScope) (replicas : list Replica)
    (soft_pinned hard_pinned : bool)
| ERemoved (key : string).

(** [serde_json] and [crc32fast]: decoding inverts encoding, and a checksum is a [u32]. *)
Class EntryCodec : Type := {
  encode : OpLogEntry → list Z;
  decode : list Z → option OpLogEntry;
  crc32 : list Z → Z;
  decode_encode : ∀ e, decode (encode e) = Some e;
  crc32_u32 : ∀ bs, is_u32 (crc32 bs)
}.

(** [u32::to_le_bytes] and [u32::from_le_bytes]. *)
Definition le_bytes (z : Z) : list Z :=
  [z mod 256; z / 256 mod 256; z / 65536 mod 256; z / 16777216 mod 256].
Definition from_le (bs : list Z) : option Z :=
  match bs with
  | [a; b; c; d] => Some (a + 256 * b + 65536 * c + 16777216 * d)
  | _ => None
  end.

Section oplog.
Context `{EntryCodec}.
Implicit Types file : list Z.

(** [payload.len() as u32]. *)
Definition frame (e : OpLogEntry) : list Z :=
  let payload := encode e in
  le_bytes (Z.land (Z.of_nat (length payload)) u32_max) ++ le_bytes (crc32 payload) ++ payload.

(** [OpLog::open] keeps the file as it is; [append] adds one frame at its end. *)
Definition oplog_open (file : option (list Z)) : list Z := default [] file.
Definition append (e : OpLogEntry) file : list Z := file ++ frame e.

(** The replay loop: [rest] are the bytes from [pos].  Every turn consumes at least the
    8 header bytes, so the length of the file is enough fuel. *)
Fixpoint replay_loop (fuel : nat) (rest : list Z) (entries : list OpLogEntry) : option (list OpLogEntry) :=
  if (8 <=? length rest)%nat then
    match fuel with
    | O => None
    | S fuel' =>
        len ← from_le (take 4 rest);
        crc ← from_le (take 4 (drop 4 rest));
        let body := drop 8 rest in
        if Z.of_nat (length body) <? len then Some entries
        else
          let payload := take (Z.to_nat len) body in
          if negb (crc32 payload =? crc) then Some entries
          else match decode payload with
               | None => Some entries
               | Some e => replay_loop fuel' (drop (Z.to_nat len) body) (entries ++ [e])
               end
    end
  else Some entries.

(** A missing file replays to nothing. *)
Definition replay (file : option (list Z)) : option (list OpLogEntry) :=
  match file with
  | None => Some []
  | Some bytes => replay_loop (length bytes) bytes []
  end.

(** The payload's length fits the [u32] of the frame. *)
Definition fits (e : OpLogEntry) : Prop := Z.of_nat (length (encode e)) ≤ u32_max.

Definition frames (es : list OpLogEntry) : list Z := es ≫= frame.

(** ** Lemmas *)

Lemma from_le_bytes z : is_u32 z → from_le (le_bytes z) = Some z.
Proof.
  unfold is_u32, u32_max. intros Hz. unfold le_bytes, from_le. f_equal.
  pose proof (Z.div_mod z 256 ltac:(lia)). pose proof (Z.div_mod (z / 256) 256 ltac:(lia)).
  pose proof (Z.div_mod (z / 65536) 256 ltac:(lia)).
  assert (z / 256 / 256 = z / 65536) as E1 by (by rewrite Z.div_div by lia).
  assert (z / 65536 / 256 = z / 16777216) as E2 by (by rewrite Z.div_div by lia).
  assert (z / 16777216 mod 256 = z / 16777216) as E3.
  { apply Z.mod_small. split; [apply Z.div_pos; lia|]. apply Z.div_lt_upper_bound; lia. }
  lia.
Qed.

Lemma land_u32_small z : is_u32 z → Z.land z u32_max = z.
Proof.
  unfold is_u32, u32_max. intros. change 4294967295 with (Z.ones 32). rewrite Z.land_ones, Z.mod_small by lia. done.
Qed.

Lemma frame_eq e :
  fits e → frame e = le_bytes (Z.of_nat (length (encode e))) ++ le_bytes (crc32 (encode e)) ++ encode e ∧
  is_u32 (Z.of_nat (length (encode e))).
Proof.
  unfold fits. intros Hf. assert (is_u32 (Z.of_nat (length (encode e)))) as Hu by (unfold is_u32; lia).
  split; [|done]. unfold frame. by rewrite land_u32_small.
Qed.

Lemma length_frame e : length (frame e) = (8 + length (encode e))%nat.
Proof. unfold frame. rewrite !length_app. done. Qed.

(** The two header words and the bytes after them. *)
Lemma header_split a b y :
  take 4 (le_bytes a ++ le_bytes b ++ y) = le_bytes a ∧
  take 4 (drop 4 (le_bytes a ++ le_bytes b ++ y)) = le_bytes b ∧
  drop 8 (le_bytes a ++ le_bytes b ++ y) = y.
Proof. done. Qed.

(** One turn of the loop on an intact frame. *)
Lemma replay_frame fuel e rest entries :
  fits e → replay_loop (S fuel) (frame e ++ rest) entries = replay_loop fuel rest (entries ++ [e]).
Proof.
  intros Hfit. destruct (frame_eq e Hfit) as [-> Hu]. rewrite <- !app_assoc.
  set (p := encode e) in *. cbn [replay_loop].
  assert (8 <=? length (le_bytes (Z.of_nat (length p)) ++ le_bytes (crc32 p) ++ p ++ rest) = true)%nat as ->.
  { apply Nat.leb_le. rewrite !length_app. simpl. lia. }
  destruct (header_split (Z.of_nat (length p)) (crc32 p) (p ++ rest)) as (-> & -> & ->).
  rewrite !from_le_bytes by (done || apply crc32_u32). cbn [mbind option_bind].
  destruct (Z.ltb_spec (Z.of_nat (length (p ++ rest))) (Z.of_nat (length p))) as [Hlt|_].
  { rewrite length_app in Hlt. lia. }
  rewrite Nat2Z.id, take_app_length, drop_app_length, Z.eqb_refl. cbn [negb].
  unfold p. by rewrite decode_encode.
Qed.

(** A torn frame: fewer bytes than the frame needs stop the replay. *)
Lemma replay_torn fuel e n entries :
  fits e → (n < length (frame e))%nat → (n ≤ fuel)%nat →
  replay_loop fuel (take n (frame e)) entries = Some entries.
Proof.
  intros Hfit Hn Hf. rewrite length_frame in Hn. destruct (frame_eq e Hfit) as [Hfe Hu].
  assert (length (take n (frame e)) = n) as Hlen by (rewrite length_take, length_frame; lia).
  destruct (Nat.leb_spec 8 n) as [H8|H8].
  - destruct fuel as [|fuel]; [lia|]. cbn [replay_loop]. rewrite Hlen.
    rewrite (proj2 (Nat.leb_le 8 n)) by done.
    destruct (header_split (Z.of_nat (length (encode e))) (crc32 (encode e)) (encode e)) as (Ha & Hb & _).
    rewrite <- Hfe in Ha, Hb.
    assert (take 4 (take n (frame e)) = take 4 (frame e)) as -> by (rewrite take_take; f_equal; lia).
    assert (take 4 (drop 4 (take n (frame e))) = take 4 (drop 4 (frame e))) as ->
      by (rewrite !take_drop_commute, take_take; do 2 f_equal; lia).
    rewrite Ha, Hb.
    rewrite !from_le_bytes by (done || apply crc32_u32). cbn [mbind option_bind].
    rewrite length_drop, Hlen. destruct (Z.ltb_spec (Z.of_nat (n - 8)) (Z.of_nat (length (encode e)))); [done|lia].
  - destruct fuel; cbn [replay_loop]; rewrite Hlen, (proj2 (Nat.leb_gt 8 n)) by lia; done.
Qed.

Lemma replay_frames es rest fuel entries :
  Forall fits es → (length (frames es) + length rest ≤ fuel)%nat →
  ∃ fuel', replay_loop fuel (frames es ++ rest) entries = replay_loop fuel' rest (entries ++ es) ∧
    (length rest ≤ fuel')%nat.
Proof.
  intros Hfit. revert fuel entries. induction Hfit as [|e es He Hfit IH]; intros fuel entries Hf.
  - exists fuel. simpl in *. rewrite app_nil_r. split; [done|lia].
  - change (frames (e :: es)) with (frame e ++ frames es) in *. rewrite length_app, length_frame in Hf.
    destruct fuel as [|fuel]; [lia|]. rewrite <- app_assoc, replay_frame by done.
    destruct (IH fuel (entries ++ [e])) as (fuel' & -> & ?); [lia|]. exists fuel'. by rewrite <- app_assoc.
Qed.

Lemma replay_loop_nil fuel entries : replay_loop fuel [] entries = Some entries.
Proof. by destruct fuel. Qed.

(** A file cut at an arbitrary byte: the frames wholly before the cut, then a torn one. *)
Lemma take_frames es n :
  ∃ k rest, take n (frames es) = frames (take k es) ++ rest ∧ (length (frames (take k es)) ≤ n)%nat ∧
    (rest = [] ∧ (k = length es ∨ n = length (frames (take k es))) ∨
     ∃ e m, es !! k = Some e ∧ rest = take m (frame e) ∧ (m < length (frame e))%nat ∧
       n = (length (frames (take k es)) + m)%nat).
Proof.
  revert n. induction es as [|e es IH]; intros n.
  { exists 0%nat, []. simpl. rewrite take_nil. split_and!; [done|lia|]. left. split; [done|by left]. }
  change (frames (e :: es)) with (frame e ++ frames es).
  destruct (decide (n < length (frame e))%nat) as [Hlt|Hge].
  - exists 0%nat, (take n (frame e)). rewrite take_app_le by lia. split_and!; [done|simpl; lia|].
    right. exists e, n. done.
  - destruct (IH (n - length (frame e))%nat) as (k & rest & Ht & Hle & Hrest).
    exists (S k), rest. rewrite take_app_ge by lia. rewrite Ht.
    change (take (S k) (e :: es)) with (e :: take k es).
    change (frames (e :: take k es)) with (frame e ++ frames (take k es)). rewrite length_app.
    split_and!; [by rewrite app_assoc|lia|].
    destruct Hrest as [[-> [->|?]]|(e' & m & ? & ? & ? & ?)].
    + left. split; [done|by left].
    + left. split; [done|right; lia].
    + right. exists e', m. split_and!; try done. lia.
Qed.

(** Replay inverts append: a log written entry by entry replays to exactly its entries. *)
Theorem replay_appended es :
  Forall fits es →
  replay (Some (foldl (λ file e, append e file) (oplog_open None) es)) = Some es.
Proof.
  intros Hfit. assert (∀ file, foldl (λ file e, append e file) file es = file ++ frames es) as ->.
  { clear Hfit. induction es as [|e es IH]; intros file; simpl; [by rewrite app_nil_r|].
    rewrite IH. unfold append. change (frames (e :: es)) with (frame e ++ frames es). by rewrite <- app_assoc. }
  simpl. unfold replay. destruct (replay_frames es [] (length (frames es)) [] Hfit) as (f & Hf & _); [simpl; lia|].
  rewrite app_nil_r in Hf. rewrite Hf. apply replay_loop_nil.
Qed.

(** C8 A crash in the middle of an append loses nothing older: a log cut at any byte
    replays without error to a prefix of its entries, the ones wholly before the cut. *)
Theorem replay_torn_prefix es n :
  Forall fits es →
  ∃ k, replay (Some (take n (frames es))) = Some (take k es) ∧
    (length (frames (take k es)) ≤ n)%nat ∧
    (k = length es ∨ n = length (frames (take k es)) ∨
     ∃ e, es !! k = Some e ∧ (n < length (frames (take k es)) + length (frame e))%nat).
Proof.
  intros Hfit. destruct (take_frames es n) as (k & rest & -> & Hle & Hrest). exists k. unfold replay.
  destruct (replay_frames (take k es) rest (length (frames (take k es) ++ rest)) []) as (f & -> & Hfuel).
  { by apply Forall_take. } { by rewrite length_app. }
  rewrite app_nil_l. destruct Hrest as [[-> Hk]|(e & m & He & -> & Hm & ->)].
  - rewrite replay_loop_nil. split_and!; [done..|]. tauto.
  - rewrite length_take, Nat.min_l in Hfuel by lia. assert (fits e) by (by eapply Forall_lookup_1). rewrite replay_torn by done. split_and!; [done|lia|].
    right; right. exists e. split; [done|lia].
Qed.

(** A corrupt frame ends the replay: if the stored checksum of a frame does not match
    its payload, neither that frame nor anything after it is decoded. *)
Theorem replay_stops_at_corruption es payload rest crc :
  Forall fits es → is_u32 (Z.of_nat (length payload)) → is_u32 crc → crc32 payload ≠ crc →
  replay (Some (frames es ++ le_bytes (Z.of_nat (length payload)) ++ le_bytes crc ++ payload ++ rest)) = Some es.
Proof.
  intros Hfit Hp Hcrc Hne. unfold replay. set (tail := le_bytes _ ++ _).
  destruct (replay_frames es tail (length (frames es ++ tail)) [] Hfit) as (f & -> & Hfuel); [by rewrite length_app|].
  unfold tail in *. clear tail. rewrite !length_app in Hfuel. simpl in Hfuel. destruct f as [|f]; [lia|].
  cbn [replay_loop]. rewrite (proj2 (Nat.leb_le _ _)) by (rewrite !length_app; simpl; lia).
  destruct (header_split (Z.of_nat (length payload)) crc (payload ++ rest)) as (-> & -> & ->).
  rewrite !from_le_bytes by done. cbn [mbind option_bind].
  destruct (Z.ltb_spec (Z.of_nat (length (payload ++ rest))) (Z.of_nat (length payload))); [done|].
  rewrite Nat2Z.id, take_app_length. destruct (Z.eqb_spec (crc32 payload) crc); done.
Qed.
End oplog.

(** ** A concrete codec

    Binary digits of a numbering of the entries, with a byte-sum checksum: it
    satisfies the laws of [EntryCodec] and makes the definitions above run. *)

#[export] Instance AllocatedBuffer_countable : Countable AllocatedBuffer.
Proof.
  refine (inj_countable' (λ b, (buf_segment_name b, buf_offset b, buf_size b)) (λ '(n, o, z), mkBuffer n o z) _).
  by intros [].
Defined.
#[export] Instance ReplicaStatus_countable : Countable ReplicaStatus.
Proof.
  refine (inj_countable' (λ s, match s with Undefined => 0 | Initialized => 1 | Processing => 2
                                 | Complete => 3 | Removed => 4 | Failed => 5 end)
    (λ n, if n =? 0 then Undefined else if n =? 1 then Initialized else if n =? 2 then Processing
          else if n =? 3 then Complete else if n =? 4 then Removed else Failed) _).
  by intros [].
Defined.
#[export] Instance ReplicaData_countable : Countable ReplicaData.
Proof.
  refine (inj_countable' (λ d, match d with Memory b => inl b | Disk f n => inr (f, n) end)
    (λ x, match x with inl b => Memory b | inr (f, n) => Disk f n end) _).
  by intros [].
Defined.
#[export] Instance Replica_countable : Countable Replica.
Proof.
  refine (inj_countable' (λ r, (rep_id r, rep_status r, rep_ref_count r, rep_data r))
    (λ '(i, s, c, d), mkReplica i s c d) _).
  by intros [].
Defined.
#[export] Instance OpLogEntry_eq_dec : EqDecision OpLogEntry.
Proof. solve_decision. Defined.
#[export] Instance OpLogEntry_countable : Countable OpLogEntry.
Proof.
  refine (inj_countable' (λ e, match e with
    | SegmentMounted n c => inl (inl (n, c)) | SegmentUnmounted n => inl (inr n)
    | PutCommitted k i rs s h => inr (inl (k, i, rs, s, h)) | ERemoved k => inr (inr k) end)
    (λ x, match x with
    | inl (inl (n, c)) => SegmentMounted n c | inl (inr n) => SegmentUnmounted n
    | inr (inl (k, i, rs, s, h)) => PutCommitted k i rs s h | inr (inr k) => ERemoved k end) _).
  by intros [].
Defined.

Fixpoint pos_bits (p : positive) : list Z :=
  match p with xH => [] | xO q => 0 :: pos_bits q | xI q => 1 :: pos_bits q end.
Definition bits_pos (l : list Z) : positive := foldr (λ b p, if b =? 0 then xO p else xI p) xH l.

Lemma bits_pos_bits p : bits_pos (pos_bits p) = p.
Proof. unfold bits_pos. induction p as [p IH|p IH|]; simpl; rewrite ?IH; done. Qed.

Definition bit_codec : EntryCodec.
Proof.
  refine {| encode e := pos_bits (countable.encode e); decode l := countable.decode (bits_pos l);
            crc32 l := foldr Z.add 0 l mod 4294967296 |}.
  - intros e. rewrite bits_pos_bits. apply countable.decode_encode.
  - intros bs. unfold is_u32, u32_max. pose proof (Z.mod_pos_bound (foldr Z.add 0 bs) 4294967296 ltac:(lia)). lia.
Defined.

(** ** Witnesses *)

Definition sample_entries : list OpLogEntry := [SegmentMounted "a" 64; ERemoved "k"; SegmentUnmounted "a"].

Lemma replay_appended_witness :
  Forall (@fits bit_codec) sample_entries ∧
  @replay bit_codec (Some (foldl (λ file e, @append bit_codec e file) (oplog_open None) sample_entries)) = Some sample_entries.
Proof.
  assert (Forall (@fits bit_codec) sample_entries) as Hf by (repeat constructor; vm_compute; discriminate).
  split; [exact Hf|]. apply (@replay_appended bit_codec sample_entries). exact Hf.
Defined.

Lemma replay_torn_prefix_witness :
  Forall (@fits bit_codec) sample_entries ∧
  ∃ k, @replay bit_codec (Some (take 20 (@frames bit_codec sample_entries))) = Some (take k sample_entries).
Proof.
  assert (Forall (@fits bit_codec) sample_entries) as Hf by (repeat constructor; vm_compute; discriminate).
  split; [exact Hf|]. destruct (@replay_torn_prefix bit_codec sample_entries 20 Hf) as (k & Hk & _). exists k. exact Hk.
Defined.

Lemma replay_stops_at_corruption_witness :
  @replay bit_codec (Some (@frames bit_codec sample_entries ++ le_bytes 2 ++ le_bytes 7 ++ [1; 1] ++
    @frame bit_codec (ERemoved "z"))) = Some sample_entries.
Proof.
  assert (Forall (@fits bit_codec) sample_entries) as Hf by (repeat constructor; vm_compute; discriminate).
  apply (@replay_stops_at_corruption bit_codec sample_entries [1; 1] (@frame bit_codec (ERemoved "z")) 7 Hf).
  - split; vm_compute; discriminate.
  - split; vm_compute; discriminate.
  - vm_compute. discriminate.
Defined.
