(* ===== verification/Master.v ===== *)
(** * The master service

    crates/quillcache-store/src/master_service.rs: object metadata in a sharded map,
    one offset allocator per mounted segment, the two-phase put, the identity-guarded
    get, leases, heartbeats, eviction, snapshots and the operation log.

    Every public operation is a function from the master to
    [option (result ErrorCode R * MasterService)] (or [option (R * MasterService)] where
    the code returns no [Result]): [None] is a panic.  Each is one atomic step: the
    operations that allocate run under the segment lock, the others under one shard lock.
    Where the code releases its locks in the middle ([upsert_start], eviction), the halves
    are definitions of their own. *)
From S2P Require Import Prelude F64 BufferAllocator OffsetAllocator Identity ShardedMap CountMin StoreTypes Strategy OpLog.

Record ObjectMetadata : Type := mkObject {
  obj_replicas : ReplicaList;
  obj_identity : IdentityScope;
  lease_until : Z;
  last_access : Z;
  soft_pinned : bool;
  hard_pinned : bool
}.

Record SegmentState : Type := mkSegments {
  allocators : list OffsetBufferAllocator;
  seg_strategy : Strategy;
  next_replica_id : Z
}.

(** The operation log is the bytes of its file, when one is enabled. *)
Record MasterService : Type := mkMaster {
  objects : ShardedMap ObjectMetadata;
  segments : SegmentState;
  strategy_name : string;
  clock : Z;
  lease_ttl : Z;
  high_watermark : f64;
  eviction_ratio : f64;
  segment_heartbeat : gmap string Z;
  segment_ttl : Z;
  segment_owner : gmap string string;
  hotness : CountMinSketch;
  oplog : option (list Z)
}.

Record SegmentSnapshot : Type := mkSegSnap { ss_name : string; ss_capacity : Z }.
Record ObjectSnapshot : Type := mkObjSnap {
  os_key : string;
  os_replicas : list Replica;
  os_identity : IdentityScope;
  os_lease_until : Z;
  os_last_access : Z;
  os_soft_pinned : bool;
  os_hard_pinned : bool
}.
Record MasterSnapshot : Type := mkSnapshot {
  snap_version : Z;
  snap_strategy : string;
  snap_clock : Z;
  snap_lease_ttl : Z;
  snap_high_watermark : f64;
  snap_eviction_ratio : f64;
  snap_segment_ttl : Z;
  snap_next_replica_id : Z;
  snap_segments : list SegmentSnapshot;
  snap_objects : list ObjectSnapshot
}.

(** ** Field updates *)

Definition set_objects (o : ShardedMap ObjectMetadata) (m : MasterService) : MasterService :=
  mkMaster o (segments m) (strategy_name m) (clock m) (lease_ttl m) (high_watermark m) (eviction_ratio m)
    (segment_heartbeat m) (segment_ttl m) (segment_owner m) (hotness m) (oplog m).
Definition set_segments (s : SegmentState) (m : MasterService) : MasterService :=
  mkMaster (objects m) s (strategy_name m) (clock m) (lease_ttl m) (high_watermark m) (eviction_ratio m)
    (segment_heartbeat m) (segment_ttl m) (segment_owner m) (hotness m) (oplog m).
Definition set_clock (c : Z) (m : MasterService) : MasterService :=
  mkMaster (objects m) (segments m) (strategy_name m) c (lease_ttl m) (high_watermark m) (eviction_ratio m)
    (segment_heartbeat m) (segment_ttl m) (segment_owner m) (hotness m) (oplog m).
Definition set_heartbeat (h : gmap string Z) (m : MasterService) : MasterService :=
  mkMaster (objects m) (segments m) (strategy_name m) (clock m) (lease_ttl m) (high_watermark m) (eviction_ratio m)
    h (segment_ttl m) (segment_owner m) (hotness m) (oplog m).
Definition set_owner (o : gmap string string) (m : MasterService) : MasterService :=
  mkMaster (objects m) (segments m) (strategy_name m) (clock m) (lease_ttl m) (high_watermark m) (eviction_ratio m)
    (segment_heartbeat m) (segment_ttl m) o (hotness m) (oplog m).
Definition set_hotness (h : CountMinSketch) (m : MasterService) : MasterService :=
  mkMaster (objects m) (segments m) (strategy_name m) (clock m) (lease_ttl m) (high_watermark m) (eviction_ratio m)
    (segment_heartbeat m) (segment_ttl m) (segment_owner m) h (oplog m).
Definition set_oplog (l : option (list Z)) (m : MasterService) : MasterService :=
  mkMaster (objects m) (segments m) (strategy_name m) (clock m) (lease_ttl m) (high_watermark m) (eviction_ratio m)
    (segment_heartbeat m) (segment_ttl m) (segment_owner m) (hotness m) l.
Definition set_params (ttl : Z) (hw er : f64) (m : MasterService) : MasterService :=
  mkMaster (objects m) (segments m) (strategy_name m) (clock m) ttl hw er
    (segment_heartbeat m) (segment_ttl m) (segment_owner m) (hotness m) (oplog m).
Definition set_segment_ttl (ttl : Z) (m : MasterService) : MasterService :=
  mkMaster (objects m) (segments m) (strategy_name m) (clock m) (lease_ttl m) (high_watermark m) (eviction_ratio m)
    (segment_heartbeat m) ttl (segment_owner m) (hotness m) (oplog m).
Definition set_allocators (l : list OffsetBufferAllocator) (m : MasterService) : MasterService :=
  set_segments (mkSegments l (seg_strategy (segments m)) (next_replica_id (segments m))) m.
Definition set_next_id (n : Z) (m : MasterService) : MasterService :=
  set_segments (mkSegments (allocators (segments m)) (seg_strategy (segments m)) n) m.

(** The [regex] crate: compiling a pattern fails or gives a predicate on keys. *)
Class RegexEngine : Type := { regex_new : string → result string (string → bool) }.

(** ** Segments *)

Section segments.
Context {A : Type} `{BufferAllocator A}.

(** [allocators.iter_mut().find(..)] by segment name, then [deallocate]; an unknown
    segment is skipped. *)
Fixpoint dealloc_in (b : AllocatedBuffer) (allocs : list A) : option (list A) :=
  match allocs with
  | [] => Some []
  | a :: rest =>
      if decide (segment_name a = buf_segment_name b) then a' ← deallocate b a; Some (a' :: rest)
      else rest' ← dealloc_in b rest; Some (a :: rest')
  end.

(** The same search, then [reserve]: the outer [None] is a panic, the inner one an
    unknown segment. *)
Fixpoint reserve_in (b : AllocatedBuffer) (allocs : list A) : option (option bool * list A) :=
  match allocs with
  | [] => Some (None, [])
  | a :: rest =>
      if decide (segment_name a = buf_segment_name b)
      then '(ok, a') ← reserve (buf_offset b) (buf_size b) a; Some (Some ok, a' :: rest)
      else '(ok, rest') ← reserve_in b rest; Some (ok, a :: rest')
  end.

Definition total_capacity (allocs : list A) : option Z := u64_sum (capacity <$> allocs).
Definition total_allocated (allocs : list A) : option Z := u64_sum (allocated <$> allocs).
Definition mounted (name : string) (allocs : list A) : bool :=
  existsb (λ a, bool_decide (segment_name a = name)) allocs.
End segments.

(** The memory buffer of a replica, if it has one. *)
Definition replica_buffers (r : Replica) : list AllocatedBuffer :=
  match rep_data r with Memory b => [b] | Disk _ _ => [] end.

Section master.
Context `{HashIter} `{KeyHash} `{EntryCodec}.
Implicit Types m : MasterService.

Definition has_complete_replica (o : ObjectMetadata) : bool := existsb is_complete (hvalues (obj_replicas o)).

Fixpoint free_buffers (bs : list AllocatedBuffer) (allocs : list OffsetBufferAllocator) : option (list OffsetBufferAllocator) :=
  match bs with
  | [] => Some allocs
  | b :: bs' => allocs' ← dealloc_in b allocs; free_buffers bs' allocs'
  end.

Definition free_replicas (replicas : ReplicaList) (allocs : list OffsetBufferAllocator) : option (list OffsetBufferAllocator) :=
  free_buffers (hvalues replicas ≫= replica_buffers) allocs.

Definition master_new (strategy : string) : MasterService :=
  mkMaster (sm_new DEFAULT_SHARDS) (mkSegments [] (create_strategy strategy) 0) strategy 0 5
    (f64_lit 95 100) (f64_lit 1 10) ∅ 0 ∅ cms_default None.

Definition enable_oplog (file : option (list Z)) m : MasterService := set_oplog (Some (oplog_open file)) m.

Definition log_op (e : OpLogEntry) m : MasterService := set_oplog (append e <$> oplog m) m.

(** [fetch_add(1) + 1]: the sum is checked. *)
Definition tick m : option (Z * MasterService) :=
  c ← u64_add (clock m) 1;
  Some (c, set_clock c m).

(** ** Segment lifecycle *)

Definition mount_segment (name : string) (cap : Z) m : option MasterService :=
  let m := set_heartbeat (<[name := clock m]> (segment_heartbeat m)) m in
  a ← oba_new name cap;
  let m := set_allocators (allocators (segments m) ++ [a]) m in
  Some (log_op (SegmentMounted name cap) m).

(** [obj.replicas.retain(..)] on every object of a shard, then [shard.retain(..)]. *)
Definition drop_replicas (name : string) (o : ObjectMetadata) : ObjectMetadata :=
  mkObject (filter (λ kr, replica_segment_name kr.2 ≠ Some name) (obj_replicas o))
    (obj_identity o) (lease_until o) (last_access o) (soft_pinned o) (hard_pinned o).
Definition prune_shard (name : string) (s : gmap string ObjectMetadata) : gmap string ObjectMetadata :=
  filter (λ ko, obj_replicas ko.2 ≠ ∅) (drop_replicas name <$> s).

Definition unmount_segment (name : string) m : option (result ErrorCode unit * MasterService) :=
  if negb (mounted name (allocators (segments m))) then Some (Err SegmentNotFound, m)
  else
    '(_, objs) ← with_all (λ shards, Some (tt, prune_shard name <$> shards)) (objects m);
    let m := set_objects objs m in
    let m := set_allocators (filter (λ a, segment_name a ≠ name) (allocators (segments m))) m in
    let m := set_heartbeat (delete name (segment_heartbeat m)) m in
    let m := set_owner (delete name (segment_owner m)) m in
    Some (Ok tt, log_op (SegmentUnmounted name) m).

Definition mount_segment_for (client_id name : string) (cap : Z) m : option MasterService :=
  m ← mount_segment name cap m;
  Some (set_owner (<[name := client_id]> (segment_owner m)) m).

Definition segments_owned_by (client_id : string) m : list string :=
  (filter (λ sc, sc.2 = client_id) (hiter (segment_owner m))).*1.

Definition client_heartbeat (client_id : string) m : MasterService :=
  let now := clock m in
  let owned := segments_owned_by client_id m in
  set_heartbeat (foldl (λ hb seg, <[seg := now]> hb) (segment_heartbeat m) owned) m.

Fixpoint remount_loop (client_id : string) (segs : list (string * Z)) m : option MasterService :=
  match segs with
  | [] => Some m
  | (name, cap) :: segs' =>
      m' ← (if mounted name (allocators (segments m))
            then Some (set_owner (<[name := client_id]> (segment_owner m)) m)
            else mount_segment_for client_id name cap m);
      remount_loop client_id segs' m'
  end.

Definition remount_segments (client_id : string) (segs : list (string * Z)) m : option MasterService :=
  m' ← remount_loop client_id segs m;
  Some (client_heartbeat client_id m').

Definition unmount_segment_for (client_id name : string) m : option (result ErrorCode unit * MasterService) :=
  if bool_decide (segment_owner m !! name = Some client_id) then unmount_segment name m
  else Some (Err SegmentNotFound, m).

(** ** Heartbeats *)

Definition heartbeat (segment : string) m : result ErrorCode unit * MasterService :=
  match segment_heartbeat m !! segment with
  | Some _ => (Ok tt, set_heartbeat (<[segment := clock m]> (segment_heartbeat m)) m)
  | None => (Err SegmentNotFound, m)
  end.

Definition fresh (ttl now last : Z) : bool := (ttl =? 0) || (sat_sub now last <=? ttl).

Definition segment_alive (segment : string) m : bool :=
  match segment_heartbeat m !! segment with
  | Some last => fresh (segment_ttl m) (clock m) last
  | None => false
  end.

Definition dead_segments m : list string :=
  filter (λ name, segment_alive name m = false) (segment_name <$> allocators (segments m)).

(** ** Eviction *)

(** [victims_coldest_first]: candidates (key, last access, soft pin), then the stable sort. *)
Definition victim_before (a b : string * Z * bool) : bool :=
  let '(_, ta, sa) := a in
  let '(_, tb, sb) := b in
  match sa, sb with
  | false, true => true
  | true, false => false
  | _, _ => ta <=? tb
  end.

Definition victim_candidates m : list (string * Z * bool) :=
  (λ ko : string * ObjectMetadata, (ko.1, last_access ko.2, soft_pinned ko.2)) <$>
    filter (λ ko, hard_pinned ko.2 = false ∧ lease_until ko.2 ≤ clock m) (sm_iter (objects m)).

Definition victims_coldest_first m : list string :=
  (λ v : string * Z * bool, v.1.1) <$> stable_sort victim_before (victim_candidates m).

(** [s.remove(&key)] under the key's shard. *)
Definition take_object (key : string) m : option (option ObjectMetadata * MasterService) :=
  '(o, objs) ← with_shard key (λ s, Some (s !! key, delete key s)) (objects m);
  Some (o, set_objects objs m).

(** One turn of an eviction loop that does not break: whether an object was evicted. *)
Definition evict_one (key : string) m : option (bool * MasterService) :=
  '(o, m) ← take_object key m;
  match o with
  | None => Some (false, m)
  | Some object =>
      allocs ← free_replicas (obj_replicas object) (allocators (segments m));
      Some (true, log_op (ERemoved key) (set_allocators allocs m))
  end.

Fixpoint evict_until (stop : MasterService → option bool) (victims : list string) (evicted : Z) m :
    option (Z * MasterService) :=
  match victims with
  | [] => Some (evicted, m)
  | key :: victims' =>
      b ← stop m;
      if (b : bool) then Some (evicted, m)
      else
        '(done, m) ← evict_one key m;
        evict_until stop victims' (if (done : bool) then evicted + 1 else evicted) m
  end.

Definition below_target (target : Z) m : option bool :=
  al ← total_allocated (allocators (segments m));
  Some (al <=? target).

Definition enough_free (needed : Z) m : option bool :=
  cap ← total_capacity (allocators (segments m));
  al ← total_allocated (allocators (segments m));
  Some (needed <=? sat_sub cap al).

(** [high_watermark * (1.0 - eviction_ratio) * capacity as f64] truncated to [u64]. *)
Definition evict_target (cap : Z) m : Z :=
  f64_to_u64 (f64_mul (f64_mul (high_watermark m) (f64_sub (f64_of_u64 1) (eviction_ratio m))) (f64_of_u64 cap)).

Definition evict_if_needed m : option (Z * MasterService) :=
  cap ← total_capacity (allocators (segments m));
  if cap =? 0 then Some (0, m)
  else
    al ← total_allocated (allocators (segments m));
    if f64_ltb (f64_of_u64 al) (f64_mul (high_watermark m) (f64_of_u64 cap)) then Some (0, m)
    else evict_until (below_target (evict_target cap m)) (victims_coldest_first m) 0 m.

Definition evict_to_fit (needed : Z) m : option (Z * MasterService) :=
  evict_until (enough_free needed) (victims_coldest_first m) 0 m.

(** ** Allocation *)

Definition strategy_call (size n : Z) (preferred : option string) m :
    option (result ErrorCode (list AllocatedBuffer) * MasterService) :=
  '(r, allocs) ← strategy_allocate (seg_strategy (segments m)) size n preferred [] (allocators (segments m));
  Some (r, set_allocators allocs m).

Definition allocate_replicas (size n : Z) (preferred : option string) m :
    option (result ErrorCode (list AllocatedBuffer) * MasterService) :=
  '(_, m) ← evict_if_needed m;
  '(r, m) ← strategy_call size n preferred m;
  match r with
  | Ok bs => Some (Ok bs, m)
  | Err NoAvailableSegment =>
      '(_, m) ← evict_to_fit (u64_sat_mul size n) m;
      strategy_call size n preferred m
  | Err other => Some (Err other, m)
  end.

(** The loop that numbers the new replicas from [next_replica_id]. *)
Fixpoint number_replicas (bs : list AllocatedBuffer) (id : Z) (replicas : ReplicaList) : option (ReplicaList * Z) :=
  match bs with
  | [] => Some (replicas, id)
  | b :: bs' =>
      id' ← u64_add id 1;
      number_replicas bs' id' (<[id := replica_new id (Memory b)]> replicas)
  end.

Definition insert_object (key : string) (o : ObjectMetadata) m : option MasterService :=
  '(_, objs) ← with_shard key (λ s, Some (tt, <[key := o]> s)) (objects m);
  Some (set_objects objs m).

(** ** Two-phase put *)

Definition put_start (key : string) (identity : IdentityScope) (size : Z) (config : ReplicateConfig) m :
    option (result ErrorCode (list AllocatedBuffer) * MasterService) :=
  '(leftover, objs) ← with_shard key (λ s,
      if from_option has_complete_replica false (s !! key) then Some (Err ObjectAlreadyExists, s)
      else Some (Ok (s !! key), delete key s)) (objects m);
  let m := set_objects objs m in
  match leftover with
  | Err e => Some (Err e, m)
  | Ok old =>
      allocs ← (match old with
                | Some o => free_replicas (obj_replicas o) (allocators (segments m))
                | None => Some (allocators (segments m))
                end);
      let m := set_allocators allocs m in
      '(r, m) ← allocate_replicas size (replica_num config) (preferred_segment config) m;
      match r with
      | Err e => Some (Err e, m)
      | Ok buffers =>
          '(replicas, id) ← number_replicas buffers (next_replica_id (segments m)) ∅;
          let m := set_next_id id m in
          m ← insert_object key
                (mkObject replicas identity 0 (clock m) (with_soft_pin config) (with_hard_pin config)) m;
          Some (Ok buffers, m)
      end
  end.

Definition set_replica_status (st : ReplicaStatus) (o : ObjectMetadata) : ObjectMetadata :=
  mkObject (set_status st <$> obj_replicas o) (obj_identity o) (lease_until o) (last_access o)
    (soft_pinned o) (hard_pinned o).

Definition commit_entry (key : string) (o : ObjectMetadata) : OpLogEntry :=
  PutCommitted key (obj_identity o) (hvalues (obj_replicas o)) (soft_pinned o) (hard_pinned o).

Definition put_end (key : string) m : option (result ErrorCode unit * MasterService) :=
  let logging := bool_decide (is_Some (oplog m)) in
  '(entry, objs) ← with_shard key (λ s,
      match s !! key with
      | None => Some (Err ObjectNotFound, s)
      | Some o =>
          let o' := set_replica_status Complete o in
          Some (Ok (if logging then Some (commit_entry key o') else None), <[key := o']> s)
      end) (objects m);
  let m := set_objects objs m in
  match entry with
  | Err e => Some (Err e, m)
  | Ok None => Some (Ok tt, m)
  | Ok (Some e) => Some (Ok tt, log_op e m)
  end.

Definition put_revoke (key : string) m : option (result ErrorCode unit * MasterService) :=
  '(o, m) ← take_object key m;
  match o with
  | None => Some (Err ObjectNotFound, m)
  | Some object =>
      allocs ← free_replicas (obj_replicas object) (allocators (segments m));
      Some (Ok tt, set_allocators allocs m)
  end.

(** ** The read path *)

Definition alive_segments m : list string :=
  (filter (λ sl, fresh (segment_ttl m) (clock m) sl.2 = true) (hiter (segment_heartbeat m))).*1.

(** [is_complete], then a memory replica's segment must be alive. *)
Definition readable (alive : list string) (r : Replica) : bool :=
  is_complete r &&
  match replica_segment_name r with
  | Some seg => bool_decide (seg ∈ alive)
  | None => true
  end.

Definition readable_replicas (alive : list string) (o : ObjectMetadata) : list Replica :=
  filter (λ r, readable alive r = true) (hvalues (obj_replicas o)).

Definition grant_lease (now until : Z) (o : ObjectMetadata) : ObjectMetadata :=
  mkObject (obj_replicas o) (obj_identity o) until now (soft_pinned o) (hard_pinned o).

Definition get_replica_list (key : string) (requester : IdentityScope) m :
    option (result ErrorCode (list Replica) * MasterService) :=
  let now := clock m in
  let alive := alive_segments m in
  '(_, h) ← increment key (hotness m);
  let m := set_hotness h m in
  '(r, objs) ← with_shard key (λ s,
      match s !! key with
      | None => Some (Err ObjectNotFound, s)
      | Some o =>
          match reuse_violation_against (obj_identity o) requester with
          | Some v => Some (Err (UnsafeReuse v), s)
          | None =>
              let complete := readable_replicas alive o in
              if bool_decide (complete = []) then Some (Err ObjectNotReady, s)
              else
                until ← u64_add now (lease_ttl m);
                Some (Ok complete, <[key := grant_lease now until o]> s)
          end
      end) (objects m);
  Some (r, set_objects objs m).

(** ** Batches *)

Fixpoint revoke_all (keys : list string) m : option MasterService :=
  match keys with
  | [] => Some m
  | k :: keys' => '(_, m) ← put_revoke k m; revoke_all keys' m
  end.

Fixpoint batch_put_loop (items : list (string * IdentityScope * Z)) (config : ReplicateConfig)
    (out : list (list AllocatedBuffer)) (started : list string) m :
    option (result ErrorCode (list (list AllocatedBuffer)) * MasterService) :=
  match items with
  | [] => Some (Ok out, m)
  | (key, identity, size) :: items' =>
      '(r, m) ← put_start key identity size config m;
      match r with
      | Ok buffers => batch_put_loop items' config (out ++ [buffers]) (started ++ [key]) m
      | Err e => m ← revoke_all started m; Some (Err e, m)
      end
  end.

Definition batch_put_start (items : list (string * IdentityScope * Z)) (config : ReplicateConfig) m :
    option (result ErrorCode (list (list AllocatedBuffer)) * MasterService) :=
  batch_put_loop items config [] [] m.

(** [for key in keys { op(key)?; }]. *)
Fixpoint for_keys (op : string → MasterService → option (result ErrorCode unit * MasterService))
    (keys : list string) m : option (result ErrorCode unit * MasterService) :=
  match keys with
  | [] => Some (Ok tt, m)
  | k :: keys' =>
      '(r, m) ← op k m;
      match r with
      | Ok _ => for_keys op keys' m
      | Err e => Some (Err e, m)
      end
  end.

Definition batch_put_end (keys : list string) m := for_keys put_end keys m.
Definition batch_put_revoke (keys : list string) m := for_keys put_revoke keys m.

Fixpoint batch_get_loop (keys : list string) (requester : IdentityScope) (out : list (list Replica)) m :
    option (result ErrorCode (list (list Replica)) * MasterService) :=
  match keys with
  | [] => Some (Ok out, m)
  | k :: keys' =>
      '(r, m) ← get_replica_list k requester m;
      match r with
      | Ok rs => batch_get_loop keys' requester (out ++ [rs]) m
      | Err e => Some (Err e, m)
      end
  end.

Definition batch_get_replica_list (keys : list string) (requester : IdentityScope) m :=
  batch_get_loop keys requester [] m.

Definition exist_key (key : string) m : option (bool * MasterService) :=
  '(b, objs) ← with_shard key (λ s, Some (from_option has_complete_replica false (s !! key), s)) (objects m);
  Some (b, set_objects objs m).

Fixpoint batch_exist_key (keys : list string) m : option (list bool * MasterService) :=
  match keys with
  | [] => Some ([], m)
  | k :: keys' => '(b, m) ← exist_key k m; '(bs, m) ← batch_exist_key keys' m; Some (b :: bs, m)
  end.

Fixpoint regex_loop (keys : list string) (requester : IdentityScope) (out : gmap string (list Replica)) m :
    option (gmap string (list Replica) * MasterService) :=
  match keys with
  | [] => Some (out, m)
  | k :: keys' =>
      '(r, m) ← get_replica_list k requester m;
      regex_loop keys' requester (match r with Ok rs => <[k := rs]> out | Err _ => out end) m
  end.

Definition get_replica_list_by_regex `{RegexEngine} (pattern : string) (requester : IdentityScope) m :
    option (result ErrorCode (gmap string (list Replica)) * MasterService) :=
  match regex_new pattern with
  | Err e => Some (Err (Io (String.append "bad regex: " e)), m)
  | Ok is_match =>
      let keys := filter (λ k, is_match k = true) (sm_iter (objects m)).*1 in
      '(out, m) ← regex_loop keys requester ∅ m;
      Some (Ok out, m)
  end.

(** ** Upsert *)

(** The inspection under the key's shard: (exists complete, leased, existing size). *)
Definition upsert_inspect (key : string) m : option ((bool * bool * Z) * MasterService) :=
  let now := clock m in
  '(r, objs) ← with_shard key (λ s, Some (
      match s !! key with
      | None => (false, false, 0)
      | Some o => (has_complete_replica o, now <? lease_until o,
                   from_option replica_size 0 (head (hvalues (obj_replicas o))))
      end, s)) (objects m);
  Some (r, set_objects objs m).

(** In place: [expect("object present")] panics when the object is gone. *)
Definition upsert_in_place (key : string) (identity : IdentityScope) (now : Z) m :
    option (list AllocatedBuffer * MasterService) :=
  '(bs, objs) ← with_shard key (λ s,
      o ← s !! key;
      let o' := mkObject (set_status Initialized <$> obj_replicas o) identity (lease_until o) now
                  (soft_pinned o) (hard_pinned o) in
      Some (hvalues (obj_replicas o) ≫= replica_buffers, <[key := o']> s)) (objects m);
  Some (bs, set_objects objs m).

Definition upsert_replace (key : string) (identity : IdentityScope) (size : Z) (config : ReplicateConfig) m :
    option (result ErrorCode (list AllocatedBuffer) * MasterService) :=
  '(old, m) ← take_object key m;
  allocs ← (match old with
            | Some o => free_replicas (obj_replicas o) (allocators (segments m))
            | None => Some (allocators (segments m))
            end);
  put_start key identity size config (set_allocators allocs m).

(** The decision taken on an inspection, run on the master as it is by then. *)
Definition upsert_act (seen : bool * bool * Z) (now : Z) (key : string) (identity : IdentityScope) (size : Z)
    (config : ReplicateConfig) m : option (result ErrorCode (list AllocatedBuffer) * MasterService) :=
  let '(exists_complete, leased, existing_size) := seen in
  if negb exists_complete then put_start key identity size config m
  else if (leased : bool) then Some (Err ObjectNotReady, m)
  else if existing_size =? size then
    '(bs, m) ← upsert_in_place key identity now m; Some (Ok bs, m)
  else upsert_replace key identity size config m.

Definition upsert_start (key : string) (identity : IdentityScope) (size : Z) (config : ReplicateConfig) m :
    option (result ErrorCode (list AllocatedBuffer) * MasterService) :=
  let now := clock m in
  '(seen, m) ← upsert_inspect key m;
  upsert_act seen now key identity size config m.

Definition upsert_end (key : string) m := put_end key m.
Definition upsert_revoke (key : string) m := put_revoke key m.

(** ** Remove *)

Definition remove (key : string) (force : bool) m : option (result ErrorCode unit * MasterService) :=
  let now := clock m in
  '(r, objs) ← with_shard key (λ s, Some (
      match s !! key with
      | None => (Err ObjectNotFound, s)
      | Some o => if (now <? lease_until o) && negb force then (Err ObjectNotReady, s)
                  else (Ok o, delete key s)
      end)) (objects m);
  let m := set_objects objs m in
  match r with
  | Err e => Some (Err e, m)
  | Ok object =>
      allocs ← free_replicas (obj_replicas object) (allocators (segments m));
      Some (Ok tt, log_op (ERemoved key) (set_allocators allocs m))
  end.

(** ** Observability *)

Definition segment_count m : Z := Z.of_nat (length (allocators (segments m))).
Definition object_count m : Z := sm_len (objects m).
Definition master_capacity m : option Z := total_capacity (allocators (segments m)).
Definition master_allocated m : option Z := total_allocated (allocators (segments m)).
Definition hotness_of (key : string) m : option Z := count key (hotness m).

(** ** Snapshot and recovery *)

Definition object_snapshot (ko : string * ObjectMetadata) : ObjectSnapshot :=
  mkObjSnap ko.1 (hvalues (obj_replicas ko.2)) (obj_identity ko.2) (lease_until ko.2) (last_access ko.2)
    (soft_pinned ko.2) (hard_pinned ko.2).

Definition snapshot m : MasterSnapshot :=
  mkSnapshot 1 (strategy_name m) (clock m) (lease_ttl m) (high_watermark m) (eviction_ratio m)
    (segment_ttl m) (next_replica_id (segments m))
    ((λ a : OffsetBufferAllocator, mkSegSnap (segment_name a) (capacity a)) <$> allocators (segments m))
    (object_snapshot <$> sm_iter (objects m)).

(** Re-reserve every memory replica's exact range. *)
Fixpoint reserve_all (bs : list AllocatedBuffer) (allocs : list OffsetBufferAllocator) :
    option (result ErrorCode unit * list OffsetBufferAllocator) :=
  match bs with
  | [] => Some (Ok tt, allocs)
  | b :: bs' =>
      '(ok, allocs) ← reserve_in b allocs;
      match ok with
      | None => Some (Err SegmentNotFound, allocs)
      | Some false => Some (Err InvalidReplica, allocs)
      | Some true => reserve_all bs' allocs
      end
  end.

(** [ReplicaList] built from a list by id, later entries winning. *)
Definition replicas_of (rs : list Replica) : ReplicaList := foldl (λ acc r, <[rep_id r := r]> acc) ∅ rs.

Fixpoint mount_all (segs : list SegmentSnapshot) m : option MasterService :=
  match segs with
  | [] => Some m
  | s :: segs' => m ← mount_segment (ss_name s) (ss_capacity s) m; mount_all segs' m
  end.

Fixpoint recover_objects (objs : list ObjectSnapshot) m : option (result ErrorCode MasterService) :=
  match objs with
  | [] => Some (Ok m)
  | o :: objs' =>
      '(r, allocs) ← reserve_all (os_replicas o ≫= replica_buffers) (allocators (segments m));
      match r with
      | Err e => Some (Err e)
      | Ok _ =>
          m ← insert_object (os_key o)
                (mkObject (replicas_of (os_replicas o)) (os_identity o) (os_lease_until o) (os_last_access o)
                   (os_soft_pinned o) (os_hard_pinned o)) (set_allocators allocs m);
          recover_objects objs' m
      end
  end.

Definition recover (snap : MasterSnapshot) : option (result ErrorCode MasterService) :=
  let m := master_new (snap_strategy snap) in
  let m := set_clock (snap_clock snap) m in
  let m := set_segment_ttl (snap_segment_ttl snap) m in
  let m := set_params (snap_lease_ttl snap) (snap_high_watermark snap) (snap_eviction_ratio snap) m in
  m ← mount_all (snap_segments snap) m;
  r ← recover_objects (snap_objects snap) m;
  match r with
  | Err e => Some (Err e)
  | Ok m => Some (Ok (set_next_id (snap_next_replica_id snap) m))
  end.

(** ** Replaying the operation log *)

(** The loop over the replicas of a committed put: reserve, and raise the next id. *)
Fixpoint replay_replicas (rs : list Replica) (next : Z) (allocs : list OffsetBufferAllocator) :
    option (result ErrorCode unit * Z * list OffsetBufferAllocator) :=
  match rs with
  | [] => Some (Ok tt, next, allocs)
  | r :: rs' =>
      '(res, allocs) ← reserve_all (replica_buffers r) allocs;
      match res with
      | Err e => Some (Err e, next, allocs)
      | Ok _ => id' ← u64_add (rep_id r) 1; replay_replicas rs' (Z.max next id') allocs
      end
  end.

Definition apply_op (entry : OpLogEntry) m : option (result ErrorCode unit * MasterService) :=
  match entry with
  | SegmentMounted name cap => m ← mount_segment name cap m; Some (Ok tt, m)
  | SegmentUnmounted name => '(_, m) ← unmount_segment name m; Some (Ok tt, m)
  | ERemoved key =>
      '(o, m) ← take_object key m;
      match o with
      | None => Some (Ok tt, m)
      | Some object =>
          allocs ← free_replicas (obj_replicas object) (allocators (segments m));
          Some (Ok tt, set_allocators allocs m)
      end
  | PutCommitted key identity replicas soft hard =>
      '(res, next, allocs) ← replay_replicas replicas (next_replica_id (segments m)) (allocators (segments m));
      let m := set_next_id next (set_allocators allocs m) in
      match res with
      | Err e => Some (Err e, m)
      | Ok _ => m ← insert_object key (mkObject (replicas_of replicas) identity 0 (clock m) soft hard) m;
                Some (Ok tt, m)
      end
  end.

Fixpoint apply_all (entries : list OpLogEntry) m : option (result ErrorCode MasterService) :=
  match entries with
  | [] => Some (Ok m)
  | e :: entries' =>
      '(r, m) ← apply_op e m;
      match r with
      | Ok _ => apply_all entries' m
      | Err err => Some (Err err)
      end
  end.

Definition recover_from_oplog (strategy : string) (file : option (list Z)) : option (result ErrorCode MasterService) :=
  entries ← replay file;
  apply_all entries (master_new strategy).
End master.
