(* ===== verification/SegmentLedger.v ===== *)
(** * Segments as a ledger of live buffers

    The master's allocator operations ([free_replicas], the placement strategy, the exact
    re-reservation of a recovery) specified on one abstract state: the multiset of live
    buffers of all mounted segments, [seg_inv allocs B].  Everything is proved against the
    allocator contract [AllocatorLaws]. *)
From S2P Require Import Prelude BufferAllocator Identity StoreTypes Strategy OpLog Master.

Section ledger.
Context {A : Type} `{AllocatorLaws A}.
Implicit Types allocs : list A.
Implicit Types B bs : list AllocatedBuffer.

Definition seg_bufs (name : string) (L : gmap Z Z) : list AllocatedBuffer :=
  (λ oz : Z * Z, mkBuffer name oz.1 oz.2) <$> map_to_list L.

Fixpoint live_buffers allocs (Ls : list (gmap Z Z)) : list AllocatedBuffer :=
  match allocs, Ls with
  | a :: allocs', L :: Ls' => seg_bufs (segment_name a) L ++ live_buffers allocs' Ls'
  | _, _ => []
  end.

(** The segments are well formed, their names distinct, and their live buffers are [B]. *)
Record seg_inv allocs B : Prop := mkSegInv {
  si_names : NoDup (segment_name <$> allocs);
  si_live : ∃ Ls, all_inv allocs Ls ∧ live_buffers allocs Ls ≡ₚ B
}.

#[global] Instance seg_inv_proper allocs : Proper ((≡ₚ) ==> iff) (seg_inv allocs).
Proof. intros B B' HB. split; intros [? (Ls & ? & Hp)]; (split; [done|]); exists Ls; split; [done| |done|]; by rewrite Hp. Qed.

Lemma names_of_shape allocs : segment_name <$> allocs = (shape allocs).*1.
Proof. unfold shape. by rewrite <- list_fmap_compose. Qed.
Lemma caps_of_shape allocs : capacity <$> allocs = (shape allocs).*2.
Proof. unfold shape. by rewrite <- list_fmap_compose. Qed.

Lemma shape_names allocs allocs' : shape allocs' = shape allocs → segment_name <$> allocs' = segment_name <$> allocs.
Proof. intros Hsh. by rewrite !names_of_shape, Hsh. Qed.
Lemma shape_capacity allocs allocs' : shape allocs' = shape allocs → capacity <$> allocs' = capacity <$> allocs.
Proof. intros Hsh. by rewrite !caps_of_shape, Hsh. Qed.

Lemma live_buffers_names allocs allocs' Ls :
  segment_name <$> allocs' = segment_name <$> allocs → live_buffers allocs' Ls = live_buffers allocs Ls.
Proof.
  revert allocs Ls. induction allocs' as [|a' allocs' IH]; intros [|a allocs] [|L Ls] Hsh; try done.
  injection Hsh as Hn Hsh. simpl. rewrite Hn, (IH allocs) by done. done.
Qed.

Lemma seg_bufs_insert name L o z :
  L !! o = None → seg_bufs name (<[o := z]> L) ≡ₚ mkBuffer name o z :: seg_bufs name L.
Proof. intros HL. unfold seg_bufs. by rewrite map_to_list_insert. Qed.

Lemma seg_bufs_delete name L o z :
  L !! o = Some z → seg_bufs name L ≡ₚ mkBuffer name o z :: seg_bufs name (delete o L).
Proof. intros HL. unfold seg_bufs. by rewrite <- (map_to_list_delete L o z HL). Qed.

Lemma elem_of_seg_bufs name L b :
  b ∈ seg_bufs name L ↔ buf_segment_name b = name ∧ L !! buf_offset b = Some (buf_size b).
Proof.
  unfold seg_bufs. rewrite list_elem_of_fmap. split.
  - intros ([o z] & -> & Hin%elem_of_map_to_list). done.
  - intros [Hn Hb]. exists (buf_offset b, buf_size b). rewrite elem_of_map_to_list. split; [|done]. destruct b; simpl in *; congruence.
Qed.

Lemma elem_of_live_buffers allocs Ls b :
  b ∈ live_buffers allocs Ls → buf_segment_name b ∈ segment_name <$> allocs.
Proof.
  revert Ls. induction allocs as [|a allocs IH]; intros [|L Ls]; simpl; try (by rewrite elem_of_nil).
  rewrite elem_of_app, elem_of_seg_bufs. intros [[-> _]|Hb]; [set_solver|]. right. by eapply IH.
Qed.

Lemma live_buffers_insert allocs Ls i a L o z :
  allocs !! i = Some a → Ls !! i = Some L → L !! o = None →
  live_buffers allocs (<[i := <[o := z]> L]> Ls) ≡ₚ mkBuffer (segment_name a) o z :: live_buffers allocs Ls.
Proof.
  revert allocs i. induction Ls as [|L0 Ls IH]; intros [|a0 allocs] [|i] Ha HL Hn; try done.
  - simpl in *. simplify_eq. rewrite seg_bufs_insert by done. done.
  - simpl in *. rewrite (IH allocs i) by done. by rewrite Permutation_middle.
Qed.

Lemma placements_live size allocs order bs Ls Ls' :
  placements size allocs order bs Ls Ls' → live_buffers allocs Ls' ≡ₚ bs ++ live_buffers allocs Ls.
Proof.
  induction 1 as [|i order b bs Ls Ls1 Ls2 (a & L & Ha & HL & Hn & Hz & Hnone & ->) Hpl IH]; [done|].
  rewrite IH, (live_buffers_insert allocs Ls i a L) by done. rewrite <- Permutation_middle. simpl.
  replace (mkBuffer (segment_name a) (buf_offset b) size) with b; [done|]. destruct b; simpl in *; congruence.
Qed.

(** ** Freeing *)

Lemma dealloc_in_spec b allocs Ls :
  all_inv allocs Ls → NoDup (segment_name <$> allocs) → b ∈ live_buffers allocs Ls →
  ∃ allocs' Ls', dealloc_in b allocs = Some allocs' ∧ all_inv allocs' Ls' ∧ shape allocs' = shape allocs ∧
    live_buffers allocs Ls ≡ₚ b :: live_buffers allocs' Ls'.
Proof.
  intros HI. induction HI as [|a L allocs Ls Ha HI IH]; intros Hnd Hb; simpl in *; [by apply elem_of_nil in Hb|].
  apply NoDup_cons in Hnd as [Hnin Hnd]. apply elem_of_app in Hb as [Hb|Hb].
  - apply elem_of_seg_bufs in Hb as [Hn HL]. rewrite decide_True by done.
    destruct (ba_deallocate a L b Ha HL) as (a' & -> & Hn' & Hc' & Ha'). cbn [mbind option_bind].
    exists (a' :: allocs), (delete (buf_offset b) L :: Ls). split; [done|]. split; [by constructor|]. split.
    { unfold shape. rewrite !fmap_cons. by rewrite Hn', Hc'. }
    simpl. rewrite (seg_bufs_delete _ L _ _ HL), Hn'. simpl.
    replace (mkBuffer (segment_name a) (buf_offset b) (buf_size b)) with b; [done|]. destruct b; simpl in *; congruence.
  - rewrite decide_False by (intros E; apply Hnin; rewrite E; by eapply elem_of_live_buffers).
    destruct (IH Hnd Hb) as (allocs' & Ls' & -> & HI' & Hsh & Hp). cbn [mbind option_bind].
    exists (a :: allocs'), (L :: Ls'). split; [done|]. split; [by constructor|]. split.
    { unfold shape in *. by rewrite !fmap_cons, Hsh. }
    simpl. rewrite Hp. by rewrite Permutation_middle.
Qed.

Lemma dealloc_in_inv b B allocs :
  seg_inv allocs (b :: B) →
  ∃ allocs', dealloc_in b allocs = Some allocs' ∧ seg_inv allocs' B ∧ shape allocs' = shape allocs.
Proof.
  intros (Hnd & Ls & HI & HB). destruct (dealloc_in_spec b allocs Ls HI Hnd) as (allocs' & Ls' & -> & HI' & Hsh & Hp).
  { rewrite HB. set_solver. }
  exists allocs'. split_and!; [done| |done]. split; [by rewrite (shape_names _ _ Hsh)|]. exists Ls'. split; [done|].
  rewrite Hp in HB. by apply Permutation_cons_inv in HB.
Qed.

(** ** Placing *)

Lemma strategy_inv st size n preferred excluded allocs B :
  seg_inv allocs B → 0 ≤ size → 0 ≤ n →
  ∃ res allocs', strategy_allocate st size n preferred excluded allocs = Some (res, allocs') ∧
    shape allocs' = shape allocs ∧
    match res with
    | Ok bs => seg_inv allocs' (bs ++ B) ∧ Z.of_nat (length bs) = n ∧ NoDup (buf_segment_name <$> bs) ∧
               Forall (λ b, buf_size b = size) bs
    | Err e => e = NoAvailableSegment ∧ seg_inv allocs' B
    end.
Proof.
  intros (Hnd & Ls & HI & HB) Hs Hn.
  destruct (strategy_allocate_spec st size n preferred excluded allocs Ls HI Hs Hn) as (res & allocs' & Ls' & Heq & HI' & Hsh & Hres).
  exists res, allocs'. split_and!; [done..|]. pose proof (shape_names _ _ Hsh) as Hnm.
  assert (NoDup (segment_name <$> allocs')) as Hnd' by (by rewrite Hnm). destruct res as [bs|e].
  - destruct Hres as (cand & order & _ & _ & Hpl & Hndo & Hlen & _). split_and!; [|done|exact (placements_nodup _ _ _ _ _ _ Hnd Hndo Hpl)|].
    + split; [done|]. exists Ls'. split; [done|]. rewrite (live_buffers_names allocs) by done.
      by rewrite (placements_live _ _ _ _ _ _ Hpl), HB.
    + apply placements_names in Hpl. apply Forall_lookup. intros k b Hk.
      by destruct (Forall2_lookup_r _ _ _ _ _ Hpl Hk) as (i & _ & a & _ & _ & ?).
  - destruct Hres as (-> & -> & _). split; [done|]. split; [done|]. exists Ls. split; [done|]. by rewrite (live_buffers_names allocs).
Qed.

(** ** Re-reserving *)

Lemma reserve_in_inv b B allocs :
  seg_inv allocs B → 0 ≤ buf_offset b → 0 ≤ buf_size b → buf_offset b + buf_size b ≤ u64_max →
  ∃ ok allocs', reserve_in b allocs = Some (ok, allocs') ∧ shape allocs' = shape allocs ∧
    match ok with
    | None => buf_segment_name b ∉ (segment_name <$> allocs) ∧ allocs' = allocs
    | Some true => seg_inv allocs' (b :: B)
    | Some false => seg_inv allocs' B
    end.
Proof.
  intros (Hnd & Ls & HI & HB) Ho Hs Hmax.
  assert (∃ ok allocs', reserve_in b allocs = Some (ok, allocs') ∧ shape allocs' = shape allocs ∧
    match ok with
    | None => buf_segment_name b ∉ (segment_name <$> allocs) ∧ allocs' = allocs
    | Some true => ∃ Ls', all_inv allocs' Ls' ∧ live_buffers allocs' Ls' ≡ₚ b :: live_buffers allocs Ls
    | Some false => ∃ Ls', all_inv allocs' Ls' ∧ live_buffers allocs' Ls' = live_buffers allocs Ls
    end) as (ok & allocs' & -> & Hsh & Hok).
  { clear HB Hnd. induction HI as [|a L allocs Ls Ha HI IH]; simpl; [exists None, []; set_solver|].
    destruct (decide (segment_name a = buf_segment_name b)) as [Hn|Hn].
    - destruct (ba_reserve a L (buf_offset b) (buf_size b) Ha Ho Hs Hmax) as (ok & a' & -> & Hn' & Hc' & Hok).
      cbn [mbind option_bind]. eexists _, _. split; [done|]. split; [unfold shape; rewrite !fmap_cons; by rewrite Hn', Hc'|].
      destruct ok.
      + destruct Hok as [Hnone Ha']. exists (<[buf_offset b := buf_size b]> L :: Ls). split; [by constructor|]. simpl.
        rewrite Hn', seg_bufs_insert by done. simpl.
        replace (mkBuffer (segment_name a) (buf_offset b) (buf_size b)) with b; [done|]. destruct b; simpl in *; congruence.
      + exists (L :: Ls). split; [by constructor|]. simpl. by rewrite Hn'.
    - destruct IH as (ok & allocs' & -> & Hsh & Hok). cbn [mbind option_bind]. eexists _, _. split; [done|].
      split; [unfold shape in *; by rewrite !fmap_cons, Hsh|]. destruct ok as [[]|].
      + destruct Hok as (Ls' & ? & Hp). exists (L :: Ls'). split; [by constructor|]. simpl. rewrite Hp. by rewrite Permutation_middle.
      + destruct Hok as (Ls' & ? & Hp). exists (L :: Ls'). split; [by constructor|]. simpl. by rewrite Hp.
      + destruct Hok as [Hok Hok0]. split; [|by rewrite Hok0]. rewrite not_elem_of_cons. split; [congruence|done]. }
  exists ok, allocs'. split_and!; [done..|]. pose proof (shape_names _ _ Hsh) as Hnm. destruct ok as [[]|]; [| |done].
  - destruct Hok as (Ls' & ? & Hp). split; [by rewrite Hnm|]. exists Ls'. split; [done|]. by rewrite Hp, HB.
  - destruct Hok as (Ls' & ? & Hp). split; [by rewrite Hnm|]. exists Ls'. split; [done|]. by rewrite Hp.
Qed.

(** ** Mounting and unmounting *)

Lemma seg_inv_snoc allocs B a :
  seg_inv allocs B → ba_inv a ∅ → segment_name a ∉ segment_name <$> allocs → seg_inv (allocs ++ [a]) B.
Proof.
  intros (Hnd & Ls & HI & HB) Ha Hn. split.
  - rewrite fmap_app. apply NoDup_app. split_and!; [done| |by apply NoDup_singleton].
    intros x Hx. simpl. rewrite list_elem_of_singleton. by intros ->.
  - exists (Ls ++ [∅]). split; [apply Forall2_app; [done|by repeat constructor]|]. rewrite <- HB. clear -HI.
    induction HI as [|a0 L allocs Ls Ha HI IH]; simpl.
    + unfold seg_bufs. by rewrite map_to_list_empty.
    + by rewrite IH.
Qed.

Lemma seg_inv_unmount allocs B name :
  seg_inv allocs B → seg_inv (filter (λ a, segment_name a ≠ name) allocs) (filter (λ b, buf_segment_name b ≠ name) B).
Proof.
  intros (Hnd & Ls & HI & HB). split.
  - clear -Hnd. induction allocs as [|a allocs IH]; simpl; [constructor|]. apply NoDup_cons in Hnd as [Hn Hnd].
    rewrite filter_cons. case_decide; [|by apply IH]. rewrite fmap_cons. apply NoDup_cons. split; [|by apply IH].
    intros (x & Hx & Hin)%list_elem_of_fmap. apply list_elem_of_filter in Hin as [_ Hin]. apply Hn. rewrite Hx. by apply list_elem_of_fmap_2.
  - assert (∃ Ls', all_inv (filter (λ a, segment_name a ≠ name) allocs) Ls' ∧
      live_buffers (filter (λ a, segment_name a ≠ name) allocs) Ls' = filter (λ b, buf_segment_name b ≠ name) (live_buffers allocs Ls))
      as (Ls' & ? & Hl).
    { clear -HI. induction HI as [|a L allocs Ls Ha HI (Ls' & HI' & Hl)]; [by exists []; split; [constructor|]|].
      simpl. rewrite filter_cons, filter_app. case_decide as Hd.
      - exists (L :: Ls'). split; [by constructor|]. simpl. rewrite Hl. f_equal. symmetry. apply list_filter_all.
        intros b [? _]%elem_of_seg_bufs. congruence.
      - exists Ls'. split; [done|]. rewrite Hl, (list_filter_none _ (seg_bufs _ _)); [done|].
        intros b [? _]%elem_of_seg_bufs. congruence. }
    exists Ls'. split; [done|]. by rewrite Hl, HB.
Qed.

(** ** Totals *)

Definition sum_sizes B : Z := foldr Z.add 0 (buf_size <$> B).

Lemma sum_sizes_perm B B' : B ≡ₚ B' → sum_sizes B = sum_sizes B'.
Proof. intros Hp. apply foldr_add_perm. by rewrite Hp. Qed.

Lemma sum_sizes_app B B' : sum_sizes (B ++ B') = sum_sizes B + sum_sizes B'.
Proof. unfold sum_sizes. by rewrite fmap_app, foldr_add_app. Qed.

Lemma msum_list (L : gmap Z Z) name : msum L = sum_sizes (seg_bufs name L).
Proof.
  induction L as [|o z L Ho IH] using map_ind.
  - unfold seg_bufs. rewrite map_to_list_empty. apply msum_empty_Z.
  - rewrite msum_insert by done. rewrite (sum_sizes_perm _ _ (seg_bufs_insert name L o z Ho)), IH. done.
Qed.

(** The capacity of the segments fits a [u64]: then both totals are exact, and the
    allocated total is the sum of the live buffers. *)
Lemma total_spec allocs B :
  seg_inv allocs B → foldr Z.add 0 (capacity <$> allocs) ≤ u64_max →
  total_capacity allocs = Some (foldr Z.add 0 (capacity <$> allocs)) ∧
  total_allocated allocs = Some (sum_sizes B) ∧ 0 ≤ sum_sizes B ≤ foldr Z.add 0 (capacity <$> allocs).
Proof.
  intros (Hnd & Ls & HI & HB) Hc.
  assert (Forall (λ x, 0 ≤ x) (capacity <$> allocs) ∧ Forall (λ x, 0 ≤ x) (allocated <$> allocs) ∧
    foldr Z.add 0 (allocated <$> allocs) = sum_sizes (live_buffers allocs Ls) ∧
    foldr Z.add 0 (allocated <$> allocs) ≤ foldr Z.add 0 (capacity <$> allocs)) as (H1 & H2 & H3 & H4).
  { clear -HI. induction HI as [|a L allocs Ls Ha HI (IH1 & IH2 & IH3 & IH4)]; [by repeat constructor|].
    pose proof (ba_capacity a L Ha). destruct (ba_allocated a L Ha) as [Hal Hle].
    assert (0 ≤ msum L).
    { apply msum_nonneg. intros o z Hoz. destruct (ba_live_ok a L Ha) as [Hin _]. destruct (Hin o z Hoz) as (? & ? & ?). lia. }
    cbn [live_buffers]. rewrite !fmap_cons. cbn [foldr]. rewrite !Forall_cons, sum_sizes_app, <- msum_list. split; [split; [lia|done]|]. split; [split; [lia|done]|]. lia. }
  unfold total_capacity, total_allocated. rewrite <- (sum_sizes_perm _ _ HB), <- H3.
  pose proof (foldr_add_nonneg _ H2). rewrite !u64_sum_ok by (done || lia). done.
Qed.

Lemma sum_sizes_elem allocs B b : seg_inv allocs B → b ∈ B → 0 ≤ buf_offset b ∧ 0 < buf_size b ∧ buf_offset b + buf_size b ≤ MAX_SEGMENT.
Proof.
  intros (_ & Ls & HI & HB) Hb. rewrite <- HB in Hb. clear HB. induction HI as [|a L allocs Ls Ha HI IH]; simpl in Hb; [by apply elem_of_nil in Hb|].
  apply elem_of_app in Hb as [[_ Hb]%elem_of_seg_bufs|Hb]; [|by apply IH].
  destruct (ba_live_ok a L Ha) as [Hin _]. pose proof (Hin _ _ Hb). pose proof (ba_capacity a L Ha). lia.
Qed.

(** ** What the ledger says of two live buffers *)

Lemma seg_bufs_NoDup name L : NoDup (seg_bufs name L).
Proof. apply NoDup_fmap_2_strong; [|apply NoDup_map_to_list]. intros [o z] [o' z'] _ _ [= -> ->]. done. Qed.

Lemma seg_inv_NoDup allocs B : seg_inv allocs B → NoDup B.
Proof.
  intros (Hnd & Ls & HI & HB). rewrite <- HB. clear HB. induction HI as [|a L allocs Ls Ha HI IH]; simpl; [constructor|].
  apply NoDup_cons in Hnd as [Hn Hnd]. apply NoDup_app. split_and!; [apply seg_bufs_NoDup| |by apply IH].
  intros b [Hb _]%elem_of_seg_bufs Hb'%elem_of_live_buffers. apply Hn. by rewrite <- Hb.
Qed.

Lemma seg_inv_disjoint allocs B b1 b2 :
  seg_inv allocs B → b1 ∈ B → b2 ∈ B → b1 ≠ b2 → buf_segment_name b1 = buf_segment_name b2 →
  buffers_disjoint (buf_offset b1) (buf_size b1) (buf_offset b2) (buf_size b2).
Proof.
  intros (Hnd & Ls & HI & HB) H1 H2 Hne Hnm. rewrite <- HB in H1, H2. clear HB.
  induction HI as [|a L allocs Ls Ha HI IH]; simpl in *; [by apply elem_of_nil in H1|].
  apply NoDup_cons in Hnd as [Hn Hnd]. apply elem_of_app in H1, H2.
  destruct H1 as [H1|H1], H2 as [H2|H2].
  - apply elem_of_seg_bufs in H1 as [? H1], H2 as [? H2]. destruct (ba_live_ok a L Ha) as [_ Hd].
    apply Hd; [done..|]. intros E. apply Hne. rewrite E in H1. destruct b1, b2; simpl in *; congruence.
  - apply elem_of_seg_bufs in H1 as [H1 _]. apply elem_of_live_buffers in H2. destruct Hn. by rewrite <- H1, Hnm.
  - apply elem_of_seg_bufs in H2 as [H2 _]. apply elem_of_live_buffers in H1. destruct Hn. by rewrite <- H2, <- Hnm.
  - by apply IH.
Qed.

Lemma seg_inv_inside allocs B b :
  seg_inv allocs B → b ∈ B → ∃ a, a ∈ allocs ∧ segment_name a = buf_segment_name b ∧
    0 ≤ buf_offset b ∧ 0 < buf_size b ∧ buf_offset b + buf_size b ≤ capacity a.
Proof.
  intros (Hnd & Ls & HI & HB) Hb. rewrite <- HB in Hb. clear HB Hnd. induction HI as [|a L allocs Ls Ha HI IH]; simpl in *; [by apply elem_of_nil in Hb|].
  apply elem_of_app in Hb as [[-> Hb]%elem_of_seg_bufs|Hb].
  - exists a. destruct (ba_live_ok a L Ha) as [Hin _]. pose proof (Hin _ _ Hb). split_and!; [set_solver|done|lia..].
  - destruct (IH Hb) as (a' & ? & ?). exists a'. split; [by right|done].
Qed.
End ledger.
