(* ===== verification/MasterInv.v ===== *)
(** * The master's invariant

    [minv extra m]: the object map is well routed, the live buffers of the mounted segments
    are exactly the memory buffers of the recorded replicas plus [extra] (buffers an
    operation holds between allocating and recording them), replica ids are unique and
    below the counter, leases and access times are bounded by the clock, and the totals fit
    a [u64].  [master_inv] is the case [extra = []], which every operation keeps. *)
From S2P Require Import Prelude F64 BufferAllocator OffsetAllocator Identity ShardedMap CountMin StoreTypes Strategy OpLog Master SegmentLedger.

(** ** Buffers recorded by objects *)

Definition rep_bufs (rl : ReplicaList) : list AllocatedBuffer := (map_to_list rl).*2 ≫= replica_buffers.
Definition mem_buffers (w : gmap string ObjectMetadata) : list AllocatedBuffer :=
  (map_to_list w).*2 ≫= (λ o, rep_bufs (obj_replicas o)).

Lemma rep_bufs_insert rl id r : rl !! id = None → rep_bufs (<[id := r]> rl) ≡ₚ replica_buffers r ++ rep_bufs rl.
Proof. intros Hr. unfold rep_bufs. by rewrite map_to_list_insert. Qed.

Lemma rep_bufs_empty : rep_bufs ∅ = [].
Proof. unfold rep_bufs. by rewrite map_to_list_empty. Qed.

Lemma elem_of_rep_bufs rl b : b ∈ rep_bufs rl ↔ ∃ id r, rl !! id = Some r ∧ rep_data r = Memory b.
Proof.
  unfold rep_bufs. rewrite list_elem_of_bind. split.
  - intros (r & Hb & Hr). apply list_elem_of_fmap in Hr as ([id r'] & -> & Hin%elem_of_map_to_list). exists id, r'. split; [done|].
    unfold replica_buffers in Hb. simpl in Hb. destruct (rep_data r'); set_solver.
  - intros (id & r & Hr & Hd). exists r. split; [unfold replica_buffers; rewrite Hd; set_solver|].
    apply list_elem_of_fmap. exists (id, r). by rewrite elem_of_map_to_list.
Qed.

Lemma rep_bufs_status st rl : rep_bufs (set_status st <$> rl) = rep_bufs rl.
Proof.
  unfold rep_bufs. rewrite map_to_list_fmap. generalize (map_to_list rl). intros l.
  induction l as [|[id r] l IH]; [done|]. rewrite !fmap_cons, !bind_cons, IH. done.
Qed.

Lemma mem_buffers_empty : mem_buffers ∅ = [].
Proof. unfold mem_buffers. by rewrite map_to_list_empty. Qed.

Lemma mem_buffers_insert w k o :
  w !! k = None → mem_buffers (<[k := o]> w) ≡ₚ rep_bufs (obj_replicas o) ++ mem_buffers w.
Proof. intros Hk. unfold mem_buffers. by rewrite map_to_list_insert. Qed.

Lemma mem_buffers_delete w k o :
  w !! k = Some o → mem_buffers w ≡ₚ rep_bufs (obj_replicas o) ++ mem_buffers (delete k w).
Proof. intros Hk. unfold mem_buffers. by rewrite <- (map_to_list_delete w k o Hk). Qed.

(** Overwriting an object by one with the same buffers keeps the recorded buffers. *)
Lemma mem_buffers_update w k o o' :
  w !! k = Some o → rep_bufs (obj_replicas o') ≡ₚ rep_bufs (obj_replicas o) →
  mem_buffers (<[k := o']> w) ≡ₚ mem_buffers w.
Proof.
  intros Hk Hr. rewrite <- insert_delete_eq, mem_buffers_insert by apply lookup_delete_eq.
  by rewrite Hr, <- (mem_buffers_delete w k o Hk).
Qed.

Lemma elem_of_mem_buffers w b :
  b ∈ mem_buffers w ↔ ∃ k o id r, w !! k = Some o ∧ obj_replicas o !! id = Some r ∧ rep_data r = Memory b.
Proof.
  unfold mem_buffers. rewrite list_elem_of_bind. setoid_rewrite elem_of_rep_bufs. split.
  - intros (o & (id & r & ? & ?) & Hin). apply list_elem_of_fmap in Hin as ([k o'] & -> & Hin%elem_of_map_to_list). simpl in *. eauto 10.
  - intros (k & o & id & r & Hk & ? & ?). exists o. split; [eauto|]. apply list_elem_of_fmap. exists (k, o). by rewrite elem_of_map_to_list.
Qed.

(** ** The invariant *)

Section inv.
Context `{HashIter} `{KeyHash} `{EntryCodec}.
Implicit Types m : MasterService.

Lemma hvalues_bufs rl : hvalues rl ≫= replica_buffers ≡ₚ rep_bufs rl.
Proof. unfold hvalues, rep_bufs. by rewrite hiter_perm. Qed.

Definition view m : gmap string ObjectMetadata := sm_view (objects m).
Definition allocs m : list OffsetBufferAllocator := allocators (segments m).
Definition names m : list string := segment_name <$> allocs m.

(** What the invariant says of one object. *)
Definition obj_ok m (o : ObjectMetadata) : Prop :=
  (∀ id r, obj_replicas o !! id = Some r → rep_id r = id ∧ 0 ≤ id < next_replica_id (segments m)) ∧
  0 ≤ last_access o ≤ clock m ∧ 0 ≤ lease_until o ≤ clock m + lease_ttl m.

Record minv (extra : list AllocatedBuffer) m : Prop := {
  mi_wf : sm_wf (objects m);
  mi_ledger : seg_inv (allocs m) (extra ++ mem_buffers (view m));
  mi_caps : foldr Z.add 0 (capacity <$> allocs m) ≤ u64_max;
  mi_clock : 0 ≤ clock m ∧ 0 ≤ lease_ttl m ∧ clock m + lease_ttl m ≤ u64_max;
  mi_next : 0 ≤ next_replica_id (segments m) ≤ u64_max;
  mi_objects : map_Forall (λ _ o, obj_ok m o) (view m);
  mi_hot : ∃ ex, cms_inv (hotness m) ex;
  mi_heartbeat : ∀ s, is_Some (segment_heartbeat m !! s) ↔ s ∈ names m;
  mi_owner : ∀ s, is_Some (segment_owner m !! s) → s ∈ names m;
  mi_strategy : seg_strategy (segments m) = create_strategy (strategy_name m)
}.

Definition master_inv m : Prop := minv [] m.

(** What an eviction or an allocation leaves alone: everything but the objects, the
    allocators' contents and the operation log. *)
Record frame_eq m m' : Prop := {
  fe_shape : shape (allocs m') = shape (allocs m);
  fe_strategy : seg_strategy (segments m') = seg_strategy (segments m);
  fe_next : next_replica_id (segments m') = next_replica_id (segments m);
  fe_name : strategy_name m' = strategy_name m;
  fe_clock : clock m' = clock m;
  fe_lease : lease_ttl m' = lease_ttl m;
  fe_water : high_watermark m' = high_watermark m;
  fe_ratio : eviction_ratio m' = eviction_ratio m;
  fe_hb : segment_heartbeat m' = segment_heartbeat m;
  fe_ttl : segment_ttl m' = segment_ttl m;
  fe_owner : segment_owner m' = segment_owner m;
  fe_hot : hotness m' = hotness m
}.

#[global] Instance frame_eq_preorder : PreOrder frame_eq.
Proof.
  split; [by intros m|]. intros m1 m2 m3 [] []. split; congruence.
Qed.

(** Replacing the objects. *)
Lemma minv_set_objects extra extra' objs m :
  minv extra m → sm_wf objs → extra' ++ mem_buffers (sm_view objs) ≡ₚ extra ++ mem_buffers (view m) →
  map_Forall (λ _ o, obj_ok m o) (sm_view objs) → minv extra' (set_objects objs m).
Proof. intros [] Hwf Hp Ho. constructor; try done. unfold view, allocs in *. simpl. by rewrite Hp. Qed.

(** Replacing the allocators by ones with the same names and capacities. *)
Lemma minv_set_allocators extra extra' al m :
  minv extra m → seg_inv al (extra' ++ mem_buffers (view m)) → shape al = shape (allocs m) →
  minv extra' (set_allocators al m).
Proof.
  intros [] Hl Hsh. unfold names in *. constructor; try done; change (allocs (set_allocators al m)) with al; unfold names in *.
  - by rewrite (shape_capacity _ _ Hsh).
  - change (allocs (set_allocators al m)) with al. by rewrite (shape_names _ _ Hsh).
  - change (allocs (set_allocators al m)) with al. by rewrite (shape_names _ _ Hsh).
Qed.

Lemma minv_log extra e m : minv extra m → minv extra (log_op e m).
Proof. intros []. by constructor. Qed.

Lemma frame_set_objects objs m : frame_eq m (set_objects objs m).
Proof. by split. Qed.
Lemma frame_set_allocators al m : shape al = shape (allocs m) → frame_eq m (set_allocators al m).
Proof. by split. Qed.
Lemma frame_log e m : frame_eq m (log_op e m).
Proof. by split. Qed.

Lemma obj_ok_frame m m' o : frame_eq m m' → obj_ok m o → obj_ok m' o.
Proof. intros [] ?. unfold obj_ok. by rewrite fe_next0, fe_clock0, fe_lease0. Qed.

(** ** Object access under one shard *)

Lemma take_object_spec k m :
  sm_wf (objects m) → ∃ objs, take_object k m = Some (view m !! k, set_objects objs m) ∧
    sm_wf objs ∧ sm_view objs = delete k (view m).
Proof.
  intros Hwf. unfold take_object.
  destruct (with_shard_spec (objects m) k (λ s, Some (s !! k, delete k s)) (view m !! k) None Hwf) as (objs & -> & Hwf' & Hv).
  { intros s Hs. exists (delete k s). split; [by rewrite Hs|]. split; [by rewrite lookup_delete_eq|].
    intros k' Hk'. by rewrite lookup_delete_ne. }
  cbn [mbind option_bind]. eauto.
Qed.

Lemma insert_object_spec k o m :
  sm_wf (objects m) → ∃ objs, insert_object k o m = Some (set_objects objs m) ∧
    sm_wf objs ∧ sm_view objs = <[k := o]> (view m).
Proof.
  intros Hwf. unfold insert_object.
  destruct (with_shard_spec (objects m) k (λ s, Some (tt, <[k := o]> s)) tt (Some o) Hwf) as (objs & -> & Hwf' & Hv).
  { intros s Hs. eexists. split; [done|]. split; [by rewrite lookup_insert_eq|]. intros k' Hk'. by rewrite lookup_insert_ne. }
  cbn [mbind option_bind]. eauto.
Qed.

(** Reading a shard leaves the view as it is. *)
Lemma with_shard_read {R} (g : option ObjectMetadata → R) k m :
  sm_wf (objects m) → ∃ objs, with_shard k (λ s, Some (g (s !! k), s)) (objects m) = Some (g (view m !! k), objs) ∧
    sm_wf objs ∧ sm_view objs = view m.
Proof.
  intros Hwf. destruct (with_shard_spec (objects m) k (λ s, Some (g (s !! k), s)) (g (view m !! k)) (view m !! k) Hwf) as (objs & -> & ? & Hv).
  { intros s Hs. exists s. split; [by rewrite Hs|]. split; [by rewrite Hs|done]. }
  exists objs. split_and!; [done..|]. rewrite Hv. apply map_eq. intros k'. rewrite view_set_lookup. case_decide; subst; done.
Qed.

(** ** Freeing *)

Lemma free_buffers_spec bs B al :
  seg_inv al (bs ++ B) → ∃ al', free_buffers bs al = Some al' ∧ seg_inv al' B ∧ shape al' = shape al.
Proof.
  revert al. induction bs as [|b bs IH]; intros al HI; simpl; [by eauto|].
  destruct (dealloc_in_inv b (bs ++ B) al HI) as (al1 & -> & HI1 & Hsh1). cbn [mbind option_bind].
  destruct (IH al1 HI1) as (al2 & -> & HI2 & Hsh2). exists al2. split_and!; [done..|congruence].
Qed.

Lemma free_replicas_spec rl B al :
  seg_inv al (rep_bufs rl ++ B) → ∃ al', free_replicas rl al = Some al' ∧ seg_inv al' B ∧ shape al' = shape al.
Proof. intros HI. apply free_buffers_spec. by rewrite hvalues_bufs. Qed.

(** Removing an object and freeing its replicas, as [put_revoke], [remove], eviction and
    the reclaim of a leftover do. *)
Lemma take_and_free k extra m :
  minv extra m →
  ∃ objs, take_object k m = Some (view m !! k, set_objects objs m) ∧ sm_view objs = delete k (view m) ∧
    match view m !! k with
    | None => minv extra (set_objects objs m)
    | Some o => ∃ al, free_replicas (obj_replicas o) (allocs m) = Some al ∧ shape al = shape (allocs m) ∧
                  minv extra (set_allocators al (set_objects objs m))
    end.
Proof.
  intros HI. pose proof HI as [Hwf Hl _ _ _ Ho _ _ _ _]. destruct (take_object_spec k m Hwf) as (objs & Ht & Hwf' & Hv).
  exists objs. split_and!; [done..|].
  assert (map_Forall (λ _ o, obj_ok m o) (sm_view objs)) as Ho' by (rewrite Hv; by apply map_Forall_delete).
  destruct (view m !! k) as [o|] eqn:Hk.
  - rewrite (mem_buffers_delete _ _ _ Hk), Permutation_app_comm, <- app_assoc in Hl.
    destruct (free_replicas_spec _ _ _ Hl) as (al & -> & Hal & Hsh). exists al. split_and!; [done..|].
    assert (minv (extra ++ rep_bufs (obj_replicas o)) (set_objects objs m)) as HI'.
    { apply (minv_set_objects extra); try done.
      rewrite Hv, (mem_buffers_delete _ _ _ Hk). by rewrite <- app_assoc. }
    eapply minv_set_allocators; [exact HI'| |done].
    unfold view in *. simpl. rewrite Hv. by rewrite (Permutation_app_comm extra).
  - apply (minv_set_objects extra); try done. rewrite Hv, delete_id by done. done.
Qed.
End inv.
