(* ===== verification/MasterEvict.v ===== *)
(** * Eviction and replica allocation

    Specifications of [evict_if_needed], [evict_to_fit], [allocate_replicas] and
    [number_replicas] of master_service.rs against the invariant: which objects an
    eviction may take, in which order, and when it stops. *)
From S2P Require Import Prelude F64 BufferAllocator OffsetAllocator Identity ShardedMap CountMin StoreTypes Strategy OpLog Master SegmentLedger MasterInv.

Section evict.
Context `{HashIter} `{KeyHash} `{EntryCodec}.
Implicit Types m : MasterService.

(** Hard-pinned and leased objects are not candidates. *)
Definition evictable (now : Z) (o : ObjectMetadata) : Prop := hard_pinned o = false ∧ lease_until o ≤ now.

Definition delete_keys (ks : list string) (w : gmap string ObjectMetadata) : gmap string ObjectMetadata :=
  foldl (λ w k, delete k w) w ks.

Lemma delete_keys_lookup ks w k : delete_keys ks w !! k = if decide (k ∈ ks) then None else w !! k.
Proof.
  unfold delete_keys. revert w. induction ks as [|k' ks IH]; intros w; [done|].
  cbn [foldl]. rewrite IH. destruct (decide (k ∈ ks)); [by rewrite decide_True by set_solver|]. destruct (decide (k = k')) as [->|].
  - rewrite lookup_delete_eq. by destruct (decide (k' ∈ k' :: ks)); [|set_solver].
  - rewrite lookup_delete_ne by done. by rewrite decide_False by set_solver.
Qed.

(** [w'] is [w] less some evictable objects. *)
Definition evicts (now : Z) (w w' : gmap string ObjectMetadata) : Prop :=
  w' ⊆ w ∧ ∀ k o, w !! k = Some o → w' !! k = None → evictable now o.

#[global] Instance evicts_preorder now : PreOrder (evicts now).
Proof.
  split; [by split; [|congruence]|]. intros w1 w2 w3 [Hs1 He1] [Hs2 He2]. split; [by trans w2|].
  intros k o Ho Hn. destruct (w2 !! k) as [o'|] eqn:E; [|eauto].
  assert (w1 !! k = Some o') by (by eapply lookup_weaken). simplify_eq. eauto.
Qed.

Lemma evicts_keep now w w' k o : evicts now w w' → w !! k = Some o → ¬ evictable now o → w' !! k = Some o.
Proof.
  intros [Hs He] Hk Hn. destruct (w' !! k) as [o'|] eqn:E; [|by destruct Hn; eauto].
  rewrite <- Hk. symmetry. by eapply lookup_weaken.
Qed.

(** ** The candidate list *)

Definition victim_tuples m : list (string * Z * bool) := stable_sort victim_before (victim_candidates m).

Lemma elem_of_victim_candidates k t b m :
  sm_wf (objects m) → (k, t, b) ∈ victim_candidates m ↔
  ∃ o, view m !! k = Some o ∧ evictable (clock m) o ∧ last_access o = t ∧ soft_pinned o = b.
Proof.
  intros Hwf. unfold victim_candidates. rewrite list_elem_of_fmap. split.
  - intros ([k' o] & [= -> -> ->] & Hin). apply list_elem_of_filter in Hin as [He Hin]. apply elem_of_sm_iter in Hin; [|done]. eauto.
  - intros (o & Ho & He & <- & <-). exists (k, o). split; [done|]. apply list_elem_of_filter. split; [done|]. by apply elem_of_sm_iter.
Qed.

Lemma elem_of_victims k m :
  sm_wf (objects m) → k ∈ victims_coldest_first m ↔ ∃ o, view m !! k = Some o ∧ evictable (clock m) o.
Proof.
  intros Hwf. unfold victims_coldest_first. rewrite list_elem_of_fmap. split.
  - intros ([[k' t] b] & -> & Hin). rewrite stable_sort_perm in Hin. apply elem_of_victim_candidates in Hin; [|done]. naive_solver.
  - intros (o & Ho & He). exists (k, last_access o, soft_pinned o). split; [done|]. rewrite stable_sort_perm.
    apply elem_of_victim_candidates; [done|]. eauto.
Qed.

Lemma NoDup_victims m : sm_wf (objects m) → NoDup (victims_coldest_first m).
Proof.
  intros Hwf. unfold victims_coldest_first. rewrite stable_sort_perm. unfold victim_candidates.
  rewrite <- list_fmap_compose. simpl. pose proof (NoDup_sm_iter (objects m) Hwf) as Hnd. unfold compose. simpl.
  clear Hwf. induction (sm_iter (objects m)) as [|[k o] l IH]; [constructor|].
  rewrite fmap_cons in Hnd. apply NoDup_cons in Hnd as [Hn Hnd]. rewrite filter_cons. case_decide; [|by apply IH].
  rewrite fmap_cons. apply NoDup_cons. split; [|by apply IH].
  intros (x & Hx & Hin)%list_elem_of_fmap. apply list_elem_of_filter in Hin as [_ Hin]. apply Hn. simpl in Hx. rewrite Hx. cbn [fst]. apply (list_elem_of_fmap_2 fst). exact Hin.
Qed.

Lemma victims_sorted m : StronglySorted (λ a b, victim_before a b = true) (victim_tuples m).
Proof.
  apply stable_sort_sorted.
  - intros [[? ?] []] [[? ?] []]; simpl; intros; try done; zbool; apply Z.leb_le; lia.
  - intros [[? ?] []] [[? ?] []] [[? ?] []]; simpl; intros; try done; zbool; apply Z.leb_le; lia.
Qed.

(** ** The eviction loops *)

Lemma evict_one_spec k extra m :
  minv extra m → ∃ m', evict_one k m = Some (bool_decide (is_Some (view m !! k)), m') ∧
    minv extra m' ∧ frame_eq m m' ∧ view m' = delete k (view m).
Proof.
  intros HI. unfold evict_one. destruct (take_and_free k extra m HI) as (objs & -> & Hv & Hk). cbn [mbind option_bind].
  destruct (view m !! k) as [o|] eqn:E.
  - destruct Hk as (al & Hf & Hsh & HI'). unfold allocs in Hf. simpl. rewrite Hf. cbn [mbind option_bind].
    eexists. split; [done|]. split; [by apply minv_log|]. split; [by split|done].
  - eexists. split; [done|]. split; [done|]. split; [apply frame_set_objects|done].
Qed.

Lemma evict_until_spec stop vs n extra m :
  (∀ m', minv extra m' → frame_eq m m' → ∃ b, stop m' = Some b) → minv extra m →
  ∃ n' m' j, evict_until stop vs n m = Some (n', m') ∧ minv extra m' ∧ frame_eq m m' ∧
    view m' = delete_keys (take j vs) (view m) ∧ (j ≤ length vs)%nat ∧
    (j = length vs ∨ stop m' = Some true) ∧
    (∀ i, (i < j)%nat → ∃ mi, minv extra mi ∧ frame_eq m mi ∧ stop mi = Some false ∧
       view mi = delete_keys (take i vs) (view m)).
Proof.
  revert n m. induction vs as [|k vs IH]; intros n m Hstop HI; simpl.
  { exists n, m, 0%nat. split_and!; try done; [by left|]. intros i Hi. lia. }
  destruct (Hstop m HI ltac:(done)) as ([] & Hb); rewrite Hb; cbn [mbind option_bind].
  { exists n, m, 0%nat. split_and!; try done; [lia|by right|]. intros i Hi. lia. }
  destruct (evict_one_spec k extra m HI) as (m1 & -> & HI1 & Hf1 & Hv1). cbn [mbind option_bind].
  destruct (IH (if bool_decide (is_Some (view m !! k)) then n + 1 else n) m1) as (n' & m' & j & -> & HI' & Hf' & Hv' & Hj & Hend & Hprev); [|done|].
  { intros m2 ? ?. apply Hstop; [done|]. by trans m1. }
  exists n', m', (S j). split_and!; [done|done|by trans m1|by rewrite Hv', Hv1|lia| |].
  - destruct Hend as [->|?]; [by left|by right].
  - intros [|i] Hi; [by exists m|]. destruct (Hprev i ltac:(lia)) as (mi & ? & ? & ? & Hvi). exists mi.
    split_and!; [done|by trans m1|done|by rewrite Hvi, Hv1].
Qed.

Lemma delete_victims_evicts m j : sm_wf (objects m) → evicts (clock m) (view m) (delete_keys (take j (victims_coldest_first m)) (view m)).
Proof.
  intros Hwf. split.
  - apply map_subseteq_spec. intros k o. rewrite delete_keys_lookup. by case_decide.
  - intros k o Ho. rewrite delete_keys_lookup. case_decide as Hd; [|congruence]. intros _.
    assert (k ∈ victims_coldest_first m) as Hk by (rewrite <- (take_drop j (victims_coldest_first m)); set_solver).
    apply elem_of_victims in Hk as (o' & ? & ?); [|done]. by simplify_eq.
Qed.

Lemma mtotals extra m :
  minv extra m →
  total_capacity (allocators (segments m)) = Some (foldr Z.add 0 (capacity <$> allocs m)) ∧
  total_allocated (allocators (segments m)) = Some (sum_sizes (extra ++ mem_buffers (view m))) ∧
  0 ≤ sum_sizes (extra ++ mem_buffers (view m)) ≤ foldr Z.add 0 (capacity <$> allocs m).
Proof. intros HI. apply total_spec; apply HI. Qed.

(** [evict_if_needed]: below the watermark nothing happens; otherwise candidates go in
    order until the target is reached or none is left. *)
Lemma evict_if_needed_spec extra m :
  minv extra m →
  ∃ n m' j, evict_if_needed m = Some (n, m') ∧ minv extra m' ∧ frame_eq m m' ∧
    view m' = delete_keys (take j (victims_coldest_first m)) (view m).
Proof.
  intros HI. destruct (mtotals extra m HI) as (Hc & Ha & _). unfold evict_if_needed. rewrite Hc. cbn [mbind option_bind].
  destruct (_ =? 0); [by exists 0, m, 0%nat|]. rewrite Ha. cbn [mbind option_bind].
  destruct (f64_ltb _ _); [by exists 0, m, 0%nat|].
  destruct (evict_until_spec (below_target (evict_target (foldr Z.add 0 (capacity <$> allocs m)) m)) (victims_coldest_first m) 0 extra m)
    as (n & m' & j & ? & ? & ? & ? & _); [|done|by exists n, m', j].
  intros m1 HI1 _. unfold below_target. destruct (mtotals extra m1 HI1) as (_ & -> & _). eauto.
Qed.

Lemma evict_to_fit_spec needed extra m :
  minv extra m →
  ∃ n m' j, evict_to_fit needed m = Some (n, m') ∧ minv extra m' ∧ frame_eq m m' ∧
    view m' = delete_keys (take j (victims_coldest_first m)) (view m).
Proof.
  intros HI. unfold evict_to_fit.
  destruct (evict_until_spec (enough_free needed) (victims_coldest_first m) 0 extra m)
    as (n & m' & j & ? & ? & ? & ? & _); [|done|by exists n, m', j].
  intros m1 HI1 _. unfold enough_free. destruct (mtotals extra m1 HI1) as (-> & -> & _). eauto.
Qed.

(** ** Allocation *)

Lemma strategy_call_spec size n preferred m :
  minv [] m → 0 ≤ size → 0 ≤ n →
  ∃ r m', strategy_call size n preferred m = Some (r, m') ∧ frame_eq m m' ∧ view m' = view m ∧
    match r with
    | Ok bs => minv bs m' ∧ Z.of_nat (length bs) = n ∧ NoDup (buf_segment_name <$> bs) ∧ Forall (λ b, buf_size b = size) bs
    | Err e => e = NoAvailableSegment ∧ minv [] m'
    end.
Proof.
  intros HI Hs Hn. unfold strategy_call.
  destruct (strategy_inv (seg_strategy (segments m)) size n preferred [] (allocs m) (mem_buffers (view m))) as (r & al & Heq & Hsh & Hr); [apply HI|done..|].
  unfold allocs in Heq at 1. rewrite Heq. cbn [mbind option_bind]. eexists _, _. split; [done|].
  split; [by apply frame_set_allocators|]. split; [done|]. destruct r as [bs|e].
  - destruct Hr as (? & ? & ? & ?). split_and!; try done. by eapply minv_set_allocators.
  - destruct Hr as [-> ?]. split; [done|]. by eapply minv_set_allocators.
Qed.

Lemma allocate_replicas_spec size n preferred m :
  minv [] m → 0 ≤ size → 0 ≤ n →
  ∃ r m', allocate_replicas size n preferred m = Some (r, m') ∧ frame_eq m m' ∧ evicts (clock m) (view m) (view m') ∧
    match r with
    | Ok bs => minv bs m' ∧ Z.of_nat (length bs) = n ∧ NoDup (buf_segment_name <$> bs) ∧ Forall (λ b, buf_size b = size) bs
    | Err e => e = NoAvailableSegment ∧ minv [] m'
    end.
Proof.
  intros HI Hs Hn. unfold allocate_replicas.
  destruct (evict_if_needed_spec [] m HI) as (c1 & m1 & j1 & -> & HI1 & Hf1 & Hv1). cbn [mbind option_bind].
  assert (evicts (clock m) (view m) (view m1)) as He1 by (rewrite Hv1; apply delete_victims_evicts, HI).
  destruct (strategy_call_spec size n preferred m1 HI1 Hs Hn) as (r & m2 & -> & Hf2 & Hv2 & Hr). cbn [mbind option_bind].
  assert (frame_eq m m2) as Hf12 by (by trans m1).
  destruct r as [bs|e].
  { exists (Ok bs), m2. split_and!; try done; rewrite ?Hv2; try apply He1; apply Hr. }
  destruct Hr as [-> HI2].
  destruct (evict_to_fit_spec (u64_sat_mul size n) [] m2 HI2) as (c3 & m3 & j3 & -> & HI3 & Hf3 & Hv3). cbn [mbind option_bind].
  assert (evicts (clock m) (view m) (view m3)) as He3.
  { trans (view m1); [done|]. rewrite Hv3, <- Hv2, <- (fe_clock _ _ Hf12). apply delete_victims_evicts, HI2. }
  destruct (strategy_call_spec size n preferred m3 HI3 Hs Hn) as (r & m4 & -> & Hf4 & Hv4 & Hr).
  exists r, m4. split; [done|]. split; [trans m2; [done|]; by trans m3|]. split; [by rewrite Hv4|done].
Qed.

(** Numbering gives fresh ids, one replica per buffer. *)
Lemma number_replicas_spec bs id rl :
  0 ≤ id → id + Z.of_nat (length bs) ≤ u64_max →
  (∀ i r, rl !! i = Some r → rep_id r = i ∧ 0 ≤ i < id) →
  ∃ rl', number_replicas bs id rl = Some (rl', id + Z.of_nat (length bs)) ∧
    rep_bufs rl' ≡ₚ bs ++ rep_bufs rl ∧
    (∀ i r, rl' !! i = Some r → rl !! i = Some r ∨ ∃ b, b ∈ bs ∧ r = replica_new i (Memory b)) ∧
    (∀ i r, rl' !! i = Some r → rep_id r = i ∧ 0 ≤ i < id + Z.of_nat (length bs)) ∧
    (∀ b, b ∈ bs → ∃ i, rl' !! i = Some (replica_new i (Memory b))) ∧
    (∀ i r, rl !! i = Some r → rl' !! i = Some r).
Proof.
  revert id rl. induction bs as [|b bs IH]; intros id rl Hid Hmax Hrl.
  { exists rl. simpl. rewrite Z.add_0_r. split_and!; try done; [naive_solver|set_solver]. }
  cbn [number_replicas]. change (length (b :: bs)) with (S (length bs)) in *. rewrite Nat2Z.inj_succ in *.
  rewrite (u64_add_ok id 1) by lia. cbn [mbind option_bind].
  assert (rl !! id = None) as Hnone.
  { destruct (rl !! id) as [r|] eqn:E; [|done]. apply Hrl in E. lia. }
  destruct (IH (id + 1) (<[id := replica_new id (Memory b)]> rl)) as (rl' & -> & Hp & Hin & Hids & Hall & Hkeep); [lia|lia| |].
  { intros i r [[<- <-]|[? Hi]]%lookup_insert_Some; [simpl; lia|]. apply Hrl in Hi. lia. }
  exists rl'. split; [do 2 f_equal; lia|]. split.
  { rewrite Hp, rep_bufs_insert by done. simpl. by rewrite <- Permutation_middle. }
  split.
  { intros i r Hi. destruct (Hin i r Hi) as [[[<- <-]|[? ?]]%lookup_insert_Some|(b' & ? & ->)]; [right|by left|right].
    - exists b. split; [set_solver|done].
    - exists b'. split; [by right|done]. }
  split. { intros i r Hi. pose proof (Hids i r Hi). lia. }
  split.
  - intros b' [->|Hb']%elem_of_cons; [|eauto]. exists id. apply Hkeep. by rewrite lookup_insert_eq.
  - intros i r Hi. apply Hkeep. rewrite lookup_insert_ne; [done|]. intros <-. congruence.
Qed.
End evict.
