(* ===== verification/MasterOps.v ===== *)
(** * The master's operations against the invariant

    For every operation of master_service.rs: it does not panic on a master satisfying
    the invariant, keeps it, and has the stated effect on the object map on every branch. *)
From S2P Require Import Prelude F64 BufferAllocator OffsetAllocator Identity ShardedMap CountMin StoreTypes Strategy OpLog Master SegmentLedger MasterInv MasterEvict.

Section ops.
Context `{HashIter} `{KeyHash} `{EntryCodec}.
Implicit Types m : MasterService.

(** What every operation on objects leaves alone. *)
Record config_eq m m' : Prop := {
  ce_shape : shape (allocs m') = shape (allocs m);
  ce_clock : clock m' = clock m;
  ce_lease : lease_ttl m' = lease_ttl m;
  ce_hb : segment_heartbeat m' = segment_heartbeat m;
  ce_ttl : segment_ttl m' = segment_ttl m;
  ce_owner : segment_owner m' = segment_owner m
}.

#[global] Instance config_eq_preorder : PreOrder config_eq.
Proof. split; [by intros m|]. intros m1 m2 m3 [] []. split; congruence. Qed.

Lemma frame_config m m' : frame_eq m m' → config_eq m m'.
Proof. intros []. by split. Qed.

Lemma config_alive m m' : config_eq m m' → alive_segments m' = alive_segments m.
Proof. intros [_ Hc _ Hh Ht _]. unfold alive_segments. by rewrite Hc, Hh, Ht. Qed.

(** ** Complete replicas *)

Lemma has_complete_spec o : has_complete_replica o = true ↔ ∃ id r, obj_replicas o !! id = Some r ∧ rep_status r = Complete.
Proof.
  unfold has_complete_replica. rewrite existsb_exists. setoid_rewrite <- list_elem_of_In. setoid_rewrite elem_of_hvalues.
  unfold is_complete. setoid_rewrite bool_decide_eq_true. naive_solver.
Qed.

(** ** Put *)

Definition new_object m (identity : IdentityScope) (config : ReplicateConfig) (rl : ReplicaList) : ObjectMetadata :=
  mkObject rl identity 0 (clock m) (with_soft_pin config) (with_hard_pin config).

Definition complete_at m (key : string) : bool := from_option has_complete_replica false (view m !! key).

(** Dropping the leftover of an unfinished put and freeing its buffers. *)
Lemma reclaim_spec key m :
  master_inv m → complete_at m key = false →
  ∃ objs al, with_shard key (λ s,
      if from_option has_complete_replica false (s !! key) then Some (Err ObjectAlreadyExists, s)
      else Some (Ok (s !! key), delete key s)) (objects m) = Some (Ok (view m !! key), objs) ∧
    (match view m !! key with
     | Some o => free_replicas (obj_replicas o) (allocs m)
     | None => Some (allocs m)
     end) = Some al ∧
    master_inv (set_allocators al (set_objects objs m)) ∧ sm_view objs = delete key (view m) ∧ shape al = shape (allocs m).
Proof.
  intros HI Hc. destruct (take_and_free key [] m HI) as (objs & Ht & Hv & Hk).
  destruct (with_shard_spec (objects m) key (λ s,
      if from_option has_complete_replica false (s !! key) then Some (Err ObjectAlreadyExists, s)
      else Some (Ok (s !! key), delete key s)) (Ok (view m !! key)) None (mi_wf _ _ HI)) as (objs' & Hws & Hwf' & Hv').
  { intros s Hs. rewrite Hs. fold (view m). change (from_option has_complete_replica false (view m !! key)) with (complete_at m key).
    rewrite Hc. eexists. split; [done|]. split; [by rewrite lookup_delete_eq|]. intros k' ?. by rewrite lookup_delete_ne. }
  simpl in Hv'. exists objs'. rewrite Hws.
  assert (∀ al, minv [] (set_allocators al (set_objects objs m)) → shape al = shape (allocs m) →
    minv [] (set_allocators al (set_objects objs' m))) as Hcopy.
  { intros al [] Hsh. unfold allocs, names, view, obj_ok in *. simpl in *. rewrite Hv, <- Hv' in *. by constructor. }
  destruct (view m !! key) as [o|].
  - destruct Hk as (al & -> & Hsh & HI'). exists al. split_and!; try done. by apply Hcopy.
  - exists (allocs m). split_and!; try done. apply Hcopy; [|done]. eapply minv_set_allocators; [exact Hk|apply Hk|done].
Qed.

Lemma put_start_spec key identity size config m :
  master_inv m → 0 ≤ size → 0 ≤ replica_num config → next_replica_id (segments m) + replica_num config ≤ u64_max →
  ∃ r m', put_start key identity size config m = Some (r, m') ∧ master_inv m' ∧ config_eq m m' ∧
    match r with
    | Ok bs => complete_at m key = false ∧ Z.of_nat (length bs) = replica_num config ∧
        next_replica_id (segments m') = next_replica_id (segments m) + replica_num config ∧
        NoDup (buf_segment_name <$> bs) ∧ Forall (λ b, buf_size b = size) bs ∧
        ∃ w rl, evicts (clock m) (delete key (view m)) w ∧ w !! key = None ∧
          view m' = <[key := new_object m identity config rl]> w ∧ rep_bufs rl ≡ₚ bs ∧
          (∀ i r, rl !! i = Some r → ∃ b, b ∈ bs ∧ r = replica_new i (Memory b)) ∧
          (∀ b, b ∈ bs → ∃ i, rl !! i = Some (replica_new i (Memory b)))
    | Err e => next_replica_id (segments m') = next_replica_id (segments m) ∧
        (complete_at m key = true ∧ e = ObjectAlreadyExists ∧ view m' = view m ∨
         complete_at m key = false ∧ e = NoAvailableSegment ∧ evicts (clock m) (delete key (view m)) (view m'))
    end.
Proof.
  intros HI Hs Hn Hmax. unfold put_start. destruct (complete_at m key) eqn:Hc.
  { destruct (with_shard_spec (objects m) key (λ s,
      if from_option has_complete_replica false (s !! key) then Some (Err ObjectAlreadyExists, s)
      else Some (Ok (s !! key), delete key s)) (Err ObjectAlreadyExists) (view m !! key) (mi_wf _ _ HI)) as (objs & -> & Hwf & Hv).
    { intros s Hs'. rewrite Hs'. fold (view m). change (from_option has_complete_replica false (view m !! key)) with (complete_at m key).
      rewrite Hc. by exists s. }
    assert (sm_view objs = view m) as Hv'.
    { rewrite Hv. apply map_eq. intros k. rewrite view_set_lookup. case_decide; subst; done. }
    cbn [mbind option_bind]. eexists _, _. split; [done|]. split.
    { apply (minv_set_objects []); try done; rewrite Hv'; [done|apply HI]. }
    split; [by split|]. split; [done|]. left. done. }
  destruct (reclaim_spec key m HI Hc) as (objs & al & -> & Hfree & HI1 & Hv1 & Hsh1). cbn [mbind option_bind].
  change (allocators (segments (set_objects objs m))) with (allocs m). rewrite Hfree. cbn [mbind option_bind].
  set (m1 := set_allocators al (set_objects objs m)) in *.
  assert (frame_eq m m1) as Hf1 by (by split).
  destruct (allocate_replicas_spec size (replica_num config) (preferred_segment config) m1 HI1 Hs Hn) as (r & m2 & -> & Hf2 & He & Hr).
  cbn [mbind option_bind]. change (clock m1) with (clock m) in He. change (view m1) with (sm_view objs) in He. rewrite Hv1 in He.
  assert (frame_eq m m2) as Hf by (by trans m1). pose proof (fe_next _ _ Hf) as Hnext.
  destruct r as [bs|e].
  2: { destruct Hr as [-> HI2]. eexists _, _. split; [done|]. split; [done|]. split; [by apply frame_config|]. split; [done|]. by right. }
  destruct Hr as (HI2 & Hlen & Hnd & Hsz).
  destruct (number_replicas_spec bs (next_replica_id (segments m2)) ∅) as (rl & -> & Hp & Hin & Hids & Hall & _); [apply HI2|lia|naive_solver|].
  cbn [mbind option_bind]. rewrite rep_bufs_empty, app_nil_r in Hp. rewrite Hlen.
  set (m3 := set_next_id (next_replica_id (segments m2) + replica_num config) m2).
  assert (minv bs m3) as HI3.
  { destruct HI2 as [? ? ? ? ? Hobj ? ? ? ?]. constructor; try done; [unfold m3; simpl; lia|].
    eapply map_Forall_impl; [exact Hobj|]. intros k o [Ho ?]. split; [|done]. intros id r Hid. apply Ho in Hid. unfold m3. simpl. lia. }
  destruct (insert_object_spec key (mkObject rl identity 0 (clock m3) (with_soft_pin config) (with_hard_pin config)) m3 (mi_wf _ _ HI3)) as (objs' & -> & Hwf' & Hv').
  cbn [mbind option_bind]. change (view m3) with (view m2) in Hv'.
  assert (view m2 !! key = None) as Hnone.
  { destruct He as [Hsub _]. destruct (view m2 !! key) as [o|] eqn:E; [|done].
    eapply (lookup_weaken _ _ key o) in E; [|exact Hsub]. by rewrite lookup_delete_eq in E. }
  eexists _, _. split; [done|]. split.
  { apply (minv_set_objects bs); try done.
    - rewrite Hv'. change (view m3) with (view m2). rewrite mem_buffers_insert by done. simpl. by rewrite Hp.
    - rewrite Hv'. apply map_Forall_insert_2; [|apply HI3]. pose proof (mi_clock _ _ HI3) as Hcl. split; [|simpl in *; lia].
      intros i r Hi. simpl in Hi. apply Hids in Hi. unfold m3. simpl. lia. }
  split; [apply frame_config in Hf; destruct Hf; by split|]. split_and!; try done; [simpl; lia|].
  exists (view m2), rl. split_and!; try done.
  - unfold view at 1. simpl. rewrite Hv'. unfold new_object. unfold m3. simpl. by rewrite (fe_clock _ _ Hf).
  - intros i r Hi. destruct (Hin i r Hi) as [?|?]; [by rewrite lookup_empty in *|done].
Qed.

(** Updating one object in place, keeping its buffers. *)
Lemma update_object key o objs o' m :
  master_inv m → view m !! key = Some o → sm_wf objs → sm_view objs = view_set (view m) key (Some o') →
  rep_bufs (obj_replicas o') ≡ₚ rep_bufs (obj_replicas o) → obj_ok m o' →
  master_inv (set_objects objs m) ∧ view (set_objects objs m) = <[key := o']> (view m).
Proof.
  intros HI Hk Hwf Hv Hp Hok. split; [|done]. apply (minv_set_objects []); [done..| |].
  - rewrite Hv. simpl. by apply (mem_buffers_update _ _ o).
  - rewrite Hv. apply map_Forall_insert_2; [done|]. apply HI.
Qed.

Lemma obj_ok_status m st o : obj_ok m o → obj_ok m (set_replica_status st o).
Proof.
  intros [Hid Hcl]. split; [|done]. intros i r. simpl. rewrite lookup_fmap.
  destruct (obj_replicas o !! i) as [r'|] eqn:E; [|done]. intros [= <-]. apply Hid in E. done.
Qed.

(** A shard operation that leaves the view as it is. *)
Lemma same_view_inv objs m :
  master_inv m → sm_wf objs → sm_view objs = view m → master_inv (set_objects objs m) ∧ view (set_objects objs m) = view m.
Proof. intros HI Hwf Hv. split; [|done]. apply (minv_set_objects []); try done; rewrite Hv; [done|apply HI]. Qed.

Lemma view_set_id (w : gmap string ObjectMetadata) k : view_set w k (w !! k) = w.
Proof. apply map_eq. intros k'. rewrite view_set_lookup. case_decide; subst; done. Qed.

Lemma put_end_spec key m :
  master_inv m →
  ∃ r m', put_end key m = Some (r, m') ∧ master_inv m' ∧ frame_eq m m' ∧
    match view m !! key with
    | None => r = Err ObjectNotFound ∧ m' = set_objects (objects m') m ∧ view m' = view m
    | Some o => r = Ok tt ∧ view m' = <[key := set_replica_status Complete o]> (view m) ∧
        oplog m' = append (commit_entry key (set_replica_status Complete o)) <$> oplog m
    end.
Proof.
  intros HI. unfold put_end. set (lg := bool_decide _).
  set (f := λ s : gmap string ObjectMetadata, match s !! key with None => _ | Some _ => _ end).
  destruct (view m !! key) as [o|] eqn:Hk.
  - set (o' := set_replica_status Complete o).
    destruct (with_shard_spec (objects m) key f (Ok (if lg then Some (commit_entry key o') else None)) (Some o') (mi_wf _ _ HI)) as (objs & -> & Hwf & Hv).
    { intros s Hs. unfold f. rewrite Hs. fold (view m). rewrite Hk. eexists. split; [done|].
      split; [by rewrite lookup_insert_eq|]. intros k' ?. by rewrite lookup_insert_ne. }
    cbn [mbind option_bind].
    destruct (update_object key o objs o' m HI Hk Hwf Hv) as [HI' Hv'].
    { unfold o'. simpl. by rewrite rep_bufs_status. } { apply obj_ok_status. by eapply (mi_objects _ _ HI). }
    unfold lg. destruct (oplog m) as [l|] eqn:El.
    + rewrite bool_decide_true by eauto. eexists _, _. split; [done|]. split; [by apply minv_log|].
      split; [by split|]. split; [done|]. split; [done|]. simpl. by rewrite El.
    + rewrite bool_decide_false by (intros [? ?]; done). eexists _, _. split; [done|]. split; [done|]. split; [by split|].
      split; [done|]. split; [done|]. simpl. by rewrite El.
  - destruct (with_shard_spec (objects m) key f (Err ObjectNotFound) None (mi_wf _ _ HI)) as (objs & -> & Hwf & Hv).
    { intros s Hs. exists s. unfold f. rewrite Hs. fold (view m). rewrite Hk. done. }
    cbn [mbind option_bind]. fold (view m) in Hv. rewrite <- Hk, view_set_id in Hv.
    destruct (same_view_inv objs m HI Hwf Hv) as [? ?]. eexists _, _. split; [done|]. split; [done|]. split; [by split|done].
Qed.

Lemma put_revoke_spec key m :
  master_inv m →
  ∃ m', put_revoke key m = Some (if view m !! key is Some _ then Ok tt else Err ObjectNotFound, m') ∧
    master_inv m' ∧ frame_eq m m' ∧ view m' = delete key (view m).
Proof.
  intros HI. unfold put_revoke. destruct (take_and_free key [] m HI) as (objs & -> & Hv & Hk). cbn [mbind option_bind].
  destruct (view m !! key) as [o|] eqn:E.
  - destruct Hk as (al & Hf & Hsh & HI'). change (allocators (segments (set_objects objs m))) with (allocs m). rewrite Hf.
    cbn [mbind option_bind]. eexists. split; [done|]. split; [done|]. split; [by split|done].
  - eexists. split; [done|]. split; [done|]. split; [by split|done].
Qed.

Lemma remove_spec key force m :
  master_inv m →
  ∃ r m', remove key force m = Some (r, m') ∧ master_inv m' ∧ frame_eq m m' ∧
    match view m !! key with
    | None => r = Err ObjectNotFound ∧ view m' = view m
    | Some o => if (clock m <? lease_until o) && negb force then r = Err ObjectNotReady ∧ view m' = view m
                else r = Ok tt ∧ view m' = delete key (view m)
    end.
Proof.
  intros HI. unfold remove.
  set (f := λ s : gmap string ObjectMetadata, Some (match s !! key with None => _ | Some _ => _ end)).
  assert (∀ (res : result ErrorCode ObjectMetadata) o, (∀ s, s !! key = view m !! key → ∃ s', f s = Some (res, s') ∧ s' !! key = o ∧ ∀ k', k' ≠ key → s' !! k' = s !! k') →
    ∃ objs, with_shard key f (objects m) = Some (res, objs) ∧ sm_wf objs ∧ sm_view objs = view_set (view m) key o) as Hws.
  { intros res o Hg. apply with_shard_spec; [apply HI|done]. }
  destruct (view m !! key) as [o|] eqn:Hk.
  - destruct ((clock m <? lease_until o) && negb force) eqn:El.
    + destruct (Hws (Err ObjectNotReady) (Some o)) as (objs & -> & Hwf & Hv).
      { intros s Hs. exists s. unfold f. rewrite Hs, El. done. }
      rewrite <- Hk, view_set_id in Hv. cbn [mbind option_bind]. destruct (same_view_inv objs m HI Hwf Hv) as [? ?].
      eexists _, _. split; [done|]. split; [done|]. split; [by split|done].
    + destruct (Hws (Ok o) None) as (objs & -> & Hwf & Hv).
      { intros s Hs. exists (delete key s). unfold f. rewrite Hs, El. split; [done|]. rewrite lookup_delete_eq. split; [done|].
        intros k' ?. by rewrite lookup_delete_ne. }
      cbn [mbind option_bind]. simpl in Hv.
      pose proof (mi_ledger _ _ HI) as Hl. rewrite app_nil_l in Hl. rewrite (mem_buffers_delete _ _ _ Hk) in Hl.
      destruct (free_replicas_spec _ _ _ Hl) as (al & Hfr & Hal & Hsh).
      change (allocators (segments (set_objects objs m))) with (allocs m). rewrite Hfr. cbn [mbind option_bind].
      eexists _, _. split; [done|]. split; [|split; [by split|done]]. apply minv_log.
      eapply minv_set_allocators; [|unfold view in *; simpl; rewrite Hv; exact Hal|done].
      apply (minv_set_objects []) with (extra' := rep_bufs (obj_replicas o)); try done.
      * by rewrite Hv, <- (mem_buffers_delete _ _ _ Hk).
      * rewrite Hv. apply map_Forall_delete, HI.
  - destruct (Hws (Err ObjectNotFound) None) as (objs & -> & Hwf & Hv).
    { intros s Hs. exists s. unfold f. rewrite Hs. done. }
    rewrite <- Hk, view_set_id in Hv. cbn [mbind option_bind]. destruct (same_view_inv objs m HI Hwf Hv) as [? ?].
    eexists _, _. split; [done|]. split; [done|]. split; [by split|done].
Qed.

(** ** Reading *)

Lemma alive_spec m s : s ∈ alive_segments m ↔ segment_alive s m = true.
Proof.
  unfold alive_segments, segment_alive. rewrite list_elem_of_fmap. split.
  - intros ([s' l] & -> & Hin). apply list_elem_of_filter in Hin as [Hf Hin%elem_of_hiter]. simpl in *. by rewrite Hin.
  - destruct (segment_heartbeat m !! s) as [l|] eqn:E; [|done]. intros Hf. exists (s, l). split; [done|].
    apply list_elem_of_filter. split; [done|]. by apply elem_of_hiter.
Qed.

Lemma set_hotness_inv extra h m : minv extra m → (∃ ex, cms_inv h ex) → minv extra (set_hotness h m).
Proof. intros [] ?. by constructor. Qed.

Lemma get_replica_list_spec key requester m :
  master_inv m →
  ∃ r m', get_replica_list key requester m = Some (r, m') ∧ master_inv m' ∧ config_eq m m' ∧
    next_replica_id (segments m') = next_replica_id (segments m) ∧
    match view m !! key with
    | None => r = Err ObjectNotFound ∧ view m' = view m
    | Some o =>
        match reuse_violation_against (obj_identity o) requester with
        | Some v => r = Err (UnsafeReuse v) ∧ view m' = view m
        | None =>
            let rs := readable_replicas (alive_segments m) o in
            if decide (rs = []) then r = Err ObjectNotReady ∧ view m' = view m
            else r = Ok rs ∧ view m' = <[key := grant_lease (clock m) (clock m + lease_ttl m) o]> (view m)
        end
    end.
Proof.
  intros HI. unfold get_replica_list. destruct (mi_hot _ _ HI) as [ex Hex].
  destruct (increment_spec (hotness m) ex key Hex) as (mn & h & -> & _ & _ & Hex' & _). cbn [mbind option_bind].
  assert (master_inv (set_hotness h m)) as HI1 by (apply set_hotness_inv; eauto).
  set (f := λ s : gmap string ObjectMetadata, match s !! key with None => _ | Some _ => _ end).
  assert (∀ res o, (∀ s, s !! key = view m !! key → ∃ s', f s = Some (res, s') ∧ s' !! key = o ∧ ∀ k', k' ≠ key → s' !! k' = s !! k') →
    ∃ objs, with_shard key f (objects m) = Some (res, objs) ∧ sm_wf objs ∧ sm_view objs = view_set (view m) key o) as Hws.
  { intros res o Hg. apply with_shard_spec; [apply HI|done]. }
  assert (∀ res, (∀ s, s !! key = view m !! key → f s = Some (Err res, s)) →
    ∃ r m', ('(r, objs) ← with_shard key f (objects (set_hotness h m)); Some (r, set_objects objs (set_hotness h m))) = Some (r, m') ∧
      master_inv m' ∧ config_eq m m' ∧ next_replica_id (segments m') = next_replica_id (segments m) ∧ r = Err res ∧ view m' = view m) as Herr.
  { intros res Hf. destruct (Hws (Err res) (view m !! key)) as (objs & Hw & Hwf & Hv).
    { intros s Hs. exists s. split; [by apply Hf|done]. }
    rewrite view_set_id in Hv. change (objects (set_hotness h m)) with (objects m). rewrite Hw. cbn [mbind option_bind].
    destruct (same_view_inv objs (set_hotness h m) HI1 Hwf Hv). eexists _, _. split; [done|]. split; [done|]. split; [by split|done]. }
  destruct (view m !! key) as [o|] eqn:Hk.
  2: { apply Herr. intros s Hs. unfold f. by rewrite Hs. }
  destruct (reuse_violation_against (obj_identity o) requester) as [v|] eqn:Ev.
  { apply Herr. intros s Hs. unfold f. by rewrite Hs, Ev. }
  simpl. destruct (decide (readable_replicas (alive_segments m) o = [])) as [Hr|Hr].
  { apply Herr. intros s Hs. unfold f. rewrite Hs, Ev. by rewrite bool_decide_true. }
  pose proof (mi_clock _ _ HI) as Hcl.
  destruct (Hws (Ok (readable_replicas (alive_segments m) o)) (Some (grant_lease (clock m) (clock m + lease_ttl m) o))) as (objs & Hw & Hwf & Hv).
  { intros s Hs. unfold f. rewrite Hs, Ev. rewrite bool_decide_false by done. change (lease_ttl (set_hotness h m)) with (lease_ttl m).
    rewrite (u64_add_ok (clock m) (lease_ttl m)) by lia. cbn [mbind option_bind]. eexists. split; [done|].
    split; [by rewrite lookup_insert_eq|]. intros k' ?. by rewrite lookup_insert_ne. }
  rewrite Hw. cbn [mbind option_bind].
  destruct (update_object key o objs (grant_lease (clock m) (clock m + lease_ttl m) o) (set_hotness h m) HI1 Hk Hwf Hv) as [HI' Hv']; [done| |].
  { destruct (mi_objects _ _ HI key o Hk) as [Hid _]. split; [done|]. simpl. lia. }
  eexists _, _. split; [done|]. split; [done|]. split; [by split|done].
Qed.

Lemma exist_key_spec key m :
  master_inv m → ∃ m', exist_key key m = Some (complete_at m key, m') ∧ master_inv m' ∧ frame_eq m m' ∧ view m' = view m.
Proof.
  intros HI. unfold exist_key.
  destruct (with_shard_read (from_option has_complete_replica false) key m (mi_wf _ _ HI)) as (objs & -> & Hwf & Hv).
  cbn [mbind option_bind]. destruct (same_view_inv objs m HI Hwf Hv). eexists. split; [done|]. split; [done|]. split; [by split|done].
Qed.
End ops.
