(* ===== verification/MasterSegments.v ===== *)
(** * Segment lifecycle, upserts and batches against the invariant

    Mounting, unmounting, ownership and heartbeats of master_service.rs, then the
    operations composed of others: upsert, batch put/get/end/revoke, regex get. *)
From S2P Require Import Prelude F64 BufferAllocator OffsetAllocator Identity ShardedMap CountMin StoreTypes Strategy OpLog Master SegmentLedger MasterInv MasterEvict MasterOps.

Section segs.
Context `{HashIter} `{KeyHash} `{EntryCodec}.
Implicit Types m : MasterService.

Lemma master_new_inv strategy : master_inv (master_new strategy).
Proof.
  destruct (sm_new_wf (V := ObjectMetadata) DEFAULT_SHARDS) as [Hwf Hv].
  change (sm_view (sm_new DEFAULT_SHARDS)) with (view (master_new strategy)) in Hv.
  constructor; cbn [clock lease_ttl master_new next_replica_id segments segment_heartbeat segment_owner]; try done; try lia.
  - rewrite Hv, mem_buffers_empty. split; [constructor|]. exists []. split; [constructor|done].
  - exists ∅. apply cms_new_inv. unfold DEFAULT_WIDTH, DEFAULT_DEPTH, u64_max. simpl. lia.
  - intros s. rewrite lookup_empty. split; [by intros [? ?]|by intros ?%elem_of_nil].
  - intros s. rewrite lookup_empty. by intros [? ?].
Qed.

Lemma tick_spec m :
  master_inv m → clock m + 1 + lease_ttl m ≤ u64_max →
  ∃ m', tick m = Some (clock m + 1, m') ∧ master_inv m' ∧ m' = set_clock (clock m + 1) m.
Proof.
  intros [M1 M2 M3 M4 M5 M6 M7 M8 M9 M10] Hmax. unfold tick. rewrite (u64_add_ok (clock m) 1) by lia. cbn [mbind option_bind].
  eexists. split; [done|]. split; [|done]. constructor; try done; [simpl; lia|].
  eapply map_Forall_impl; [exact M6|]. intros k o [Ho ?]. split; [done|]. simpl. lia.
Qed.

Lemma mounted_spec name (al : list OffsetBufferAllocator) : mounted name al = true ↔ name ∈ (segment_name <$> al).
Proof.
  unfold mounted. rewrite existsb_exists. setoid_rewrite <- list_elem_of_In. rewrite list_elem_of_fmap. split.
  - intros (a & ? & E%bool_decide_eq_true). eauto.
  - intros (a & -> & ?). exists a. rewrite bool_decide_true; done.
Qed.

(** A segment may be mounted when its name is new and the total capacity fits a [u64]. *)
Definition mountable (name : string) (cap : Z) m : Prop :=
  0 ≤ cap ≤ MAX_SEGMENT ∧ name ∉ names m ∧ foldr Z.add 0 (capacity <$> allocs m) + cap ≤ u64_max.

Lemma mount_segment_spec name cap m :
  master_inv m → mountable name cap m →
  ∃ m', mount_segment name cap m = Some m' ∧ master_inv m' ∧ view m' = view m ∧ clock m' = clock m ∧
    shape (allocs m') = shape (allocs m) ++ [(name, cap)] ∧ segment_owner m' = segment_owner m ∧
    segment_heartbeat m' = <[name := clock m]> (segment_heartbeat m) ∧
    next_replica_id (segments m') = next_replica_id (segments m) ∧ segment_ttl m' = segment_ttl m ∧ lease_ttl m' = lease_ttl m.
Proof.
  intros HI (Hcap & Hnew & Hsum). unfold mount_segment. destruct (oba_new_inv name cap Hcap) as (a & -> & Hn & Hc & Ha).
  cbn [mbind option_bind]. eexists. split; [done|]. split.
  - apply minv_log. destruct HI as [M1 M2 M3 M4 M5 M6 M7 M8 M9 M10].
    set (m0 := set_heartbeat (<[name:=clock m]> (segment_heartbeat m)) m).
    assert (names (set_allocators (allocators (segments m0) ++ [a]) m0) = names m ++ [name]) as Hnm.
    { unfold names, allocs. cbn [allocators segments set_allocators set_segments]. rewrite fmap_app, <- Hn. done. }
    constructor; try done.
    + apply seg_inv_snoc; [done|done|]. by rewrite Hn.
    + unfold allocs in *. cbn [allocators segments set_allocators set_segments]. rewrite fmap_app, foldr_add_app, fmap_cons, Hc. cbn [foldr fmap list_fmap]. cbn [segments set_heartbeat m0]. lia.
    + intros s. rewrite Hnm. cbn [segment_heartbeat set_allocators set_segments set_heartbeat m0].
      rewrite elem_of_app, list_elem_of_singleton, <- M8. rewrite lookup_insert_is_Some'. naive_solver.
    + intros s Hs. rewrite Hnm, elem_of_app. left. by apply M9.
  - split_and!; try done. unfold shape, allocs. cbn [allocators segments set_allocators set_segments log_op set_oplog].
    rewrite fmap_app, <- Hn, <- Hc. done.
Qed.

(** ** Unmount *)

Lemma prune_shard_lookup name s k :
  prune_shard name s !! k =
  match s !! k with
  | None => None
  | Some o => if decide (obj_replicas (drop_replicas name o) = ∅) then None else Some (drop_replicas name o)
  end.
Proof.
  unfold prune_shard. destruct (s !! k) as [o|] eqn:E.
  - case_decide as Hd.
    + apply map_lookup_filter_None. right. intros x. rewrite lookup_fmap, E. intros [= <-]. simpl. naive_solver.
    + apply map_lookup_filter_Some. rewrite lookup_fmap, E. done.
  - apply map_lookup_filter_None. left. by rewrite lookup_fmap, E.
Qed.

Lemma drop_replicas_bufs name o :
  rep_bufs (obj_replicas (drop_replicas name o)) ≡ₚ filter (λ b, buf_segment_name b ≠ name) (rep_bufs (obj_replicas o)).
Proof.
  simpl. induction (obj_replicas o) as [|id r rl Hid IH] using map_ind; [by rewrite map_filter_empty, rep_bufs_empty|].
  rewrite (rep_bufs_insert rl), filter_app by done. destruct (decide (replica_segment_name r = Some name)) as [Hr|Hr].
  - rewrite map_filter_insert_False, delete_id by (simpl; naive_solver). rewrite IH.
    rewrite (list_filter_none _ (replica_buffers r)); [done|]. unfold replica_segment_name, data_segment_name, replica_buffers in *.
    intros b Hb. destruct (rep_data r); set_solver.
  - rewrite map_filter_insert_True by done. rewrite rep_bufs_insert, IH by (apply map_lookup_filter_None; by left).
    rewrite (list_filter_all _ (replica_buffers r)); [done|]. unfold replica_segment_name, data_segment_name, replica_buffers in *.
    intros b Hb. destruct (rep_data r); set_solver.
Qed.

Lemma prune_shard_insert name k o w :
  w !! k = None → prune_shard name (<[k := o]> w) =
  if decide (obj_replicas (drop_replicas name o) = ∅) then prune_shard name w else <[k := drop_replicas name o]> (prune_shard name w).
Proof.
  intros Hk. apply map_eq. intros k'. rewrite prune_shard_lookup. destruct (decide (k = k')) as [<-|Hne].
  - rewrite lookup_insert_eq. case_decide; [by rewrite prune_shard_lookup, Hk|by rewrite lookup_insert_eq].
  - rewrite lookup_insert_ne by done. case_decide; rewrite ?lookup_insert_ne by done; by rewrite prune_shard_lookup.
Qed.

Lemma prune_mem_buffers name w :
  mem_buffers (prune_shard name w) ≡ₚ filter (λ b, buf_segment_name b ≠ name) (mem_buffers w).
Proof.
  induction w as [|k o w Hk IH] using map_ind.
  { replace (prune_shard name ∅) with (∅ : gmap string ObjectMetadata); [by rewrite mem_buffers_empty|].
    apply map_eq. intros k. by rewrite prune_shard_lookup, !lookup_empty. }
  rewrite prune_shard_insert, (mem_buffers_insert w), filter_app, <- IH, <- drop_replicas_bufs by done. case_decide as Hd.
  - by rewrite Hd, rep_bufs_empty.
  - rewrite mem_buffers_insert; [done|]. by rewrite prune_shard_lookup, Hk.
Qed.

Lemma prune_objects_view name (objs : ShardedMap ObjectMetadata) :
  sm_wf objs → sm_wf (prune_shard name <$> objs) ∧ sm_view (prune_shard name <$> objs) = prune_shard name (sm_view objs).
Proof.
  intros Hwf. assert (∀ s k, is_Some (prune_shard name s !! k) → is_Some (s !! k)) as Hp.
  { intros s k. rewrite prune_shard_lookup. by destruct (s !! k); [eauto|]. }
  split; [by apply sm_fmap_wf|]. apply map_eq. intros k. destruct (sm_fmap_view objs (prune_shard name) k Hwf Hp) as (s & Hs & ->).
  rewrite !prune_shard_lookup. by rewrite Hs.
Qed.

Lemma elem_of_names_filter name (al : list OffsetBufferAllocator) s :
  s ∈ (segment_name <$> filter (λ a, segment_name a ≠ name) al) ↔ s ∈ (segment_name <$> al) ∧ s ≠ name.
Proof.
  rewrite !list_elem_of_fmap. setoid_rewrite list_elem_of_filter. naive_solver.
Qed.

Lemma sum_capacity_filter name (al : list OffsetBufferAllocator) B :
  seg_inv al B → foldr Z.add 0 (capacity <$> filter (λ a, segment_name a ≠ name) al) ≤ foldr Z.add 0 (capacity <$> al).
Proof.
  intros [_ (Ls & HI & _)]. induction HI as [|a L al Ls Ha HI IH]; [done|].
  rewrite filter_cons. pose proof (ba_capacity a L Ha). case_decide; rewrite ?fmap_cons; cbn [foldr]; lia.
Qed.

(** Unmounting drops the segment's replicas, then the objects left with none. *)
Lemma unmount_segment_spec name m :
  master_inv m →
  ∃ r m', unmount_segment name m = Some (r, m') ∧ master_inv m' ∧ clock m' = clock m ∧
    next_replica_id (segments m') = next_replica_id (segments m) ∧
    if decide (name ∈ names m)
    then r = Ok tt ∧ view m' = prune_shard name (view m) ∧ (∀ s, s ∈ names m' ↔ s ∈ names m ∧ s ≠ name)
    else r = Err SegmentNotFound ∧ m' = m.
Proof.
  intros HI. unfold unmount_segment. destruct (mounted name (allocators (segments m))) eqn:Em.
  2: { simpl. exists (Err SegmentNotFound), m. split_and!; try done. rewrite decide_False; [done|].
       intros Hin. apply mounted_spec in Hin. unfold names, allocs in *. congruence. }
  apply mounted_spec in Em. cbn [negb]. unfold with_all. cbn [mbind option_bind].
  destruct (prune_objects_view name (objects m) (mi_wf _ _ HI)) as [Hwf Hv].
  eexists _, _. split; [done|]. split; [|rewrite decide_True by done; split_and!; try done; apply elem_of_names_filter].
  apply minv_log. destruct HI as [HI1 HI2 HI3 HI4 HI5 HI6 HI7 HI8 HI9 HI10]. constructor; try done.
  - unfold view, allocs in *. cbn [objects segments allocators set_owner set_heartbeat set_allocators set_segments set_objects].
    rewrite Hv, app_nil_l, prune_mem_buffers. apply seg_inv_unmount. by rewrite app_nil_l in HI2.
  - etrans; [|exact HI3]. by eapply sum_capacity_filter.
  - unfold view. simpl. rewrite Hv. intros k o. rewrite prune_shard_lookup. fold (view m).
    destruct (view m !! k) as [o0|] eqn:E; [|done]. case_decide; [done|]. intros [= <-]. destruct (HI6 k o0 E) as [Hid Hcl].
    split; [|done]. intros id r [Hr _]%map_lookup_filter_Some. by apply Hid.
  - intros s. etrans; [|symmetry; apply elem_of_names_filter]. change (segment_name <$> allocators (segments m)) with (names m).
    rewrite <- HI8. simpl. rewrite lookup_delete_is_Some. naive_solver.
  - intros s Hs. apply elem_of_names_filter. simpl in Hs. apply lookup_delete_is_Some in Hs as [Hne Hs].
    split; [by apply HI9|done].
Qed.

(** ** Ownership and heartbeats *)

Lemma set_owner_inv name c m :
  master_inv m → name ∈ names m → master_inv (set_owner (<[name := c]> (segment_owner m)) m).
Proof.
  intros [M1 M2 M3 M4 M5 M6 M7 M8 M9 M10] Hn. constructor; try done. intros s. simpl. rewrite lookup_insert_is_Some'. intros [<-|?]; [done|by apply M9].
Qed.

Lemma set_heartbeat_inv hb m :
  master_inv m → (∀ s, is_Some (hb !! s) ↔ is_Some (segment_heartbeat m !! s)) → master_inv (set_heartbeat hb m).
Proof. intros [] Hhb. constructor; try done. intros s. simpl. by rewrite Hhb. Qed.

Lemma owned_spec client m s : s ∈ segments_owned_by client m ↔ segment_owner m !! s = Some client.
Proof.
  unfold segments_owned_by. rewrite list_elem_of_fmap. split.
  - intros ([s' c] & -> & Hin). apply list_elem_of_filter in Hin as [E Hin%elem_of_hiter]. simpl in *. congruence.
  - intros Hs. exists (s, client). split; [done|]. apply list_elem_of_filter. split; [done|]. by apply elem_of_hiter.
Qed.

Lemma refresh_lookup (now : Z) (ks : list string) (hb : gmap string Z) s :
  foldl (λ hb seg, <[seg := now]> hb) hb ks !! s = if decide (s ∈ ks) then Some now else hb !! s.
Proof.
  revert hb. induction ks as [|k ks IH]; intros hb; [done|]. cbn [foldl]. rewrite IH.
  destruct (decide (s ∈ ks)); [by rewrite decide_True by set_solver|]. destruct (decide (s = k)) as [->|].
  - rewrite lookup_insert_eq. by destruct (decide (k ∈ k :: ks)); [|set_solver].
  - rewrite lookup_insert_ne by done. by rewrite decide_False by set_solver.
Qed.

Lemma client_heartbeat_spec client m :
  master_inv m → master_inv (client_heartbeat client m) ∧
  ∀ s, segment_heartbeat (client_heartbeat client m) !! s =
    if decide (segment_owner m !! s = Some client) then Some (clock m) else segment_heartbeat m !! s.
Proof.
  intros HI. assert (∀ s, segment_heartbeat (client_heartbeat client m) !! s =
    if decide (segment_owner m !! s = Some client) then Some (clock m) else segment_heartbeat m !! s) as Hl.
  { intros s. unfold client_heartbeat. cbn [segment_heartbeat set_heartbeat]. rewrite refresh_lookup. pose proof (owned_spec client m s).
    do 2 case_decide; tauto || done. }
  split; [|done]. apply set_heartbeat_inv; [done|]. intros s. specialize (Hl s). unfold client_heartbeat in Hl. simpl in Hl. rewrite Hl.
  case_decide as Hd; [|done]. split; [|eauto]. intros _. apply (mi_heartbeat _ _ HI), (mi_owner _ _ HI). eauto.
Qed.

Lemma heartbeat_spec s m :
  master_inv m → ∃ r m', heartbeat s m = (r, m') ∧ master_inv m' ∧ view m' = view m ∧
    if decide (s ∈ names m) then r = Ok tt ∧ m' = set_heartbeat (<[s := clock m]> (segment_heartbeat m)) m
    else r = Err SegmentNotFound ∧ m' = m.
Proof.
  intros HI. unfold heartbeat. pose proof (mi_heartbeat _ _ HI s) as Hs. destruct (segment_heartbeat m !! s) as [l|] eqn:E.
  - eexists _, _. split; [done|]. split; [|by rewrite decide_True by (apply Hs; eauto)]. apply set_heartbeat_inv; [done|].
    intros s'. rewrite lookup_insert_is_Some'. split; [|by right]. intros [<-|?]; eauto.
  - exists (Err SegmentNotFound), m. rewrite decide_False; [done|]. intros Hn. apply Hs in Hn. by destruct Hn.
Qed.
End segs.
