(* ===== verification/Recovery.v ===== *)
(** * Recovering the master from a snapshot

    [MasterService::recover] of master_service.rs re-reserves the exact range of every
    memory replica on freshly mounted segments.  An allocator that has only served
    [reserve] hands out regions of exactly the reserved size, so a reservation succeeds
    whenever its range is free: [oba_exact], and with it the round trip through a
    snapshot. *)
From S2P Require Import Prelude F64 CoreAllocator CoreLists CoreInv BufferAllocator OffsetAllocator Identity ShardedMap CountMin StoreTypes Strategy OpLog Master SegmentLedger MasterInv MasterEvict MasterOps MasterSegments.

(** ** Free ranges of a coalesced tiling *)

Lemma tiles_cover o R e offset size :
  tiles o R e → coalesced R → o ≤ offset → 0 < size → offset + size ≤ e →
  (∀ r, r ∈ R → r_used r = true → buffers_disjoint offset size (r_off r) (r_size r)) →
  ∃ r, r ∈ R ∧ r_used r = false ∧ r_off r ≤ offset ∧ offset + size ≤ r_off r + r_size r.
Proof.
  revert o. induction R as [|r R IH]; intros o HT HC Ho Hs He Hd; simpl in HT; [lia|].
  destruct HT as (Hr & Hz & Hp & HT). unfold buffers_disjoint in Hd.
  assert (coalesced R) as HC' by (destruct R; [done|by destruct HC]).
  assert (o + r_size r ≤ offset → ∃ x, x ∈ r :: R ∧ r_used x = false ∧ r_off x ≤ offset ∧ offset + size ≤ r_off x + r_size x) as Hrec.
  { intros Hle. destruct (IH (o + r_size r) HT HC' Hle Hs He) as (x & Hx & ?); [|exists x; split; [by right|done]].
    intros x Hx. apply Hd. by right. }
  destruct (r_used r) eqn:Hu.
  { apply Hrec. specialize (Hp eq_refl). destruct (Hd r); [by left|done|lia|lia]. }
  destruct (decide (o + r_size r ≤ offset)) as [|Hlt]; [by apply Hrec|].
  destruct (decide (offset + size ≤ o + r_size r)) as [Hfit|Hnf]; [exists r; split_and!; [by left|done|lia|lia]|].
  exfalso. destruct R as [|r2 R]; simpl in HT; [lia|]. destruct HT as (Hr2 & Hz2 & Hp2 & _).
  destruct HC as [[|Hu2] _]; [congruence|]. specialize (Hp2 Hu2). destruct (Hd r2); [by right; left|done|lia|lia].
Qed.

Definition used_offs (R : list Reg) : list Z := r_off <$> filter (λ r, r_used r = true) R.

Lemma coalesced_length R : coalesced R → (length R ≤ 2 * length (used_offs R) + 1)%nat.
Proof.
  unfold used_offs. rewrite length_fmap.
  assert (∀ n R, (length R ≤ n)%nat → coalesced R → (length R ≤ 2 * length (filter (λ r, r_used r = true) R) + 1)%nat) as Hn;
    [|intros ?; by apply (Hn (length R))].
  clear R. induction n as [|n IH]; intros [|r1 R] Hle HC; simpl in *; try lia.
  rewrite filter_cons. destruct R as [|r2 R]; [simpl; lia|].
  destruct HC as [Hu HC]. simpl in Hle. case_decide as H1.
  - pose proof (IH (r2 :: R) ltac:(simpl; lia) HC). simpl in *. lia.
  - destruct Hu as [|Hu2]; [done|]. rewrite filter_cons, decide_True by done. simpl.
    assert (coalesced R) as HC' by (destruct R; [done|by destruct HC]). pose proof (IH R ltac:(lia) HC'). lia.
Qed.

Lemma used_offs_NoDup o R e : tiles o R e → NoDup (used_offs R) ∧ ∀ x, x ∈ used_offs R → o ≤ x.
Proof.
  revert o. induction R as [|r R IH]; intros o HT; simpl in *; [split; [constructor|intros x ?%elem_of_nil; done]|].
  destruct HT as (Hr & Hz & Hp & HT). destruct (IH _ HT) as [Hnd Hge]. unfold used_offs in *. rewrite filter_cons. case_decide as Hu.
  - rewrite fmap_cons. split.
    + apply NoDup_cons. split; [|done]. intros Hin%Hge. specialize (Hp Hu). lia.
    + intros x [->|Hx%Hge]%elem_of_cons; lia.
  - split; [done|]. intros x Hx%Hge. lia.
Qed.

(** ** Allocators that have only reserved *)

(** Unit-sized granules (capacity below 3.75 GiB) and no slack in any used region. *)
Definition oba_exact (a : OffsetBufferAllocator) (L : gmap Z Z) : Prop :=
  L = al_size <$> live a ∧ calculate_multiplier (capacity a) = Some 0 ∧
  ∃ R, oba_wf a R ∧ ∀ r, r ∈ R → r_used r = true → L !! r_off r = Some (r_size r).

Lemma oba_exact_inv a L : oba_exact a L → ba_inv a L.
Proof. intros (? & _ & R & HW & _). split; [done|]. by exists R. Qed.

Lemma oba_new_exact name cap :
  0 ≤ cap ≤ MAX_SEGMENT → calculate_multiplier cap = Some 0 →
  ∃ a, oba_new name cap = Some a ∧ segment_name a = name ∧ capacity a = cap ∧ oba_exact a ∅.
Proof.
  intros Hc Hm. destruct (oba_new_spec name cap Hc) as (a & c & ? & ? & Hcap & Hl & HW). exists a. split_and!; [done..|].
  split; [by rewrite Hl, fmap_empty|]. split; [simpl; by rewrite Hcap|]. eexists. split; [done|].
  intros r ->%list_elem_of_singleton. done.
Qed.

Lemma oba_reserve_complete a L offset size :
  oba_exact a L → 0 ≤ offset → 0 < size → offset + size ≤ capacity a →
  (∀ o z, L !! o = Some z → buffers_disjoint offset size o z) → 2 * Z.of_nat (base.size L) + 4 ≤ 4194304 →
  ∃ a', reserve offset size a = Some (true, a') ∧ segment_name a' = segment_name a ∧ capacity a' = capacity a ∧
    L !! offset = None ∧ oba_exact a' (<[offset := size]> L).
Proof.
  intros (HL & Hm & R & HW & Hex) Ho Hs Hcap Hdis Hcount.
  destruct (oba_reserve_spec a R offset size HW Ho ltac:(lia)) as (ok & a' & R' & Heq & HW' & Hn & Hc & Hok).
  assert (multiplier_bits (inner a) = 0) as Hm0.
  { pose proof (ow_mult _ _ HW) as Hmu. simpl in Hm. congruence. }
  assert (core_size (core (inner a)) = capacity a) as Hsz by (rewrite (ow_span _ _ HW), Hm0, Z.shiftr_0_r; done).
  destruct ok.
  - exists a'. destruct Hok as (Hnone & (al & Hl & Hal) & HR'). split; [exact Heq|]. split_and!; [done..| |].
    + by rewrite HL, lookup_fmap, Hnone.
    + split; [by rewrite HL, Hl, fmap_insert, Hal|]. split; [simpl; by rewrite Hc|]. exists R'. split; [done|].
      intros r Hr Hu. destruct (HR' r Hr Hu) as [Hr'|[-> ->]]; [|by rewrite lookup_insert_eq].
      rewrite lookup_insert_ne; [by apply Hex|]. intros ->. specialize (Hex r Hr' Hu). rewrite HL, lookup_fmap, Hnone in Hex. done.
  - exfalso. destruct Hok as (_ & [?|[?|[Hslots|Hno]]]); [lia|done| |].
    + pose proof (pool_length _ _ (ci_pool _ _ (ow_core _ _ HW))) as Hlen.
      pose proof (coalesced_length R (ci_coal _ _ (ow_core _ _ HW))).
      destruct (used_offs_NoDup _ _ _ (ci_tiles _ _ (ow_core _ _ HW))) as [Hnd _].
      assert (length (used_offs R) ≤ base.size L)%nat.
      { rewrite <- size_dom, <- (size_list_to_set (C := gset Z)) by exact Hnd. apply subseteq_size.
        intros x Hx. apply elem_of_list_to_set in Hx. unfold used_offs in Hx.
        apply list_elem_of_fmap in Hx as (r & -> & Hr). apply list_elem_of_filter in Hr as [Hu Hr]. apply elem_of_dom. eauto. }
      rewrite (ow_pool _ _ HW) in Hslots. unfold ids in Hlen. rewrite length_fmap in Hlen. lia.
    + destruct (tiles_cover _ _ _ offset size (ci_tiles _ _ (ow_core _ _ HW)) (ci_coal _ _ (ow_core _ _ HW))) as (r & Hr & Hu & Hlo & Hhi);
        [lia|lia|lia| |by destruct (Hno r Hr Hu)].
      intros r Hr Hu. apply Hdis. by apply Hex.
Qed.

(** ** The ledger of a recovering master *)

Record rseg (al : list OffsetBufferAllocator) (B : list AllocatedBuffer) : Prop := mkRseg {
  rs_names : NoDup (segment_name <$> al);
  rs_live : ∃ Ls, Forall2 oba_exact al Ls ∧ live_buffers al Ls ≡ₚ B
}.

#[global] Instance rseg_proper al : Proper ((≡ₚ) ==> iff) (rseg al).
Proof. intros B B' HB. split; intros [? (Ls & ? & Hp)]; (split; [done|]); exists Ls; split; [done| |done|]; by rewrite Hp. Qed.

Lemma rseg_seg_inv al B : rseg al B → seg_inv al B.
Proof.
  intros [? (Ls & HF & ?)]. split; [done|]. exists Ls. split; [|done]. eapply Forall2_impl; [exact HF|]. apply oba_exact_inv.
Qed.

Lemma seg_bufs_length name L : length (seg_bufs name L) = base.size L.
Proof. unfold seg_bufs. by rewrite length_fmap, length_map_to_list. Qed.

Lemma reserve_in_complete b B al :
  rseg al B → 0 ≤ buf_offset b → 0 < buf_size b →
  (∃ a, a ∈ al ∧ segment_name a = buf_segment_name b ∧ buf_offset b + buf_size b ≤ capacity a) →
  (∀ b', b' ∈ B → buf_segment_name b' = buf_segment_name b →
     buffers_disjoint (buf_offset b) (buf_size b) (buf_offset b') (buf_size b')) →
  2 * Z.of_nat (length B) + 4 ≤ 4194304 →
  ∃ al', reserve_in b al = Some (Some true, al') ∧ shape al' = shape al ∧ rseg al' (b :: B).
Proof.
  intros [Hnd (Ls & HF & HB)] Ho Hs Hin Hdis Hcount.
  assert (∀ b', b' ∈ live_buffers al Ls → buf_segment_name b' = buf_segment_name b →
     buffers_disjoint (buf_offset b) (buf_size b) (buf_offset b') (buf_size b')) as Hdis' by (intros b' Hb'; apply Hdis; by rewrite <- HB).
  assert (2 * Z.of_nat (length (live_buffers al Ls)) + 4 ≤ 4194304) as Hcount' by (by rewrite HB).
  enough (∃ al' Ls', reserve_in b al = Some (Some true, al') ∧ shape al' = shape al ∧ Forall2 oba_exact al' Ls' ∧
    live_buffers al' Ls' ≡ₚ b :: live_buffers al Ls) as (al' & Ls' & -> & Hsh & HF' & Hp).
  { exists al'. split_and!; [done..|]. split; [by rewrite (shape_names _ _ Hsh)|]. exists Ls'. split; [done|]. by rewrite Hp, HB. }
  clear Hdis Hcount HB. induction HF as [|a L al Ls Ha HF IH]; [by destruct Hin as (? & ?%elem_of_nil & _)|].
  cbn [live_buffers] in Hdis', Hcount'. cbn [reserve_in]. rewrite fmap_cons in Hnd. apply NoDup_cons in Hnd as [Hn Hnd]. rewrite length_app, seg_bufs_length in Hcount'.
  destruct (decide (segment_name a = buf_segment_name b)) as [Hnm|Hnm].
  - destruct (oba_reserve_complete a L (buf_offset b) (buf_size b) Ha Ho Hs) as (a' & -> & Hn' & Hc' & Hnone & Ha'); [| |lia|].
    + destruct Hin as (a0 & [->|Ha0]%elem_of_cons & Hn0 & ?); [done|]. exfalso. apply Hn. rewrite Hnm, <- Hn0. by apply list_elem_of_fmap_2.
    + intros o z Hoz. apply (Hdis' (mkBuffer (segment_name a) o z)); [|done]. apply elem_of_app. left. by apply elem_of_seg_bufs.
    + cbn [mbind option_bind]. eexists _, (<[buf_offset b := buf_size b]> L :: Ls). split; [done|].
      split; [unfold shape; rewrite !fmap_cons; by rewrite Hn', Hc'|]. split; [by constructor|]. cbn [live_buffers]. rewrite Hn', seg_bufs_insert by done.
      rewrite <- app_comm_cons. replace (mkBuffer (segment_name a) (buf_offset b) (buf_size b)) with b; [done|]. destruct b; simpl in *; congruence.
  - destruct IH as (al' & Ls' & -> & Hsh & HF' & Hp); [done| | |lia|].
    + destruct Hin as (a0 & [->|Ha0]%elem_of_cons & Hn0 & ?); [done|]. eauto.
    + intros b' Hb'. apply Hdis'. apply elem_of_app. by right.
    + cbn [mbind option_bind]. exists (a :: al'), (L :: Ls'). split; [done|]. split; [unfold shape in *; by rewrite !fmap_cons, Hsh|].
      split; [by constructor|]. simpl. rewrite Hp. by rewrite Permutation_middle.
Qed.

Lemma elem_of_shape (al al' : list OffsetBufferAllocator) a :
  shape al' = shape al → a ∈ al → ∃ a', a' ∈ al' ∧ segment_name a' = segment_name a ∧ capacity a' = capacity a.
Proof.
  intros Hsh Ha. assert ((segment_name a, capacity a) ∈ shape al') as Hin by (rewrite Hsh; unfold shape; by apply (list_elem_of_fmap_2 (λ a, (segment_name a, capacity a)))).
  unfold shape in Hin. apply list_elem_of_fmap in Hin as (a' & [= ? ?] & ?). eauto.
Qed.

(** Re-reserving a part of a ledger that was live on segments of the same shape. *)
Lemma reserve_all_complete bs B rest al al0 :
  rseg al B → seg_inv al0 (bs ++ B ++ rest) → shape al = shape al0 →
  2 * Z.of_nat (length (bs ++ B)) + 4 ≤ 4194304 →
  ∃ al', reserve_all bs al = Some (Ok tt, al') ∧ shape al' = shape al ∧ rseg al' (bs ++ B).
Proof.
  revert al B. induction bs as [|b bs IH]; intros al B HR HS Hsh Hcount; simpl; [by eauto|].
  simpl in Hcount, HS. pose proof (seg_inv_NoDup _ _ HS) as Hnd. apply NoDup_cons in Hnd as [Hnb _].
  destruct (seg_inv_inside _ _ b HS) as (a0 & Ha0 & Hna0 & Hb0 & Hb1 & Hb2); [set_solver|].
  rewrite length_app in Hcount.
  destruct (reserve_in_complete b B al HR Hb0 Hb1) as (al1 & -> & Hsh1 & HR1).
  - destruct (elem_of_shape al0 al a0 Hsh Ha0) as (a & ? & ? & ?). exists a. split_and!; [done|congruence|lia].
  - intros b' Hb' Hn'. assert (b ≠ b') by (intros <-; apply Hnb; set_solver).
    apply (seg_inv_disjoint _ _ b b' HS); [by left| |done|done]. right. rewrite !elem_of_app. tauto.
  - lia.
  - cbn [mbind option_bind]. destruct (IH al1 (b :: B)) as (al2 & -> & Hsh2 & HR2); [done| |congruence| |].
    + rewrite <- app_comm_cons, <- Permutation_middle. done.
    + rewrite length_app. simpl. lia.
    + exists al2. split_and!; [done|congruence|]. by rewrite <- Permutation_middle in HR2.
Qed.

Lemma rseg_snoc al B a :
  rseg al B → oba_exact a ∅ → segment_name a ∉ (segment_name <$> al) → rseg (al ++ [a]) B.
Proof.
  intros HR Ha Hn. pose proof (seg_inv_snoc _ _ a (rseg_seg_inv _ _ HR) (oba_exact_inv _ _ Ha) Hn) as [Hnd _].
  destruct HR as [_ (Ls & HF & HB)]. split; [done|]. exists (Ls ++ [∅]). split; [apply Forall2_app; [done|apply Forall2_cons_2; [done|apply Forall2_nil_2]]|].
  rewrite <- HB. clear -HF. induction HF as [|a0 L al Ls Ha HF IH]; simpl.
  - unfold seg_bufs. by rewrite map_to_list_empty.
  - by rewrite IH.
Qed.

(** ** Rebuilding objects *)

Lemma foldl_replicas (l : list (Z * Replica)) (acc : ReplicaList) :
  NoDup l.*1 → (∀ k r, (k, r) ∈ l → rep_id r = k) →
  foldl (λ acc r, <[rep_id r := r]> acc) acc l.*2 = list_to_map l ∪ acc.
Proof.
  revert acc. induction l as [|[k r] l IH]; intros acc Hnd Hid; [by rewrite list_to_map_nil, map_empty_union|].
  rewrite fmap_cons in Hnd. apply NoDup_cons in Hnd as [Hk Hnd]. rewrite fmap_cons. cbn [foldl snd].
  rewrite (Hid k r) by set_solver. rewrite IH; [|done|intros; apply Hid; by right]. simpl.
  rewrite <- insert_union_l. rewrite <- insert_union_r; [done|]. by apply not_elem_of_list_to_map_1.
Qed.

Section recover.
Context `{HashIter} `{KeyHash} `{EntryCodec}.
Implicit Types m : MasterService.

Lemma replicas_of_hvalues (rl : ReplicaList) : (∀ id r, rl !! id = Some r → rep_id r = id) → replicas_of (hvalues rl) = rl.
Proof.
  intros Hid. unfold replicas_of, hvalues. rewrite foldl_replicas.
  - rewrite map_union_empty. transitivity (list_to_map (map_to_list rl) : ReplicaList); [|apply list_to_map_to_list].
    apply list_to_map_proper; [apply NoDup_hkeys|apply hiter_perm].
  - apply NoDup_hkeys.
  - intros k r Hin%elem_of_hiter. by apply Hid.
Qed.

Definition kos_bufs (kos : list (string * ObjectMetadata)) : list AllocatedBuffer :=
  kos.*2 ≫= (λ o, rep_bufs (obj_replicas o)).

Lemma recover_objects_spec kos m al0 :
  sm_wf (objects m) → rseg (allocs m) (mem_buffers (view m)) → NoDup kos.*1 →
  (∀ k o, (k, o) ∈ kos → view m !! k = None ∧ ∀ id r, obj_replicas o !! id = Some r → rep_id r = id) →
  seg_inv al0 (kos_bufs kos ++ mem_buffers (view m)) → shape (allocs m) = shape al0 →
  2 * Z.of_nat (length (kos_bufs kos ++ mem_buffers (view m))) + 4 ≤ 4194304 →
  ∃ m', recover_objects (object_snapshot <$> kos) m = Some (Ok m') ∧ frame_eq m m' ∧ sm_wf (objects m') ∧
    view m' = list_to_map kos ∪ view m ∧ rseg (allocs m') (mem_buffers (view m')).
Proof.
  revert m. induction kos as [|[k o] kos IH]; intros m Hwf HR Hnd Hkos HS Hsh Hcount.
  { exists m. split_and!; try done. by rewrite list_to_map_nil, map_empty_union. }
  rewrite fmap_cons in Hnd. apply NoDup_cons in Hnd as [Hk Hnd]. destruct (Hkos k o) as [Hnone Hid]; [set_solver|].
  change (kos_bufs ((k, o) :: kos)) with (rep_bufs (obj_replicas o) ++ kos_bufs kos) in *.
  rewrite fmap_cons. cbn [recover_objects object_snapshot os_replicas os_key os_identity os_lease_until os_last_access os_soft_pinned os_hard_pinned fst snd].
  pose proof (hvalues_bufs (obj_replicas o)) as Hhv. set (bs := hvalues (obj_replicas o) ≫= replica_buffers) in *.
  assert (length bs = length (rep_bufs (obj_replicas o))) as Hlb by (by rewrite Hhv).
  destruct (reserve_all_complete bs (mem_buffers (view m)) (kos_bufs kos) (allocs m) al0) as (al1 & Hres & Hsh1 & HR1); [done| |done| |].
  { rewrite Hhv, (Permutation_app_comm (mem_buffers (view m))). by rewrite app_assoc. }
  { rewrite !length_app in *. lia. }
  change (allocators (segments m)) with (allocs m). rewrite Hres. cbn [mbind option_bind].
  rewrite replicas_of_hvalues by done.
  destruct (insert_object_spec k (mkObject (obj_replicas o) (obj_identity o) (lease_until o) (last_access o) (soft_pinned o) (hard_pinned o))
    (set_allocators al1 m) Hwf) as (objs & -> & Hwf' & Hv'). cbn [mbind option_bind].
  replace (mkObject (obj_replicas o) (obj_identity o) (lease_until o) (last_access o) (soft_pinned o) (hard_pinned o)) with o in Hv' by (by destruct o).
  change (view (set_allocators al1 m)) with (view m) in Hv'.
  set (m1 := set_objects objs (set_allocators al1 m)). change (sm_view objs) with (view m1) in Hv'.
  destruct (IH m1) as (m' & -> & Hf & Hwf2 & Hv2 & HR2).
  - done.
  - rewrite Hv', mem_buffers_insert by done. change (allocs m1) with al1. by rewrite Hhv in HR1.
  - done.
  - intros k' o' Hin. rewrite Hv'. destruct (Hkos k' o') as [Hn' ?]; [by right|]. split; [|done].
    rewrite lookup_insert_ne; [done|]. intros <-. apply Hk. by apply (list_elem_of_fmap_2 fst) in Hin.
  - rewrite Hv', mem_buffers_insert by done. rewrite (app_assoc (kos_bufs kos)), (Permutation_app_comm (kos_bufs kos)). done.
  - change (allocs m1) with al1. congruence.
  - rewrite Hv', mem_buffers_insert by done. rewrite !length_app in *. lia.
  - exists m'. split_and!; [done| |done| |done].
    + trans m1; [|done]. by split.
    + rewrite Hv2, Hv'. simpl. rewrite <- insert_union_l, <- insert_union_r; [done|]. by apply not_elem_of_list_to_map_1.
Qed.

(** ** Mounting the snapshot's segments *)

Definition snap_shape (segs : list SegmentSnapshot) : list (string * Z) := (λ s, (ss_name s, ss_capacity s)) <$> segs.

Lemma mount_all_spec segs m :
  master_inv m → rseg (allocs m) (mem_buffers (view m)) →
  NoDup ((shape (allocs m) ++ snap_shape segs).*1) →
  Forall (λ s, 0 ≤ ss_capacity s ≤ MAX_SEGMENT ∧ calculate_multiplier (ss_capacity s) = Some 0) segs →
  foldr Z.add 0 ((shape (allocs m) ++ snap_shape segs).*2) ≤ u64_max →
  ∃ m', mount_all segs m = Some m' ∧ master_inv m' ∧ rseg (allocs m') (mem_buffers (view m')) ∧ view m' = view m ∧
    shape (allocs m') = shape (allocs m) ++ snap_shape segs ∧ strategy_name m' = strategy_name m ∧ clock m' = clock m ∧
    lease_ttl m' = lease_ttl m ∧ high_watermark m' = high_watermark m ∧ eviction_ratio m' = eviction_ratio m ∧
    segment_ttl m' = segment_ttl m ∧ seg_strategy (segments m') = seg_strategy (segments m).
Proof.
  intros HI HR Hnd Hs. revert m HI HR Hnd. induction Hs as [|s segs [Hcap Hmul] Hs IH]; intros m HI HR Hnd Hsum.
  { exists m. unfold snap_shape. simpl. rewrite app_nil_r. done. }
  change (snap_shape (s :: segs)) with ([(ss_name s, ss_capacity s)] ++ snap_shape segs) in *. rewrite app_assoc in *.
  assert (0 ≤ foldr Z.add 0 (snap_shape segs).*2) as Hpos.
  { apply foldr_add_nonneg. unfold snap_shape. rewrite <- list_fmap_compose, Forall_fmap. eapply Forall_impl; [exact Hs|]. simpl. intros ? [? _]. lia. }
  assert (ss_name s ∉ names m) as Hnew.
  { unfold names. rewrite names_of_shape. rewrite !fmap_app in Hnd. apply NoDup_app in Hnd as (Hnd & _ & _).
    apply NoDup_app in Hnd as (_ & Hx & _). intros Hin%Hx. apply Hin. simpl. set_solver. }
  destruct (mount_segment_spec (ss_name s) (ss_capacity s) m HI) as (m1 & Hm1 & HI1 & Hv1 & Hc1 & Hsh1 & _ & _ & _ & Ht1 & Hl1).
  { split_and!; [lia|lia|done|]. rewrite caps_of_shape. rewrite !fmap_app, !foldr_add_app in Hsum. simpl in Hsum. lia. }
  destruct (oba_new_exact (ss_name s) (ss_capacity s) Hcap Hmul) as (a & Ha & Hna & Hca & Hex).
  cbn [mount_all]. rewrite Hm1. cbn [mbind option_bind]. unfold mount_segment in Hm1. rewrite Ha in Hm1. cbn [mbind option_bind] in Hm1.
  injection Hm1 as Hm1. destruct (IH m1 HI1) as (m' & -> & HI' & HR' & Hv' & Hsh' & ? & ? & ? & ? & ? & ? & ?).
  - rewrite Hv1, <- Hm1. apply rseg_snoc; [done|done|]. by rewrite Hna.
  - by rewrite Hsh1.
  - by rewrite Hsh1.
  - exists m'. split; [done|]. split; [done|]. split; [done|]. split; [congruence|]. split; [by rewrite Hsh', Hsh1|].
    subst m1. simpl in *. split_and!; congruence.
Qed.

(** The master can be rebuilt: every segment uses unit granules (below 3.75 GiB) and the
    node pool has room for the recovered layout. *)
Definition recoverable m : Prop :=
  Forall (λ a, calculate_multiplier (capacity a) = Some 0) (allocs m) ∧
  2 * Z.of_nat (length (mem_buffers (view m))) + 4 ≤ 4194304.

Lemma seg_inv_caps (al : list OffsetBufferAllocator) B : seg_inv al B → Forall (λ a, 0 ≤ capacity a ≤ MAX_SEGMENT) al.
Proof. intros [_ (Ls & HF & _)]. induction HF as [|a L al Ls Ha HF IH]; constructor; [by eapply ba_capacity|done]. Qed.

Lemma recover_spec m :
  master_inv m → recoverable m →
  ∃ m', recover (snapshot m) = Some (Ok m') ∧ master_inv m' ∧ view m' = view m ∧ shape (allocs m') = shape (allocs m) ∧
    clock m' = clock m ∧ lease_ttl m' = lease_ttl m ∧ high_watermark m' = high_watermark m ∧
    eviction_ratio m' = eviction_ratio m ∧ segment_ttl m' = segment_ttl m ∧ strategy_name m' = strategy_name m ∧
    segments m' = mkSegments (allocs m') (seg_strategy (segments m)) (next_replica_id (segments m)).
Proof.
  intros HI (Hmul & Hcount). pose proof HI as [Hwf Hl Hcaps Hcl Hnext Hobj _ _ _ Hstrat]. rewrite app_nil_l in Hl.
  unfold recover. cbn [snapshot snap_strategy snap_clock snap_segment_ttl snap_lease_ttl snap_high_watermark snap_eviction_ratio snap_segments snap_objects snap_next_replica_id].
  set (m0 := set_params _ _ _ _). pose proof (master_new_inv (strategy_name m)) as HI0.
  assert (view m0 = ∅) as Hv0 by (apply (sm_new_wf (V := ObjectMetadata) DEFAULT_SHARDS)).
  assert (master_inv m0) as HI0'.
  { destruct HI0 as [N1 N2 N3 N4 N5 N6 N7 N8 N9 N10]. by constructor. }
  assert (snap_shape ((λ a : OffsetBufferAllocator, mkSegSnap (segment_name a) (capacity a)) <$> allocators (segments m)) = shape (allocs m)) as Hss.
  { unfold snap_shape, shape. by rewrite <- list_fmap_compose. }
  destruct (mount_all_spec ((λ a : OffsetBufferAllocator, mkSegSnap (segment_name a) (capacity a)) <$> allocators (segments m)) m0 HI0')
    as (m1 & -> & HI1 & HR1 & Hv1 & Hsh1 & Hn1 & Hc1 & Hl1 & Hw1 & He1 & Ht1 & Hs1).
  { rewrite Hv0, mem_buffers_empty. split; [constructor|]. exists []. split; [constructor|done]. }
  { rewrite Hss. change (shape (allocs m0)) with ([] : list (string * Z)). rewrite app_nil_l, <- names_of_shape. apply Hl. }
  { apply Forall_fmap. pose proof (seg_inv_caps _ _ Hl) as Hc. apply Forall_forall. intros a Ha. rewrite Forall_forall in Hc, Hmul. simpl. split; [by apply Hc|by apply Hmul]. }
  { rewrite Hss. change (shape (allocs m0)) with ([] : list (string * Z)). by rewrite app_nil_l, <- caps_of_shape. }
  cbn [mbind option_bind]. rewrite Hss in Hsh1. change (shape (allocs m0)) with ([] : list (string * Z)) in Hsh1. rewrite app_nil_l in Hsh1.
  change (strategy_name m0) with (strategy_name m) in Hn1. change (clock m0) with (clock m) in Hc1.
  change (lease_ttl m0) with (lease_ttl m) in Hl1. change (high_watermark m0) with (high_watermark m) in Hw1.
  change (eviction_ratio m0) with (eviction_ratio m) in He1. change (segment_ttl m0) with (segment_ttl m) in Ht1.
  change (seg_strategy (segments m0)) with (create_strategy (strategy_name m)) in Hs1.
  rewrite Hv0 in Hv1. pose proof (sm_iter_perm (objects m) Hwf) as Hperm. fold (view m) in Hperm.
  assert (kos_bufs (sm_iter (objects m)) ≡ₚ mem_buffers (view m)) as Hkb by (unfold kos_bufs, mem_buffers; by rewrite Hperm).
  destruct (recover_objects_spec (sm_iter (objects m)) m1 (allocs m)) as (m2 & -> & Hf & Hwf2 & Hv2 & HR2).
  { apply HI1. } { done. } { by apply NoDup_sm_iter. }
  { intros k o Hin. apply elem_of_sm_iter in Hin; [|done]. rewrite Hv1, lookup_empty. split; [done|].
    intros id r Hr. by destruct (Hobj k o Hin) as [Hid _]; apply Hid in Hr as [? _]. }
  { by rewrite Hv1, mem_buffers_empty, app_nil_r, Hkb. } { done. } { rewrite Hv1, mem_buffers_empty, app_nil_r, Hkb. done. }
  cbn [mbind option_bind]. eexists. split; [done|]. destruct Hf as [F1 F2 F3 F4 F5 F6 F7 F8 F9 F10 F11 F12].
  assert (view m2 = view m) as Hvm.
  { rewrite Hv2, Hv1, map_union_empty. transitivity (list_to_map (map_to_list (view m)) : gmap string ObjectMetadata); [|apply list_to_map_to_list].
    apply list_to_map_proper; [by apply NoDup_sm_iter|done]. }
  assert (shape (allocs m2) = shape (allocs m)) as Hshm by congruence.
  split.
  - destruct HI1 as [N1 N2 N3 N4 N5 N6 N7 N8 N9 N10]. constructor.
    + done.
    + change (view (set_next_id (next_replica_id (segments m)) m2)) with (view m2). rewrite app_nil_l. by apply rseg_seg_inv.
    + change (allocs (set_next_id (next_replica_id (segments m)) m2)) with (allocs m2). by rewrite caps_of_shape, Hshm, <- caps_of_shape.
    + simpl. rewrite F5, F6. lia.
    + done.
    + change (view (set_next_id (next_replica_id (segments m)) m2)) with (view m2). rewrite Hvm.
      eapply map_Forall_impl; [exact Hobj|]. intros k o Ho. unfold obj_ok in *. simpl. by replace (clock m2) with (clock m) by congruence; replace (lease_ttl m2) with (lease_ttl m) by congruence.
    + simpl. by rewrite F12.
    + intros s. change (is_Some (segment_heartbeat m2 !! s) ↔ s ∈ (segment_name <$> allocs m2)). rewrite F9, (shape_names _ _ F1). apply N8.
    + intros s. change (is_Some (segment_owner m2 !! s) → s ∈ (segment_name <$> allocs m2)). rewrite F11, (shape_names _ _ F1). apply N9.
    + simpl. congruence.
  - split; [done|]. split; [done|]. simpl. split_and!; try congruence. unfold allocs. simpl. f_equal. rewrite Hstrat. congruence.
Qed.
End recover.
