(* ===== verification/MasterSteps.v ===== *)
(** * The master as a state machine

    Every public operation of master_service.rs as a step, the states reachable by any
    interleaving of them, and the invariant along every trace. *)
From S2P Require Import Prelude F64 BufferAllocator OffsetAllocator Identity ShardedMap CountMin StoreTypes Strategy OpLog Master SegmentLedger MasterInv MasterEvict MasterOps MasterSegments Recovery.

Section steps.
Context `{HashIter} `{KeyHash} `{EntryCodec} `{RegexEngine}.
Implicit Types m : MasterService.

Inductive mop : Type :=
| OTick
| OMount (name : string) (cap : Z)
| OMountFor (client name : string) (cap : Z)
| OUnmount (name : string)
| OUnmountFor (client name : string)
| OClientHeartbeat (client : string)
| ORemount (client : string) (segs : list (string * Z))
| OHeartbeat (segment : string)
| OSetTtl (ttl : Z)
| OEvict
| OPutStart (key : string) (identity : IdentityScope) (size : Z) (config : ReplicateConfig)
| OPutEnd (key : string)
| OPutRevoke (key : string)
| OUpsertStart (key : string) (identity : IdentityScope) (size : Z) (config : ReplicateConfig)
| OGet (key : string) (requester : IdentityScope)
| OBatchPutStart (items : list (string * IdentityScope * Z)) (config : ReplicateConfig)
| OBatchPutEnd (keys : list string)
| OBatchPutRevoke (keys : list string)
| OBatchGet (keys : list string) (requester : IdentityScope)
| OExist (keys : list string)
| ORegex (pattern : string) (requester : IdentityScope)
| ORemove (key : string) (force : bool).

Definition run_mop (op : mop) m : option MasterService :=
  match op with
  | OTick => snd <$> tick m
  | OMount name cap => mount_segment name cap m
  | OMountFor client name cap => mount_segment_for client name cap m
  | OUnmount name => snd <$> unmount_segment name m
  | OUnmountFor client name => snd <$> unmount_segment_for client name m
  | OClientHeartbeat client => Some (client_heartbeat client m)
  | ORemount client segs => remount_segments client segs m
  | OHeartbeat segment => Some (heartbeat segment m).2
  | OSetTtl ttl => Some (set_segment_ttl ttl m)
  | OEvict => snd <$> evict_if_needed m
  | OPutStart key identity size config => snd <$> put_start key identity size config m
  | OPutEnd key => snd <$> put_end key m
  | OPutRevoke key => snd <$> put_revoke key m
  | OUpsertStart key identity size config => snd <$> upsert_start key identity size config m
  | OGet key requester => snd <$> get_replica_list key requester m
  | OBatchPutStart items config => snd <$> batch_put_start items config m
  | OBatchPutEnd keys => snd <$> batch_put_end keys m
  | OBatchPutRevoke keys => snd <$> batch_put_revoke keys m
  | OBatchGet keys requester => snd <$> batch_get_replica_list keys requester m
  | OExist keys => snd <$> batch_exist_key keys m
  | ORegex pattern requester => snd <$> get_replica_list_by_regex pattern requester m
  | ORemove key force => snd <$> remove key force m
  end.

(** The bounds a call needs: 64-bit counters do not run out, segments have new names and
    sizes below 2^63, and their total fits a [u64].  Nothing is asked of keys,
    identities or the objects present. *)
Definition op_ok (op : mop) m : Prop :=
  match op with
  | OTick => clock m + 1 + lease_ttl m ≤ u64_max
  | OMount name cap | OMountFor _ name cap => mountable name cap m
  | ORemount _ segs => Forall (λ s, 0 ≤ s.2 ≤ MAX_SEGMENT) segs ∧
      foldr Z.add 0 (capacity <$> allocs m) + foldr Z.add 0 segs.*2 ≤ u64_max
  | OPutStart _ _ size config | OUpsertStart _ _ size config =>
      0 ≤ size ∧ 0 ≤ replica_num config ∧ next_replica_id (segments m) + replica_num config ≤ u64_max
  | OBatchPutStart items config => Forall (λ it, 0 ≤ it.2) items ∧ 0 ≤ replica_num config ∧
      next_replica_id (segments m) + replica_num config * Z.of_nat (length items) ≤ u64_max
  | _ => True
  end.

(** States reachable from a new master, with or without an operation log, also across
    restarts from a snapshot. *)
Inductive reachable : MasterService → Prop :=
| reach_new strategy : reachable (master_new strategy)
| reach_oplog m file : reachable m → reachable (enable_oplog file m)
| reach_step m op m' : reachable m → op_ok op m → run_mop op m = Some m' → reachable m'
| reach_recover m m' : reachable m → recoverable m → recover (snapshot m) = Some (Ok m') → reachable m'.

(** ** Composite operations *)

Lemma mount_segment_for_spec client name cap m :
  master_inv m → mountable name cap m →
  ∃ m', mount_segment_for client name cap m = Some m' ∧ master_inv m' ∧ view m' = view m ∧
    shape (allocs m') = shape (allocs m) ++ [(name, cap)].
Proof.
  intros HI Hm. unfold mount_segment_for. destruct (mount_segment_spec name cap m HI Hm) as (m1 & -> & HI1 & Hv & _ & Hsh & _).
  cbn [mbind option_bind]. eexists. split; [done|]. split; [|done]. apply set_owner_inv; [done|].
  unfold names. rewrite names_of_shape, Hsh, fmap_app, elem_of_app. right. set_solver.
Qed.

Lemma remount_loop_spec client segs m :
  master_inv m → Forall (λ s, 0 ≤ s.2 ≤ MAX_SEGMENT) segs →
  foldr Z.add 0 (capacity <$> allocs m) + foldr Z.add 0 segs.*2 ≤ u64_max →
  ∃ m', remount_loop client segs m = Some m' ∧ master_inv m' ∧ view m' = view m.
Proof.
  intros HI Hs. revert m HI. induction Hs as [|[name cap] segs Hcap Hs IH]; intros m HI Hsum; simpl; [by exists m|].
  rewrite fmap_cons in Hsum. cbn [foldr fst snd] in Hsum, Hcap.
  assert (0 ≤ foldr Z.add 0 segs.*2) as Hpos.
  { apply foldr_add_nonneg. rewrite Forall_fmap. eapply Forall_impl; [exact Hs|]. intros [? ?]. simpl. lia. }
  destruct (mounted name (allocators (segments m))) eqn:Em; cbn [mbind option_bind].
  - apply mounted_spec in Em. destruct (IH (set_owner (<[name := client]> (segment_owner m)) m)) as (m' & -> & HI' & Hv).
    + by apply set_owner_inv.
    + change (allocs (set_owner (<[name := client]> (segment_owner m)) m)) with (allocs m). lia.
    + by exists m'.
  - destruct (mount_segment_for_spec client name cap m HI) as (m1 & -> & HI1 & Hv1 & Hsh).
    { split_and!; [lia|lia| |lia]. intros Hin. apply mounted_spec in Hin. unfold allocs in Hin. congruence. }
    cbn [mbind option_bind]. destruct (IH m1 HI1) as (m' & -> & HI' & Hv').
    { rewrite caps_of_shape, Hsh, fmap_app, <- caps_of_shape, foldr_add_app. change ([(name, cap)].*2) with [cap]. cbn [foldr]. lia. }
    exists m'. split_and!; [done..|congruence].
Qed.

Lemma remount_segments_spec client segs m :
  master_inv m → op_ok (ORemount client segs) m →
  ∃ m', remount_segments client segs m = Some m' ∧ master_inv m' ∧ view m' = view m.
Proof.
  intros HI [Hs Hsum]. unfold remount_segments. destruct (remount_loop_spec client segs m HI Hs Hsum) as (m1 & -> & HI1 & Hv).
  cbn [mbind option_bind]. eexists. split; [done|]. split; [by apply client_heartbeat_spec|done].
Qed.

(** ** Upsert *)

Lemma upsert_inspect_spec key m :
  master_inv m →
  ∃ objs, upsert_inspect key m = Some (
      match view m !! key with
      | None => (false, false, 0)
      | Some o => (has_complete_replica o, clock m <? lease_until o, from_option replica_size 0 (head (hvalues (obj_replicas o))))
      end, set_objects objs m) ∧ master_inv (set_objects objs m) ∧ sm_view objs = view m.
Proof.
  intros HI. unfold upsert_inspect.
  destruct (with_shard_read (λ o, match o with
      | None => (false, false, 0)
      | Some o => (has_complete_replica o, clock m <? lease_until o, from_option replica_size 0 (head (hvalues (obj_replicas o))))
      end) key m (mi_wf _ _ HI)) as (objs & -> & Hwf & Hv).
  cbn [mbind option_bind]. destruct (same_view_inv objs m HI Hwf Hv). eauto.
Qed.

Definition reopened m (identity : IdentityScope) (o : ObjectMetadata) : ObjectMetadata :=
  mkObject (set_status Initialized <$> obj_replicas o) identity (lease_until o) (clock m) (soft_pinned o) (hard_pinned o).

Lemma upsert_in_place_spec key identity o m :
  master_inv m → view m !! key = Some o →
  ∃ bs m', upsert_in_place key identity (clock m) m = Some (bs, m') ∧ master_inv m' ∧ frame_eq m m' ∧
    bs ≡ₚ rep_bufs (obj_replicas o) ∧ view m' = <[key := reopened m identity o]> (view m).
Proof.
  intros HI Hk. unfold upsert_in_place.
  match goal with |- context [with_shard key ?f (objects m)] =>
    destruct (with_shard_spec (objects m) key f (hvalues (obj_replicas o) ≫= replica_buffers)
      (Some (reopened m identity o)) (mi_wf _ _ HI)) as (objs & -> & Hwf & Hv) end.
  { intros s Hs. rewrite Hs. fold (view m). rewrite Hk. cbn [mbind option_bind]. eexists. split; [done|].
    split; [by rewrite lookup_insert_eq|]. intros k' ?. by rewrite lookup_insert_ne. }
  cbn [mbind option_bind]. destruct (update_object key o objs (reopened m identity o) m HI Hk Hwf Hv) as [HI' Hv'].
  { simpl. by rewrite rep_bufs_status. }
  { destruct (obj_ok_status m Initialized o (mi_objects _ _ HI key o Hk)) as [? ?]. pose proof (mi_clock _ _ HI).
    split; [done|]. simpl in *. lia. }
  eexists _, _. split; [done|]. split; [done|]. split; [by split|]. split; [apply hvalues_bufs|done].
Qed.

(** The whole upsert, on each of its four branches. *)
Lemma upsert_start_spec key identity size config m :
  master_inv m → 0 ≤ size → 0 ≤ replica_num config → next_replica_id (segments m) + replica_num config ≤ u64_max →
  ∃ r m', upsert_start key identity size config m = Some (r, m') ∧ master_inv m' ∧ config_eq m m' ∧
    match view m !! key with
    | Some o =>
        if has_complete_replica o then
          if clock m <? lease_until o then r = Err ObjectNotReady ∧ view m' = view m
          else if from_option replica_size 0 (head (hvalues (obj_replicas o))) =? size then
            ∃ bs, r = Ok bs ∧ bs ≡ₚ rep_bufs (obj_replicas o) ∧ view m' = <[key := reopened m identity o]> (view m)
          else True
        else True
    | None => True
    end.
Proof.
  intros HI Hs Hn Hmax. unfold upsert_start. destruct (upsert_inspect_spec key m HI) as (objs & -> & HI1 & Hv1). cbn [mbind option_bind].
  set (m1 := set_objects objs m) in *. assert (frame_eq m m1) as Hf1 by (by split).
  assert (view m1 = view m) as Hvm by done.
  assert (∃ r m', put_start key identity size config m1 = Some (r, m') ∧ master_inv m' ∧ config_eq m m') as Hput.
  { destruct (put_start_spec key identity size config m1 HI1 Hs Hn Hmax) as (r & m2 & -> & HI2 & Hc2 & _).
    exists r, m2. split_and!; [done..|]. trans m1; [by apply frame_config|done]. }
  unfold upsert_act. destruct (view m !! key) as [o|] eqn:Hk.
  2: { cbn [negb]. destruct Hput as (r & m' & ? & ? & ?). eauto 10. }
  destruct (has_complete_replica o) eqn:Hcomp; cbn [negb].
  2: { destruct Hput as (r & m' & ? & ? & ?). eauto 10. }
  destruct (clock m <? lease_until o); [by eauto 10 using frame_config|].
  destruct (_ =? size).
  - rewrite <- Hvm in Hk. destruct (upsert_in_place_spec key identity o m1 HI1 Hk) as (bs & m' & Hu & HI' & Hf' & Hbs & Hv').
    change (clock m1) with (clock m) in Hu. rewrite Hu. cbn [mbind option_bind]. eexists _, _. split; [done|]. split; [done|].
    split; [apply frame_config; by trans m1|]. exists bs. split; [done|]. split; [done|]. by rewrite Hv', Hvm.
  - unfold upsert_replace. destruct (take_and_free key [] m1 HI1) as (objs2 & -> & Hv2 & Hk2). cbn [mbind option_bind].
    rewrite Hvm, Hk in *. destruct Hk2 as (al & Hfr & Hsh & HI2).
    change (allocators (segments (set_objects objs2 m1))) with (allocs m1). rewrite Hfr. cbn [mbind option_bind].
    destruct (put_start_spec key identity size config _ HI2 Hs Hn Hmax) as (r & m2 & -> & HI3 & Hc3 & _).
    exists r, m2. split; [done|]. split; [done|]. split; [|done]. etrans; [|exact Hc3]. by split.
Qed.

(** ** Batches *)

Lemma revoke_all_spec keys m :
  master_inv m → ∃ m', revoke_all keys m = Some m' ∧ master_inv m' ∧ frame_eq m m' ∧ view m' = delete_keys keys (view m).
Proof.
  revert m. induction keys as [|k keys IH]; intros m HI; simpl; [by exists m|].
  destruct (put_revoke_spec k m HI) as (m1 & -> & HI1 & Hf1 & Hv1). cbn [mbind option_bind].
  destruct (IH m1 HI1) as (m' & -> & HI' & Hf' & Hv'). exists m'. split; [done|]. split; [done|]. split; [by trans m1|].
  by rewrite Hv', Hv1.
Qed.

Lemma batch_put_loop_spec items config out started m :
  master_inv m → Forall (λ it, 0 ≤ it.2) items → 0 ≤ replica_num config →
  next_replica_id (segments m) + replica_num config * Z.of_nat (length items) ≤ u64_max →
  ∃ r m', batch_put_loop items config out started m = Some (r, m') ∧ master_inv m'.
Proof.
  intros HI Hit Hn. revert out started m HI. induction Hit as [|[[key identity] size] items Hs Hit IH]; intros out started m HI Hmax; simpl; [by eauto|].
  simpl in Hs. change (length (_ :: items)) with (S (length items)) in Hmax. rewrite Nat2Z.inj_succ in Hmax.
  destruct (put_start_spec key identity size config m HI Hs Hn) as (r & m1 & -> & HI1 & _ & Hr); [lia|]. cbn [mbind option_bind].
  destruct r as [bs|e].
  - apply IH; [done|]. destruct Hr as (_ & _ & -> & _). lia.
  - destruct (revoke_all_spec started m1 HI1) as (m2 & -> & ? & _). cbn [mbind option_bind]. eauto.
Qed.

Lemma for_keys_spec op keys m :
  (∀ k m, master_inv m → ∃ r m', op k m = Some (r, m') ∧ master_inv m') → master_inv m →
  ∃ r m', for_keys op keys m = Some (r, m') ∧ master_inv m'.
Proof.
  intros Hop. revert m. induction keys as [|k keys IH]; intros m HI; simpl; [by eauto|].
  destruct (Hop k m HI) as (r & m1 & -> & HI1). cbn [mbind option_bind]. destruct r; [by apply IH|by eauto].
Qed.

Lemma batch_get_loop_spec keys requester out m :
  master_inv m → ∃ r m', batch_get_loop keys requester out m = Some (r, m') ∧ master_inv m'.
Proof.
  revert out m. induction keys as [|k keys IH]; intros out m HI; simpl; [by eauto|].
  destruct (get_replica_list_spec k requester m HI) as (r & m1 & -> & HI1 & _). cbn [mbind option_bind]. destruct r; [by apply IH|by eauto].
Qed.

Lemma batch_exist_spec keys m :
  master_inv m → ∃ m', batch_exist_key keys m = Some (complete_at m <$> keys, m') ∧ master_inv m' ∧ view m' = view m.
Proof.
  revert m. induction keys as [|k keys IH]; intros m HI; simpl; [by eauto|].
  destruct (exist_key_spec k m HI) as (m1 & -> & HI1 & _ & Hv1). cbn [mbind option_bind].
  destruct (IH m1 HI1) as (m2 & -> & HI2 & Hv2). cbn [mbind option_bind]. exists m2. split; [|split; [done|congruence]].
  do 3 f_equal. apply list_fmap_ext. intros ? k' _. unfold complete_at. by rewrite Hv1.
Qed.

Lemma regex_loop_spec keys requester out m :
  master_inv m → ∃ r m', regex_loop keys requester out m = Some (r, m') ∧ master_inv m'.
Proof.
  revert out m. induction keys as [|k keys IH]; intros out m HI; simpl; [by eauto|].
  destruct (get_replica_list_spec k requester m HI) as (r & m1 & -> & HI1 & _). cbn [mbind option_bind]. by apply IH.
Qed.

(** ** Every step keeps the invariant and does not panic *)

Lemma run_mop_inv op m : master_inv m → op_ok op m → ∃ m', run_mop op m = Some m' ∧ master_inv m'.
Proof.
  intros HI Hok. destruct op; cbn [run_mop op_ok] in *.
  - destruct (tick_spec m HI Hok) as (m' & -> & ? & _). simpl. eauto.
  - destruct (mount_segment_spec name cap m HI Hok) as (m' & ? & ? & _). eauto.
  - destruct (mount_segment_for_spec client name cap m HI Hok) as (m' & ? & ? & _). eauto.
  - destruct (unmount_segment_spec name m HI) as (r & m' & -> & ? & _). simpl. eauto.
  - unfold unmount_segment_for. destruct (bool_decide _); [|simpl; eauto].
    destruct (unmount_segment_spec name m HI) as (r & m' & -> & ? & _). simpl. eauto.
  - eexists. split; [done|]. by apply client_heartbeat_spec.
  - destruct (remount_segments_spec client segs m HI Hok) as (m' & ? & ? & _). eauto.
  - destruct (heartbeat_spec segment m HI) as (r & m' & -> & ? & _). simpl. eauto.
  - eexists. split; [done|]. destruct HI. by constructor.
  - destruct (evict_if_needed_spec [] m HI) as (n & m' & j & -> & ? & _). simpl. eauto.
  - destruct Hok as (? & ? & ?). destruct (put_start_spec key identity size config m HI) as (r & m' & -> & ? & _); [done..|]. simpl. eauto.
  - destruct (put_end_spec key m HI) as (r & m' & -> & ? & _). simpl. eauto.
  - destruct (put_revoke_spec key m HI) as (m' & -> & ? & _). simpl. eauto.
  - destruct Hok as (? & ? & ?). destruct (upsert_start_spec key identity size config m HI) as (r & m' & -> & ? & _); [done..|]. simpl. eauto.
  - destruct (get_replica_list_spec key requester m HI) as (r & m' & -> & ? & _). simpl. eauto.
  - destruct Hok as (? & ? & ?). destruct (batch_put_loop_spec items config [] [] m HI) as (r & m' & Hb & ?); [done..|].
    unfold batch_put_start. rewrite Hb. simpl. eauto.
  - destruct (for_keys_spec put_end keys m) as (r & m' & Hb & ?); [|done|].
    { intros k m1 HI1. destruct (put_end_spec k m1 HI1) as (r & m' & ? & ? & _). eauto. }
    unfold batch_put_end. rewrite Hb. simpl. eauto.
  - destruct (for_keys_spec put_revoke keys m) as (r & m' & Hb & ?); [|done|].
    { intros k m1 HI1. destruct (put_revoke_spec k m1 HI1) as (m' & ? & ? & _). eauto. }
    unfold batch_put_revoke. rewrite Hb. simpl. eauto.
  - destruct (batch_get_loop_spec keys requester [] m HI) as (r & m' & Hb & ?). unfold batch_get_replica_list. rewrite Hb. simpl. eauto.
  - destruct (batch_exist_spec keys m HI) as (m' & -> & ? & _). simpl. eauto.
  - unfold get_replica_list_by_regex. destruct (regex_new pattern) as [f|e]; [|simpl; eauto].
    destruct (regex_loop_spec (filter (λ k, f k = true) (sm_iter (objects m)).*1) requester ∅ m HI) as (r & m' & -> & ?). simpl. eauto.
  - destruct (remove_spec key force m HI) as (r & m' & -> & ? & _). simpl. eauto.
Qed.

Lemma reachable_inv m : reachable m → master_inv m.
Proof.
  induction 1 as [strategy|m file _ IH|m op m' _ IH Hok Hrun|m m' _ IH Hrec Heq]; [apply master_new_inv| | |].
  - destruct IH. by constructor.
  - destruct (run_mop_inv op m IH Hok) as (m1 & Hm1 & ?). by simplify_eq.
  - destruct (recover_spec m IH Hrec) as (m1 & Hm1 & ? & _). by simplify_eq.
Qed.
End steps.
