(* ===== verification/MasterTheorems.v ===== *)
(** * Properties of the master

    Safety of every reachable state, the guarded read, the visibility of the two-phase
    put, the eviction contract, unmounting, and what the code does where operations
    interleave or repeat. *)
From S2P Require Import Prelude F64 BufferAllocator OffsetAllocator Identity ShardedMap CountMin StoreTypes Strategy OpLog Master SegmentLedger MasterInv MasterEvict MasterOps MasterSegments Recovery MasterSteps.

(** ** Unique owners *)

Lemma mem_buffers_unique w k1 o1 id1 r1 k2 o2 id2 r2 b :
  NoDup (mem_buffers w) →
  w !! k1 = Some o1 → obj_replicas o1 !! id1 = Some r1 → rep_data r1 = Memory b →
  w !! k2 = Some o2 → obj_replicas o2 !! id2 = Some r2 → rep_data r2 = Memory b →
  k1 = k2 ∧ id1 = id2.
Proof.
  intros Hnd Hk1 Hi1 Hb1 Hk2 Hi2 Hb2. rewrite (mem_buffers_delete w k1 o1 Hk1) in Hnd. apply NoDup_app in Hnd as (Hnd & Hdis & _).
  assert (k1 = k2) as <-.
  { destruct (decide (k1 = k2)) as [|Hne]; [done|]. exfalso. apply (Hdis b).
    - apply elem_of_rep_bufs. eauto.
    - apply elem_of_mem_buffers. exists k2, o2, id2, r2. by rewrite lookup_delete_ne. }
  split; [done|]. simplify_eq. destruct (decide (id1 = id2)) as [|Hne]; [done|]. exfalso.
  rewrite <- (insert_delete_id (obj_replicas o1) id1 r1 Hi1) in Hnd. rewrite rep_bufs_insert in Hnd by apply lookup_delete_eq.
  apply NoDup_app in Hnd as (_ & Hdis' & _). apply (Hdis' b).
  - unfold replica_buffers. rewrite Hb1. set_solver.
  - apply elem_of_rep_bufs. exists id2, r2. by rewrite lookup_delete_ne.
Qed.

Section thms.
Context `{HashIter} `{KeyHash} `{EntryCodec} `{RegexEngine}.
Implicit Types m : MasterService.

(** Two recorded buffers of one segment are disjoint, and each lies in a mounted segment. *)
Lemma recorded_disjoint m k1 o1 id1 r1 b1 k2 o2 id2 r2 b2 :
  master_inv m →
  view m !! k1 = Some o1 → obj_replicas o1 !! id1 = Some r1 → rep_data r1 = Memory b1 →
  view m !! k2 = Some o2 → obj_replicas o2 !! id2 = Some r2 → rep_data r2 = Memory b2 →
  (k1, id1) ≠ (k2, id2) → buf_segment_name b1 = buf_segment_name b2 →
  buffers_disjoint (buf_offset b1) (buf_size b1) (buf_offset b2) (buf_size b2).
Proof.
  intros HI Hk1 Hi1 Hb1 Hk2 Hi2 Hb2 Hne Hnm. pose proof (mi_ledger _ _ HI) as Hl. rewrite app_nil_l in Hl.
  pose proof (seg_inv_NoDup _ _ Hl) as Hnd. apply (seg_inv_disjoint _ _ b1 b2 Hl); [apply elem_of_mem_buffers; eauto 10..| |done].
  intros <-. apply Hne. destruct (mem_buffers_unique _ _ _ _ _ _ _ _ _ _ Hnd Hk1 Hi1 Hb1 Hk2 Hi2 Hb2). congruence.
Qed.

Lemma recorded_inside m k o id r b :
  master_inv m → view m !! k = Some o → obj_replicas o !! id = Some r → rep_data r = Memory b →
  ∃ a, a ∈ allocs m ∧ segment_name a = buf_segment_name b ∧ 0 ≤ buf_offset b ∧ 0 < buf_size b ∧ buf_offset b + buf_size b ≤ capacity a.
Proof.
  intros HI Hk Hi Hb. pose proof (mi_ledger _ _ HI) as Hl. rewrite app_nil_l in Hl. apply (seg_inv_inside _ _ b Hl), elem_of_mem_buffers. eauto 10.
Qed.

(** C4 No operation of the master panics when operations run one at a time, as the HTTP server's mutex runs them: in every
    state such a sequence of operations reaches, every operation returns (with an error value where the code returns
    one), given that 64-bit counters and capacities do not run out and that a name is mounted only while no segment
    has it (mounting a name twice and interleaving the steps of an upsert are outside this theorem). *)
Theorem master_never_panics m op : reachable m → op_ok op m → ∃ m', run_mop op m = Some m' ∧ reachable m'.
Proof.
  intros Hr Hok. destruct (run_mop_inv op m (reachable_inv m Hr) Hok) as (m' & Hm' & _).
  exists m'. split; [done|]. by eapply reach_step.
Qed.

(** C3 Replica buffers are owned by exactly one replica: in every state that operations run one at a time reach, with a name
    mounted only while no segment has it, the memory buffers of two different replicas (of one or two objects) never
    share a byte, each lies inside a mounted segment, and the bytes the allocators count as used are
    exactly the bytes of the recorded replicas, so nothing leaks.  (The code also accepts a second mount of a name, after
    which this does not hold.) *)
Theorem master_memory_safe m :
  reachable m →
  (∀ k1 o1 id1 r1 b1 k2 o2 id2 r2 b2,
     view m !! k1 = Some o1 → obj_replicas o1 !! id1 = Some r1 → rep_data r1 = Memory b1 →
     view m !! k2 = Some o2 → obj_replicas o2 !! id2 = Some r2 → rep_data r2 = Memory b2 →
     (k1, id1) ≠ (k2, id2) → buf_segment_name b1 = buf_segment_name b2 →
     buffers_disjoint (buf_offset b1) (buf_size b1) (buf_offset b2) (buf_size b2)) ∧
  (∀ k o id r b, view m !! k = Some o → obj_replicas o !! id = Some r → rep_data r = Memory b →
     ∃ a, a ∈ allocs m ∧ segment_name a = buf_segment_name b ∧ 0 ≤ buf_offset b ∧ 0 < buf_size b ∧
       buf_offset b + buf_size b ≤ capacity a) ∧
  master_allocated m = Some (sum_sizes (mem_buffers (view m))).
Proof.
  intros HI%reachable_inv. split_and!; [intros *; by apply recorded_disjoint|by intros; eapply recorded_inside|].
  by destruct (mtotals [] m HI) as (_ & ? & _).
Qed.

(** C5 The guarded read: a get succeeds exactly when the object exists, the requester's
    identity is the writer's on every axis, and some replica is complete and not on a
    segment whose heartbeat is stale; it then returns exactly those replicas.  Otherwise
    it returns the error that says why and changes no object. *)
Theorem get_guarded m key requester :
  reachable m →
  ∃ r m', get_replica_list key requester m = Some (r, m') ∧
    match r with
    | Ok rs => ∃ o, view m !! key = Some o ∧ obj_identity o = requester ∧ rs ≠ [] ∧
        (∀ x, x ∈ rs ↔ (∃ id, obj_replicas o !! id = Some x) ∧ rep_status x = Complete ∧
           (∀ s, replica_segment_name x = Some s → segment_alive s m = true)) ∧
        view m' = <[key := grant_lease (clock m) (clock m + lease_ttl m) o]> (view m)
    | Err e => view m' = view m ∧
        match view m !! key with
        | None => e = ObjectNotFound
        | Some o => (∃ v, e = UnsafeReuse v ∧ reuse_violation_against (obj_identity o) requester = Some v) ∨
            (obj_identity o = requester ∧ e = ObjectNotReady ∧
             ∀ id x, obj_replicas o !! id = Some x → rep_status x = Complete →
               ∃ s, replica_segment_name x = Some s ∧ segment_alive s m = false)
        end
    end.
Proof.
  intros HI%reachable_inv. destruct (get_replica_list_spec key requester m HI) as (r & m' & -> & _ & _ & _ & Hr).
  exists r, m'. split; [done|]. destruct (view m !! key) as [o|] eqn:Hk; [|destruct Hr as [-> ?]; done].
  destruct (reuse_violation_against (obj_identity o) requester) as [v|] eqn:Ev; [destruct Hr as [-> ?]; eauto 10|].
  apply reuse_violation_against_None in Ev.
  assert (∀ x, x ∈ readable_replicas (alive_segments m) o ↔ (∃ id, obj_replicas o !! id = Some x) ∧ rep_status x = Complete ∧
           (∀ s, replica_segment_name x = Some s → segment_alive s m = true)) as Hin.
  { intros x. unfold readable_replicas. rewrite list_elem_of_filter, elem_of_hvalues. unfold readable, is_complete.
    rewrite andb_true_iff, bool_decide_eq_true. destruct (replica_segment_name x) as [s|].
    - rewrite bool_decide_eq_true, alive_spec. naive_solver.
    - naive_solver. }
  cbn zeta in Hr. destruct (decide (readable_replicas (alive_segments m) o = [])) as [Hnil|Hne]; destruct Hr as [-> Hv].
  - split; [done|]. right. split_and!; [done..|]. intros id x Hx Hc. destruct (replica_segment_name x) as [s|] eqn:Es.
    + exists s. split; [done|]. apply not_true_iff_false. intros Ha.
      assert (x ∈ readable_replicas (alive_segments m) o) as Hx' by (apply Hin; split_and!; [eauto|done|naive_solver]).
      rewrite Hnil in Hx'. by apply elem_of_nil in Hx'.
    + assert (x ∈ readable_replicas (alive_segments m) o) as Hx' by (apply Hin; split_and!; [eauto|done|naive_solver]).
      rewrite Hnil in Hx'. by apply elem_of_nil in Hx'.
  - eauto 10.
Qed.

(** C6 Two-phase visibility: after a successful [put_start] the key does not exist for
    readers and a get by the writer is refused as not ready; after [put_end] on that state
    the writer reads back replicas on exactly the buffers that [put_start] returned (when
    their segments are alive), and any other identity is refused. *)
Theorem put_visibility m key identity size config bs m1 :
  reachable m → op_ok (OPutStart key identity size config) m → 0 < replica_num config →
  put_start key identity size config m = Some (Ok bs, m1) →
  (∃ m', get_replica_list key identity m1 = Some (Err ObjectNotReady, m')) ∧
  (∃ m', exist_key key m1 = Some (false, m')) ∧
  ∃ m2, put_end key m1 = Some (Ok tt, m2) ∧
    (∃ m', exist_key key m2 = Some (true, m')) ∧
    (∀ other, other ≠ identity → ∃ v m', get_replica_list key other m2 = Some (Err (UnsafeReuse v), m')) ∧
    ((∀ s, s ∈ names m → segment_alive s m = true) →
     ∃ rs m', get_replica_list key identity m2 = Some (Ok rs, m') ∧ rs ≫= replica_buffers ≡ₚ bs).
Proof.
  intros HI%reachable_inv (Hs & Hn & Hmax) Hpos Hput.
  destruct (put_start_spec key identity size config m HI Hs Hn Hmax) as (r & m1' & Heq & HI1 & Hc1 & Hr).
  rewrite Hput in Heq. injection Heq as <- <-.
  destruct Hr as (_ & Hlen & _ & _ & _ & w & rl & _ & _ & Hv1 & Hp & Hrl & Hall).
  set (o := new_object m identity config rl) in *.
  assert (view m1 !! key = Some o) as Hk1 by (by rewrite Hv1, lookup_insert_eq).
  assert (∀ id r, obj_replicas o !! id = Some r → rep_status r = Initialized) as Hinit.
  { intros id r Hr. destruct (Hrl id r Hr) as (b & _ & ->). done. }
  destruct (bs) as [|b0 bs0] eqn:Ebs; [simpl in Hlen; lia|]. rewrite <- Ebs in *.
  split.
  { destruct (get_replica_list_spec key identity m1 HI1) as (r & m' & -> & _ & _ & _ & Hr). rewrite Hk1 in Hr.
    rewrite (proj2 (reuse_violation_against_None (obj_identity o) identity) eq_refl) in Hr. cbn zeta in Hr.
    rewrite decide_True in Hr; [destruct Hr as [-> _]; eauto|]. apply list_filter_none. intros x Hx.
    apply elem_of_hvalues in Hx as [id Hx]. apply Hinit in Hx. unfold readable, is_complete. by rewrite Hx. }
  split.
  { destruct (exist_key_spec key m1 HI1) as (m' & -> & _). exists m'. do 2 f_equal. unfold complete_at. rewrite Hk1. simpl.
    apply not_true_iff_false. intros (id & r & Hr & Hst)%has_complete_spec. apply Hinit in Hr. congruence. }
  destruct (put_end_spec key m1 HI1) as (r & m2 & -> & HI2 & Hf2 & Hr). rewrite Hk1 in Hr. destruct Hr as (-> & Hv2 & _).
  set (o2 := set_replica_status Complete o) in *.
  assert (view m2 !! key = Some o2) as Hk2 by (by rewrite Hv2, lookup_insert_eq).
  exists m2. split; [done|]. split.
  { destruct (exist_key_spec key m2 HI2) as (m' & -> & _). exists m'. do 2 f_equal. unfold complete_at. rewrite Hk2. simpl.
    apply has_complete_spec. destruct (Hall b0) as [i Hi]; [rewrite Ebs; set_solver|]. exists i, (set_status Complete (replica_new i (Memory b0))).
    split; [|done]. unfold o2. simpl. by rewrite lookup_fmap, Hi. }
  split.
  { intros other Hne. destruct (get_replica_list_spec key other m2 HI2) as (r & m' & -> & _ & _ & _ & Hr). rewrite Hk2 in Hr.
    destruct (reuse_violation_against (obj_identity o2) other) as [v|] eqn:Ev; [destruct Hr as [-> _]; eauto|].
    by apply reuse_violation_against_None in Ev. }
  intros Halive. destruct (get_replica_list_spec key identity m2 HI2) as (r & m' & -> & _ & _ & _ & Hr). rewrite Hk2 in Hr.
  rewrite (proj2 (reuse_violation_against_None (obj_identity o2) identity) eq_refl) in Hr. cbn zeta in Hr.
  assert (readable_replicas (alive_segments m2) o2 = hvalues (obj_replicas o2)) as Hread.
  { apply list_filter_all. intros x [id Hx]%elem_of_hvalues. unfold o2 in Hx. simpl in Hx. rewrite lookup_fmap in Hx.
    destruct (rl !! id) as [r0|] eqn:E; [|done]. injection Hx as <-. destruct (Hrl id r0 E) as (b & Hb & ->). unfold readable. simpl.
    rewrite bool_decide_true; [done|]. apply alive_spec.
    assert (buf_segment_name b ∈ names m) as Hbn.
    { unfold names. rewrite <- (shape_names _ _ (ce_shape _ _ Hc1)). pose proof (mi_ledger _ _ HI1) as Hl. rewrite app_nil_l in Hl.
      destruct (seg_inv_inside _ _ b Hl) as (a & Ha & <- & _); [|by apply list_elem_of_fmap_2].
      apply elem_of_mem_buffers. exists key, o, id, (replica_new id (Memory b)). done. }
    apply Halive in Hbn. unfold segment_alive in *. rewrite (fe_hb _ _ Hf2), (fe_ttl _ _ Hf2), (fe_clock _ _ Hf2).
    destruct Hc1 as [_ -> _ -> -> _]. done. }
  assert (hvalues (obj_replicas o2) ≫= replica_buffers ≡ₚ bs) as Hbs.
  { rewrite hvalues_bufs. unfold o2. simpl. by rewrite rep_bufs_status. }
  rewrite Hread in Hr. destruct (decide (hvalues (obj_replicas o2) = [])) as [Hnil|_].
  { exfalso. rewrite Hnil in Hbs. simpl in Hbs. rewrite Ebs in Hbs. by apply Permutation_nil_cons in Hbs. }
  destruct Hr as [-> _]. eauto.
Qed.

(** ** Eviction *)

(** The victims before position [j] come no later, in the eviction order, than the rest. *)
Lemma victim_prefix_order m j k o k' o' :
  sm_wf (objects m) → view m !! k = Some o → k ∈ take j (victims_coldest_first m) →
  view m !! k' = Some o' → evictable (clock m) o' → k' ∉ take j (victims_coldest_first m) →
  victim_before (k, last_access o, soft_pinned o) (k', last_access o', soft_pinned o') = true.
Proof.
  intros Hwf Hk Hin Hk' He' Hnin. pose proof (victims_sorted m) as Hs. fold (victim_tuples m) in *.
  assert (∀ x, x ∈ victim_tuples m → ∃ ox, view m !! x.1.1 = Some ox ∧ x = (x.1.1, last_access ox, soft_pinned ox)) as Htup.
  { intros [[kx tx] bx]. unfold victim_tuples. rewrite stable_sort_perm. intros (ox & ? & _ & <- & <-)%elem_of_victim_candidates; eauto. }
  assert (k' ∈ victims_coldest_first m) as Hv' by (apply elem_of_victims; eauto).
  assert (victims_coldest_first m = (λ v : string * Z * bool, v.1.1) <$> victim_tuples m) as Hvt by done.
  rewrite <- (take_drop j (victims_coldest_first m)), elem_of_app in Hv'. destruct Hv' as [?|Hd]; [done|].
  rewrite Hvt, <- fmap_take in Hin. rewrite Hvt, <- fmap_drop in Hd.
  apply list_elem_of_fmap in Hin as (x & -> & Hx), Hd as (y & -> & Hy).
  destruct (Htup x) as (ox & Hox & Ex); [rewrite <- (take_drop j (victim_tuples m)); apply elem_of_app; by left|].
  destruct (Htup y) as (oy & Hoy & Ey); [rewrite <- (take_drop j (victim_tuples m)); apply elem_of_app; by right|].
  simplify_eq. rewrite <- Ex, <- Ey. rewrite <- (take_drop j (victim_tuples m)) in Hs.
  clear -Hs Hx Hy. induction (take j (victim_tuples m)) as [|z l IH]; [by apply elem_of_nil in Hx|].
  simpl in Hs. apply StronglySorted_inv in Hs as [Hs Hall]. apply elem_of_cons in Hx as [->|Hx]; [|by apply IH].
  rewrite Forall_forall in Hall. apply Hall. apply elem_of_app. by right.
Qed.

(** Eviction order: a watermark eviction never takes a hard-pinned or leased object;
    what it takes comes before what it leaves, unpinned before soft-pinned and then by
    least recent access; and it stops only when the used bytes are at or below the target
    or no candidate is left (or usage was below the watermark and nothing is taken). *)
Theorem evict_if_needed_order m :
  reachable m →
  ∃ n m', evict_if_needed m = Some (n, m') ∧
    evicts (clock m) (view m) (view m') ∧
    (∀ k o k' o', view m !! k = Some o → view m' !! k = None → view m' !! k' = Some o' → evictable (clock m) o' →
       soft_pinned o = false ∧ soft_pinned o' = true ∨ soft_pinned o = soft_pinned o' ∧ last_access o ≤ last_access o') ∧
    (m' = m ∨ (∀ k o, view m' !! k = Some o → ¬ evictable (clock m) o) ∨
     ∃ cap al, master_capacity m = Some cap ∧ master_allocated m' = Some al ∧ al ≤ evict_target cap m).
Proof.
  intros HI%reachable_inv. destruct (mtotals [] m HI) as (Hc & Ha & _). unfold evict_if_needed, master_capacity. rewrite Hc. cbn [mbind option_bind].
  set (cap := foldr Z.add 0 (capacity <$> allocs m)) in *.
  destruct (cap =? 0); [exists 0, m; split; [done|]; split; [reflexivity|]; split; [intros; congruence|by left]|].
  rewrite Ha. cbn [mbind option_bind].
  destruct (f64_ltb _ _); [exists 0, m; split; [done|]; split; [reflexivity|]; split; [intros; congruence|by left]|].
  destruct (evict_until_spec (below_target (evict_target cap m)) (victims_coldest_first m) 0 [] m) as (n & m' & j & -> & HI' & Hf & Hv & Hj & Hend & _); [|done|].
  { intros m1 HI1 _. unfold below_target. destruct (mtotals [] m1 HI1) as (_ & -> & _). eauto. }
  exists n, m'. split; [done|]. split; [rewrite Hv; apply delete_victims_evicts, HI|]. split.
  - intros k o k' o' Hk Hnone Hk' He'. rewrite Hv, delete_keys_lookup in Hnone, Hk'.
    destruct (decide (k ∈ _)) as [Hin|]; [|congruence]. destruct (decide (k' ∈ _)) as [|Hnin]; [done|].
    pose proof (victim_prefix_order m j k o k' o' (mi_wf _ _ HI) Hk Hin Hk' He' Hnin) as Hb. simpl in Hb.
    destruct (soft_pinned o), (soft_pinned o'); try done; zbool; auto.
  - right. destruct Hend as [->|Hstop]; [left|right].
    + intros k o. rewrite Hv, firstn_all, delete_keys_lookup. case_decide as Hd; [done|]. intros Hk He. apply Hd.
      apply elem_of_victims; [apply HI|eauto].
    + destruct (mtotals [] m' HI') as (_ & Ha' & _). unfold below_target in Hstop. rewrite Ha' in Hstop.
      cbn [mbind option_bind] in Hstop. injection Hstop as Hle. apply Z.leb_le in Hle. unfold master_allocated. rewrite Ha'. eauto.
Qed.

(** C7 Pins and leases protect: whatever a [put_start] of another key needs to evict, an object that is hard-pinned or
    holds an unexpired read lease when the put begins is still there afterwards, unchanged, when no other operation runs
    meanwhile (as under the HTTP server's mutex; a lease granted during the put is not seen by its eviction). *)
Theorem put_preserves_protected m key identity size config r m' k o :
  reachable m → op_ok (OPutStart key identity size config) m →
  put_start key identity size config m = Some (r, m') →
  k ≠ key → view m !! k = Some o → hard_pinned o = true ∨ clock m < lease_until o →
  view m' !! k = Some o.
Proof.
  intros HI%reachable_inv (Hs & Hn & Hmax) Hput Hne Hk Hprot.
  destruct (put_start_spec key identity size config m HI Hs Hn Hmax) as (r' & m1 & Heq & _ & _ & Hr). rewrite Hput in Heq. injection Heq as <- <-.
  assert (¬ evictable (clock m) o) as Hnev by (intros [? ?]; destruct Hprot; [congruence|lia]).
  assert (delete key (view m) !! k = Some o) as Hk' by (by rewrite lookup_delete_ne).
  destruct r as [bs|e].
  - destruct Hr as (_ & _ & _ & _ & _ & w & rl & He & _ & -> & _). rewrite lookup_insert_ne by done. by eapply evicts_keep.
  - destruct Hr as (_ & [(_ & _ & ->)|(_ & _ & He)]); [done|by eapply evicts_keep].
Qed.

(** Removal honours leases: [remove] of a leased object is refused unless forced, and
    otherwise deletes exactly that object and frees its bytes. *)
Theorem remove_honours_lease m key force :
  reachable m →
  ∃ r m', remove key force m = Some (r, m') ∧
    match view m !! key with
    | None => r = Err ObjectNotFound ∧ view m' = view m
    | Some o =>
        if decide (clock m < lease_until o ∧ force = false) then r = Err ObjectNotReady ∧ view m' = view m
        else r = Ok tt ∧ view m' = delete key (view m) ∧
          ∃ a a', master_allocated m = Some a ∧ master_allocated m' = Some a' ∧
            a' = a - sum_sizes (rep_bufs (obj_replicas o))
    end.
Proof.
  intros HI%reachable_inv. destruct (remove_spec key force m HI) as (r & m' & -> & HI' & _ & Hr). exists r, m'. split; [done|].
  destruct (view m !! key) as [o|] eqn:Hk; [|done].
  destruct (Z.ltb_spec (clock m) (lease_until o)) as [Hlt|Hge], force; simpl in Hr; case_decide as Hd; try (exfalso; naive_solver lia); try done.
  all: destruct Hr as [-> Hv]; split; [done|]; split; [done|].
  all: unfold master_allocated; destruct (mtotals [] m HI) as (_ & -> & _); destruct (mtotals [] m' HI') as (_ & -> & _).
  all: eexists _, _; split; [done|]; split; [done|]; rewrite !app_nil_l, Hv.
  all: rewrite (sum_sizes_perm _ _ (mem_buffers_delete _ _ _ Hk)), sum_sizes_app; lia.
Qed.

(** Unmounting drops exactly the lost replicas: every object keeps exactly its replicas
    that do not live on the unmounted segment, and disappears when none is left; the
    segment itself and its bytes are gone. *)
Theorem unmount_drops_exactly m name :
  reachable m → name ∈ names m →
  ∃ m', unmount_segment name m = Some (Ok tt, m') ∧ name ∉ names m' ∧
    (∀ k id r, (∃ o, view m' !! k = Some o ∧ obj_replicas o !! id = Some r) ↔
       (∃ o, view m !! k = Some o ∧ obj_replicas o !! id = Some r ∧ replica_segment_name r ≠ Some name)) ∧
    (∀ k o, view m' !! k = Some o → obj_replicas o ≠ ∅) ∧
    master_allocated m' = Some (sum_sizes (filter (λ b, buf_segment_name b ≠ name) (mem_buffers (view m)))).
Proof.
  intros HI%reachable_inv Hn. destruct (unmount_segment_spec name m HI) as (r & m' & Heq & HI' & _ & _ & Hr).
  rewrite decide_True in Hr by done. destruct Hr as (-> & Hv & Hnm). exists m'. split; [done|]. split; [rewrite Hnm; naive_solver|].
  split; [|split].
  - intros k id x. rewrite Hv, prune_shard_lookup. destruct (view m !! k) as [o|]; [|naive_solver]. case_decide as Hd.
    + split; [naive_solver|]. intros (o' & [= <-] & Hx & Hs). exfalso.
      assert (obj_replicas (drop_replicas name o) !! id = Some x) as Hd' by (simpl; by apply map_lookup_filter_Some).
      rewrite Hd in Hd'. by rewrite lookup_empty in Hd'.
    + split.
      * intros (o' & [= <-] & Hx). simpl in Hx. apply map_lookup_filter_Some in Hx as [? ?]. eauto.
      * intros (o' & [= <-] & Hx & Hs). eexists. split; [done|]. simpl. by apply map_lookup_filter_Some.
  - intros k o. rewrite Hv, prune_shard_lookup. destruct (view m !! k) as [o0|]; [|done]. case_decide; [done|]. by intros [= <-].
  - unfold master_allocated. destruct (mtotals [] m' HI') as (_ & -> & _). f_equal. rewrite app_nil_l, Hv.
    apply sum_sizes_perm, prune_mem_buffers.
Qed.

(** In-place upsert: over a complete, unleased object of the same size the buffers
    returned are exactly the object's own, nothing is allocated or freed, and the object
    becomes unreadable until it is committed again. *)
Theorem upsert_in_place_reuses m key identity size config o :
  reachable m → op_ok (OUpsertStart key identity size config) m →
  view m !! key = Some o → has_complete_replica o = true → lease_until o ≤ clock m →
  (∀ id r, obj_replicas o !! id = Some r → replica_size r = size) →
  ∃ bs m', upsert_start key identity size config m = Some (Ok bs, m') ∧
    bs ≡ₚ rep_bufs (obj_replicas o) ∧ master_allocated m' = master_allocated m ∧
    ∃ m'', get_replica_list key identity m' = Some (Err ObjectNotReady, m'').
Proof.
  intros HI%reachable_inv (Hs & Hn & Hmax) Hk Hc Hle Hsz.
  destruct (upsert_start_spec key identity size config m HI Hs Hn Hmax) as (r & m' & -> & HI' & Hcfg & Hr). rewrite Hk, Hc in Hr.
  destruct (Z.ltb_spec (clock m) (lease_until o)); [lia|].
  assert (from_option replica_size 0 (head (hvalues (obj_replicas o))) = size) as Hsize.
  { apply has_complete_spec in Hc as (id & x & Hx & _). assert (x ∈ hvalues (obj_replicas o)) as Hin by (apply elem_of_hvalues; eauto).
    destruct (hvalues (obj_replicas o)) as [|y l] eqn:E; [by apply elem_of_nil in Hin|]. simpl.
    assert (y ∈ hvalues (obj_replicas o)) as [i Hy]%elem_of_hvalues by (rewrite E; set_solver). eauto. }
  rewrite Hsize, Z.eqb_refl in Hr. destruct Hr as (bs & -> & Hbs & Hv). exists bs, m'. split; [done|]. split; [done|]. split.
  - unfold master_allocated. destruct (mtotals [] m HI) as (_ & -> & _). destruct (mtotals [] m' HI') as (_ & -> & _). f_equal.
    rewrite !app_nil_l, Hv. apply sum_sizes_perm, (mem_buffers_update _ _ o); [done|]. simpl. by rewrite rep_bufs_status.
  - destruct (get_replica_list_spec key identity m' HI') as (r & m'' & -> & _ & _ & _ & Hr). rewrite Hv, lookup_insert_eq in Hr.
    rewrite (proj2 (reuse_violation_against_None (obj_identity (reopened m identity o)) identity) eq_refl) in Hr. cbn zeta in Hr.
    rewrite decide_True in Hr; [destruct Hr as [-> _]; eauto|]. apply list_filter_none. intros x [id Hx]%elem_of_hvalues.
    simpl in Hx. rewrite lookup_fmap in Hx. destruct (obj_replicas o !! id); [|done]. by injection Hx as <-.
Qed.

(** A snapshot restores the master: recovering from the snapshot of any reachable master
    whose segments are below 3.75 GiB succeeds and rebuilds the same objects (replicas,
    identities, leases, pins), clock, parameters, segments and id counter, with the
    allocators holding exactly the recorded bytes. *)
Theorem snapshot_recover_roundtrip m :
  reachable m → recoverable m →
  ∃ m', recover (snapshot m) = Some (Ok m') ∧ reachable m' ∧ view m' = view m ∧ shape (allocs m') = shape (allocs m) ∧
    clock m' = clock m ∧ lease_ttl m' = lease_ttl m ∧ segment_ttl m' = segment_ttl m ∧
    next_replica_id (segments m') = next_replica_id (segments m) ∧ seg_strategy (segments m') = seg_strategy (segments m) ∧
    master_allocated m' = master_allocated m.
Proof.
  intros Hr Hrec. pose proof (reachable_inv m Hr) as HI.
  destruct (recover_spec m HI Hrec) as (m' & Heq & HI' & Hv & Hsh & Hc & Hl & _ & _ & Ht & _ & Hs).
  exists m'. split; [done|]. split; [by eapply reach_recover|]. split_and!; try done; [by rewrite Hs..|].
  unfold master_allocated. destruct (mtotals [] m HI) as (_ & -> & _). destruct (mtotals [] m' HI') as (_ & -> & _). by rewrite Hv.
Qed.
End thms.
