(* ===== verification/MasterExamples.v ===== *)
(** * Concrete runs of the master

    A master with two segments and a committed object, the general properties applied to
    it, and the runs that show what the code does where its operations interleave, repeat
    or evict unfinished puts. *)
From S2P Require Import Prelude F64 BufferAllocator OffsetAllocator Identity ShardedMap CountMin StoreTypes Strategy OpLog Master SegmentLedger MasterInv MasterEvict MasterOps MasterSegments Recovery MasterSteps MasterTheorems.

#[local] Existing Instance canonical_iter.
#[local] Existing Instance length_hash.
#[local] Existing Instance bit_codec.

(** A regex engine for the examples: the literal pattern, matched exactly. *)
Definition literal_regex : RegexEngine := {| regex_new p := Ok (λ k, bool_decide (k = p)) |}.
#[local] Existing Instance literal_regex.

Definition idA : IdentityScope := mkScope "m" "t" None "tenant-a".
Definition idB : IdentityScope := mkScope "m" "t" None "tenant-b".

Definition step_to (op : mop) (m : MasterService) : MasterService := default m (run_mop op m).

Definition d0 : MasterService := master_new "random".
Definition d1 : MasterService := step_to (OMount "s0" 100) d0.
Definition d2 : MasterService := step_to (OMount "s1" 200) d1.
Definition d3 : MasterService := step_to (OPutStart "a" idA 60 (config_replicas 2)) d2.
Definition d4 : MasterService := step_to (OPutEnd "a") d3.
Definition d5 : MasterService := step_to (OGet "a" idA) d4.

Lemma not_in_cases (x : string) (l : list string) : bool_decide (x ∈ l) = false → x ∉ l.
Proof. apply bool_decide_eq_false. Qed.

Lemma d0_reach : reachable d0.
Proof. apply reach_new. Qed.
Lemma d1_reach : reachable d1.
Proof.
  apply (reach_step d0 (OMount "s0" 100)); [apply d0_reach| |vm_compute; reflexivity].
  split; [unfold MAX_SEGMENT; lia|]. split; [apply not_in_cases; reflexivity|]. vm_compute. discriminate.
Qed.
Lemma d2_reach : reachable d2.
Proof.
  apply (reach_step d1 (OMount "s1" 200)); [apply d1_reach| |vm_compute; reflexivity].
  split; [unfold MAX_SEGMENT; lia|]. split; [apply not_in_cases; vm_compute; reflexivity|]. vm_compute. discriminate.
Qed.
Lemma d3_reach : reachable d3.
Proof.
  apply (reach_step d2 (OPutStart "a" idA 60 (config_replicas 2))); [apply d2_reach| |vm_compute; reflexivity].
  split; [lia|]. split; [discriminate|]. vm_compute. discriminate.
Qed.
Lemma d4_reach : reachable d4.
Proof. apply (reach_step d3 (OPutEnd "a")); [apply d3_reach|exact I|vm_compute; reflexivity]. Qed.
Lemma d5_reach : reachable d5.
Proof. apply (reach_step d4 (OGet "a" idA)); [apply d4_reach|exact I|vm_compute; reflexivity]. Qed.

(** ** The properties on these runs *)

Lemma master_never_panics_witness : ∃ m', run_mop (OUpsertStart "a" idA 60 (config_replicas 2)) d4 = Some m' ∧ reachable m'.
Proof.
  apply (master_never_panics d4 (OUpsertStart "a" idA 60 (config_replicas 2))); [exact d4_reach|].
  split; [lia|]. split; [discriminate|]. vm_compute. discriminate.
Defined.

Lemma master_memory_safe_witness : master_allocated d4 = Some (sum_sizes (mem_buffers (view d4))) ∧ master_allocated d4 = Some 120.
Proof.
  split; [|vm_compute; reflexivity]. destruct (master_memory_safe d4) as (_ & _ & E); [exact d4_reach|exact E].
Defined.

Lemma get_guarded_witness : ∃ r m', get_replica_list "a" idB d4 = Some (r, m') ∧ r = Err (UnsafeReuse VTenant).
Proof.
  destruct (get_guarded d4 "a" idB) as (r & m' & E & _); [exact d4_reach|]. exists r, m'. split; [exact E|].
  vm_compute in E. injection E as <- _. reflexivity.
Defined.

Lemma put_visibility_witness :
  ∃ bs m1, put_start "a" idA 60 (config_replicas 2) d2 = Some (Ok bs, m1) ∧
    ∃ m', get_replica_list "a" idA m1 = Some (Err ObjectNotReady, m').
Proof.
  destruct (put_start "a" idA 60 (config_replicas 2) d2) as [[[bs|e] m1]|] eqn:E; [|vm_compute in E; discriminate E..].
  exists bs, m1. split; [reflexivity|].
  destruct (put_visibility d2 "a" idA 60 (config_replicas 2) bs m1) as (Hnr & _).
  - exact d2_reach.
  - split; [lia|]. split; [discriminate|]. vm_compute. discriminate.
  - reflexivity.
  - exact E.
  - exact Hnr.
Defined.

Lemma evict_if_needed_order_witness : ∃ n m', evict_if_needed d4 = Some (n, m') ∧ evicts (clock d4) (view d4) (view m').
Proof.
  destruct (evict_if_needed_order d4) as (n & m' & E & Hev & _); [exact d4_reach|]. exists n, m'. split; [exact E|exact Hev].
Defined.

Lemma put_preserves_protected_witness :
  ∃ o r m', view d5 !! "a"%string = Some o ∧ clock d5 < lease_until o ∧
    put_start "b" idA 60 (config_replicas 2) d5 = Some (r, m') ∧ view m' !! "a"%string = Some o.
Proof.
  destruct (view d5 !! "a"%string) as [o|] eqn:Eo; [|vm_compute in Eo; discriminate Eo].
  assert (clock d5 < lease_until o) as Hl by (vm_compute in Eo; injection Eo as <-; vm_compute; reflexivity).
  destruct (put_start "b" idA 60 (config_replicas 2) d5) as [[r m']|] eqn:E; [|vm_compute in E; discriminate E].
  exists o, r, m'. split; [reflexivity|]. split; [exact Hl|]. split; [reflexivity|].
  apply (put_preserves_protected d5 "b" idA 60 (config_replicas 2) r m' "a" o).
  - exact d5_reach.
  - split; [lia|]. split; [discriminate|]. vm_compute. discriminate.
  - exact E.
  - discriminate.
  - exact Eo.
  - right. exact Hl.
Defined.

Lemma remove_honours_lease_witness : ∃ r m', remove "a" false d5 = Some (r, m') ∧ r = Err ObjectNotReady.
Proof.
  destruct (remove_honours_lease d5 "a" false) as (r & m' & E & _); [exact d5_reach|]. exists r, m'. split; [exact E|].
  vm_compute in E. injection E as <- _. reflexivity.
Defined.

Lemma unmount_drops_exactly_witness : ∃ m', unmount_segment "s0" d4 = Some (Ok tt, m') ∧ "s0"%string ∉ names m'.
Proof.
  destruct (unmount_drops_exactly d4 "s0") as (m' & E & Hn & _).
  - exact d4_reach.
  - apply (bool_decide_eq_true_1 ("s0"%string ∈ names d4)). vm_compute. reflexivity.
  - exists m'. split; [exact E|exact Hn].
Defined.

Lemma upsert_in_place_reuses_witness :
  ∃ o bs m', view d4 !! "a"%string = Some o ∧ upsert_start "a" idB 60 (config_replicas 2) d4 = Some (Ok bs, m') ∧
    bs ≡ₚ rep_bufs (obj_replicas o) ∧ master_allocated m' = master_allocated d4.
Proof.
  destruct (view d4 !! "a"%string) as [o|] eqn:Eo; [|vm_compute in Eo; discriminate Eo].
  destruct (upsert_in_place_reuses d4 "a" idB 60 (config_replicas 2) o) as (bs & m' & E & Hb & Ha & _).
  - exact d4_reach.
  - split; [lia|]. split; [discriminate|]. vm_compute. discriminate.
  - exact Eo.
  - vm_compute in Eo. injection Eo as <-. vm_compute. reflexivity.
  - vm_compute in Eo. injection Eo as <-. vm_compute. discriminate.
  - vm_compute in Eo. injection Eo as <-. apply (map_Forall_to_list (λ _ r, replica_size r = 60)).
    vm_compute. repeat constructor.
  - exists o, bs, m'. split; [reflexivity|]. split; [exact E|]. split; [exact Hb|exact Ha].
Defined.

Lemma d5_recoverable : recoverable d5.
Proof.
  split; [|vm_compute; discriminate].
  apply (bool_decide_eq_true_1 (Forall (λ a : OffsetBufferAllocator, calculate_multiplier (capacity a) = Some 0) (allocs d5))).
  vm_compute. reflexivity.
Qed.

Lemma snapshot_recover_roundtrip_witness : ∃ m', recover (snapshot d5) = Some (Ok m') ∧ view m' = view d5.
Proof.
  destruct (snapshot_recover_roundtrip d5) as (m' & E & _ & Hv & _); [exact d5_reach|exact d5_recoverable|].
  exists m'. split; [exact E|exact Hv].
Defined.

(** ** Unfinished puts can be evicted *)

(** A batch put can hand out the same bytes twice: eviction does not spare puts that have
    started and not ended, so the second item of a batch may evict the first, and
    [batch_put_start] then returns success with two overlapping buffers. *)
Theorem batch_put_start_aliases :
  ∃ m', batch_put_start [("a"%string, idA, 60); ("b"%string, idA, 60)] config_default d1
    = Some (Ok [[mkBuffer "s0" 0 60]; [mkBuffer "s0" 0 60]], m') ∧ view m' !! "a"%string = None.
Proof. eexists. split; vm_compute; reflexivity. Qed.

(** ** Interleavings *)

(** The eviction loop as [evict_if_needed] and [evict_to_fit] run it: the candidates are
    listed under the shard locks, which are released before the objects are removed. *)

Definition e1 : MasterService := step_to (OPutEnd "a") (step_to (OPutStart "a" idA 60 config_default) d1).

(** A lease granted between the listing of the eviction candidates and the removal does
    not protect: a get that succeeds in that window returns replicas whose buffers the
    eviction then frees. *)
Theorem eviction_misses_late_lease :
  victims_coldest_first e1 = ["a"%string] ∧
  ∃ rs m1 o, get_replica_list "a" idA e1 = Some (Ok rs, m1) ∧ view m1 !! "a"%string = Some o ∧ clock m1 < lease_until o ∧
    ∃ m2, evict_until (enough_free 60) (victims_coldest_first e1) 0 m1 = Some (1, m2) ∧ view m2 !! "a"%string = None.
Proof. split; [vm_compute; reflexivity|]. eexists _, _, _. split; [vm_compute; reflexivity|]. split; [vm_compute; reflexivity|].
  split; [vm_compute; reflexivity|]. eexists. split; vm_compute; reflexivity. Qed.

(** An upsert races with a removal: if the object is removed after [upsert_start] has
    inspected it and before it reopens it in place, the [expect] on its presence panics. *)
Theorem upsert_start_race_panics :
  ∃ seen m1 m2, upsert_inspect "a" e1 = Some (seen, m1) ∧ remove "a" false m1 = Some (Ok tt, m2) ∧
    upsert_act seen (clock e1) "a" idA 60 config_default m2 = None.
Proof. eexists _, _, _. split; [vm_compute; reflexivity|]. split; vm_compute; reflexivity. Qed.

(** ** The operation log and upserts *)

Definition logged : MasterService := enable_oplog None d0.
Definition l1 : MasterService := step_to (OPutEnd "a") (step_to (OPutStart "a" idA 60 config_default) (step_to (OMount "s0" 100) logged)).
Definition l2 : MasterService := step_to (OPutEnd "a") (step_to (OUpsertStart "a" idA 60 config_default) l1).

(** A log with an in-place upsert cannot be replayed: the upsert commits the same
    buffers a second time, replay tries to reserve them again and stops with
    [InvalidReplica], although the log before the upsert replays to the same objects. *)
Theorem oplog_replay_fails_after_upsert :
  (∃ m, recover_from_oplog "random" (oplog l1) = Some (Ok m) ∧ map_to_list (view m) = map_to_list (view l1)) ∧
  recover_from_oplog "random" (oplog l2) = Some (Err InvalidReplica).
Proof. split; [eexists; split|]; vm_compute; reflexivity. Qed.

(** ** Large segments *)

Definition big : MasterService := step_to (OPutEnd "a") (step_to (OPutStart "a" idA 4096 config_default) (step_to (OMount "s" 4294967296) d0)).

(** A snapshot with a segment of 3.75 GiB or more is not recoverable: its allocator
    scales sizes, [reserve_exact] refuses scaled segments, and recovery of any memory
    replica there fails with [InvalidReplica]. *)
Theorem recover_fails_on_large_segment :
  (∃ o, view big !! "a"%string = Some o ∧ has_complete_replica o = true) ∧
  recover (snapshot big) = Some (Err InvalidReplica).
Proof. split; [eexists; split|]; vm_compute; reflexivity. Qed.
