(* ===== verification/MemIndex.v ===== *)
(** * The residency index

    The [IndexBackend] trait of crates/quillcache-core/src/lib.rs and its in-memory
    implementation [MemoryIndex]: a map from block identity to residencies with two reverse
    indexes, by (identity scope, block hash) and by block hash alone.  A [HashSet] is a map
    to [unit].  The counters are [u64]; their overflow is a panic ([None]). *)
From S2P Require Import Prelude Identity.

Notation HashSet K := (gmap K unit).

(** [IndexMetrics]. *)
Record IndexMetrics : Type := mkIndexMetrics {
  im_resident_blocks : Z;
  im_resident_bytes : Z;
  im_puts : Z;
  im_removes : Z;
  im_prefix_scans : Z;
  im_bytes_written : Z
}.

(** The trait: operations, with the default method the in-memory backend overrides. *)
Class IndexBackend (B : Type) : Type := {
  ix_put : CacheResidency → B → option B;
  ix_locate : KvBlockKey → B → list CacheResidency;
  ix_prefix_scan : IdentityScope → string → B → list CacheResidency;
  ix_remove_block : IdentityScope → string → string → B → option (Z * B);
  ix_clear_worker : string → B → B;
  ix_clear : B → B;
  ix_snapshot : B → list CacheResidency;
  ix_residency_by_content_hash : string → B → list CacheResidency;
  ix_len : B → Z
}.

(** The default of [residency_by_content_hash]: a scan of the snapshot. *)
Definition scan_by_content_hash `{IndexBackend B} (block_hash0 : string) (b : B) : list CacheResidency :=
  filter (λ r, block_hash (res_key r) = block_hash0) (ix_snapshot b).

Record MemoryIndex : Type := mkMemIndex {
  entries : gmap KvBlockKey (list CacheResidency);
  by_hash : gmap (IdentityScope * string) (HashSet KvBlockKey);
  by_content_hash : gmap string (HashSet KvBlockKey);
  puts : Z;
  removes : Z
}.

Definition mi_new : MemoryIndex := mkMemIndex ∅ ∅ ∅ 0 0.

(** Insert into, or delete from, the set stored under a key; an emptied set is dropped. *)
Definition set_add {J : Type} `{Countable J} (i : J) (k : KvBlockKey) (m : gmap J (HashSet KvBlockKey)) : gmap J (HashSet KvBlockKey) :=
  <[i := <[k := tt]> (default ∅ (m !! i))]> m.
Definition set_forget {J : Type} `{Countable J} (i : J) (k : KvBlockKey) (m : gmap J (HashSet KvBlockKey)) : gmap J (HashSet KvBlockKey) :=
  match m !! i with
  | None => m
  | Some s => if decide (delete k s = ∅) then delete i m else <[i := delete k s]> m
  end.

Definition forget_content_hash (key : KvBlockKey) (m : MemoryIndex) : MemoryIndex :=
  mkMemIndex (entries m) (by_hash m) (set_forget (block_hash key) key (by_content_hash m)) (puts m) (removes m).

(** Same worker and tier: the record a put replaces. *)
Definition same_slot (a b : CacheResidency) : bool :=
  bool_decide (res_worker_id a = res_worker_id b) && bool_decide (res_tier a = res_tier b).

Definition put_list (r : CacheResidency) (l : list CacheResidency) : list CacheResidency :=
  filter (λ e, same_slot e r = false) l ++ [r].

Definition mi_put (r : CacheResidency) (m : MemoryIndex) : option MemoryIndex :=
  let key := res_key r in
  let ents := <[key := put_list r (default [] (entries m !! key))]> (entries m) in
  let bh := set_add (from_key key, block_hash key) key (by_hash m) in
  let bc := set_add (block_hash key) key (by_content_hash m) in
  p ← u64_add (puts m) 1;
  Some (mkMemIndex ents bh bc p (removes m)).

Definition mi_locate (key : KvBlockKey) (m : MemoryIndex) : list CacheResidency := default [] (entries m !! key).

Section index.
Context `{HashIter}.
Implicit Types m : MemoryIndex.

Definition mi_prefix_scan (scope : IdentityScope) (prefix : string) m : list CacheResidency :=
  filter (λ ke : KvBlockKey * list CacheResidency, scope_matches scope ke.1 = true ∧ prefix_hash ke.1 = prefix) (hiter (entries m)) ≫= snd.

Definition without_worker (worker : string) (l : list CacheResidency) : list CacheResidency :=
  filter (λ e, res_worker_id e ≠ worker) l.

(** The loop over the candidates: entries, number removed, emptied keys. *)
Fixpoint remove_loop (worker : string) (cands : list KvBlockKey) (ents : gmap KvBlockKey (list CacheResidency))
    (removed : Z) (emptied : list KvBlockKey) : gmap KvBlockKey (list CacheResidency) * Z * list KvBlockKey :=
  match cands with
  | [] => (ents, removed, emptied)
  | key :: cands' =>
      match ents !! key with
      | None => remove_loop worker cands' ents removed emptied
      | Some l =>
          let l' := without_worker worker l in
          let removed' := removed + (Z.of_nat (length l) - Z.of_nat (length l')) in
          if bool_decide (l' = []) then remove_loop worker cands' (delete key ents) removed' (emptied ++ [key])
          else remove_loop worker cands' (<[key := l']> ents) removed' emptied
      end
  end.

(** Drop the emptied keys from one set of [by_hash] in a batch. *)
Definition forget_batch (mk : IdentityScope * string) (emptied : list KvBlockKey)
    (bh : gmap (IdentityScope * string) (HashSet KvBlockKey)) : gmap (IdentityScope * string) (HashSet KvBlockKey) :=
  match bh !! mk with
  | None => bh
  | Some s => let s' := foldl (λ s k, delete k s) s emptied in
              if decide (s' = ∅) then delete mk bh else <[mk := s']> bh
  end.

Definition mi_remove_block (scope : IdentityScope) (worker hash : string) m : option (Z * MemoryIndex) :=
  let mk := (scope, hash) in
  match by_hash m !! mk with
  | None => Some (0, m)
  | Some keys =>
      let '(ents, removed, emptied) := remove_loop worker (hkeys keys) (entries m) 0 [] in
      let m1 := mkMemIndex ents (by_hash m) (by_content_hash m) (puts m) (removes m) in
      let m2 := if bool_decide (emptied = []) then m1
                else foldl (λ m k, forget_content_hash k m)
                       (mkMemIndex ents (forget_batch mk emptied (by_hash m)) (by_content_hash m) (puts m) (removes m)) emptied in
      rm ← u64_add (removes m2) removed;
      Some (removed, mkMemIndex (entries m2) (by_hash m2) (by_content_hash m2) (puts m2) rm)
  end.

(** One emptied key of [clear_worker]: both reverse indexes. *)
Definition forget_key (key : KvBlockKey) m : MemoryIndex :=
  forget_content_hash key
    (mkMemIndex (entries m) (set_forget (from_key key, block_hash key) key (by_hash m)) (by_content_hash m) (puts m) (removes m)).

Definition mi_clear_worker (worker : string) m : MemoryIndex :=
  let emptied := (filter (λ ke : KvBlockKey * list CacheResidency, without_worker worker ke.2 = []) (hiter (entries m))).*1 in
  let ents := filter (λ ke : KvBlockKey * list CacheResidency, ke.2 ≠ []) (without_worker worker <$> entries m) in
  foldl (λ m k, forget_key k m) (mkMemIndex ents (by_hash m) (by_content_hash m) (puts m) (removes m)) emptied.

Definition mi_clear m : MemoryIndex := mkMemIndex ∅ ∅ ∅ (puts m) (removes m).

Definition mi_snapshot m : list CacheResidency := hvalues (entries m) ≫= id.

Definition mi_residency_by_content_hash (hash : string) m : list CacheResidency :=
  match by_content_hash m !! hash with
  | None => []
  | Some keys => omap (λ key, entries m !! key) (hkeys keys) ≫= id
  end.

Definition mi_len m : Z := foldr Z.add 0 ((λ l, Z.of_nat (length l)) <$> hvalues (entries m)).

Definition mi_metrics m : option IndexMetrics :=
  bytes ← u64_sum (res_bytes <$> mi_snapshot m);
  Some (mkIndexMetrics (mi_len m) bytes (puts m) (removes m) 0 0).

#[global] Instance mi_backend : IndexBackend MemoryIndex := {|
  ix_put := mi_put; ix_locate := mi_locate; ix_prefix_scan := mi_prefix_scan; ix_remove_block := mi_remove_block;
  ix_clear_worker := mi_clear_worker; ix_clear := mi_clear; ix_snapshot := mi_snapshot;
  ix_residency_by_content_hash := mi_residency_by_content_hash; ix_len := mi_len |}.
End index.
