(* ===== verification/MemIndexProofs.v ===== *)
(** * The residency index: reverse indexes are exact

    The invariant of [MemoryIndex] (the reverse indexes hold exactly the keys of the
    entries), kept by every operation, and the theorems it gives: removal by hash is
    removal by scan, and the content-hash seek of the reuse guard returns what the default
    full scan returns. *)
From S2P Require Import Prelude Identity MemIndex.

(** ** Maps of sets *)

Section sets.
Context {J : Type} `{Countable J}.
Implicit Types M : gmap J (HashSet KvBlockKey).

Definition in_idx M (i : J) (k : KvBlockKey) : Prop := ∃ s, M !! i = Some s ∧ is_Some (s !! k).
Definition no_empty M : Prop := map_Forall (λ _ s, s ≠ ∅) M.

Lemma set_add_in M i k i' k' : in_idx (set_add i k M) i' k' ↔ in_idx M i' k' ∨ i' = i ∧ k' = k.
Proof.
  unfold in_idx, set_add. destruct (decide (i = i')) as [<-|Hi].
  - rewrite lookup_insert_eq. split.
    + intros (s & [= <-] & Hs). rewrite lookup_insert_is_Some' in Hs. destruct Hs as [<-|Hs]; [by right|left].
      destruct (M !! i) as [s|]; simpl in Hs; [eauto|]. by rewrite lookup_empty in Hs; destruct Hs.
    + intros [(s & Hs & Hk)|[_ ->]]; eexists; (split; [done|]); rewrite lookup_insert_is_Some'; [right|by left]. by rewrite Hs.
  - rewrite lookup_insert_ne by done. naive_solver.
Qed.

Lemma set_add_no_empty M i k : no_empty M → no_empty (set_add i k M).
Proof. intros HM. apply map_Forall_insert_2; [|done]. apply insert_non_empty. Qed.

(** Replacing the set at [i] by a smaller one, dropped when empty. *)
Definition shrink M (i : J) (s : HashSet KvBlockKey) : gmap J (HashSet KvBlockKey) :=
  if decide (s = ∅) then delete i M else <[i := s]> M.

Lemma shrink_in M i s i' k' : in_idx (shrink M i s) i' k' ↔ if decide (i' = i) then is_Some (s !! k') else in_idx M i' k'.
Proof.
  unfold in_idx, shrink. case_decide as Hs; case_decide as Hi.
  - subst. rewrite lookup_delete_eq, lookup_empty. split; [naive_solver|]. by intros [? ?].
  - by rewrite lookup_delete_ne.
  - subst. rewrite lookup_insert_eq. naive_solver.
  - by rewrite lookup_insert_ne.
Qed.

Lemma shrink_no_empty M i s : no_empty M → no_empty (shrink M i s).
Proof. intros HM. unfold shrink. case_decide; [by apply map_Forall_delete|by apply map_Forall_insert_2]. Qed.

Lemma set_forget_in M i k i' k' : in_idx (set_forget i k M) i' k' ↔ in_idx M i' k' ∧ ¬ (i' = i ∧ k' = k).
Proof.
  unfold set_forget. destruct (M !! i) as [s|] eqn:E.
  - change (if decide (delete k s = ∅) then delete i M else <[i:=delete k s]> M) with (shrink M i (delete k s)).
    rewrite shrink_in. case_decide as Hi; [|naive_solver]. subst. rewrite lookup_delete_is_Some. unfold in_idx. rewrite E. naive_solver.
  - unfold in_idx. split; [|naive_solver]. intros (s & Hs & Hk). split; [eauto|]. intros [-> ->]. congruence.
Qed.

Lemma set_forget_no_empty M i k : no_empty M → no_empty (set_forget i k M).
Proof. intros HM. unfold set_forget. destruct (M !! i); [|done]. by apply shrink_no_empty. Qed.

Lemma foldl_delete_lookup (es : list KvBlockKey) (s : HashSet KvBlockKey) k :
  is_Some (foldl (λ s k, delete k s) s es !! k) ↔ is_Some (s !! k) ∧ k ∉ es.
Proof.
  revert s. induction es as [|e es IH]; intros s; simpl; [split; [intros; split; [done|apply not_elem_of_nil]|tauto]|].
  rewrite IH, lookup_delete_is_Some, not_elem_of_cons. naive_solver.
Qed.
End sets.

Lemma forget_batch_in mk es M i k : in_idx (forget_batch mk es M) i k ↔ in_idx M i k ∧ ¬ (i = mk ∧ k ∈ es).
Proof.
  unfold forget_batch. destruct (M !! mk) as [s|] eqn:E.
  - cbn zeta. change (if decide (foldl (λ s k, delete k s) s es = ∅) then delete mk M else <[mk:=foldl (λ s k, delete k s) s es]> M)
      with (shrink M mk (foldl (λ s k, delete k s) s es)).
    rewrite shrink_in. case_decide as Hi; [|naive_solver]. subst. rewrite foldl_delete_lookup. unfold in_idx. rewrite E. naive_solver.
  - unfold in_idx. split; [|naive_solver]. intros (s & Hs & Hk). split; [eauto|]. intros [-> _]. congruence.
Qed.

Lemma forget_batch_no_empty mk es M : no_empty M → no_empty (forget_batch mk es M).
Proof. intros HM. unfold forget_batch. destruct (M !! mk); [|done]. by apply shrink_no_empty. Qed.

(** ** The invariant *)

Definition slot_of (r : CacheResidency) : string * CacheTier := (res_worker_id r, res_tier r).

Record mi_inv (m : MemoryIndex) : Prop := {
  iv_hash : ∀ sc h k, in_idx (by_hash m) (sc, h) k ↔ is_Some (entries m !! k) ∧ from_key k = sc ∧ block_hash k = h;
  iv_content : ∀ h k, in_idx (by_content_hash m) h k ↔ is_Some (entries m !! k) ∧ block_hash k = h;
  iv_hash_ne : no_empty (by_hash m);
  iv_content_ne : no_empty (by_content_hash m);
  iv_entries : ∀ k l, entries m !! k = Some l → l ≠ [] ∧ Forall (λ r, res_key r = k) l ∧ NoDup (slot_of <$> l)
}.

Lemma mi_new_inv : mi_inv mi_new.
Proof.
  constructor; simpl.
  - intros sc h k. unfold in_idx. setoid_rewrite lookup_empty. split; [naive_solver|]. by intros [[? ?] _].
  - intros h k. unfold in_idx. setoid_rewrite lookup_empty. split; [naive_solver|]. by intros [[? ?] _].
  - apply map_Forall_empty.
  - apply map_Forall_empty.
  - intros k l. by rewrite lookup_empty.
Qed.

Lemma same_slot_spec a b : same_slot a b = true ↔ slot_of a = slot_of b.
Proof.
  unfold same_slot, slot_of. rewrite andb_true_iff, !bool_decide_eq_true. split; [by intros [-> ->]|by intros [= -> ->]].
Qed.

Lemma put_list_ok k r l :
  res_key r = k → Forall (λ r, res_key r = k) l → NoDup (slot_of <$> l) →
  put_list r l ≠ [] ∧ Forall (λ r, res_key r = k) (put_list r l) ∧ NoDup (slot_of <$> put_list r l).
Proof.
  intros Hr Hl Hnd. unfold put_list. split; [by destruct (filter _ l)|]. split.
  - apply Forall_app. split; [apply Forall_forall; intros x [_ Hx]%list_elem_of_filter; by eapply Forall_forall in Hl|by repeat constructor].
  - rewrite fmap_app. apply NoDup_app. split_and!; [by apply NoDup_fmap_filter| |apply NoDup_singleton].
    intros x (e & -> & He)%list_elem_of_fmap Hx. apply list_elem_of_filter in He as [He _].
    simpl in Hx. apply list_elem_of_singleton in Hx. apply same_slot_spec in Hx. congruence.
Qed.

Lemma mi_put_spec r m :
  mi_inv m → puts m + 1 ≤ u64_max →
  ∃ m', mi_put r m = Some m' ∧ mi_inv m' ∧ puts m' = puts m + 1 ∧ removes m' = removes m ∧
    entries m' = <[res_key r := put_list r (mi_locate (res_key r) m)]> (entries m).
Proof.
  intros [Hh Hc Hhn Hcn He] Hmax. unfold mi_put. rewrite u64_add_ok by done. cbn [mbind option_bind].
  eexists. split; [done|]. split; [|done].
  assert (∀ k, is_Some (<[res_key r := put_list r (default [] (entries m !! res_key r))]> (entries m) !! k) ↔ is_Some (entries m !! k) ∨ k = res_key r) as Hdom.
  { intros k. rewrite lookup_insert_is_Some'. naive_solver. }
  constructor; simpl.
  - intros sc h k. rewrite set_add_in, Hh, Hdom. split; [intros [?|[[= -> ->] ->]]; tauto|]. intros ([?| ->] & <- & <-); [tauto|by right].
  - intros h k. rewrite set_add_in, Hc, Hdom. split; [intros [?|[-> ->]]; tauto|]. intros ([?| ->] & <-); [tauto|by right].
  - by apply set_add_no_empty.
  - by apply set_add_no_empty.
  - intros k l [[<- <-]|[_ Hl]]%lookup_insert_Some; [|by apply He].
    destruct (entries m !! res_key r) as [l|] eqn:E; simpl.
    + destruct (He _ _ E) as (_ & ? & ?). by apply put_list_ok.
    + apply put_list_ok; [done|constructor|constructor].
Qed.

(** ** Removing a worker's records *)

Lemma without_worker_spec w l r : r ∈ without_worker w l ↔ r ∈ l ∧ res_worker_id r ≠ w.
Proof. unfold without_worker. rewrite list_elem_of_filter. tauto. Qed.

(** The entries after dropping worker [w] from the keys satisfying [P]. *)
Definition dropped (w : string) (P : KvBlockKey → bool) (ents : gmap KvBlockKey (list CacheResidency)) (k : KvBlockKey) :
    option (list CacheResidency) :=
  match ents !! k with
  | Some l => if P k then let l' := without_worker w l in if bool_decide (l' = []) then None else Some l' else Some l
  | None => None
  end.

Definition removed_count (w : string) (l : list CacheResidency) : Z :=
  Z.of_nat (length l) - Z.of_nat (length (without_worker w l)).

Lemma remove_loop_spec w cands ents n es :
  NoDup cands →
  ∃ ents' es', remove_loop w cands ents n es =
      (ents', n + foldr Z.add 0 ((λ k, removed_count w (default [] (ents !! k))) <$> cands), es ++ es') ∧
    (∀ k, ents' !! k = dropped w (λ k, bool_decide (k ∈ cands)) ents k) ∧
    (∀ k, k ∈ es' ↔ is_Some (ents !! k) ∧ ents' !! k = None).
Proof.
  revert ents n es. induction cands as [|key cands IH]; intros ents n es Hnd.
  { exists ents, []. simpl. rewrite Z.add_0_r, app_nil_r. split; [done|]. split.
    - intros k. unfold dropped. by destruct (ents !! k).
    - intros k. rewrite elem_of_nil. split; [done|]. intros [[? ?] ?]. congruence. }
  apply NoDup_cons in Hnd as [Hk Hnd]. cbn [remove_loop]. rewrite fmap_cons. cbn [foldr].
  assert (∀ f, (∀ k, k ≠ key → f k = ents !! k) → 
    (λ k, removed_count w (default [] (ents !! k))) <$> cands = (λ k, removed_count w (default [] (f k))) <$> cands) as Hsame.
  { intros f Hf. apply list_fmap_ext. intros i k Hi. rewrite Hf; [done|]. intros ->. apply Hk. by eapply list_elem_of_lookup_2. }
  assert (∀ k, bool_decide (k ∈ key :: cands) = bool_decide (k = key) || bool_decide (k ∈ cands)) as Hbd.
  { intros k. apply eq_true_iff_eq. rewrite orb_true_iff, !bool_decide_eq_true, elem_of_cons. done. }
  destruct (ents !! key) as [l|] eqn:El.
  2: { destruct (IH ents n es Hnd) as (ents' & es' & -> & Hl & He). exists ents', es'. split; [do 2 f_equal; unfold removed_count; cbn [default length without_worker filter list_filter]; lia|].
       split; [|done]. intros k. rewrite Hl. unfold dropped. destruct (decide (k = key)) as [->|]; [by rewrite El|].
       destruct (ents !! k); [|done]. by rewrite Hbd, (bool_decide_false (k = key)). }
  cbn zeta. destruct (bool_decide (without_worker w l = [])) eqn:Ew.
  - destruct (IH (delete key ents) (n + (Z.of_nat (length l) - Z.of_nat (length (without_worker w l)))) (es ++ [key]) Hnd) as (ents' & es' & -> & Hl & He).
    exists ents', (key :: es'). split.
    { rewrite <- app_assoc. rewrite (Hsame (λ k, delete key ents !! k)) by (intros; by rewrite lookup_delete_ne).
      do 2 f_equal. change (removed_count w (default [] (Some l))) with (Z.of_nat (length l) - Z.of_nat (length (without_worker w l))). lia. }
    split.
    + intros k. rewrite Hl. unfold dropped. destruct (decide (k = key)) as [->|Hne].
      * rewrite lookup_delete_eq, El, Hbd, (bool_decide_true (key = key)) by done. simpl. by rewrite Ew.
      * rewrite lookup_delete_ne by done. destruct (ents !! k); [|done]. by rewrite Hbd, (bool_decide_false (k = key)).
    + intros k. rewrite elem_of_cons, He. destruct (decide (k = key)) as [->|Hne].
      * split; [intros _|by left]. split; [by rewrite El|]. rewrite Hl. unfold dropped. by rewrite lookup_delete_eq.
      * rewrite lookup_delete_ne by done. tauto.
  - destruct (IH (<[key := without_worker w l]> ents) (n + (Z.of_nat (length l) - Z.of_nat (length (without_worker w l)))) es Hnd) as (ents' & es' & -> & Hl & He).
    exists ents', es'. split.
    { rewrite (Hsame (λ k, <[key := without_worker w l]> ents !! k)) by (intros; by rewrite lookup_insert_ne).
      do 2 f_equal. change (removed_count w (default [] (Some l))) with (Z.of_nat (length l) - Z.of_nat (length (without_worker w l))). lia. }
    split.
    + intros k. rewrite Hl. unfold dropped. destruct (decide (k = key)) as [->|Hne].
      * rewrite lookup_insert_eq, El, Hbd, (bool_decide_true (key = key)) by done. simpl. rewrite Ew. by rewrite bool_decide_false.
      * rewrite lookup_insert_ne by done. destruct (ents !! k); [|done]. by rewrite Hbd, (bool_decide_false (k = key)).
    + intros k. rewrite He. destruct (decide (k = key)) as [->|Hne]; [|by rewrite lookup_insert_ne].
      rewrite lookup_insert_eq, El. split; intros [_ ?]; split; eauto.
Qed.

(** ** Forgetting emptied keys *)

Lemma forget_content_fold es m :
  let m' := foldl (λ m k, forget_content_hash k m) m es in
  entries m' = entries m ∧ by_hash m' = by_hash m ∧ puts m' = puts m ∧ removes m' = removes m ∧
  (no_empty (by_content_hash m) → no_empty (by_content_hash m')) ∧
  ∀ h k, in_idx (by_content_hash m') h k ↔ in_idx (by_content_hash m) h k ∧ ¬ (block_hash k = h ∧ k ∈ es).
Proof.
  revert m. induction es as [|e es IH]; intros m; simpl.
  { split_and!; try done. intros h k. rewrite elem_of_nil. tauto. }
  destruct (IH (forget_content_hash e m)) as (-> & -> & -> & -> & Hne & Hin). split_and!; try done.
  - intros Hm. apply Hne. by apply set_forget_no_empty.
  - intros h k. rewrite Hin. simpl. rewrite set_forget_in, elem_of_cons. naive_solver.
Qed.

Lemma forget_key_fold es m :
  let m' := foldl (λ m k, forget_key k m) m es in
  entries m' = entries m ∧ puts m' = puts m ∧ removes m' = removes m ∧
  (no_empty (by_content_hash m) → no_empty (by_content_hash m')) ∧
  (no_empty (by_hash m) → no_empty (by_hash m')) ∧
  (∀ h k, in_idx (by_content_hash m') h k ↔ in_idx (by_content_hash m) h k ∧ ¬ (block_hash k = h ∧ k ∈ es)) ∧
  ∀ sc h k, in_idx (by_hash m') (sc, h) k ↔ in_idx (by_hash m) (sc, h) k ∧ ¬ ((from_key k, block_hash k) = (sc, h) ∧ k ∈ es).
Proof.
  revert m. induction es as [|e es IH]; intros m; simpl.
  { split_and!; try done; intros; rewrite elem_of_nil; tauto. }
  destruct (IH (forget_key e m)) as (-> & -> & -> & Hne & Hneh & Hin & Hinh). split_and!; try done.
  - intros Hm. apply Hne. by apply set_forget_no_empty.
  - intros Hm. apply Hneh. by apply set_forget_no_empty.
  - intros h k. rewrite Hin. simpl. rewrite set_forget_in, elem_of_cons. naive_solver.
  - intros sc h k. rewrite Hinh. simpl. rewrite set_forget_in, elem_of_cons. naive_solver.
Qed.

(** The invariant after entries were dropped and their emptied keys forgotten. *)
Lemma dropped_inv w P m m' (es : list KvBlockKey) :
  mi_inv m → (∀ k, entries m' !! k = dropped w P (entries m) k) →
  (∀ k, k ∈ es ↔ is_Some (entries m !! k) ∧ entries m' !! k = None) →
  (∀ sc h k, in_idx (by_hash m') (sc, h) k ↔ in_idx (by_hash m) (sc, h) k ∧ ¬ ((from_key k, block_hash k) = (sc, h) ∧ k ∈ es)) →
  (∀ h k, in_idx (by_content_hash m') h k ↔ in_idx (by_content_hash m) h k ∧ ¬ (block_hash k = h ∧ k ∈ es)) →
  no_empty (by_hash m') → no_empty (by_content_hash m') → mi_inv m'.
Proof.
  intros [Hh Hc _ _ He] Hent Hes Hh' Hc' Hn1 Hn2.
  assert (∀ k, is_Some (entries m' !! k) ↔ is_Some (entries m !! k) ∧ k ∉ es) as Hdom.
  { intros k. rewrite Hes, Hent. unfold dropped. destruct (entries m !! k) as [l|] eqn:E; [|by split; [intros [? ?]|tauto]].
    destruct (P k); [|naive_solver]. cbn zeta. case_bool_decide.
    - split; [by intros [? ?]|]. intros [_ Hn]. destruct Hn. naive_solver.
    - split; [|naive_solver]. intros _. split; [eauto|]. by intros [_ ?]. }
  constructor; [| |done|done|].
  - intros sc h k. rewrite Hh', Hh, Hdom. naive_solver.
  - intros h k. rewrite Hc', Hc, Hdom. naive_solver.
  - intros k l. rewrite Hent. unfold dropped. destruct (entries m !! k) as [l0|] eqn:E; [|done]. destruct (He k l0 E) as (Hne & Hk & Hnd).
    destruct (P k); cbn zeta; [case_bool_decide as Hw; [done|]|]; intros [= <-]; [|done]. split_and!; [done| |].
    + apply Forall_forall. intros r [Hr _]%without_worker_spec. by eapply Forall_forall in Hk.
    + by apply NoDup_fmap_filter.
Qed.

Section remove.
Context `{HashIter}.
Implicit Types m : MemoryIndex.

(** The keys a removal looks at: those of the scope and hash. *)
Definition targets (scope : IdentityScope) (hash : string) (k : KvBlockKey) : bool :=
  bool_decide (from_key k = scope ∧ block_hash k = hash).

Lemma candidates_targets scope hash keys m :
  mi_inv m → by_hash m !! (scope, hash) = Some keys →
  ∀ k, is_Some (entries m !! k) → bool_decide (k ∈ hkeys keys) = targets scope hash k.
Proof.
  intros HI Hk k Hdom. unfold targets. apply bool_decide_ext. rewrite elem_of_hkeys.
  pose proof (iv_hash _ HI scope hash k) as Hi. unfold in_idx in Hi. rewrite Hk in Hi. naive_solver.
Qed.

Lemma dropped_ext w P Q ents k : (is_Some (ents !! k) → P k = Q k) → dropped w P ents k = dropped w Q ents k.
Proof. intros HP. unfold dropped. destruct (ents !! k); [|done]. by rewrite HP by eauto. Qed.

Definition block_count (scope : IdentityScope) (w hash : string) m : Z :=
  foldr Z.add 0 ((λ kl : KvBlockKey * list CacheResidency,
    if targets scope hash kl.1 then removed_count w kl.2 else 0) <$> map_to_list (entries m)).

Lemma removed_count_bounds w l : 0 ≤ removed_count w l ≤ Z.of_nat (length l).
Proof. unfold removed_count, without_worker. pose proof (length_filter (λ e, res_worker_id e ≠ w) l). lia. Qed.

(** Summing over the candidate keys is summing over all entries that match. *)
Lemma candidates_sum scope w hash keys m :
  mi_inv m → by_hash m !! (scope, hash) = Some keys →
  foldr Z.add 0 ((λ k, removed_count w (default [] (entries m !! k))) <$> hkeys keys) = block_count scope w hash m.
Proof.
  intros HI Hk. unfold block_count.
  assert (hkeys keys ≡ₚ (filter (λ kl, targets scope hash kl.1 = true) (map_to_list (entries m))).*1) as Hp.
  { apply NoDup_Permutation; [apply NoDup_hkeys|apply NoDup_fmap_filter, NoDup_fst_map_to_list|]. intros k. rewrite elem_of_hkeys, list_elem_of_fmap.
    pose proof (iv_hash _ HI scope hash k) as Hi. unfold in_idx in Hi. rewrite Hk in Hi. split.
    - intros Hs. destruct (proj1 Hi) as ([l Hl] & Hsc & Hha); [eauto|]. exists (k, l). split; [done|]. apply list_elem_of_filter. split; [|by apply elem_of_map_to_list].
      unfold targets. by rewrite bool_decide_true.
    - intros ([k' l] & -> & Hin). apply list_elem_of_filter in Hin as [Ht Hin%elem_of_map_to_list]. simpl in *. unfold targets in Ht. apply bool_decide_eq_true in Ht.
      destruct (proj2 Hi) as (s & [= <-] & Hs); [split; [eauto|tauto]|done]. }
  transitivity (foldr Z.add 0 ((λ k, removed_count w (default [] (entries m !! k))) <$> (filter (λ kl, targets scope hash kl.1 = true) (map_to_list (entries m))).*1)).
  { apply foldr_add_perm. by rewrite Hp. }
  assert (∀ l, (∀ k v, (k, v) ∈ l → entries m !! k = Some v) →
    foldr Z.add 0 ((λ k, removed_count w (default [] (entries m !! k))) <$> (filter (λ kl : KvBlockKey * list CacheResidency, targets scope hash kl.1 = true) l).*1) =
    foldr Z.add 0 ((λ kl : KvBlockKey * list CacheResidency, if targets scope hash kl.1 then removed_count w kl.2 else 0) <$> l)) as Hl.
  { induction l as [|[k v] l IH]; intros Hin; [done|]. rewrite filter_cons, fmap_cons. cbn [fst snd foldr].
    destruct (targets scope hash k) eqn:Et.
    - rewrite decide_True by done. rewrite !fmap_cons. cbn [foldr fst]. rewrite IH by (intros; apply Hin; by right).
      rewrite (Hin k v) by set_solver. done.
    - rewrite decide_False by done. rewrite IH by (intros; apply Hin; by right). lia. }
  apply Hl. intros k v. by rewrite elem_of_map_to_list.
Qed.

Lemma block_count_none scope hash m :
  mi_inv m → by_hash m !! (scope, hash) = None → ∀ k, is_Some (entries m !! k) → targets scope hash k = false.
Proof.
  intros HI Hn k Hk. apply not_true_iff_false. unfold targets. rewrite bool_decide_eq_true. intros [Hs Hh].
  destruct (proj2 (iv_hash _ HI scope hash k)) as (s & Hs' & _); [done|]. congruence.
Qed.

Lemma mi_remove_block_spec scope w hash m :
  mi_inv m → removes m + block_count scope w hash m ≤ u64_max →
  ∃ m', mi_remove_block scope w hash m = Some (block_count scope w hash m, m') ∧ mi_inv m' ∧
    removes m' = removes m + block_count scope w hash m ∧ puts m' = puts m ∧
    ∀ k, entries m' !! k = dropped w (targets scope hash) (entries m) k.
Proof.
  intros HI Hmax. unfold mi_remove_block. destruct (by_hash m !! (scope, hash)) as [keys|] eqn:Hk.
  2: { assert (block_count scope w hash m = 0) as ->.
       { unfold block_count. assert (∀ l, (∀ k v, (k, v) ∈ l → entries m !! k = Some v) →
           foldr Z.add 0 ((λ kl : KvBlockKey * list CacheResidency, if targets scope hash kl.1 then removed_count w kl.2 else 0) <$> l) = 0) as Hl.
         { induction l as [|[k v] l IH]; intros Hin; [done|]. rewrite fmap_cons. cbn [foldr fst].
           rewrite (block_count_none scope hash m HI Hk) by (rewrite (Hin k v) by set_solver; eauto). rewrite IH; [done|]. intros; apply Hin; by right. }
         apply Hl. intros k v. by rewrite elem_of_map_to_list. }
       exists m. split; [done|]. split; [done|]. split; [lia|]. split; [done|]. intros k. unfold dropped.
       destruct (entries m !! k) as [l|] eqn:E; [|done]. by rewrite (block_count_none scope hash m HI Hk) by eauto. }
  destruct (remove_loop_spec w (hkeys keys) (entries m) 0 [] (NoDup_hkeys keys)) as (ents & es & -> & Hents & Hes).
  rewrite (candidates_sum scope w hash keys m HI Hk), Z.add_0_l, app_nil_l. cbn zeta.
  assert (∀ k, ents !! k = dropped w (targets scope hash) (entries m) k) as Hd.
  { intros k. rewrite Hents. apply dropped_ext. intros Hdom. by apply (candidates_targets scope hash keys m HI Hk). }
  assert (∀ k, k ∈ es → (from_key k, block_hash k) = (scope, hash)) as Hesk.
  { intros k [Hdom Hn]%Hes. rewrite Hd in Hn. unfold dropped in Hn. destruct (entries m !! k); [|by destruct Hdom].
    destruct (targets scope hash k) eqn:Et; [|done]. unfold targets in Et. apply bool_decide_eq_true in Et as [-> ->]. done. }
  set (m1 := if bool_decide (es = []) then _ else _).
  assert (entries m1 = ents ∧ puts m1 = puts m ∧ removes m1 = removes m ∧
    (∀ sc h k, in_idx (by_hash m1) (sc, h) k ↔ in_idx (by_hash m) (sc, h) k ∧ ¬ ((from_key k, block_hash k) = (sc, h) ∧ k ∈ es)) ∧
    (∀ h k, in_idx (by_content_hash m1) h k ↔ in_idx (by_content_hash m) h k ∧ ¬ (block_hash k = h ∧ k ∈ es)) ∧
    no_empty (by_hash m1) ∧ no_empty (by_content_hash m1)) as (E1 & E2 & E3 & Hh1 & Hc1 & Hn1 & Hn2).
  { unfold m1. case_bool_decide as Ees.
    - subst es. destruct HI. simpl. split_and!; try done; intros; rewrite elem_of_nil; tauto.
    - destruct (forget_content_fold es (mkMemIndex ents (forget_batch (scope, hash) es (by_hash m)) (by_content_hash m) (puts m) (removes m)))
        as (-> & -> & -> & -> & Hne & Hin). destruct HI. simpl in *. split_and!; try done.
      + intros sc h k. rewrite forget_batch_in. split; intros [? Hn]; (split; [done|]); intros [Heq Hk'].
        * apply Hn. split; [|done]. rewrite <- Heq. by apply Hesk.
        * apply Hn. split; [|done]. rewrite <- (Hesk k Hk') in Heq. congruence.
      + by apply forget_batch_no_empty.
      + by apply Hne. }
  rewrite E3, u64_add_ok by done. cbn [mbind option_bind]. eexists. split; [done|]. split; [|split; [done|]; split; [done|]; by simpl; rewrite E1].
  apply (dropped_inv w (targets scope hash) m _ es HI); simpl; rewrite ?E1; try done.
Qed.

Lemma mi_clear_worker_spec w m :
  mi_inv m → mi_inv (mi_clear_worker w m) ∧ puts (mi_clear_worker w m) = puts m ∧ removes (mi_clear_worker w m) = removes m ∧
  ∀ k, entries (mi_clear_worker w m) !! k = dropped w (λ _, true) (entries m) k.
Proof.
  intros HI. unfold mi_clear_worker. set (es := (filter _ (hiter (entries m))).*1).
  set (ents := filter _ (without_worker w <$> entries m)).
  assert (∀ k, ents !! k = dropped w (λ _, true) (entries m) k) as Hd.
  { intros k. unfold ents, dropped. destruct (entries m !! k) as [l|] eqn:E; cbn zeta.
    - case_bool_decide as Hw.
      + apply map_lookup_filter_None. right. intros x. rewrite lookup_fmap, E. intros [= <-]. simpl. tauto.
      + apply map_lookup_filter_Some. by rewrite lookup_fmap, E.
    - apply map_lookup_filter_None. left. by rewrite lookup_fmap, E. }
  assert (∀ k, k ∈ es ↔ is_Some (entries m !! k) ∧ ents !! k = None) as Hes.
  { intros k. rewrite Hd. unfold es, dropped. rewrite list_elem_of_fmap. split.
    - intros ([k' l] & -> & Hin). apply list_elem_of_filter in Hin as [Hw Hin%elem_of_hiter]. simpl in *. rewrite Hin. split; [eauto|]. by rewrite bool_decide_true.
    - intros [[l Hl] Hn]. rewrite Hl in Hn. cbn zeta in Hn. case_bool_decide as Hw; [|done]. exists (k, l). split; [done|].
      apply list_elem_of_filter. split; [done|]. by apply elem_of_hiter. }
  destruct (forget_key_fold es (mkMemIndex ents (by_hash m) (by_content_hash m) (puts m) (removes m))) as (E1 & E2 & E3 & Hn1 & Hn2 & Hc & Hh).
  simpl in *. split; [|rewrite E1, E2, E3; done].
  apply (dropped_inv w (λ _, true) m _ es HI); rewrite ?E1; try done; [apply Hn2, HI|apply Hn1, HI].
Qed.
End remove.

(** ** Snapshots *)

Section snapshots.
Context `{HashIter}.
Implicit Types m : MemoryIndex.

Lemma elem_of_snapshot m r : r ∈ mi_snapshot m ↔ ∃ k l, entries m !! k = Some l ∧ r ∈ l.
Proof.
  unfold mi_snapshot. rewrite list_elem_of_bind. setoid_rewrite elem_of_hvalues. unfold id. naive_solver.
Qed.

Lemma elem_of_snapshot_key m r : mi_inv m → r ∈ mi_snapshot m → ∃ l, entries m !! res_key r = Some l ∧ r ∈ l.
Proof.
  intros HI (k & l & Hl & Hr)%elem_of_snapshot. destruct (iv_entries _ HI k l Hl) as (_ & Hk & _).
  eapply Forall_forall in Hk as Hkr; [|exact Hr]. rewrite Hkr. eauto.
Qed.

Lemma NoDup_snapshot m : mi_inv m → NoDup (mi_snapshot m).
Proof.
  intros HI. assert (∀ L : list (KvBlockKey * list CacheResidency), NoDup L.*1 → (∀ k l, (k, l) ∈ L → entries m !! k = Some l) → NoDup (L.*2 ≫= id)) as Hgen.
  { induction L as [|[k l] L IH]; intros Hnd Hin; [constructor|]. rewrite fmap_cons in *. apply NoDup_cons in Hnd as [Hk Hnd].
    rewrite bind_cons. apply NoDup_app.
    assert (entries m !! k = Some l) as Hl by (apply Hin; set_solver). destruct (iv_entries _ HI k l Hl) as (_ & Hkl & Hs).
    split_and!; [by eapply NoDup_fmap_1| |apply IH; [done|intros; apply Hin; by right]].
    intros r Hr Hin'. apply list_elem_of_bind in Hin' as (l' & Hr' & Hl'). apply list_elem_of_fmap in Hl' as ([k' l''] & -> & HL).
    assert (entries m !! k' = Some l'') as Hl'' by (apply Hin; by right). destruct (iv_entries _ HI k' l'' Hl'') as (_ & Hkl' & _).
    eapply Forall_forall in Hkl; [|exact Hr]. eapply Forall_forall in Hkl'; [|exact Hr'].
    apply Hk. simpl. replace k with k' by congruence. by apply (list_elem_of_fmap_2 fst) in HL. }
  apply Hgen; [apply NoDup_hkeys|]. intros k l. by rewrite elem_of_hiter.
Qed.

(** A record a removal takes. *)
Definition taken (scope : IdentityScope) (w hash : string) (r : CacheResidency) : Prop :=
  res_worker_id r = w ∧ from_key (res_key r) = scope ∧ block_hash (res_key r) = hash.
#[global] Instance taken_dec scope w hash r : Decision (taken scope w hash r).
Proof. unfold taken. apply _. Defined.

Lemma dropped_elem w P m m' r :
  mi_inv m → (∀ k, entries m' !! k = dropped w P (entries m) k) →
  r ∈ mi_snapshot m' ↔ r ∈ mi_snapshot m ∧ ¬ (res_worker_id r = w ∧ P (res_key r) = true).
Proof.
  intros HI Hd. split.
  - rewrite elem_of_snapshot. intros (k & l' & Hl' & Hr). rewrite Hd in Hl'. unfold dropped in Hl'.
    destruct (entries m !! k) as [l|] eqn:E; [|done]. destruct (iv_entries _ HI k l E) as (_ & Hk & _).
    assert (r ∈ l ∧ (P k = true → res_worker_id r ≠ w)) as [Hin Hw].
    { destruct (P k); cbn zeta in Hl'; [case_bool_decide; [done|]|]; injection Hl' as <-; [|done].
      apply without_worker_spec in Hr as [? ?]. done. }
    split; [apply elem_of_snapshot; eauto|]. intros [Hrw HP]. eapply Forall_forall in Hk; [|exact Hin]. rewrite Hk in HP. by apply Hw.
  - intros [Hin Hn]. destruct (elem_of_snapshot_key m r HI Hin) as (l & Hl & Hr). apply elem_of_snapshot. exists (res_key r).
    specialize (Hd (res_key r)). unfold dropped in Hd. rewrite Hl in Hd. destruct (P (res_key r)) eqn:HP; [|eauto]. cbn zeta in Hd.
    assert (r ∈ without_worker w l) as Hw by (apply without_worker_spec; naive_solver).
    rewrite bool_decide_false in Hd; [eauto|]. intros E. rewrite E in Hw. by apply elem_of_nil in Hw.
Qed.

Lemma block_count_length scope w hash m :
  mi_inv m → block_count scope w hash m = Z.of_nat (length (filter (taken scope w hash) (mi_snapshot m))).
Proof.
  intros HI. unfold mi_snapshot, hvalues, block_count.
  assert (∀ L : list (KvBlockKey * list CacheResidency), (∀ k l, (k, l) ∈ L → entries m !! k = Some l) →
    foldr Z.add 0 ((λ kl : KvBlockKey * list CacheResidency, if targets scope hash kl.1 then removed_count w kl.2 else 0) <$> L) =
    Z.of_nat (length (filter (taken scope w hash) (L.*2 ≫= id)))) as Hgen.
  { induction L as [|[k l] L IH]; intros Hin; [done|]. rewrite !fmap_cons, bind_cons, filter_app, length_app. cbn [foldr fst snd].
    rewrite IH by (intros; apply Hin; by right). rewrite Nat2Z.inj_add. f_equal.
    assert (entries m !! k = Some l) as Hl by (apply Hin; set_solver). destruct (iv_entries _ HI k l Hl) as (_ & Hkl & _).
    clear -Hkl. unfold id, targets, removed_count, without_worker. induction Hkl as [|r l Hr Hkl IHl]; [by case_bool_decide|].
    rewrite !filter_cons. subst k. destruct (decide (from_key (res_key r) = scope ∧ block_hash (res_key r) = hash)) as [Ht|Ht].
    - rewrite bool_decide_true in * by done. destruct (decide (taken scope w hash r)) as [T|T], (decide (res_worker_id r ≠ w)) as [W|W]; unfold taken in T;
        try (exfalso; tauto); cbn [length]; unfold id in *; lia.
    - rewrite bool_decide_false in * by done. destruct (decide (taken scope w hash r)) as [T|T]; [exfalso; unfold taken in T; tauto|done]. }
  rewrite (foldr_add_perm _ ((λ kl : KvBlockKey * list CacheResidency, if targets scope hash kl.1 then removed_count w kl.2 else 0) <$> hiter (entries m)))
    by (by rewrite hiter_perm).
  apply Hgen. intros k l. by rewrite elem_of_hiter.
Qed.

(** ** Reachable indexes *)

Inductive mi_reach : MemoryIndex → Prop :=
| reach_mi_new : mi_reach mi_new
| reach_mi_put r m m' : mi_reach m → mi_put r m = Some m' → mi_reach m'
| reach_mi_remove scope w hash n m m' : mi_reach m → mi_remove_block scope w hash m = Some (n, m') → mi_reach m'
| reach_mi_clear_worker w m : mi_reach m → mi_reach (mi_clear_worker w m)
| reach_mi_clear m : mi_reach m → mi_reach (mi_clear m).

Lemma mi_put_bound r m m' : mi_put r m = Some m' → puts m + 1 ≤ u64_max.
Proof. unfold mi_put. intros (p & Hp & _)%bind_Some. apply u64_add_Some in Hp. lia. Qed.

(** A removal that returns has added its count to the counter. *)
Lemma mi_remove_bound scope w hash n m m' :
  mi_inv m → mi_remove_block scope w hash m = Some (n, m') → by_hash m !! (scope, hash) ≠ None →
  removes m + block_count scope w hash m ≤ u64_max.
Proof.
  intros HI. unfold mi_remove_block. destruct (by_hash m !! (scope, hash)) as [keys|] eqn:Hk; [|done].
  destruct (remove_loop_spec w (hkeys keys) (entries m) 0 [] (NoDup_hkeys keys)) as (ents & es & -> & _ & _).
  rewrite (candidates_sum scope w hash keys m HI Hk), Z.add_0_l, app_nil_l. cbn zeta. set (m1 := if bool_decide (es = []) then _ else _).
  assert (removes m1 = removes m) as ->.
  { unfold m1. case_bool_decide; [done|].
    by destruct (forget_content_fold es (mkMemIndex ents (forget_batch (scope, hash) es (by_hash m)) (by_content_hash m) (puts m) (removes m))) as (_ & _ & _ & -> & _). }
  intros (rm & Hrm & _)%bind_Some _. apply u64_add_Some in Hrm. lia.
Qed.

Lemma mi_remove_block_inv scope w hash n m m' :
  mi_inv m → mi_remove_block scope w hash m = Some (n, m') →
  mi_inv m' ∧ n = block_count scope w hash m ∧ ∀ k, entries m' !! k = dropped w (targets scope hash) (entries m) k.
Proof.
  intros HI Heq. destruct (by_hash m !! (scope, hash)) as [keys|] eqn:Hk.
  - destruct (mi_remove_block_spec scope w hash m HI) as (m1 & Heq' & HI' & _ & _ & Hd).
    { apply (mi_remove_bound scope w hash n m m' HI Heq). congruence. }
    rewrite Heq' in Heq. injection Heq as <- <-. done.
  - unfold mi_remove_block in Heq. rewrite Hk in Heq. injection Heq as <- <-. split; [done|].
    pose proof (block_count_none scope hash m HI Hk) as Hf. split.
    + rewrite block_count_length by done. rewrite list_filter_none; [done|]. intros r Hr (_ & Hs & Hh).
      destruct (elem_of_snapshot_key m r HI Hr) as (l & Hl & _). specialize (Hf (res_key r) ltac:(eauto)).
      unfold targets in Hf. apply bool_decide_eq_false in Hf. tauto.
    + intros k. unfold dropped. destruct (entries m !! k) eqn:E; [|done]. by rewrite Hf by eauto.
Qed.

Lemma mi_reach_inv m : mi_reach m → mi_inv m.
Proof.
  induction 1 as [|r m m' _ IH Heq|scope w hash n m m' _ IH Heq|w m _ IH|m _ IH].
  - apply mi_new_inv.
  - destruct (mi_put_spec r m IH (mi_put_bound r m m' Heq)) as (m1 & Heq' & ? & _). by simplify_eq.
  - by destruct (mi_remove_block_inv scope w hash n m m' IH Heq).
  - by apply mi_clear_worker_spec.
  - pose proof mi_new_inv as []. by constructor.
Qed.

(** ** Theorems *)

(** The content-hash index is exact: on every reachable index the seek by block hash that
    the reuse guard uses returns the same records, with the same multiplicities, as the
    default scan of the whole snapshot. *)
Theorem content_seek_is_scan m hash :
  mi_reach m → mi_residency_by_content_hash hash m ≡ₚ scan_by_content_hash hash m.
Proof.
  intros HI%mi_reach_inv. unfold scan_by_content_hash, mi_residency_by_content_hash.
  assert (∀ r, r ∈ filter (λ r, block_hash (res_key r) = hash) (mi_snapshot m) ↔
    ∃ k l, entries m !! k = Some l ∧ block_hash k = hash ∧ r ∈ l) as Hscan.
  { intros r. rewrite list_elem_of_filter. split.
    - intros [Hh Hr]. destruct (elem_of_snapshot_key m r HI Hr) as (l & ? & ?). eauto.
    - intros (k & l & Hl & Hh & Hr). destruct (iv_entries _ HI k l Hl) as (_ & Hk & _). eapply Forall_forall in Hk as ->; [|exact Hr].
      split; [done|]. apply elem_of_snapshot. eauto. }
  assert (∀ k, in_idx (by_content_hash m) hash k ↔ is_Some (entries m !! k) ∧ block_hash k = hash) as Hidx by apply HI.
  destruct (by_content_hash m !! hash) as [keys|] eqn:Hk.
  2: { symmetry. rewrite (proj2 (Permutation_nil_r _)); [done|]. apply list_filter_none. intros r Hr Hh.
       destruct (elem_of_snapshot_key m r HI Hr) as (l & Hl & _). destruct (proj2 (Hidx (res_key r))) as (s & Hs & _); [eauto|congruence]. }
  apply NoDup_Permutation.
  - assert (∀ L, NoDup L → (∀ k, k ∈ L → is_Some (entries m !! k)) → NoDup (omap (λ key, entries m !! key) L ≫= id)) as Hgen.
    { induction L as [|k L IH]; intros Hnd Hin; [constructor|]. apply NoDup_cons in Hnd as [Hnk Hnd]. destruct (Hin k) as [l Hl]; [set_solver|].
      simpl. rewrite Hl, bind_cons. destruct (iv_entries _ HI k l Hl) as (_ & Hkl & Hs). apply NoDup_app.
      split_and!; [by eapply NoDup_fmap_1| |apply IH; [done|intros; apply Hin; by right]].
      intros r Hr Hin'. apply list_elem_of_bind in Hin' as (l' & Hr' & Hl'). apply list_elem_of_omap in Hl' as (k' & Hk' & Hl').
      destruct (iv_entries _ HI k' l' Hl') as (_ & Hkl' & _). eapply Forall_forall in Hkl; [|exact Hr]. eapply Forall_forall in Hkl'; [|exact Hr'].
      apply Hnk. by replace k with k' by congruence. }
    apply Hgen; [apply NoDup_hkeys|]. intros k Hkk%elem_of_hkeys. apply (Hidx k). by exists keys.
  - apply NoDup_filter. by apply NoDup_snapshot.
  - intros r. rewrite Hscan, list_elem_of_bind. setoid_rewrite list_elem_of_omap. setoid_rewrite elem_of_hkeys. unfold id. split.
    + intros (l & Hr & k & Hkk & Hl). exists k, l. split; [done|]. split; [|done]. apply (Hidx k). by exists keys.
    + intros (k & l & Hl & Hh & Hr). exists l. split; [done|]. exists k. split; [|done].
      destruct (proj2 (Hidx k)) as (s & Hs & ?); [eauto|]. rewrite Hk in Hs. by injection Hs as <-.
Qed.

(** Removal by hash is exact: [remove_block] takes exactly the records of that worker,
    identity scope and block hash, returns their number, and [clear_worker] takes exactly
    the records of that worker. *)
Theorem remove_block_exact m scope w hash n m' :
  mi_reach m → mi_remove_block scope w hash m = Some (n, m') →
  (∀ r, r ∈ mi_snapshot m' ↔ r ∈ mi_snapshot m ∧ ¬ taken scope w hash r) ∧
  n = Z.of_nat (length (filter (taken scope w hash) (mi_snapshot m))) ∧
  (∀ r, r ∈ mi_snapshot (mi_clear_worker w m) ↔ r ∈ mi_snapshot m ∧ res_worker_id r ≠ w).
Proof.
  intros HI%mi_reach_inv Heq. destruct (mi_remove_block_inv scope w hash n m m' HI Heq) as (_ & -> & Hd).
  split_and!.
  - intros r. rewrite (dropped_elem w _ m m' r HI Hd). unfold taken, targets. rewrite bool_decide_eq_true. tauto.
  - by apply block_count_length.
  - intros r. destruct (mi_clear_worker_spec w m HI) as (_ & _ & _ & Hc). rewrite (dropped_elem w _ m _ r HI Hc). tauto.
Qed.

(** A put is found where it was put: it replaces the record of the same block, worker
    and tier, keeps every other record, and never fails below 2^64 puts. *)
Theorem put_locate m r :
  mi_reach m → puts m + 1 ≤ u64_max →
  ∃ m', mi_put r m = Some m' ∧
    (∀ x, x ∈ mi_locate (res_key r) m' ↔ x = r ∨ x ∈ mi_locate (res_key r) m ∧ slot_of x ≠ slot_of r) ∧
    (∀ k, k ≠ res_key r → mi_locate k m' = mi_locate k m).
Proof.
  intros HI%mi_reach_inv Hmax. destruct (mi_put_spec r m HI Hmax) as (m' & -> & _ & _ & _ & He). exists m'. split; [done|]. split.
  - intros x. unfold mi_locate at 1. rewrite He, lookup_insert_eq. simpl. unfold put_list.
    rewrite elem_of_app, list_elem_of_filter, list_elem_of_singleton. pose proof (same_slot_spec x r) as Hs.
    destruct (same_slot x r); naive_solver.
  - intros k Hk. unfold mi_locate. by rewrite He, lookup_insert_ne.
Qed.
End snapshots.

(** ** A concrete index *)

Section demo.
#[local] Existing Instance canonical_iter.

Definition demo_key (h : string) : KvBlockKey := key_new "m" "t" "ten" "root" h 0 64.
Definition demo_res (w h : string) : CacheResidency := residency_hbm w (demo_key h) 4096.
Definition put_to (r : CacheResidency) (m : MemoryIndex) : MemoryIndex := default m (mi_put r m).
Definition demo1 : MemoryIndex := put_to (demo_res "w1" "h1") mi_new.
Definition demo2 : MemoryIndex := put_to (demo_res "w2" "h1") demo1.
Definition demo_index : MemoryIndex := put_to (demo_res "w1" "h2") demo2.

Lemma put_to_reach r m : mi_reach m → puts m + 1 ≤ u64_max → mi_reach (put_to r m).
Proof.
  intros Hm Hmax. destruct (mi_put_spec r m (mi_reach_inv m Hm) Hmax) as (m' & E & _).
  apply (reach_mi_put r m); [done|]. unfold put_to. by rewrite E.
Qed.

Lemma demo_index_reach : mi_reach demo_index.
Proof. repeat (apply put_to_reach; [|vm_compute; discriminate]). apply reach_mi_new. Qed.

Lemma content_seek_is_scan_witness : mi_residency_by_content_hash "h1" demo_index ≡ₚ scan_by_content_hash "h1" demo_index.
Proof. apply (content_seek_is_scan demo_index "h1"). exact demo_index_reach. Defined.

Definition demo_removed : Z * MemoryIndex := default (0, mi_new) (mi_remove_block (mkScope "m" "t" None "ten") "w1" "h1" demo_index).
Lemma demo_removed_eq : mi_remove_block (mkScope "m" "t" None "ten") "w1" "h1" demo_index = Some (demo_removed.1, demo_removed.2).
Proof. rewrite <- surjective_pairing. run. Qed.

Lemma remove_block_exact_witness :
  ∃ n m', mi_remove_block (mkScope "m" "t" None "ten") "w1" "h1" demo_index = Some (n, m') ∧ n = 1.
Proof.
  exists demo_removed.1, demo_removed.2. split; [exact demo_removed_eq|].
  destruct (remove_block_exact demo_index (mkScope "m" "t" None "ten") "w1" "h1" demo_removed.1 demo_removed.2) as (_ & -> & _).
  - exact demo_index_reach.
  - exact demo_removed_eq.
  - vm_compute. reflexivity.
Defined.

Lemma put_locate_witness : ∃ m', mi_put (demo_res "w3" "h1") demo_index = Some m' ∧ demo_res "w3" "h1" ∈ mi_locate (demo_key "h1") m'.
Proof.
  destruct (put_locate demo_index (demo_res "w3" "h1")) as (m' & E & Hin & _).
  - exact demo_index_reach.
  - vm_compute. discriminate.
  - exists m'. split; [exact E|]. apply Hin. left. reflexivity.
Defined.
End demo.
