(* ===== verification/Router.v ===== *)
(** * Routing policies

    crates/quillcache-core/src/router.rs: the per-worker plan (local hit, transfer or
    recompute for every block) and the seven policies that choose a worker.  [u64]
    overflow is a panic ([None]).  [DefaultHasher] is the parameter [KeyHash]; the
    exponential of the softmax sampler is the parameter [Libm]. *)
From Corelib Require Import SpecFloat.
From S2P Require Import Prelude F64 Identity ShardedMap.

Inductive RouterError : Type := NoWorkers.

Record TransferPlan : Type := mkTransfer {
  tp_key : KvBlockKey;
  tp_from_worker_id : string;
  tp_tier : CacheTier;
  tp_bytes : Z;
  tp_estimated_us : Z
}.
Record RecomputePlan : Type := mkRecompute { rp_key : KvBlockKey; rp_estimated_us : Z }.
Record RouteDecision : Type := mkDecision {
  rd_request_id : string;
  rd_worker_id : string;
  local_hits : list KvBlockKey;
  transfers : list TransferPlan;
  recomputes : list RecomputePlan;
  estimated_ttft_us : Z;
  estimated_tpot_us : Z;
  slo_violation_us : Z
}.

Definition reusable_blocks (d : RouteDecision) : Z :=
  Z.of_nat (length (local_hits d)) + Z.of_nat (length (transfers d)).

(** [Iterator::min_by] keeps the first of equal minima, [max_by] the last of equal maxima. *)
Definition min_by {A} (lt : A → A → bool) (l : list A) : option A :=
  match l with [] => None | x :: l' => Some (foldl (λ b y, if lt y b then y else b) x l') end.
Definition max_by {A} (lt : A → A → bool) (l : list A) : option A :=
  match l with [] => None | x :: l' => Some (foldl (λ b y, if lt y b then b else y) x l') end.

(** [workers.iter().map(|w| (w.id, w)).collect()]: a later worker with the same id wins. *)
Definition worker_map (workers : list WorkerState) : gmap string WorkerState :=
  foldl (λ m w, <[w_id w := w]> m) ∅ workers.

(** ** The plan for one worker *)

Definition entry_cost (cm : CostModel) (target : WorkerState) (by_id : gmap string WorkerState) (e : CacheResidency) : option Z :=
  let same_worker := bool_decide (res_worker_id e = w_id target) in
  let same_domain := match by_id !! res_worker_id e with
                     | Some source => bool_decide (w_locality_domain source = w_locality_domain target)
                     | None => false
                     end in
  transfer_cost_us cm (res_tier e) (res_bytes e) same_worker same_domain.

(** The candidates of a block with their costs, and the cheapest. *)
Definition block_options (cm : CostModel) (target : WorkerState) (by_id : gmap string WorkerState)
    (residency : list CacheResidency) (block : KvBlockKey) : option (list (CacheResidency * Z)) :=
  mapM (λ e, c ← entry_cost cm target by_id e; Some (e, c)) (filter (λ e, res_key e = block) residency).

Definition best_residency (opts : list (CacheResidency * Z)) : option (CacheResidency * Z) :=
  min_by (λ a b, a.2 <? b.2) opts.

Record PlanAcc : Type := mkAcc {
  acc_local : list KvBlockKey;
  acc_transfers : list TransferPlan;
  acc_recomputes : list RecomputePlan;
  acc_us : Z
}.

Definition plan_block (cm : CostModel) (target : WorkerState) (by_id : gmap string WorkerState)
    (residency : list CacheResidency) (acc : PlanAcc) (block : KvBlockKey) : option PlanAcc :=
  recompute_us ← prefill_cost_us cm (token_count block);
  opts ← block_options cm target by_id residency block;
  let recompute :=
    us ← u64_add (acc_us acc) recompute_us;
    Some (mkAcc (acc_local acc) (acc_transfers acc) (acc_recomputes acc ++ [mkRecompute block recompute_us]) us) in
  match best_residency opts with
  | Some (entry, transfer_us) =>
      if transfer_us <? recompute_us then
        us ← u64_add (acc_us acc) transfer_us;
        Some (if bool_decide (res_worker_id entry = w_id target) && bool_decide (res_tier entry = Hbm)
              then mkAcc (acc_local acc ++ [block]) (acc_transfers acc) (acc_recomputes acc) us
              else mkAcc (acc_local acc)
                     (acc_transfers acc ++ [mkTransfer block (res_worker_id entry) (res_tier entry) (res_bytes entry) transfer_us])
                     (acc_recomputes acc) us)
      else recompute
  | None => recompute
  end.

Fixpoint plan_loop (cm : CostModel) (target : WorkerState) (by_id : gmap string WorkerState)
    (residency : list CacheResidency) (blocks : list KvBlockKey) (acc : PlanAcc) : option PlanAcc :=
  match blocks with
  | [] => Some acc
  | b :: blocks' => acc' ← plan_block cm target by_id residency acc b; plan_loop cm target by_id residency blocks' acc'
  end.

Definition plan_for_worker (cm : CostModel) (request : RequestShape) (target : WorkerState)
    (by_id : gmap string WorkerState) (residency : list CacheResidency) : option RouteDecision :=
  acc ← plan_loop cm target by_id residency (req_blocks request) (mkAcc [] [] [] 0);
  q ← queue_cost_us cm target;
  ttft ← u64_add q (acc_us acc);
  tpot ← decode_cost_us cm (req_estimated_decode_tokens request) (running_decodes target);
  ttft_budget ← u64_mul (ttft_ms (req_slo request)) 1000;
  tpot_budget ← u64_mul (tpot_ms (req_slo request)) 1000;
  viol ← u64_add (sat_sub ttft ttft_budget) (sat_sub tpot tpot_budget);
  Some (mkDecision (req_id request) (w_id target) (acc_local acc) (acc_transfers acc) (acc_recomputes acc) ttft tpot viol).

Definition plan_all (cm : CostModel) (request : RequestShape) (workers : list WorkerState)
    (residency : list CacheResidency) : option (list RouteDecision) :=
  mapM (λ w, plan_for_worker cm request w (worker_map workers) residency) workers.

(** ** Greedy *)

Definition greedy_score (worker : WorkerState) (d : RouteDecision) : option Z :=
  a ← u64_add (estimated_ttft_us d) (estimated_tpot_us d);
  v ← u64_mul (slo_violation_us d) 4;
  b ← u64_add a v;
  r ← u64_mul (running_decodes worker) 1000;
  u64_add b r.

Fixpoint greedy_loop (cm : CostModel) (request : RequestShape) (by_id : gmap string WorkerState)
    (residency : list CacheResidency) (workers : list WorkerState) (best : option (Z * RouteDecision)) :
    option (option (Z * RouteDecision)) :=
  match workers with
  | [] => Some best
  | w :: workers' =>
      d ← plan_for_worker cm request w by_id residency;
      score ← greedy_score w d;
      let better := match best with None => true | Some (s, _) => score <? s end in
      greedy_loop cm request by_id residency workers' (if better then Some (score, d) else best)
  end.

Definition greedy_route (cm : CostModel) (request : RequestShape) (workers : list WorkerState)
    (residency : list CacheResidency) : option (result RouterError RouteDecision) :=
  match workers with
  | [] => Some (Err NoWorkers)
  | _ => best ← greedy_loop cm request (worker_map workers) residency workers None;
         '(_, d) ← best;
         Some (Ok d)
  end.

(** ** Least loaded *)

Definition load_of (w : WorkerState) : Z := queued_prefill_tokens w + running_decodes w * 1000.

Definition least_loaded_route (cm : CostModel) (request : RequestShape) (workers : list WorkerState)
    (residency : list CacheResidency) : option (result RouterError RouteDecision) :=
  match min_by (λ a b, load_of a <? load_of b) workers with
  | None => Some (Err NoWorkers)
  | Some target => d ← plan_for_worker cm request target (worker_map workers) residency; Some (Ok d)
  end.

Section hashed.
Context `{KeyHash}.

(** [hasher.finish() % workers.len()]. *)
Definition pick_hashed (key : string) (workers : list WorkerState) : option WorkerState :=
  if bool_decide (workers = []) then None else vget workers (key_hash key mod Z.of_nat (length workers)).

Definition affinity_key (request : RequestShape) : string :=
  match req_blocks request with b :: _ => prefix_hash b | [] => req_id request end.

Definition prefix_affinity_route (cm : CostModel) (request : RequestShape) (workers : list WorkerState)
    (residency : list CacheResidency) : option (result RouterError RouteDecision) :=
  match workers with
  | [] => Some (Err NoWorkers)
  | _ => target ← pick_hashed (affinity_key request) workers;
         d ← plan_for_worker cm request target (worker_map workers) residency;
         Some (Ok d)
  end.

(** ** Session affinity *)

Definition session_key (request : RequestShape) : string :=
  match req_session_id request with
  | Some s => s
  | None => affinity_key request
  end.

Definition session_affinity_route (cm : CostModel) (request : RequestShape) (workers : list WorkerState)
    (residency : list CacheResidency) : option (result RouterError RouteDecision) :=
  match workers with
  | [] => Some (Err NoWorkers)
  | _ =>
      plans ← plan_all cm request workers residency;
      let warmest := max_by (λ a b, (length (local_hits a) <? length (local_hits b))%nat) plans in
      let cold :=
        target ← pick_hashed (session_key request) workers;
        d ← plan_for_worker cm request target (worker_map workers) residency;
        Some (Ok d) in
      match warmest with
      | Some d => if bool_decide (local_hits d = []) then cold else Some (Ok d)
      | None => cold
      end
  end.
End hashed.

(** ** Round robin *)

(** [next.fetch_add(1) % workers.len()]; the counter wraps. *)
Definition round_robin_route (cm : CostModel) (request : RequestShape) (workers : list WorkerState)
    (residency : list CacheResidency) (next : Z) : option (result RouterError RouteDecision * Z) :=
  match workers with
  | [] => Some (Err NoWorkers, next)
  | _ => target ← vget workers (next mod Z.of_nat (length workers));
         d ← plan_for_worker cm request target (worker_map workers) residency;
         Some (Ok d, Z.land (next + 1) u64_max)
  end.

(** ** SLO aware *)

(** Key (local hits, Reverse(ttft)) for the feasible, (violation, Reverse(local hits)) for
    the others, in lexicographic order. *)
Definition feasible_lt (a b : RouteDecision) : bool :=
  let ha := Z.of_nat (length (local_hits a)) in
  let hb := Z.of_nat (length (local_hits b)) in
  (ha <? hb) || (ha =? hb) && (estimated_ttft_us b <? estimated_ttft_us a).
Definition violation_lt (a b : RouteDecision) : bool :=
  (slo_violation_us a <? slo_violation_us b) ||
  (slo_violation_us a =? slo_violation_us b) && (Z.of_nat (length (local_hits b)) <? Z.of_nat (length (local_hits a))).

Definition slo_choose (plans : list RouteDecision) : option RouteDecision :=
  match max_by feasible_lt (filter (λ d, slo_violation_us d = 0) plans) with
  | Some d => Some d
  | None => min_by violation_lt plans
  end.

Definition slo_aware_route (cm : CostModel) (request : RequestShape) (workers : list WorkerState)
    (residency : list CacheResidency) : option (result RouterError RouteDecision) :=
  match workers with
  | [] => Some (Err NoWorkers)
  | _ => plans ← plan_all cm request workers residency;
         d ← slo_choose plans;
         Some (Ok d)
  end.

(** ** The Dynamo cost router *)

Record DynamoCostConfig : Type := mkDynamo {
  overlap_score_credit : f64;
  prefill_load_scale : f64;
  host_cache_hit_weight : f64;
  disk_cache_hit_weight : f64;
  temperature : f64;
  block_tokens : Z
}.

Definition dynamo_default : DynamoCostConfig :=
  mkDynamo (f64_of_u64 1) (f64_of_u64 1) (f64_lit 3 4) (f64_lit 1 4) (f64_of_u64 0) 64.

(** [x.max(0.0)]. *)
Definition f64_max0 (x : f64) : f64 := if f64_ltb (f64_of_u64 0) x then x else f64_of_u64 0.

(** [f64::total_cmp] on the values the costs take; a NaN is above every number. *)
Definition f64_total_lt (x y : f64) : bool :=
  match x, y with
  | S754_nan, _ => false
  | _, S754_nan => true
  | S754_zero true, S754_zero false => true
  | _, _ => f64_ltb x y
  end.

Definition credit_tier (cfg : DynamoCostConfig) (acc : f64 * f64 * f64) (t : option CacheTier) : f64 * f64 * f64 :=
  let '(device, host, disk) := acc in
  let one := f64_of_u64 1 in
  match t with
  | Some Hbm => (f64_add device one, host, disk)
  | Some RemoteHbm | Some CpuDram => (device, f64_add host one, disk)
  | Some LocalSsd | Some ObjectStore => (device, host, f64_add disk one)
  | None => (device, host, disk)
  end.

Definition on_worker (worker : WorkerState) (residency : list CacheResidency) (block : KvBlockKey) : option CacheTier :=
  res_tier <$> List.find (λ r, bool_decide (res_worker_id r = w_id worker) && bool_decide (res_key r = block)) residency.

Definition worker_cost (cfg : DynamoCostConfig) (request : RequestShape) (worker : WorkerState)
    (residency : list CacheResidency) : f64 :=
  let bt := Z.max (block_tokens cfg) 1 in
  let queued := f64_div (f64_of_u64 (queued_prefill_tokens worker)) (f64_of_u64 bt) in
  let raw := f64_add (f64_of_u64 (Z.of_nat (length (req_blocks request)))) queued in
  let z := f64_of_u64 0 in
  let '(device, host, disk) :=
    foldl (λ acc b, credit_tier cfg acc (on_worker worker residency b)) (z, z, z) (req_blocks request) in
  let credit := f64_add (f64_add (f64_mul (overlap_score_credit cfg) device) (f64_mul (host_cache_hit_weight cfg) host))
                  (f64_mul (disk_cache_hit_weight cfg) disk) in
  f64_add (f64_mul (prefill_load_scale cfg) (f64_max0 (f64_sub raw credit))) (f64_of_u64 (running_decodes worker)).

Definition cost_with_overlap (cfg : DynamoCostConfig) (prompt_blocks queued running overlap : Z) : f64 :=
  let bt := Z.max (block_tokens cfg) 1 in
  let qb := f64_div (f64_of_u64 queued) (f64_of_u64 bt) in
  let raw := f64_add (f64_of_u64 prompt_blocks) qb in
  let credit := f64_mul (overlap_score_credit cfg) (f64_of_u64 overlap) in
  f64_add (f64_mul (prefill_load_scale cfg) (f64_max0 (f64_sub raw credit))) (f64_of_u64 running).

(** The platform's [exp]. *)
Class Libm : Type := { f64_exp : f64 → f64 }.

Section dynamo.
Context `{KeyHash} `{Libm}.

Definition f64_min2 (x y : f64) : f64 := if f64_ltb y x then y else x.
Definition f64_max2 (x y : f64) : f64 := if f64_ltb x y then y else x.
(** [f64::EPSILON]. *)
Definition f64_epsilon : f64 := f64_lit 1 4503599627370496.

Fixpoint sample_loop (u total : f64) (weights : list f64) (i : Z) (acc : f64) : option Z :=
  match weights with
  | [] => None
  | w :: ws =>
      let acc' := f64_add acc (f64_div w total) in
      if f64_ltb u acc' then Some i else sample_loop u total ws (i + 1) acc'
  end.

Definition softmax_sample (costs : list f64) (temp : f64) (seed_key : string) : Z :=
  let n := Z.of_nat (length costs) in
  if n <=? 1 then 0
  else
    let mn := foldl f64_min2 (S754_infinity false) costs in
    let mx := foldl f64_max2 (S754_infinity true) costs in
    if f64_ltb (SFabs (f64_sub mx mn)) f64_epsilon then 0
    else
      let scale := f64_div (SFopp (f64_of_u64 1)) (f64_mul (f64_sub mx mn) temp) in
      let max_scaled := f64_mul mn scale in
      let weights := (λ c, f64_exp (f64_sub (f64_mul c scale) max_scaled)) <$> costs in
      let total := foldl f64_add (f64_of_u64 0) weights in
      let u := f64_div (f64_of_u64 (Z.shiftr (key_hash seed_key) 11)) (f64_of_u64 9007199254740992) in
      match sample_loop u total weights 0 (f64_of_u64 0) with
      | Some i => i
      | None => n - 1
      end.

Definition argmin_cost (costs : list f64) : Z :=
  from_option fst 0 (min_by (λ a b : Z * f64, f64_total_lt a.2 b.2) (zip (seqZ 0 (Z.of_nat (length costs))) costs)).

Definition dynamo_route (cm : CostModel) (cfg : DynamoCostConfig) (request : RequestShape) (workers : list WorkerState)
    (residency : list CacheResidency) : option (result RouterError RouteDecision) :=
  match workers with
  | [] => Some (Err NoWorkers)
  | _ =>
      let costs := (λ w, worker_cost cfg request w residency) <$> workers in
      let idx := if f64_ltb (f64_of_u64 0) (temperature cfg)
                 then softmax_sample costs (temperature cfg) (req_id request)
                 else argmin_cost costs in
      target ← vget workers idx;
      d ← plan_for_worker cm request target (worker_map workers) residency;
      Some (Ok d)
  end.
End dynamo.

(** ** [dyn RoutingPolicy]

    The seven implementors of the trait; the round-robin counter is the only state. *)
Inductive Policy : Type :=
| GreedyStatePlane | LeastLoaded | PrefixAffinity | RoundRobin | SloAware | SessionAffinity
| DynamoCost (cfg : DynamoCostConfig).

Definition policy_name (p : Policy) : string :=
  match p with
  | GreedyStatePlane => "greedy-state-plane"
  | LeastLoaded => "least-loaded"
  | PrefixAffinity => "prefix-affinity"
  | RoundRobin => "round-robin"
  | SloAware => "slo-aware"
  | SessionAffinity => "session-affinity"
  | DynamoCost _ => "dynamo-cost"
  end.

Definition policy_route `{KeyHash} `{Libm} (p : Policy) (cm : CostModel) (request : RequestShape)
    (workers : list WorkerState) (residency : list CacheResidency) (next : Z) :
    option (result RouterError RouteDecision * Z) :=
  let keep r := r ← r; Some (r, next) in
  match p with
  | GreedyStatePlane => keep (greedy_route cm request workers residency)
  | LeastLoaded => keep (least_loaded_route cm request workers residency)
  | PrefixAffinity => keep (prefix_affinity_route cm request workers residency)
  | RoundRobin => round_robin_route cm request workers residency next
  | SloAware => keep (slo_aware_route cm request workers residency)
  | SessionAffinity => keep (session_affinity_route cm request workers residency)
  | DynamoCost cfg => keep (dynamo_route cm cfg request workers residency)
  end.
