(* ===== verification/RouterPlan.v ===== *)
(** * The plan for a worker is the cheapest one

    Lemmas about [Iterator::min_by]/[max_by] and the per-worker plan of
    [crates/quillcache-core/src/router.rs]: every block is served exactly once, from a
    residency of that very block or by recomputing it, at the lowest price on offer. *)
From S2P Require Import Prelude F64 Identity ShardedMap Router.

(** ** Extrema of a strict weak order *)

Class StrictWeak {A} (lt : A → A → bool) : Prop := {
  sw_asym : ∀ x y, lt x y = true → lt y x = false;
  sw_cotrans : ∀ x y z, lt x z = true → lt x y = true ∨ lt y z = true
}.

Lemma sw_by_key {A} (key : A → Z) : StrictWeak (λ a b, key a <? key b).
Proof. split; intros *; rewrite ?Z.ltb_lt, ?Z.ltb_ge; lia. Qed.

(** [x] is the first minimum (respectively the last maximum) of [l]. *)
Definition first_min {A} (lt : A → A → bool) (l : list A) (x : A) : Prop :=
  ∃ i, l !! i = Some x ∧ (∀ j y, l !! j = Some y → lt y x = false)
       ∧ (∀ j y, (j < i)%nat → l !! j = Some y → lt x y = true).
Definition last_max {A} (lt : A → A → bool) (l : list A) (x : A) : Prop :=
  ∃ i, l !! i = Some x ∧ (∀ j y, l !! j = Some y → lt x y = false)
       ∧ (∀ j y, (i < j)%nat → l !! j = Some y → lt y x = true).

Section extrema.
Context {A : Type} (lt : A → A → bool) `{!StrictWeak lt}.

Lemma sw_irr x : lt x x = false.
Proof. destruct (lt x x) eqn:E; [|done]. pose proof (sw_asym _ _ E). congruence. Qed.

Lemma min_by_snoc l b y : min_by lt l = Some b → min_by lt (l ++ [y]) = Some (if lt y b then y else b).
Proof. destruct l as [|x l]; [done|]. cbn. rewrite foldl_snoc. intros [= ->]. done. Qed.

Lemma max_by_snoc l b y : max_by lt l = Some b → max_by lt (l ++ [y]) = Some (if lt y b then b else y).
Proof. destruct l as [|x l]; [done|]. cbn. rewrite foldl_snoc. intros [= ->]. done. Qed.

Lemma lookup_snoc_cases (l : list A) y j z :
  (l ++ [y]) !! j = Some z → (l !! j = Some z ∧ (j < length l)%nat) ∨ (j = length l ∧ z = y).
Proof.
  intros [H|(H & E)]%lookup_app_Some; [left; eauto using lookup_lt_Some|].
  apply list_lookup_singleton_Some in E as (E & ->). right. split; [lia|done].
Qed.

Lemma min_by_is_first_min l x : min_by lt l = Some x → first_min lt l x.
Proof.
  revert x. induction l as [|y l IH] using rev_ind; intros x Hx; [done|].
  destruct (min_by lt l) as [b|] eqn:Eb.
  - rewrite (min_by_snoc _ _ _ Eb) in Hx. injection Hx as <-.
    destruct (IH _ eq_refl) as (i & Hi & Hmin & Hfst).
    pose proof (lookup_lt_Some _ _ _ Hi) as Hlt.
    destruct (lt y b) eqn:E; [exists (length l)|exists i]; split_and!.
    + by apply list_lookup_middle.
    + intros j z [(Hz & _)|(_ & ->)]%lookup_snoc_cases; [|apply sw_irr].
      apply sw_asym. destruct (sw_cotrans y z b E) as [|F]; [done|]. by rewrite (Hmin _ _ Hz) in F.
    + intros j z Hj [(Hz & _)|(? & ->)]%lookup_snoc_cases; [|lia].
      destruct (sw_cotrans y z b E) as [|F]; [done|]. by rewrite (Hmin _ _ Hz) in F.
    + by rewrite lookup_app_l.
    + intros j z [(Hz & _)|(_ & ->)]%lookup_snoc_cases; [|done]. eauto.
    + intros j z Hj [(Hz & _)|(? & ->)]%lookup_snoc_cases; [eauto|lia].
  - destruct l; [|done]. injection Hx as <-. exists 0%nat. split_and!; [done| |lia].
    intros [|j] z [= <-]. apply sw_irr.
Qed.

Lemma max_by_is_last_max l x : max_by lt l = Some x → last_max lt l x.
Proof.
  revert x. induction l as [|y l IH] using rev_ind; intros x Hx; [done|].
  destruct (max_by lt l) as [b|] eqn:Eb.
  - rewrite (max_by_snoc _ _ _ Eb) in Hx. injection Hx as <-.
    destruct (IH _ eq_refl) as (i & Hi & Hmax & Hlst).
    pose proof (lookup_lt_Some _ _ _ Hi) as Hlt.
    destruct (lt y b) eqn:E; [exists i|exists (length l)]; split_and!.
    + by rewrite lookup_app_l.
    + intros j z [(Hz & _)|(_ & ->)]%lookup_snoc_cases; [eauto|by apply sw_asym].
    + intros j z Hj [(Hz & _)|(? & ->)]%lookup_snoc_cases; [eauto|done].
    + by apply list_lookup_middle.
    + intros j z [(Hz & _)|(_ & ->)]%lookup_snoc_cases; [|apply sw_irr].
      destruct (lt y z) eqn:F; [|done].
      destruct (sw_cotrans y b z F) as [G|G]; [congruence|]. by rewrite (Hmax _ _ Hz) in G.
    + intros j z Hj [(Hz & ?)|(? & ->)]%lookup_snoc_cases; lia.
  - destruct l; [|done]. injection Hx as <-. exists 0%nat. split_and!; [done| |].
    + intros [|j] z [= <-]. apply sw_irr.
    + intros [|j] z Hj Hz; [lia|done].
Qed.
End extrema.

Lemma Forall2_snoc {A B} (R : A → B → Prop) l k x y : Forall2 R l k → R x y → Forall2 R (l ++ [x]) (k ++ [y]).
Proof. intros. apply Forall2_app; [done|]. by apply Forall2_cons_2. Qed.

Lemma min_by_nil {A} (lt : A → A → bool) l : min_by lt l = None ↔ l = [].
Proof. destruct l; done. Qed.
Lemma max_by_nil {A} (lt : A → A → bool) l : max_by lt l = None ↔ l = [].
Proof. destruct l; done. Qed.

(** ** The reference: the cheapest way to serve a block *)

Section plan.
Context (cm : CostModel) (target : WorkerState) (by_id : gmap string WorkerState) (residency : list CacheResidency).

(** The prices on offer for a block: recomputing it, or fetching one of its residencies. *)
Definition price (b : KvBlockKey) (p : Z) : Prop :=
  prefill_cost_us cm (token_count b) = Some p
  ∨ ∃ e, e ∈ residency ∧ res_key e = b ∧ entry_cost cm target by_id e = Some p.
Definition cheapest (b : KvBlockKey) (p : Z) : Prop := price b p ∧ ∀ q, price b q → p ≤ q.

(** How a plan serves a block. *)
Definition local_ok (b : KvBlockKey) : Prop :=
  ∃ e, e ∈ residency ∧ res_key e = b ∧ res_worker_id e = w_id target ∧ res_tier e = Hbm.
Definition transfer_ok (t : TransferPlan) : Prop :=
  ∃ e, e ∈ residency ∧ res_key e = tp_key t ∧ res_worker_id e = tp_from_worker_id t ∧ res_tier e = tp_tier t
       ∧ res_bytes e = tp_bytes t ∧ ~ (res_worker_id e = w_id target ∧ res_tier e = Hbm)
       ∧ entry_cost cm target by_id e = Some (tp_estimated_us t) ∧ cheapest (tp_key t) (tp_estimated_us t).
Definition recompute_ok (r : RecomputePlan) : Prop :=
  prefill_cost_us cm (token_count (rp_key r)) = Some (rp_estimated_us r) ∧ cheapest (rp_key r) (rp_estimated_us r).

Record plan_ok (blocks : list KvBlockKey) (costs : list Z) (acc : PlanAcc) : Prop := mkPlanOk {
  po_serves : acc_local acc ++ (tp_key <$> acc_transfers acc) ++ (rp_key <$> acc_recomputes acc) ≡ₚ blocks;
  po_local : Forall local_ok (acc_local acc);
  po_transfers : Forall transfer_ok (acc_transfers acc);
  po_recomputes : Forall recompute_ok (acc_recomputes acc);
  po_costs : Forall2 cheapest blocks costs;
  po_us : acc_us acc = foldr Z.add 0 costs
}.

Lemma plan_ok_nil : plan_ok [] [] (mkAcc [] [] [] 0).
Proof. constructor; done || constructor. Qed.

Lemma block_options_Some b opts :
  block_options cm target by_id residency b = Some opts →
  (∀ e c, (e, c) ∈ opts → e ∈ residency ∧ res_key e = b ∧ entry_cost cm target by_id e = Some c)
  ∧ (∀ e, e ∈ residency → res_key e = b → ∃ c, (e, c) ∈ opts ∧ entry_cost cm target by_id e = Some c).
Proof.
  unfold block_options. intros H%mapM_Some. split.
  - intros e c (i & Hi)%list_elem_of_lookup.
    destruct (Forall2_lookup_r _ _ _ _ _ H Hi) as (e' & He' & Hc).
    apply bind_Some in Hc as (c' & Hc & [= -> ->]).
    apply list_elem_of_lookup_2, list_elem_of_filter in He' as (? & ?). done.
  - intros e He Hk. assert (Hf : e ∈ filter (λ e, res_key e = b) residency) by by apply list_elem_of_filter.
    apply list_elem_of_lookup in Hf as (i & Hi).
    destruct (Forall2_lookup_l _ _ _ _ _ H Hi) as ([e' c'] & He' & Hc).
    apply bind_Some in Hc as (c & Hc & [= -> ->]). exists c'. split; [|done]. by apply list_elem_of_lookup_2 in He'.
Qed.

Lemma best_residency_cheapest b opts r :
  block_options cm target by_id residency b = Some opts →
  prefill_cost_us cm (token_count b) = Some r →
  match best_residency opts with
  | Some (e, c) => e ∈ residency ∧ res_key e = b ∧ entry_cost cm target by_id e = Some c
                   ∧ (if c <? r then cheapest b c else cheapest b r)
  | None => cheapest b r
  end.
Proof.
  intros Ho Hr. destruct (block_options_Some _ _ Ho) as (Hin & Hall).
  unfold best_residency. destruct (min_by _ opts) as [[e c]|] eqn:Em.
  - destruct (min_by_is_first_min _ (StrictWeak0 := sw_by_key snd) _ _ Em) as (i & Hi & Hmin & _).
    apply list_elem_of_lookup_2 in Hi. destruct (Hin _ _ Hi) as (He & Hk & Hc). split_and!; [done..|].
    assert (Hle : ∀ q, price b q → q = r ∨ c ≤ q).
    { intros q [Hq|(e' & He' & Hk' & Hq)]; [left; congruence|right].
      destruct (Hall _ He' Hk') as (c' & Hin' & Hc'). apply list_elem_of_lookup in Hin' as (j & Hj).
      specialize (Hmin _ _ Hj). cbn in Hmin. apply Z.ltb_ge in Hmin. congruence. }
    destruct (Z.ltb_spec c r); split; try (intros q Hq; destruct (Hle q Hq); lia); [right; eauto|by left].
  - apply min_by_nil in Em as ->. split; [by left|].
    intros q [Hq|(e' & He' & Hk' & Hq)]; [replace q with r by congruence; done|].
    destruct (Hall _ He' Hk') as (? & []%not_elem_of_nil & _).
Qed.

Lemma plan_block_ok acc b acc' blocks costs :
  plan_ok blocks costs acc → plan_block cm target by_id residency acc b = Some acc' →
  ∃ c, plan_ok (blocks ++ [b]) (costs ++ [c]) acc'.
Proof.
  intros [Hs Hl Ht Hr Hc Hu]. unfold plan_block.
  intros (r & Er & (opts & Eo & H)%bind_Some)%bind_Some.
  pose proof (best_residency_cheapest _ _ _ Eo Er) as Hbest.
  assert (Hadd : ∀ x us, u64_add (acc_us acc) x = Some us → us = foldr Z.add 0 (costs ++ [x])).
  { intros x us Hx. rewrite foldr_add_app. cbn. rewrite <- Hu. unfold u64_add in Hx. case_match; simplify_eq. lia. }
  assert (Hre : cheapest b r → (us ← u64_add (acc_us acc) r;
     Some (mkAcc (acc_local acc) (acc_transfers acc) (acc_recomputes acc ++ [mkRecompute b r]) us)) = Some acc' →
     ∃ c, plan_ok (blocks ++ [b]) (costs ++ [c]) acc').
  { intros Hch (us & Eus & [= <-])%bind_Some. exists r. constructor; cbn; [|done|done| | |by apply Hadd].
    - rewrite fmap_app, <- Hs. cbn. by rewrite !app_assoc.
    - apply Forall_app; split; [done|]. by apply Forall_singleton.
    - by apply Forall2_snoc. }
  destruct (best_residency opts) as [[e c]|] eqn:Eb; [|by apply Hre].
  destruct Hbest as (He & Hk & Hec & Hch). destruct (Z.ltb_spec c r); [|by apply Hre].
  apply bind_Some in H as (us & Eus & H). exists c.
  destruct (bool_decide_reflect (res_worker_id e = w_id target)) as [Hw|Hw];
    destruct (bool_decide_reflect (res_tier e = Hbm)) as [Hh|Hh]; cbn in H; injection H as <-.
  1: { constructor; cbn; [| |done|done| |by apply Hadd].
       - rewrite <- Hs, <- !app_assoc. apply Permutation_app_head. rewrite Permutation_app_comm. by rewrite <- !app_assoc.
       - apply Forall_app; split; [done|]. apply Forall_singleton. by exists e.
       - by apply Forall2_snoc. }
  all: constructor; cbn; [|done| |done| |by apply Hadd];
    [rewrite fmap_app, <- Hs; cbn; rewrite <- !app_assoc; do 2 apply Permutation_app_head; by rewrite Permutation_app_comm
    |apply Forall_app; split; [done|]; apply Forall_singleton; exists e; cbn; split_and!; try done; tauto
    |by apply Forall2_snoc].
Qed.

Lemma plan_loop_ok bs acc acc' blocks costs :
  plan_ok blocks costs acc → plan_loop cm target by_id residency bs acc = Some acc' →
  ∃ cs, plan_ok (blocks ++ bs) cs acc'.
Proof.
  revert acc blocks costs. induction bs as [|b bs IH]; intros acc blocks costs Hok; cbn.
  - intros [= <-]. rewrite app_nil_r. eauto.
  - intros (acc1 & H1 & H2)%bind_Some. destruct (plan_block_ok _ _ _ _ _ Hok H1) as (c & Hok1).
    destruct (IH _ _ _ Hok1 H2) as (cs & Hok2). exists cs. by rewrite <- app_assoc in Hok2.
Qed.
End plan.
