(* ===== verification/RouterTheorems.v ===== *)
(** * What the routing policies promise

    [crates/quillcache-core/src/router.rs]: the plan of a worker is complete and
    cheapest, no policy panics within stated operating bounds, and each policy picks the
    worker its documentation names.

    The routing policies on a concrete fleet.

    A request of two blocks, three workers with different loads, one block resident on
    two of them: inputs on which the theorems about the policies apply. *)
From Corelib Require Import SpecFloat.
From S2P Require Import Prelude F64 Identity ShardedMap Router RouterPlan.

Lemma u64_mul_ok a b : a * b ≤ u64_max → u64_mul a b = Some (a * b).
Proof. unfold u64_mul. intros. by rewrite (proj2 (Z.leb_le _ _)). Qed.

Lemma vget_elem_of {A} (l : list A) i x : vget l i = Some x → x ∈ l.
Proof. intros (_ & H)%vget_Some. by apply list_elem_of_lookup_2 in H. Qed.

(** ** Operating bounds *)

Definition is_u32 (z : Z) : Prop := 0 ≤ z ≤ 4294967295.
Definition cost_field (z : Z) : Prop := 0 ≤ z ≤ 4096.

(** Prices of at most 4096 microseconds per unit, and the widths of the other fields. *)
Record cost_ok (c : CostModel) : Prop := mkCostOk {
  co_prefill : cost_field (prefill_us_per_token c);
  co_decode : cost_field (decode_us_per_token c);
  co_queue : cost_field (queue_us_per_prefill_token c);
  co_running : cost_field (running_decode_penalty_us c);
  co_hbm : cost_field (hbm_hit_us c);
  co_remote : cost_field (remote_hbm_us_per_mb c);
  co_cpu : cost_field (cpu_dram_us_per_mb c);
  co_ssd : cost_field (local_ssd_us_per_mb c);
  co_object : cost_field (object_store_us_per_mb c);
  co_cross : cost_field (cross_domain_penalty_us c)
}.
Record request_ok (r : RequestShape) : Prop := mkRequestOk {
  ro_len : Z.of_nat (length (req_blocks r)) ≤ 32768;
  ro_tokens : Forall (λ b, is_u32 (token_count b)) (req_blocks r);
  ro_decode : is_u32 (req_estimated_decode_tokens r);
  ro_ttft : 0 ≤ ttft_ms (req_slo r) ≤ 1125899906842624;
  ro_tpot : 0 ≤ tpot_ms (req_slo r) ≤ 1125899906842624
}.
Definition worker_ok (w : WorkerState) : Prop := is_u32 (queued_prefill_tokens w) ∧ is_u32 (running_decodes w).
Definition residency_ok (e : CacheResidency) : Prop := is_u64 (res_bytes e).

Section total.
Context (cm : CostModel) (by_id : gmap string WorkerState) (residency : list CacheResidency).
Context (Hcm : cost_ok cm) (Hres : Forall residency_ok residency).

Lemma mib_ceil_bounds n : is_u64 n → 1 ≤ mib_ceil n ≤ 17592186044416.
Proof.
  unfold is_u64, mib_ceil, u64_max. intros.
  pose proof (Z.div_lt_upper_bound (n + 1048575) 1048576 17592186044417 ltac:(lia) ltac:(lia)). lia.
Qed.

Lemma entry_cost_total target e : residency_ok e → ∃ c, entry_cost cm target by_id e = Some c ∧ 0 ≤ c.
Proof.
  intros He%mib_ceil_bounds. unfold entry_cost, transfer_cost_us.
  destruct Hcm as [H1 H2 H3 H4 H5 H6 H7 H8 H9 H10]. unfold cost_field in *.
  assert (Ht : 0 ≤ tier_us_per_mb cm (res_tier e) ≤ 4096) by (destruct (res_tier e); cbn; lia).
  case_match; [eexists; split; [done|lia]|].
  rewrite u64_mul_ok by (unfold u64_max; nia). cbn [mbind option_bind].
  case_match; [eexists; split; [done|nia]|].
  rewrite u64_add_ok by (unfold u64_max; nia). eexists; split; [done|nia].
Qed.

Lemma block_options_total target b : ∃ opts, block_options cm target by_id residency b = Some opts
  ∧ Forall (λ o, 0 ≤ o.2) opts.
Proof.
  unfold block_options.
  assert (Hf : Forall residency_ok (filter (λ e, res_key e = b) residency)).
  { apply Forall_forall. intros e (_ & He)%list_elem_of_filter. by apply (proj1 (Forall_forall _ _) Hres). }
  induction Hf as [|e l He _ (opts & Eo & Ho)]; [by exists []|].
  destruct (entry_cost_total target e He) as (c & Ec & Hc). exists ((e, c) :: opts).
  cbn [mapM]. rewrite Ec. cbn [mbind option_bind]. rewrite Eo. split; [done|by constructor].
Qed.

Lemma prefill_total n : is_u32 n → ∃ r, prefill_cost_us cm n = Some r ∧ 0 ≤ r ≤ 17592186044416.
Proof.
  intros Hn. destruct Hcm as [H1 _ _ _ _ _ _ _ _ _]. unfold cost_field, is_u32 in *. unfold prefill_cost_us.
  rewrite u64_mul_ok by (unfold u64_max; nia). eexists; split; [done|nia].
Qed.

Lemma plan_block_total target acc b :
  is_u32 (token_count b) → 0 ≤ acc_us acc ≤ 576460752303423488 →
  ∃ acc', plan_block cm target by_id residency acc b = Some acc'
          ∧ 0 ≤ acc_us acc' ≤ acc_us acc + 17592186044416.
Proof.
  intros Hb Hacc. unfold plan_block.
  destruct (prefill_total _ Hb) as (r & -> & Hr). cbn [mbind option_bind].
  destruct (block_options_total target b) as (opts & -> & Ho). cbn [mbind option_bind].
  rewrite (u64_add_ok (acc_us acc) r) by (unfold u64_max; lia). cbn [mbind option_bind].
  destruct (best_residency opts) as [[e c]|] eqn:Eb; [|eexists; split; [done|cbn; lia]].
  destruct (Z.ltb_spec c r); [|eexists; split; [done|cbn; lia]].
  destruct (min_by_is_first_min _ (StrictWeak0 := sw_by_key snd) _ _ Eb) as (i & Hi & _).
  pose proof (Forall_lookup_1 _ _ _ _ Ho Hi) as Hc. cbn in Hc.
  rewrite u64_add_ok by (unfold u64_max; lia). cbn [mbind option_bind]. eexists; split; [done|].
  case_match; cbn; lia.
Qed.

Lemma plan_loop_total target bs acc :
  Forall (λ b, is_u32 (token_count b)) bs →
  0 ≤ acc_us acc → acc_us acc + Z.of_nat (length bs) * 17592186044416 ≤ 576460752303423488 →
  ∃ acc', plan_loop cm target by_id residency bs acc = Some acc' ∧ 0 ≤ acc_us acc' ≤ 576460752303423488.
Proof.
  intros Hbs. revert acc. induction Hbs as [|b bs Hb _ IH]; intros acc H0 Hle; cbn [length plan_loop] in *.
  - eexists; split; [done|lia].
  - destruct (plan_block_total target acc b Hb) as (acc1 & -> & H1); [lia|]. cbn [mbind option_bind].
    apply IH; lia.
Qed.

(** The plan exists, and its estimates leave room for every score computed from them. *)
Lemma plan_total request target : request_ok request → worker_ok target →
  ∃ d, plan_for_worker cm request target by_id residency = Some d
    ∧ 0 ≤ estimated_ttft_us d ≤ 600000000000000000 ∧ 0 ≤ estimated_tpot_us d ≤ 40000000000000
    ∧ 0 ≤ slo_violation_us d ≤ 600040000000000000.
Proof.
  intros [Hl Ht Hd Hs1 Hs2] [Hq Hr]. unfold is_u32 in *. unfold plan_for_worker.
  destruct (plan_loop_total target (req_blocks request) (mkAcc [] [] [] 0) Ht) as (acc & -> & Hacc); [cbn; lia..|].
  cbn [mbind option_bind]. unfold queue_cost_us, decode_cost_us.
  destruct Hcm as [_ H2 H3 H4 _ _ _ _ _ _]. unfold cost_field in *.
  set (q := queue_us_per_prefill_token cm * queued_prefill_tokens target).
  set (x := decode_us_per_token cm * req_estimated_decode_tokens request).
  set (y := running_decode_penalty_us cm * running_decodes target).
  assert (0 ≤ q ≤ 17592186044416) by (subst q; nia).
  assert (0 ≤ x ≤ 17592186044416) by (subst x; nia).
  assert (0 ≤ y ≤ 17592186044416) by (subst y; nia).
  repeat (rewrite u64_mul_ok by (fold q x y; unfold u64_max; lia); cbn [mbind option_bind]). fold q x y.
  repeat (rewrite u64_add_ok by (unfold u64_max, sat_sub; lia); cbn [mbind option_bind]).
  repeat (rewrite u64_mul_ok by (unfold u64_max; lia); cbn [mbind option_bind]).
  repeat (rewrite u64_add_ok by (unfold u64_max, sat_sub; lia); cbn [mbind option_bind]).
  eexists. split; [done|]. cbn. unfold sat_sub. lia.
Qed.
End total.

(** ** The plan *)

(** C9 A worker's plan serves every block of the request exactly once, takes local hits
    only from that worker's HBM residencies of the very block, transfers only from a
    listed residency of the very block, and serves each block at the lowest price on
    offer (any of its residencies or recomputing it); the TTFT estimate is the queue
    cost plus the sum of those lowest prices, and the violation is what exceeds the SLO. *)
Theorem plan_cheapest cm request target by_id residency d :
  plan_for_worker cm request target by_id residency = Some d →
  local_hits d ++ (tp_key <$> transfers d) ++ (rp_key <$> recomputes d) ≡ₚ req_blocks request
  ∧ Forall (local_ok target residency) (local_hits d)
  ∧ Forall (transfer_ok cm target by_id residency) (transfers d)
  ∧ Forall (recompute_ok cm target by_id residency) (recomputes d)
  ∧ rd_worker_id d = w_id target
  ∧ ∃ costs q, Forall2 (cheapest cm target by_id residency) (req_blocks request) costs
      ∧ queue_cost_us cm target = Some q ∧ estimated_ttft_us d = q + foldr Z.add 0 costs
      ∧ slo_violation_us d = Z.max 0 (estimated_ttft_us d - ttft_ms (req_slo request) * 1000)
                             + Z.max 0 (estimated_tpot_us d - tpot_ms (req_slo request) * 1000).
Proof.
  unfold plan_for_worker. intros (acc & Hloop & H)%bind_Some.
  destruct (plan_loop_ok cm target by_id residency _ _ _ [] [] (plan_ok_nil _ _ _ _) Hloop) as (costs & [Hs Hl Ht Hr Hc Hu]).
  apply bind_Some in H as (q & Hq & (ttft & Htt & (tpot & Htp & (b1 & Hb1 & (b2 & Hb2 & (v & Hv & [= <-])%bind_Some)%bind_Some)%bind_Some)%bind_Some)%bind_Some).
  apply u64_add_Some in Htt as (-> & _), Hv as (-> & _).
  unfold u64_mul in Hb1, Hb2. repeat case_match; simplify_eq. cbn.
  split_and!; [done..|]. exists costs, q. rewrite Hu. done.
Qed.

(** ** No panic *)

Section policies.
Context (cm : CostModel) (request : RequestShape) (workers : list WorkerState) (residency : list CacheResidency).

(** The decision is the plan of a worker of the fleet. *)
Definition planned (d : RouteDecision) : Prop :=
  ∃ w, w ∈ workers ∧ plan_for_worker cm request w (worker_map workers) residency = Some d.

Section bounded.
Context (Hcm : cost_ok cm) (Hreq : request_ok request) (Hres : Forall residency_ok residency).
Context (Hws : Forall worker_ok workers).

Lemma worker_plan w : w ∈ workers →
  ∃ d, plan_for_worker cm request w (worker_map workers) residency = Some d
    ∧ 0 ≤ estimated_ttft_us d ≤ 600000000000000000 ∧ 0 ≤ estimated_tpot_us d ≤ 40000000000000
    ∧ 0 ≤ slo_violation_us d ≤ 600040000000000000.
Proof. intros Hw. apply plan_total; try done. by apply (proj1 (Forall_forall _ _) Hws). Qed.

Lemma target_planned i w : vget workers i = Some w →
  ∃ d, plan_for_worker cm request w (worker_map workers) residency = Some d ∧ planned d.
Proof.
  intros Hw. assert (w ∈ workers). { by eapply vget_elem_of. }
  destruct (worker_plan w) as (d & Hd & _); [done|]. exists d. split; [done|]. by exists w.
Qed.

Lemma greedy_score_total w d : w ∈ workers →
  plan_for_worker cm request w (worker_map workers) residency = Some d → is_Some (greedy_score w d).
Proof.
  intros Hw Hd. destruct (worker_plan w Hw) as (d' & Hd' & H1 & H2 & H3). replace d' with d in * by congruence.
  pose proof (proj1 (Forall_forall _ _) Hws w Hw) as [_ Hr]. unfold is_u32 in Hr. unfold greedy_score.
  repeat first [rewrite u64_add_ok by (unfold u64_max; lia) | rewrite u64_mul_ok by (unfold u64_max; lia) | progress cbn [mbind option_bind]].
  done.
Qed.

Lemma greedy_loop_total ws best : ws ⊆ workers →
  (∀ s d, best = Some (s, d) → planned d) → (ws = [] → is_Some best) →
  ∃ s d, greedy_loop cm request (worker_map workers) residency ws best = Some (Some (s, d)) ∧ planned d.
Proof.
  revert best. induction ws as [|w ws IH]; intros best Hsub Hbest Hne; cbn [greedy_loop].
  - destruct (Hne eq_refl) as ([s d] & ->). eauto.
  - assert (Hw : w ∈ workers) by set_solver.
    destruct (worker_plan w Hw) as (d & Hd & _). rewrite Hd. cbn [mbind option_bind].
    destruct (greedy_score_total w d Hw Hd) as (s & ->). cbn [mbind option_bind].
    apply IH; [set_solver| |intros _; case_match; [done|]; destruct best as [[]|]; done].
    intros s' d' Hb. destruct (match best with None => true | Some (s0, _) => s <? s0 end); [|eauto].
    injection Hb as <- <-. by exists w.
Qed.

Lemma plan_all_total : ∃ plans, plan_all cm request workers residency = Some plans ∧ Forall planned plans
  ∧ length plans = length workers.
Proof.
  unfold plan_all. assert (H : ∀ ws, ws ⊆ workers →
    ∃ plans, mapM (λ w, plan_for_worker cm request w (worker_map workers) residency) ws = Some plans
      ∧ Forall planned plans ∧ length plans = length ws).
  { induction ws as [|w ws IH]; intros Hsub; [by exists []|].
    destruct IH as (ps & Eps & Hps & Hlen); [set_solver|].
    destruct (worker_plan w) as (d & Hd & _); [set_solver|].
    exists (d :: ps). cbn [mapM]. rewrite Hd. cbn [mbind option_bind]. rewrite Eps. cbn. split_and!; [done| |lia].
    constructor; [|done]. exists w. split; [set_solver|done]. }
  by apply H.
Qed.
End bounded.
End policies.

Lemma mod_in_range {A} (l : list A) k : l ≠ [] → ∃ x, vget l (k mod Z.of_nat (length l)) = Some x.
Proof.
  intros Hl. assert (length l ≠ 0%nat) by (by destruct l).
  destruct (vget_is_Some l (k mod Z.of_nat (length l))) as [x Hx]; [|by exists x].
  pose proof (Z.mod_pos_bound k (Z.of_nat (length l))). lia.
Qed.

Lemma min_by_elem {A} (lt : A → A → bool) l : l ≠ [] → ∃ x, min_by lt l = Some x ∧ x ∈ l.
Proof.
  induction l as [|y l IH] using rev_ind; [done|]. intros _. destruct l as [|z l].
  - exists y. split; [done|set_solver].
  - destruct IH as (x & Hx & Hin); [done|]. rewrite (min_by_snoc _ _ _ _ Hx). case_match; eexists; (split; [done|set_solver]).
Qed.
Lemma max_by_elem {A} (lt : A → A → bool) l : l ≠ [] → ∃ x, max_by lt l = Some x ∧ x ∈ l.
Proof.
  induction l as [|y l IH] using rev_ind; [done|]. intros _. destruct l as [|z l].
  - exists y. split; [done|set_solver].
  - destruct IH as (x & Hx & Hin); [done|]. rewrite (max_by_snoc _ _ _ _ Hx). case_match; eexists; (split; [done|set_solver]).
Qed.

Lemma sample_loop_range u total ws i acc j :
  sample_loop u total ws i acc = Some j → i ≤ j < i + Z.of_nat (length ws).
Proof.
  revert i acc. induction ws as [|w ws IH]; intros i acc; cbn [sample_loop length]; [done|].
  case_match; [intros [= <-]; lia|]. intros Hj%IH. lia.
Qed.

Section sample.
Context `{KeyHash} `{Libm}.
Lemma softmax_sample_range costs temp seed : costs ≠ [] → 0 ≤ softmax_sample costs temp seed < Z.of_nat (length costs).
Proof.
  intros Hne. assert (length costs ≠ 0%nat) by (by destruct costs). unfold softmax_sample.
  destruct (Z.leb_spec (Z.of_nat (length costs)) 1); [lia|].
  case_match; [lia|].
  match goal with |- context [sample_loop ?a ?b ?c ?d ?e] => destruct (sample_loop a b c d e) eqn:E end; [|lia].
  apply sample_loop_range in E. rewrite length_fmap in E. lia.
Qed.
End sample.


Lemma argmin_cost_range costs : costs ≠ [] → 0 ≤ argmin_cost costs < Z.of_nat (length costs).
Proof.
  intros Hne. assert (length costs ≠ 0%nat) by (by destruct costs). unfold argmin_cost.
  destruct (min_by_elem (λ a b : Z * f64, f64_total_lt a.2 b.2) (zip (seqZ 0 (Z.of_nat (length costs))) costs))
    as ([i c] & -> & (j & Hj)%list_elem_of_lookup).
  - intros E. apply (f_equal length) in E. rewrite length_zip_with, length_seqZ in E. cbn in E. lia.
  - apply lookup_zip_Some in Hj as (Hi & Hc). apply lookup_seqZ in Hi as (-> & ?). cbn. lia.
Qed.

Section total_policies.
Context `{KeyHash} `{Libm}.

Lemma vget_planned cm request workers residency i :
  cost_ok cm → request_ok request → Forall worker_ok workers → Forall residency_ok residency →
  0 ≤ i < Z.of_nat (length workers) →
  ∃ w d, vget workers i = Some w ∧ plan_for_worker cm request w (worker_map workers) residency = Some d
         ∧ planned cm request workers residency d.
Proof.
  intros Hcm Hreq Hws Hres Hi. destruct (vget_is_Some workers i Hi) as (w & Hw).
  destruct (target_planned cm request workers residency Hcm Hreq Hres Hws i w Hw) as (d & Hd & Hp). eauto.
Qed.

(** C10 Within the operating bounds (prices up to 4096 us per unit, request of at most
    32768 blocks, [u32] loads, [u64] sizes) every policy returns a decision for a
    non-empty fleet: no arithmetic overflow, no index out of range, no failed [expect].
    The decision is the plan of one of the workers offered. *)
Theorem policy_route_total p cm request workers residency next :
  cost_ok cm → request_ok request → Forall worker_ok workers → Forall residency_ok residency → workers ≠ [] →
  ∃ d next', policy_route p cm request workers residency next = Some (Ok d, next')
             ∧ planned cm request workers residency d.
Proof.
  intros Hcm Hreq Hws Hres Hne.
  assert (Hlen : (0 < length workers)%nat) by (destruct workers; [done|cbn; lia]).
  pose proof (λ i, vget_planned cm request workers residency i Hcm Hreq Hws Hres) as Hget.
  assert (Hmod : ∀ k, 0 ≤ k mod Z.of_nat (length workers) < Z.of_nat (length workers))
    by (intros; apply Z.mod_pos_bound; lia).
  destruct p; cbn [policy_route].
  - destruct (greedy_loop_total cm request workers residency Hcm Hreq Hres Hws workers None) as (s & d & Hg & Hd); [done..|].
    exists d, next. split; [|done]. unfold greedy_route. rewrite Hg. by destruct workers.
  - unfold least_loaded_route. destruct (min_by_elem (λ a b, load_of a <? load_of b) workers Hne) as (w & -> & Hw).
    destruct (worker_plan cm request workers residency Hcm Hreq Hres Hws w Hw) as (d & Hd & _). rewrite Hd.
    exists d, next. split; [done|]. by exists w.
  - destruct (Hget _ (Hmod (key_hash (affinity_key request)))) as (w & d & Hw & Hd & Hp). exists d, next.
    split; [|done]. unfold prefix_affinity_route, pick_hashed. rewrite (bool_decide_eq_false_2 _ Hne), Hw.
    cbn [mbind option_bind]. rewrite Hd. by destruct workers.
  - destruct (Hget _ (Hmod next)) as (w & d & Hw & Hd & Hp). exists d, (Z.land (next + 1) u64_max).
    split; [|done]. unfold round_robin_route. rewrite Hw. cbn [mbind option_bind]. rewrite Hd. by destruct workers.
  - destruct (plan_all_total cm request workers residency Hcm Hreq Hres Hws) as (plans & Hpl & Hps & Hn).
    assert (Hch : ∃ d, slo_choose plans = Some d ∧ d ∈ plans).
    { unfold slo_choose. destruct (max_by _ _) as [d|] eqn:E.
      - exists d. split; [done|]. destruct (max_by_elem feasible_lt (filter (λ d, slo_violation_us d = 0) plans)) as (x & Hx & Hin).
        { intros F. by rewrite F in E. }
        rewrite E in Hx. injection Hx as <-. by apply list_elem_of_filter in Hin as (_ & ?).
      - apply min_by_elem. intros ->. cbn in Hn. lia. }
    destruct Hch as (d & Hch & Hin). exists d, next. split; [|by apply (proj1 (Forall_forall _ _) Hps)].
    unfold slo_aware_route. rewrite Hpl. cbn [mbind option_bind]. rewrite Hch. by destruct workers.
  - destruct (plan_all_total cm request workers residency Hcm Hreq Hres Hws) as (plans & Hpl & Hps & Hn).
    destruct (Hget _ (Hmod (key_hash (session_key request)))) as (w & d & Hw & Hd & Hp).
    destruct (max_by_elem (λ a b, (length (local_hits a) <? length (local_hits b))%nat) plans) as (m & Hm & Hin).
    { intros ->. cbn in Hn. lia. }
    unfold session_affinity_route, pick_hashed. rewrite Hpl. cbn [mbind option_bind].
    rewrite Hm, (bool_decide_eq_false_2 _ Hne), Hw. cbn [mbind option_bind]. rewrite Hd.
    case_bool_decide; [exists d|exists m]; exists next; (split; [by destruct workers|]); [done|].
    by apply (proj1 (Forall_forall _ _) Hps).
  - set (costs := (λ w, worker_cost cfg request w residency) <$> workers).
    assert (Hc : costs ≠ []) by (subst costs; by destruct workers).
    assert (Hl : length costs = length workers) by apply length_fmap.
    pose proof (softmax_sample_range costs (temperature cfg) (req_id request) Hc) as Hs.
    pose proof (argmin_cost_range costs Hc) as Ha. rewrite Hl in Hs, Ha.
    set (idx := if f64_ltb (f64_of_u64 0) (temperature cfg)
                then softmax_sample costs (temperature cfg) (req_id request) else argmin_cost costs).
    destruct (Hget idx) as (w & d & Hw & Hd & Hp); [subst idx; case_match; done|].
    exists d, next. split; [|done]. unfold dynamo_route. fold costs. fold idx. rewrite Hw.
    cbn [mbind option_bind]. rewrite Hd. by destruct workers.
Qed.
End total_policies.

(** ** Which worker each policy picks *)

Lemma plan_all_lookup cm request workers residency plans i :
  plan_all cm request workers residency = Some plans →
  plans !! i = (w ← workers !! i; plan_for_worker cm request w (worker_map workers) residency).
Proof.
  unfold plan_all. intros H%mapM_Some. destruct (workers !! i) as [w|] eqn:Ew; cbn [mbind option_bind].
  - destruct (Forall2_lookup_l _ _ _ _ _ H Ew) as (d & Hd & Hp). congruence.
  - apply lookup_ge_None. apply lookup_ge_None in Ew. by rewrite <- (Forall2_length _ _ _ H).
Qed.

(** The score of a worker, when its plan exists. *)
Definition worker_score cm request workers residency (w : WorkerState) : option (Z * RouteDecision) :=
  d ← plan_for_worker cm request w (worker_map workers) residency;
  s ← greedy_score w d;
  Some (s, d).

Lemma greedy_loop_scores cm request workers residency ws best r :
  greedy_loop cm request (worker_map workers) residency ws best = Some r →
  ∃ scores, mapM (worker_score cm request workers residency) ws = Some scores
    ∧ r = foldl (λ b y, if match b with None => true | Some x => fst y <? fst x end then Some y else b) best scores.
Proof.
  revert best. induction ws as [|w ws IH]; intros best; cbn [greedy_loop mapM].
  - intros [= <-]. by exists [].
  - destruct (plan_for_worker _ _ w _ _) as [d|] eqn:Ed; [|done]. cbn [mbind option_bind].
    destruct (greedy_score w d) as [s|] eqn:Es; [|done]. cbn [mbind option_bind].
    intros (scores & Hs & ->)%IH. exists ((s, d) :: scores).
    assert (worker_score cm request workers residency w = Some (s, d)) as ->
      by (unfold worker_score; rewrite Ed; cbn [mbind option_bind]; by rewrite Es).
    cbn [mbind option_bind]. rewrite Hs. split; [done|]. cbn [foldl fst]. by destruct best as [[]|].
Qed.

Lemma fold_best_min_by (scores : list (Z * RouteDecision)) x :
  foldl (λ b y, if match b with None => true | Some x => fst y <? fst x end then Some y else b) (Some x) scores
  = Some (foldl (λ b y, if fst y <? fst b then y else b) x scores).
Proof. revert x. induction scores as [|y scores IH]; intros x; cbn [foldl]; [done|]. case_match; apply IH. Qed.

(** The greedy policy returns the plan of a worker whose score (TTFT + TPOT + 4 x SLO
    violation + 1000 x running decodes) is minimal over the fleet, the first such worker. *)
Theorem greedy_first_minimum cm request workers residency d :
  greedy_route cm request workers residency = Some (Ok d) →
  ∃ i w s, workers !! i = Some w ∧ worker_score cm request workers residency w = Some (s, d)
    ∧ ∀ j w', workers !! j = Some w' →
        ∃ s' d', worker_score cm request workers residency w' = Some (s', d')
          ∧ s ≤ s' ∧ ((j < i)%nat → s < s').
Proof.
  unfold greedy_route. destruct workers as [|w0 ws0]; [done|]. set (workers := w0 :: ws0).
  intros (best & (scores & Hsc & ->)%greedy_loop_scores & H)%bind_Some.
  apply mapM_Some in Hsc.
  destruct scores as [|x scores]; [by inversion Hsc|]. cbn [foldl] in H. rewrite fold_best_min_by in H.
  cbn [mbind option_bind] in H.
  set (y := foldl _ x scores) in H. destruct y as [s d'] eqn:Ey. injection H as <-.
  assert (Hm : min_by (λ a b : Z * RouteDecision, fst a <? fst b) (x :: scores) = Some (s, d')) by (cbn; by subst y; rewrite Ey).
  destruct (min_by_is_first_min _ (StrictWeak0 := sw_by_key fst) _ _ Hm) as (i & Hi & Hmin & Hfst).
  destruct (Forall2_lookup_r _ _ _ _ _ Hsc Hi) as (w & Hw & Hws). exists i, w, s. split_and!; [done..|].
  intros j w' Hj. destruct (Forall2_lookup_l _ _ _ _ _ Hsc Hj) as ([s' d''] & Hs' & Hws').
  exists s', d''. split; [done|]. specialize (Hmin _ _ Hs'). apply Z.ltb_ge in Hmin. cbn in Hmin.
  split; [done|]. intros Hlt. specialize (Hfst _ _ Hlt Hs'). by apply Z.ltb_lt in Hfst.
Qed.

#[local] Instance feasible_sw : StrictWeak feasible_lt.
Proof. split; unfold feasible_lt; intros *; rewrite ?orb_false_iff, ?orb_true_iff, ?andb_true_iff, ?andb_false_iff, ?Z.ltb_lt, ?Z.ltb_ge, ?Z.eqb_eq, ?Z.eqb_neq; lia. Qed.
#[local] Instance violation_sw : StrictWeak violation_lt.
Proof. split; unfold violation_lt; intros *; rewrite ?orb_false_iff, ?orb_true_iff, ?andb_true_iff, ?andb_false_iff, ?Z.ltb_lt, ?Z.ltb_ge, ?Z.eqb_eq, ?Z.eqb_neq; lia. Qed.

(** [d]'s rank among SLO-feasible plans, and among infeasible ones. *)
Definition hits (d : RouteDecision) : Z := Z.of_nat (length (local_hits d)).

Lemma slo_aware_least cm request workers residency d :
  slo_aware_route cm request workers residency = Some (Ok d) →
  planned cm request workers residency d
  ∧ ∀ d', planned cm request workers residency d' →
      (slo_violation_us d' = 0 → slo_violation_us d = 0 ∧ hits d' ≤ hits d
         ∧ (hits d' = hits d → estimated_ttft_us d ≤ estimated_ttft_us d'))
      ∧ (slo_violation_us d ≠ 0 → slo_violation_us d ≤ slo_violation_us d'
         ∧ (slo_violation_us d' = slo_violation_us d → hits d' ≤ hits d)).
Proof.
  unfold slo_aware_route. destruct workers as [|w0 ws0]; [done|]. set (workers := w0 :: ws0).
  intros (plans & Hpl & (d0 & Hch & [= ->])%bind_Some)%bind_Some.
  assert (Hiff : ∀ x, planned cm request workers residency x ↔ x ∈ plans).
  { intros x. unfold planned. split.
    - intros (w & (i & Hw)%list_elem_of_lookup & Hp). apply list_elem_of_lookup. exists i.
      by rewrite (plan_all_lookup _ _ _ _ _ _ Hpl), Hw.
    - intros (i & Hi)%list_elem_of_lookup. rewrite (plan_all_lookup _ _ _ _ _ _ Hpl) in Hi.
      apply bind_Some in Hi as (w & Hw & Hp). exists w. split; [by eapply list_elem_of_lookup_2|done]. }
  setoid_rewrite Hiff. clear Hiff Hpl. unfold slo_choose in Hch.
  destruct (max_by feasible_lt _) as [m|] eqn:Em.
  - injection Hch as ->. destruct (max_by_is_last_max feasible_lt _ _ Em) as (i & Hi & Hmax & _).
    apply list_elem_of_lookup_2, list_elem_of_filter in Hi as (Hv & Hin). split; [done|].
    intros d' Hd'. split; [|lia]. intros Hv'. split; [done|].
    assert (Hf : d' ∈ filter (λ d, slo_violation_us d = 0) plans) by by apply list_elem_of_filter.
    apply list_elem_of_lookup in Hf as (j & Hj). specialize (Hmax _ _ Hj). unfold feasible_lt in Hmax.
    apply orb_false_iff in Hmax as (H1 & H2). unfold hits. apply Z.ltb_ge in H1. split; [done|].
    intros He. rewrite He, Z.eqb_refl in H2. cbn in H2. by apply Z.ltb_ge in H2.
  - apply max_by_nil in Em. destruct (min_by_is_first_min violation_lt _ _ Hch) as (i & Hi & Hmin & _).
    split; [by eapply list_elem_of_lookup_2|]. intros d' Hd'. split.
    + intros Hv. assert (Hf : d' ∈ filter (λ d, slo_violation_us d = 0) plans) by by apply list_elem_of_filter.
      rewrite Em in Hf. by apply not_elem_of_nil in Hf.
    + intros _. apply list_elem_of_lookup in Hd' as (j & Hj). specialize (Hmin _ _ Hj). unfold violation_lt in Hmin.
      apply orb_false_iff in Hmin as (H1 & H2). unfold hits. apply Z.ltb_ge in H1. split; [done|].
      intros He. rewrite He, Z.eqb_refl in H2. cbn in H2. by apply Z.ltb_ge in H2.
Qed.

(** The SLO-aware policy: while some worker meets the SLO, the decision meets it and has
    the most local hits among the workers that do, with the lowest TTFT on equal hits;
    otherwise it has the least violation of the fleet, with the most hits on equal violation. *)
Theorem slo_aware_choice cm request workers residency d :
  slo_aware_route cm request workers residency = Some (Ok d) →
  planned cm request workers residency d
  ∧ ∀ d', planned cm request workers residency d' →
      (slo_violation_us d' = 0 → slo_violation_us d = 0 ∧ hits d' ≤ hits d
         ∧ (hits d' = hits d → estimated_ttft_us d ≤ estimated_ttft_us d'))
      ∧ (slo_violation_us d ≠ 0 → slo_violation_us d ≤ slo_violation_us d'
         ∧ (slo_violation_us d' = slo_violation_us d → hits d' ≤ hits d)).
Proof. apply slo_aware_least. Qed.

Lemma plan_worker_id cm request target by_id residency d :
  plan_for_worker cm request target by_id residency = Some d → rd_worker_id d = w_id target.
Proof. unfold plan_for_worker. intros H. repeat (apply bind_Some in H as (? & _ & H)). by injection H as <-. Qed.

Section affinity.
Context `{KeyHash}.

(** Prefix affinity sends two requests with the same first prefix hash to the same
    worker, whatever the residency when each of them arrives. *)
Theorem prefix_affinity_sticky cm r1 r2 workers res1 res2 d1 d2 :
  affinity_key r1 = affinity_key r2 →
  prefix_affinity_route cm r1 workers res1 = Some (Ok d1) →
  prefix_affinity_route cm r2 workers res2 = Some (Ok d2) →
  rd_worker_id d1 = rd_worker_id d2.
Proof.
  unfold prefix_affinity_route. intros Hk. destruct workers as [|w ws]; [done|]. set (workers := w :: ws).
  intros (t1 & Ht1 & (x1 & Hp1 & [= ->])%bind_Some)%bind_Some (t2 & Ht2 & (x2 & Hp2 & [= ->])%bind_Some)%bind_Some.
  rewrite (plan_worker_id _ _ _ _ _ _ Hp1), (plan_worker_id _ _ _ _ _ _ Hp2). congruence.
Qed.

Lemma length_ltb_sw : StrictWeak (λ a b, (length (local_hits a) <? length (local_hits b))%nat).
Proof. split; intros *; rewrite ?Nat.ltb_lt, ?Nat.ltb_ge; lia. Qed.

(** Session affinity follows the session's KV: when some worker holds a block of the
    request in its HBM at the best price, the decision has the most local hits of the
    fleet; on a cold session it is the plan of the home worker that the hash of the
    session id (or of the conversation's root prefix) names. *)
Theorem session_affinity_follows cm request workers residency d :
  session_affinity_route cm request workers residency = Some (Ok d) →
  planned cm request workers residency d
  ∧ (∀ d', planned cm request workers residency d' → hits d' ≤ hits d)
  ∧ (hits d = 0 → ∃ w, pick_hashed (session_key request) workers = Some w ∧ rd_worker_id d = w_id w).
Proof.
  unfold session_affinity_route. destruct workers as [|w0 ws0]; [done|]. set (workers := w0 :: ws0).
  intros (plans & Hpl & Hr)%bind_Some.
  assert (Hiff : ∀ x, planned cm request workers residency x → x ∈ plans).
  { intros x (w & (i & Hw)%list_elem_of_lookup & Hp). apply list_elem_of_lookup. exists i.
    by rewrite (plan_all_lookup _ _ _ _ _ _ Hpl), Hw. }
  destruct (max_by _ plans) as [m|] eqn:Em.
  2: { exfalso. apply max_by_nil in Em. subst plans. pose proof (plan_all_lookup _ _ _ _ _ 0%nat Hpl) as E.
       unfold plan_all in Hpl. apply mapM_Some in Hpl. inversion Hpl. }
  destruct (max_by_is_last_max _ (StrictWeak0 := length_ltb_sw) _ _ Em) as (i & Hi & Hmax & _).
  assert (Hle : ∀ d', planned cm request workers residency d' → hits d' ≤ hits m).
  { intros d' (j & Hj)%Hiff%list_elem_of_lookup. specialize (Hmax _ _ Hj). apply Nat.ltb_ge in Hmax. unfold hits. lia. }
  case_bool_decide as Hm.
  - apply bind_Some in Hr as (t & Ht & (x & Hp & [= ->])%bind_Some).
    assert (Hd : planned cm request workers residency d).
    { exists t. split; [|done]. unfold pick_hashed in Ht. case_match; [done|]. by eapply vget_elem_of. }
    assert (H0 : hits m = 0) by (unfold hits; by rewrite Hm).
    split_and!; [done| |].
    + intros d' Hd'. specialize (Hle d' Hd'). unfold hits in *. lia.
    + intros _. exists t. split; [done|]. by apply plan_worker_id in Hp.
  - injection Hr as ->. split_and!; [|done|].
    + rewrite (plan_all_lookup _ _ _ _ _ _ Hpl) in Hi. apply bind_Some in Hi as (w & Hw & Hp).
      exists w. split; [by eapply list_elem_of_lookup_2|done].
    + intros Hz. destruct (local_hits d) eqn:E; [done|]. unfold hits in Hz. rewrite E in Hz. cbn in Hz. lia.
Qed.
End affinity.

(** ** Fairness of round robin *)

(** A sequence of requests through one router, each with the residency it sees. *)
Fixpoint rr_run (cm : CostModel) (workers : list WorkerState) (reqs : list (RequestShape * list CacheResidency)) (next : Z) :
    option (list RouteDecision * Z) :=
  match reqs with
  | [] => Some ([], next)
  | (r, res) :: reqs' =>
      '(x, next') ← round_robin_route cm r workers res next;
      match x with
      | Err _ => None
      | Ok d => '(ds, n) ← rr_run cm workers reqs' next'; Some (d :: ds, n)
      end
  end.

Lemma land_u64_small n : 0 ≤ n ≤ u64_max → Z.land n u64_max = n.
Proof. intros Hn. change u64_max with (Z.ones 64). rewrite Z.land_ones by lia. apply Z.mod_small. unfold u64_max in Hn. lia. Qed.

Lemma rr_run_targets cm workers reqs next ds n' :
  rr_run cm workers reqs next = Some (ds, n') → 0 ≤ next → next + Z.of_nat (length reqs) ≤ u64_max →
  Forall2 (λ (i : nat) d, ∃ w, workers !! ((Z.to_nat next + i) mod length workers)%nat = Some w ∧ rd_worker_id d = w_id w)
    (seq 0 (length reqs)) ds.
Proof.
  revert next ds. induction reqs as [|[r res] reqs IH]; intros next ds; cbn [rr_run length seq].
  { intros [= <- <-] _ _. constructor. }
  intros ([x next'] & Hr & H)%bind_Some H0 Hmax. unfold round_robin_route in Hr.
  destruct workers as [|w0 ws0]; [by injection Hr as <- <-|]. set (workers := w0 :: ws0) in *.
  apply bind_Some in Hr as (w & Hw & (d & Hp & [= <- <-])%bind_Some).
  apply bind_Some in H as ([ds' n''] & Hrun & [= <- <-]).
  rewrite land_u64_small in Hrun by lia. constructor.
  - exists w. split; [|by apply plan_worker_id in Hp]. apply vget_Some in Hw as (Hge & Hw).
    rewrite Nat.add_0_r. rewrite <- Hw. f_equal. rewrite Z2Nat.inj_mod, Nat2Z.id by lia. done.
  - apply IH in Hrun; [|lia..]. rewrite <- seq_shift. apply Forall2_fmap_l. eapply Forall2_impl; [done|].
    cbn. intros i y (w' & Hw' & Hy). exists w'. split; [|done].
    by replace (Z.to_nat next + S i)%nat with (Z.to_nat (next + 1) + i)%nat by lia.
Qed.

(** Round robin is fair: any window of as many consecutive requests as there are
    workers, whatever they ask for, sends exactly one request to each worker (until the
    64-bit counter wraps). *)
Theorem round_robin_fair cm workers reqs next ds n' :
  rr_run cm workers reqs next = Some (ds, n') → length reqs = length workers →
  0 ≤ next → next + Z.of_nat (length reqs) ≤ u64_max →
  rd_worker_id <$> ds ≡ₚ w_id <$> workers.
Proof.
  intros Hrun Hlen H0 Hmax. pose proof (rr_run_targets _ _ _ _ _ _ Hrun H0 Hmax) as Ht. rewrite Hlen in Ht.
  assert (E : rd_worker_id <$> ds = w_id <$> rotate (Z.to_nat next) workers).
  { apply list_eq_same_length with (n := length workers).
    - by rewrite length_fmap, length_rotate.
    - rewrite length_fmap. apply Forall2_length in Ht. by rewrite length_seq in Ht.
    - intros i x y Hi. rewrite !list_lookup_fmap, !fmap_Some. intros (d & Hd & ->) (w & Hw & ->).
      destruct (Forall2_lookup_r _ _ _ _ _ Ht Hd) as (k & Hk & w' & Hw' & ->).
      apply lookup_seq in Hk as (-> & _). cbn in Hw'.
      rewrite lookup_rotate_r in Hw by done. unfold rotate_nat_add in Hw.
      rewrite Z2Nat.inj_mod, Z2Nat.inj_add, !Nat2Z.id in Hw by lia. congruence. }
  rewrite E. apply fmap_Permutation. unfold rotate. rewrite Permutation_app_comm. by rewrite take_drop.
Qed.

Definition rx_block (h : string) (i : Z) : KvBlockKey := key_new "llama" "tok" "tenant-a" "p0" h i 128.
Definition rx_request : RequestShape :=
  mkRequest "req-1" "llama" "tok" None "tenant-a" None [rx_block "shared" 0; rx_block "own" 1] 64 slo_default.
Definition rx_fleet : list WorkerState :=
  [worker_with_load 4000 2 (worker_new "w0" "rack-a"); worker_with_load 100 1 (worker_new "w1" "rack-a");
   worker_with_load 0 9 (worker_new "w2" "rack-b")].
Definition rx_residency : list CacheResidency :=
  [residency_hbm "w0" (rx_block "shared" 0) 1048576; residency_hbm "w1" (rx_block "shared" 0) 1048576].

#[local] Existing Instance length_hash.
#[local] Instance rx_libm : Libm := {| f64_exp := λ _, f64_of_u64 1 |}.

Definition rx_none : RouteDecision := mkDecision "" "" [] [] [] 0 0 0.
Definition rx_get (r : option (result RouterError RouteDecision)) : RouteDecision :=
  match r with Some (Ok d) => d | _ => rx_none end.
Definition rx_plan : RouteDecision :=
  default rx_none (plan_for_worker cost_default rx_request (worker_new "w2" "rack-b") (worker_map rx_fleet) rx_residency).
Definition rx_greedy : RouteDecision := rx_get (greedy_route cost_default rx_request rx_fleet rx_residency).
Definition rx_slo : RouteDecision := rx_get (slo_aware_route cost_default rx_request rx_fleet rx_residency).
Definition rx_prefix : RouteDecision := rx_get (prefix_affinity_route cost_default rx_request rx_fleet rx_residency).
Definition rx_prefix_cold : RouteDecision := rx_get (prefix_affinity_route cost_default rx_request rx_fleet []).
Definition rx_session : RouteDecision := rx_get (session_affinity_route cost_default rx_request rx_fleet rx_residency).
Definition rx_reqs : list (RequestShape * list CacheResidency) :=
  [(rx_request, rx_residency); (rx_request, []); (rx_request, rx_residency)].
Definition rx_rr : list RouteDecision * Z := default ([], 0) (rr_run cost_default rx_fleet rx_reqs 7).

Lemma plan_cheapest_witness :
  length (transfers rx_plan) = 1%nat
  ∧ Forall (transfer_ok cost_default (worker_new "w2" "rack-b") (worker_map rx_fleet) rx_residency) (transfers rx_plan).
Proof.
  split; [vm_compute; reflexivity|].
  exact (proj1 (proj2 (proj2 (plan_cheapest cost_default rx_request (worker_new "w2" "rack-b") (worker_map rx_fleet)
    rx_residency rx_plan ltac:(vm_compute; reflexivity))))).
Defined.

Lemma rx_cost_ok : cost_ok cost_default.
Proof. constructor; unfold cost_field; cbn; lia. Qed.
Lemma rx_request_ok : request_ok rx_request.
Proof. constructor; cbn; unfold is_u32; try lia. repeat constructor; cbn; lia. Qed.
Lemma rx_fleet_ok : Forall worker_ok rx_fleet.
Proof. repeat constructor; cbn; lia. Qed.
Lemma rx_residency_ok : Forall residency_ok rx_residency.
Proof. repeat constructor; cbn; unfold u64_max; lia. Qed.

Lemma policy_route_total_witness :
  ∃ d next', policy_route SloAware cost_default rx_request rx_fleet rx_residency 0 = Some (Ok d, next')
             ∧ planned cost_default rx_request rx_fleet rx_residency d.
Proof.
  apply (policy_route_total SloAware cost_default rx_request rx_fleet rx_residency 0
    rx_cost_ok rx_request_ok rx_fleet_ok rx_residency_ok). discriminate.
Defined.

Lemma greedy_first_minimum_witness :
  rd_worker_id rx_greedy = "w1"
  ∧ ∃ i w s, rx_fleet !! i = Some w ∧ worker_score cost_default rx_request rx_fleet rx_residency w = Some (s, rx_greedy)
    ∧ ∀ j w', rx_fleet !! j = Some w' →
        ∃ s' d', worker_score cost_default rx_request rx_fleet rx_residency w' = Some (s', d') ∧ s ≤ s' ∧ ((j < i)%nat → s < s').
Proof.
  split; [vm_compute; reflexivity|].
  exact (greedy_first_minimum cost_default rx_request rx_fleet rx_residency rx_greedy ltac:(vm_compute; reflexivity)).
Defined.

Lemma slo_aware_choice_witness :
  rd_worker_id rx_slo = "w1" ∧ slo_violation_us rx_slo = 0 ∧ planned cost_default rx_request rx_fleet rx_residency rx_slo.
Proof.
  split; [vm_compute; reflexivity|]. split; [vm_compute; reflexivity|].
  exact (proj1 (slo_aware_choice cost_default rx_request rx_fleet rx_residency rx_slo ltac:(vm_compute; reflexivity))).
Defined.

Lemma prefix_affinity_sticky_witness : rd_worker_id rx_prefix = rd_worker_id rx_prefix_cold.
Proof.
  exact (prefix_affinity_sticky (H := length_hash) cost_default rx_request rx_request rx_fleet rx_residency [] rx_prefix rx_prefix_cold
    eq_refl ltac:(vm_compute; reflexivity) ltac:(vm_compute; reflexivity)).
Defined.

Lemma session_affinity_follows_witness :
  hits rx_session = 1 ∧ planned cost_default rx_request rx_fleet rx_residency rx_session.
Proof.
  split; [vm_compute; reflexivity|].
  exact (proj1 (session_affinity_follows (H := length_hash) cost_default rx_request rx_fleet rx_residency rx_session ltac:(vm_compute; reflexivity))).
Defined.

Lemma round_robin_fair_witness : rd_worker_id <$> rx_rr.1 ≡ₚ ["w0"; "w1"; "w2"].
Proof.
  exact (round_robin_fair cost_default rx_fleet rx_reqs 7 rx_rr.1 rx_rr.2 ltac:(vm_compute; reflexivity) eq_refl
    ltac:(lia) ltac:(vm_compute; discriminate)).
Defined.
