(* ===== verification/Conductor.v ===== *)
(** * The Conductor: prefix-cache table, event handler and cache-aware routing

    crates/quillcache-core/src/conductor.rs.  The nested [HashMap]s are [gmap]s and the
    [HashSet] of instances a [gset]; no operation's result depends on their iteration
    order.  The walk of [query_overlap] over the remaining hashes is structural. *)
From Corelib Require Import SpecFloat.
From S2P Require Import Prelude F64 Identity Router RouterPlan.

Record ModelContext : Type := mkContext {
  c_tenant_id : string;
  c_model_id : string;
  c_tokenizer_id : string;
  c_lora_id : option string;
  c_block_size : Z;
  c_salt : option string
}.
#[export] Instance ModelContext_eq_dec : EqDecision ModelContext.
Proof. solve_decision. Defined.
#[export] Instance ModelContext_countable : Countable ModelContext.
Proof.
  refine (inj_countable' (λ k, (c_tenant_id k, c_model_id k, c_tokenizer_id k, c_lora_id k, c_block_size k, c_salt k))
    (λ '(a, b, c, d, e, f), mkContext a b c d e f) _).
  by intros [].
Defined.

Definition from_scope (s : IdentityScope) (block_size : Z) : ModelContext :=
  mkContext (s_tenant_id s) (s_model_id s) (s_tokenizer_id s) (s_adapter_id s) block_size None.

(** ** The table *)

Notation PrefixTable := (gmap string (gset string)).
Record PrefixCacheTable : Type := mkTable { tables : gmap ModelContext PrefixTable }.
Definition pct_new : PrefixCacheTable := mkTable ∅.

Definition pct_insert (ctx : ModelContext) (prefix_hashes : list string) (instance : string) (t : PrefixCacheTable) : PrefixCacheTable :=
  let table := default ∅ (tables t !! ctx) in
  mkTable (<[ctx := foldl (λ tb ph, <[ph := {[instance]} ∪ default ∅ (tb !! ph)]> tb) table prefix_hashes]> (tables t)).

Definition pct_remove (ctx : ModelContext) (ph : string) (instance : string) (t : PrefixCacheTable) : PrefixCacheTable :=
  match tables t !! ctx with
  | None => t
  | Some table =>
      match table !! ph with
      | None => t
      | Some s => let s' := s ∖ {[instance]} in
                  mkTable (<[ctx := if decide (s' = ∅) then delete ph table else <[ph := s']> table]> (tables t))
      end
  end.

(** [values_mut] and the two [retain]s. *)
Definition table_remove_instance (instance : string) (table : PrefixTable) : PrefixTable :=
  filter (λ ks : string * gset string, ks.2 ≠ ∅) ((λ s : gset string, s ∖ {[instance]}) <$> table).
Definition pct_remove_instance (instance : string) (t : PrefixCacheTable) : PrefixCacheTable :=
  mkTable (filter (λ kt : ModelContext * PrefixTable, kt.2 ≠ ∅) (table_remove_instance instance <$> tables t)).

(** The [while] loop: how many of the hashes in a row the instance has. *)
Fixpoint walk (table : PrefixTable) (instance : string) (hashes : list string) (len : Z) : Z :=
  match hashes with
  | [] => len
  | ph :: hashes' =>
      if match table !! ph with Some s => bool_decide (instance ∈ s) | None => false end
      then walk table instance hashes' (len + 1) else len
  end.

Definition query_overlap (ctx : ModelContext) (prefix_hashes : list string) (t : PrefixCacheTable) : gmap string Z :=
  match tables t !! ctx with
  | None => ∅
  | Some table =>
      match prefix_hashes with
      | [] => ∅
      | p0 :: rest =>
          match table !! p0 with
          | None => ∅
          | Some first => foldr (λ i m, <[i := walk table i rest 1]> m) ∅ (elements first)
          end
      end
  end.

Definition context_count (t : PrefixCacheTable) : Z := Z.of_nat (size (tables t)).

(** ** Events *)

Inductive KvCacheEvent : Type :=
| BlockStored (ctx : ModelContext) (prefix_hashes : list string) (instance : string)
| BlockRemoved (ctx : ModelContext) (ph : string) (instance : string)
| InstanceGone (instance : string).

Definition handle (e : KvCacheEvent) (t : PrefixCacheTable) : PrefixCacheTable :=
  match e with
  | BlockStored ctx hs i => pct_insert ctx hs i t
  | BlockRemoved ctx h i => pct_remove ctx h i t
  | InstanceGone i => pct_remove_instance i t
  end.

(** [Conductor::default] uses the default [DynamoCostRouter]; [observe] is [handle]. *)
Record Conductor : Type := mkConductor { events_table : PrefixCacheTable; cond_router : DynamoCostConfig }.
Definition conductor_new : Conductor := mkConductor pct_new dynamo_default.
Definition observe (e : KvCacheEvent) (c : Conductor) : Conductor := mkConductor (handle e (events_table c)) (cond_router c).

Definition conductor_cost (c : Conductor) (ctx : ModelContext) (hashes : list string) (w : WorkerState) : f64 :=
  cost_with_overlap (cond_router c) (Z.of_nat (length hashes)) (queued_prefill_tokens w) (running_decodes w)
    (default 0 (query_overlap ctx hashes (events_table c) !! w_id w)).
Definition conductor_route (c : Conductor) (ctx : ModelContext) (hashes : list string) (workers : list WorkerState) : option string :=
  if bool_decide (workers = []) then None
  else w_id <$> min_by (λ a b, f64_total_lt (conductor_cost c ctx hashes a) (conductor_cost c ctx hashes b)) workers.

(** ** The specification: which instance holds which prefix in which context *)

Notation Fact3 := (ModelContext * string * string)%type.

Definition spec_event (facts : gset Fact3) (e : KvCacheEvent) : gset Fact3 :=
  match e with
  | BlockStored ctx hs i => list_to_set ((λ h, (ctx, h, i)) <$> hs) ∪ facts
  | BlockRemoved ctx h i => facts ∖ {[(ctx, h, i)]}
  | InstanceGone i => filter (λ f : Fact3, f.2 ≠ i) facts
  end.

(** The number of leading hashes the instance holds without a gap. *)
Fixpoint leading (facts : gset Fact3) (ctx : ModelContext) (i : string) (hs : list string) : Z :=
  match hs with
  | [] => 0
  | h :: hs' => if decide ((ctx, h, i) ∈ facts) then 1 + leading facts ctx i hs' else 0
  end.

(** The table represents the facts; no empty set of instances is kept. *)
Definition instances_of (t : PrefixCacheTable) (ctx : ModelContext) (h : string) : gset string :=
  default ∅ (tb ← tables t !! ctx; tb !! h).
Record represents (t : PrefixCacheTable) (facts : gset Fact3) : Prop := mkRepresents {
  rp_facts : ∀ ctx h i, i ∈ instances_of t ctx h ↔ (ctx, h, i) ∈ facts;
  rp_nonempty : ∀ ctx tb h, tables t !! ctx = Some tb → tb !! h ≠ Some ∅
}.

Lemma insert_loop_lookup hs i (tb : PrefixTable) h :
  foldl (λ tb ph, <[ph := {[i]} ∪ default ∅ (tb !! ph)]> tb) tb hs !! h =
  if decide (h ∈ hs) then Some ({[i]} ∪ default ∅ (tb !! h)) else tb !! h.
Proof.
  revert tb. induction hs as [|p hs IH]; intros tb; cbn [foldl].
  { by rewrite decide_False by set_solver. }
  rewrite IH. destruct (decide (p = h)) as [->|Hne].
  - rewrite lookup_insert_eq, (decide_True _ _ (P := h ∈ h :: hs)) by set_solver. cbn.
    case_decide; [|done]. f_equal. set_solver.
  - rewrite lookup_insert_ne by done. destruct (decide (h ∈ hs)).
    + by rewrite decide_True by set_solver.
    + by rewrite decide_False by set_solver.
Qed.

Lemma represents_insert t facts ctx hs i : represents t facts →
  represents (pct_insert ctx hs i t) (spec_event facts (BlockStored ctx hs i)).
Proof.
  intros [Hf Hn]. unfold instances_of in Hf. split.
  - intros ctx' h i'. unfold instances_of, pct_insert. cbn [tables spec_event].
    rewrite elem_of_union, <- Hf, elem_of_list_to_set, list_elem_of_fmap.
    destruct (decide (ctx = ctx')) as [<-|Hne].
    + rewrite lookup_insert_eq. cbn [mbind option_bind]. rewrite insert_loop_lookup.
      destruct (tables t !! ctx) as [tb|] eqn:E; cbn; case_decide; cbn; set_solver.
    + rewrite lookup_insert_ne by done. set_solver.
  - intros ctx' tb h. unfold pct_insert. cbn [tables]. destruct (decide (ctx = ctx')) as [<-|Hne].
    + rewrite lookup_insert_eq. intros [= <-]. rewrite insert_loop_lookup. case_decide; [intros [=]; set_solver|].
      destruct (tables t !! ctx) as [tb|] eqn:E; cbn; [by eapply Hn|done].
    + rewrite lookup_insert_ne by done. apply Hn.
Qed.

Lemma represents_remove t facts ctx h i : represents t facts →
  represents (pct_remove ctx h i t) (spec_event facts (BlockRemoved ctx h i)).
Proof.
  intros [Hf Hn]. cbn [spec_event]. unfold pct_remove.
  destruct (tables t !! ctx) as [tb|] eqn:Et.
  2: { split; [|done]. intros c h' i'. specialize (Hf c h' i') as Hf'. rewrite elem_of_difference, elem_of_singleton, <- Hf'.
       split; [|tauto]. intros H. split; [done|]. intros [= -> -> ->]. unfold instances_of in H. rewrite Et in H. cbn in H. set_solver. }
  destruct (tb !! h) as [s|] eqn:Es.
  2: { split; [|done]. intros c h' i'. specialize (Hf c h' i') as Hf'. rewrite elem_of_difference, elem_of_singleton, <- Hf'.
       split; [|tauto]. intros H. split; [done|]. intros [= -> -> ->]. unfold instances_of in H. rewrite Et in H. cbn in H.
       rewrite Es in H. cbn in H. set_solver. }
  split.
  - intros c h' i'. rewrite elem_of_difference, elem_of_singleton, <- Hf. unfold instances_of. cbn [tables].
    destruct (decide (ctx = c)) as [<-|Hne]; [|rewrite lookup_insert_ne by done; naive_solver].
    rewrite lookup_insert_eq, Et. cbn [mbind option_bind]. destruct (decide (h = h')) as [<-|Hne].
    + rewrite Es. cbn. destruct (decide (s ∖ {[i]} = ∅)) as [E|E].
      * rewrite lookup_delete_eq. cbn. set_solver.
      * rewrite lookup_insert_eq. cbn. rewrite elem_of_difference, elem_of_singleton. naive_solver.
    + assert (E : (if decide (s ∖ {[i]} = ∅) then delete h tb else <[h := s ∖ {[i]}]> tb) !! h' = tb !! h')
        by (case_decide; [by rewrite lookup_delete_ne|by rewrite lookup_insert_ne]).
      rewrite E. naive_solver.
  - intros c tb' h'. cbn [tables]. destruct (decide (ctx = c)) as [<-|Hne]; [|rewrite lookup_insert_ne by done; apply Hn].
    rewrite lookup_insert_eq. intros [= <-]. destruct (decide (s ∖ {[i]} = ∅)) as [E|E].
    + intros (_ & ?)%lookup_delete_Some. by eapply Hn.
    + intros [(_ & ?)|(_ & ?)]%lookup_insert_Some; [done|by eapply Hn].
Qed.

Lemma table_remove_instance_lookup i tb h s :
  table_remove_instance i tb !! h = Some s ↔ ∃ s0, tb !! h = Some s0 ∧ s = s0 ∖ {[i]} ∧ s ≠ ∅.
Proof.
  unfold table_remove_instance. rewrite map_lookup_filter_Some, lookup_fmap, fmap_Some. cbn. naive_solver.
Qed.

Lemma represents_gone t facts i : represents t facts →
  represents (pct_remove_instance i t) (spec_event facts (InstanceGone i)).
Proof.
  intros [Hf Hn]. unfold pct_remove_instance. split.
  - intros c h i'. cbn [spec_event]. rewrite elem_of_filter, <- Hf. unfold instances_of. cbn [tables snd].
    split.
    + destruct (filter _ _ !! c) as [tb|] eqn:E; [|cbn; set_solver].
      apply map_lookup_filter_Some in E as (E & _). rewrite lookup_fmap in E. apply fmap_Some in E as (tb0 & E0 & ->).
      cbn [mbind option_bind]. destruct (table_remove_instance i tb0 !! h) as [s|] eqn:Es; [|cbn; set_solver].
      apply table_remove_instance_lookup in Es as (s0 & Hs0 & -> & _). rewrite E0. cbn. rewrite Hs0. cbn. set_solver.
    + intros (Hne & Hin). destruct (tables t !! c) as [tb0|] eqn:E0; [|cbn in Hin; set_solver]. cbn [mbind option_bind] in Hin.
      destruct (tb0 !! h) as [s0|] eqn:Es; [|cbn in Hin; set_solver]. cbn in Hin.
      assert (Hs : table_remove_instance i tb0 !! h = Some (s0 ∖ {[i]})).
      { apply table_remove_instance_lookup. exists s0. split_and!; [done..|]. set_solver. }
      assert (filter (λ kt : ModelContext * PrefixTable, kt.2 ≠ ∅) (table_remove_instance i <$> tables t) !! c
              = Some (table_remove_instance i tb0)) as ->.
      { apply map_lookup_filter_Some. rewrite lookup_fmap, E0. split; [done|]. cbn. intros E. rewrite E in Hs. done. }
      cbn [mbind option_bind]. rewrite Hs. cbn. set_solver.
  - intros c tb h (E & _)%map_lookup_filter_Some. rewrite lookup_fmap in E. apply fmap_Some in E as (tb0 & E0 & ->).
    intros (s0 & _ & _ & Hne)%table_remove_instance_lookup. done.
Qed.

Lemma represents_handle t facts e : represents t facts → represents (handle e t) (spec_event facts e).
Proof. destruct e; [apply represents_insert|apply represents_remove|apply represents_gone]. Qed.

Lemma represents_new : represents pct_new ∅.
Proof. split; [|by intros ctx tb h; cbn; rewrite lookup_empty]. intros. unfold instances_of. cbn. rewrite lookup_empty. cbn. set_solver. Qed.

Lemma represents_run evs t facts : represents t facts →
  represents (foldl (λ t e, handle e t) t evs) (foldl spec_event facts evs).
Proof. revert t facts. induction evs as [|e evs IH]; intros t facts H; cbn; [done|]. by apply IH, represents_handle. Qed.

(** ** The query *)

Lemma walk_leading t facts ctx tb i hs n : represents t facts → tables t !! ctx = Some tb →
  walk tb i hs n = n + leading facts ctx i hs.
Proof.
  intros [Hf _] Ht. revert n. induction hs as [|h hs IH]; intros n; cbn [walk leading]; [lia|].
  specialize (Hf ctx h i). unfold instances_of in Hf. rewrite Ht in Hf. cbn [mbind option_bind] in Hf.
  destruct (tb !! h) as [s|]; cbn in Hf.
  - case_bool_decide; case_decide; try tauto; [rewrite IH|]; lia.
  - case_decide; [set_solver|lia].
Qed.

Lemma foldr_insert_lookup (f : string → Z) l i :
  foldr (λ i m, <[i := f i]> m) (∅ : gmap string Z) l !! i = if decide (i ∈ l) then Some (f i) else None.
Proof.
  induction l as [|x l IH]; cbn; [by rewrite decide_False by set_solver|].
  destruct (decide (x = i)) as [->|Hne].
  - rewrite lookup_insert_eq, decide_True by set_solver. done.
  - rewrite lookup_insert_ne, IH by done. destruct (decide (i ∈ l)).
    + by rewrite decide_True by set_solver.
    + by rewrite decide_False by set_solver.
Qed.

Lemma leading_nonneg facts ctx i hs : 0 ≤ leading facts ctx i hs.
Proof. induction hs as [|h hs IH]; cbn; [lia|]. case_decide; lia. Qed.

Lemma query_overlap_leading t facts ctx hs i : represents t facts →
  query_overlap ctx hs t !! i = if decide (leading facts ctx i hs = 0) then None else Some (leading facts ctx i hs).
Proof.
  intros Hr. pose proof (λ h, rp_facts _ _ Hr ctx h i) as Hf. unfold instances_of in Hf. unfold query_overlap.
  destruct hs as [|h hs]; [cbn [leading]; rewrite decide_True by done; by destruct (tables t !! ctx)|].
  cbn [leading]. specialize (Hf h). pose proof (leading_nonneg facts ctx i hs).
  destruct (tables t !! ctx) as [tb|] eqn:Et; cbn [mbind option_bind] in Hf.
  2: { rewrite lookup_empty, (decide_False (P := (ctx, h, i) ∈ facts)) by (rewrite <- Hf; cbn; set_solver). by rewrite decide_True. }
  destruct (tb !! h) as [s|]; cbn in Hf.
  2: { rewrite lookup_empty, (decide_False (P := (ctx, h, i) ∈ facts)) by (rewrite <- Hf; set_solver). by rewrite decide_True. }
  rewrite foldr_insert_lookup, (walk_leading _ _ _ _ _ _ _ Hr Et). destruct (decide (i ∈ elements s)) as [Hin|Hin]; rewrite elem_of_elements in Hin.
  - rewrite (decide_True (P := (ctx, h, i) ∈ facts)) by by apply Hf. by rewrite decide_False by lia.
  - rewrite (decide_False (P := (ctx, h, i) ∈ facts)) by (rewrite <- Hf; done). by rewrite decide_True.
Qed.

(** C11 After any sequence of KV events, [query_overlap] answers what the specification
    says: for every instance, the number of leading prefix hashes it still holds in that
    very context without a gap, and no entry for an instance that lacks the first. *)
Theorem overlap_longest_prefix evs ctx hs i :
  query_overlap ctx hs (events_table (foldl (λ c e, observe e c) conductor_new evs)) !! i
  = let n := leading (foldl spec_event ∅ evs) ctx i hs in if decide (n = 0) then None else Some n.
Proof.
  assert (E : ∀ c, events_table (foldl (λ c e, observe e c) c evs) = foldl (λ t e, handle e t) (events_table c) evs).
  { induction evs as [|e evs IH]; intros c; cbn; [done|]. by rewrite IH. }
  rewrite E. apply query_overlap_leading, represents_run, represents_new.
Qed.

(** ** Routing *)

(** The rank of a float in the total order. *)
Definition f64_rank (x : f64) : Z * Z * Z :=
  match x with
  | S754_infinity true => (-3, 0, 0)
  | S754_finite true m e => (-2, - e, - Zpos m)
  | S754_zero true => (-1, 0, 0)
  | S754_zero false => (0, 0, 0)
  | S754_finite false m e => (1, e, Zpos m)
  | S754_infinity false => (2, 0, 0)
  | S754_nan => (3, 0, 0)
  end.
Definition lex_lt (a b : Z * Z * Z) : bool :=
  let '(a1, a2, a3) := a in
  let '(b1, b2, b3) := b in
  (a1 <? b1) || (a1 =? b1) && ((a2 <? b2) || (a2 =? b2) && (a3 <? b3)).

Lemma lex_lt_iff a1 a2 a3 b1 b2 b3 :
  lex_lt (a1, a2, a3) (b1, b2, b3) = true ↔ a1 < b1 ∨ a1 = b1 ∧ (a2 < b2 ∨ a2 = b2 ∧ a3 < b3).
Proof. unfold lex_lt. rewrite !orb_true_iff, !andb_true_iff, !orb_true_iff, !andb_true_iff, !Z.ltb_lt, !Z.eqb_eq. done. Qed.

Lemma f64_total_lt_rank x y : f64_total_lt x y = lex_lt (f64_rank x) (f64_rank y).
Proof.
  apply eq_true_iff_eq. destruct (f64_rank x) as [[a1 a2] a3] eqn:Ex, (f64_rank y) as [[b1 b2] b3] eqn:Ey.
  rewrite lex_lt_iff. unfold f64_total_lt, f64_ltb, SFltb.
  destruct x as [[]|[]| |[] mx ex], y as [[]|[]| |[] my ey]; cbn in Ex, Ey; simplify_eq; cbn [SFcompare]; try (split; [done|lia]).
  all: try (split; [intros _; lia|done]).
  all: match goal with |- context [Pos.compare_cont Eq ?m ?n] => change (Pos.compare_cont Eq m n) with (Pos.compare m n); destruct (Pos.compare_spec m n) end.
  all: match goal with |- context [Z.compare ?m ?n] => destruct (Z.compare_spec m n) end; cbn; split; try done; lia.
Qed.

#[export] Instance f64_total_sw : StrictWeak f64_total_lt.
Proof.
  assert (H : StrictWeak lex_lt).
  { split.
    - intros [[a1 a2] a3] [[b1 b2] b3]. rewrite <- not_true_iff_false, !lex_lt_iff. lia.
    - intros [[a1 a2] a3] [[b1 b2] b3] [[c1 c2] c3]. rewrite !lex_lt_iff. lia. }
  split; intros *; rewrite !f64_total_lt_rank; [apply sw_asym|apply sw_cotrans].
Qed.

#[local] Instance cost_sw (f : WorkerState → f64) : StrictWeak (λ a b, f64_total_lt (f a) (f b)).
Proof. split; intros *; [apply sw_asym|apply sw_cotrans]. Qed.

(** The Dynamo cost of a worker, from the specification's overlap. *)
Definition spec_cost (evs : list KvCacheEvent) (ctx : ModelContext) (hs : list string) (w : WorkerState) : f64 :=
  cost_with_overlap dynamo_default (Z.of_nat (length hs)) (queued_prefill_tokens w) (running_decodes w)
    (leading (foldl spec_event ∅ evs) ctx (w_id w) hs).

Lemma conductor_cost_spec evs ctx hs w :
  conductor_cost (foldl (λ c e, observe e c) conductor_new evs) ctx hs w = spec_cost evs ctx hs w.
Proof.
  assert (E : ∀ c, foldl (λ c e, observe e c) c evs = mkConductor (foldl (λ t e, handle e t) (events_table c) evs) (cond_router c)).
  { induction evs as [|e evs IH]; intros []; cbn; [done|]. by rewrite IH. }
  rewrite E. unfold conductor_cost, spec_cost. cbn [cond_router events_table conductor_new].
  rewrite (query_overlap_leading _ _ _ _ _ (represents_run evs _ _ represents_new)).
  destruct (decide _) as [->|]; done.
Qed.

(** The conductor returns no instance exactly for an empty fleet; otherwise the first
    worker of least Dynamo cost, where the overlap credited to a worker is the leading
    run of prefix hashes that the observed events say it holds in the request's context. *)
Theorem conductor_routes_to_least_cost evs ctx hs workers :
  match conductor_route (foldl (λ c e, observe e c) conductor_new evs) ctx hs workers with
  | None => workers = []
  | Some id => ∃ i w, workers !! i = Some w ∧ w_id w = id
      ∧ (∀ j w', workers !! j = Some w' → f64_total_lt (spec_cost evs ctx hs w') (spec_cost evs ctx hs w) = false)
      ∧ (∀ j w', (j < i)%nat → workers !! j = Some w' → f64_total_lt (spec_cost evs ctx hs w) (spec_cost evs ctx hs w') = true)
  end.
Proof.
  unfold conductor_route. case_bool_decide as Hne; [done|].
  destruct (min_by _ workers) as [w|] eqn:Em; cbn; [|by apply min_by_nil in Em].
  destruct (min_by_is_first_min _ _ _ Em) as (i & Hi & Hmin & Hfst). exists i, w. setoid_rewrite <- conductor_cost_spec.
  split_and!; [done|done|exact Hmin|exact Hfst].
Qed.
