(* ===== verification/Order.v ===== *)
(** * Orders on strings and sort-then-dedup

    [String::cmp] is bytewise lexicographic ([String.compare]); [Vec::sort] followed by
    [Vec::dedup] keeps one copy of every element, in order. *)
From S2P Require Import Prelude.

Lemma string_leb_cons c s d t :
  String.leb (String c s) (String d t) = true ↔
  (Ascii.N_of_ascii c < Ascii.N_of_ascii d)%N ∨ c = d ∧ String.leb s t = true.
Proof.
  unfold String.leb. cbn. unfold Ascii.compare.
  destruct (N.compare_spec (Ascii.N_of_ascii c) (Ascii.N_of_ascii d)) as [E|E|E].
  - apply (f_equal Ascii.ascii_of_N) in E. rewrite !Ascii.ascii_N_embedding in E. subst d.
    split; [by right|]. intros [?|[_ ?]]; [lia|done].
  - split; [by left|done].
  - split; [done|]. intros [?|[-> _]]; lia.
Qed.

Lemma string_leb_trans a b c : String.leb a b = true → String.leb b c = true → String.leb a c = true.
Proof.
  revert b c. induction a as [|x a IH]; intros [|y b] [|z c]; try done.
  rewrite !string_leb_cons. intros [H1|[-> H1]] [H2|[-> H2]]; eauto. left. lia.
Qed.
Lemma string_leb_total a b : String.leb a b = false → String.leb b a = true.
Proof. intros H. by destruct (String.leb_total a b); [congruence|]. Qed.
Lemma string_leb_refl a : String.leb a a = true.
Proof. by destruct (String.leb_total a a). Qed.
Lemma string_leb_antisym a b : String.leb a b = true → String.leb b a = true → a = b.
Proof. apply String.leb_antisym. Qed.

(** Key order first, string order on ties: [a.k.cmp(&b.k).then_with(|| a.s.cmp(&b.s))]. *)
Definition then_leb {A} (key : A → Z) (name : A → string) (a b : A) : bool :=
  (key a <? key b) || (key a =? key b) && String.leb (name a) (name b).

Section then_leb.
Context {A : Type} (key : A → Z) (name : A → string).

Lemma then_leb_iff a b : then_leb key name a b = true ↔ key a < key b ∨ key a = key b ∧ String.leb (name a) (name b) = true.
Proof. unfold then_leb. rewrite orb_true_iff, andb_true_iff, Z.ltb_lt, Z.eqb_eq. done. Qed.

Lemma then_leb_total a b : then_leb key name a b = false → then_leb key name b a = true.
Proof.
  rewrite <- not_true_iff_false, !then_leb_iff. intros H.
  destruct (Z.lt_trichotomy (key a) (key b)) as [?|[E|?]]; [tauto| |tauto].
  right. split; [done|]. apply string_leb_total, not_true_iff_false. tauto.
Qed.

Lemma then_leb_trans a b c : then_leb key name a b = true → then_leb key name b c = true → then_leb key name a c = true.
Proof.
  rewrite !then_leb_iff. intros [H1|[E1 H1]] [H2|[E2 H2]]; [lia..|].
  right. split; [lia|]. by eapply string_leb_trans.
Qed.

Lemma then_sorted l : StronglySorted (λ a b, then_leb key name a b = true) (stable_sort (then_leb key name) l).
Proof. apply stable_sort_sorted; [apply then_leb_total|apply then_leb_trans]. Qed.
End then_leb.

(** [Vec::dedup]: drop an element equal to the one before it. *)
Fixpoint dedup (l : list string) : list string :=
  match l with
  | [] => []
  | x :: l' => match l' with
               | [] => [x]
               | y :: _ => if decide (x = y) then dedup l' else x :: dedup l'
               end
  end.
Definition sort_dedup (l : list string) : list string := dedup (stable_sort String.leb l).

Lemma elem_of_dedup x l : x ∈ dedup l ↔ x ∈ l.
Proof.
  induction l as [|y l IH]; [done|]. cbn [dedup]. destruct l as [|z l]; [done|].
  case_decide; subst; rewrite ?elem_of_cons, ?IH, ?elem_of_cons; tauto.
Qed.

Lemma dedup_sorted_nodup l : StronglySorted (λ a b, String.leb a b = true) l → NoDup (dedup l).
Proof.
  induction 1 as [|x l Hl IH Hx]; [constructor|]. cbn [dedup]. destruct l as [|y l]; [repeat constructor; set_solver|].
  case_decide as E; [done|]. constructor; [|done]. rewrite elem_of_dedup. intros Hin.
  apply Forall_cons in Hx as (Hxy & _). apply E, string_leb_antisym; [done|].
  apply elem_of_cons in Hin as [->|Hin]; [apply string_leb_refl|].
  inversion Hl as [|? ? _ Hy]; subst. by apply (proj1 (Forall_forall _ _) Hy).
Qed.

Lemma elem_of_sort_dedup x l : x ∈ sort_dedup l ↔ x ∈ l.
Proof. unfold sort_dedup. by rewrite elem_of_dedup, stable_sort_perm. Qed.
Lemma sort_dedup_nodup l : NoDup (sort_dedup l).
Proof. apply dedup_sorted_nodup, stable_sort_sorted; [apply string_leb_total|apply string_leb_trans]. Qed.
