(* ===== verification/Replication.v ===== *)
(** * Hot-prefix replication

    crates/quillcache-core/src/replication.rs: the planner that copies hot prefixes to
    more workers, and the access counter that feeds it.  The planner's loops are modelled
    as written, with the cap on actions checked before every push; the theorem shows they
    compute a plain list comprehension. *)
From S2P Require Import Prelude Order Identity.

Record ReplicationConfig : Type := mkRepConfig { target_replicas : Z; hotness_threshold : Z; max_actions : Z }.
Definition replication_default : ReplicationConfig := mkRepConfig 2 8 32.

Record PrefixResidency : Type := mkPrefix {
  pr_scope : IdentityScope;
  pr_prefix_hash : string;
  pr_holders : list string;
  pr_accesses : Z
}.
Record WorkerLoad : Type := mkLoad { wl_id : string; wl_load : Z }.
Record ReplicationAction : Type := mkRepAction {
  ra_scope : IdentityScope;
  ra_prefix_hash : string;
  ra_from_worker : string;
  ra_to_worker : string;
  ra_accesses : Z
}.

(** ** The planner *)

Definition by_load (workers : list WorkerLoad) : list WorkerLoad := stable_sort (then_leb wl_load wl_id) workers.

Definition is_hot (cfg : ReplicationConfig) (p : PrefixResidency) : bool :=
  (hotness_threshold cfg <=? pr_accesses p) && negb (bool_decide (pr_holders p = []))
  && (Z.of_nat (length (pr_holders p)) <? target_replicas cfg).
Definition hot_prefixes (cfg : ReplicationConfig) (prefixes : list PrefixResidency) : list PrefixResidency :=
  stable_sort (then_leb (λ p, - pr_accesses p) pr_prefix_hash) (filter (λ p, is_hot cfg p = true) prefixes).

(** The least-loaded holder, or the first listed one; [None] is the out-of-range index. *)
Definition source_of (ws : list WorkerLoad) (p : PrefixResidency) : option string :=
  match List.find (λ w, bool_decide (wl_id w ∈ pr_holders p)) ws with
  | Some w => Some (wl_id w)
  | None => vget (pr_holders p) 0
  end.

Definition action_to (p : PrefixResidency) (from : string) (w : WorkerLoad) : ReplicationAction :=
  mkRepAction (pr_scope p) (pr_prefix_hash p) from (wl_id w) (pr_accesses p).

(** The inner loop: [added] against [need], [actions] against the cap. *)
Fixpoint target_loop (cfg : ReplicationConfig) (p : PrefixResidency) (from : string) (need : Z)
    (ws : list WorkerLoad) (added : Z) (actions : list ReplicationAction) : list ReplicationAction :=
  match ws with
  | [] => actions
  | w :: ws' =>
      if (need <=? added) || (max_actions cfg <=? Z.of_nat (length actions)) then actions
      else if bool_decide (wl_id w ∈ pr_holders p) then target_loop cfg p from need ws' added actions
      else target_loop cfg p from need ws' (added + 1) (actions ++ [action_to p from w])
  end.

Fixpoint prefix_loop (cfg : ReplicationConfig) (ws : list WorkerLoad) (hot : list PrefixResidency)
    (actions : list ReplicationAction) : option (list ReplicationAction) :=
  match hot with
  | [] => Some actions
  | p :: hot' =>
      if max_actions cfg <=? Z.of_nat (length actions) then Some actions
      else
        from ← source_of ws p;
        let need := target_replicas cfg - Z.of_nat (length (pr_holders p)) in
        prefix_loop cfg ws hot' (target_loop cfg p from need ws 0 actions)
  end.

Definition plan_replications (prefixes : list PrefixResidency) (workers : list WorkerLoad) (cfg : ReplicationConfig) :
    option (list ReplicationAction) :=
  prefix_loop cfg (by_load workers) (hot_prefixes cfg prefixes) [].

(** ** The access counter *)

Notation HotKey := (IdentityScope * string)%type.
Notation HotnessTracker := (gmap HotKey Z).

Definition hot_key (b : KvBlockKey) : HotKey := (from_key b, prefix_hash b).

Fixpoint record_loop (blocks : list KvBlockKey) (seen : gset HotKey) (counts : HotnessTracker) : option HotnessTracker :=
  match blocks with
  | [] => Some counts
  | b :: bs =>
      let key := hot_key b in
      if decide (key ∈ seen) then record_loop bs seen counts
      else
        n ← u32_add (default 0 (counts !! key)) 1;
        record_loop bs ({[key]} ∪ seen) (<[key := n]> counts)
  end.
Definition record_request (request : RequestShape) (counts : HotnessTracker) : option HotnessTracker :=
  if bool_decide (req_blocks request = []) then Some counts else record_loop (req_blocks request) ∅ counts.

Definition hotness_hot `{HashIter} (threshold : Z) (counts : HotnessTracker) : list (IdentityScope * string * Z) :=
  (λ kn : HotKey * Z, (kn.1.1, kn.1.2, kn.2)) <$> filter (λ kn : HotKey * Z, threshold ≤ kn.2) (hiter counts).

Definition decay (counts : HotnessTracker) : HotnessTracker :=
  filter (λ kn : HotKey * Z, 0 < kn.2) ((λ n, n / 2) <$> counts).
Definition tracked (counts : HotnessTracker) : Z := Z.of_nat (size counts).

(** ** The reference plan *)

(** The workers that do not hold the prefix, least loaded first, as many as are missing. *)
Definition new_holders (cfg : ReplicationConfig) (ws : list WorkerLoad) (p : PrefixResidency) : list WorkerLoad :=
  take (Z.to_nat (target_replicas cfg) - length (pr_holders p)) (filter (λ w, wl_id w ∉ pr_holders p) ws).
Definition prefix_actions (cfg : ReplicationConfig) (ws : list WorkerLoad) (p : PrefixResidency) : list ReplicationAction :=
  action_to p (default ""%string (source_of ws p)) <$> new_holders cfg ws p.
Definition reference_plan (prefixes : list PrefixResidency) (workers : list WorkerLoad) (cfg : ReplicationConfig) : list ReplicationAction :=
  take (Z.to_nat (max_actions cfg)) (hot_prefixes cfg prefixes ≫= prefix_actions cfg (by_load workers)).

Lemma target_loop_take cfg p from need ws added actions :
  0 ≤ added ≤ need → Z.of_nat (length actions) ≤ max_actions cfg →
  target_loop cfg p from need ws added actions
  = take (Z.to_nat (max_actions cfg))
      (actions ++ (action_to p from <$> take (Z.to_nat (need - added)) (filter (λ w, wl_id w ∉ pr_holders p) ws))).
Proof.
  revert added actions. induction ws as [|w ws IH]; intros added actions Hadd Hmax; cbn [target_loop].
  { rewrite filter_nil, take_nil. cbn. rewrite app_nil_r. symmetry. apply take_ge. lia. }
  destruct (Z.leb_spec need added); cbn [orb].
  { replace (Z.to_nat (need - added)) with 0%nat by lia. rewrite take_0. cbn. rewrite app_nil_r. symmetry. apply take_ge. lia. }
  destruct (Z.leb_spec (max_actions cfg) (Z.of_nat (length actions))).
  { rewrite take_app_le by lia. symmetry. apply take_ge. lia. }
  rewrite filter_cons. case_bool_decide as Hin.
  - rewrite decide_False by tauto. by apply IH.
  - rewrite decide_True by done. rewrite IH by (rewrite ?length_app; cbn; lia).
    replace (Z.to_nat (need - added)) with (S (Z.to_nat (need - (added + 1)))) by lia.
    rewrite firstn_cons, fmap_cons, <- app_assoc. done.
Qed.

Lemma source_of_Some ws p : pr_holders p ≠ [] → ∃ s, source_of ws p = Some s ∧ s ∈ pr_holders p.
Proof.
  intros Hne. unfold source_of. destruct (List.find _ ws) as [w|] eqn:E.
  - apply List.find_some in E as (_ & E). apply bool_decide_eq_true in E. eauto.
  - destruct (pr_holders p) as [|h l] eqn:El; [done|]. exists h. split; [done|]. set_solver.
Qed.

Lemma prefix_loop_take cfg ws hot actions :
  Forall (λ p, is_hot cfg p = true) hot → 0 ≤ max_actions cfg → Z.of_nat (length actions) ≤ max_actions cfg →
  prefix_loop cfg ws hot actions = Some (take (Z.to_nat (max_actions cfg)) (actions ++ (hot ≫= prefix_actions cfg ws))).
Proof.
  intros Hhot Hpos. revert actions. induction Hhot as [|p hot Hp Hhot IH]; intros actions Hlen; cbn [prefix_loop].
  { cbn. rewrite app_nil_r, take_ge by lia. done. }
  destruct (Z.leb_spec (max_actions cfg) (Z.of_nat (length actions))).
  { rewrite take_app_le, take_ge by lia. done. }
  unfold is_hot in Hp. apply andb_true_iff in Hp as ((_ & Hne)%andb_true_iff & Hlt).
  apply negb_true_iff, bool_decide_eq_false in Hne. apply Z.ltb_lt in Hlt.
  destruct (source_of_Some ws p Hne) as (s & Hs & _). rewrite Hs. cbn [mbind option_bind].
  rewrite target_loop_take by lia. rewrite IH by (rewrite length_take; lia).
  f_equal. rewrite bind_cons. unfold prefix_actions at 2, new_holders. rewrite Hs. cbn [default from_option].
  replace (Z.to_nat (target_replicas cfg) - length (pr_holders p))%nat
    with (Z.to_nat (target_replicas cfg - Z.of_nat (length (pr_holders p)) - 0)) by lia.
  set (k := Z.to_nat (max_actions cfg)). set (new := action_to p s <$> _). rewrite (app_assoc actions new).
  destruct (decide (length (actions ++ new) ≤ k)%nat) as [Hle|Hgt].
  - by rewrite (take_ge (actions ++ new)) by done.
  - rewrite (take_app_le (actions ++ new)) by lia.
    rewrite take_app_le by (rewrite length_take; lia). by rewrite take_take, Nat.min_id.
Qed.

(** C15 The replication plan is the reference plan and never panics: the hot, resident,
    under-replicated prefixes, hottest first (ties by prefix hash), each copied from a
    current holder to the least-loaded workers that lack it, exactly as many as it is
    short of the target where the fleet has them, the whole cut at the cap on actions. *)
Theorem plan_replications_reference prefixes workers cfg :
  0 ≤ max_actions cfg →
  plan_replications prefixes workers cfg = Some (reference_plan prefixes workers cfg)
  ∧ StronglySorted (λ a b, then_leb wl_load wl_id a b = true) (by_load workers)
  ∧ by_load workers ≡ₚ workers
  ∧ StronglySorted (λ a b, then_leb (λ p, - pr_accesses p) pr_prefix_hash a b = true) (hot_prefixes cfg prefixes)
  ∧ (∀ p, p ∈ hot_prefixes cfg prefixes ↔ p ∈ prefixes ∧ hotness_threshold cfg ≤ pr_accesses p ∧ pr_holders p ≠ []
          ∧ Z.of_nat (length (pr_holders p)) < target_replicas cfg)
  ∧ Forall (λ a, ∃ p, p ∈ hot_prefixes cfg prefixes ∧ ra_prefix_hash a = pr_prefix_hash p ∧ ra_scope a = pr_scope p
              ∧ ra_from_worker a ∈ pr_holders p ∧ ra_to_worker a ∉ pr_holders p ∧ ra_to_worker a ∈ wl_id <$> workers)
      (reference_plan prefixes workers cfg).
Proof.
  intros Hpos.
  assert (Hel : ∀ p, p ∈ hot_prefixes cfg prefixes ↔ is_hot cfg p = true ∧ p ∈ prefixes)
    by (intros p; unfold hot_prefixes; by rewrite stable_sort_perm, list_elem_of_filter).
  split_and!.
  - unfold plan_replications. rewrite prefix_loop_take; [done| |done|cbn; lia].
    apply Forall_forall. intros p (? & _)%Hel. done.
  - apply then_sorted.
  - apply stable_sort_perm.
  - apply then_sorted.
  - intros p. rewrite Hel. unfold is_hot.
    rewrite !andb_true_iff, negb_true_iff, bool_decide_eq_false, Z.leb_le, Z.ltb_lt. tauto.
  - apply Forall_take, Forall_forall. intros a (p & Ha & Hp)%list_elem_of_bind. exists p. split; [done|].
    apply Hel in Hp as (Hp & _). unfold is_hot in Hp. apply andb_true_iff in Hp as ((_ & Hne)%andb_true_iff & _).
    apply negb_true_iff, bool_decide_eq_false in Hne.
    destruct (source_of_Some (by_load workers) p Hne) as (s & Hs & Hin).
    unfold prefix_actions in Ha. rewrite Hs in Ha. apply list_elem_of_fmap in Ha as (w & -> & Hw). cbn.
    unfold new_holders in Hw. apply elem_of_take in Hw as (i & Hw & _). apply list_elem_of_lookup_2 in Hw.
    apply list_elem_of_filter in Hw as (Hni & Hw). split_and!; [done..|].
    unfold by_load in Hw. rewrite stable_sort_perm in Hw. by apply list_elem_of_fmap_2.
Qed.

(** ** Counting *)

Lemma record_loop_lookup blocks seen counts counts' k :
  record_loop blocks seen counts = Some counts' →
  counts' !! k = if decide (k ∈ hot_key <$> blocks ∧ k ∉ seen) then Some (default 0 (counts !! k) + 1) else counts !! k.
Proof.
  revert seen counts. induction blocks as [|b bs IH]; intros seen counts; cbn [record_loop].
  { intros [= <-]. rewrite decide_False; [done|]. cbn. set_solver. }
  rewrite fmap_cons. destruct (decide (hot_key b ∈ seen)) as [Hs|Hs].
  - intros H%IH. rewrite H. destruct (decide (k ∈ hot_key <$> bs ∧ k ∉ seen)).
    + by rewrite decide_True by set_solver.
    + by rewrite decide_False by set_solver.
  - intros (n & Hn & H%IH)%bind_Some. rewrite H.
    assert (n = default 0 (counts !! hot_key b) + 1) as -> by (unfold u32_add in Hn; destruct (_ <=? _); [by injection Hn as <-|done]).
    destruct (decide (hot_key b = k)) as [<-|Hne].
    + rewrite lookup_insert_eq, (decide_False (P := hot_key b ∈ hot_key <$> bs ∧ _)) by set_solver.
      by rewrite decide_True by set_solver.
    + rewrite lookup_insert_ne by done. destruct (decide (k ∈ hot_key <$> bs ∧ k ∉ {[hot_key b]} ∪ seen)).
      * by rewrite decide_True by set_solver.
      * by rewrite decide_False by set_solver.
Qed.

(** Counting is per request and per identity: a request adds one to every distinct
    (identity, prefix) it touches and changes no other count, a decay halves every count
    and forgets the ones that reach zero. *)
Theorem hotness_counts_distinct request counts counts' k :
  record_request request counts = Some counts' →
  counts' !! k = (if decide (k ∈ hot_key <$> req_blocks request) then Some (default 0 (counts !! k) + 1) else counts !! k)
  ∧ decay counts' !! k = (n ← counts' !! k; if decide (0 < n / 2) then Some (n / 2) else None).
Proof.
  intros H. split.
  - unfold record_request in H. case_bool_decide as E.
    + injection H as <-. rewrite E. by rewrite decide_False by (cbn; set_solver).
    + rewrite (record_loop_lookup _ _ _ _ k H). destruct (decide (k ∈ hot_key <$> req_blocks request)).
      * by rewrite decide_True by set_solver.
      * by rewrite decide_False by set_solver.
  - unfold decay. apply option_eq. intros n. rewrite map_lookup_filter_Some, lookup_fmap, fmap_Some. cbn.
    rewrite bind_Some. split.
    + intros ((m & Hm & ->) & Hpos). exists m. by rewrite decide_True.
    + intros (m & Hm & Hn). case_decide; [|done]. injection Hn as <-. eauto.
Qed.

(** ** A fleet of three workers with one hot prefix *)

Definition rep_scope : IdentityScope := mkScope "m" "t" None "ten".
Definition rep_prefix : PrefixResidency := mkPrefix rep_scope "sys" ["w0"] 12.
Definition rep_workers : list WorkerLoad := [mkLoad "w0" 9; mkLoad "w1" 4; mkLoad "w2" 1].

Example rep_plan : plan_replications [rep_prefix] rep_workers replication_default
  = Some [mkRepAction rep_scope "sys" "w0" "w2" 12].
Proof. vm_compute. reflexivity. Qed.

Lemma plan_replications_reference_witness :
  plan_replications [rep_prefix] rep_workers replication_default = Some (reference_plan [rep_prefix] rep_workers replication_default).
Proof. apply (plan_replications_reference [rep_prefix] rep_workers replication_default). vm_compute. discriminate. Defined.

Definition rep_request : RequestShape :=
  mkRequest "r" "m" "t" None "ten" None [key_new "m" "t" "ten" "sys" "b0" 0 16; key_new "m" "t" "ten" "sys" "b1" 1 16] 8 slo_default.
Definition rep_counts : HotnessTracker := default ∅ (record_request rep_request {[(rep_scope, "sys"%string) := 7]}).
Lemma rep_counts_eq : record_request rep_request {[(rep_scope, "sys"%string) := 7]} = Some rep_counts.
Proof. run. Qed.
Lemma hotness_counts_distinct_witness :
  rep_counts !! (rep_scope, "sys"%string) = Some 8 ∧
  decay rep_counts !! (rep_scope, "sys"%string)
  = (n ← rep_counts !! (rep_scope, "sys"%string); if decide (0 < n / 2) then Some (n / 2) else None).
Proof.
  split; [vm_compute; reflexivity|].
  exact (proj2 (hotness_counts_distinct rep_request {[(rep_scope, "sys"%string) := 7]} rep_counts (rep_scope, "sys"%string) rep_counts_eq)).
Defined.
