(* ===== verification/DataPlane.v ===== *)
(** * The data-plane seam

    The [DataPlane] trait of crates/quillcache-core/src/lib.rs with its default
    [metrics], and the two implementations of that file: [NoDataPlane] and
    [MockDataPlane].  Operations that can panic return [None]. *)
From S2P Require Import Prelude Identity.

Record DataPlaneMetrics : Type := mkDpMetrics {
  dm_resident_blocks : Z;
  dm_resident_bytes : Z;
  dm_hbm_bytes : Z;
  dm_cpu_dram_bytes : Z;
  dm_local_ssd_bytes : Z;
  dm_admits : Z;
  dm_hits : Z;
  dm_promotions : Z;
  dm_demotions : Z;
  dm_evictions : Z
}.

Inductive DataPlaneActionKind : Type := Admit | Hit | Promote | Demote | Evict | Remove.
#[export] Instance DataPlaneActionKind_eq_dec : EqDecision DataPlaneActionKind.
Proof. solve_decision. Defined.

Record DataPlaneAction : Type := mkDpAction {
  da_kind : DataPlaneActionKind;
  da_worker_id : string;
  da_key : KvBlockKey;
  da_from_tier : option CacheTier;
  da_to_tier : option CacheTier;
  da_bytes : Z;
  da_estimated_us : Z
}.

Record DataPlaneUpdate : Type := mkUpdate {
  du_actions : list DataPlaneAction;
  du_resident : list CacheResidency;
  du_removed : list CacheResidency
}.
Definition update_default : DataPlaneUpdate := mkUpdate [] [] [].
Definition update_is_empty (u : DataPlaneUpdate) : bool :=
  bool_decide (length (du_actions u) = 0%nat) && bool_decide (length (du_resident u) = 0%nat) && bool_decide (length (du_removed u) = 0%nat).
(** The three [extend]s. *)
Definition update_extend (a b : DataPlaneUpdate) : DataPlaneUpdate :=
  mkUpdate (du_actions a ++ du_actions b) (du_resident a ++ du_resident b) (du_removed a ++ du_removed b).

Class DataPlane (D : Type) : Type := {
  dp_name : D → string;
  dp_tier_of : string → KvBlockKey → D → option CacheTier;
  dp_fetch_cost_us : string → KvBlockKey → D → option (option Z);
  dp_place : CacheResidency → D → option (DataPlaneUpdate * D);
  dp_remove_block : IdentityScope → string → string → D → option (DataPlaneUpdate * D);
  dp_clear_worker : string → D → option (DataPlaneUpdate * D);
  dp_snapshot : D → list CacheResidency;
  dp_metrics : D → option DataPlaneMetrics
}.

(** The default [metrics]: sums over the snapshot. *)
Definition tier_bytes (t : CacheTier) (l : list CacheResidency) : option Z :=
  u64_sum (res_bytes <$> filter (λ e, res_tier e = t) l).
Definition metrics_of_snapshot (l : list CacheResidency) : option DataPlaneMetrics :=
  total ← u64_sum (res_bytes <$> l);
  hbm ← tier_bytes Hbm l;
  cpu ← tier_bytes CpuDram l;
  ssd ← tier_bytes LocalSsd l;
  Some (mkDpMetrics (Z.of_nat (length l)) total hbm cpu ssd 0 0 0 0 0).

(** ** No data plane *)

Inductive NoDataPlane : Type := noDataPlane.
#[export] Instance no_data_plane : DataPlane NoDataPlane := {|
  dp_name := λ _, "none"%string;
  dp_tier_of := λ _ _ _, None;
  dp_fetch_cost_us := λ _ _ _, Some None;
  dp_place := λ _ d, Some (update_default, d);
  dp_remove_block := λ _ _ _ d, Some (update_default, d);
  dp_clear_worker := λ _ d, Some (update_default, d);
  dp_snapshot := λ _, [];
  dp_metrics := λ _, metrics_of_snapshot []
|}.

(** ** The mock *)

Record MockDataPlane : Type := mkMock { mock_tiers : gmap (string * KvBlockKey) CacheTier; mock_cost : CostModel }.
Definition mock_new : MockDataPlane := mkMock ∅ cost_default.

(** The inherent [place] and the record it stands for. *)
Definition mock_put (worker : string) (key : KvBlockKey) (tier : CacheTier) (d : MockDataPlane) : MockDataPlane :=
  mkMock (<[(worker, key) := tier]> (mock_tiers d)) (mock_cost d).
Definition mock_bytes (key : KvBlockKey) : Z := token_count key * 128 * 1024.
Definition mock_entry (e : (string * KvBlockKey) * CacheTier) : CacheResidency :=
  mkResidency e.1.2 e.1.1 e.2 (mock_bytes e.1.2) 0 0 false.
Definition remove_action (e : CacheResidency) : DataPlaneAction :=
  mkDpAction Remove (res_worker_id e) (res_key e) (Some (res_tier e)) None (res_bytes e) 0.

Definition mock_place (r : CacheResidency) (d : MockDataPlane) : DataPlaneUpdate * MockDataPlane :=
  (mkUpdate [mkDpAction Admit (res_worker_id r) (res_key r) None (Some (res_tier r)) (res_bytes r) 0] [r] [],
   mock_put (res_worker_id r) (res_key r) (res_tier r) d).

Definition mock_fetch_cost_us (worker : string) (key : KvBlockKey) (d : MockDataPlane) : option (option Z) :=
  match mock_tiers d !! (worker, key) with
  | None => Some None
  | Some tier => c ← transfer_cost_us (mock_cost d) tier (mock_bytes key) true true; Some (Some c)
  end.

Section mock.
Context `{HashIter}.

(** [retain] with a predicate on the key: the removed entries in iteration order. *)
Definition mock_retain (gone : string * KvBlockKey → bool) (d : MockDataPlane) : DataPlaneUpdate * MockDataPlane :=
  let removed := mock_entry <$> filter (λ e : (string * KvBlockKey) * CacheTier, gone e.1 = true) (hiter (mock_tiers d)) in
  (mkUpdate (remove_action <$> removed) [] removed,
   mkMock (filter (λ e : (string * KvBlockKey) * CacheTier, gone e.1 = false) (mock_tiers d)) (mock_cost d)).
Definition mock_remove_block (scope : IdentityScope) (worker hash : string) : MockDataPlane → DataPlaneUpdate * MockDataPlane :=
  mock_retain (λ k, bool_decide (k.1 = worker) && bool_decide (block_hash k.2 = hash) && scope_matches scope k.2).
Definition mock_clear_worker (worker : string) : MockDataPlane → DataPlaneUpdate * MockDataPlane :=
  mock_retain (λ k, bool_decide (k.1 = worker)).
Definition mock_snapshot (d : MockDataPlane) : list CacheResidency := mock_entry <$> hiter (mock_tiers d).

#[export] Instance mock_data_plane : DataPlane MockDataPlane := {|
  dp_name := λ _, "mock"%string;
  dp_tier_of := λ w k d, mock_tiers d !! (w, k);
  dp_fetch_cost_us := mock_fetch_cost_us;
  dp_place := λ r d, Some (mock_place r d);
  dp_remove_block := λ s w h d, Some (mock_remove_block s w h d);
  dp_clear_worker := λ w d, Some (mock_clear_worker w d);
  dp_snapshot := mock_snapshot;
  dp_metrics := λ d, metrics_of_snapshot (mock_snapshot d)
|}.
End mock.
