(* ===== verification/CoScheduler.v ===== *)
(** * The cluster co-scheduler

    crates/quillcache-core/src/co_scheduler.rs: from a snapshot of SLO, cache, transfer
    and tier observations to a list of actions.  Every planner pushes onto the shared
    vector after checking the cap, as in the code.  A [reason] keeps the arguments of its
    [format!] call unrendered; everything else is as in the source. *)
From Corelib Require Import SpecFloat.
From stdpp Require Import pretty.
From S2P Require Import Prelude F64 Order Identity Router RouterPlan.

Record SloObservation : Type := mkSloObs {
  ttft_p99_ms : option f64;
  ttft_mean_ms : option f64;
  tpot_p99_ms : option f64;
  ttft_budget_ms : option Z;
  tpot_budget_ms : option Z;
  slo_miss_pct : option f64;
  goodput_pct : option f64
}.
Definition observed_ttft_ms (s : SloObservation) : option f64 :=
  match ttft_p99_ms s with Some x => Some x | None => ttft_mean_ms s end.

Record CacheObservation : Type := mkCacheObs {
  co_requests : Z;
  co_reusable_blocks : Z;
  co_local_hits : Z;
  co_remote_hits : Z;
  co_recompute_blocks : Z;
  co_reuse_refused : Z;
  local_hit_rate_pct : option f64;
  remote_hit_rate_pct : option f64
}.
Record TransferObservation : Type := mkTransferObs {
  time_to_first_layer_ms : option f64;
  full_transfer_ms : option f64;
  overlap_saved_ms : option f64;
  exposed_transfer_ms : option f64;
  overlap_efficiency_pct : option f64;
  queue_depth : Z;
  bandwidth_mbps : option f64
}.
Record TierObservation : Type := mkTierObs {
  to_hbm_used_bytes : Z;
  to_hbm_capacity_bytes : Z;
  to_cpu_dram_used_bytes : Z;
  to_cpu_dram_capacity_bytes : Z;
  to_local_ssd_used_bytes : Z;
  to_local_ssd_capacity_bytes : Z;
  to_evictions : Z
}.
Record HotPrefixObservation : Type := mkHotPrefix {
  hp_prefix_hash : string;
  hp_holders : list string;
  hp_hits : Z;
  hp_bytes : Z
}.
Record CoSchedulerSnapshot : Type := mkSnapshot {
  sn_epoch : Z;
  sn_workers : list WorkerState;
  sn_slo : SloObservation;
  sn_cache : CacheObservation;
  sn_transfer : TransferObservation;
  sn_tier : TierObservation;
  sn_hot_prefixes : list HotPrefixObservation
}.
Record CoSchedulerTelemetry : Type := mkTelemetry {
  tm_slo : SloObservation;
  tm_cache : CacheObservation;
  tm_transfer : TransferObservation
}.

Inductive CoSchedulerActionKind : Type :=
| AdjustPdRatio | AdjustHbmSplit | ReplicateHotPrefix | PromotePrefix | DemotePrefix
| TuneTransferDepth | SelectTransferBackend | AdmissionReject | PinPrefix | UnpinPrefix.

(** The arguments of the five [format!] calls. *)
Inductive Reason : Type :=
| TtftPressure (ttft : option f64) (budget : option Z) (goodput : option f64)
| HotRemotePrefix (hits holders : Z) (remote : option f64)
| HbmPressure (pressure threshold : f64)
| TransferPressure (first_layer : option f64) (depth : Z) (efficiency : option f64)
| SloMiss (miss : option f64) (depth : Z) (pressure : option f64).

Record CoSchedulerAction : Type := mkCoAction {
  ca_epoch : Z;
  ca_kind : CoSchedulerActionKind;
  ca_target_worker_id : option string;
  ca_source_worker_id : option string;
  ca_prefix_hash : option string;
  ca_tier : option CacheTier;
  ca_value : option string;
  ca_reason : Reason
}.
Record CoSchedulerPlan : Type := mkCoPlan { cp_epoch : Z; cp_dry_run : bool; cp_actions : list CoSchedulerAction }.

Record CoSchedulerPolicy : Type := mkCoPolicy {
  co_max_actions : Z;
  min_goodput_pct : f64;
  max_slo_miss_pct : f64;
  remote_hit_rate_threshold_pct : f64;
  hbm_pressure_threshold_pct : f64;
  high_transfer_queue_depth : Z;
  time_to_first_layer_budget_ms : f64;
  min_overlap_efficiency_pct : f64;
  target_hot_prefix_replicas : Z;
  min_hot_prefix_hits : Z
}.
Definition co_policy_default : CoSchedulerPolicy :=
  mkCoPolicy 32 (f64_of_u64 95) (f64_of_u64 10) (f64_of_u64 20) (f64_of_u64 90) 16 (f64_of_u64 20) (f64_of_u64 50) 2 8.

(** ** Observations *)

Definition f64_gtb (x y : f64) : bool := f64_ltb y x.
Definition f64_geb (x y : f64) : bool := SFleb y x.

(** [100.0 * n as f64 / d as f64]. *)
Definition pct (numerator denominator : Z) : option f64 :=
  if denominator =? 0 then None
  else Some (f64_div (f64_mul (f64_of_u64 100) (f64_of_u64 numerator)) (f64_of_u64 denominator)).
Definition hbm_pressure_pct (t : TierObservation) : option f64 := pct (to_hbm_used_bytes t) (to_hbm_capacity_bytes t).

(** [opt.map(f).unwrap_or(false)]. *)
Definition holds (f : f64 → bool) (o : option f64) : bool := from_option f false o.

Definition least_loaded_lt (a b : WorkerState) : bool :=
  (running_decodes a <? running_decodes b)
  || (running_decodes a =? running_decodes b)
     && ((queued_prefill_tokens a <? queued_prefill_tokens b)
         || (queued_prefill_tokens a =? queued_prefill_tokens b) && negb (String.leb (w_id b) (w_id a))).
Definition least_loaded_non_holder (workers : list WorkerState) (holders : list string) : option WorkerState :=
  min_by least_loaded_lt (filter (λ w, w_id w ∉ holders) workers).

(** Cross products in [u128]: no overflow for [u64] operands. *)
Definition hbm_lt (a b : WorkerState) : bool :=
  let l := hbm_used_bytes a * hbm_capacity_bytes b in
  let r := hbm_used_bytes b * hbm_capacity_bytes a in
  (l <? r) || (l =? r) && negb (String.leb (w_id b) (w_id a)).
Definition most_hbm_pressured_worker (workers : list WorkerState) : option WorkerState :=
  max_by hbm_lt (filter (λ w, 0 < hbm_capacity_bytes w) workers).

Section planner.
Context (policy : CoSchedulerPolicy).

Definition has_room (actions : list CoSchedulerAction) : bool := Z.of_nat (length actions) <? co_max_actions policy.

Definition slo_under_pressure (s : SloObservation) : bool :=
  let ttft_bad := match observed_ttft_ms s, ttft_budget_ms s with
                  | Some observed, Some budget => f64_gtb observed (f64_of_u64 budget)
                  | _, _ => false
                  end in
  let goodput_bad := holds (λ p, f64_ltb p (min_goodput_pct policy)) (goodput_pct s) in
  let slo_miss_bad := holds (λ p, f64_gtb p (max_slo_miss_pct policy)) (slo_miss_pct s) in
  ttft_bad || goodput_bad || slo_miss_bad.

Definition remote_reuse_under_pressure (s : CoSchedulerSnapshot) : bool :=
  let remote_hit_bad := holds (λ p, f64_geb p (remote_hit_rate_threshold_pct policy)) (remote_hit_rate_pct (sn_cache s)) in
  let budget := time_to_first_layer_budget_ms policy in
  let full_transfer_bad := match full_transfer_ms (sn_transfer s), time_to_first_layer_ms (sn_transfer s) with
                           | Some full, Some first => f64_gtb full first && f64_gtb full budget
                           | Some full, None => f64_gtb full budget
                           | None, _ => false
                           end in
  remote_hit_bad || full_transfer_bad.

(** ** The five planners *)

Definition count_role (r : EngineRole) (ws : list WorkerState) : Z := Z.of_nat (length (filter (λ w, w_role w = r) ws)).

Definition pd_value (ws : list WorkerState) : option string :=
  queue ← u64_sum (queued_prefill_tokens <$> ws);
  load ← u64_sum (running_decodes <$> ws);
  Some (if (count_role Prefill ws =? 0) || (count_role Decode ws =? 0) then "split_aggregated_worker_for_pd"%string
        else if u64_sat_mul load 512 <? queue then "increase_prefill_share"%string
        else "rebalance_prefill_decode_share"%string).

Definition plan_pd_pressure (s : CoSchedulerSnapshot) (actions : list CoSchedulerAction) : option (list CoSchedulerAction) :=
  if negb (has_room actions) || negb (slo_under_pressure (sn_slo s)) then Some actions
  else if negb (existsb (λ w, can_prefill (w_role w)) (sn_workers s)) || negb (existsb (λ w, can_decode (w_role w)) (sn_workers s))
  then Some actions
  else
    value ← pd_value (sn_workers s);
    Some (actions ++ [mkCoAction (sn_epoch s) AdjustPdRatio None None None None (Some value)
                        (TtftPressure (observed_ttft_ms (sn_slo s)) (ttft_budget_ms (sn_slo s)) (goodput_pct (sn_slo s)))]).

Definition co_hot (p : HotPrefixObservation) : bool :=
  (min_hot_prefix_hits policy <=? hp_hits p) && negb (bool_decide (hp_holders p = []))
  && (Z.of_nat (length (hp_holders p)) <? target_hot_prefix_replicas policy).
Definition co_hot_prefixes (s : CoSchedulerSnapshot) : list HotPrefixObservation :=
  stable_sort (then_leb (λ p, - hp_hits p) hp_prefix_hash) (filter (λ p, co_hot p = true) (sn_hot_prefixes s)).

Definition replicate_action (s : CoSchedulerSnapshot) (p : HotPrefixObservation) (target : WorkerState) : CoSchedulerAction :=
  mkCoAction (sn_epoch s) ReplicateHotPrefix (Some (w_id target)) (head (hp_holders p)) (Some (hp_prefix_hash p)) (Some Hbm)
    (Some ("target_replicas=" +:+ pretty (target_hot_prefix_replicas policy)))
    (HotRemotePrefix (hp_hits p) (Z.of_nat (length (hp_holders p))) (remote_hit_rate_pct (sn_cache s))).

Fixpoint hot_loop (s : CoSchedulerSnapshot) (hot : list HotPrefixObservation) (actions : list CoSchedulerAction) : list CoSchedulerAction :=
  match hot with
  | [] => actions
  | p :: hot' =>
      if negb (has_room actions) then actions
      else match least_loaded_non_holder (sn_workers s) (hp_holders p) with
           | None => hot_loop s hot' actions
           | Some target => hot_loop s hot' (actions ++ [replicate_action s p target])
           end
  end.
Definition plan_hot_prefix_replication (s : CoSchedulerSnapshot) (actions : list CoSchedulerAction) : list CoSchedulerAction :=
  if negb (has_room actions) || negb (remote_reuse_under_pressure s) then actions
  else hot_loop s (co_hot_prefixes s) actions.

Definition plan_hbm_pressure (s : CoSchedulerSnapshot) (actions : list CoSchedulerAction) : list CoSchedulerAction :=
  if negb (has_room actions) then actions
  else match hbm_pressure_pct (sn_tier s) with
       | None => actions
       | Some pressure =>
           if f64_ltb pressure (hbm_pressure_threshold_pct policy) then actions
           else actions ++ [mkCoAction (sn_epoch s) DemotePrefix (w_id <$> most_hbm_pressured_worker (sn_workers s)) None None
                              (Some CpuDram) (Some "demote_cold_hbm_blocks"%string)
                              (HbmPressure pressure (hbm_pressure_threshold_pct policy))]
       end.

Definition transfer_slow (s : CoSchedulerSnapshot) : bool :=
  let t := sn_transfer s in
  let budget := time_to_first_layer_budget_ms policy in
  let slow_first_layer := holds (λ ms, f64_gtb ms budget) (time_to_first_layer_ms t) in
  let queued := high_transfer_queue_depth policy <=? queue_depth t in
  let low_overlap_efficiency := match overlap_efficiency_pct t, full_transfer_ms t with
                                | Some efficiency, Some full => f64_gtb full budget && f64_ltb efficiency (min_overlap_efficiency_pct policy)
                                | _, _ => false
                                end in
  slow_first_layer || queued || low_overlap_efficiency.
Definition plan_transfer_pressure (s : CoSchedulerSnapshot) (actions : list CoSchedulerAction) : list CoSchedulerAction :=
  if negb (has_room actions) then actions
  else if negb (transfer_slow s) then actions
  else actions ++ [mkCoAction (sn_epoch s) TuneTransferDepth None None None None (Some "prioritize_first_layer_or_switch_backend"%string)
                     (TransferPressure (time_to_first_layer_ms (sn_transfer s)) (queue_depth (sn_transfer s))
                        (overlap_efficiency_pct (sn_transfer s)))].

Definition overloaded (s : CoSchedulerSnapshot) : bool :=
  let slo_miss_bad := holds (λ p, f64_gtb p (max_slo_miss_pct policy)) (slo_miss_pct (sn_slo s)) in
  let transfer_queued := high_transfer_queue_depth policy <=? queue_depth (sn_transfer s) in
  let hbm_full := holds (λ p, f64_geb p (hbm_pressure_threshold_pct policy)) (hbm_pressure_pct (sn_tier s)) in
  slo_miss_bad && transfer_queued && hbm_full.
Definition plan_admission_pressure (s : CoSchedulerSnapshot) (actions : list CoSchedulerAction) : list CoSchedulerAction :=
  if negb (has_room actions) then actions
  else if negb (overloaded s) then actions
  else actions ++ [mkCoAction (sn_epoch s) AdmissionReject None None None None (Some "enable_overload_rejection"%string)
                     (SloMiss (slo_miss_pct (sn_slo s)) (queue_depth (sn_transfer s)) (hbm_pressure_pct (sn_tier s)))].

Definition co_plan (s : CoSchedulerSnapshot) (dry_run : bool) : option CoSchedulerPlan :=
  a1 ← plan_pd_pressure s [];
  let a2 := plan_hot_prefix_replication s a1 in
  let a3 := plan_hbm_pressure s a2 in
  let a4 := plan_transfer_pressure s a3 in
  let a5 := plan_admission_pressure s a4 in
  Some (mkCoPlan (sn_epoch s) dry_run a5).
Definition dry_run (s : CoSchedulerSnapshot) : option CoSchedulerPlan := co_plan s true.
End planner.

(** ** The planners as one list, cut at the cap *)

Section reference.
Context (policy : CoSchedulerPolicy).
Implicit Types (s : CoSchedulerSnapshot) (acts new : list CoSchedulerAction).

Definition pd_warranted s : bool :=
  slo_under_pressure policy (sn_slo s) && existsb (λ w, can_prefill (w_role w)) (sn_workers s)
  && existsb (λ w, can_decode (w_role w)) (sn_workers s).
Definition pd_actions s : option (list CoSchedulerAction) :=
  if pd_warranted s then
    value ← pd_value (sn_workers s);
    Some [mkCoAction (sn_epoch s) AdjustPdRatio None None None None (Some value)
            (TtftPressure (observed_ttft_ms (sn_slo s)) (ttft_budget_ms (sn_slo s)) (goodput_pct (sn_slo s)))]
  else Some [].
Definition hot_actions s : list CoSchedulerAction :=
  if remote_reuse_under_pressure policy s then
    omap (λ p, replicate_action policy s p <$> least_loaded_non_holder (sn_workers s) (hp_holders p)) (co_hot_prefixes policy s)
  else [].
Definition hbm_actions s : list CoSchedulerAction :=
  match hbm_pressure_pct (sn_tier s) with
  | Some p => if f64_ltb p (hbm_pressure_threshold_pct policy) then []
              else [mkCoAction (sn_epoch s) DemotePrefix (w_id <$> most_hbm_pressured_worker (sn_workers s)) None None
                      (Some CpuDram) (Some "demote_cold_hbm_blocks"%string) (HbmPressure p (hbm_pressure_threshold_pct policy))]
  | None => []
  end.
Definition transfer_actions s : list CoSchedulerAction :=
  if transfer_slow policy s then
    [mkCoAction (sn_epoch s) TuneTransferDepth None None None None (Some "prioritize_first_layer_or_switch_backend"%string)
       (TransferPressure (time_to_first_layer_ms (sn_transfer s)) (queue_depth (sn_transfer s)) (overlap_efficiency_pct (sn_transfer s)))]
  else [].
Definition admission_actions s : list CoSchedulerAction :=
  if overloaded policy s then
    [mkCoAction (sn_epoch s) AdmissionReject None None None None (Some "enable_overload_rejection"%string)
       (SloMiss (slo_miss_pct (sn_slo s)) (queue_depth (sn_transfer s)) (hbm_pressure_pct (sn_tier s)))]
  else [].

Notation cap := (Z.to_nat (co_max_actions policy)).

(** A planner that appends [new] up to the cap. *)
Definition capped (f : list CoSchedulerAction → list CoSchedulerAction) (new : list CoSchedulerAction) : Prop :=
  ∀ acts, (length acts ≤ cap)%nat → f acts = take cap (acts ++ new).

Lemma capped_room acts : (length acts ≤ cap)%nat → has_room policy acts = false → length acts = cap.
Proof. unfold has_room. intros ? ?%Z.ltb_ge. lia. Qed.
Lemma room_lt acts : has_room policy acts = true → (length acts < cap)%nat.
Proof. unfold has_room. intros ?%Z.ltb_lt. lia. Qed.

Lemma take_full acts new : length acts = cap → take cap (acts ++ new) = acts.
Proof. intros <-. apply take_app_length. Qed.

Lemma capped_guard f new :
  (∀ acts, has_room policy acts = false → f acts = acts) →
  (∀ acts, has_room policy acts = true → f acts = take cap (acts ++ new)) → capped f new.
Proof.
  intros Hfull Hroom acts Hle. destruct (has_room policy acts) eqn:E; [by apply Hroom|].
  rewrite Hfull by done. rewrite take_full; [done|]. by apply capped_room.
Qed.

Lemma take_room acts x : has_room policy acts = true → take cap (acts ++ [x]) = acts ++ [x].
Proof. intros ?%room_lt. apply take_ge. rewrite length_app. cbn. lia. Qed.
Lemma take_room_nil acts : has_room policy acts = true → take cap (acts ++ []) = acts.
Proof. intros ?%room_lt. rewrite app_nil_r. apply take_ge. lia. Qed.

Lemma take_app_take {A} n (l k : list A) : take n (take n l ++ k) = take n (l ++ k).
Proof.
  destruct (decide (length l ≤ n)%nat).
  - by rewrite (take_ge l) by done.
  - rewrite !take_app_le by (rewrite ?length_take; lia). by rewrite take_take, Nat.min_id.
Qed.

Lemma capped_compose f g l k : capped f l → capped g k → capped (λ acts, g (f acts)) (l ++ k).
Proof.
  intros Hf Hg acts Hle. rewrite Hf by done. rewrite Hg by (rewrite length_take; lia).
  by rewrite take_app_take, app_assoc.
Qed.

Lemma hot_loop_capped s hot :
  capped (hot_loop policy s hot) (omap (λ p, replicate_action policy s p <$> least_loaded_non_holder (sn_workers s) (hp_holders p)) hot).
Proof.
  induction hot as [|p hot IH]; intros acts Hle; cbn [hot_loop].
  { cbn. by rewrite app_nil_r, take_ge by lia. }
  destruct (has_room policy acts) eqn:E; cbn [negb].
  - cbn [omap list_omap]. destruct (least_loaded_non_holder _ _) as [t|]; cbn [fmap option_fmap option_map]; [|by apply IH].
    apply room_lt in E. rewrite IH by (rewrite length_app; cbn; lia). by rewrite <- app_assoc.
  - rewrite take_full; [done|]. by apply capped_room.
Qed.

Lemma hot_capped s : capped (plan_hot_prefix_replication policy s) (hot_actions s).
Proof.
  unfold plan_hot_prefix_replication, hot_actions. apply capped_guard; intros acts E; rewrite E; cbn [negb orb]; [done|].
  destruct (remote_reuse_under_pressure policy s); cbn [negb]; [|by rewrite take_room_nil].
  apply hot_loop_capped. apply room_lt in E. lia.
Qed.
Lemma hbm_capped s : capped (plan_hbm_pressure policy s) (hbm_actions s).
Proof.
  unfold plan_hbm_pressure, hbm_actions. apply capped_guard; intros acts E; rewrite E; cbn [negb]; [done|].
  destruct (hbm_pressure_pct (sn_tier s)); [case_match|]; by rewrite ?take_room_nil, ?take_room.
Qed.
Lemma transfer_capped s : capped (plan_transfer_pressure policy s) (transfer_actions s).
Proof.
  unfold plan_transfer_pressure, transfer_actions. apply capped_guard; intros acts E; rewrite E; cbn [negb]; [done|].
  destruct (transfer_slow policy s); cbn [negb]; by rewrite ?take_room_nil, ?take_room.
Qed.
Lemma admission_capped s : capped (plan_admission_pressure policy s) (admission_actions s).
Proof.
  unfold plan_admission_pressure, admission_actions. apply capped_guard; intros acts E; rewrite E; cbn [negb]; [done|].
  destruct (overloaded policy s); cbn [negb]; by rewrite ?take_room_nil, ?take_room.
Qed.

Lemma pd_capped s : 0 < co_max_actions policy → plan_pd_pressure policy s [] = pd_actions s.
Proof.
  intros Hpos. unfold plan_pd_pressure, pd_actions, pd_warranted.
  assert (has_room policy [] = true) as -> by (unfold has_room; cbn; by apply Z.ltb_lt).
  destruct (slo_under_pressure policy (sn_slo s)), (existsb (λ w, can_prefill (w_role w)) (sn_workers s)),
    (existsb (λ w, can_decode (w_role w)) (sn_workers s)); cbn [negb orb andb app]; done.
Qed.

Lemma pd_actions_length s pd : 0 < co_max_actions policy → pd_actions s = Some pd → (length pd ≤ cap)%nat.
Proof.
  intros Hpos Epd. unfold pd_actions in Epd. case_match; [apply bind_Some in Epd as (v & _ & [= <-])|injection Epd as <-]; cbn; lia.
Qed.

(** A plan is the planners' actions, appended and cut at the cap. *)
Lemma co_plan_cut s dry pd :
  0 ≤ co_max_actions policy → pd_actions s = Some pd →
  co_plan policy s dry =
  Some (mkCoPlan (sn_epoch s) dry (take cap (pd ++ hot_actions s ++ hbm_actions s ++ transfer_actions s ++ admission_actions s))).
Proof.
  intros Hcap Epd. unfold co_plan. pose proof (capped_compose _ _ _ _ (capped_compose _ _ _ _ (capped_compose _ _ _ _ (hot_capped s) (hbm_capped s))
    (transfer_capped s)) (admission_capped s)) as Hc. destruct (Z.eq_dec (co_max_actions policy) 0) as [E|Hne].
  - assert (plan_pd_pressure policy s [] = Some []) as -> by (unfold plan_pd_pressure, has_room; by rewrite E). cbn [mbind option_bind].
    do 2 f_equal. rewrite (Hc []) by (cbn; lia). by rewrite E.
  - rewrite pd_capped, Epd by lia. cbn [mbind option_bind]. do 2 f_equal. rewrite (Hc pd) by (apply (pd_actions_length s); [lia|done]). by rewrite <- !app_assoc.
Qed.
End reference.

(** ** The choices inside the actions *)

Lemma string_lt_iff a b : negb (String.leb b a) = true ↔ String.leb a b = true ∧ a ≠ b.
Proof.
  rewrite negb_true_iff. split.
  - intros H. split; [by apply string_leb_total|]. intros ->. by rewrite string_leb_refl in H.
  - intros [H Hne]. apply not_true_iff_false. intros H'. apply Hne. by apply string_leb_antisym.
Qed.

#[local] Instance string_sw : StrictWeak (λ a b, negb (String.leb b a)).
Proof.
  split.
  - intros a b (H & _)%string_lt_iff. by rewrite H.
  - intros a b c H. destruct (String.leb b a) eqn:E; [|by left]. right.
    apply negb_true_iff, not_true_iff_false. intros F. apply negb_true_iff, not_true_iff_false in H.
    apply H. by eapply string_leb_trans.
Qed.

(** A strict weak order refined by another on ties. *)
Lemma sw_lex {A} (key : A → Z) (lt : A → A → bool) : StrictWeak lt →
  StrictWeak (λ a b, (key a <? key b) || (key a =? key b) && lt a b).
Proof.
  intros Hlt. split.
  - intros a b. rewrite orb_true_iff, andb_true_iff, Z.ltb_lt, Z.eqb_eq. intros [H|[H1 H2]].
    + apply orb_false_iff. split; [apply Z.ltb_ge; lia|]. apply andb_false_iff. left. apply Z.eqb_neq. lia.
    + apply orb_false_iff. split; [apply Z.ltb_ge; lia|]. apply andb_false_iff. right. by apply sw_asym.
  - intros a b c. rewrite !orb_true_iff, !andb_true_iff, !Z.ltb_lt, !Z.eqb_eq. intros [H|[H1 H2]].
    + destruct (Z.lt_trichotomy (key a) (key b)) as [|[E|]]; [tauto|right; left; lia|right; left; lia].
    + destruct (Z.lt_trichotomy (key a) (key b)) as [|[E|]]; [tauto| |right; left; lia].
      destruct (sw_cotrans a b c H2); [tauto|]. right. right. split; [lia|done].
Qed.

#[local] Instance least_loaded_sw : StrictWeak least_loaded_lt.
Proof.
  unfold least_loaded_lt. apply (sw_lex running_decodes (λ a b, (queued_prefill_tokens a <? queued_prefill_tokens b) ||
    (queued_prefill_tokens a =? queued_prefill_tokens b) && negb (String.leb (w_id b) (w_id a)))).
  apply (sw_lex queued_prefill_tokens (λ a b, negb (String.leb (w_id b) (w_id a)))).
  split; intros *; [apply (sw_asym (lt := λ a b, negb (String.leb b a)))|apply (sw_cotrans (lt := λ a b, negb (String.leb b a)))].
Qed.

(** A replication copies from a holder to a worker that holds no copy, and no worker
    without a copy is less loaded than the target. *)
Theorem replication_target_least_loaded policy s a :
  a ∈ hot_actions policy s →
  ∃ p t, p ∈ sn_hot_prefixes s ∧ t ∈ sn_workers s ∧ ca_prefix_hash a = Some (hp_prefix_hash p)
    ∧ ca_target_worker_id a = Some (w_id t) ∧ w_id t ∉ hp_holders p
    ∧ (∃ h, ca_source_worker_id a = Some h ∧ h ∈ hp_holders p)
    ∧ ∀ w, w ∈ sn_workers s → w_id w ∉ hp_holders p → least_loaded_lt w t = false.
Proof.
  unfold hot_actions. case_match; [|by intros ?%not_elem_of_nil].
  intros (p & Hp & Ha)%list_elem_of_omap. apply fmap_Some in Ha as (t & Ht & ->).
  unfold co_hot_prefixes in Hp. rewrite stable_sort_perm in Hp. apply list_elem_of_filter in Hp as (Hh & Hp).
  destruct (min_by_is_first_min _ _ _ Ht) as (i & Hi & Hmin & _).
  apply list_elem_of_lookup_2, list_elem_of_filter in Hi as (Hni & Hin). exists p, t. cbn. split_and!; try done.
  - unfold co_hot in Hh. apply andb_true_iff in Hh as ((_ & Hne)%andb_true_iff & _).
    apply negb_true_iff, bool_decide_eq_false in Hne. destruct (hp_holders p) as [|h l]; [done|]. exists h. split; [done|]. set_solver.
  - intros w Hw Hn. assert (Hf : w ∈ filter (λ w, w_id w ∉ hp_holders p) (sn_workers s)) by by apply list_elem_of_filter.
    apply list_elem_of_lookup in Hf as (j & Hj). by eapply Hmin.
Qed.

(** Fill ratios compare as cross products; ties go by the name. *)
Definition fill_le (a b : WorkerState) : Prop :=
  hbm_used_bytes a * hbm_capacity_bytes b < hbm_used_bytes b * hbm_capacity_bytes a
  ∨ hbm_used_bytes a * hbm_capacity_bytes b = hbm_used_bytes b * hbm_capacity_bytes a ∧ String.leb (w_id a) (w_id b) = true.

Lemma fill_le_refl a : fill_le a a.
Proof. right. split; [done|]. apply string_leb_refl. Qed.

Lemma fill_le_trans a b c : 0 < hbm_capacity_bytes a → 0 < hbm_capacity_bytes b → 0 < hbm_capacity_bytes c →
  fill_le a b → fill_le b c → fill_le a c.
Proof.
  unfold fill_le. generalize (hbm_used_bytes a) (hbm_used_bytes b) (hbm_used_bytes c) (hbm_capacity_bytes a) (hbm_capacity_bytes b) (hbm_capacity_bytes c).
  intros ua ub uc ca cb cc Ha Hb Hc H1 H2.
  assert (ua * cc * cb = ua * cb * cc ∧ ub * ca * cc = ub * cc * ca ∧ uc * cb * ca = uc * ca * cb) as (E1 & E2 & E3) by lia.
  destruct H1 as [H1|[H1 L1]], H2 as [H2|[H2 L2]]; [left..|right];
    [apply (Z.mul_lt_mono_pos_r cb); [done|]; nia..|].
  split; [|by eapply string_leb_trans]. apply (Z.mul_cancel_r _ _ cb); [lia|]. nia.
Qed.

Lemma hbm_lt_le a b : if hbm_lt a b then fill_le a b else fill_le b a.
Proof.
  unfold hbm_lt, fill_le. cbv zeta. destruct (Z.ltb_spec (hbm_used_bytes a * hbm_capacity_bytes b) (hbm_used_bytes b * hbm_capacity_bytes a)); cbn [orb]; [by left|].
  destruct (Z.eqb_spec (hbm_used_bytes a * hbm_capacity_bytes b) (hbm_used_bytes b * hbm_capacity_bytes a)); cbn [andb]; [|left; lia].
  destruct (String.leb (w_id b) (w_id a)) eqn:E; cbn [negb]; right; (split; [done|]); [done|by apply string_leb_total].
Qed.

Lemma max_by_fullest l x : Forall (λ w, 0 < hbm_capacity_bytes w) l → max_by hbm_lt l = Some x → x ∈ l ∧ Forall (λ w, fill_le w x) l.
Proof.
  revert x. induction l as [|y l IH] using rev_ind; intros x Hcap Hx; [done|].
  apply Forall_app in Hcap as (Hcl & Hcy). apply (proj1 (Forall_singleton _ _)) in Hcy.
  destruct l as [|z l]; [injection Hx as <-; split; [set_solver|]; apply Forall_singleton, fill_le_refl|].
  destruct (max_by hbm_lt (z :: l)) as [b|] eqn:Eb; [|done]. destruct (IH b Hcl eq_refl) as (Hin & Hall).
  rewrite (max_by_snoc _ _ _ _ Eb) in Hx. pose proof (proj1 (Forall_forall _ _) Hcl b Hin) as Hcb. cbn in Hcb.
  pose proof (hbm_lt_le y b) as Hyb. destruct (hbm_lt y b); injection Hx as <-; (split; [set_solver|]); apply Forall_app; (split; [|apply Forall_singleton]).
  - done.
  - done.
  - apply Forall_forall. intros w Hw. pose proof (proj1 (Forall_forall _ _) Hall w Hw) as Hwb. cbn in Hwb.
    pose proof (proj1 (Forall_forall _ _) Hcl w Hw) as Hcw. cbn in Hcw. apply (fill_le_trans w b y); [done|done|exact Hcy|done|done].
  - apply fill_le_refl.
Qed.

(** The worker named for demotion has the highest HBM fill ratio of the fleet (compared
    as exact fractions, the greatest name among the fullest); one is named whenever some worker has HBM at all. *)
Theorem most_hbm_pressured_max workers :
  match most_hbm_pressured_worker workers with
  | None => ∀ w, w ∈ workers → hbm_capacity_bytes w ≤ 0
  | Some m => m ∈ workers ∧ 0 < hbm_capacity_bytes m ∧ ∀ w, w ∈ workers → 0 < hbm_capacity_bytes w → fill_le w m
  end.
Proof.
  unfold most_hbm_pressured_worker. set (l := filter _ workers).
  assert (Hcap : Forall (λ w, 0 < hbm_capacity_bytes w) l)
    by (apply Forall_forall; intros w (? & _)%list_elem_of_filter; done).
  destruct (max_by hbm_lt l) as [m|] eqn:Em.
  - destruct (max_by_fullest l m Hcap Em) as (Hin & Hall). apply list_elem_of_filter in Hin as (Hc & Hin). split_and!; [done..|].
    intros w Hw Hcw. apply (proj1 (Forall_forall _ _) Hall). by apply list_elem_of_filter.
  - apply max_by_nil in Em. intros w Hw. destruct (Z.lt_ge_cases 0 (hbm_capacity_bytes w)) as [Hp|]; [|done].
    assert (Hf : w ∈ l) by by apply list_elem_of_filter. rewrite Em in Hf. by apply not_elem_of_nil in Hf.
Qed.

(** ** What the observations warrant

    Stated on the observations alone, with the order of the floats (a NaN is related to nothing), the exact sums of the loads and
    the best workers by their defining inequalities; none of the planners' functions is used. *)

Definition f64_lt (x y : f64) : Prop := SFcompare x y = Some Lt.
Definition f64_le (x y : f64) : Prop := SFcompare x y = Some Lt ∨ SFcompare x y = Some Eq.

Section warranted.
Context (policy : CoSchedulerPolicy) (s : CoSchedulerSnapshot).

(** The p99 when it was measured, else the mean. *)
Definition ttft_is (x : f64) : Prop :=
  ttft_p99_ms (sn_slo s) = Some x ∨ ttft_p99_ms (sn_slo s) = None ∧ ttft_mean_ms (sn_slo s) = Some x.
Definition missed_slo : Prop := ∃ m, slo_miss_pct (sn_slo s) = Some m ∧ f64_lt (max_slo_miss_pct policy) m.
Definition slo_breached : Prop :=
  (∃ t b, ttft_is t ∧ ttft_budget_ms (sn_slo s) = Some b ∧ f64_lt (f64_of_u64 b) t)
  ∨ (∃ g, goodput_pct (sn_slo s) = Some g ∧ f64_lt g (min_goodput_pct policy))
  ∨ missed_slo.

Definition remote_breached : Prop :=
  (∃ h, remote_hit_rate_pct (sn_cache s) = Some h ∧ f64_le (remote_hit_rate_threshold_pct policy) h)
  ∨ ∃ full, full_transfer_ms (sn_transfer s) = Some full ∧ f64_lt (time_to_first_layer_budget_ms policy) full
      ∧ ∀ first, time_to_first_layer_ms (sn_transfer s) = Some first → f64_lt first full.

Definition queue_high : Prop := high_transfer_queue_depth policy ≤ queue_depth (sn_transfer s).
Definition transfer_breached : Prop :=
  (∃ ms, time_to_first_layer_ms (sn_transfer s) = Some ms ∧ f64_lt (time_to_first_layer_budget_ms policy) ms)
  ∨ queue_high
  ∨ ∃ eff full, overlap_efficiency_pct (sn_transfer s) = Some eff ∧ full_transfer_ms (sn_transfer s) = Some full
      ∧ f64_lt (time_to_first_layer_budget_ms policy) full ∧ f64_lt eff (min_overlap_efficiency_pct policy).

Definition hbm_fill (x : f64) : Prop :=
  to_hbm_capacity_bytes (sn_tier s) ≠ 0
  ∧ x = f64_div (f64_mul (f64_of_u64 100) (f64_of_u64 (to_hbm_used_bytes (sn_tier s)))) (f64_of_u64 (to_hbm_capacity_bytes (sn_tier s))).

Definition total (f : WorkerState → Z) : Z := foldr Z.add 0 (f <$> sn_workers s).
Definition has_role (r : EngineRole) : Prop := ∃ w, w ∈ sn_workers s ∧ w_role w = r.
Inductive pd_share : string → Prop :=
| share_split : ~ (has_role Prefill ∧ has_role Decode) → pd_share "split_aggregated_worker_for_pd"
| share_prefill : has_role Prefill → has_role Decode →
    Z.min u64_max (total running_decodes * 512) < total queued_prefill_tokens → pd_share "increase_prefill_share"
| share_balance : has_role Prefill → has_role Decode →
    total queued_prefill_tokens ≤ Z.min u64_max (total running_decodes * 512) → pd_share "rebalance_prefill_decode_share".

(** Fewest running decodes, then fewest queued tokens, then the least name. *)
Definition load_le (a b : WorkerState) : Prop :=
  running_decodes a < running_decodes b ∨ running_decodes a = running_decodes b ∧
    (queued_prefill_tokens a < queued_prefill_tokens b ∨ queued_prefill_tokens a = queued_prefill_tokens b ∧ String.leb (w_id a) (w_id b) = true).
Definition best_target (holders : list string) (t : WorkerState) : Prop :=
  t ∈ sn_workers s ∧ w_id t ∉ holders ∧ ∀ w, w ∈ sn_workers s → w_id w ∉ holders → load_le t w.
Definition demote_from (target : option string) : Prop :=
  match target with
  | Some id => ∃ m, id = w_id m ∧ m ∈ sn_workers s ∧ 0 < hbm_capacity_bytes m
                 ∧ ∀ w, w ∈ sn_workers s → 0 < hbm_capacity_bytes w → fill_le w m
  | None => ∀ w, w ∈ sn_workers s → hbm_capacity_bytes w ≤ 0
  end.

Inductive warranted : CoSchedulerAction → Prop :=
| wr_pd share ttft :
    slo_breached → (∃ w, w ∈ sn_workers s ∧ w_role w ≠ Decode) → (∃ w, w ∈ sn_workers s ∧ w_role w ≠ Prefill) → pd_share share →
    (∀ x, ttft = Some x ↔ ttft_is x) →
    warranted (mkCoAction (sn_epoch s) AdjustPdRatio None None None None (Some share)
                 (TtftPressure ttft (ttft_budget_ms (sn_slo s)) (goodput_pct (sn_slo s))))
| wr_hot p h hs t :
    remote_breached → p ∈ sn_hot_prefixes s → min_hot_prefix_hits policy ≤ hp_hits p → hp_holders p = h :: hs →
    Z.of_nat (length (h :: hs)) < target_hot_prefix_replicas policy → best_target (h :: hs) t →
    warranted (mkCoAction (sn_epoch s) ReplicateHotPrefix (Some (w_id t)) (Some h) (Some (hp_prefix_hash p)) (Some Hbm)
                 (Some ("target_replicas=" +:+ pretty (target_hot_prefix_replicas policy)))
                 (HotRemotePrefix (hp_hits p) (Z.of_nat (length (h :: hs))) (remote_hit_rate_pct (sn_cache s))))
| wr_hbm x target :
    hbm_fill x → ~ f64_lt x (hbm_pressure_threshold_pct policy) → demote_from target →
    warranted (mkCoAction (sn_epoch s) DemotePrefix target None None (Some CpuDram) (Some "demote_cold_hbm_blocks")
                 (HbmPressure x (hbm_pressure_threshold_pct policy)))
| wr_transfer :
    transfer_breached →
    warranted (mkCoAction (sn_epoch s) TuneTransferDepth None None None None (Some "prioritize_first_layer_or_switch_backend")
                 (TransferPressure (time_to_first_layer_ms (sn_transfer s)) (queue_depth (sn_transfer s)) (overlap_efficiency_pct (sn_transfer s))))
| wr_admission x :
    missed_slo → queue_high → hbm_fill x → f64_le (hbm_pressure_threshold_pct policy) x →
    warranted (mkCoAction (sn_epoch s) AdmissionReject None None None None (Some "enable_overload_rejection")
                 (SloMiss (slo_miss_pct (sn_slo s)) (queue_depth (sn_transfer s)) (Some x))).
End warranted.

(** The order of a plan: by planner; replications by hits, the hottest first, then by the prefix's name. *)
Definition rank (a : CoSchedulerAction) : Z :=
  match ca_kind a with AdjustPdRatio => 0 | ReplicateHotPrefix => 1 | DemotePrefix => 2 | TuneTransferDepth => 3 | _ => 4 end.
Definition action_hits (a : CoSchedulerAction) : Z := match ca_reason a with HotRemotePrefix hits _ _ => hits | _ => 0 end.
Definition precedes (a b : CoSchedulerAction) : Prop :=
  rank a < rank b ∨ rank a = rank b ∧
    (action_hits b < action_hits a ∨ action_hits a = action_hits b ∧ String.leb (default "" (ca_prefix_hash a)) (default "" (ca_prefix_hash b)) = true).

(** The loads are [u32]s whose sums fit a [u64]. *)
Definition loads_fit (s : CoSchedulerSnapshot) : Prop :=
  Forall (λ w, 0 ≤ running_decodes w ∧ 0 ≤ queued_prefill_tokens w) (sn_workers s)
  ∧ total s running_decodes ≤ u64_max ∧ total s queued_prefill_tokens ≤ u64_max.

Lemma f64_ltb_iff x y : f64_ltb x y = true ↔ f64_lt x y.
Proof. unfold f64_ltb, SFltb, f64_lt. destruct (SFcompare x y) as [[]|]; naive_solver. Qed.
Lemma f64_geb_iff x y : f64_geb x y = true ↔ f64_le y x.
Proof. unfold f64_geb, SFleb, f64_le. destruct (SFcompare y x) as [[]|]; naive_solver. Qed.
Lemma holds_iff f o : holds f o = true ↔ ∃ x, o = Some x ∧ f x = true.
Proof. destruct o; cbn; naive_solver. Qed.

Section warranted_proofs.
Context (policy : CoSchedulerPolicy) (s : CoSchedulerSnapshot).

Lemma missed_slo_iff : holds (λ p, f64_gtb p (max_slo_miss_pct policy)) (slo_miss_pct (sn_slo s)) = true ↔ missed_slo policy s.
Proof. rewrite holds_iff. unfold missed_slo, f64_gtb. by setoid_rewrite f64_ltb_iff. Qed.

Lemma ttft_is_iff x : observed_ttft_ms (sn_slo s) = Some x ↔ ttft_is s x.
Proof. unfold observed_ttft_ms, ttft_is. destruct (ttft_p99_ms (sn_slo s)); naive_solver. Qed.

Lemma slo_breached_iff : slo_under_pressure policy (sn_slo s) = true ↔ slo_breached policy s.
Proof.
  unfold slo_under_pressure, slo_breached. cbv zeta. rewrite !orb_true_iff, missed_slo_iff, holds_iff. setoid_rewrite f64_ltb_iff. setoid_rewrite <- ttft_is_iff.
  unfold f64_gtb. destruct (observed_ttft_ms (sn_slo s)) as [t|], (ttft_budget_ms (sn_slo s)) as [b|]; rewrite ?f64_ltb_iff; naive_solver.
Qed.

Lemma remote_breached_iff : remote_reuse_under_pressure policy s = true ↔ remote_breached policy s.
Proof.
  unfold remote_reuse_under_pressure, remote_breached. cbv zeta. rewrite orb_true_iff, holds_iff. setoid_rewrite f64_geb_iff. unfold f64_gtb.
  destruct (full_transfer_ms (sn_transfer s)) as [full|], (time_to_first_layer_ms (sn_transfer s)) as [first|]; rewrite ?andb_true_iff, ?f64_ltb_iff; naive_solver.
Qed.

Lemma transfer_breached_iff : transfer_slow policy s = true ↔ transfer_breached policy s.
Proof.
  unfold transfer_slow, transfer_breached, queue_high. cbv zeta. rewrite !orb_true_iff, holds_iff, Z.leb_le. unfold f64_gtb. setoid_rewrite f64_ltb_iff.
  destruct (overlap_efficiency_pct (sn_transfer s)) as [eff|], (full_transfer_ms (sn_transfer s)) as [full|]; rewrite ?andb_true_iff, ?f64_ltb_iff; naive_solver.
Qed.

Lemma hbm_fill_iff x : hbm_pressure_pct (sn_tier s) = Some x ↔ hbm_fill s x.
Proof. unfold hbm_pressure_pct, pct, hbm_fill. destruct (Z.eqb_spec (to_hbm_capacity_bytes (sn_tier s)) 0); naive_solver. Qed.

Lemma overloaded_iff : overloaded policy s = true ↔ missed_slo policy s ∧ queue_high policy s ∧ ∃ x, hbm_fill s x ∧ f64_le (hbm_pressure_threshold_pct policy) x.
Proof.
  unfold overloaded, queue_high. cbv zeta. rewrite !andb_true_iff, missed_slo_iff, Z.leb_le, holds_iff. setoid_rewrite f64_geb_iff. setoid_rewrite hbm_fill_iff. tauto.
Qed.

Lemma worker_exists (f : EngineRole → bool) : existsb (λ w, f (w_role w)) (sn_workers s) = true ↔ ∃ w, w ∈ sn_workers s ∧ f (w_role w) = true.
Proof. rewrite existsb_exists. by setoid_rewrite list_elem_of_In. Qed.

Lemma count_role_iff r : count_role r (sn_workers s) ≠ 0 ↔ has_role s r.
Proof.
  unfold count_role, has_role. split.
  - destruct (filter _ (sn_workers s)) as [|w l] eqn:E; [done|]. intros _. exists w.
    assert (w ∈ filter (λ w, w_role w = r) (sn_workers s)) as [? ?]%list_elem_of_filter by (rewrite E; by left). done.
  - intros (w & Hw & Hr). assert (w ∈ filter (λ w, w_role w = r) (sn_workers s)) as Hin by by apply list_elem_of_filter.
    destruct (filter _ (sn_workers s)); [by apply not_elem_of_nil in Hin|]. cbn. lia.
Qed.

Lemma pd_value_share : loads_fit s → ∃ v, pd_value (sn_workers s) = Some v ∧ ∀ v', pd_share s v' ↔ v' = v.
Proof.
  intros (Hpos & Hd & Hq). unfold pd_value. rewrite !u64_sum_ok; [|by rewrite Forall_fmap; eapply Forall_impl; [done|]; naive_solver|done|by rewrite Forall_fmap; eapply Forall_impl; [done|]; naive_solver|done].
  cbn [mbind option_bind]. eexists. split; [done|]. fold (total s running_decodes) (total s queued_prefill_tokens). intros v'. unfold u64_sat_mul.
  pose proof (count_role_iff Prefill) as Hp. pose proof (count_role_iff Decode) as Hdc.
  destruct (Z.eqb_spec (count_role Prefill (sn_workers s)) 0) as [E|E], (Z.eqb_spec (count_role Decode (sn_workers s)) 0) as [E'|E']; cbn [orb];
    try (split; [intros [? |? ? ?|? ? ?]; done || (exfalso; tauto)|intros ->; constructor; tauto]).
  destruct (Z.ltb_spec (Z.min u64_max (total s running_decodes * 512)) (total s queued_prefill_tokens));
    (split; [intros [? |? ? ?|? ? ?]; done || (exfalso; tauto || lia)|intros ->; constructor; tauto || lia]).
Qed.
End warranted_proofs.

Section plan_proofs.
Context (policy : CoSchedulerPolicy) (s : CoSchedulerSnapshot).

Lemma load_le_iff a b : least_loaded_lt b a = false ↔ load_le a b.
Proof.
  unfold least_loaded_lt, load_le.
  destruct (Z.ltb_spec (running_decodes b) (running_decodes a)), (Z.eqb_spec (running_decodes b) (running_decodes a)),
    (Z.ltb_spec (queued_prefill_tokens b) (queued_prefill_tokens a)), (Z.eqb_spec (queued_prefill_tokens b) (queued_prefill_tokens a)),
    (String.leb (w_id a) (w_id b)); cbn [orb andb negb]; (split; [intros Hf; try discriminate Hf|]); lia || (intros Hx; naive_solver lia).
Qed.
Lemma load_le_antisym a b : load_le a b → load_le b a → w_id a = w_id b.
Proof. intros [?|[? [?|[? Ha]]]] [?|[? [?|[? Hb]]]]; try lia. by apply string_leb_antisym. Qed.

Lemma target_best holders id : (w_id <$> least_loaded_non_holder (sn_workers s) holders) = Some id ↔ ∃ t, id = w_id t ∧ best_target s holders t.
Proof.
  unfold least_loaded_non_holder. assert (∀ t, min_by least_loaded_lt (filter (λ w, w_id w ∉ holders) (sn_workers s)) = Some t → best_target s holders t) as Hbest.
  { intros t Ht. destruct (min_by_is_first_min _ _ _ Ht) as (i & Hi & Hmin & _). apply list_elem_of_lookup_2, list_elem_of_filter in Hi as (Hni & Hin).
    split_and!; [done..|]. intros w Hw Hn. apply load_le_iff.
    assert (w ∈ filter (λ w, w_id w ∉ holders) (sn_workers s)) as (j & Hj)%list_elem_of_lookup by by apply list_elem_of_filter. by eapply Hmin. }
  split.
  - intros (t & Ht & ->)%fmap_Some. eauto.
  - intros (t & -> & Hin & Hni & Hle). destruct (min_by _ _) as [t'|] eqn:E.
    + cbn. f_equal. destruct (Hbest t' eq_refl) as (Hin' & Hni' & Hle'). apply load_le_antisym; auto.
    + apply min_by_nil in E. assert (t ∈ filter (λ w, w_id w ∉ holders) (sn_workers s)) as Hf by by apply list_elem_of_filter.
      rewrite E in Hf. by apply not_elem_of_nil in Hf.
Qed.

Lemma demote_target_iff target : w_id <$> most_hbm_pressured_worker (sn_workers s) = target ↔ demote_from s target.
Proof.
  pose proof (most_hbm_pressured_max (sn_workers s)) as Hm. destruct (most_hbm_pressured_worker (sn_workers s)) as [m|]; cbn.
  - destruct Hm as (Hin & Hc & Hle). split.
    + intros <-. cbn. by exists m.
    + destruct target as [id|]; cbn; [|intros Hno; specialize (Hno m Hin); lia]. intros (m' & -> & Hin' & Hc' & Hle'). apply (f_equal Some).
      pose proof (Hle m' Hin' Hc') as H1. pose proof (Hle' m Hin Hc) as H2. destruct H1 as [?|[? H1]], H2 as [?|[? H2]]; try lia. by apply string_leb_antisym.
  - split; [by intros <-|]. destruct target as [id|]; [|done]. cbn. intros (m & _ & Hin & Hc & _). specialize (Hm m Hin). lia.
Qed.

Lemma hot_action_iff a : a ∈ hot_actions policy s ↔ warranted policy s a ∧ ca_kind a = ReplicateHotPrefix.
Proof.
  unfold hot_actions. pose proof (remote_breached_iff policy s) as Hrb. destruct (remote_reuse_under_pressure policy s).
  2:{ split; [by intros ?%not_elem_of_nil|]. intros [[] Hk]; try done. exfalso. naive_solver. }
  rewrite list_elem_of_omap. unfold co_hot_prefixes. setoid_rewrite stable_sort_perm. setoid_rewrite list_elem_of_filter. split.
  - intros (p & ((Hh & Hp) & Ha)). apply fmap_Some in Ha as (t & Ht & ->). unfold co_hot in Hh. apply andb_true_iff in Hh as [[Hmin Hne]%andb_true_iff Hlt].
    apply Z.leb_le in Hmin. apply Z.ltb_lt in Hlt. apply negb_true_iff, bool_decide_eq_false in Hne. destruct (hp_holders p) as [|h hs] eqn:Eh; [done|].
    destruct (proj1 (target_best (h :: hs) (w_id t))) as (t' & Et & Hb); [by rewrite Ht|]. split; [|done].
    unfold replicate_action. rewrite Eh. cbn [head]. rewrite Et. apply wr_hot with (h := h); tauto.
  - intros [Hw Hk]. destruct Hw as [| p h hs t _ Hp Hmin Eh Hlt Hb| | |]; try done. exists p. split.
    + split; [|done]. unfold co_hot. rewrite Eh. rewrite !andb_true_iff, negb_true_iff, bool_decide_eq_false, Z.leb_le, Z.ltb_lt. done.
    + rewrite Eh. assert (w_id <$> least_loaded_non_holder (sn_workers s) (h :: hs) = Some (w_id t)) as (t' & -> & Et)%fmap_Some by (apply target_best; eauto).
      cbn. unfold replicate_action. by rewrite Eh, Et.
Qed.

Lemma hbm_action_iff a : a ∈ hbm_actions policy s ↔ warranted policy s a ∧ ca_kind a = DemotePrefix.
Proof.
  unfold hbm_actions. pose proof (hbm_fill_iff s) as Hf. destruct (hbm_pressure_pct (sn_tier s)) as [p|].
  2:{ split; [by intros ?%not_elem_of_nil|]. intros [[] Hk]; try done. exfalso. naive_solver. }
  assert (∀ x, hbm_fill s x ↔ x = p) as Hx by (intros x; rewrite <- Hf; naive_solver). pose proof (f64_ltb_iff p (hbm_pressure_threshold_pct policy)) as Hlt.
  destruct (f64_ltb p _).
  - split; [by intros ?%not_elem_of_nil|]. intros [[] Hk]; try done. exfalso. naive_solver.
  - rewrite list_elem_of_singleton. split.
    + intros ->. split; [|done]. apply wr_hbm; [by apply Hx|naive_solver|by apply demote_target_iff].
    + intros [Hw Hk]. destruct Hw as [| |x target Hfx _ Ht| |]; try done. apply Hx in Hfx as ->. by apply demote_target_iff in Ht as <-.
Qed.

Lemma transfer_action_iff a : a ∈ transfer_actions policy s ↔ warranted policy s a ∧ ca_kind a = TuneTransferDepth.
Proof.
  unfold transfer_actions. pose proof (transfer_breached_iff policy s) as Ht. destruct (transfer_slow policy s).
  - rewrite list_elem_of_singleton. split; [intros ->; split; [constructor; tauto|done]|]. by intros [[] Hk].
  - split; [by intros ?%not_elem_of_nil|]. intros [[] Hk]; try done. exfalso. naive_solver.
Qed.

Lemma admission_action_iff a : a ∈ admission_actions policy s ↔ warranted policy s a ∧ ca_kind a = AdmissionReject.
Proof.
  unfold admission_actions. pose proof (overloaded_iff policy s) as Ho. destruct (overloaded policy s).
  - destruct (proj1 Ho eq_refl) as (Hm & Hq & x & Hf & Hle). pose proof (proj2 (hbm_fill_iff s x) Hf) as Ex. rewrite Ex, list_elem_of_singleton.
    split; [intros ->; split; [by apply wr_admission|done]|]. intros [Hw Hk]. destruct Hw as [| | | |y _ _ Hy _]; try done.
    apply hbm_fill_iff in Hy. by simplify_eq.
  - split; [by intros ?%not_elem_of_nil|]. intros [Hw Hk]. destruct Hw as [| | | |y ? ? ? ?]; try done. exfalso. naive_solver.
Qed.

Lemma pd_action_iff : loads_fit s → ∃ pd, pd_actions policy s = Some pd ∧ (length pd ≤ 1)%nat ∧ ∀ a, a ∈ pd ↔ warranted policy s a ∧ ca_kind a = AdjustPdRatio.
Proof.
  intros Hl. unfold pd_actions, pd_warranted. pose proof (slo_breached_iff policy s) as Hs.
  assert (∀ f r, (∀ x, f x = true ↔ x ≠ r) → existsb (λ w, f (w_role w)) (sn_workers s) = true ↔ ∃ w, w ∈ sn_workers s ∧ w_role w ≠ r) as Hex.
  { intros f r Hf. rewrite worker_exists. by setoid_rewrite Hf. }
  pose proof (Hex can_prefill Decode ltac:(by intros [])) as Hp. pose proof (Hex can_decode Prefill ltac:(by intros [])) as Hd.
  destruct (slo_under_pressure policy (sn_slo s) && existsb (λ w, can_prefill (w_role w)) (sn_workers s) && existsb (λ w, can_decode (w_role w)) (sn_workers s)) eqn:E.
  - apply andb_true_iff in E as [[Hs'%Hs Hp'%Hp]%andb_true_iff Hd'%Hd]. destruct (pd_value_share s Hl) as (v & -> & Hv). cbn [mbind option_bind].
    eexists. split; [done|]. split; [done|]. intros a. rewrite list_elem_of_singleton. split.
    + intros ->. split; [|done]. apply wr_pd; [done..|by apply Hv|]. intros x. apply ttft_is_iff.
    + intros [Hw Hk]. destruct Hw as [v' ttft _ _ _ Hv' Ht| | | |]; try done. apply Hv in Hv' as ->. do 2 f_equal.
      apply option_eq. intros x. by rewrite Ht, ttft_is_iff.
  - exists []. split; [done|]. split; [cbn; lia|]. intros a. split; [by intros ?%not_elem_of_nil|]. intros [Hw Hk]. destruct Hw as [v ttft H1 H2 H3 _ _| | | |]; try done. exfalso.
    apply Hs in H1. apply Hp in H2. apply Hd in H3. by rewrite H1, H2, H3 in E.
Qed.

(** ** The order *)

Lemma rank_sorted (l : list CoSchedulerAction) r : (∀ a, a ∈ l → rank a = r) → (length l ≤ 1)%nat → StronglySorted precedes l.
Proof. destruct l as [|a [|]]; [constructor|repeat constructor|cbn; lia]. Qed.

Lemma hot_sorted : StronglySorted precedes (hot_actions policy s).
Proof.
  unfold hot_actions. destruct (remote_reuse_under_pressure policy s); [|constructor]. unfold co_hot_prefixes.
  induction (then_sorted (λ p, - hp_hits p) hp_prefix_hash (filter (λ p, co_hot policy p = true) (sn_hot_prefixes s))) as [|p l Hl IH Hp]; [constructor|].
  cbn [omap list_omap]. destruct (least_loaded_non_holder _ _) as [t|]; [|done]. constructor; [done|].
  apply Forall_forall. intros a (q & Hq & Ha)%list_elem_of_omap. apply fmap_Some in Ha as (t' & _ & ->).
  rewrite Forall_forall in Hp. apply Hp, then_leb_iff in Hq. right. split; [done|]. cbn. destruct Hq as [?|[? ?]]; [left; lia|right; split; [lia|done]].
Qed.

Lemma sorted_app_rank (l k : list CoSchedulerAction) r :
  StronglySorted precedes l → StronglySorted precedes k → (∀ a, a ∈ l → rank a = r) → (∀ a, a ∈ k → r < rank a) → StronglySorted precedes (l ++ k).
Proof. intros Hl Hk Hr Hr'. apply StronglySorted_app. split_and!; [|done..]. intros a b Ha Hb. left. rewrite (Hr a Ha). by apply Hr'. Qed.

Lemma rank_of k a : ca_kind a = k → rank a = match k with AdjustPdRatio => 0 | ReplicateHotPrefix => 1 | DemotePrefix => 2 | TuneTransferDepth => 3 | _ => 4 end.
Proof. unfold rank. by intros ->. Qed.

(** The uncut plan: exactly the warranted actions, in order. *)
Lemma full_plan : loads_fit s → ∃ pd, pd_actions policy s = Some pd ∧
  let full := pd ++ hot_actions policy s ++ hbm_actions policy s ++ transfer_actions policy s ++ admission_actions policy s in
  (∀ a, a ∈ full ↔ warranted policy s a) ∧ StronglySorted precedes full.
Proof.
  intros Hl. destruct (pd_action_iff Hl) as (pd & Epd & Hlen & Hpd). exists pd. split; [done|]. cbv zeta. split.
  - intros a. rewrite !elem_of_app, Hpd, hot_action_iff, hbm_action_iff, transfer_action_iff, admission_action_iff.
    split; [tauto|]. intros Hw. destruct Hw; [left|right; left|right; right; left|right; right; right; left|right; right; right; right]; (split; [by econstructor|done]).
  - assert (∀ a, a ∈ pd → rank a = 0) as R0 by (intros a [_ E]%Hpd; by rewrite (rank_of _ _ E)).
    assert (∀ a, a ∈ hot_actions policy s → rank a = 1) as R1 by (intros a [_ E]%hot_action_iff; by rewrite (rank_of _ _ E)).
    assert (∀ a, a ∈ hbm_actions policy s → rank a = 2) as R2 by (intros a [_ E]%hbm_action_iff; by rewrite (rank_of _ _ E)).
    assert (∀ a, a ∈ transfer_actions policy s → rank a = 3) as R3 by (intros a [_ E]%transfer_action_iff; by rewrite (rank_of _ _ E)).
    assert (∀ a, a ∈ admission_actions policy s → rank a = 4) as R4 by (intros a [_ E]%admission_action_iff; by rewrite (rank_of _ _ E)).
    apply (sorted_app_rank _ _ 0); [by apply (rank_sorted _ 0)| |done|intros a; rewrite !elem_of_app; intros [?%R1|[?%R2|[?%R3|?%R4]]]; lia].
    apply (sorted_app_rank _ _ 1); [apply hot_sorted| |done|intros a; rewrite !elem_of_app; intros [?%R2|[?%R3|?%R4]]; lia].
    apply (sorted_app_rank _ _ 2); [apply (rank_sorted _ 2); [done|]| |done|intros a; rewrite !elem_of_app; intros [?%R3|?%R4]; lia].
    { unfold hbm_actions. repeat case_match; cbn; lia. }
    apply (sorted_app_rank _ _ 3); [apply (rank_sorted _ 3); [done|]|apply (rank_sorted _ 4); [done|]|done|intros a ?%R4; lia].
    { unfold transfer_actions. case_match; cbn; lia. }
    unfold admission_actions. case_match; cbn; lia.
Qed.

(** C16 With loads whose sums fit 64 bits the planner returns a plan for the snapshot's epoch: only actions the observations warrant ([warranted],
    stated without the planner's own functions: which thresholds are crossed, which worker is the least loaded one without a copy or the fullest), every
    one of them unless the cap is reached, and then the ones left out come after all that were kept; in the planners' order, replications by
    hits and name. *)
Theorem co_plan_warranted dry :
  0 ≤ co_max_actions policy → loads_fit s →
  ∃ acts, co_plan policy s dry = Some (mkCoPlan (sn_epoch s) dry acts) ∧
    Z.of_nat (length acts) ≤ co_max_actions policy ∧ StronglySorted precedes acts ∧
    (∀ a, a ∈ acts → warranted policy s a) ∧
    ∀ a, warranted policy s a → a ∈ acts ∨ Z.of_nat (length acts) = co_max_actions policy ∧ ∀ b, b ∈ acts → precedes b a.
Proof.
  intros Hcap Hl. destruct (full_plan Hl) as (pd & Epd & Hin & Hsort). rewrite (co_plan_cut policy s dry pd Hcap Epd).
  set (full := pd ++ _) in *. set (n := Z.to_nat (co_max_actions policy)). exists (take n full). split; [done|].
  assert (Z.of_nat n = co_max_actions policy) as Hn by lia. split; [rewrite length_take; lia|]. rewrite <- (take_drop n full) in Hsort.
  split_and!; [by eapply StronglySorted_app_1_l| |].
  - intros a Ha. apply Hin. rewrite <- (take_drop n full). apply elem_of_app. by left.
  - intros a Ha%Hin. rewrite <- (take_drop n full) in Ha. apply elem_of_app in Ha as [?|Ha]; [by left|]. right. split.
    + rewrite length_take. assert (drop n full ≠ []) by (intros E; rewrite E in Ha; by apply not_elem_of_nil in Ha).
      destruct (Nat.le_gt_cases (length full) n) as [Hle|]; [by rewrite drop_ge in Ha; [apply not_elem_of_nil in Ha|]|lia].
    + intros b Hb. by eapply StronglySorted_app_1_elem_of.
Qed.
End plan_proofs.

(** ** A fleet under pressure *)

Definition cx_worker (id : string) (role : EngineRole) (used running queued : Z) : WorkerState :=
  mkWorker id role "rack" 1000 used 0 0 running queued.
Definition cx_snapshot : CoSchedulerSnapshot :=
  mkSnapshot 7 [cx_worker "p0" Prefill 300 1 900; cx_worker "d0" Decode 980 4 0; cx_worker "d1" Decode 900 2 0]
    (mkSloObs (Some (f64_of_u64 1200)) None None (Some 800) None (Some (f64_of_u64 15)) (Some (f64_of_u64 90)))
    (mkCacheObs 0 0 0 0 0 0 None (Some (f64_of_u64 30)))
    (mkTransferObs (Some (f64_of_u64 5)) None None None None 20 None)
    (mkTierObs 2180 2300 0 0 0 0 0)
    [mkHotPrefix "sys" ["d0"] 40 1024].

Example cx_kinds : (λ p, ca_kind <$> cp_actions p) <$> co_plan co_policy_default cx_snapshot true
  = Some [AdjustPdRatio; ReplicateHotPrefix; DemotePrefix; TuneTransferDepth; AdmissionReject].
Proof. vm_compute. reflexivity. Qed.

Lemma cx_loads_fit : loads_fit cx_snapshot.
Proof. split; [repeat constructor; cbn; lia|]. split; vm_compute; discriminate. Qed.
Lemma co_plan_warranted_witness :
  ∃ acts, co_plan co_policy_default cx_snapshot true = Some (mkCoPlan 7 true acts) ∧ (∀ a, a ∈ acts → warranted co_policy_default cx_snapshot a)
    ∧ ca_kind <$> acts = [AdjustPdRatio; ReplicateHotPrefix; DemotePrefix; TuneTransferDepth; AdmissionReject].
Proof.
  destruct (co_plan_warranted co_policy_default cx_snapshot true) as (acts & E & _ & _ & Hw & _); [vm_compute; discriminate|exact cx_loads_fit|].
  exists acts. split; [exact E|]. split; [exact Hw|]. pose proof cx_kinds as K. rewrite E in K. injection K as K. exact K.
Defined.

Definition cx_action : CoSchedulerAction :=
  replicate_action co_policy_default cx_snapshot (mkHotPrefix "sys" ["d0"] 40 1024) (cx_worker "p0" Prefill 300 1 900).
Lemma cx_action_in : cx_action ∈ hot_actions co_policy_default cx_snapshot.
Proof. apply list_elem_of_lookup. exists 0%nat. vm_compute. reflexivity. Qed.
Lemma replication_target_least_loaded_witness :
  ∃ p t, p ∈ sn_hot_prefixes cx_snapshot ∧ t ∈ sn_workers cx_snapshot ∧ ca_prefix_hash cx_action = Some (hp_prefix_hash p)
    ∧ ca_target_worker_id cx_action = Some (w_id t) ∧ w_id t ∉ hp_holders p
    ∧ (∃ h, ca_source_worker_id cx_action = Some h ∧ h ∈ hp_holders p)
    ∧ ∀ w, w ∈ sn_workers cx_snapshot → w_id w ∉ hp_holders p → least_loaded_lt w t = false.
Proof. exact (replication_target_least_loaded co_policy_default cx_snapshot cx_action cx_action_in). Defined.
