(* ===== verification/Control.v ===== *)
(** * The control plane

    crates/quillcache-core/src/control.rs: KV events into the residency index, request
    planning, inferred placement, the reuse audit, live load, and the views handed to the
    co-scheduler and the replication planner.  The [Box<dyn _>] fields are a backend type
    [B] with its [IndexBackend] instance, a data plane [D] with its [DataPlane] instance
    and a [Policy] with the router's own cost model and round-robin counter.  The methods
    that take [&self] but write through a lock (hotness, the round-robin counter) return
    the new state. *)
From stdpp Require Import pretty.
From S2P Require Import Prelude F64 Order Identity ShardedMap MemIndex Router Conductor Replication DataPlane CoScheduler.

(** ** Events and answers *)

Record BlockStoredEvent : Type := mkStored {
  bs_block_hashes : list string;
  bs_parent_block_hash : option string;
  bs_token_ids : list Z;
  bs_block_size : Z;
  bs_medium : option string;
  bs_lora_name : option string;
  bs_group_idx : option Z;
  bs_bytes_per_block : option Z
}.
Record BlockRemovedEvent : Type := mkRemoved {
  br_block_hashes : list string;
  br_medium : option string;
  br_group_idx : option Z
}.
Inductive KvEvent : Type :=
| EvBlockStored (e : BlockStoredEvent)
| EvBlockRemoved (e : BlockRemovedEvent)
| EvAllBlocksCleared.
Record KvEventBatch : Type := mkBatch {
  kb_engine_id : string;
  kb_ts_ms : option Z;
  kb_model_id : option string;
  kb_tokenizer_id : option string;
  kb_adapter_id : option string;
  kb_tenant_id : option string;
  kb_bytes_per_block : option Z;
  kb_events : list KvEvent
}.

Inductive ControlError : Type := UnknownEngine (id : string) | RouterErr (e : RouterError).
Record IngestSummary : Type := mkIngest {
  stored_blocks : Z;
  removed_blocks : Z;
  cleared : bool;
  total_resident_blocks : Z
}.
Record ReuseAudit : Type := mkAudit {
  safe_reusable : Z;
  refused_unsafe : Z;
  refused_cross_tenant : Z;
  refused_cross_adapter : Z;
  refused_cross_model : Z;
  refused_cross_tokenizer : Z
}.

Inductive ServingMode : Type := AggregatedMode | Disaggregated.
Inductive PlanActionKind : Type := UseLocal | Fetch | Recompute | RunPrefill | DecodeAct.
#[export] Instance PlanActionKind_eq_dec : EqDecision PlanActionKind.
Proof. solve_decision. Defined.
Record PlanAction : Type := mkPlanAction {
  pa_kind : PlanActionKind;
  pa_worker_id : string;
  pa_source_worker_id : option string;
  pa_key : option KvBlockKey;
  pa_tier : option CacheTier;
  pa_estimated_us : Z
}.
Record RequestPlan : Type := mkRequestPlan {
  rq_mode : ServingMode;
  rq_execution_worker_id : string;
  rq_prefill_worker_id : option string;
  rq_decode_worker_id : string;
  rq_route : RouteDecision;
  rq_actions : list PlanAction
}.
Inductive AdmissionDecision : Type :=
| AdmitPlan (p : RequestPlan)
| Reject (reason : string) (best_slo_violation_us : Z).
Record KvHandoff : Type := mkHandoff {
  kh_request_id : string;
  kh_prefill_worker_id : string;
  kh_decode_worker_id : string;
  kh_blocks : list KvBlockKey
}.

Definition kv_handoff (p : RequestPlan) : option KvHandoff :=
  match rq_mode p with
  | AggregatedMode => None
  | Disaggregated =>
      pf ← rq_prefill_worker_id p;
      Some (mkHandoff (rd_request_id (rq_route p)) pf (rq_decode_worker_id p)
              (omap pa_key (filter (λ a, pa_kind a = RunPrefill) (rq_actions p))))
  end.

(** ** Events into the index *)

Definition or_else {A} (a b : option A) : option A := match a with Some x => Some x | None => b end.

Definition stored_tier (e : BlockStoredEvent) : CacheTier :=
  match bs_medium e with
  | Some m => match tier_from_str m with Ok t => t | Err _ => Hbm end
  | None => Hbm
  end.
Definition stored_bytes (batch : KvEventBatch) (e : BlockStoredEvent) : Z :=
  default (4 * 1024 * 1024) (or_else (bs_bytes_per_block e) (kb_bytes_per_block batch)).

(** The keys of a stored event: linked by hash, indexed from 0 in every event. *)
Definition stored_keys (engine : EngineEndpoint) (batch : KvEventBatch) (e : BlockStoredEvent) : list KvBlockKey :=
  to_blocks_loop (default (e_model_id engine) (kb_model_id batch)) (default (e_tokenizer_id engine) (kb_tokenizer_id batch))
    (or_else (kb_adapter_id batch) (bs_lora_name e)) (default (e_tenant_id engine) (kb_tenant_id batch))
    (bs_block_size e) (default "root"%string (bs_parent_block_hash e)) 0 (bs_block_hashes e).
Definition stored_residency (engine : EngineEndpoint) (batch : KvEventBatch) (e : BlockStoredEvent) (key : KvBlockKey) : CacheResidency :=
  mkResidency key (e_id engine) (stored_tier e) (stored_bytes batch e) (default 0 (kb_ts_ms batch)) 0 false.

(** The scope of a removal: the batch's adapter only. *)
Definition batch_scope (engine : EngineEndpoint) (batch : KvEventBatch) (adapter : option string) : IdentityScope :=
  mkScope (default (e_model_id engine) (kb_model_id batch)) (default (e_tokenizer_id engine) (kb_tokenizer_id batch))
    adapter (default (e_tenant_id engine) (kb_tenant_id batch)).

Definition find_engine (engines : list EngineEndpoint) (id : string) : option EngineEndpoint :=
  List.find (λ e, bool_decide (e_id e = id)) engines.

Section ingest.
Context {B : Type} `{IndexBackend B}.

Fixpoint put_all (rs : list CacheResidency) (b : B) : option B :=
  match rs with
  | [] => Some b
  | r :: rs' => b' ← ix_put r b; put_all rs' b'
  end.
Definition apply_stored (engine : EngineEndpoint) (batch : KvEventBatch) (e : BlockStoredEvent) (b : B) : option (Z * B) :=
  let rs := stored_residency engine batch e <$> stored_keys engine batch e in
  b' ← put_all rs b;
  Some (Z.of_nat (length rs), b').

Fixpoint remove_all (scope : IdentityScope) (worker : string) (hashes : list string) (b : B) : option (Z * B) :=
  match hashes with
  | [] => Some (0, b)
  | h :: hs =>
      '(n, b1) ← ix_remove_block scope worker h b;
      '(k, b2) ← remove_all scope worker hs b1;
      Some (n + k, b2)
  end.
Definition apply_removed (engine : EngineEndpoint) (batch : KvEventBatch) (e : BlockRemovedEvent) (b : B) : option (Z * B) :=
  remove_all (batch_scope engine batch (kb_adapter_id batch)) (e_id engine) (br_block_hashes e) b.

Fixpoint ingest_events (engine : EngineEndpoint) (batch : KvEventBatch) (evs : list KvEvent) (s r : Z) (c : bool) (b : B) :
    option (Z * Z * bool * B) :=
  match evs with
  | [] => Some (s, r, c, b)
  | EvBlockStored e :: evs' => '(n, b') ← apply_stored engine batch e b; ingest_events engine batch evs' (s + n) r c b'
  | EvBlockRemoved e :: evs' => '(n, b') ← apply_removed engine batch e b; ingest_events engine batch evs' s (r + n) c b'
  | EvAllBlocksCleared :: evs' => ingest_events engine batch evs' s r true (ix_clear_worker (e_id engine) b)
  end.
Definition ingest_batch (batch : KvEventBatch) (engines : list EngineEndpoint) (b : B) :
    option (result ControlError IngestSummary * B) :=
  match find_engine engines (kb_engine_id batch) with
  | None => Some (Err (UnknownEngine (kb_engine_id batch)), b)
  | Some engine =>
      '(s, r, c, b') ← ingest_events engine batch (kb_events batch) 0 0 false b;
      Some (Ok (mkIngest s r c (ix_len b')), b')
  end.
End ingest.

(** ** The state *)

Record ControlPlane (B D : Type) : Type := mkControl {
  cp_engines : list EngineEndpoint;
  cp_workers : list WorkerState;
  cp_router : Policy;
  cp_router_cost : CostModel;
  cp_next : Z;
  cp_residency : B;
  cp_data_plane : D;
  cp_conductor : Conductor;
  cp_use_conductor : bool;
  cp_cost_model : CostModel;
  cp_max_slo_violation_us : option Z;
  cp_hotness : HotnessTracker
}.
Arguments mkControl {B D}. Arguments cp_engines {B D}. Arguments cp_workers {B D}. Arguments cp_router {B D}.
Arguments cp_router_cost {B D}. Arguments cp_next {B D}. Arguments cp_residency {B D}. Arguments cp_data_plane {B D}.
Arguments cp_conductor {B D}. Arguments cp_use_conductor {B D}. Arguments cp_cost_model {B D}.
Arguments cp_max_slo_violation_us {B D}. Arguments cp_hotness {B D}.

Definition with_index_and_policy {B} (engines : list EngineEndpoint) (residency : B) (router : Policy) (cost : CostModel) :
    ControlPlane B NoDataPlane :=
  mkControl engines (worker_state <$> engines) router cost 0 residency noDataPlane conductor_new false cost_default None ∅.
Definition with_index {B} (engines : list EngineEndpoint) (residency : B) : ControlPlane B NoDataPlane :=
  with_index_and_policy engines residency GreedyStatePlane cost_default.
Definition control_new (engines : list EngineEndpoint) : ControlPlane MemoryIndex NoDataPlane := with_index engines mi_new.

Section updates.
Context {B D : Type}.
Implicit Types c : ControlPlane B D.

Definition set_workers (ws : list WorkerState) c : ControlPlane B D :=
  mkControl (cp_engines c) ws (cp_router c) (cp_router_cost c) (cp_next c) (cp_residency c) (cp_data_plane c) (cp_conductor c)
    (cp_use_conductor c) (cp_cost_model c) (cp_max_slo_violation_us c) (cp_hotness c).
Definition set_next (n : Z) c : ControlPlane B D :=
  mkControl (cp_engines c) (cp_workers c) (cp_router c) (cp_router_cost c) n (cp_residency c) (cp_data_plane c) (cp_conductor c)
    (cp_use_conductor c) (cp_cost_model c) (cp_max_slo_violation_us c) (cp_hotness c).
Definition set_residency (b : B) c : ControlPlane B D :=
  mkControl (cp_engines c) (cp_workers c) (cp_router c) (cp_router_cost c) (cp_next c) b (cp_data_plane c) (cp_conductor c)
    (cp_use_conductor c) (cp_cost_model c) (cp_max_slo_violation_us c) (cp_hotness c).
Definition set_conductor (k : Conductor) c : ControlPlane B D :=
  mkControl (cp_engines c) (cp_workers c) (cp_router c) (cp_router_cost c) (cp_next c) (cp_residency c) (cp_data_plane c) k
    (cp_use_conductor c) (cp_cost_model c) (cp_max_slo_violation_us c) (cp_hotness c).
Definition set_hotness (h : HotnessTracker) c : ControlPlane B D :=
  mkControl (cp_engines c) (cp_workers c) (cp_router c) (cp_router_cost c) (cp_next c) (cp_residency c) (cp_data_plane c) (cp_conductor c)
    (cp_use_conductor c) (cp_cost_model c) (cp_max_slo_violation_us c) h.
Definition with_conductor_routing (on : bool) c : ControlPlane B D :=
  mkControl (cp_engines c) (cp_workers c) (cp_router c) (cp_router_cost c) (cp_next c) (cp_residency c) (cp_data_plane c) (cp_conductor c)
    on (cp_cost_model c) (cp_max_slo_violation_us c) (cp_hotness c).
Definition with_admission_slo_limit (max : Z) c : ControlPlane B D :=
  mkControl (cp_engines c) (cp_workers c) (cp_router c) (cp_router_cost c) (cp_next c) (cp_residency c) (cp_data_plane c) (cp_conductor c)
    (cp_use_conductor c) (cp_cost_model c) (Some max) (cp_hotness c).
Definition with_data_plane {D'} (d : D') c : ControlPlane B D' :=
  mkControl (cp_engines c) (cp_workers c) (cp_router c) (cp_router_cost c) (cp_next c) (cp_residency c) d (cp_conductor c)
    (cp_use_conductor c) (cp_cost_model c) (cp_max_slo_violation_us c) (cp_hotness c).
End updates.

(** The first worker with the id is updated in place. *)
Fixpoint update_worker (id : string) (f : WorkerState → WorkerState) (ws : list WorkerState) : list WorkerState :=
  match ws with
  | [] => []
  | w :: ws' => if decide (w_id w = id) then f w :: ws' else w :: update_worker id f ws'
  end.
Definition set_running (n : Z) (w : WorkerState) : WorkerState :=
  mkWorker (w_id w) (w_role w) (w_locality_domain w) (hbm_capacity_bytes w) (hbm_used_bytes w)
    (cpu_capacity_bytes w) (cpu_used_bytes w) n (queued_prefill_tokens w).
Definition begin_request {B D} (id : string) (c : ControlPlane B D) : ControlPlane B D :=
  set_workers (update_worker id (λ w, set_running (Z.min u32_max (running_decodes w + 1)) w) (cp_workers c)) c.
Definition end_request {B D} (id : string) (c : ControlPlane B D) : ControlPlane B D :=
  set_workers (update_worker id (λ w, set_running (sat_sub (running_decodes w) 1) w) (cp_workers c)) c.

(** ** Routing and planning *)

Definition request_prefix (r : RequestShape) : ModelContext * list string :=
  (from_scope (mkScope (req_model_id r) (req_tokenizer_id r) (req_adapter_id r) (req_tenant_id r))
     (match req_blocks r with b :: _ => token_count b | [] => 0 end),
   block_hash <$> req_blocks r).

Definition plan_actions (route : RouteDecision) (prefill : option string) : list PlanAction :=
  let decode := rd_worker_id route in
  ((λ k, mkPlanAction UseLocal decode None (Some k) (Some Hbm) 0) <$> local_hits route)
  ++ ((λ t, mkPlanAction Fetch decode (Some (tp_from_worker_id t)) (Some (tp_key t)) (Some (tp_tier t)) (tp_estimated_us t))
        <$> transfers route)
  ++ ((λ r, mkPlanAction (match prefill with Some _ => RunPrefill | None => Recompute end) (default decode prefill) None
                (Some (rp_key r)) None (rp_estimated_us r)) <$> recomputes route)
  ++ [mkPlanAction DecodeAct decode prefill None None (estimated_tpot_us route)].

Section control.
Context {B D : Type} `{IndexBackend B} `{DataPlane D} `{KeyHash} `{Libm} `{HashIter}.
Implicit Types c : ControlPlane B D.

Definition decide_route c (r : RequestShape) (workers : list WorkerState) (residency : list CacheResidency) :
    option (result ControlError RouteDecision * Z) :=
  let fallback :=
    '(x, n) ← policy_route (cp_router c) (cp_router_cost c) r workers residency (cp_next c);
    Some (match x with Ok d => Ok d | Err e => Err (RouterErr e) end, n) in
  if cp_use_conductor c then
    let '(ctx, hashes) := request_prefix r in
    match conductor_route (cp_conductor c) ctx hashes workers with
    | Some id =>
        match List.find (λ w, bool_decide (w_id w = id)) workers with
        | Some target => d ← plan_for_worker (cp_cost_model c) r target (worker_map workers) residency; Some (Ok d, cp_next c)
        | None => fallback
        end
    | None => fallback
    end
  else fallback.

Definition control_route (r : RequestShape) c : option (result ControlError RouteDecision * ControlPlane B D) :=
  '(x, n) ← decide_route c r (cp_workers c) (ix_snapshot (cp_residency c));
  Some (x, set_next n c).

Definition located c (r : RequestShape) : list CacheResidency :=
  req_blocks r ≫= λ b, ix_locate b (cp_residency c).
Definition route_workers c : list WorkerState :=
  let ds := filter (λ w, can_decode (w_role w) = true) (cp_workers c) in
  if bool_decide (ds = []) then cp_workers c else ds.
Definition role_of c (id : string) : EngineRole :=
  match List.find (λ w, bool_decide (w_id w = id)) (cp_workers c) with Some w => w_role w | None => Aggregated end.
Definition pick_prefill c (route : RouteDecision) : option string :=
  if bool_decide (role_of c (rd_worker_id route) = Decode) && negb (bool_decide (length (recomputes route) = 0%nat))
  then w_id <$> min_by (λ a b, load_of a <? load_of b) (filter (λ w, can_prefill (w_role w) = true) (cp_workers c))
  else None.

Definition plan (r : RequestShape) c : option (result ControlError RequestPlan * ControlPlane B D) :=
  h ← record_request r (cp_hotness c);
  let c1 := set_hotness h c in
  '(x, n) ← decide_route c1 r (route_workers c1) (located c1 r);
  let c2 := set_next n c1 in
  match x with
  | Err e => Some (Err e, c2)
  | Ok route =>
      let prefill := pick_prefill c1 route in
      let mode := match prefill with Some _ => Disaggregated | None => AggregatedMode end in
      Some (Ok (mkRequestPlan mode (rd_worker_id route) prefill (rd_worker_id route) route (plan_actions route prefill)), c2)
  end.

Definition reject_reason (d : RouteDecision) (limit : Z) : string :=
  "overloaded: best worker '" +:+ rd_worker_id d +:+ "' would violate SLO by " +:+ pretty (slo_violation_us d)
  +:+ "us (limit " +:+ pretty limit +:+ "us)".
Definition admit_request (r : RequestShape) c : option (result ControlError AdmissionDecision * ControlPlane B D) :=
  '(x, c') ← plan r c;
  Some (match x with
        | Err e => Err e
        | Ok p =>
            match cp_max_slo_violation_us c' with
            | Some limit =>
                if limit <? slo_violation_us (rq_route p)
                then Ok (Reject (reject_reason (rq_route p) limit) (slo_violation_us (rq_route p)))
                else Ok (AdmitPlan p)
            | None => Ok (AdmitPlan p)
            end
        end, c').

(** ** Placement and events *)

Fixpoint mirror_removed (l : list CacheResidency) (b : B) : option B :=
  match l with
  | [] => Some b
  | r :: l' => '(_, b') ← ix_remove_block (from_key (res_key r)) (res_worker_id r) (block_hash (res_key r)) b; mirror_removed l' b'
  end.
Fixpoint mirror_resident (l : list CacheResidency) (b : B) : option B :=
  match l with
  | [] => Some b
  | r :: l' =>
      '(_, b1) ← ix_remove_block (from_key (res_key r)) (res_worker_id r) (block_hash (res_key r)) b;
      b2 ← ix_put r b1;
      mirror_resident l' b2
  end.
Definition mirror_data_plane_update (u : DataPlaneUpdate) (b : B) : option (list DataPlaneAction * B) :=
  b1 ← mirror_removed (du_removed u) b;
  b2 ← mirror_resident (du_resident u) b1;
  Some (du_actions u, b2).

Fixpoint place_loop (worker : string) (bytes : Z) (blocks : list KvBlockKey) (b : B) (d : D) (acts : list DataPlaneAction) :
    option (list DataPlaneAction * B * D) :=
  match blocks with
  | [] => Some (acts, b, d)
  | k :: ks =>
      let r := residency_hbm worker k bytes in
      if decide (dp_name d = "none"%string) then
        b' ← ix_put r b;
        place_loop worker bytes ks b' d acts
      else
        '(u, d') ← dp_place r d;
        '(more, b') ← mirror_data_plane_update u b;
        place_loop worker bytes ks b' d' (acts ++ more)
  end.
Definition observe_placement (worker : string) (r : RequestShape) (bytes : Z) c : option (list DataPlaneAction * ControlPlane B D) :=
  '(acts, b, d) ← place_loop worker bytes (req_blocks r) (cp_residency c) (cp_data_plane c) [];
  let '(ctx, hashes) := request_prefix r in
  let k := if bool_decide (hashes = []) then cp_conductor c else observe (BlockStored ctx hashes worker) (cp_conductor c) in
  Some (acts, set_conductor k (with_data_plane d (set_residency b c))).

Definition feed_event (engine : EngineEndpoint) (batch : KvEventBatch) (k : Conductor) (e : KvEvent) : Conductor :=
  match e with
  | EvBlockStored s =>
      observe (BlockStored (from_scope (batch_scope engine batch (or_else (kb_adapter_id batch) (bs_lora_name s))) (bs_block_size s))
                 (bs_block_hashes s) (e_id engine)) k
  | EvAllBlocksCleared => observe (InstanceGone (e_id engine)) k
  | EvBlockRemoved _ => k
  end.
Definition feed_conductor (batch : KvEventBatch) c : ControlPlane B D :=
  match find_engine (cp_engines c) (kb_engine_id batch) with
  | None => c
  | Some engine => set_conductor (foldl (feed_event engine batch) (cp_conductor c) (kb_events batch)) c
  end.

Fixpoint dp_place_all (rs : list CacheResidency) (d : D) (out : DataPlaneUpdate) : option (DataPlaneUpdate * D) :=
  match rs with
  | [] => Some (out, d)
  | r :: rs' => '(u, d') ← dp_place r d; dp_place_all rs' d' (update_extend out u)
  end.
Definition apply_stored_to_data_plane (engine : EngineEndpoint) (batch : KvEventBatch) (e : BlockStoredEvent) (d : D) :
    option (DataPlaneUpdate * D) :=
  dp_place_all (stored_residency engine batch e <$> stored_keys engine batch e) d update_default.
Fixpoint dp_remove_all (scope : IdentityScope) (worker : string) (hashes : list string) (d : D) (out : DataPlaneUpdate) :
    option (DataPlaneUpdate * D) :=
  match hashes with
  | [] => Some (out, d)
  | h :: hs => '(u, d') ← dp_remove_block scope worker h d; dp_remove_all scope worker hs d' (update_extend out u)
  end.
Fixpoint dp_events (engine : EngineEndpoint) (batch : KvEventBatch) (evs : list KvEvent) (d : D) (out : DataPlaneUpdate) :
    option (DataPlaneUpdate * D) :=
  match evs with
  | [] => Some (out, d)
  | EvBlockStored e :: evs' =>
      '(u, d') ← apply_stored_to_data_plane engine batch e d;
      dp_events engine batch evs' d' (update_extend out u)
  | EvBlockRemoved e :: evs' =>
      '(u, d') ← dp_remove_all (batch_scope engine batch (kb_adapter_id batch)) (e_id engine) (br_block_hashes e) d update_default;
      dp_events engine batch evs' d' (update_extend out u)
  | EvAllBlocksCleared :: evs' =>
      '(u, d') ← dp_clear_worker (e_id engine) d;
      dp_events engine batch evs' d' (update_extend out u)
  end.
Definition apply_batch_to_data_plane (batch : KvEventBatch) c : option (result ControlError DataPlaneUpdate * D) :=
  match find_engine (cp_engines c) (kb_engine_id batch) with
  | None => Some (Err (UnknownEngine (kb_engine_id batch)), cp_data_plane c)
  | Some engine => '(u, d) ← dp_events engine batch (kb_events batch) (cp_data_plane c) update_default; Some (Ok u, d)
  end.

Definition ingest (batch : KvEventBatch) c : option (result ControlError IngestSummary * ControlPlane B D) :=
  '(x, b) ← ingest_batch batch (cp_engines c) (cp_residency c);
  match x with
  | Err e => Some (Err e, set_residency b c)
  | Ok summary =>
      let c1 := feed_conductor batch (set_residency b c) in
      if decide (dp_name (cp_data_plane c1) = "none"%string) then Some (Ok summary, c1)
      else
        '(y, d) ← apply_batch_to_data_plane batch c1;
        let c2 := with_data_plane d c1 in
        match y with
        | Err e => Some (Err e, c2)
        | Ok u =>
            '(_, b') ← mirror_data_plane_update u (cp_residency c2);
            Some (Ok (mkIngest (stored_blocks summary) (removed_blocks summary) (cleared summary) (ix_len b')), set_residency b' c2)
        end
  end.

(** ** The reuse audit *)

Definition audit_zero : ReuseAudit := mkAudit 0 0 0 0 0 0.
Definition audit_refuse (v : ReuseViolation) (a : ReuseAudit) : ReuseAudit :=
  let n := refused_unsafe a + 1 in
  match v with
  | VTenant => mkAudit (safe_reusable a) n (refused_cross_tenant a + 1) (refused_cross_adapter a) (refused_cross_model a) (refused_cross_tokenizer a)
  | VAdapter => mkAudit (safe_reusable a) n (refused_cross_tenant a) (refused_cross_adapter a + 1) (refused_cross_model a) (refused_cross_tokenizer a)
  | VModel => mkAudit (safe_reusable a) n (refused_cross_tenant a) (refused_cross_adapter a) (refused_cross_model a + 1) (refused_cross_tokenizer a)
  | VTokenizer => mkAudit (safe_reusable a) n (refused_cross_tenant a) (refused_cross_adapter a) (refused_cross_model a) (refused_cross_tokenizer a + 1)
  end.
Definition audit_block c (a : ReuseAudit) (block : KvBlockKey) : ReuseAudit :=
  let resident := ix_residency_by_content_hash (block_hash block) (cp_residency c) in
  if bool_decide (resident = []) then a
  else
    let scope := from_key block in
    if existsb (λ r, scope_matches scope (res_key r)) resident
    then mkAudit (safe_reusable a + 1) (refused_unsafe a) (refused_cross_tenant a) (refused_cross_adapter a) (refused_cross_model a) (refused_cross_tokenizer a)
    else match head (omap (λ r, reuse_violation scope (res_key r)) resident) with
         | Some v => audit_refuse v a
         | None => a
         end.
Definition audit_reuse (r : RequestShape) c : ReuseAudit := foldl (audit_block c) audit_zero (req_blocks r).

(** ** Views for the schedulers *)

Definition hbm_holders (l : list CacheResidency) : list string :=
  sort_dedup (res_worker_id <$> filter (λ r, res_tier r = Hbm ∨ res_tier r = RemoteHbm) l).

Definition prefix_view c (h : IdentityScope * string * Z) : option HotPrefixObservation :=
  let '(scope, prefix, accesses) := h in
  let resident := ix_prefix_scan scope prefix (cp_residency c) in
  bytes ← u64_sum (res_bytes <$> resident);
  Some (mkHotPrefix prefix (hbm_holders resident) accesses bytes).

Definition tier_sum (p : CacheTier → bool) (l : list CacheResidency) : option Z :=
  u64_sum (res_bytes <$> filter (λ r, p (res_tier r) = true) l).

Definition co_scheduler_snapshot (epoch : Z) (t : CoSchedulerTelemetry) (threshold : Z) c : option CoSchedulerSnapshot :=
  dm ← dp_metrics (cp_data_plane c);
  let residency := ix_snapshot (cp_residency c) in
  worker_hbm_used ← u64_sum (hbm_used_bytes <$> cp_workers c);
  worker_cpu_used ← u64_sum (cpu_used_bytes <$> cp_workers c);
  hbm_capacity ← u64_sum (hbm_capacity_bytes <$> cp_workers c);
  cpu_capacity ← u64_sum (cpu_capacity_bytes <$> cp_workers c);
  res_hbm ← tier_sum (λ t, bool_decide (t = Hbm) || bool_decide (t = RemoteHbm)) residency;
  res_cpu ← tier_sum (λ t, bool_decide (t = CpuDram)) residency;
  res_ssd ← tier_sum (λ t, bool_decide (t = LocalSsd)) residency;
  hot ← mapM (prefix_view c) (hotness_hot threshold (cp_hotness c));
  Some (mkSnapshot epoch (cp_workers c) (tm_slo t) (tm_cache t) (tm_transfer t)
          (mkTierObs (Z.max (Z.max (dm_hbm_bytes dm) worker_hbm_used) res_hbm) hbm_capacity
             (Z.max (Z.max (dm_cpu_dram_bytes dm) worker_cpu_used) res_cpu) cpu_capacity
             (Z.max (dm_local_ssd_bytes dm) res_ssd) 0 (dm_evictions dm))
          hot).

Definition worker_load (w : WorkerState) : option WorkerLoad :=
  l ← u32_add (running_decodes w) (queued_prefill_tokens w);
  Some (mkLoad (w_id w) l).
Definition replication_plan (cfg : ReplicationConfig) c : option (list ReplicationAction) :=
  loads ← mapM worker_load (cp_workers c);
  let prefixes := (λ '(scope, prefix, accesses),
                     mkPrefix scope prefix (hbm_holders (ix_prefix_scan scope prefix (cp_residency c))) accesses)
                  <$> hotness_hot (hotness_threshold cfg) (cp_hotness c) in
  plan_replications prefixes loads cfg.
Definition decay_hotness c : ControlPlane B D := set_hotness (decay (cp_hotness c)) c.
End control.
