(* ===== verification/IndexLaws.v ===== *)
(** * What the control plane relies on in a residency index

    The laws of the [IndexBackend] trait of crates/quillcache-core/src/lib.rs, stated on
    [locate], and the proof that the in-memory index keeps them.  The control plane's
    theorems use only this interface. *)
From S2P Require Import Prelude Identity MemIndex MemIndexProofs.

Class IndexLaws (B : Type) `{IndexBackend B} : Type := {
  ix_inv : B → Prop;
  ix_put_law : ∀ b r b', ix_inv b → ix_put r b = Some b' →
    ix_inv b' ∧ ∀ k, ix_locate k b' = if decide (k = res_key r) then put_list r (ix_locate k b) else ix_locate k b;
  ix_remove_law : ∀ b sc w h n b', ix_inv b → ix_remove_block sc w h b = Some (n, b') →
    ix_inv b' ∧ ∀ k, ix_locate k b' = if decide (from_key k = sc ∧ block_hash k = h) then without_worker w (ix_locate k b) else ix_locate k b;
  ix_clear_law : ∀ b w, ix_inv b →
    ix_inv (ix_clear_worker w b) ∧ ∀ k, ix_locate k (ix_clear_worker w b) = without_worker w (ix_locate k b);
  ix_snapshot_law : ∀ b k, ix_inv b → filter (λ r, res_key r = k) (ix_snapshot b) = ix_locate k b;
  ix_content_law : ∀ b h r, ix_inv b →
    r ∈ ix_residency_by_content_hash h b ↔ r ∈ ix_snapshot b ∧ block_hash (res_key r) = h
}.

Section laws.
Context `{IndexLaws B}.

Lemma ix_locate_key b k r : ix_inv b → r ∈ ix_locate k b → res_key r = k.
Proof. intros Hb. rewrite <- ix_snapshot_law by done. by intros (? & _)%list_elem_of_filter. Qed.

Lemma ix_snapshot_locate b r : ix_inv b → r ∈ ix_snapshot b ↔ r ∈ ix_locate (res_key r) b.
Proof. intros Hb. rewrite <- ix_snapshot_law, list_elem_of_filter by done. tauto. Qed.
End laws.

(** ** The in-memory index keeps the laws *)

Lemma dropped_locate w P ents k :
  default [] (dropped w P ents k) = if P k then without_worker w (default [] (ents !! k)) else default [] (ents !! k).
Proof.
  unfold dropped. destruct (ents !! k) as [l|]; cbn; [|by destruct (P k)].
  destruct (P k); [|done]. case_bool_decide as E; cbn; done.
Qed.

Section memory.
Context `{HashIter}.
Implicit Types m : MemoryIndex.

Lemma mi_snapshot_filter m k : mi_inv m → filter (λ r, res_key r = k) (mi_snapshot m) = mi_locate k m.
Proof.
  intros HI. unfold mi_snapshot, hvalues, mi_locate.
  assert (Hgen : ∀ L : list (KvBlockKey * list CacheResidency), NoDup L.*1 →
    (∀ k' l, (k', l) ∈ L → entries m !! k' = Some l) →
    filter (λ r, res_key r = k) (L.*2 ≫= id) = if decide (k ∈ L.*1) then default [] (entries m !! k) else []).
  { induction L as [|[k' l] L IH]; intros Hnd Hin; [done|].
    rewrite !fmap_cons, bind_cons, filter_app in *. cbn [fst snd] in *. apply NoDup_cons in Hnd as (Hk' & Hnd).
    assert (Hl : entries m !! k' = Some l) by (apply Hin; set_solver).
    destruct (iv_entries _ HI k' l Hl) as (_ & Hkl & _).
    rewrite IH by (try done; intros; apply Hin; set_solver). unfold id. destruct (decide (k' = k)) as [->|Hne].
    - rewrite (decide_False (P := k ∈ L.*1)), (decide_True (P := k ∈ k :: L.*1)), Hl, app_nil_r by set_solver. cbn.
      apply list_filter_all. by apply Forall_forall.
    - rewrite (list_filter_none _ l) by (intros x Hx ->%eq_sym; by apply Hne, eq_sym, (proj1 (Forall_forall _ _) Hkl x Hx)). cbn [app].
      destruct (decide (k ∈ L.*1)); [by rewrite decide_True by set_solver|by rewrite decide_False by set_solver]. }
  rewrite Hgen.
  - case_decide as Hk; [done|]. destruct (entries m !! k) as [l|] eqn:El; [|done]. exfalso. apply Hk.
    change ((hiter (entries m)).*1) with (hkeys (entries m)). rewrite elem_of_hkeys. eauto.
  - change ((hiter (entries m)).*1) with (hkeys (entries m)). apply NoDup_hkeys.
  - intros k' l ?%elem_of_hiter. done.
Qed.

Lemma mi_content_elem m h r : mi_inv m →
  r ∈ mi_residency_by_content_hash h m ↔ r ∈ mi_snapshot m ∧ block_hash (res_key r) = h.
Proof.
  intros HI. unfold mi_residency_by_content_hash. rewrite elem_of_snapshot. split.
  - intros Hr. destruct (by_content_hash m !! h) as [keys|] eqn:E; cbn in Hr; [|by apply not_elem_of_nil in Hr].
    apply list_elem_of_bind in Hr as (l & Hr & (k & Hk & El)%list_elem_of_omap). unfold id in Hr.
    destruct (iv_entries _ HI k l El) as (_ & Hkl & _). pose proof (proj1 (Forall_forall _ _) Hkl r Hr) as Hrk. cbn in Hrk.
    split; [by eauto|]. rewrite Hrk. apply elem_of_hkeys in Hk.
    destruct (proj1 (iv_content _ HI h k)) as (_ & Hh); [by exists keys|done].
  - intros ((k & l & Hl & Hr) & Hh). destruct (iv_entries _ HI k l Hl) as (_ & Hkl & _).
    pose proof (proj1 (Forall_forall _ _) Hkl r Hr) as Hrk. cbn in Hrk. subst k.
    destruct (proj2 (iv_content _ HI h (res_key r))) as (keys & E & Hk); [eauto|]. rewrite E.
    apply list_elem_of_bind. exists l. split; [done|]. apply list_elem_of_omap. exists (res_key r). split; [by apply elem_of_hkeys|done].
Qed.

#[export] Instance mi_laws : IndexLaws MemoryIndex.
Proof.
  refine {| ix_inv := mi_inv |}.
  - intros m r m' HI Hput. destruct (mi_put_spec r m HI (mi_put_bound _ _ _ Hput)) as (m1 & E & HI' & _ & _ & He).
    cbn in Hput. replace m1 with m' in * by congruence. split; [done|]. intros k. cbn. unfold mi_locate. rewrite He.
    case_decide as Hk; [subst; by rewrite lookup_insert_eq|by rewrite lookup_insert_ne].
  - intros m sc w h n m' HI Hrem. destruct (mi_remove_block_inv sc w h n m m' HI Hrem) as (HI' & _ & Hd).
    split; [done|]. intros k. cbn. unfold mi_locate. rewrite Hd, dropped_locate. unfold targets. by case_bool_decide; case_decide.
  - intros m w HI. destruct (mi_clear_worker_spec w m HI) as (HI' & _ & _ & Hd). split; [done|]. intros k. cbn.
    unfold mi_locate. by rewrite Hd, dropped_locate.
  - intros m k HI. cbn. by apply mi_snapshot_filter.
  - intros m h r HI. cbn. by apply mi_content_elem.
Defined.
End memory.
