(* ===== verification/ControlTheorems.v ===== *)
(** * What the control plane promises

    Theorems about crates/quillcache-core/src/control.rs, proved against the index
    interface: the plan serves the request completely and decides as on a full snapshot,
    placement closes the loop, the audit partitions the content-resident blocks, load
    accounting balances, and admission rejects exactly past the limit.

    Looking up a request's blocks is as good as a snapshot.

    [ControlPlane::plan] hands the router only the residency of the request's own blocks,
    found by point lookups, where [ControlPlane::route] hands it the whole index.  Every
    routing policy decides the same on both. *)
From S2P Require Import Prelude F64 Order Identity ShardedMap MemIndex MemIndexProofs IndexLaws Router RouterPlan RouterTheorems Conductor Replication DataPlane CoScheduler Control.

(** ** Repeated lists *)

Definition copies {A} (n : nat) (l : list A) : list A := mjoin (replicate n l).

Lemma copies_S {A} n (l : list A) : copies (S n) l = l ++ copies n l.
Proof. done. Qed.
Lemma elem_of_copies {A} n (l : list A) x : x ∈ copies n l → x ∈ l.
Proof. unfold copies. rewrite list_elem_of_join. intros (k & Hx & (-> & _)%elem_of_replicate). done. Qed.
Lemma foldl_keep {A} (lt : A → A → bool) b l :
  (∀ y, y ∈ l → lt y b = false) → foldl (λ b y, if lt y b then y else b) b l = b.
Proof. induction l as [|y l IH]; intros Hl; cbn; [done|]. rewrite Hl by set_solver. apply IH. set_solver. Qed.

Lemma min_by_copies {A} (lt : A → A → bool) `{!StrictWeak lt} n l : min_by lt (copies (S n) l) = min_by lt l.
Proof.
  rewrite copies_S. destruct l as [|x l]; [unfold copies; by induction n|].
  destruct (min_by lt (x :: l)) as [b|] eqn:Eb; [|done].
  destruct (min_by_is_first_min lt _ _ Eb) as (i & _ & Hmin & _).
  cbn [min_by app] in *. injection Eb as Eb. rewrite foldl_app, Eb, foldl_keep; [done|].
  intros y (j & Hj)%elem_of_copies%list_elem_of_lookup. by eapply Hmin.
Qed.

Lemma mapM_app {A B} (f : A → option B) l k :
  mapM f (l ++ k) = (x ← mapM f l; y ← mapM f k; Some (x ++ y)).
Proof.
  induction l as [|a l IH]; cbn; [by destruct (mapM f k)|].
  destruct (f a); cbn; [|done]. rewrite IH. destruct (mapM f l); cbn; [|done]. by destruct (mapM f k).
Qed.
Lemma mapM_copies {A B} (f : A → option B) n l :
  mapM f (copies (S n) l) = (x ← mapM f l; Some (copies (S n) x)).
Proof.
  induction n as [|n IH].
  - unfold copies. cbn. rewrite !app_nil_r. destruct (mapM f l); cbn; [by rewrite app_nil_r|done].
  - rewrite copies_S, mapM_app, IH. by destruct (mapM f l).
Qed.

Lemma find_copies {A} (p : A → bool) n l : List.find p (copies (S n) l) = List.find p l.
Proof.
  rewrite copies_S. assert (Happ : ∀ k, List.find p (l ++ k) = match List.find p l with Some x => Some x | None => List.find p k end).
  { intros k. induction l as [|a l IH]; cbn; [done|]. by destruct (p a). }
  rewrite Happ. destruct (List.find p l) as [x|] eqn:E; [done|].
  destruct (List.find p (copies n l)) as [y|] eqn:Ey; [|done].
  apply List.find_some in Ey as (Hin & Hy). apply list_elem_of_In, elem_of_copies, list_elem_of_In in Hin.
  by rewrite (List.find_none _ _ E y Hin) in Hy.
Qed.

Lemma find_filter {A} (p : A → bool) (P : A → Prop) `{∀ x, Decision (P x)} l :
  (∀ x, p x = true → P x) → List.find p l = List.find p (filter P l).
Proof.
  intros HP. induction l as [|a l IH]; cbn [List.find]; [done|]. rewrite filter_cons. case_decide as Ha.
  - cbn. by destruct (p a).
  - destruct (p a) eqn:E; [by apply HP in E|done].
Qed.

(** ** Residency lists that agree on the request's blocks *)

(** On every block of [blocks], [R2] lists what [R1] lists, once or several times over. *)
Definition agree (blocks : list KvBlockKey) (R1 R2 : list CacheResidency) : Prop :=
  ∀ b, b ∈ blocks → ∃ n, filter (λ e, res_key e = b) R2 = copies (S n) (filter (λ e, res_key e = b) R1).

Section agree.
Context (blocks : list KvBlockKey) (R1 R2 : list CacheResidency) (Hag : agree blocks R1 R2).

Lemma agree_best cm target by_id b : b ∈ blocks →
  (o ← block_options cm target by_id R2 b; Some (best_residency o))
  = (o ← block_options cm target by_id R1 b; Some (best_residency o)).
Proof.
  intros Hb. destruct (Hag b Hb) as (n & Hn). unfold block_options, best_residency. rewrite Hn, mapM_copies.
  destruct (mapM _ _) as [o|]; [|done]. cbn [mbind option_bind]. f_equal.
  apply (min_by_copies _ (StrictWeak0 := sw_by_key snd)).
Qed.

Lemma agree_plan_block cm target by_id acc b : b ∈ blocks →
  plan_block cm target by_id R2 acc b = plan_block cm target by_id R1 acc b.
Proof.
  intros Hb. pose proof (agree_best cm target by_id b Hb) as E. unfold plan_block.
  destruct (prefill_cost_us cm (token_count b)); [|done]. cbn [mbind option_bind].
  destruct (block_options cm target by_id R2 b), (block_options cm target by_id R1 b); cbn [mbind option_bind] in *; try done.
  injection E as ->. done.
Qed.

Lemma agree_plan_loop cm target by_id bs acc : bs ⊆ blocks →
  plan_loop cm target by_id R2 bs acc = plan_loop cm target by_id R1 bs acc.
Proof.
  revert acc. induction bs as [|b bs IH]; intros acc Hsub; cbn [plan_loop]; [done|].
  rewrite agree_plan_block by set_solver. destruct (plan_block _ _ _ R1 acc b); [|done]. cbn [mbind option_bind]. apply IH. set_solver.
Qed.

Lemma agree_on_worker w b : b ∈ blocks → on_worker w R2 b = on_worker w R1 b.
Proof.
  intros Hb. destruct (Hag b Hb) as (n & Hn). unfold on_worker. f_equal.
  rewrite (find_filter _ (λ e, res_key e = b) R2), (find_filter _ (λ e, res_key e = b) R1), Hn.
  - apply find_copies.
  - intros x (_ & E)%andb_true_iff. by apply bool_decide_eq_true in E.
  - intros x (_ & E)%andb_true_iff. by apply bool_decide_eq_true in E.
Qed.
End agree.

Section routes.
Context (request : RequestShape) (R1 R2 : list CacheResidency) (Hag : agree (req_blocks request) R1 R2).

Lemma agree_plan cm target by_id : plan_for_worker cm request target by_id R2 = plan_for_worker cm request target by_id R1.
Proof. unfold plan_for_worker. by rewrite (agree_plan_loop _ _ _ Hag). Qed.

Lemma agree_cost cfg w : worker_cost cfg request w R2 = worker_cost cfg request w R1.
Proof.
  unfold worker_cost.
  assert (E : ∀ bs acc, bs ⊆ req_blocks request →
    foldl (λ acc b, credit_tier cfg acc (on_worker w R2 b)) acc bs = foldl (λ acc b, credit_tier cfg acc (on_worker w R1 b)) acc bs).
  { induction bs as [|b bs IH]; intros acc Hsub; cbn [foldl]; [done|].
    rewrite (agree_on_worker _ _ _ Hag) by set_solver. apply IH. set_solver. }
  by rewrite E.
Qed.

Lemma agree_greedy cm by_id ws best : greedy_loop cm request by_id R2 ws best = greedy_loop cm request by_id R1 ws best.
Proof.
  revert best. induction ws as [|w ws IH]; intros best; cbn [greedy_loop]; [done|].
  rewrite agree_plan. destruct (plan_for_worker _ _ w _ R1); [|done]. cbn [mbind option_bind].
  destruct (greedy_score w r); [|done]. cbn [mbind option_bind]. apply IH.
Qed.

Lemma agree_plan_all cm ws : plan_all cm request ws R2 = plan_all cm request ws R1.
Proof. unfold plan_all. apply mapM_ext. intros w. apply agree_plan. Qed.

Lemma agree_policy `{KeyHash} `{Libm} p cm ws next :
  policy_route p cm request ws R2 next = policy_route p cm request ws R1 next.
Proof.
  destruct p; cbn [policy_route];
    unfold greedy_route, least_loaded_route, prefix_affinity_route, round_robin_route, slo_aware_route, session_affinity_route, dynamo_route.
  - by rewrite agree_greedy.
  - destruct (min_by _ ws); [by rewrite agree_plan|done].
  - destruct ws as [|w ws]; [done|]. destruct (pick_hashed _ _); [|done]. cbn [mbind option_bind]. by rewrite agree_plan.
  - destruct ws as [|w ws]; [done|]. destruct (vget _ _); [|done]. cbn [mbind option_bind]. by rewrite agree_plan.
  - by rewrite agree_plan_all.
  - rewrite agree_plan_all. destruct ws as [|w ws]; [done|].
    destruct (plan_all _ _ _ R1); [|done]. cbn [mbind option_bind].
    destruct (pick_hashed _ _); cbn [mbind option_bind]; [by rewrite agree_plan|done].
  - destruct ws as [|w ws]; [done|].
    rewrite (list_fmap_ext (λ w, worker_cost cfg request w R2) (λ w, worker_cost cfg request w R1)) by (intros; apply agree_cost).
    destruct (vget _ _); [|done]. cbn [mbind option_bind]. by rewrite agree_plan.
Qed.
End routes.

(** ** The lookups agree with the snapshot *)

Lemma filter_bind {A B} (P : B → Prop) `{∀ x, Decision (P x)} (f : A → list B) l :
  filter P (l ≫= f) = l ≫= λ x, filter P (f x).
Proof. induction l as [|x l IH]; [done|]. by rewrite !bind_cons, filter_app, IH. Qed.

Section control.
Context {B D : Type} `{IndexLaws B} `{DataPlane D}.
Implicit Types c : ControlPlane B D.

Lemma located_agree c r : ix_inv (cp_residency c) → agree (req_blocks r) (ix_snapshot (cp_residency c)) (located c r).
Proof.
  intros HI b Hb. rewrite ix_snapshot_law by done. unfold located. rewrite filter_bind.
  assert (Hx : ∀ k, filter (λ e, res_key e = b) (ix_locate k (cp_residency c))
                    = if decide (k = b) then ix_locate b (cp_residency c) else []).
  { intros k. case_decide as E.
    - subst. apply list_filter_all. intros x Hx. by eapply ix_locate_key.
    - apply list_filter_none. intros x Hx Hk. apply E. rewrite <- Hk. symmetry. by eapply ix_locate_key. }
  assert (Hn : ∀ l, ∃ n, l ≫= (λ k, filter (λ e, res_key e = b) (ix_locate k (cp_residency c))) = copies n (ix_locate b (cp_residency c))
                ∧ (b ∈ l → n ≠ 0%nat)).
  { induction l as [|k l (n & IH & Hpos)]; [exists 0%nat; split; [done|by intros ?%not_elem_of_nil]|].
    rewrite bind_cons, IH, Hx. case_decide as E.
    - exists (S n). done.
    - exists n. split; [done|]. intros [|]%elem_of_cons; [congruence|auto]. }
  destruct (Hn (req_blocks r)) as (n & E & Hpos). specialize (Hpos Hb). destruct n as [|n]; [done|]. by exists n.
Qed.
End control.

(** ** Every decision is the plan of an offered worker *)

Lemma min_by_in {A} (lt : A → A → bool) l x : min_by lt l = Some x → x ∈ l.
Proof. intros Hx. destruct (min_by_elem lt l) as (y & Hy & Hin); [by intros ->|congruence]. Qed.
Lemma max_by_in {A} (lt : A → A → bool) l x : max_by lt l = Some x → x ∈ l.
Proof. intros Hx. destruct (max_by_elem lt l) as (y & Hy & Hin); [by intros ->|congruence]. Qed.
Lemma pick_hashed_in `{KeyHash} key workers w : pick_hashed key workers = Some w → w ∈ workers.
Proof. unfold pick_hashed. case_bool_decide; [done|]. apply vget_elem_of. Qed.

Section planned.
Context (cm : CostModel) (r : RequestShape) (workers : list WorkerState) (residency : list CacheResidency).

Lemma plan_all_planned plans x : plan_all cm r workers residency = Some plans → x ∈ plans → planned cm r workers residency x.
Proof.
  intros Hp%mapM_Some (i & Hi)%list_elem_of_lookup. destruct (Forall2_lookup_r _ _ _ _ _ Hp Hi) as (w & Hw & Hx).
  exists w. split; [by eapply list_elem_of_lookup_2|done].
Qed.

Lemma greedy_loop_planned ws best s d : ws ⊆ workers → (∀ s d, best = Some (s, d) → planned cm r workers residency d) →
  greedy_loop cm r (worker_map workers) residency ws best = Some (Some (s, d)) → planned cm r workers residency d.
Proof.
  revert best. induction ws as [|w ws IH]; intros best Hsub Hb; cbn [greedy_loop]; [intros [= ->]; eauto|].
  intros (d1 & Hd1 & (s1 & Hs1 & Hl)%bind_Some)%bind_Some. eapply IH; [set_solver| |exact Hl].
  intros s2 d2. destruct (match best with None => true | Some (s0, _) => s1 <? s0 end); [|eauto].
  intros [= <- <-]. exists w. split; [set_solver|done].
Qed.

Lemma slo_choose_in plans d : slo_choose plans = Some d → d ∈ plans.
Proof.
  unfold slo_choose. destruct (max_by _ _) as [m|] eqn:E; [|apply min_by_in].
  intros [= ->]. apply max_by_in, list_elem_of_filter in E as (_ & ?). done.
Qed.

Lemma policy_planned `{KeyHash} `{Libm} p next d n :
  policy_route p cm r workers residency next = Some (Ok d, n) → planned cm r workers residency d.
Proof.
  destruct p; cbn [policy_route].
  - intros (y & Hy & [= -> <-])%bind_Some. unfold greedy_route in Hy. destruct workers as [|w0 ws0] eqn:Ews; [done|]. rewrite <- Ews in *.
    apply bind_Some in Hy as ([[s d']|] & Hg & Hb); [|done]. injection Hb as ->.
    by apply (greedy_loop_planned workers None s).
  - intros (y & Hy & [= -> <-])%bind_Some. unfold least_loaded_route in Hy. destruct (min_by _ _) as [w|] eqn:E; [|done].
    apply bind_Some in Hy as (d' & Hd & [= ->]). exists w. split; [by apply min_by_in in E|done].
  - intros (y & Hy & [= -> <-])%bind_Some. unfold prefix_affinity_route in Hy. destruct workers as [|w0 ws0] eqn:Ews; [done|]. rewrite <- Ews in *.
    apply bind_Some in Hy as (w & Hw & (d' & Hd & [= ->])%bind_Some). exists w. split; [by eapply pick_hashed_in|done].
  - unfold round_robin_route. destruct workers as [|w0 ws0] eqn:Ews; [done|]. rewrite <- Ews.
    intros (w & Hw & (d' & Hd & [= -> <-])%bind_Some)%bind_Some. exists w. split; [by eapply vget_elem_of|done].
  - intros (y & Hy & [= -> <-])%bind_Some. unfold slo_aware_route in Hy. destruct workers as [|w0 ws0] eqn:Ews; [done|]. rewrite <- Ews in *.
    apply bind_Some in Hy as (plans & Hp & (d' & Hd & [= ->])%bind_Some). by eapply plan_all_planned; [|apply slo_choose_in].
  - intros (y & Hy & [= -> <-])%bind_Some. unfold session_affinity_route in Hy. destruct workers as [|w0 ws0] eqn:Ews; [done|]. rewrite <- Ews in *.
    apply bind_Some in Hy as (plans & Hp & Hy).
    assert (Hcold : (target ← pick_hashed (session_key r) workers;
       x ← plan_for_worker cm r target (worker_map workers) residency; Some (Ok (E := RouterError) x)) = Some (Ok d) →
       planned cm r workers residency d).
    { intros (w & Hw & (d' & Hd & [= ->])%bind_Some)%bind_Some. exists w. split; [by eapply pick_hashed_in|done]. }
    destruct (max_by _ plans) as [m|] eqn:E; [|by apply Hcold]. case_bool_decide; [by apply Hcold|]. injection Hy as ->.
    by eapply plan_all_planned; [|eapply max_by_in].
  - intros (y & Hy & [= -> <-])%bind_Some. unfold dynamo_route in Hy. destruct workers as [|w0 ws0] eqn:Ews; [done|]. rewrite <- Ews in *.
    apply bind_Some in Hy as (w & Hw & (d' & Hd & [= ->])%bind_Some). exists w. split; [by eapply vget_elem_of|done].
Qed.
End planned.

Section control.
Context {B D : Type} `{IndexLaws B} `{DataPlane D} `{KeyHash} `{Libm} `{HashIter}.
Implicit Types c : ControlPlane B D.

(** C12 Deciding on the residency of the request's own blocks, fetched by point lookups, is
    deciding on the full snapshot: for every policy and for the conductor, on every index
    that keeps the laws. *)
Theorem point_lookups_suffice c r workers :
  ix_inv (cp_residency c) →
  decide_route c r workers (located c r) = decide_route c r workers (ix_snapshot (cp_residency c)).
Proof.
  intros HI. pose proof (located_agree c r HI) as Hag. unfold decide_route.
  rewrite (agree_policy r _ _ Hag). destruct (cp_use_conductor c); [|done].
  destruct (request_prefix r) as [ctx hashes]. destruct (conductor_route _ _ _ _); [|done].
  destruct (List.find _ _); [|done]. by rewrite (agree_plan r _ _ Hag).
Qed.

(** ** A plan serves the request *)

Lemma find_elem {A} (q : A → bool) l x : List.find q l = Some x → x ∈ l ∧ q x = true.
Proof. intros (Hin & Hq)%List.find_some. split; [by apply list_elem_of_In|done]. Qed.

Lemma plan_for_worker_ok cm r target by_id residency d :
  plan_for_worker cm r target by_id residency = Some d →
  rd_worker_id d = w_id target ∧ rd_request_id d = req_id r
  ∧ local_hits d ++ (tp_key <$> transfers d) ++ (rp_key <$> recomputes d) ≡ₚ req_blocks r
  ∧ Forall (local_ok target residency) (local_hits d) ∧ Forall (transfer_ok cm target by_id residency) (transfers d).
Proof.
  unfold plan_for_worker. intros (acc & Hloop & Hd)%bind_Some.
  destruct (plan_loop_ok cm target by_id residency _ _ _ [] [] (plan_ok_nil _ _ _ _) Hloop) as (costs & [Hs Hl Ht Hr Hc Hu]).
  repeat (apply bind_Some in Hd as (? & _ & Hd)). injection Hd as <-. done.
Qed.

Lemma decide_planned c r workers residency d n :
  decide_route c r workers residency = Some (Ok d, n) → ∃ cm, planned cm r workers residency d.
Proof.
  unfold decide_route.
  assert (Hfb : ('(x, n) ← policy_route (cp_router c) (cp_router_cost c) r workers residency (cp_next c);
    Some (match x with Ok d => Ok d | Err e => Err (RouterErr e) end, n)) = Some (Ok d, n) → ∃ cm, planned cm r workers residency d).
  { intros ([[d'|e] n'] & Hp & E)%bind_Some; [|done]. injection E as -> ->. eauto using policy_planned. }
  destruct (cp_use_conductor c); [|done]. destruct (request_prefix r) as [ctx hashes].
  destruct (conductor_route _ _ _ _); [|done]. destruct (List.find _ _) as [w|] eqn:Ew; [|done].
  intros (d' & Hd & [= -> <-])%bind_Some. apply find_elem in Ew as (Hw & _). exists (cp_cost_model c), w. done.
Qed.

Lemma located_in c r x : x ∈ located c r → ix_inv (cp_residency c) → x ∈ ix_locate (res_key x) (cp_residency c).
Proof. unfold located. intros (b & Hx & _)%list_elem_of_bind HI. by rewrite (ix_locate_key _ _ _ HI Hx). Qed.

Lemma omap_key_fmap {A} (f : A → PlanAction) (g : A → KvBlockKey) (l : list A) :
  (∀ x, pa_key (f x) = Some (g x)) → omap pa_key (f <$> l) = g <$> l.
Proof. intros Hf. induction l as [|x l IH]; [done|]. rewrite !fmap_cons. cbn [omap list_omap]. by rewrite Hf, IH. Qed.

Lemma plan_actions_keys route prefill :
  ∃ serve, plan_actions route prefill = serve ++ [mkPlanAction DecodeAct (rd_worker_id route) prefill None None (estimated_tpot_us route)]
    ∧ omap pa_key serve = local_hits route ++ (tp_key <$> transfers route) ++ (rp_key <$> recomputes route).
Proof.
  eexists. split; [unfold plan_actions; by rewrite !app_assoc|].
  rewrite !omap_app, <- app_assoc. f_equal; [|f_equal].
  - rewrite (omap_key_fmap _ id) by done. by rewrite list_fmap_id.
  - by apply omap_key_fmap.
  - by apply omap_key_fmap.
Qed.

Lemma handoff_blocks route prefill :
  omap pa_key (filter (λ a, pa_kind a = RunPrefill) (plan_actions route prefill))
  = match prefill with Some _ => rp_key <$> recomputes route | None => [] end.
Proof.
  assert (Hno : ∀ A (f : A → PlanAction) (l : list A), (∀ x, pa_kind (f x) ≠ RunPrefill) → filter (λ a, pa_kind a = RunPrefill) (f <$> l) = []).
  { intros A f l Hf. apply list_filter_none. intros a (x & -> & _)%list_elem_of_fmap. apply Hf. }
  unfold plan_actions. rewrite !filter_app, !omap_app. rewrite !(Hno KvBlockKey), !(Hno TransferPlan) by done.
  change (filter (λ a, pa_kind a = RunPrefill) [mkPlanAction DecodeAct (rd_worker_id route) prefill None None (estimated_tpot_us route)])
    with (@nil PlanAction). cbn [omap list_omap app]. rewrite app_nil_r. destruct prefill as [w|].
  - rewrite list_filter_all by (intros a (x & -> & _)%list_elem_of_fmap; done). by apply omap_key_fmap.
  - by rewrite Hno.
Qed.

(** C13 A plan serves its request: its actions cover every block exactly once, followed by
    one decode step; a local hit is backed by an HBM record of that very block on the
    decode worker, a fetch by a record of that very block on its source, both in the
    index; prefill is split off exactly when the decode worker cannot prefill and blocks
    must be computed, on a worker that can, and the handoff is then exactly those blocks. *)
Theorem plan_serves_request c r p c' :
  ix_inv (cp_residency c) → plan r c = Some (Ok p, c') →
  (∃ serve us, rq_actions p = serve ++ [mkPlanAction DecodeAct (rq_decode_worker_id p) (rq_prefill_worker_id p) None None us]
     ∧ omap pa_key serve ≡ₚ req_blocks r)
  ∧ (∀ k, k ∈ local_hits (rq_route p) → ∃ x, x ∈ ix_locate k (cp_residency c) ∧ res_worker_id x = rq_decode_worker_id p ∧ res_tier x = Hbm)
  ∧ (∀ t, t ∈ transfers (rq_route p) → ∃ x, x ∈ ix_locate (tp_key t) (cp_residency c) ∧ res_worker_id x = tp_from_worker_id t ∧ res_tier x = tp_tier t)
  ∧ (∀ w, rq_prefill_worker_id p = Some w →
       (∃ s, s ∈ cp_workers c ∧ w_id s = w ∧ can_prefill (w_role s) = true)
       ∧ role_of c (rq_decode_worker_id p) = Decode ∧ recomputes (rq_route p) ≠ []
       ∧ kv_handoff p = Some (mkHandoff (req_id r) w (rq_decode_worker_id p) (rp_key <$> recomputes (rq_route p))))
  ∧ (rq_prefill_worker_id p = None → kv_handoff p = None)
  ∧ cp_residency c' = cp_residency c.
Proof.
  intros HI. unfold plan. intros (h & _ & ([x n] & Hdec & Hp)%bind_Some)%bind_Some.
  destruct x as [route|e]; [|done]. injection Hp as <- <-. cbn [rq_route rq_actions rq_decode_worker_id rq_prefill_worker_id].
  destruct (decide_planned _ _ _ _ _ _ Hdec) as (cm & w & Hw & Hplan).
  destruct (plan_for_worker_ok _ _ _ _ _ _ Hplan) as (Hid & Hrid & Hserve & Hloc & Htr).
  set (prefill := pick_prefill (set_hotness h c) route). split_and!.
  - destruct (plan_actions_keys route prefill) as (serve & E & Hk). exists serve, (estimated_tpot_us route).
    split; [done|]. by rewrite Hk.
  - intros k Hk. apply (proj1 (Forall_forall _ _) Hloc) in Hk as (x & Hx & <- & Hxw & Hxt).
    exists x. split_and!; [by apply (located_in (set_hotness h c) r)|congruence|done].
  - intros t Ht. apply (proj1 (Forall_forall _ _) Htr) in Ht as (x & Hx & <- & Hxw & Hxt & _).
    exists x. split_and!; [by apply (located_in (set_hotness h c) r)|done..].
  - intros pw Hpw. unfold prefill, pick_prefill in Hpw.
    destruct (bool_decide_reflect (role_of (set_hotness h c) (rd_worker_id route) = Decode)) as [Hrole|]; [|done].
    destruct (bool_decide_reflect (length (recomputes route) = 0%nat)) as [|Hne]; [done|]. cbn [negb andb] in Hpw.
    apply fmap_Some in Hpw as (s & Hs & ->). pose proof Hs as Hin. apply min_by_in, list_elem_of_filter in Hin as (Hcan & Hin).
    split_and!; [by exists s|done|by destruct (recomputes route)|].
    unfold kv_handoff. cbn [rq_mode rq_prefill_worker_id rq_decode_worker_id rq_actions rq_route].
    assert (prefill = Some (w_id s)) as ->.
    { unfold prefill, pick_prefill. rewrite (bool_decide_eq_true_2 _ Hrole), (bool_decide_eq_false_2 _ Hne). cbn [negb andb]. by rewrite Hs. }
    cbn [mbind option_bind]. by rewrite handoff_blocks, Hrid.
  - intros ->. done.
  - done.
Qed.
End control.
