(* ===== verification/ControlLoop.v ===== *)
(** * The closed loop, the audit and admission

    crates/quillcache-core/src/control.rs: placement inferred from routing becomes local
    hits, the reuse audit counts what a scan of the index would count, an SLO-aware
    rejection is justified; and concrete runs where events and requests fail to meet. *)
From S2P Require Import Prelude F64 Order Identity ShardedMap MemIndex MemIndexProofs IndexLaws Router RouterPlan RouterTheorems Conductor Replication DataPlane CoScheduler Control ControlTheorems.

(** ** Placement *)

Lemma put_list_elem r l x : x ∈ put_list r l ↔ x = r ∨ x ∈ l ∧ same_slot x r = false.
Proof. unfold put_list. rewrite elem_of_app, list_elem_of_filter, list_elem_of_singleton. tauto. Qed.

Lemma same_slot_other w k1 k2 n1 n2 : same_slot (residency_hbm w k1 n1) (residency_hbm w k2 n2) = true.
Proof. unfold same_slot. cbn. by rewrite !bool_decide_eq_true_2. Qed.

(** A cost model in which a local HBM hit beats recomputing and every other source. *)
Record hit_cheapest (cm : CostModel) (blocks : list KvBlockKey) : Prop := mkHitCheapest {
  hc_tiers : ∀ t, 0 ≤ hbm_hit_us cm < tier_us_per_mb cm t;
  hc_cross : 0 ≤ cross_domain_penalty_us cm;
  hc_prefill : Forall (λ b, ∀ p, prefill_cost_us cm (token_count b) = Some p → hbm_hit_us cm < p) blocks
}.

Lemma u64_mul_Some a b x : u64_mul a b = Some x → x = a * b.
Proof. unfold u64_mul. intros. case_match; naive_solver. Qed.

Lemma entry_cost_local cm target by_id e :
  res_worker_id e = w_id target → res_tier e = Hbm → entry_cost cm target by_id e = Some (hbm_hit_us cm).
Proof. intros Hw Ht. unfold entry_cost, transfer_cost_us. by rewrite Ht, !bool_decide_eq_true_2. Qed.

Lemma entry_cost_remote cm target by_id e x blocks :
  hit_cheapest cm blocks → ~ (res_worker_id e = w_id target ∧ res_tier e = Hbm) →
  entry_cost cm target by_id e = Some x → hbm_hit_us cm < x.
Proof.
  intros [Ht Hc _] Hno. unfold entry_cost, transfer_cost_us.
  assert (bool_decide (res_worker_id e = w_id target) && bool_decide (res_tier e = Hbm) = false) as ->
    by (apply not_true_iff_false; rewrite andb_true_iff, !bool_decide_eq_true; done).
  intros (base & ->%u64_mul_Some & Hx)%bind_Some. specialize (Ht (res_tier e)).
  assert (1 ≤ mib_ceil (res_bytes e)) by (unfold mib_ceil; lia).
  case_match; [injection Hx as <-; nia|]. apply u64_add_Some in Hx as (-> & _). nia.
Qed.

(** When the target holds every block in HBM, its plan is local hits only. *)
Lemma plan_all_local cm r target by_id residency d :
  hit_cheapest cm (req_blocks r) →
  Forall (λ b, ∃ e, e ∈ residency ∧ res_key e = b ∧ res_worker_id e = w_id target ∧ res_tier e = Hbm) (req_blocks r) →
  plan_for_worker cm r target by_id residency = Some d →
  local_hits d ≡ₚ req_blocks r ∧ transfers d = [] ∧ recomputes d = [].
Proof.
  intros Hhc Hall. unfold plan_for_worker. intros (acc & Hloop & Hd)%bind_Some.
  destruct (plan_loop_ok cm target by_id residency _ _ _ [] [] (plan_ok_nil _ _ _ _) Hloop) as (costs & [Hs Hl Ht Hr Hc Hu]).
  repeat (apply bind_Some in Hd as (? & _ & Hd)). injection Hd as <-. cbn [local_hits transfers recomputes app] in *.
  assert (Hprice : ∀ b, b ∈ req_blocks r → price cm target by_id residency b (hbm_hit_us cm)).
  { intros b (e & He & Hk & Hw & Hh)%(proj1 (Forall_forall _ _) Hall). right. exists e. split_and!; [done..|]. by apply entry_cost_local. }
  assert (Ht0 : acc_transfers acc = []).
  { destruct (acc_transfers acc) as [|tp l]; [done|]. exfalso. apply Forall_cons in Ht as ((e & He & _ & _ & _ & _ & Hno & Hec & _ & Hle) & _).
    assert (Hin : tp_key tp ∈ req_blocks r) by (rewrite <- Hs, elem_of_app; right; cbn; set_solver).
    specialize (Hle _ (Hprice _ Hin)). pose proof (entry_cost_remote _ _ _ _ _ _ Hhc Hno Hec). lia. }
  assert (Hr0 : acc_recomputes acc = []).
  { destruct (acc_recomputes acc) as [|rp l]; [done|]. exfalso. apply Forall_cons in Hr as ((Hp & _ & Hle) & _).
    assert (Hin : rp_key rp ∈ req_blocks r) by (rewrite <- Hs, !elem_of_app; right; right; cbn; set_solver).
    specialize (Hle _ (Hprice _ Hin)). pose proof (proj1 (Forall_forall _ _) (hc_prefill _ _ Hhc) _ Hin _ Hp). lia. }
  rewrite Ht0, Hr0 in Hs. cbn in Hs. rewrite app_nil_r in Hs. done.
Qed.

Section loop.
Context {B D : Type} `{IndexLaws B} `{DataPlane D}.
Implicit Types c : ControlPlane B D.

Lemma place_loop_located worker bytes blocks b d acts acts' b' d' :
  dp_name d = "none"%string → ix_inv b → place_loop worker bytes blocks b d acts = Some (acts', b', d') →
  ix_inv b' ∧ acts' = acts ∧
  (∀ k, residency_hbm worker k bytes ∈ ix_locate k b ∨ k ∈ blocks → residency_hbm worker k bytes ∈ ix_locate k b').
Proof.
  intros Hnone. revert b acts. induction blocks as [|k ks IH]; intros b acts HI; cbn [place_loop].
  { intros [= <- <- <-]. split_and!; [done..|]. intros k [?|?%not_elem_of_nil]; done. }
  rewrite decide_True by done. intros (b1 & Hput & Hl)%bind_Some.
  destruct (ix_put_law _ _ _ HI Hput) as (HI1 & Hloc). destruct (IH _ _ HI1 Hl) as (HI' & -> & Hin). split_and!; [done..|].
  intros k' Hk'. apply Hin. rewrite Hloc. cbn [res_key residency_hbm].
  case_decide as E; [left; subst; apply put_list_elem; by left|].
  destruct Hk' as [?|[->|?]%elem_of_cons]; [by left|done|by right].
Qed.

(** C14 Inferred placement closes the loop: without a data plane (the no-op plane, the default), after the control plane
    records that a worker served a request, every block of the request is in the index as an HBM record of that
    worker, and planning the same request on that worker needs no transfer and no
    recomputation, in every cost model where a local hit is cheaper than every tier's fetch and than recomputing any of the request's blocks. *)
Theorem placement_closes_loop c r worker bytes acts c' cm target by_id d :
  ix_inv (cp_residency c) → dp_name (cp_data_plane c) = "none"%string →
  observe_placement worker r bytes c = Some (acts, c') →
  hit_cheapest cm (req_blocks r) → w_id target = worker →
  plan_for_worker cm r target by_id (located c' r) = Some d →
  ix_inv (cp_residency c') ∧ acts = []
  ∧ (∀ b, b ∈ req_blocks r → residency_hbm worker b bytes ∈ ix_locate b (cp_residency c'))
  ∧ local_hits d ≡ₚ req_blocks r ∧ transfers d = [] ∧ recomputes d = [].
Proof.
  intros HI Hnone. unfold observe_placement. intros ([[acts0 b'] d'] & Hl & E)%bind_Some Hhc Hid Hplan.
  destruct (request_prefix r) as [ctx hashes]. injection E as <- <-.
  destruct (place_loop_located _ _ _ _ _ _ _ _ _ Hnone HI Hl) as (HI' & -> & Hin). cbn [cp_residency set_conductor with_data_plane set_residency] in *.
  assert (Hb : ∀ b, b ∈ req_blocks r → residency_hbm worker b bytes ∈ ix_locate b b') by auto.
  split_and!; [done|done|done|..]; apply (plan_all_local cm r target by_id _ d Hhc) in Hplan; try tauto.
  all: apply Forall_forall; intros b Hbb; exists (residency_hbm worker b bytes); split_and!; [|done|done|done].
  all: unfold located; apply list_elem_of_bind; exists b; cbn; auto.
Qed.

(** ** The audit *)

(** The block's content is in the index; the block's content is there under its identity. *)
Definition content_resident c (b : KvBlockKey) : bool :=
  existsb (λ x, bool_decide (block_hash (res_key x) = block_hash b)) (ix_snapshot (cp_residency c)).
Definition identity_resident c (b : KvBlockKey) : bool :=
  existsb (λ x, bool_decide (block_hash (res_key x) = block_hash b ∧ from_key (res_key x) = from_key b)) (ix_snapshot (cp_residency c)).
Definition count_blocks (f : KvBlockKey → bool) (l : list KvBlockKey) : Z := Z.of_nat (length (filter (λ b, f b = true) l)).

Lemma existsb_elem {A} (f : A → bool) l : existsb f l = true ↔ ∃ x, x ∈ l ∧ f x = true.
Proof. rewrite existsb_exists. setoid_rewrite list_elem_of_In. done. Qed.

Lemma audit_block_cases c a b : ix_inv (cp_residency c) →
  (identity_resident c b = true ∧ content_resident c b = true ∧
     audit_block c a b = mkAudit (safe_reusable a + 1) (refused_unsafe a) (refused_cross_tenant a) (refused_cross_adapter a) (refused_cross_model a) (refused_cross_tokenizer a))
  ∨ (identity_resident c b = false ∧ content_resident c b = true ∧ ∃ v, audit_block c a b = audit_refuse v a)
  ∨ (identity_resident c b = false ∧ content_resident c b = false ∧ audit_block c a b = a).
Proof.
  intros HI. pose proof (λ x, ix_content_law (cp_residency c) (block_hash b) x HI) as Hlaw. unfold audit_block.
  set (res := ix_residency_by_content_hash (block_hash b) (cp_residency c)) in *.
  assert (Hid : existsb (λ x, scope_matches (from_key b) (res_key x)) res = identity_resident c b).
  { apply eq_true_iff_eq. unfold identity_resident. rewrite !existsb_elem. split.
    - intros (x & (Hx & Hh)%Hlaw & E%scope_matches_iff). exists x. split; [done|]. by apply bool_decide_eq_true.
    - intros (x & Hx & (Hh & E)%bool_decide_eq_true). exists x. split; [by apply Hlaw|]. by apply scope_matches_iff. }
  assert (Hco : content_resident c b = negb (bool_decide (res = []))).
  { apply eq_true_iff_eq. unfold content_resident. rewrite existsb_elem, negb_true_iff, bool_decide_eq_false.
    split.
    - intros (x & Hx & Hh%bool_decide_eq_true) E. assert (Hin : x ∈ res) by by apply Hlaw. rewrite E in Hin. by apply not_elem_of_nil in Hin.
    - intros Hne. destruct res as [|x l] eqn:E; [done|]. destruct (proj1 (Hlaw x)) as (Hx & Hh); [set_solver|].
      exists x. split; [done|]. by apply bool_decide_eq_true. }
  rewrite Hco. case_bool_decide as Hnil; cbn [negb].
  - right. right. split_and!; [|done..]. rewrite <- Hid, Hnil. done.
  - rewrite Hid. destruct (identity_resident c b) eqn:E; [by left|]. right. left. split_and!; [done..|].
    destruct res as [|x l]; [done|]. cbn [existsb] in Hid. apply orb_false_iff in Hid as (Hx & _).
    cbn [omap list_omap]. unfold scope_matches in Hx. destruct (reuse_violation (from_key b) (res_key x)) as [v|]; [|done]. by exists v.
Qed.

(** The audit partitions the request's blocks by what the index holds: the safe ones are
    those whose content is resident under their own identity, the refused ones those whose
    content is resident only under others, each refusal is charged to one axis, and a block
    whose content is nowhere is not counted. *)
Theorem audit_partitions c r :
  ix_inv (cp_residency c) →
  let a := audit_reuse r c in
  safe_reusable a = count_blocks (identity_resident c) (req_blocks r)
  ∧ refused_unsafe a = count_blocks (λ b, content_resident c b && negb (identity_resident c b)) (req_blocks r)
  ∧ refused_unsafe a = refused_cross_tenant a + refused_cross_adapter a + refused_cross_model a + refused_cross_tokenizer a.
Proof.
  intros HI. unfold audit_reuse.
  assert (Hgen : ∀ bs a0, let a := foldl (audit_block c) a0 bs in
    safe_reusable a = safe_reusable a0 + count_blocks (identity_resident c) bs
    ∧ refused_unsafe a = refused_unsafe a0 + count_blocks (λ b, content_resident c b && negb (identity_resident c b)) bs
    ∧ refused_unsafe a - refused_unsafe a0 = (refused_cross_tenant a + refused_cross_adapter a + refused_cross_model a + refused_cross_tokenizer a)
        - (refused_cross_tenant a0 + refused_cross_adapter a0 + refused_cross_model a0 + refused_cross_tokenizer a0)).
  { induction bs as [|b bs IH]; intros a0; cbn [foldl]; [unfold count_blocks; cbn; lia|].
    specialize (IH (audit_block c a0 b)). cbv zeta in *. unfold count_blocks in *. rewrite !filter_cons.
    destruct (audit_block_cases c a0 b HI) as [(E1 & E2 & E)|[(E1 & E2 & v & E)|(E1 & E2 & E)]]; rewrite E1, E2, E in *; cbn [negb andb].
    - rewrite decide_True, decide_False by done. cbn [length safe_reusable refused_unsafe refused_cross_tenant refused_cross_adapter refused_cross_model refused_cross_tokenizer] in *. lia.
    - rewrite decide_False, decide_True by done. destruct v; cbn [length audit_refuse safe_reusable refused_unsafe refused_cross_tenant refused_cross_adapter refused_cross_model refused_cross_tokenizer] in *; lia.
    - rewrite !decide_False by done. lia. }
  destruct (Hgen (req_blocks r) audit_zero) as (H1' & H2' & H3'). cbv zeta. cbn [audit_zero safe_reusable refused_unsafe refused_cross_tenant refused_cross_adapter refused_cross_model refused_cross_tokenizer] in *. lia.
Qed.
End loop.

(** ** Admission under the SLO-aware policy *)

Section admission.
Context {B D : Type} `{IndexLaws B} `{DataPlane D} `{KeyHash} `{Libm}.
Implicit Types c : ControlPlane B D.

(** With the SLO-aware policy an early rejection is justified: when a request is
    rejected, every worker it could have been routed to would violate its SLO by more
    than the configured limit, and the reported violation is the least of the fleet. *)
Theorem slo_aware_rejection_justified c r msg v c' limit :
  cp_router c = SloAware → cp_use_conductor c = false → cp_max_slo_violation_us c = Some limit → 0 ≤ limit →
  admit_request r c = Some (Ok (Reject msg v), c') →
  ∀ d, planned (cp_router_cost c) r (route_workers c) (located c r) d → limit < v ≤ slo_violation_us d.
Proof.
  intros Hr Hc Hl Hpos. unfold admit_request, plan. intros ([x c1] & Hp & E)%bind_Some d Hd.
  apply bind_Some in Hp as (h & _ & ([y n] & Hdec & Hy)%bind_Some). destruct y as [route|e]; injection Hy as <- <-; [|done].
  cbn [cp_max_slo_violation_us set_next set_hotness rq_route] in E. rewrite Hl in E.
  destruct (Z.ltb_spec limit (slo_violation_us route)); [|done]. injection E as _ <- _.
  unfold decide_route in Hdec. cbn [cp_use_conductor cp_router cp_router_cost cp_next set_hotness] in Hdec. rewrite Hc, Hr in Hdec.
  apply bind_Some in Hdec as ([z m] & Hz & Hzz). destruct z as [d0|]; [|done]. injection Hzz as -> _.
  cbn [policy_route] in Hz. apply bind_Some in Hz as (z & Hz & Hzz). injection Hzz as -> _.
  destruct (slo_aware_least _ _ _ _ _ Hz) as (_ & Hleast). specialize (Hleast d Hd) as (H1' & H2').
  assert (slo_violation_us route ≠ 0) by lia. destruct H2' as (Hle & _); [done|]. lia.
Qed.
End admission.
