(* ===== verification/ControlExamples.v ===== *)
(** * The control plane on concrete engines

    Witnesses for the theorems about crates/quillcache-core/src/control.rs, and three runs
    of the code that do not do what its documentation says: a continuation event whose
    blocks no request can hit, a removal that misses a LoRA block, and a rejection while a
    worker meets the SLO. *)
From S2P Require Import Prelude F64 Order Identity ShardedMap MemIndex MemIndexProofs IndexLaws Router RouterPlan RouterTheorems Conductor Replication DataPlane CoScheduler Control ControlTheorems ControlLoop.

#[local] Existing Instance canonical_iter.
#[local] Existing Instance length_hash.
#[local] Instance kx_libm : Libm := {| f64_exp := λ _, f64_of_u64 1 |}.

Notation Plane := (ControlPlane MemoryIndex NoDataPlane).

Definition kx_engine (id : string) (role : EngineRole) : EngineEndpoint := mkEndpoint id Vllm role "http://e" "m" "t" "ten" "rack".
Definition kx_hints (session : option string) (hashes : list string) : RequestKvHints :=
  mkHints (Some "r"%string) None None None None session hashes (Some 64) None None.
Definition kx_request (hashes : list string) (slo : SloTarget) : RequestShape :=
  mkRequest "r" "m" "t" None "ten" None (to_blocks (kx_hints None hashes) "m" "t" "ten") 64 slo.
Definition kx_stored (hashes : list string) (parent lora : option string) : KvEvent :=
  EvBlockStored (mkStored hashes parent [] 64 None lora None None).
Definition kx_batch (evs : list KvEvent) : KvEventBatch := mkBatch "e0" None None None None None None evs.

Definition kx_new : Plane := control_new [kx_engine "e0" Aggregated; kx_engine "e1" Aggregated].
Definition run_ingest (evs : list KvEvent) (c : Plane) : option (IngestSummary * Plane) :=
  match ingest (kx_batch evs) c with Some (Ok s, c') => Some (s, c') | _ => None end.
Definition after_ingest (evs : list KvEvent) (c : Plane) : Plane := from_option snd c (run_ingest evs c).

Lemma mi_new_ok : ix_inv (B := MemoryIndex) mi_new.
Proof. exact mi_new_inv. Qed.

(** ** Witnesses *)

Definition kx_two : RequestShape := kx_request ["h0"; "h1"] slo_default.
Definition kx_observed : list DataPlaneAction * Plane := default ([], kx_new) (observe_placement "e1" kx_two 4096 kx_new).
Definition kx_placed : Plane := kx_observed.2.

Lemma kx_no_actions : kx_observed.1 = [].
Proof. vm_compute. reflexivity. Qed.
Lemma kx_observed_eq : observe_placement "e1" kx_two 4096 kx_new = Some kx_observed.
Proof. run. Qed.

Lemma fst_snd_run {A B} (o : option (A * B)) (p : A * B) a : o = Some p → p.1 = a → o = Some (a, p.2).
Proof. by destruct p; intros -> <-. Qed.
Lemma kx_placed_eq : observe_placement "e1" kx_two 4096 kx_new = Some ([], kx_placed).
Proof. exact (fst_snd_run _ _ _ kx_observed_eq kx_no_actions). Qed.

Lemma observe_placement_inv w r bytes (c c' : Plane) acts :
  dp_name (cp_data_plane c) = "none"%string → ix_inv (cp_residency c) → observe_placement w r bytes c = Some (acts, c') → ix_inv (cp_residency c').
Proof.
  intros Hn Hi ([[acts0 b] d] & Hl & E)%bind_Some. destruct (request_prefix r) as [ctx hashes]. injection E as -> <-.
  by destruct (place_loop_located _ _ _ _ _ _ _ _ _ Hn Hi Hl) as (Hinv & _).
Qed.
Lemma kx_placed_inv : ix_inv (cp_residency kx_placed).
Proof. exact (observe_placement_inv "e1" kx_two 4096 kx_new kx_placed [] eq_refl mi_new_ok kx_placed_eq). Qed.

Definition kx_target : WorkerState := worker_state (kx_engine "e1" Aggregated).
Definition kx_local : RouteDecision :=
  default (mkDecision "" "" [] [] [] 0 0 0) (plan_for_worker cost_default kx_two kx_target (worker_map (cp_workers kx_placed)) (located kx_placed kx_two)).

Lemma kx_hit_cheapest : hit_cheapest cost_default (req_blocks kx_two).
Proof.
  constructor; [intros []; cbn; lia|cbn; lia|].
  repeat constructor; cbn; intros p; unfold prefill_cost_us; vm_compute; intros [= <-]; reflexivity.
Qed.

Lemma kx_none : dp_name (cp_data_plane kx_new) = "none"%string.
Proof. reflexivity. Qed.
Lemma kx_local_eq : plan_for_worker cost_default kx_two kx_target (worker_map (cp_workers kx_placed)) (located kx_placed kx_two) = Some kx_local.
Proof. vm_compute. reflexivity. Qed.

Lemma placement_closes_loop_witness : local_hits kx_local ≡ₚ req_blocks kx_two ∧ transfers kx_local = [].
Proof.
  destruct (placement_closes_loop kx_new kx_two "e1" 4096 [] kx_placed cost_default kx_target (worker_map (cp_workers kx_placed)) kx_local
    mi_new_ok kx_none kx_placed_eq kx_hit_cheapest eq_refl kx_local_eq) as (_ & _ & _ & Hl & Ht & _).
  split; assumption.
Defined.

Lemma point_lookups_suffice_witness :
  decide_route kx_placed kx_two (cp_workers kx_placed) (located kx_placed kx_two)
  = decide_route kx_placed kx_two (cp_workers kx_placed) (ix_snapshot (cp_residency kx_placed)).
Proof. exact (point_lookups_suffice kx_placed kx_two (cp_workers kx_placed) kx_placed_inv). Defined.

Definition kx_plan : option (RequestPlan * Plane) :=
  match plan kx_two kx_placed with Some (Ok p, c) => Some (p, c) | _ => None end.
Definition kx_no_plan : RequestPlan := mkRequestPlan AggregatedMode "" None "" (mkDecision "" "" [] [] [] 0 0 0) [].
Definition kx_plan1 : RequestPlan := from_option fst kx_no_plan kx_plan.
Definition kx_plan2 : Plane := from_option snd kx_new kx_plan.

Lemma kx_plan_eq : plan kx_two kx_placed = Some (Ok kx_plan1, kx_plan2).
Proof.
  assert ((match plan kx_two kx_placed with Some (Ok _, _) => true | _ => false end) = true) as H by (vm_compute; reflexivity).
  unfold kx_plan1, kx_plan2, kx_plan. by destruct (plan kx_two kx_placed) as [[[p|e] c]|].
Qed.
Lemma plan_serves_request_witness : kv_handoff kx_plan1 = None ∧ cp_residency kx_plan2 = cp_residency kx_placed.
Proof.
  destruct (plan_serves_request kx_placed kx_two kx_plan1 kx_plan2 kx_placed_inv kx_plan_eq) as (_ & _ & _ & _ & Hn & Hc).
  split; [apply Hn; vm_compute; reflexivity|exact Hc].
Defined.

Lemma audit_partitions_witness :
  safe_reusable (audit_reuse kx_two kx_placed) = count_blocks (identity_resident kx_placed) (req_blocks kx_two)
  ∧ safe_reusable (audit_reuse kx_two kx_placed) = 2.
Proof. split; [apply (audit_partitions kx_placed kx_two kx_placed_inv)|vm_compute; reflexivity]. Defined.

(** ** Events and requests that do not meet *)

Definition kx_continued : Plane := after_ingest [kx_stored ["h0"] None None; kx_stored ["h1"] (Some "h0"%string) None] kx_new.

(** The blocks of a continuation event cannot be hit: an engine reports [h0], then [h1]
    with parent [h0]; the request for [h0; h1] finds [h0] but not [h1], because the event's
    keys restart their block index at 0, while the audit counts both blocks as reusable. *)
Theorem continuation_event_unreachable :
  (λ b, length (ix_locate b (cp_residency kx_continued))) <$> req_blocks kx_two = [1%nat; 0%nat]
  ∧ length (ix_snapshot (cp_residency kx_continued)) = 2%nat
  ∧ safe_reusable (audit_reuse kx_two kx_continued) = 2.
Proof. vm_compute. auto. Qed.

Definition kx_lora : Plane := after_ingest [kx_stored ["h0"] None (Some "adapter-1"%string)] kx_new.

(** A removal misses a LoRA block: stored with the event's adapter, removed under the
    batch's only; the engine's eviction report removes nothing and the stale record stays. *)
Theorem lora_block_never_removed :
  (λ x, (stored_blocks x.1, total_resident_blocks x.1)) <$> run_ingest [kx_stored ["h0"] None (Some "adapter-1"%string)] kx_new = Some (1, 1)
  ∧ (λ x, (removed_blocks x.1, total_resident_blocks x.1)) <$> run_ingest [EvBlockRemoved (mkRemoved ["h0"] None None)] kx_lora = Some (0, 1).
Proof. vm_compute. auto. Qed.

Definition kx_busy : Plane :=
  with_admission_slo_limit 0
    (set_workers [worker_with_load 199000 0 (worker_state (kx_engine "e0" Aggregated));
                  worker_with_load 197000 40 (worker_state (kx_engine "e1" Aggregated))] kx_new).

(** Under the default policy a request is rejected as overloaded while a worker meets
    its SLO: the additive score prefers the worker with fewer running decodes although its
    queue breaks the TTFT budget, and admission looks at that worker alone. *)
Theorem greedy_rejects_servable :
  (∃ msg v c, admit_request kx_two kx_busy = Some (Ok (Reject msg v), c) ∧ 0 < v)
  ∧ ∃ w d, w ∈ route_workers kx_busy
      ∧ plan_for_worker cost_default kx_two w (worker_map (route_workers kx_busy)) (located kx_busy kx_two) = Some d
      ∧ slo_violation_us d = 0.
Proof.
  split.
  - eexists _, _, _. split; [vm_compute; reflexivity|reflexivity].
  - eexists (worker_with_load 197000 40 (worker_state (kx_engine "e1" Aggregated))), _.
    split; [vm_compute; repeat constructor|]. split; [vm_compute; reflexivity|reflexivity].
Qed.

Definition kx_slo : Plane :=
  with_admission_slo_limit 0 (set_workers [worker_with_load 250000 0 (worker_state (kx_engine "e0" Aggregated))]
    (with_index_and_policy [kx_engine "e0" Aggregated] mi_new SloAware cost_default)).
Definition kx_reject : option (string * Z * Plane) :=
  match admit_request kx_two kx_slo with Some (Ok (Reject m v), c) => Some (m, v, c) | _ => None end.
Definition kx_reject_v : Z := from_option (λ x, x.1.2) 0 kx_reject.
Definition kx_reject_d : RouteDecision :=
  default (mkDecision "" "" [] [] [] 0 0 0)
    (plan_for_worker cost_default kx_two (worker_with_load 250000 0 (worker_state (kx_engine "e0" Aggregated)))
       (worker_map (route_workers kx_slo)) (located kx_slo kx_two)).
Lemma slo_aware_rejection_justified_witness : 0 < kx_reject_v ≤ slo_violation_us kx_reject_d.
Proof.
  apply (slo_aware_rejection_justified kx_slo kx_two (from_option (λ x, x.1.1) ""%string kx_reject) kx_reject_v
    (from_option snd kx_slo kx_reject) 0).
  - reflexivity.
  - reflexivity.
  - reflexivity.
  - lia.
  - vm_compute. reflexivity.
  - exists (worker_with_load 250000 0 (worker_state (kx_engine "e0" Aggregated))). split.
    + vm_compute. repeat constructor.
    + vm_compute. reflexivity.
Defined.
