(* ===== verification/KvStore.v ===== *)
(** * The local KV byte store

    [LocalKvStore] of crates/quillcache-store/src/lib.rs: a DRAM tier in memory, an SSD
    tier of block files, and a write-ahead log that makes the SSD tier recoverable.
    Memory is a record; the disk is a map from file number ([blk-<id>.kv]) to bytes and
    the bytes of [manifest.wal].  An operation returns the new memory and the disk writes
    it issued, in order: that list is what a crash can cut.  Each write is followed by an
    fsync in the code, so a write that returned is on disk.

    [serde_json] and [crc32fast] are the parameter [WalCodec]; [HashMap] iteration is
    [HashIter].  The event counters ([clock], [next_file], [admits], [hits], [demotions],
    [evictions]) and the byte totals are unbounded integers: the totals are sums of
    lengths of data held, the counters would need 2^64 operations to wrap.  System calls
    succeed, except that a crash can stop them; reading a missing file fails. *)
From S2P Require Import Prelude Identity MemIndex Router OpLog.

Notation Bytes := (list Z).

Inductive StoreError : Type := SNotFound | SUnsafe (v : ReuseViolation) | SIo.

Record BlockMeta : Type := mkMeta { bm_tier : CacheTier; bm_bytes : Z; bm_last_access : Z }.
Record PutOutcome : Type := mkPutOutcome { po_tier : CacheTier; po_evicted : list KvBlockKey }.

Inductive WalRecord : Type :=
| WCommit (key : KvBlockKey) (file_id len crc : Z)
| WRemove (key : KvBlockKey).

Class WalCodec : Type := {
  wal_encode : WalRecord → Bytes;
  wal_decode : Bytes → option WalRecord;
  wal_crc : Bytes → Z;
  wal_decode_encode : ∀ r, wal_decode (wal_encode r) = Some r;
  wal_crc_u32 : ∀ bs, is_u32 (wal_crc bs)
}.

Record LocalKvStore : Type := mkStore {
  dram : gmap KvBlockKey Bytes;
  ssd : gmap KvBlockKey Z;
  meta : gmap KvBlockKey BlockMeta;
  content : gmap string (HashSet KvBlockKey);
  dram_capacity : Z;
  ssd_capacity : Z;
  dram_bytes : Z;
  ssd_bytes : Z;
  clock : Z;
  next_file : Z;
  st_admits : Z;
  st_hits : Z;
  st_demotions : Z;
  st_evictions : Z
}.

Record SsdDir : Type := mkDisk { files : gmap Z Bytes; wal : Bytes }.

(** The writes an operation issues. *)
Inductive DiskOp : Type :=
| WriteFile (id : Z) (data : Bytes)
| AppendWal (bs : Bytes)
| Unlink (id : Z).
Definition disk_op (d : SsdDir) (o : DiskOp) : SsdDir :=
  match o with
  | WriteFile id data => mkDisk (<[id := data]> (files d)) (wal d)
  | AppendWal bs => mkDisk (files d) (wal d ++ bs)
  | Unlink id => mkDisk (delete id (files d)) (wal d)
  end.
Definition disk_ops (d : SsdDir) (l : list DiskOp) : SsdDir := foldl disk_op d l.

(** [LocalKvStore::new] truncates the log and leaves the block files. *)
Definition store_new (dram_cap ssd_cap : Z) : LocalKvStore := mkStore ∅ ∅ ∅ ∅ dram_cap ssd_cap 0 0 0 0 0 0 0 0.
Definition disk_new (d : SsdDir) : SsdDir := mkDisk (files d) [].

Definition store_tick (s : LocalKvStore) : Z * LocalKvStore :=
  (clock s + 1, mkStore (dram s) (ssd s) (meta s) (content s) (dram_capacity s) (ssd_capacity s) (dram_bytes s) (ssd_bytes s)
     (clock s + 1) (next_file s) (st_admits s) (st_hits s) (st_demotions s) (st_evictions s)).

Section store.
Context `{WalCodec} `{HashIter}.
Implicit Types s : LocalKvStore.

Definition wal_frame (r : WalRecord) : Bytes :=
  let payload := wal_encode r in
  le_bytes (Z.land (Z.of_nat (length payload)) u32_max) ++ le_bytes (wal_crc payload) ++ payload.

(** [remove_internal]: no tombstone. *)
Definition remove_internal (key : KvBlockKey) s : LocalKvStore * list DiskOp :=
  match meta s !! key with
  | None => (s, [])
  | Some m =>
      let content' := set_forget (block_hash key) key (content s) in
      if decide (bm_tier m = LocalSsd) then
        (mkStore (dram s) (delete key (ssd s)) (delete key (meta s)) content' (dram_capacity s) (ssd_capacity s)
           (dram_bytes s) (sat_sub (ssd_bytes s) (bm_bytes m)) (clock s) (next_file s)
           (st_admits s) (st_hits s) (st_demotions s) (st_evictions s),
         match ssd s !! key with Some id => [Unlink id] | None => [] end)
      else
        (mkStore (delete key (dram s)) (ssd s) (delete key (meta s)) content' (dram_capacity s) (ssd_capacity s)
           (sat_sub (dram_bytes s) (bm_bytes m)) (ssd_bytes s) (clock s) (next_file s)
           (st_admits s) (st_hits s) (st_demotions s) (st_evictions s), [])
  end.

Definition put_dram (key : KvBlockKey) (data : Bytes) s : LocalKvStore * list DiskOp :=
  let '(now, s1) := store_tick s in
  let len := Z.of_nat (length data) in
  let '(s2, ops) := remove_internal key s1 in
  (mkStore (<[key := data]> (dram s2)) (ssd s2) (<[key := mkMeta CpuDram len now]> (meta s2)) (set_add (block_hash key) key (content s2))
     (dram_capacity s2) (ssd_capacity s2) (dram_bytes s2 + len) (ssd_bytes s2) (clock s2) (next_file s2)
     (st_admits s2 + 1) (st_hits s2) (st_demotions s2) (st_evictions s2), ops).

Definition set_tier (t : CacheTier) (m : BlockMeta) : BlockMeta := mkMeta t (bm_bytes m) (bm_last_access m).
Definition demote_to_ssd (key : KvBlockKey) s : bool * LocalKvStore * list DiskOp :=
  match dram s !! key with
  | None => (false, s, [])
  | Some data =>
      let len := Z.of_nat (length data) in
      let file_id := next_file s + 1 in
      (true,
       mkStore (delete key (dram s)) (<[key := file_id]> (ssd s)) (alter (set_tier LocalSsd) key (meta s)) (content s)
         (dram_capacity s) (ssd_capacity s) (sat_sub (dram_bytes s) len) (ssd_bytes s + len) (clock s) file_id
         (st_admits s) (st_hits s) (st_demotions s + 1) (st_evictions s),
       [WriteFile file_id data; AppendWal (wal_frame (WCommit key file_id len (wal_crc data)))])
  end.

Definition drop_block (key : KvBlockKey) s : bool * LocalKvStore * list DiskOp :=
  match meta s !! key with
  | None => (false, s, [])
  | Some m =>
      let content' := set_forget (block_hash key) key (content s) in
      if decide (bm_tier m = LocalSsd) then
        (true,
         mkStore (dram s) (delete key (ssd s)) (delete key (meta s)) content' (dram_capacity s) (ssd_capacity s)
           (dram_bytes s) (sat_sub (ssd_bytes s) (bm_bytes m)) (clock s) (next_file s)
           (st_admits s) (st_hits s) (st_demotions s) (st_evictions s + 1),
         AppendWal (wal_frame (WRemove key)) :: match ssd s !! key with Some id => [Unlink id] | None => [] end)
      else
        (true,
         mkStore (delete key (dram s)) (ssd s) (delete key (meta s)) content' (dram_capacity s) (ssd_capacity s)
           (sat_sub (dram_bytes s) (bm_bytes m)) (ssd_bytes s) (clock s) (next_file s)
           (st_admits s) (st_hits s) (st_demotions s) (st_evictions s + 1), [])
  end.

Definition coldest_in (tier : CacheTier) s : option KvBlockKey :=
  fst <$> min_by (λ a b : KvBlockKey * BlockMeta, bm_last_access a.2 <? bm_last_access b.2)
            (filter (λ km : KvBlockKey * BlockMeta, bm_tier km.2 = tier) (hiter (meta s))).

(** The two [while] loops; each turn takes a block out of its tier. *)
Fixpoint demote_loop (fuel : nat) s (ops : list DiskOp) : option (LocalKvStore * list DiskOp) :=
  if dram_capacity s <? dram_bytes s then
    match fuel with
    | O => None
    | S fuel' =>
        match coldest_in CpuDram s with
        | None => Some (s, ops)
        | Some victim =>
            let '(ok, s', ops') := demote_to_ssd victim s in
            if ok then demote_loop fuel' s' (ops ++ ops') else Some (s', ops ++ ops')
        end
    end
  else Some (s, ops).
Fixpoint evict_loop (fuel : nat) s (ops : list DiskOp) (evicted : list KvBlockKey) : option (LocalKvStore * list DiskOp * list KvBlockKey) :=
  if ssd_capacity s <? ssd_bytes s then
    match fuel with
    | O => None
    | S fuel' =>
        match coldest_in LocalSsd s with
        | None => Some (s, ops, evicted)
        | Some victim =>
            let '(ok, s', ops') := drop_block victim s in
            if ok then evict_loop fuel' s' (ops ++ ops') (evicted ++ [victim]) else Some (s', ops ++ ops', evicted)
        end
    end
  else Some (s, ops, evicted).
Definition enforce_capacity s : option (LocalKvStore * list DiskOp * list KvBlockKey) :=
  '(s1, ops1) ← demote_loop (S (size (meta s))) s [];
  '(s2, ops2, evicted) ← evict_loop (S (size (meta s))) s1 [] [];
  Some (s2, ops1 ++ ops2, evicted).

Definition put (key : KvBlockKey) (data : Bytes) s : option (PutOutcome * LocalKvStore * list DiskOp) :=
  let '(s1, ops1) := put_dram key data s in
  '(s2, ops2, evicted) ← enforce_capacity s1;
  let tier := match meta s2 !! key with Some m => bm_tier m | None => CpuDram end in
  Some (mkPutOutcome tier evicted, s2, ops1 ++ ops2).

(** [get] stamps the block, then reads from its tier. *)
Definition get (key : KvBlockKey) (d : SsdDir) s : result StoreError Bytes * LocalKvStore :=
  match meta s !! key with
  | Some m =>
      let '(now, s1) := store_tick s in
      let s2 := mkStore (dram s1) (ssd s1) (<[key := mkMeta (bm_tier m) (bm_bytes m) now]> (meta s1)) (content s1)
                  (dram_capacity s1) (ssd_capacity s1) (dram_bytes s1) (ssd_bytes s1) (clock s1) (next_file s1)
                  (st_admits s1) (st_hits s1 + 1) (st_demotions s1) (st_evictions s1) in
      (if decide (bm_tier m = LocalSsd) then
         match ssd s2 !! key with
         | None => Err SNotFound
         | Some id => match files d !! id with Some data => Ok data | None => Err SIo end
         end
       else match dram s2 !! key with Some data => Ok data | None => Err SNotFound end, s2)
  | None =>
      (match content s !! block_hash key with
       | None => Err SNotFound
       | Some cands =>
           match head (omap (λ k, reuse_violation (from_key key) k) (hkeys cands)) with
           | Some v => Err (SUnsafe v)
           | None => Err SNotFound
           end
       end, s)
  end.

Definition get_raw (key : KvBlockKey) (d : SsdDir) s : option Bytes :=
  m ← meta s !! key;
  if decide (bm_tier m = LocalSsd) then id ← ssd s !! key; files d !! id else dram s !! key.

Definition store_len s : Z := Z.of_nat (size (meta s)).
Definition tier_of (key : KvBlockKey) s : option CacheTier := bm_tier <$> meta s !! key.

(** ** Recovery *)

Notation Live := (gmap KvBlockKey (Z * Z * Z)).

Definition wal_apply (live : Live) (r : WalRecord) : Live :=
  match r with
  | WCommit key id len crc => <[key := (id, len, crc)]> live
  | WRemove key => delete key live
  end.

(** Every turn consumes the eight header bytes: the file's length is enough fuel.  A frame
    with a good checksum that does not decode is skipped. *)
Fixpoint wal_replay_loop (fuel : nat) (rest : Bytes) (live : Live) : option Live :=
  if (8 <=? length rest)%nat then
    match fuel with
    | O => None
    | S fuel' =>
        len ← from_le (take 4 rest);
        crc ← from_le (take 4 (drop 4 rest));
        let body := drop 8 rest in
        if Z.of_nat (length body) <? len then Some live
        else
          let payload := take (Z.to_nat len) body in
          if negb (wal_crc payload =? crc) then Some live
          else
            let live' := match wal_decode payload with Some r => wal_apply live r | None => live end in
            wal_replay_loop fuel' (drop (Z.to_nat len) body) live'
    end
  else Some live.
Definition wal_replay (bs : Bytes) : option Live := wal_replay_loop (length bs) bs ∅.

(** The committed file is present with the recorded length and checksum. *)
Definition verified (d : SsdDir) (e : Z * Z * Z) : bool :=
  let '(id, len, crc) := e in
  match files d !! id with
  | None => false
  | Some data => (Z.of_nat (length data) =? len) && (wal_crc data =? crc)
  end.

Definition recover_add (d : SsdDir) s (ke : KvBlockKey * (Z * Z * Z)) : LocalKvStore :=
  let '(key, (id, len, crc)) := ke in
  if verified d (id, len, crc) then
    mkStore (dram s) (<[key := id]> (ssd s)) (<[key := mkMeta LocalSsd len 0]> (meta s)) (set_add (block_hash key) key (content s))
      (dram_capacity s) (ssd_capacity s) (dram_bytes s) (ssd_bytes s + len) (clock s) (Z.max (next_file s) (id + 1))
      (st_admits s) (st_hits s) (st_demotions s) (st_evictions s)
  else s.
Definition store_recover (d : SsdDir) (dram_cap ssd_cap : Z) : option LocalKvStore :=
  live ← wal_replay (wal d);
  Some (foldl (recover_add d) (store_new dram_cap ssd_cap) (hiter live)).
End store.
