(* ===== verification/KvStoreProofs.v ===== *)
(** * The local KV byte store: memory invariant and capacity

    [store_wf]: the metadata covers exactly the two tiers, the byte totals are the sums of
    the blocks' sizes, and the content index holds exactly the resident keys.  Every
    operation keeps it, and [put] returns with both tiers within their budgets. *)
From S2P Require Import Prelude Identity MemIndex MemIndexProofs Router RouterPlan OpLog KvStore.

(** ** Sums by tier *)

Section wsum.
Context {V : Type} (f : V → Z).
Implicit Types M : gmap KvBlockKey V.

Definition wsum M : Z := msum (f <$> M).

Lemma wsum_empty : wsum ∅ = 0.
Proof. unfold wsum. rewrite fmap_empty. exact (msum_empty (K := KvBlockKey)). Qed.

Lemma wsum_insert M k m : M !! k = None → wsum (<[k := m]> M) = f m + wsum M.
Proof. intros Hk. unfold wsum. rewrite fmap_insert, msum_insert; [done|]. by rewrite lookup_fmap, Hk. Qed.

Lemma wsum_delete M k m : M !! k = Some m → wsum (delete k M) = wsum M - f m.
Proof.
  intros Hk. unfold wsum. rewrite fmap_delete, (msum_delete (f <$> M) k (f m)); [lia|]. by rewrite lookup_fmap, Hk.
Qed.

Lemma wsum_update M k m m' : M !! k = Some m → wsum (<[k := m']> M) = f m' + (wsum M - f m).
Proof. intros Hk. rewrite <- insert_delete_eq, wsum_insert, (wsum_delete _ _ _ Hk); [done|]. apply lookup_delete_eq. Qed.

Lemma wsum_zero M : map_Forall (λ _ m, f m = 0) M → wsum M = 0.
Proof.
  induction M as [|k m M Hk IH] using map_ind; intros HM; [apply wsum_empty|].
  apply map_Forall_insert in HM as [Hm HM]; [|done]. rewrite wsum_insert, IH by done. lia.
Qed.

Lemma wsum_bounds M k m : map_Forall (λ _ m, 0 ≤ f m) M → M !! k = Some m → 0 ≤ f m ≤ wsum M.
Proof.
  intros Hpos Hk. assert (map_Forall (λ _ z, 0 ≤ z) (f <$> M)) as Hall.
  { intros k' z. rewrite lookup_fmap, fmap_Some. intros (m' & Hm & ->). by apply (Hpos k'). }
  split; [|apply (msum_elem _ k); [done|]]; [apply (Hall k)|]; by rewrite lookup_fmap, Hk.
Qed.

Lemma wsum_nonneg M : map_Forall (λ _ m, 0 ≤ f m) M → 0 ≤ wsum M.
Proof.
  intros Hpos. apply msum_nonneg. intros k z. rewrite lookup_fmap, fmap_Some. intros (m & Hm & ->). by apply (Hpos k).
Qed.

Lemma wsum_list `{HashIter} M : foldr Z.add 0 (f <$> hvalues M) = wsum M.
Proof.
  unfold wsum, msum, hvalues. rewrite map_fold_foldr. rewrite (foldr_add_perm _ (f <$> (map_to_list M).*2)) by (by rewrite hiter_perm).
  rewrite map_to_list_fmap. induction (map_to_list M) as [|[k m] l IH]; cbn; [done|]. by rewrite IH.
Qed.
End wsum.

Definition in_tier (t : CacheTier) (m : BlockMeta) : Z := if decide (bm_tier m = t) then bm_bytes m else 0.
Definition bytes_in (t : CacheTier) (M : gmap KvBlockKey BlockMeta) : Z := wsum (in_tier t) M.

Lemma bytes_in_empty t : bytes_in t ∅ = 0.
Proof. apply wsum_empty. Qed.
Lemma bytes_in_insert t M k m : M !! k = None → bytes_in t (<[k := m]> M) = in_tier t m + bytes_in t M.
Proof. apply wsum_insert. Qed.
Lemma bytes_in_delete t M k m : M !! k = Some m → bytes_in t (delete k M) = bytes_in t M - in_tier t m.
Proof. apply wsum_delete. Qed.
Lemma bytes_in_update t M k m m' : M !! k = Some m → bytes_in t (<[k := m']> M) = in_tier t m' + (bytes_in t M - in_tier t m).
Proof. apply wsum_update. Qed.
Lemma bytes_in_zero t M : map_Forall (λ _ m, bm_tier m ≠ t) M → bytes_in t M = 0.
Proof. intros HM. apply wsum_zero. intros k m Hk. unfold in_tier. destruct (decide _) as [E|]; [by apply (HM k m) in E|done]. Qed.

Lemma in_tier_bounds M (Hpos : map_Forall (λ _ m, 0 ≤ bm_bytes m) M) t k m : M !! k = Some m → 0 ≤ in_tier t m ≤ bytes_in t M.
Proof.
  apply wsum_bounds. intros k' m' Hm. apply Hpos in Hm. cbn in Hm. unfold in_tier. case_decide; lia.
Qed.

Lemma in_tier_eq t m : bm_tier m = t → in_tier t m = bm_bytes m.
Proof. intros <-. unfold in_tier. by rewrite decide_True. Qed.
Lemma in_tier_ne t m : bm_tier m ≠ t → in_tier t m = 0.
Proof. intros Hn. unfold in_tier. by rewrite decide_False. Qed.

(** ** The invariant *)

Record store_wf (s : LocalKvStore) : Prop := {
  wf_dram : ∀ k data, dram s !! k = Some data →
    ∃ m, meta s !! k = Some m ∧ bm_tier m = CpuDram ∧ bm_bytes m = Z.of_nat (length data);
  wf_ssd : ∀ k id, ssd s !! k = Some id → ∃ m, meta s !! k = Some m ∧ bm_tier m = LocalSsd;
  wf_meta : ∀ k m, meta s !! k = Some m → 0 ≤ bm_bytes m ∧
    (bm_tier m = CpuDram ∧ is_Some (dram s !! k) ∨ bm_tier m = LocalSsd ∧ is_Some (ssd s !! k));
  wf_dram_bytes : dram_bytes s = bytes_in CpuDram (meta s);
  wf_ssd_bytes : ssd_bytes s = bytes_in LocalSsd (meta s);
  wf_content : ∀ h k, in_idx (content s) h k ↔ h = block_hash k ∧ is_Some (meta s !! k);
  wf_no_empty : no_empty (content s)
}.

Lemma store_new_wf c1 c2 : store_wf (store_new c1 c2).
Proof.
  split; cbn.
  - intros k b Hk. by rewrite lookup_empty in Hk.
  - intros k b Hk. by rewrite lookup_empty in Hk.
  - intros k b Hk. by rewrite lookup_empty in Hk.
  - by rewrite bytes_in_empty.
  - by rewrite bytes_in_empty.
  - intros h k. rewrite lookup_empty. unfold in_idx. split; [intros (? & ? & ?); by rewrite lookup_empty in *|]. intros [_ [? ?]]. done.
  - intros h S Hh. by rewrite lookup_empty in Hh.
Qed.

(** Two stores with the same resident blocks. *)
Record same_blocks (s s' : LocalKvStore) : Prop := {
  sb_dram : dram s' = dram s;
  sb_ssd : ssd s' = ssd s;
  sb_meta : meta s' = meta s;
  sb_content : content s' = content s;
  sb_caps : dram_capacity s' = dram_capacity s ∧ ssd_capacity s' = ssd_capacity s;
  sb_bytes : dram_bytes s' = dram_bytes s ∧ ssd_bytes s' = ssd_bytes s;
  sb_next : next_file s' = next_file s
}.

Lemma same_blocks_wf s s' : same_blocks s s' → store_wf s → store_wf s'.
Proof. intros [E1 E2 E3 E4 _ [E5 E6] _] []. split; rewrite ?E1, ?E2, ?E3, ?E4, ?E5, ?E6; assumption. Qed.

Lemma meta_pos s : store_wf s → map_Forall (λ _ m, 0 ≤ bm_bytes m) (meta s).
Proof. intros Hwf k m Hk. by apply (wf_meta _ Hwf) in Hk as [? _]. Qed.

Lemma wf_dram_ssd s k : store_wf s → is_Some (dram s !! k) → is_Some (ssd s !! k) → False.
Proof.
  intros Hwf [b Hb] [i Hi]. apply (wf_dram _ Hwf) in Hb as (m & Hm & Ht & _).
  apply (wf_ssd _ Hwf) in Hi as (m' & Hm' & Ht'). congruence.
Qed.

(** The block is gone, everything else is as before. *)
Record removed (k : KvBlockKey) (s s' : LocalKvStore) : Prop := {
  rm_dram : dram s' = delete k (dram s);
  rm_ssd : ssd s' = delete k (ssd s);
  rm_meta : meta s' = delete k (meta s);
  rm_content : content s' = if meta s !! k then set_forget (block_hash k) k (content s) else content s;
  rm_caps : dram_capacity s' = dram_capacity s ∧ ssd_capacity s' = ssd_capacity s;
  rm_dram_bytes : dram_bytes s' = dram_bytes s - from_option (in_tier CpuDram) 0 (meta s !! k);
  rm_ssd_bytes : ssd_bytes s' = ssd_bytes s - from_option (in_tier LocalSsd) 0 (meta s !! k);
  rm_next : next_file s' = next_file s
}.

Lemma removed_wf k s s' : store_wf s → removed k s s' → store_wf s'.
Proof.
  intros Hwf [Hd Hs Hm Hc _ Hdb Hsb _]. pose proof Hwf as [W1 W2 W3 W4 W5 W6 W7]. split.
  - rewrite Hd, Hm. intros k' data [Hne Hk]%lookup_delete_Some. rewrite lookup_delete_ne by done. by apply W1.
  - rewrite Hs, Hm. intros k' id [Hne Hk]%lookup_delete_Some. rewrite lookup_delete_ne by done. by eapply W2.
  - rewrite Hd, Hs, Hm. intros k' m [Hne Hk]%lookup_delete_Some. rewrite !lookup_delete_ne by done. by apply W3.
  - rewrite Hdb, Hm, W4. destruct (meta s !! k) as [m|] eqn:E; cbn; [by rewrite (bytes_in_delete _ _ _ _ E)|].
    rewrite delete_id by done. lia.
  - rewrite Hsb, Hm, W5. destruct (meta s !! k) as [m|] eqn:E; cbn; [by rewrite (bytes_in_delete _ _ _ _ E)|].
    rewrite delete_id by done. lia.
  - intros h k'. rewrite Hc, Hm. destruct (meta s !! k) as [m|] eqn:E; cbn.
    + rewrite set_forget_in, W6, lookup_delete_is_Some. split.
      * intros [[-> ?] Hn]. split; [done|]. split; [|done]. intros ->. by apply Hn.
      * intros [-> [? ?]]. split; [done|]. intros [_ ->]. done.
    + by rewrite delete_id, W6.
  - rewrite Hc. destruct (meta s !! k); [by apply set_forget_no_empty|done].
Qed.

(** [remove_internal] and [drop_block] remove the block and issue the writes below. *)
Definition unlinked (k : KvBlockKey) (s : LocalKvStore) : list DiskOp :=
  match ssd s !! k with Some id => [Unlink id] | None => [] end.

Lemma sat_sub_le a b : b ≤ a → sat_sub a b = a - b.
Proof. unfold sat_sub. lia. Qed.

Section ops.
Context `{WalCodec} `{HashIter}.
Implicit Types s : LocalKvStore.

Lemma remove_internal_spec k s :
  store_wf s → removed k s (remove_internal k s).1 ∧ (remove_internal k s).2 = unlinked k s.
Proof.
  intros Hwf. unfold remove_internal, unlinked. destruct (meta s !! k) as [m|] eqn:E.
  - destruct (wf_meta _ Hwf _ _ E) as [Hpos Ht]. pose proof (in_tier_bounds _ (meta_pos _ Hwf) (bm_tier m) k m E) as Hb.
    rewrite in_tier_eq in Hb by done. destruct (decide (bm_tier m = LocalSsd)) as [Hl|Hl].
    + destruct Ht as [[? _]|[_ Hs]]; [congruence|]. split; [|done].
      assert (dram s !! k = None) as Hd by (apply eq_None_not_Some; eauto using wf_dram_ssd).
      rewrite Hl, <- (wf_ssd_bytes _ Hwf) in Hb.
      split; cbn; rewrite ?E; cbn; rewrite ?delete_id by done; rewrite ?sat_sub_le, ?in_tier_eq by (done || lia); try done.
      rewrite in_tier_ne by congruence. lia.
    + destruct Ht as [[Ht Hd]|[? _]]; [|congruence].
      assert (ssd s !! k = None) as Hs by (apply eq_None_not_Some; eauto using wf_dram_ssd).
      rewrite Ht, <- (wf_dram_bytes _ Hwf) in Hb. split; [|by rewrite Hs].
      split; cbn; rewrite ?E; cbn; rewrite ?(delete_id (ssd s)) by done; rewrite ?sat_sub_le, ?in_tier_eq by (done || lia); try done.
      rewrite in_tier_ne by congruence. lia.
  - assert (dram s !! k = None) as Hd.
    { apply eq_None_not_Some. intros [b Hb]. apply (wf_dram _ Hwf) in Hb as (? & ? & _). congruence. }
    assert (ssd s !! k = None) as Hs.
    { apply eq_None_not_Some. intros [b Hb]. apply (wf_ssd _ Hwf) in Hb as (? & ? & _). congruence. }
    rewrite Hs. split; [|done]. split; cbn; rewrite ?E, ?delete_id by done; cbn; (done || lia).
Qed.

Lemma drop_block_spec k s s' ok ops :
  store_wf s → drop_block k s = (ok, s', ops) →
  match meta s !! k with
  | None => ok = false ∧ s' = s ∧ ops = []
  | Some m => ok = true ∧ removed k s s' ∧
      ops = if decide (bm_tier m = LocalSsd) then AppendWal (wal_frame (WRemove k)) :: unlinked k s else []
  end.
Proof.
  intros Hwf. destruct (remove_internal_spec k s Hwf) as [[R1 R2 R3 R4 R5 R6 R7 R8] _]. revert R1 R2 R3 R4 R5 R6 R7 R8.
  unfold drop_block, remove_internal. destruct (meta s !! k) as [m|] eqn:E; [|by intros; simplify_eq].
  destruct (decide _); cbn; intros; simplify_eq; (split; [done|]); (split; [|done]); split; cbn; rewrite ?E; done.
Qed.

Lemma put_dram_spec k data s :
  store_wf s → let s' := (put_dram k data s).1 in
  dram s' = <[k := data]> (dram s) ∧ ssd s' = delete k (ssd s) ∧
  meta s' = <[k := mkMeta CpuDram (Z.of_nat (length data)) (clock s + 1)]> (meta s) ∧
  next_file s' = next_file s ∧ dram_capacity s' = dram_capacity s ∧ ssd_capacity s' = ssd_capacity s ∧
  store_wf s' ∧ (put_dram k data s).2 = unlinked k s.
Proof.
  intros Hwf. unfold put_dram, store_tick. cbn zeta.
  set (s1 := mkStore _ _ _ _ _ _ _ _ _ _ _ _ _ _).
  assert (same_blocks s s1) as Hsb by done. pose proof (same_blocks_wf _ _ Hsb Hwf) as Hwf1.
  destruct (remove_internal_spec k s1 Hwf1) as [Hrm Hops]. pose proof (removed_wf _ _ _ Hwf1 Hrm) as Hwf2.
  destruct (remove_internal k s1) as [s2 ops]. cbn in Hrm, Hops, Hwf2. destruct Hrm as [R1 R2 R3 R4 R5 R6 R7 R8].
  cbn in *. destruct R5 as [Hc1 Hc2].
  assert (meta s2 !! k = None) as Hk by (rewrite R3; apply lookup_delete_eq).
  split_and!; [by rewrite R1, insert_delete_eq|done|by rewrite R3, insert_delete_eq|done..| |done].
  destruct Hwf2 as [W1 W2 W3 W4 W5 W6 W7]. split; cbn.
  - intros k' b. destruct (decide (k = k')) as [<-|Hne].
    + rewrite !lookup_insert_eq. intros [= <-]. eauto.
    + rewrite !lookup_insert_ne by done. apply W1.
  - intros k' i Hi. destruct (decide (k = k')) as [<-|Hne]; [by rewrite R2, lookup_delete_eq in Hi|].
    rewrite lookup_insert_ne by done. by eapply W2.
  - intros k' m. destruct (decide (k = k')) as [<-|Hne].
    + rewrite !lookup_insert_eq. intros [= <-]. cbn. split; [lia|]. left. eauto.
    + rewrite !lookup_insert_ne by done. apply W3.
  - rewrite bytes_in_insert, W4, in_tier_eq by done. cbn. lia.
  - rewrite bytes_in_insert, W5, in_tier_ne by done. lia.
  - intros h k'. rewrite set_add_in, W6, lookup_insert_is_Some'. naive_solver.
  - by apply set_add_no_empty.
Qed.

Lemma demote_spec k s s' ok ops :
  store_wf s → demote_to_ssd k s = (ok, s', ops) →
  match dram s !! k with
  | None => ok = false ∧ s' = s ∧ ops = []
  | Some data => ok = true ∧ store_wf s' ∧ let id := next_file s + 1 in
      dram s' = delete k (dram s) ∧ ssd s' = <[k := id]> (ssd s) ∧ meta s' = alter (set_tier LocalSsd) k (meta s) ∧
      next_file s' = id ∧ dram_capacity s' = dram_capacity s ∧ ssd_capacity s' = ssd_capacity s ∧
      ops = [WriteFile id data; AppendWal (wal_frame (WCommit k id (Z.of_nat (length data)) (wal_crc data)))]
  end.
Proof.
  intros Hwf. unfold demote_to_ssd. destruct (dram s !! k) as [data|] eqn:E; [|by intros; simplify_eq].
  intros [= <- <- <-]. split; [done|]. split; [|by cbn]. pose proof Hwf as [W1 W2 W3 W4 W5 W6 W7].
  destruct (W1 _ _ E) as (m & Hm & Ht & Hb).
  assert (alter (set_tier LocalSsd) k (meta s) = <[k := set_tier LocalSsd m]> (meta s)) as Ha.
  { apply map_eq. intros k'. destruct (decide (k = k')) as [<-|]; [by rewrite lookup_alter_eq, lookup_insert_eq, Hm|].
    by rewrite lookup_alter_ne, lookup_insert_ne. }
  pose proof (in_tier_bounds _ (meta_pos _ Hwf) CpuDram k m Hm) as Hbd. rewrite in_tier_eq, <- W4 in Hbd by done.
  split; cbn; rewrite ?Ha.
  - intros k' b [Hne Hk]%lookup_delete_Some. rewrite lookup_insert_ne by done. by apply W1.
  - intros k' i. destruct (decide (k = k')) as [<-|]; [rewrite !lookup_insert_eq; eauto|]. rewrite !lookup_insert_ne by done. apply W2.
  - intros k' m'. destruct (decide (k = k')) as [<-|].
    + rewrite !lookup_insert_eq. intros [= <-]. cbn. split; [lia|]. right. eauto.
    + rewrite !lookup_insert_ne, lookup_delete_ne by done. apply W3.
  - rewrite (bytes_in_update _ _ _ m) by done. rewrite sat_sub_le by lia. rewrite in_tier_ne, in_tier_eq by done. lia.
  - rewrite (bytes_in_update _ _ _ m) by done. rewrite in_tier_eq, in_tier_ne by (done || congruence). cbn. lia.
  - intros h k'. rewrite W6, lookup_insert_is_Some'. naive_solver.
  - done.
Qed.

(** ** Capacity *)

Lemma coldest_in_spec t s :
  match coldest_in t s with
  | None => map_Forall (λ _ m, bm_tier m ≠ t) (meta s)
  | Some k => ∃ m, meta s !! k = Some m ∧ bm_tier m = t ∧
      ∀ k' m', meta s !! k' = Some m' → bm_tier m' = t → bm_last_access m ≤ bm_last_access m'
  end.
Proof.
  unfold coldest_in. set (l := filter _ _).
  assert (∀ k m, (k, m) ∈ l ↔ meta s !! k = Some m ∧ bm_tier m = t) as Hl.
  { intros k m. unfold l. rewrite list_elem_of_filter, elem_of_hiter. cbn. naive_solver. }
  destruct (min_by _ l) as [[k m]|] eqn:Em; cbn.
  - destruct (min_by_is_first_min _ (StrictWeak0 := sw_by_key (λ x : KvBlockKey * BlockMeta, bm_last_access x.2)) _ _ Em) as (i & Hi & Hmin & _).
    apply list_elem_of_lookup_2, Hl in Hi as [Hk Ht]. exists m. split_and!; [done..|]. intros k' m' Hk' Ht'.
    assert ((k', m') ∈ l) as [j Hj]%list_elem_of_lookup by (by apply Hl). apply Hmin in Hj. cbn in Hj. by apply Z.ltb_ge in Hj.
  - apply min_by_nil in Em. intros k m Hk Ht. assert ((k, m) ∈ l) as Hin by (by apply Hl). rewrite Em in Hin. by apply not_elem_of_nil in Hin.
Qed.

(** Demotions and evictions of the coldest blocks, with the blocks evicted and the writes issued. *)
Inductive kv_steps : LocalKvStore → list KvBlockKey → list DiskOp → LocalKvStore → Prop :=
| ks_refl s : kv_steps s [] [] s
| ks_demote s k s1 ops1 ev ops s' :
    coldest_in CpuDram s = Some k → demote_to_ssd k s = (true, s1, ops1) → kv_steps s1 ev ops s' →
    kv_steps s ev (ops1 ++ ops) s'
| ks_drop s k s1 ops1 ev ops s' :
    coldest_in LocalSsd s = Some k → drop_block k s = (true, s1, ops1) → kv_steps s1 ev ops s' →
    kv_steps s (k :: ev) (ops1 ++ ops) s'.

Lemma kv_steps_trans s ev ops s1 ev' ops' s' :
  kv_steps s ev ops s1 → kv_steps s1 ev' ops' s' → kv_steps s (ev ++ ev') (ops ++ ops') s'.
Proof. induction 1; intros; cbn; rewrite <- ?app_assoc; [done|eapply ks_demote; eauto|eapply ks_drop; eauto]. Qed.

Lemma demote_ok k s s' ops :
  store_wf s → demote_to_ssd k s = (true, s', ops) → ∃ data, dram s !! k = Some data ∧ store_wf s' ∧ let id := next_file s + 1 in
      dram s' = delete k (dram s) ∧ ssd s' = <[k := id]> (ssd s) ∧ meta s' = alter (set_tier LocalSsd) k (meta s) ∧
      next_file s' = id ∧ dram_capacity s' = dram_capacity s ∧ ssd_capacity s' = ssd_capacity s ∧
      ops = [WriteFile id data; AppendWal (wal_frame (WCommit k id (Z.of_nat (length data)) (wal_crc data)))].
Proof. intros Hwf Hd. pose proof (demote_spec _ _ _ _ _ Hwf Hd) as Hs. destruct (dram s !! k) as [b|]; [|naive_solver]. exists b. naive_solver. Qed.

Lemma drop_ok k s s' ops :
  store_wf s → drop_block k s = (true, s', ops) → ∃ m, meta s !! k = Some m ∧ removed k s s' ∧
    ops = if decide (bm_tier m = LocalSsd) then AppendWal (wal_frame (WRemove k)) :: unlinked k s else [].
Proof. intros Hwf Hd. pose proof (drop_block_spec _ _ _ _ _ Hwf Hd) as Hs. destruct (meta s !! k) as [m|]; [|naive_solver]. exists m. naive_solver. Qed.

Lemma kv_steps_wf s ev ops s' : store_wf s → kv_steps s ev ops s' → store_wf s'.
Proof.
  intros Hwf Hst. induction Hst as [|?????????? IH|?????????? IH]; [done|apply IH..].
  - by eapply demote_ok in Hwf as (? & _ & ? & _).
  - pose proof Hwf as Hwf'. eapply drop_ok in Hwf as (? & _ & ? & _); [|done]. by eapply removed_wf.
Qed.

Lemma dom_demote M k : dom (alter (set_tier LocalSsd) k M : gmap KvBlockKey BlockMeta) = dom M.
Proof. apply dom_alter_L. Qed.

Lemma demote_loop_spec fuel s ops :
  store_wf s → 0 ≤ dram_capacity s → (size (dram s) < fuel)%nat →
  ∃ s' ops', demote_loop fuel s ops = Some (s', ops ++ ops') ∧ kv_steps s [] ops' s' ∧
    dram_bytes s' ≤ dram_capacity s' ∧ dram_capacity s' = dram_capacity s ∧ ssd_capacity s' = ssd_capacity s ∧
    dom (meta s') = dom (meta s).
Proof.
  revert s ops. induction fuel as [|fuel IH]; intros s ops Hwf Hcap Hf; [lia|]. cbn [demote_loop].
  destruct (Z.ltb_spec (dram_capacity s) (dram_bytes s)) as [Hover|Hfit].
  2: { exists s, []. rewrite app_nil_r. split_and!; try done; try lia; constructor. }
  pose proof (coldest_in_spec CpuDram s) as Hc. destruct (coldest_in CpuDram s) as [k|] eqn:Ec.
  2: { exists s, []. rewrite app_nil_r. split_and!; try done; [constructor|..]. rewrite (wf_dram_bytes _ Hwf), bytes_in_zero by done. lia. }
  destruct Hc as (m & Hm & Ht & _). destruct (wf_meta _ Hwf _ _ Hm) as [_ [[_ [b Hb]]|[? _]]]; [|congruence].
  destruct (demote_to_ssd k s) as [[ok s1] ops1] eqn:Ed. pose proof (demote_spec _ _ _ _ _ Hwf Ed) as Hs. rewrite Hb in Hs.
  destruct Hs as (-> & Hwf1 & Hd & _ & Hmt & _ & Hc1 & Hc2 & _).
  destruct (IH s1 (ops ++ ops1) Hwf1) as (s' & ops' & -> & Hst & ? & ? & ? & ?).
  { lia. } { rewrite Hd, map_size_delete, Hb. pose proof (map_size_ne_0_lookup_2 (dram s) k ltac:(eauto)). lia. }
  exists s', (ops1 ++ ops'). rewrite app_assoc. split_and!; try congruence; [by eapply ks_demote|].
  rewrite <- (dom_demote (meta s) k), <- Hmt. done.
Qed.

Lemma evict_loop_spec fuel s ops ev :
  store_wf s → 0 ≤ ssd_capacity s → (size (meta s) < fuel)%nat →
  ∃ s' ops' ev', evict_loop fuel s ops ev = Some (s', ops ++ ops', ev ++ ev') ∧ kv_steps s ev' ops' s' ∧
    ssd_bytes s' ≤ ssd_capacity s' ∧ dram_bytes s' = dram_bytes s ∧ dram_capacity s' = dram_capacity s ∧ ssd_capacity s' = ssd_capacity s.
Proof.
  revert s ops ev. induction fuel as [|fuel IH]; intros s ops ev Hwf Hcap Hf; [lia|]. cbn [evict_loop].
  destruct (Z.ltb_spec (ssd_capacity s) (ssd_bytes s)) as [Hover|Hfit].
  2: { exists s, [], []. rewrite !app_nil_r. split_and!; try done; try lia; constructor. }
  pose proof (coldest_in_spec LocalSsd s) as Hc. destruct (coldest_in LocalSsd s) as [k|] eqn:Ec.
  2: { exists s, [], []. rewrite !app_nil_r. split_and!; try done; [constructor|..]. rewrite (wf_ssd_bytes _ Hwf), bytes_in_zero by done. lia. }
  destruct Hc as (m & Hm & Ht & _).
  destruct (drop_block k s) as [[ok s1] ops1] eqn:Ed. pose proof (drop_block_spec _ _ _ _ _ Hwf Ed) as Hs. rewrite Hm in Hs.
  destruct Hs as (-> & Hrm & _). pose proof (removed_wf _ _ _ Hwf Hrm) as Hwf1. destruct Hrm as [_ _ Hmt _ [Hc1 Hc2] Hdb _ _].
  destruct (IH s1 (ops ++ ops1) (ev ++ [k]) Hwf1) as (s' & ops' & ev' & -> & Hst & ? & ? & ? & ?).
  { lia. } { rewrite Hmt, map_size_delete, Hm. pose proof (map_size_ne_0_lookup_2 (meta s) k ltac:(eauto)). lia. }
  exists s', (ops1 ++ ops'), (k :: ev'). rewrite <- !app_assoc. rewrite Hm in Hdb. cbn in Hdb. rewrite in_tier_ne in Hdb by congruence.
  split_and!; try congruence; [done|by eapply ks_drop|lia].
Qed.

Lemma size_dram_meta s : store_wf s → (size (dram s) ≤ size (meta s))%nat.
Proof.
  intros Hwf. rewrite <- !size_dom. apply subseteq_size. intros k [b Hb]%elem_of_dom. apply elem_of_dom.
  apply (wf_dram _ Hwf) in Hb as (m & Hm & _). by exists m.
Qed.

(** [enforce_capacity] terminates with both tiers within their budgets. *)
Lemma enforce_capacity_spec s :
  store_wf s → 0 ≤ dram_capacity s → 0 ≤ ssd_capacity s →
  ∃ s' ops ev, enforce_capacity s = Some (s', ops, ev) ∧ kv_steps s ev ops s' ∧
    dram_bytes s' ≤ dram_capacity s ∧ ssd_bytes s' ≤ ssd_capacity s.
Proof.
  intros Hwf Hc1 Hc2. unfold enforce_capacity.
  destruct (demote_loop_spec (S (size (meta s))) s [] Hwf Hc1) as (s1 & ops1 & -> & Hst1 & Hb1 & Hd1 & Hs1 & Hdom).
  { pose proof (size_dram_meta s Hwf). lia. }
  cbn [mbind option_bind]. pose proof (kv_steps_wf _ _ _ _ Hwf Hst1) as Hwf1.
  destruct (evict_loop_spec (S (size (meta s))) s1 [] [] Hwf1) as (s2 & ops2 & ev & -> & Hst2 & Hb2 & Hd2 & ? & ?).
  { lia. } { rewrite <- !size_dom, Hdom. lia. }
  cbn [mbind option_bind]. exists s2, (ops1 ++ ops2), ev. split_and!; [done| |lia|lia].
  apply (kv_steps_trans _ [] ops1 s1 ev ops2 s2 Hst1 Hst2).
Qed.
End ops.
