(* ===== verification/KvCrash.v ===== *)
(** * The local KV byte store: contents and crash recovery

    [disk_inv] relates memory to the disk: the log is the frames of a list of records and
    at most one torn frame, every SSD block's file holds the bytes its last commit names,
    and a commit whose block has left the SSD tier names a file that is gone.  Each
    primitive keeps it, at every point a crash can stop it; recovery rebuilds the SSD tier
    of any state that satisfies it. *)
From S2P Require Import Prelude Identity MemIndex MemIndexProofs Router RouterPlan OpLog KvStore KvStoreProofs.

Section crash.
Context `{WalCodec} `{HashIter}.
Implicit Types (s : LocalKvStore) (d : SsdDir).
Notation Live := (gmap KvBlockKey (Z * Z * Z)).

(** ** The log *)

Definition wal_fits (r : WalRecord) : Prop := Z.of_nat (length (wal_encode r)) ≤ u32_max.
Definition wal_frames (rs : list WalRecord) : Bytes := rs ≫= wal_frame.
Definition live_of (rs : list WalRecord) : Live := foldl wal_apply ∅ rs.

(** What a crash leaves of the frame being appended. *)
Definition torn (t : Bytes) : Prop := t = [] ∨ ∃ r n, wal_fits r ∧ (n < length (wal_frame r))%nat ∧ t = take n (wal_frame r).

Lemma length_wal_frame r : length (wal_frame r) = (8 + length (wal_encode r))%nat.
Proof. unfold wal_frame. rewrite !length_app. done. Qed.

Lemma wal_frame_eq r :
  wal_fits r → wal_frame r = le_bytes (Z.of_nat (length (wal_encode r))) ++ le_bytes (wal_crc (wal_encode r)) ++ wal_encode r ∧
  is_u32 (Z.of_nat (length (wal_encode r))).
Proof.
  unfold wal_fits. intros Hf. assert (is_u32 (Z.of_nat (length (wal_encode r)))) as Hu by (unfold is_u32; lia).
  split; [|done]. unfold wal_frame. by rewrite land_u32_small.
Qed.

Lemma wal_replay_frame fuel r rest live :
  wal_fits r → wal_replay_loop (S fuel) (wal_frame r ++ rest) live = wal_replay_loop fuel rest (wal_apply live r).
Proof.
  intros Hfit. destruct (wal_frame_eq r Hfit) as [-> Hu]. rewrite <- !app_assoc. set (p := wal_encode r) in *. cbn [wal_replay_loop].
  assert (8 <=? length (le_bytes (Z.of_nat (length p)) ++ le_bytes (wal_crc p) ++ p ++ rest) = true)%nat as ->.
  { apply Nat.leb_le. rewrite !length_app. simpl. lia. }
  destruct (header_split (Z.of_nat (length p)) (wal_crc p) (p ++ rest)) as (-> & -> & ->).
  rewrite !from_le_bytes by (done || apply wal_crc_u32). cbn [mbind option_bind].
  rewrite (proj2 (Z.ltb_ge _ _)) by (rewrite length_app; lia).
  rewrite Nat2Z.id, take_app_length, drop_app_length, Z.eqb_refl. cbn [negb]. unfold p. by rewrite wal_decode_encode.
Qed.

Lemma wal_replay_torn t fuel live : torn t → (length t ≤ fuel)%nat → wal_replay_loop fuel t live = Some live.
Proof.
  intros [->|(r & n & Hfit & Hn & ->)] Hf; [by destruct fuel|].
  rewrite length_wal_frame in Hn. destruct (wal_frame_eq r Hfit) as [Hfe Hu].
  assert (length (take n (wal_frame r)) = n) as Hlen by (rewrite length_take, length_wal_frame; lia). rewrite Hlen in Hf.
  destruct (Nat.leb_spec 8 n) as [H8|H8].
  - destruct fuel as [|fuel]; [lia|]. cbn [wal_replay_loop]. rewrite Hlen, (proj2 (Nat.leb_le 8 n)) by done.
    destruct (header_split (Z.of_nat (length (wal_encode r))) (wal_crc (wal_encode r)) (wal_encode r)) as (Ha & Hb & _).
    rewrite <- Hfe in Ha, Hb.
    assert (take 4 (take n (wal_frame r)) = take 4 (wal_frame r)) as -> by (rewrite take_take; f_equal; lia).
    assert (take 4 (drop 4 (take n (wal_frame r))) = take 4 (drop 4 (wal_frame r))) as ->
      by (rewrite !take_drop_commute, take_take; do 2 f_equal; lia).
    rewrite Ha, Hb, !from_le_bytes by (done || apply wal_crc_u32). cbn [mbind option_bind].
    rewrite (proj2 (Z.ltb_lt _ _)) by (rewrite length_drop, Hlen; lia). done.
  - destruct fuel; cbn [wal_replay_loop]; rewrite Hlen, (proj2 (Nat.leb_gt 8 n)) by lia; done.
Qed.

Lemma wal_replay_frames rs t :
  Forall wal_fits rs → torn t → wal_replay (wal_frames rs ++ t) = Some (live_of rs).
Proof.
  intros Hfit Ht. unfold wal_replay, live_of. generalize (∅ : Live).
  assert (length (wal_frames rs ++ t) ≤ length (wal_frames rs ++ t))%nat as Hfuel by done.
  revert Hfuel. generalize (length (wal_frames rs ++ t)) at 2 3. induction Hfit as [|r rs Hr Hfit IH]; intros fuel Hfuel live.
  { by apply wal_replay_torn. }
  change (wal_frames (r :: rs)) with (wal_frame r ++ wal_frames rs) in *.
  rewrite <- app_assoc, length_app, length_wal_frame in Hfuel. destruct fuel as [|fuel]; [lia|].
  rewrite <- app_assoc, wal_replay_frame by done. cbn. apply IH. lia.
Qed.

Lemma wal_frames_snoc rs r : wal_frames (rs ++ [r]) = wal_frames rs ++ wal_frame r.
Proof. unfold wal_frames. rewrite bind_app. cbn. by rewrite app_nil_r. Qed.

Lemma live_of_snoc rs r : live_of (rs ++ [r]) = wal_apply (live_of rs) r.
Proof. apply foldl_snoc. Qed.

(** Frames are self-delimiting. *)
Lemma frame_length r x r' y :
  wal_fits r → wal_fits r' → take 4 (wal_frame r ++ x) = take 4 (wal_frame r' ++ y) → length (wal_frame r) = length (wal_frame r').
Proof.
  intros Hr Hr'. destruct (wal_frame_eq r Hr) as [Er Hu], (wal_frame_eq r' Hr') as [Er' Hu']. rewrite !length_wal_frame.
  rewrite Er, Er', <- !app_assoc. intros E.
  destruct (header_split (Z.of_nat (length (wal_encode r))) (wal_crc (wal_encode r)) (wal_encode r ++ x)) as (Ha & _).
  destruct (header_split (Z.of_nat (length (wal_encode r'))) (wal_crc (wal_encode r')) (wal_encode r' ++ y)) as (Ha' & _).
  rewrite Ha, Ha' in E. apply (f_equal from_le) in E. rewrite !from_le_bytes in E by done. simplify_eq. lia.
Qed.

(** A log of whole frames: what a crash leaves when it tears no frame. *)
Definition whole_log d : Prop := ∃ rs, Forall wal_fits rs ∧ wal d = wal_frames rs.

Lemma whole_not_torn rs t rs' :
  Forall wal_fits rs → torn t → Forall wal_fits rs' → wal_frames rs ++ t = wal_frames rs' → t = [].
Proof.
  intros Hrs Ht. revert rs'. induction Hrs as [|r rs Hr Hrs IH]; intros rs' Hrs' E.
  - destruct Ht as [->|(r & n & Hr & Hn & ->)]; [done|]. cbn in E. destruct Hrs' as [|r' rs' Hr' Hrs']; [done|]. exfalso.
    change (wal_frames (r' :: rs')) with (wal_frame r' ++ wal_frames rs') in E.
    pose proof (f_equal length E) as Hl. rewrite length_take, length_app in Hl. pose proof (length_wal_frame r').
    assert (length (wal_frame r) = length (wal_frame r')); [|lia].
    apply (frame_length r [] r' (wal_frames rs')); [done..|]. rewrite app_nil_r, <- E, take_take. f_equal. lia.
  - change (wal_frames (r :: rs)) with (wal_frame r ++ wal_frames rs) in E. rewrite <- app_assoc in E. destruct Hrs' as [|r' rs' Hr' Hrs'].
    { apply (f_equal length) in E. rewrite length_app, length_wal_frame in E. simpl in E. lia. }
    change (wal_frames (r' :: rs')) with (wal_frame r' ++ wal_frames rs') in E.
    apply app_inj_1 in E as [_ E]; [by apply (IH rs')|]. eapply (frame_length r _ r' _); [done..|]. by rewrite E.
Qed.

(** ** The disk invariant *)

Record disk_inv s d (rs : list WalRecord) (t : Bytes) : Prop := {
  di_wal : wal d = wal_frames rs ++ t;
  di_torn : torn t;
  di_fits : Forall wal_fits rs;
  di_ssd : ∀ k id, ssd s !! k = Some id → ∃ b, files d !! id = Some b ∧
    live_of rs !! k = Some (id, Z.of_nat (length b), wal_crc b) ∧ bm_bytes <$> meta s !! k = Some (Z.of_nat (length b));
  di_live : ∀ k id len crc, live_of rs !! k = Some (id, len, crc) →
    0 ≤ len ∧ id ≤ next_file s ∧ (ssd s !! k = Some id ∨ ssd s !! k = None ∧ files d !! id = None);
  di_inj : ∀ k k' id e e', live_of rs !! k = Some (id, e.1, e.2) → live_of rs !! k' = Some (id, e'.1, e'.2) → k = k'
}.

(** ** Recovery *)

(** The store built from the verified ones among the commits [l]. *)
Record recovered d (l : list (KvBlockKey * (Z * Z * Z))) s : Prop := {
  rc_wf : store_wf s;
  rc_dram : dram s = ∅;
  rc_ssd : ∀ k id, ssd s !! k = Some id ↔ ∃ len crc, (k, (id, len, crc)) ∈ l ∧ verified d (id, len, crc) = true;
  rc_meta : ∀ k m, meta s !! k = Some m → ∃ id len crc, (k, (id, len, crc)) ∈ l ∧ m = mkMeta LocalSsd len 0;
  rc_next : ∀ k id, ssd s !! k = Some id → id ≤ next_file s
}.

Lemma recover_add_recovered d l s k id len crc :
  k ∉ l.*1 → 0 ≤ len → recovered d l s → recovered d (l ++ [(k, (id, len, crc))]) (recover_add d s (k, (id, len, crc))).
Proof.
  intros Hk Hlen [Hwf Hd Hs Hm Hn]. cbn [recover_add].
  assert (∀ x, (k, x) ∈ l → False) as Hnk by (intros x Hx; apply Hk, (list_elem_of_fmap_2' _ _ (k, x)); done).
  destruct (verified d (id, len, crc)) eqn:Ev.
  2: { split; [done..| | |done].
    - intros k' id'. rewrite Hs. setoid_rewrite elem_of_app. setoid_rewrite list_elem_of_singleton. split.
      + intros (len' & crc' & ? & ?). exists len', crc'. eauto.
      + intros (len' & crc' & [?|[= -> -> -> ->]] & ?); [eauto|congruence].
    - intros k' m (id' & len' & crc' & Hin & ->)%Hm. exists id', len', crc'. set_solver. }
  assert (meta s !! k = None) as Hmk.
  { apply eq_None_not_Some. intros [m Hk']. apply Hm in Hk' as (? & ? & ? & Hin & _). by apply Hnk in Hin. }
  assert (ssd s !! k = None) as Hsk.
  { apply eq_None_not_Some. intros [i Hi]. apply (wf_ssd _ Hwf) in Hi as (? & ? & _). congruence. }
  pose proof Hwf as [W1 W2 W3 W4 W5 W6 W7]. split; cbn; [split; cbn|done|..].
  - rewrite Hd. intros k' b Hb. by rewrite lookup_empty in Hb.
  - intros k' i. destruct (decide (k = k')) as [<-|]; [rewrite !lookup_insert_eq; eauto|]. rewrite !lookup_insert_ne by done. apply W2.
  - intros k' m. destruct (decide (k = k')) as [<-|].
    + rewrite !lookup_insert_eq. intros [= <-]. cbn. split; [done|]. right. eauto.
    + rewrite !lookup_insert_ne by done. apply W3.
  - rewrite bytes_in_insert, in_tier_ne, W4 by done. lia.
  - rewrite bytes_in_insert, in_tier_eq, W5 by done. cbn. lia.
  - intros h k'. rewrite set_add_in, W6, lookup_insert_is_Some'. naive_solver.
  - by apply set_add_no_empty.
  - intros k' id'. setoid_rewrite elem_of_app. setoid_rewrite list_elem_of_singleton. destruct (decide (k = k')) as [<-|].
    + rewrite lookup_insert_eq. split; [intros [= <-]; eauto|]. intros (? & ? & [Hin|[= -> -> ->]] & ?); [by apply Hnk in Hin|done].
    + rewrite lookup_insert_ne, Hs by done. split; intros (len' & crc' & Hin & ?); exists len', crc'; (split; [|done]); [by left|].
      destruct Hin as [?|[= -> -> -> ->]]; done.
  - intros k' m. setoid_rewrite elem_of_app. setoid_rewrite list_elem_of_singleton. destruct (decide (k = k')) as [<-|].
    + rewrite lookup_insert_eq. intros [= <-]. exists id, len, crc. eauto.
    + rewrite lookup_insert_ne by done. intros (? & ? & ? & ? & ->)%Hm. eauto 7.
  - intros k' id'. destruct (decide (k = k')) as [<-|].
    + rewrite lookup_insert_eq. intros [= <-]. lia.
    + rewrite lookup_insert_ne by done. intros Hi%Hn. lia.
Qed.

Lemma recover_recovered d l c1 c2 :
  NoDup l.*1 → (∀ k id len crc, (k, (id, len, crc)) ∈ l → 0 ≤ len) →
  recovered d l (foldl (recover_add d) (store_new c1 c2) l).
Proof.
  induction l as [|[k [[id len] crc]] l IH] using rev_ind; intros Hnd Hpos.
  { split; cbn; [apply store_new_wf|done|..].
    - intros k id. rewrite lookup_empty. split; [done|]. intros (? & ? & Hin & _). by apply not_elem_of_nil in Hin.
    - intros k m Hm. by rewrite lookup_empty in Hm.
    - intros k m Hm. by rewrite lookup_empty in Hm. }
  rewrite fmap_app in Hnd. apply NoDup_app in Hnd as (Hnd & Hdis & _). rewrite foldl_snoc. apply recover_add_recovered.
  - intros Hin. apply (Hdis k Hin). set_solver.
  - apply (Hpos k id len crc). set_solver.
  - apply IH; [done|]. intros k' id' len' crc' Hin. apply (Hpos k' id' len' crc'). set_solver.
Qed.

(** Recovery brings back exactly the SSD tier of the state the disk belongs to. *)
Lemma recover_disk_inv s d rs t c1 c2 :
  disk_inv s d rs t →
  ∃ s', store_recover d c1 c2 = Some s' ∧ store_wf s' ∧ ssd s' = ssd s ∧ dram s' = ∅ ∧
    (t = [] → (∀ k, is_Some (live_of rs !! k) → is_Some (ssd s !! k)) → disk_inv s' d rs []).
Proof.
  intros Hinv. unfold store_recover. rewrite (di_wal _ _ _ _ Hinv), wal_replay_frames by (apply Hinv). cbn [mbind option_bind].
  eexists. split; [done|].
  destruct (recover_recovered d (hiter (live_of rs)) c1 c2) as [Rwf Rd Rs Rm Rn].
  { apply NoDup_hkeys. } { intros k id len crc Hin%elem_of_hiter. by apply (di_live _ _ _ _ Hinv) in Hin as (? & _). }
  set (s' := foldl _ _ _) in *.
  assert (ssd s' = ssd s) as Hssd.
  { apply map_eq. intros k. apply option_eq. intros id. rewrite Rs. setoid_rewrite elem_of_hiter. split.
    - intros (len & crc & Hk & Hv). apply (di_live _ _ _ _ Hinv) in Hk as (_ & _ & [?|[_ Hf]]); [done|]. cbn in Hv. by rewrite Hf in Hv.
    - intros Hk. apply (di_ssd _ _ _ _ Hinv) in Hk as (b & Hf & Hk & _). eexists _, _. split; [done|]. cbn. by rewrite Hf, !Z.eqb_refl. }
  split_and!; [done..|]. intros -> Hall. split; try apply Hinv.
  - rewrite Hssd. intros k id Hk. pose proof (di_ssd _ _ _ _ Hinv _ _ Hk) as (b & Hf & Hl & _). exists b. split_and!; [done..|].
    rewrite <- Hssd in Hk. apply (wf_ssd _ Rwf) in Hk as (m & Hm & _). rewrite Hm. cbn. f_equal.
    apply Rm in Hm as (? & ? & ? & Hin%elem_of_hiter & ->). cbn. rewrite Hl in Hin. by simplify_eq.
  - rewrite Hssd. intros k id len crc Hk. pose proof (di_live _ _ _ _ Hinv _ _ _ _ Hk) as (Hlen & _ & [Hs|[Hs _]]).
    + split_and!; [done| |by left]. apply (Rn k). by rewrite Hssd.
    + destruct (Hall k) as [? ?]; [eauto|congruence].
Qed.

(** ** Crashes *)

(** The disks a crash can leave while the writes [ops] are being issued on [d]: a prefix of
    them, the last one possibly torn. *)
Inductive crashed : SsdDir → list DiskOp → SsdDir → Prop :=
| cr_here d ops : crashed d ops d
| cr_torn_file d id data n ops : crashed d (WriteFile id data :: ops) (disk_op d (WriteFile id (take n data)))
| cr_torn_wal d bs n ops : crashed d (AppendWal bs :: ops) (disk_op d (AppendWal (take n bs)))
| cr_next d o ops d' : crashed (disk_op d o) ops d' → crashed d (o :: ops) d'.

Lemma crashed_app d ops1 ops2 d' :
  crashed d (ops1 ++ ops2) d' → crashed d ops1 d' ∨ crashed (disk_ops d ops1) ops2 d'.
Proof.
  revert d. induction ops1 as [|o ops1 IH]; intros d; cbn; [by right|]. inversion 1; subst; try (left; by constructor).
  edestruct IH as [?|?]; [done|left; by constructor|by right].
Qed.

Lemma crashed_nil d d' : crashed d [] d' → d' = d.
Proof. by inversion 1. Qed.

(** Every frame appended holds a payload whose length fits its [u32]. *)
Definition op_fits (o : DiskOp) : Prop :=
  match o with AppendWal bs => Z.of_nat (length bs) ≤ 8 + u32_max | _ => True end.

Lemma wal_frame_fits r : op_fits (AppendWal (wal_frame r)) → wal_fits r.
Proof. unfold op_fits, wal_fits. rewrite length_wal_frame. lia. Qed.

Lemma torn_prefix r n : wal_fits r → torn (take n (wal_frame r)) ∨ take n (wal_frame r) = wal_frame r.
Proof.
  intros Hf. destruct (decide (n < length (wal_frame r))%nat); [left; right; eauto|right]. apply take_ge. lia.
Qed.

(** Files that no commit names do not matter. *)
Lemma disk_inv_file s d rs t id b :
  next_file s < id → disk_inv s d rs t → disk_inv s (disk_op d (WriteFile id b)) rs t.
Proof.
  intros Hid [I1 I2 I3 I4 I5 I6]. split; cbn; try done.
  - intros k i Hk. pose proof (I4 _ _ Hk) as (b' & Hb & Hl & Hm). exists b'. apply I5 in Hl as Hle. rewrite lookup_insert_ne by lia. done.
  - intros k i len crc Hk. pose proof (I5 _ _ _ _ Hk) as (? & Hle & Ho). rewrite lookup_insert_ne by lia. done.
Qed.

Lemma disk_inv_torn s d rs bs : torn bs → disk_inv s d rs [] → disk_inv s (disk_op d (AppendWal bs)) rs bs.
Proof. intros Ht [I1 I2 I3 I4 I5 I6]. split; cbn; try done. by rewrite I1, app_nil_r. Qed.

(** Only the SSD tier, the sizes and [next_file] matter. *)
Lemma disk_inv_ext s s' d rs t :
  disk_inv s d rs t → ssd s' = ssd s → next_file s' = next_file s → (∀ k, is_Some (ssd s !! k) → bm_bytes <$> meta s' !! k = bm_bytes <$> meta s !! k) →
  disk_inv s' d rs t.
Proof.
  intros [I1 I2 I3 I4 I5 I6] Hs Hn Hm. split; rewrite ?Hs, ?Hn; try done.
  intros k id Hk. rewrite Hm by eauto. by apply I4.
Qed.

(** The block leaves the SSD tier: its file is unlinked. *)
Lemma disk_inv_unlink s s' d rs k t :
  disk_inv s d rs t → ssd s' = delete k (ssd s) → next_file s' = next_file s →
  (∀ k', k' ≠ k → bm_bytes <$> meta s' !! k' = bm_bytes <$> meta s !! k') →
  disk_inv s' (disk_ops d (unlinked k s)) rs t.
Proof.
  intros Hinv Hs Hn Hm. pose proof Hinv as [I1 I2 I3 I4 I5 I6]. unfold unlinked. destruct (ssd s !! k) as [id|] eqn:E; cbn.
  2: { apply (disk_inv_ext s); [done|by rewrite Hs, delete_id|done|]. intros k' [? Hk']. apply Hm. congruence. }
  destruct (I4 _ _ E) as (b & Hb & Hl & _).
  assert (∀ k' id' len crc, live_of rs !! k' = Some (id', len, crc) → k' ≠ k → id ≠ id') as Hne.
  { intros k' id' len crc Hk' Hne <-. apply Hne. eapply (I6 k' k id (len, crc) (_, _)); cbn; done. }
  split; cbn; try done.
  - rewrite Hs. intros k' id' [Hkk Hk']%lookup_delete_Some. pose proof (I4 _ _ Hk') as (b' & Hb' & Hl' & Hm').
    exists b'. rewrite Hm by done. rewrite lookup_delete_ne; [done|]. eapply Hne; [done|congruence].
  - rewrite Hs, Hn. intros k' id' len crc Hk'. pose proof (I5 _ _ _ _ Hk') as (? & ? & Ho). split_and!; [done..|].
    destruct (decide (k' = k)) as [->|Hkk].
    + right. rewrite lookup_delete_eq. split; [done|]. rewrite Hl in Hk'. simplify_eq. by rewrite lookup_delete_eq.
    + rewrite (lookup_delete_ne (ssd s)) by done. destruct Ho as [?|[? Hf]]; [by left|right]. split; [done|].
      by rewrite lookup_delete_ne by (eapply Hne; done).
Qed.

Lemma disk_inv_orphan s d rs t id :
  (∀ k len crc, live_of rs !! k ≠ Some (id, len, crc)) → disk_inv s d rs t → disk_inv s (disk_op d (Unlink id)) rs t.
Proof.
  intros Hid [I1 I2 I3 I4 I5 I6]. split; cbn; try done.
  - intros k i Hk. pose proof (I4 _ _ Hk) as (b & Hb & Hl & Hm). exists b. rewrite lookup_delete_ne; [done|]. intros <-. by apply Hid in Hl.
  - intros k i len crc Hk. pose proof (I5 _ _ _ _ Hk) as (? & ? & Ho). split_and!; [done..|].
    destruct Ho as [?|[? Hf]]; [by left|right]. split; [done|]. rewrite lookup_delete_ne; [done|]. intros <-. by apply Hid in Hk.
Qed.

(** The tombstone of [drop_block]. *)
Lemma disk_inv_tombstone s s' d rs k :
  wal_fits (WRemove k) → disk_inv s d rs [] → ssd s' = delete k (ssd s) → next_file s' = next_file s →
  (∀ k', k' ≠ k → bm_bytes <$> meta s' !! k' = bm_bytes <$> meta s !! k') →
  disk_inv s' (disk_op d (AppendWal (wal_frame (WRemove k)))) (rs ++ [WRemove k]) [].
Proof.
  intros Hfit [I1 I2 I3 I4 I5 I6] Hs Hn Hm. split; cbn; rewrite ?live_of_snoc; cbn [wal_apply].
  - by rewrite I1, !app_nil_r, wal_frames_snoc.
  - by left.
  - by apply Forall_app_2; [|constructor].
  - rewrite Hs. intros k' id [Hne Hk]%lookup_delete_Some. rewrite lookup_delete_ne, Hm by done. by apply I4.
  - rewrite Hs, Hn. intros k' id len crc [Hne Hk]%lookup_delete_Some. rewrite lookup_delete_ne by done. by eapply I5.
  - intros k1 k2 id e e' [_ H1]%lookup_delete_Some [_ H2]%lookup_delete_Some. by eapply I6.
Qed.

(** The commit of [demote_to_ssd], its file written. *)
Lemma disk_inv_commit s s' d rs k b :
  let id := next_file s + 1 in let c := WCommit k id (Z.of_nat (length b)) (wal_crc b) in
  wal_fits c → disk_inv s d rs [] → files d !! id = Some b → ssd s' = <[k := id]> (ssd s) → next_file s' = id →
  bm_bytes <$> meta s' !! k = Some (Z.of_nat (length b)) → (∀ k', k' ≠ k → meta s' !! k' = meta s !! k') →
  disk_inv s' (disk_op d (AppendWal (wal_frame c))) (rs ++ [c]) [].
Proof.
  intros id c Hfit [I1 I2 I3 I4 I5 I6] Hf Hs Hn Hmk Hm. split; cbn; rewrite ?live_of_snoc; cbn [wal_apply c].
  - by rewrite I1, !app_nil_r, wal_frames_snoc.
  - by left.
  - by apply Forall_app_2; [|constructor].
  - rewrite Hs. intros k' i. destruct (decide (k = k')) as [<-|Hne].
    + rewrite !lookup_insert_eq. intros [= <-]. eauto.
    + rewrite !lookup_insert_ne, Hm by done. apply I4.
  - rewrite Hs, Hn. intros k' i len crc. destruct (decide (k = k')) as [<-|Hne].
    + rewrite !lookup_insert_eq. intros [= <- <- <-]. split_and!; [lia..|by left].
    + rewrite !lookup_insert_ne by done. intros Hk. pose proof (I5 _ _ _ _ Hk) as (? & ? & ?). split_and!; [done|lia|done].
  - assert (∀ k' i e, live_of rs !! k' = Some (i, e.1, e.2) → i ≠ id) as Hold.
    { intros k' i e Hk. pose proof (I5 _ _ _ _ Hk) as (_ & ? & _). lia. }
    intros k1 k2 i e e'. destruct (decide (k = k1)) as [<-|], (decide (k = k2)) as [<-|]; [done|..].
    + rewrite lookup_insert_eq, lookup_insert_ne by done. intros [= <- _ _] Hk. by apply Hold in Hk.
    + rewrite lookup_insert_ne, lookup_insert_eq by done. intros Hk [= <- _ _]. by apply Hold in Hk.
    + rewrite !lookup_insert_ne by done. apply I6.
Qed.

(** ** Contents *)

(** The bytes of the SSD tier: what a crash must not lose. *)
Definition durable s d (k : KvBlockKey) : option Bytes := id ← ssd s !! k; files d !! id.

Lemma get_raw_eq s d k :
  store_wf s → get_raw k d s = match dram s !! k with Some b => Some b | None => durable s d k end.
Proof.
  intros Hwf. unfold get_raw, durable. destruct (meta s !! k) as [m|] eqn:E; cbn [mbind option_bind].
  - destruct (wf_meta _ Hwf _ _ E) as [_ [[Ht [b Hb]]|[Ht [i Hi]]]]; rewrite Ht, ?Hb, ?Hi; [by rewrite decide_False|].
    destruct (decide _) as [_|]; [|done]. destruct (dram s !! k) eqn:Ed; [|done]. exfalso. eapply wf_dram_ssd; eauto.
  - destruct (dram s !! k) eqn:Ed; [by apply (wf_dram _ Hwf) in Ed as (? & ? & _); congruence|].
    destruct (ssd s !! k) eqn:Es; [by apply (wf_ssd _ Hwf) in Es as (? & ? & _); congruence|done].
Qed.

(** A primitive is atomic: a crash while it runs leaves the SSD tier of before or of after. *)
Definition atomic s d (ops : list DiskOp) s' : Prop :=
  (∃ rs, disk_inv s' (disk_ops d ops) rs []) ∧
  ∀ d', crashed d ops d' → ∃ rs t,
    disk_inv s d' rs t ∧ (∀ k, durable s d' k = durable s d k) ∨
    disk_inv s' d' rs t ∧ (∀ k, durable s' d' k = durable s' (disk_ops d ops) k).

Lemma durable_file s d rs t id b k :
  disk_inv s d rs t → next_file s < id → durable s (disk_op d (WriteFile id b)) k = durable s d k.
Proof.
  intros Hinv Hid. unfold durable. destruct (ssd s !! k) as [i|] eqn:E; cbn; [|done].
  destruct (di_ssd _ _ _ _ Hinv _ _ E) as (b' & _ & Hl & _). apply (di_live _ _ _ _ Hinv) in Hl as (_ & ? & _).
  rewrite lookup_insert_ne by lia. done.
Qed.

Lemma demote_atomic k s s' d rs ops :
  store_wf s → disk_inv s d rs [] → demote_to_ssd k s = (true, s', ops) → Forall op_fits ops → atomic s d ops s'.
Proof.
  intros Hwf Hinv Hd Hfit. apply demote_ok in Hd as (b & Hb & _ & _ & Hs & Hm & Hn & _ & _ & ->); [|done].
  set (id := next_file s + 1) in *. set (c := WCommit _ _ _ _) in *.
  apply Forall_cons in Hfit as [_ [Hfit _]%Forall_cons]. apply wal_frame_fits in Hfit.
  set (d1 := disk_op d (WriteFile id b)).
  assert (disk_inv s d1 rs []) as Hinv1 by (apply disk_inv_file; [lia|done]).
  assert (∀ k', durable s d1 k' = durable s d k') as Hdur by (intros; apply (durable_file _ _ rs []); [done|lia]).
  assert (disk_inv s' (disk_op d1 (AppendWal (wal_frame c))) (rs ++ [c]) []) as Hdone.
  { apply (disk_inv_commit s s' d1 rs k b); try done.
    - apply lookup_insert_eq.
    - rewrite Hm, lookup_alter_eq. apply (wf_dram _ Hwf) in Hb as (m & -> & _ & <-). done.
    - intros k' Hne. by rewrite Hm, lookup_alter_ne. }
  split; [by exists (rs ++ [c])|]. intros d' Hcr. inversion Hcr as [| | |? ? ? ? Hcr']; subst.
  - exists rs, []. by left.
  - exists rs, []. left. split; [apply disk_inv_file; [lia|done]|]. intros k'. apply (durable_file _ _ rs []); [done|lia].
  - inversion Hcr' as [| |? ? n|? ? ? ? Hcr'']; subst.
    + exists rs, []. by left.
    + destruct (torn_prefix c n Hfit) as [Ht|Ht].
      * exists rs, (take n (wal_frame c)). left. split; [by apply disk_inv_torn|done].
      * exists (rs ++ [c]), []. right. rewrite Ht. done.
    + apply crashed_nil in Hcr'' as ->. exists (rs ++ [c]), []. by right.
Qed.

(** The block's file named by its last commit, unlinked after the tombstone. *)
Lemma unlinked_orphan s d rs k s' :
  disk_inv s d rs [] → disk_inv s' (disk_op d (AppendWal (wal_frame (WRemove k)))) (rs ++ [WRemove k]) [] →
  disk_inv s' (disk_ops (disk_op d (AppendWal (wal_frame (WRemove k)))) (unlinked k s)) (rs ++ [WRemove k]) [].
Proof.
  intros Hinv Hinv'. unfold unlinked. destruct (ssd s !! k) as [id|] eqn:E; [|done].
  refine (disk_inv_orphan s' _ _ [] id _ Hinv'). intros k' len crc. rewrite live_of_snoc. cbn [wal_apply]. intros [Hne Hk]%lookup_delete_Some.
  destruct (di_ssd _ _ _ _ Hinv _ _ E) as (b & _ & Hl & _). apply Hne. by eapply (di_inj _ _ _ _ Hinv k k' id (_, _) (_, _)).
Qed.

Lemma durable_unlinked s s' d rs k k' :
  disk_inv s d rs [] → ssd s' = delete k (ssd s) → durable s' (disk_ops d (unlinked k s)) k' = durable s' d k'.
Proof.
  intros Hinv Hs. unfold durable. rewrite Hs. destruct (decide (k = k')) as [<-|Hne]; [by rewrite lookup_delete_eq|].
  rewrite lookup_delete_ne by done. destruct (ssd s !! k') as [i'|] eqn:E'; cbn; [|done].
  unfold unlinked. destruct (ssd s !! k) as [i|] eqn:E; cbn; [|done]. rewrite lookup_delete_ne; [done|]. intros ->.
  destruct (di_ssd _ _ _ _ Hinv _ _ E) as (b & _ & Hl & _), (di_ssd _ _ _ _ Hinv _ _ E') as (b' & _ & Hl' & _).
  apply Hne. by eapply (di_inj _ _ _ _ Hinv k k' i' (_, _) (_, _)).
Qed.

Lemma removed_bytes k s s' : removed k s s' → ∀ k', k' ≠ k → bm_bytes <$> meta s' !! k' = bm_bytes <$> meta s !! k'.
Proof. intros Hrm k' Hne. by rewrite (rm_meta _ _ _ Hrm), lookup_delete_ne. Qed.

Lemma unlinked_cases k s : unlinked k s = [] ∨ ∃ id, unlinked k s = [Unlink id].
Proof. unfold unlinked. destruct (ssd s !! k); eauto. Qed.

Lemma crashed_unlinked d k s d' : crashed d (unlinked k s) d' → d' = d ∨ d' = disk_ops d (unlinked k s).
Proof.
  destruct (unlinked_cases k s) as [->|[id ->]]; intros Hcr; [left; by apply crashed_nil|].
  inversion Hcr as [| | |? ? ? ? Hcr']; subst; [by left|]. apply crashed_nil in Hcr' as ->. by right.
Qed.

(** A block with nothing on disk leaves. *)
Lemma unlinked_atomic k s s' d rs :
  disk_inv s d rs [] → ssd s' = delete k (ssd s) → next_file s' = next_file s →
  (∀ k', k' ≠ k → bm_bytes <$> meta s' !! k' = bm_bytes <$> meta s !! k') → atomic s d (unlinked k s) s'.
Proof.
  intros Hinv Hs Hn Hm. assert (disk_inv s' (disk_ops d (unlinked k s)) rs []) as Hinv' by (by apply disk_inv_unlink).
  split; [by exists rs|]. intros d' [->| ->]%crashed_unlinked; exists rs, []; [left|right]; done.
Qed.

Lemma drop_atomic k s s' d rs ops :
  store_wf s → disk_inv s d rs [] → drop_block k s = (true, s', ops) → Forall op_fits ops → atomic s d ops s'.
Proof.
  intros Hwf Hinv Hd Hfit. apply drop_ok in Hd as (m & Hm & Hrm & ->); [|done].
  pose proof (removed_bytes _ _ _ Hrm) as Hb. pose proof (rm_ssd _ _ _ Hrm) as Hs. pose proof (rm_next _ _ _ Hrm) as Hn.
  destruct (decide (bm_tier m = LocalSsd)) as [Ht|Ht].
  2: { assert (ssd s !! k = None) as Hk.
    { apply eq_None_not_Some. intros [i Hi]. apply (wf_ssd _ Hwf) in Hi as (? & ? & ?). congruence. }
    replace [] with (unlinked k s) by (unfold unlinked; by rewrite Hk). by eapply unlinked_atomic. }
  apply Forall_cons in Hfit as [Hfit%wal_frame_fits _]. set (f := AppendWal (wal_frame (WRemove k))).
  pose proof (disk_inv_tombstone s s' d rs k Hfit Hinv Hs Hn Hb) as H1. fold f in H1.
  pose proof (unlinked_orphan s d rs k s' Hinv H1) as H2. fold f in H2.
  assert (∀ k', durable s' (disk_op d f) k' = durable s' (disk_ops (disk_op d f) (unlinked k s)) k') as Hdur.
  { intros k'. change (durable s' (disk_op d f) k') with (durable s' d k'). rewrite <- (durable_unlinked s s' d rs k k' Hinv Hs).
    unfold durable, disk_ops, unlinked. destruct (ssd s !! k); done. }
  split; [by exists (rs ++ [WRemove k])|]. intros d' Hcr. inversion Hcr as [| |? ? n|? ? ? ? Hcr']; subst.
  - exists rs, []. by left.
  - destruct (torn_prefix (WRemove k) n Hfit) as [Ht'|Ht'].
    + exists rs, (take n (wal_frame (WRemove k))). left. split; [by apply disk_inv_torn|done].
    + exists (rs ++ [WRemove k]), []. right. rewrite Ht'. done.
  - exists (rs ++ [WRemove k]), []. right. apply crashed_unlinked in Hcr' as [->| ->]; done.
Qed.

Lemma demote_contents k s s' d rs ops k' :
  store_wf s → disk_inv s d rs [] → demote_to_ssd k s = (true, s', ops) →
  get_raw k' (disk_ops d ops) s' = get_raw k' d s.
Proof.
  intros Hwf Hinv Hd. apply demote_ok in Hd as (b & Hb & Hwf' & Hdr & Hs & _ & _ & _ & _ & ->); [|done].
  rewrite !get_raw_eq, Hdr by done. destruct (decide (k = k')) as [<-|Hne].
  - rewrite lookup_delete_eq, Hb. unfold durable. rewrite Hs, lookup_insert_eq. cbn. by rewrite lookup_insert_eq.
  - rewrite lookup_delete_ne by done. destruct (dram s !! k'); [done|]. rewrite <- (durable_file s d rs [] (next_file s + 1) b) by (done || lia).
    unfold durable. by rewrite Hs, lookup_insert_ne.
Qed.

Lemma removed_contents k s s' d rs ops k' :
  store_wf s → disk_inv s d rs [] → removed k s s' → files (disk_ops d ops) = files (disk_ops d (unlinked k s)) →
  get_raw k' (disk_ops d ops) s' = if decide (k' = k) then None else get_raw k' d s.
Proof.
  intros Hwf Hinv Hrm Hf. pose proof (removed_wf _ _ _ Hwf Hrm) as Hwf'. pose proof (rm_ssd _ _ _ Hrm) as Hs.
  rewrite !get_raw_eq by done. rewrite (rm_dram _ _ _ Hrm).
  replace (durable s' (disk_ops d ops) k') with (durable s' (disk_ops d (unlinked k s)) k') by (unfold durable; by rewrite Hf).
  rewrite (durable_unlinked s s' d rs k k' Hinv Hs). unfold durable. rewrite Hs.
  destruct (decide (k' = k)) as [->|]; [by rewrite !lookup_delete_eq|by rewrite !lookup_delete_ne].
Qed.

Lemma drop_contents k s s' d rs ops k' :
  store_wf s → disk_inv s d rs [] → drop_block k s = (true, s', ops) →
  get_raw k' (disk_ops d ops) s' = if decide (k' = k) then None else get_raw k' d s.
Proof.
  intros Hwf Hinv Hd. apply drop_ok in Hd as (m & Hm & Hrm & ->); [|done]. apply (removed_contents _ _ _ _ rs); try done.
  destruct (decide _) as [Ht|Ht].
  - unfold unlinked, disk_ops. destruct (ssd s !! k); done.
  - unfold unlinked. destruct (ssd s !! k) eqn:E; [|done]. apply (wf_ssd _ Hwf) in E as (? & ? & ?). congruence.
Qed.

Lemma put_dram_contents k b s d rs k' :
  store_wf s → disk_inv s d rs [] →
  get_raw k' (disk_ops d (put_dram k b s).2) (put_dram k b s).1 = if decide (k' = k) then Some b else get_raw k' d s.
Proof.
  intros Hwf Hinv. destruct (put_dram_spec k b s Hwf) as (Hd & Hs & _ & _ & _ & _ & Hwf' & ->).
  rewrite !get_raw_eq by done. rewrite (durable_unlinked s _ d rs k k' Hinv Hs). unfold durable. rewrite Hd, Hs.
  destruct (decide (k' = k)) as [->|]; [by rewrite lookup_insert_eq|]. by rewrite lookup_insert_ne, lookup_delete_ne by done.
Qed.

Lemma put_dram_atomic k b s d rs :
  store_wf s → disk_inv s d rs [] → atomic s d (put_dram k b s).2 (put_dram k b s).1.
Proof.
  intros Hwf Hinv. destruct (put_dram_spec k b s Hwf) as (_ & Hs & Hm & Hn & _ & _ & _ & ->).
  apply (unlinked_atomic k s _ d rs Hinv Hs Hn). intros k' Hne. by rewrite Hm, lookup_insert_ne.
Qed.

(** ** Sequences of demotions and evictions *)

Lemma disk_ops_app d ops1 ops2 : disk_ops d (ops1 ++ ops2) = disk_ops (disk_ops d ops1) ops2.
Proof. apply foldl_app. Qed.

Lemma kv_steps_contents s ev ops s' d rs :
  store_wf s → disk_inv s d rs [] → Forall op_fits ops → kv_steps s ev ops s' →
  (∃ rs', disk_inv s' (disk_ops d ops) rs' []) ∧
  ∀ k, get_raw k (disk_ops d ops) s' = if decide (k ∈ ev) then None else get_raw k d s.
Proof.
  intros Hwf Hinv Hfit Hst. revert d rs Hwf Hinv Hfit.
  induction Hst as [s|s k0 s1 ops1 ev ops s' _ Hd Hst IH|s k0 s1 ops1 ev ops s' _ Hd Hst IH]; intros d rs Hwf Hinv Hfit.
  { split; [by exists rs|]. intros k. by rewrite decide_False by apply not_elem_of_nil. }
  all: apply Forall_app in Hfit as [Hf1 Hf2]; rewrite disk_ops_app.
  - destruct (demote_atomic _ _ _ _ _ _ Hwf Hinv Hd Hf1) as [[rs1 Hinv1] _].
    pose proof (demote_ok _ _ _ _ Hwf Hd) as (_ & _ & Hwf1 & _).
    destruct (IH _ rs1 Hwf1 Hinv1 Hf2) as [Hex Hc]. split; [done|]. intros k. by rewrite Hc, (demote_contents _ _ _ _ _ _ k Hwf Hinv Hd).
  - destruct (drop_atomic _ _ _ _ _ _ Hwf Hinv Hd Hf1) as [[rs1 Hinv1] _].
    pose proof (drop_ok _ _ _ _ Hwf Hd) as (_ & _ & Hrm & _). pose proof (removed_wf _ _ _ Hwf Hrm) as Hwf1.
    destruct (IH _ rs1 Hwf1 Hinv1 Hf2) as [Hex Hc]. split; [done|]. intros k. rewrite Hc. rewrite (drop_contents _ _ _ _ _ _ k Hwf Hinv Hd).
    destruct (decide (k ∈ ev)), (decide (k = k0)), (decide (k ∈ k0 :: ev)); try done; set_solver.
Qed.

(** A crash during the sequence leaves the SSD tier of one of its intermediate states. *)
Lemma kv_steps_crash s ev ops s' d rs d' :
  store_wf s → disk_inv s d rs [] → Forall op_fits ops → kv_steps s ev ops s' → crashed d ops d' →
  ∃ s1 ev1 ops1 ev2 ops2 rs1 t, ev = ev1 ++ ev2 ∧ ops = ops1 ++ ops2 ∧ kv_steps s ev1 ops1 s1 ∧
    disk_inv s1 d' rs1 t ∧ ∀ k, durable s1 d' k = durable s1 (disk_ops d ops1) k.
Proof.
  intros Hwf Hinv Hfit Hst. revert d rs Hwf Hinv Hfit.
  induction Hst as [s|s k0 s1 ops1 ev ops s' Hc Hd Hst IH|s k0 s1 ops1 ev ops s' Hc Hd Hst IH]; intros d rs Hwf Hinv Hfit Hcr.
  { apply crashed_nil in Hcr as ->. exists s, [], [], [], [], rs, []. split_and!; [done..|constructor|done|done]. }
  all: apply Forall_app in Hfit as [Hf1 Hf2].
  - destruct (demote_atomic _ _ _ _ _ _ Hwf Hinv Hd Hf1) as [[rs1 Hinv1] Hat]. pose proof (demote_ok _ _ _ _ Hwf Hd) as (_ & _ & Hwf1 & _).
    assert (kv_steps s [] ops1 s1) as H1 by (rewrite <- (app_nil_r ops1); eapply ks_demote; [done..|constructor]).
    apply crashed_app in Hcr as [(rs2 & t & [[? ?]|[? ?]])%Hat|Hcr].
    + exists s, [], [], ev, (ops1 ++ ops), rs2, t. split_and!; [done..|constructor|done|done].
    + exists s1, [], ops1, ev, ops, rs2, t. done.
    + destruct (IH _ rs1 Hwf1 Hinv1 Hf2 Hcr) as (s2 & ev1 & ops2 & ev2 & ops3 & rs2 & t & -> & -> & ? & ? & ?).
      exists s2, ev1, (ops1 ++ ops2), ev2, ops3, rs2, t. rewrite disk_ops_app, <- app_assoc. split_and!; try done. by eapply ks_demote.
  - destruct (drop_atomic _ _ _ _ _ _ Hwf Hinv Hd Hf1) as [[rs1 Hinv1] Hat].
    pose proof (drop_ok _ _ _ _ Hwf Hd) as (_ & _ & Hrm & _). pose proof (removed_wf _ _ _ Hwf Hrm) as Hwf1.
    assert (kv_steps s [k0] ops1 s1) as H1 by (rewrite <- (app_nil_r ops1); eapply ks_drop; [exact Hc|exact Hd|constructor]).
    apply crashed_app in Hcr as [(rs2 & t & [[? ?]|[? ?]])%Hat|Hcr].
    + exists s, [], [], (k0 :: ev), (ops1 ++ ops), rs2, t. split_and!; [done..|constructor|done|done].
    + exists s1, [k0], ops1, ev, ops, rs2, t. done.
    + destruct (IH _ rs1 Hwf1 Hinv1 Hf2 Hcr) as (s2 & ev1 & ops2 & ev2 & ops3 & rs2 & t & -> & -> & ? & ? & ?).
      exists s2, (k0 :: ev1), (ops1 ++ ops2), ev2, ops3, rs2, t. rewrite disk_ops_app, <- app_assoc. split_and!; try done. by eapply ks_drop.
Qed.

(** What is on the SSD stays there until it is evicted. *)
Lemma kv_steps_ssd s ev ops s' k :
  store_wf s → kv_steps s ev ops s' → is_Some (ssd s !! k) → k ∉ ev → is_Some (ssd s' !! k).
Proof.
  intros Hwf Hst. induction Hst as [s|s k0 s1 ops1 ev ops s' Hc Hd Hst IH|s k0 s1 ops1 ev ops s' Hc Hd Hst IH]; intros Hk Hev; [done|..].
  - pose proof (demote_ok _ _ _ _ Hwf Hd) as (_ & _ & Hwf1 & _ & Hs & _). apply IH; [done| |done].
    rewrite Hs. destruct (decide (k0 = k)) as [<-|]; [by rewrite lookup_insert_eq|by rewrite lookup_insert_ne].
  - pose proof (drop_ok _ _ _ _ Hwf Hd) as (_ & _ & Hrm & _). apply IH; [by eapply removed_wf| |set_solver].
    rewrite (rm_ssd _ _ _ Hrm), lookup_delete_ne; [done|]. set_solver.
Qed.

(** The bytes of the recovered store. *)
Lemma recovered_get s s' d rs t c1 c2 :
  disk_inv s d rs t → store_recover d c1 c2 = Some s' → store_wf s' ∧ ∀ k, get_raw k d s' = durable s d k.
Proof.
  intros Hinv Hr. destruct (recover_disk_inv s d rs t c1 c2 Hinv) as (s'' & Hr' & Hwf & Hs & Hd & _).
  rewrite Hr in Hr'. simplify_eq. split; [done|]. intros k. rewrite get_raw_eq, Hd, lookup_empty by done. unfold durable. by rewrite Hs.
Qed.
End crash.
