(* ===== verification/KvTheorems.v ===== *)
(** * The local KV byte store: theorems

    What [LocalKvStore] promises in every state it can reach: a put keeps the budgets and
    changes nothing but its block and the evicted ones, a read returns the bytes stored
    under exactly that key, a restart brings back the SSD tier, and a crash in the middle
    of a put leaves a disk that recovers to bytes the store held. *)
From S2P Require Import Prelude Identity MemIndex MemIndexProofs Router RouterPlan OpLog KvStore KvStoreProofs KvCrash.

Section reach.
Context `{WalCodec} `{HashIter}.
Implicit Types (s : LocalKvStore) (d : SsdDir).

(** The writes one operation issues; none when the store is idle. *)
Inductive kv_writes s : list DiskOp → Prop :=
| kw_none : kv_writes s []
| kw_put k b out s' ops : put k b s = Some (out, s', ops) → kv_writes s ops
| kw_put_dram k b : kv_writes s (put_dram k b s).2
| kw_demote k ok s' ops : demote_to_ssd k s = (ok, s', ops) → kv_writes s ops
| kw_drop k ok s' ops : drop_block k s = (ok, s', ops) → kv_writes s ops.

(** Every commit in force on the disk was verified by the recovery that gave [s]. *)
Definition no_stale d s : Prop := ∀ live k, wal_replay (wal d) = Some live → is_Some (live !! k) → is_Some (ssd s !! k).

(** The states of a store opened on a directory and used, with the disk of each.  The store may be stopped or crash at
    any point of any operation and be opened again ([kr_reopen]), when the crash tore no frame of the log and left no commit without its file:
    after the other crashes the code itself loses blocks (the two runs at the end of KvExamples.v). *)
Inductive kv_reach : LocalKvStore → SsdDir → Prop :=
| kr_new c1 c2 d : 0 ≤ c1 → 0 ≤ c2 → kv_reach (store_new c1 c2) (disk_new d)
| kr_put s d k b out s' ops :
    kv_reach s d → put k b s = Some (out, s', ops) → Forall op_fits ops → kv_reach s' (disk_ops d ops)
| kr_put_dram s d k b : kv_reach s d → kv_reach (put_dram k b s).1 (disk_ops d (put_dram k b s).2)
| kr_demote s d k ok s' ops :
    kv_reach s d → demote_to_ssd k s = (ok, s', ops) → Forall op_fits ops → kv_reach s' (disk_ops d ops)
| kr_drop s d k ok s' ops :
    kv_reach s d → drop_block k s = (ok, s', ops) → Forall op_fits ops → kv_reach s' (disk_ops d ops)
| kr_get s d k : kv_reach s d → kv_reach (get k d s).2 d
| kr_reopen s d ops d' c1 c2 s' :
    kv_reach s d → kv_writes s ops → Forall op_fits ops → crashed d ops d' → whole_log d' → 0 ≤ c1 → 0 ≤ c2 →
    store_recover d' c1 c2 = Some s' → no_stale d' s' → kv_reach s' d'.

(** Every store there is: opened on any directory whatsoever, whatever crashes it went through (the lengths its log names are [u64]s),
    and used. *)
Inductive kv_opened : LocalKvStore → Prop :=
| ko_new c1 c2 : 0 ≤ c1 → 0 ≤ c2 → kv_opened (store_new c1 c2)
| ko_recover d live c1 c2 s :
    0 ≤ c1 → 0 ≤ c2 → wal_replay (wal d) = Some live → (∀ k id len crc, live !! k = Some (id, len, crc) → 0 ≤ len) →
    store_recover d c1 c2 = Some s → kv_opened s
| ko_put s k b out s' ops : kv_opened s → put k b s = Some (out, s', ops) → kv_opened s'
| ko_put_dram s k b : kv_opened s → kv_opened (put_dram k b s).1
| ko_demote s k ok s' ops : kv_opened s → demote_to_ssd k s = (ok, s', ops) → kv_opened s'
| ko_drop s k ok s' ops : kv_opened s → drop_block k s = (ok, s', ops) → kv_opened s'
| ko_get s d k : kv_opened s → kv_opened (get k d s).2.

Definition kv_inv s d : Prop :=
  store_wf s ∧ 0 ≤ dram_capacity s ∧ 0 ≤ ssd_capacity s ∧ ∃ rs, disk_inv s d rs [].

Lemma recover_caps d c1 c2 s' : store_recover d c1 c2 = Some s' → dram_capacity s' = c1 ∧ ssd_capacity s' = c2.
Proof.
  unfold store_recover. intros (live & _ & [= <-])%bind_Some. induction (hiter live) as [|[k [[id len] crc]] l IH] using rev_ind; [done|].
  rewrite foldl_snoc. cbn [recover_add]. by destruct (verified d _).
Qed.

Lemma kv_steps_caps s ev ops s' : store_wf s → kv_steps s ev ops s' → dram_capacity s' = dram_capacity s ∧ ssd_capacity s' = ssd_capacity s.
Proof.
  intros Hwf Hst. induction Hst as [s|s k0 s1 ops1 ev ops s' Hc Hd Hst IH|s k0 s1 ops1 ev ops s' Hc Hd Hst IH]; [done|..].
  - pose proof (demote_ok _ _ _ _ Hwf Hd) as (_ & _ & Hwf1 & _ & _ & _ & _ & <- & <- & _). by apply IH.
  - pose proof (drop_ok _ _ _ _ Hwf Hd) as (_ & _ & Hrm & _). pose proof (rm_caps _ _ _ Hrm) as [<- <-]. apply IH. by eapply removed_wf.
Qed.

(** [put] is a [put_dram] and a sequence of demotions and evictions of the coldest blocks. *)
Lemma put_unfold k b s :
  store_wf s → 0 ≤ dram_capacity s → 0 ≤ ssd_capacity s →
  ∃ out s' ops2, put k b s = Some (out, s', (put_dram k b s).2 ++ ops2) ∧
    kv_steps (put_dram k b s).1 (po_evicted out) ops2 s' ∧ po_tier out = default CpuDram (tier_of k s') ∧
    dram_bytes s' ≤ dram_capacity s ∧ ssd_bytes s' ≤ ssd_capacity s.
Proof.
  intros Hwf H1 H2. destruct (put_dram_spec k b s Hwf) as (_ & _ & _ & _ & Hc1 & Hc2 & Hwf' & _). unfold put.
  destruct (put_dram k b s) as [s1 ops1]. cbn -[enforce_capacity] in *.
  destruct (enforce_capacity_spec s1 Hwf') as (s' & ops2 & ev & -> & Hst & Hb1 & Hb2); [lia..|]. cbn [mbind option_bind].
  eexists _, s', ops2. split; [done|]. cbn. split_and!; [done| |lia..]. unfold tier_of. by destruct (meta s' !! k).
Qed.

Lemma kv_inv_put k b s d out s' ops :
  kv_inv s d → put k b s = Some (out, s', ops) → Forall op_fits ops → kv_inv s' (disk_ops d ops).
Proof.
  intros (Hwf & H1 & H2 & rs & Hinv) Hp Hfit. destruct (put_unfold k b s Hwf H1 H2) as (out' & s'' & ops2 & Hp' & Hst & _).
  rewrite Hp in Hp'. simplify_eq. apply Forall_app in Hfit as [_ Hfit].
  destruct (put_dram_spec k b s Hwf) as (_ & _ & _ & _ & Hc1 & Hc2 & Hwf1 & _).
  destruct (put_dram_atomic k b s d rs Hwf Hinv) as [[rs1 Hinv1] _]. rewrite disk_ops_app.
  destruct (kv_steps_contents _ _ _ _ _ _ Hwf1 Hinv1 Hfit Hst) as [Hex _].
  destruct (kv_steps_caps _ _ _ _ Hwf1 Hst) as [Hk1 Hk2]. split_and!; [by eapply kv_steps_wf|lia..|done].
Qed.

Lemma get_same_blocks k d s m :
  meta s !! k = Some m → let s' := (get k d s).2 in
  dram s' = dram s ∧ ssd s' = ssd s ∧ meta s' = <[k := mkMeta (bm_tier m) (bm_bytes m) (clock s + 1)]> (meta s) ∧ content s' = content s ∧
  dram_bytes s' = dram_bytes s ∧ ssd_bytes s' = ssd_bytes s ∧ next_file s' = next_file s ∧
  dram_capacity s' = dram_capacity s ∧ ssd_capacity s' = ssd_capacity s.
Proof. intros Hm. unfold get. rewrite Hm. done. Qed.

Lemma get_wf k d s : store_wf s → store_wf (get k d s).2.
Proof.
  intros Hwf. destruct (meta s !! k) as [m|] eqn:E; [|unfold get; by rewrite E].
  destruct (get_same_blocks k d s m E) as (E1 & E2 & E3 & E4 & E5 & E6 & _). destruct Hwf as [W1 W2 W3 W4 W5 W6 W7].
  split; rewrite ?E1, ?E2, ?E3, ?E4, ?E5, ?E6; try done.
  - intros k' b (m' & Hm & Ht & Hb)%W1. destruct (decide (k = k')) as [<-|]; [|rewrite lookup_insert_ne by done; eauto].
    rewrite lookup_insert_eq. simplify_eq. eauto.
  - intros k' i (m' & Hm & Ht)%W2. destruct (decide (k = k')) as [<-|]; [|rewrite lookup_insert_ne by done; eauto].
    rewrite lookup_insert_eq. simplify_eq. eauto.
  - intros k' m'. destruct (decide (k = k')) as [<-|]; [|rewrite lookup_insert_ne by done; eauto].
    rewrite lookup_insert_eq. intros [= <-]. by apply W3 in E.
  - rewrite (bytes_in_update _ _ _ _ _ E), W4. unfold in_tier. cbn. lia.
  - rewrite (bytes_in_update _ _ _ _ _ E), W5. unfold in_tier. cbn. lia.
  - intros h k'. rewrite W6, lookup_insert_is_Some'. naive_solver.
Qed.

Lemma kv_inv_get k s d : kv_inv s d → kv_inv (get k d s).2 d.
Proof.
  intros (Hwf & H1 & H2 & rs & Hinv). pose proof (get_wf k d s Hwf) as Hwf'.
  destruct (meta s !! k) as [m|] eqn:E; [|unfold get in *; rewrite E in *; split_and!; eauto].
  destruct (get_same_blocks k d s m E) as (_ & E2 & E3 & _ & _ & _ & E7 & E8 & E9).
  split_and!; [done|lia..|]. exists rs. apply (disk_inv_ext s); [done..|]. intros k' _. rewrite E3.
  destruct (decide (k = k')) as [<-|]; [by rewrite lookup_insert_eq, E|by rewrite lookup_insert_ne].
Qed.

(** Wherever an operation is stopped, the disk is that of some state. *)
Lemma crash_inv s d ops d' :
  kv_inv s d → kv_writes s ops → Forall op_fits ops → crashed d ops d' → ∃ s1 rs t, disk_inv s1 d' rs t.
Proof.
  intros (Hwf & H1 & H2 & rs & Hinv) Hw Hfit Hcr. destruct Hw as [|k b out s' ops Hp|k b|k ok s' ops Hd|k ok s' ops Hd].
  - apply crashed_nil in Hcr as ->. eauto.
  - destruct (put_unfold k b s Hwf H1 H2) as (out' & s'' & ops2 & Hp' & Hst & _). rewrite Hp in Hp'. simplify_eq.
    apply Forall_app in Hfit as [_ Hfit]. destruct (put_dram_atomic k b s d rs Hwf Hinv) as [[rs1 Hinv1] Hat].
    destruct (put_dram_spec k b s Hwf) as (_ & _ & _ & _ & _ & _ & Hwf1 & _). apply crashed_app in Hcr as [(rs2 & t & [[? _]|[? _]])%Hat|Hcr]; [eauto..|].
    destruct (kv_steps_crash _ _ _ _ _ _ _ Hwf1 Hinv1 Hfit Hst Hcr) as (s1 & _ & _ & _ & _ & rs2 & t & _ & _ & _ & Hi & _). eauto.
  - destruct (put_dram_atomic k b s d rs Hwf Hinv) as [_ Hat]. apply Hat in Hcr as (rs2 & t & [[? _]|[? _]]); eauto.
  - destruct ok.
    + destruct (demote_atomic _ _ _ _ _ _ Hwf Hinv Hd Hfit) as [_ Hat]. apply Hat in Hcr as (rs2 & t & [[? _]|[? _]]); eauto.
    + apply demote_spec in Hd; [|done]. destruct (dram s !! k); [naive_solver|]. destruct Hd as (_ & -> & ->). apply crashed_nil in Hcr as ->. eauto.
  - destruct ok.
    + destruct (drop_atomic _ _ _ _ _ _ Hwf Hinv Hd Hfit) as [_ Hat]. apply Hat in Hcr as (rs2 & t & [[? _]|[? _]]); eauto.
    + apply drop_block_spec in Hd; [|done]. destruct (meta s !! k); [naive_solver|]. destruct Hd as (_ & -> & ->). apply crashed_nil in Hcr as ->. eauto.
Qed.

Lemma kv_inv_reopen s d ops d' c1 c2 s' :
  kv_inv s d → kv_writes s ops → Forall op_fits ops → crashed d ops d' → whole_log d' → 0 ≤ c1 → 0 ≤ c2 →
  store_recover d' c1 c2 = Some s' → no_stale d' s' → kv_inv s' d'.
Proof.
  intros HI Hw Hfit Hcr (rs' & Hrs' & Hwal) ? ? Hr Hns. destruct (crash_inv _ _ _ _ HI Hw Hfit Hcr) as (s1 & rs & t & Hinv).
  assert (t = []) as ->.
  { apply (whole_not_torn rs t rs'); [apply Hinv|apply Hinv|done|]. by rewrite <- (di_wal _ _ _ _ Hinv). }
  destruct (recover_disk_inv s1 d' rs [] c1 c2 Hinv) as (s'' & Hr' & Hwf' & Hs & _ & Hdi). rewrite Hr in Hr'. simplify_eq.
  destruct (recover_caps _ _ _ _ Hr) as [? ?]. split_and!; [done|lia..|]. exists rs. apply Hdi; [done|]. intros k Hk. rewrite <- Hs.
  apply (Hns (live_of rs) k); [|done]. rewrite (di_wal _ _ _ _ Hinv). by apply wal_replay_frames; [apply Hinv|left].
Qed.

Lemma kv_reach_inv s d : kv_reach s d → kv_inv s d.
Proof.
  induction 1 as [c1 c2 d ? ?|s d k b out s' ops _ IH Hp Hfit|s d k b _ (Hwf & H1 & H2 & rs & Hinv)
    |s d k ok s' ops _ (Hwf & H1 & H2 & rs & Hinv) Hd Hfit|s d k ok s' ops _ (Hwf & H1 & H2 & rs & Hinv) Hd Hfit
    |s d k _ IH|s d ops d' c1 c2 s' _ IH Hw Hfit Hcr Hwh ? ? Hr Hns].
  - split_and!; [apply store_new_wf|done..|]. exists []. split; cbn; try done; try (by left); try by constructor.
  - by eapply kv_inv_put.
  - destruct (put_dram_spec k b s Hwf) as (_ & _ & _ & _ & Hc1 & Hc2 & Hwf1 & _).
    destruct (put_dram_atomic k b s d rs Hwf Hinv) as [Hex _]. split_and!; [done|lia..|done].
  - destruct ok.
    + destruct (demote_atomic _ _ _ _ _ _ Hwf Hinv Hd Hfit) as [Hex _].
      apply demote_ok in Hd as (_ & _ & ? & _ & _ & _ & _ & ? & ? & _); [|done]. split_and!; [done|lia..|done].
    + apply demote_spec in Hd; [|done]. destruct (dram s !! k); [naive_solver|]. destruct Hd as (_ & -> & ->). split_and!; eauto.
  - destruct ok.
    + destruct (drop_atomic _ _ _ _ _ _ Hwf Hinv Hd Hfit) as [Hex _].
      apply drop_ok in Hd as (_ & _ & Hrm & _); [|done]. pose proof (rm_caps _ _ _ Hrm) as [? ?]. split_and!; [by eapply removed_wf|lia..|done].
    + apply drop_block_spec in Hd; [|done]. destruct (meta s !! k); [naive_solver|]. destruct Hd as (_ & -> & ->). split_and!; eauto.
  - by apply kv_inv_get.
  - by apply (kv_inv_reopen s d ops d' c1 c2 s' IH Hw).
Qed.

Lemma kv_opened_wf s : kv_opened s → store_wf s ∧ 0 ≤ dram_capacity s ∧ 0 ≤ ssd_capacity s.
Proof.
  induction 1 as [c1 c2 ? ?|d live c1 c2 s ? ? Hl Hpos Hr|s k b out s' ops _ (Hwf & H1 & H2) Hp|s k b _ (Hwf & H1 & H2)
    |s k ok s' ops _ (Hwf & H1 & H2) Hd|s k ok s' ops _ (Hwf & H1 & H2) Hd|s d k _ (Hwf & H1 & H2)].
  - split_and!; [apply store_new_wf|done..].
  - destruct (recover_caps _ _ _ _ Hr) as [-> ->]. split_and!; [|done..]. unfold store_recover in Hr. rewrite Hl in Hr. injection Hr as <-.
    apply (recover_recovered d (hiter live) c1 c2); [apply NoDup_hkeys|]. intros k id len crc Hin%elem_of_hiter. by eapply Hpos.
  - destruct (put_unfold k b s Hwf H1 H2) as (out' & s'' & ops2 & Hp' & Hst & _). rewrite Hp in Hp'. simplify_eq.
    destruct (put_dram_spec k b s Hwf) as (_ & _ & _ & _ & Hc1 & Hc2 & Hwf1 & _). destruct (kv_steps_caps _ _ _ _ Hwf1 Hst) as [? ?].
    split_and!; [by eapply kv_steps_wf|lia..].
  - destruct (put_dram_spec k b s Hwf) as (_ & _ & _ & _ & Hc1 & Hc2 & Hwf1 & _). split_and!; [done|lia..].
  - destruct ok; [apply demote_ok in Hd as (_ & _ & ? & _ & _ & _ & _ & ? & ? & _); [|done]; split_and!; [done|lia..]|].
    apply demote_spec in Hd; [|done]. destruct (dram s !! k); [naive_solver|]. by destruct Hd as (_ & -> & _).
  - destruct ok; [apply drop_ok in Hd as (_ & _ & Hrm & _); [|done]; pose proof (rm_caps _ _ _ Hrm) as [? ?]; split_and!; [by eapply removed_wf|lia..]|].
    apply drop_block_spec in Hd; [|done]. destruct (meta s !! k); [naive_solver|]. by destruct Hd as (_ & -> & _).
  - split; [by apply get_wf|]. destruct (meta s !! k) as [m|] eqn:E; [|unfold get; by rewrite E].
    destruct (get_same_blocks k d s m E) as (_ & _ & _ & _ & _ & _ & _ & -> & ->). done.
Qed.

(** ** Residency *)

Lemma kv_steps_meta s ev ops s' k :
  store_wf s → kv_steps s ev ops s' → is_Some (meta s !! k) → k ∉ ev → is_Some (meta s' !! k).
Proof.
  intros Hwf Hst. induction Hst as [s|s k0 s1 ops1 ev ops s' Hc Hd Hst IH|s k0 s1 ops1 ev ops s' Hc Hd Hst IH]; intros Hk Hev; [done|..].
  - pose proof (demote_ok _ _ _ _ Hwf Hd) as (_ & _ & Hwf1 & _ & _ & Hm & _). apply IH; [done| |done]. by rewrite Hm, lookup_alter_is_Some.
  - pose proof (drop_ok _ _ _ _ Hwf Hd) as (_ & _ & Hrm & _). apply IH; [by eapply removed_wf| |set_solver].
    rewrite (rm_meta _ _ _ Hrm), lookup_delete_ne; [done|]. set_solver.
Qed.

Lemma tier_of_eq s k :
  store_wf s → tier_of k s = if dram s !! k then Some CpuDram else if ssd s !! k then Some LocalSsd else None.
Proof.
  intros Hwf. unfold tier_of. destruct (dram s !! k) as [b|] eqn:Ed.
  { apply (wf_dram _ Hwf) in Ed as (m & -> & Ht & _). cbn. by rewrite Ht. }
  destruct (ssd s !! k) as [i|] eqn:Es.
  { apply (wf_ssd _ Hwf) in Es as (m & -> & Ht). cbn. by rewrite Ht. }
  destruct (meta s !! k) as [m|] eqn:E; [|done]. apply (wf_meta _ Hwf) in E as [_ [[_ Hk]|[_ Hk]]]; [rewrite Ed in Hk|rewrite Es in Hk]; by destruct Hk.
Qed.

Lemma get_raw_resident s d rs t k :
  store_wf s → disk_inv s d rs t → is_Some (meta s !! k) → is_Some (get_raw k d s).
Proof.
  intros Hwf Hinv [m Hm]. rewrite get_raw_eq by done. destruct (wf_meta _ Hwf _ _ Hm) as [_ [[_ [b ->]]|[_ [i Hi]]]]; [eauto|].
  destruct (dram s !! k); [eauto|]. unfold durable. rewrite Hi. cbn. destruct (di_ssd _ _ _ _ Hinv _ _ Hi) as (b & -> & _). eauto.
Qed.

Lemma get_contents s d k k' : store_wf s → get_raw k' d (get k d s).2 = get_raw k' d s.
Proof.
  intros Hwf. pose proof (get_wf k d s Hwf) as Hwf'. destruct (meta s !! k) as [m|] eqn:E; [|unfold get; by rewrite E].
  destruct (get_same_blocks k d s m E) as (E1 & E2 & _). rewrite !get_raw_eq by done. unfold durable. by rewrite E1, E2.
Qed.

(** The scan of the candidates with the same content. *)
Lemma guard_cases s d k :
  store_wf s → meta s !! k = None →
  (∃ k' v, is_Some (tier_of k' s) ∧ block_hash k' = block_hash k ∧ reuse_violation (from_key k) k' = Some v ∧ (get k d s).1 = Err (SUnsafe v)) ∨
  (get k d s).1 = Err SNotFound ∧ ∀ k', is_Some (tier_of k' s) → block_hash k' = block_hash k → from_key k' = from_key k.
Proof.
  intros Hwf Hk. unfold get. rewrite Hk. cbn [fst].
  assert (∀ k', is_Some (tier_of k' s) ↔ is_Some (meta s !! k')) as Ht by (intros; unfold tier_of; apply fmap_is_Some).
  setoid_rewrite Ht. destruct (content s !! block_hash k) as [cands|] eqn:Ec.
  - assert (∀ k', is_Some (cands !! k') ↔ block_hash k = block_hash k' ∧ is_Some (meta s !! k')) as Hin.
    { intros k'. rewrite <- (wf_content _ Hwf). unfold in_idx. rewrite Ec. naive_solver. }
    destruct (head _) as [v|] eqn:Eh.
    + left. apply head_Some_elem_of, list_elem_of_omap in Eh as (k' & [? ?]%elem_of_hkeys%Hin & Hv). exists k', v. done.
    + right. split; [done|]. intros k' Hk' Hh. apply head_None in Eh. apply reuse_violation_against_None. symmetry.
      assert (k' ∈ hkeys cands) as Hin' by (apply elem_of_hkeys, Hin; done).
      destruct (reuse_violation (from_key k) k') as [v|] eqn:Ev.
      * assert (v ∈ omap (λ k', reuse_violation (from_key k) k') (hkeys cands)) as Hv by (apply list_elem_of_omap; eauto).
        rewrite Eh in Hv. by apply not_elem_of_nil in Hv.
      * rewrite reuse_violation_key in Ev. apply reuse_violation_against_None in Ev. rewrite Ev. symmetry. by apply reuse_violation_against_None.
  - right. split; [done|]. intros k' Hk' Hh. assert (in_idx (content s) (block_hash k) k') as (? & ? & _) by (by apply (wf_content _ Hwf)). congruence.
Qed.

(** A read of a store whose resident blocks all have their bytes. *)
Lemma get_serves s d k :
  store_wf s → (∀ k', is_Some (meta s !! k') → is_Some (get_raw k' d s)) →
  match get_raw k d s with
  | Some b => (get k d s).1 = Ok b
  | None =>
      (∃ k' v, is_Some (tier_of k' s) ∧ block_hash k' = block_hash k ∧ from_key k' ≠ from_key k ∧
         reuse_violation (from_key k) k' = Some v ∧ (get k d s).1 = Err (SUnsafe v)) ∨
      (get k d s).1 = Err SNotFound ∧
        ∀ k', is_Some (tier_of k' s) → block_hash k' = block_hash k → from_key k' = from_key k
  end.
Proof.
  intros Hwf Hres. destruct (get_raw k d s) as [b|] eqn:Eg.
  - unfold get. unfold get_raw in Eg. apply bind_Some in Eg as (m & Hm & Eg). rewrite Hm. cbn.
    destruct (decide _); [|by rewrite Eg]. apply bind_Some in Eg as (i & Hi & Hf). by rewrite Hi, Hf.
  - assert (meta s !! k = None) as Hk by (apply eq_None_not_Some; intros Hk; apply Hres in Hk; rewrite Eg in Hk; by destruct Hk).
    destruct (guard_cases s d k Hwf Hk) as [(k' & v & ? & ? & Hv & ->)|[-> Hall]]; [left|by right].
    exists k', v. split_and!; try done. intros He. rewrite reuse_violation_key, He in Hv.
    by rewrite (proj2 (reuse_violation_against_None _ _) eq_refl) in Hv.
Qed.

(** ** The SSD tier along a put *)

Lemma durable_get_raw s d k b : store_wf s → durable s d k = Some b → get_raw k d s = Some b.
Proof.
  intros Hwf Hb. rewrite get_raw_eq by done. destruct (dram s !! k) eqn:Ed; [|done]. exfalso.
  unfold durable in Hb. apply bind_Some in Hb as (i & Hi & _). eapply wf_dram_ssd; eauto.
Qed.

Lemma ssd_get_raw s d k : store_wf s → is_Some (ssd s !! k) → durable s d k = get_raw k d s.
Proof.
  intros Hwf Hi. rewrite get_raw_eq by done. destruct (dram s !! k) eqn:Ed; [|done]. exfalso. eapply wf_dram_ssd; eauto.
Qed.

Lemma tier_of_ssd s k : store_wf s → tier_of k s = Some LocalSsd → is_Some (ssd s !! k).
Proof. intros Hwf. rewrite tier_of_eq by done. destruct (dram s !! k); [done|]. destruct (ssd s !! k); [eauto|done]. Qed.

Lemma put_prefix_durable k b s d rs ev1 ops1 s1 ev2 k' :
  store_wf s → disk_inv s d rs [] → Forall op_fits ops1 → kv_steps (put_dram k b s).1 ev1 ops1 s1 →
  let d1 := disk_ops (disk_ops d (put_dram k b s).2) ops1 in
  (∀ b', durable s1 d1 k' = Some b' → get_raw k' d s = Some b' ∨ k' = k ∧ b' = b) ∧
  (tier_of k' s = Some LocalSsd → k' ≠ k → k' ∉ ev1 ++ ev2 → durable s1 d1 k' = get_raw k' d s).
Proof.
  intros Hwf Hinv Hfit Hst d1. destruct (put_dram_spec k b s Hwf) as (_ & Hs & _ & _ & _ & _ & Hwf0 & _).
  destruct (put_dram_atomic k b s d rs Hwf Hinv) as [[rs0 Hinv0] _]. pose proof (kv_steps_wf _ _ _ _ Hwf0 Hst) as Hwf1.
  destruct (kv_steps_contents _ _ _ _ _ _ Hwf0 Hinv0 Hfit Hst) as [_ Hc]. specialize (Hc k'). fold d1 in Hc.
  rewrite (put_dram_contents k b s d rs k' Hwf Hinv) in Hc. split.
  - intros b' Hb'%durable_get_raw; [|done]. rewrite Hc in Hb'. destruct (decide (k' ∈ ev1)); [done|]. destruct (decide (k' = k)); [right; by simplify_eq|by left].
  - intros Ht Hne Hev. rewrite ssd_get_raw, Hc; [by rewrite !decide_False by set_solver|done|].
    apply (kv_steps_ssd _ ev1 ops1 s1 k' Hwf0 Hst); [|set_solver]. rewrite Hs, lookup_delete_ne by done. by apply tier_of_ssd.
Qed.

(** ** Theorems *)

(** C20 Every store, opened on any directory after any crash and used, is well formed: the metadata covers exactly the blocks of the
    two tiers, no block is in both, the byte totals are the exact sums of the block sizes and the content index holds exactly the resident
    keys.  And no two blocks share a file, as long as no reopening found a torn frame in the log or a commit without its file. *)
Theorem kv_wellformed s :
  kv_opened s → store_wf s ∧ (∀ k, is_Some (dram s !! k) → is_Some (ssd s !! k) → False) ∧
    ∀ d, kv_reach s d → ∀ k k' id, ssd s !! k = Some id → ssd s !! k' = Some id → k = k'.
Proof.
  intros (Hwf & _)%kv_opened_wf. split_and!; [done|intros k; by apply wf_dram_ssd|]. intros d (_ & _ & _ & rs & Hinv)%kv_reach_inv k k' id Hk Hk'.
  destruct (di_ssd _ _ _ _ Hinv _ _ Hk) as (b & _ & Hl & _), (di_ssd _ _ _ _ Hinv _ _ Hk') as (b' & _ & Hl' & _).
  by eapply (di_inj _ _ _ _ Hinv k k' id (_, _) (_, _)).
Qed.

(** A put always returns: the demotion and eviction loops terminate with both tiers
    within their budgets.  Afterwards the store holds the new bytes under the key and every
    other block as before, except the evicted blocks, which are gone; and the reported tier is the one the
    block is in. *)
Theorem put_within_budget s d k b :
  kv_reach s d →
  ∃ out s' ops, put k b s = Some (out, s', ops) ∧
    dram_bytes s' ≤ dram_capacity s ∧ ssd_bytes s' ≤ ssd_capacity s ∧
    (k ∉ po_evicted out → tier_of k s' = Some (po_tier out)) ∧
    (Forall op_fits ops → ∀ k', get_raw k' (disk_ops d ops) s' =
       if decide (k' ∈ po_evicted out) then None else if decide (k' = k) then Some b else get_raw k' d s).
Proof.
  intros (Hwf & H1 & H2 & rs & Hinv)%kv_reach_inv. destruct (put_unfold k b s Hwf H1 H2) as (out & s' & ops2 & Hp & Hst & Ht & Hb1 & Hb2).
  exists out, s', ((put_dram k b s).2 ++ ops2). destruct (put_dram_spec k b s Hwf) as (_ & _ & Hm & _ & _ & _ & Hwf1 & _).
  split_and!; [done..| |].
  - intros Hk. rewrite Ht. destruct (tier_of k s') eqn:E; [done|]. exfalso. revert E.
    assert (is_Some (meta (put_dram k b s).1 !! k)) as Hres by (rewrite Hm, lookup_insert_eq; eauto).
    destruct (kv_steps_meta _ _ _ _ k Hwf1 Hst Hres Hk) as [m Hm']. unfold tier_of. by rewrite Hm'.
  - intros [_ Hfit]%Forall_app k'. rewrite disk_ops_app.
    destruct (put_dram_atomic k b s d rs Hwf Hinv) as [[rs1 Hinv1] _].
    destruct (kv_steps_contents _ _ _ _ _ _ Hwf1 Hinv1 Hfit Hst) as [_ ->]. by rewrite (put_dram_contents k b s d rs k' Hwf Hinv).
Qed.

(** C18 The identity guard of the byte store: a read returns the bytes stored under exactly
    that key, whichever tier holds them, and never an I/O error; a key that is not resident
    is [Unsafe] only if its content is resident under another identity, whose first difference is the
    violation reported, and [NotFound] only if no such block is resident.  No read
    changes what the store holds. *)
Theorem get_serves_own_bytes s d k :
  kv_reach s d →
  match get_raw k d s with
  | Some b => (get k d s).1 = Ok b
  | None =>
      (∃ k' v, is_Some (tier_of k' s) ∧ block_hash k' = block_hash k ∧ from_key k' ≠ from_key k ∧
         reuse_violation (from_key k) k' = Some v ∧ (get k d s).1 = Err (SUnsafe v)) ∨
      (get k d s).1 = Err SNotFound ∧
        ∀ k', is_Some (tier_of k' s) → block_hash k' = block_hash k → from_key k' = from_key k
  end ∧ ∀ k', get_raw k' d (get k d s).2 = get_raw k' d s.
Proof.
  intros (Hwf & _ & _ & rs & Hinv)%kv_reach_inv. split; [|intros k'; by apply get_contents].
  apply get_serves; [done|]. intros k'. by apply (get_raw_resident s d rs []).
Qed.

(** C19 Restart round trip: reopening the directory of a stopped store gives back its SSD tier, every block with its bytes, and
    nothing else; the DRAM tier is empty.  The store may have been reopened before, after a stop or a crash, as long as none of those reopenings
    found a torn frame in the log or a commit without its file. *)
Theorem restart_restores_ssd s d c1 c2 :
  kv_reach s d →
  ∃ s', store_recover d c1 c2 = Some s' ∧ dram_bytes s' = 0 ∧
    ∀ k, tier_of k s' = (if decide (tier_of k s = Some LocalSsd) then Some LocalSsd else None) ∧
         get_raw k d s' = if decide (tier_of k s = Some LocalSsd) then get_raw k d s else None.
Proof.
  intros (Hwf & _ & _ & rs & Hinv)%kv_reach_inv. destruct (recover_disk_inv s d rs [] c1 c2 Hinv) as (s' & Hr & Hwf' & Hs & Hd & _).
  destruct (recovered_get s s' d rs [] c1 c2 Hinv Hr) as [_ Hg]. exists s'. split; [done|]. split.
  { rewrite (wf_dram_bytes _ Hwf'). apply bytes_in_zero. intros k m Hm Ht. apply (wf_meta _ Hwf') in Hm as [_ [[_ Hk]|[? _]]]; [|congruence].
    rewrite Hd, lookup_empty in Hk. by destruct Hk. }
  intros k. rewrite Hg, (get_raw_eq s d k Hwf), (tier_of_eq s k Hwf), (tier_of_eq s' k Hwf'), Hd, Hs, lookup_empty.
  unfold durable. destruct (dram s !! k) as [b|] eqn:Ed, (ssd s !! k) as [i|] eqn:Es; cbn; try done.
  exfalso. eapply (wf_dram_ssd s k); eauto.
Qed.

(** C17 Crash safety: stop the process at any point of a put, the write in progress torn at any
    byte.  Recovery then succeeds; every block it finds has bytes the store held under
    that key before the put, or is the block being put with its new bytes; and every block
    that was on the SSD, apart from the one being replaced and the ones the put evicts, is still there.  The store may have been
    reopened before, after a stop or a crash, as long as none of those reopenings found a torn frame in the log or a commit without its file. *)
Theorem put_crash_safe s d k b out s' ops d' c1 c2 :
  kv_reach s d → put k b s = Some (out, s', ops) → Forall op_fits ops → crashed d ops d' →
  ∃ r, store_recover d' c1 c2 = Some r ∧ ∀ k',
    (∀ b', get_raw k' d' r = Some b' → get_raw k' d s = Some b' ∨ k' = k ∧ b' = b) ∧
    (tier_of k' s = Some LocalSsd → k' ≠ k → k' ∉ po_evicted out → get_raw k' d' r = get_raw k' d s).
Proof.
  intros (Hwf & H1 & H2 & rs & Hinv)%kv_reach_inv Hp Hfit Hcr.
  destruct (put_unfold k b s Hwf H1 H2) as (out' & s'' & ops2 & Hp' & Hst & _). rewrite Hp in Hp'. simplify_eq.
  apply Forall_app in Hfit as [_ Hfit]. destruct (put_dram_atomic k b s d rs Hwf Hinv) as [[rs1 Hinv1] Hat].
  destruct (put_dram_spec k b s Hwf) as (Hd1 & Hs1 & _ & _ & _ & _ & Hwf1 & _).
  apply crashed_app in Hcr as [Hcr|Hcr].
  - apply Hat in Hcr as (rs2 & t & [[Hi Hdur]|[Hi Hdur]]); destruct (recover_disk_inv _ _ _ _ c1 c2 Hi) as (r & Hr & _);
      exists r; (split; [done|]); destruct (recovered_get _ _ _ _ _ _ _ Hi Hr) as [_ Hg]; intros k'; rewrite Hg, Hdur.
    + split; [intros b' Hb'; left; by apply durable_get_raw|]. intros Ht _ _. apply ssd_get_raw; [done|by apply tier_of_ssd].
    + apply (put_prefix_durable k b s d rs [] [] _ (po_evicted out')); try done; constructor.
  - destruct (kv_steps_crash _ _ _ _ _ _ _ Hwf1 Hinv1 Hfit Hst Hcr) as (s1 & ev1 & ops1 & ev2 & ops3 & rs2 & t & Hev & -> & Hst1 & Hi & Hdur).
    apply Forall_app in Hfit as [Hfit1 _]. destruct (recover_disk_inv _ _ _ _ c1 c2 Hi) as (r & Hr & _). exists r. split; [done|].
    destruct (recovered_get _ _ _ _ _ _ _ Hi Hr) as [_ Hg]. intros k'. rewrite Hg, Hdur, Hev.
    by apply (put_prefix_durable k b s d rs ev1 ops1 s1 ev2).
Qed.
End reach.
