(* ===== verification/KvExamples.v ===== *)
(** * The local KV byte store: runs

    A concrete codec, runs that instantiate the theorems, and three runs that show
    behaviour outside them: commits appended after a torn log tail, a file number used
    again after recovery, and the tier reported for a block that did not fit. *)
From S2P Require Import Prelude Identity MemIndex MemIndexProofs Router OpLog KvStore KvStoreProofs KvCrash KvTheorems.

(** Each field as the number of its binary digits and the digits; a byte-sum checksum. *)
Definition enc_fields (ps : list positive) : Bytes := ps ≫= λ p, Z.of_nat (length (pos_bits p)) :: pos_bits p.
Fixpoint dec_fields (fuel : nat) (l : Bytes) : list positive :=
  match fuel, l with
  | S fuel', n :: r => bits_pos (take (Z.to_nat n) r) :: dec_fields fuel' (drop (Z.to_nat n) r)
  | _, _ => []
  end.

Lemma dec_enc_fields ps fuel : (length ps ≤ fuel)%nat → dec_fields fuel (enc_fields ps) = ps.
Proof.
  revert fuel. induction ps as [|p ps IH]; intros fuel Hf; [by destruct fuel|]. destruct fuel as [|fuel]; [simpl in Hf; lia|].
  change (enc_fields (p :: ps)) with (Z.of_nat (length (pos_bits p)) :: pos_bits p ++ enc_fields ps). cbn [dec_fields].
  rewrite Nat2Z.id, take_app_length, drop_app_length, bits_pos_bits, IH; [done|]. simpl in Hf. lia.
Qed.

Definition key_fields (k : KvBlockKey) : list positive :=
  [countable.encode (model_id k); countable.encode (tokenizer_id k); countable.encode (adapter_id k); countable.encode (tenant_id k);
   countable.encode (prefix_hash k); countable.encode (block_hash k); countable.encode (block_index k); countable.encode (token_count k)].
Definition key_of (a b c d e f g h : positive) : option KvBlockKey :=
  a ← countable.decode a; b ← countable.decode b; c ← countable.decode c; d ← countable.decode d;
  e ← countable.decode e; f ← countable.decode f; g ← countable.decode g; h ← countable.decode h;
  Some (mkKey a b c d e f g h).

Definition wal_bits : WalCodec.
Proof.
  refine {| wal_encode r := enc_fields (match r with
              | WCommit k i l c => key_fields k ++ [countable.encode i; countable.encode l; countable.encode c]
              | WRemove k => key_fields k end);
            wal_decode l := match dec_fields 11 l with
              | [a; b; c; d; e; f; g; h] => WRemove <$> key_of a b c d e f g h
              | [a; b; c; d; e; f; g; h; i; l; z] =>
                  k ← key_of a b c d e f g h; i ← countable.decode i; l ← countable.decode l; z ← countable.decode z; Some (WCommit k i l z)
              | _ => None end;
            wal_crc l := foldr Z.add 0 l mod 4294967296 |}.
  - intros r. rewrite dec_enc_fields by (destruct r; simpl; lia).
    destruct r as [[] i l z|[]]; cbv beta iota zeta delta [key_fields app key_of]; rewrite !countable.decode_encode; done.
  - intros bs. unfold is_u32, u32_max. pose proof (Z.mod_pos_bound (foldr Z.add 0 bs) 4294967296 ltac:(lia)). lia.
Defined.
#[local] Existing Instance wal_bits.
#[local] Existing Instance canonical_iter.

Definition kv_a : KvBlockKey := key_new "m" "t" "ten" "r" "a" 0 1.
Definition kv_b : KvBlockKey := key_new "m" "t" "ten" "r" "b" 0 1.
(** The content of [kv_a] for another tenant. *)
Definition kv_a' : KvBlockKey := key_new "m" "t" "two" "r" "a" 0 1.
Definition no_disk : SsdDir := mkDisk ∅ [].

(** A put on a (store, disk) pair, with its outcome and writes. *)
Definition run_put (k : KvBlockKey) (b : Bytes) (x : LocalKvStore * SsdDir) : option (LocalKvStore * SsdDir) :=
  '(_, s', ops) ← put k b x.1; Some (s', disk_ops x.2 ops).


Definition op_fitsb (o : DiskOp) : bool := match o with AppendWal bs => Z.of_nat (length bs) <=? 8 + u32_max | _ => true end.
Lemma op_fitsb_all ops : forallb op_fitsb ops = true → Forall op_fits ops.
Proof.
  intros Hf. apply Forall_forall. intros o Ho. rewrite forallb_forall in Hf. apply list_elem_of_In, Hf in Ho.
  destruct o; cbn in *; [done|by apply Z.leb_le|done].
Qed.

Lemma run_put_reach k b s d s' d' :
  kv_reach s d → run_put k b (s, d) = Some (s', d') →
  forallb op_fitsb (from_option snd [] (put k b s)) = true → kv_reach s' d'.
Proof.
  unfold run_put. intros Hr ([[out s1] ops] & Hp & [= <- <-])%bind_Some Hf. cbn in Hp. rewrite Hp in Hf.
  eapply kr_put; [done|exact Hp|by apply op_fitsb_all].
Qed.

Definition no_run : LocalKvStore * SsdDir := (store_new 0 0, no_disk).
Definition demo0 : LocalKvStore * SsdDir := default no_run (run_put kv_a [1; 2; 3] (store_new 3 4, no_disk)).
Definition demo1 : LocalKvStore * SsdDir := default no_run (run_put kv_b [4] demo0).

Lemma demo1_reach : kv_reach demo1.1 demo1.2.
Proof.
  assert (kv_reach demo0.1 demo0.2) as H0.
  { apply (run_put_reach kv_a [1; 2; 3] (store_new 3 4) no_disk).
    - change no_disk with (disk_new no_disk). constructor; lia.
    - rewrite <- surjective_pairing. run.
    - vm_compute; reflexivity. }
  apply (run_put_reach kv_b [4] demo0.1 demo0.2 _ _ H0).
  - rewrite <- !surjective_pairing. run.
  - vm_compute; reflexivity.
Qed.

Lemma run_put_opened k b s d s' d' : kv_opened s → run_put k b (s, d) = Some (s', d') → kv_opened s'.
Proof. unfold run_put. intros Ho ([[out s1] ops] & Hp & [= <- <-])%bind_Some. by eapply ko_put. Qed.
Lemma demo1_opened : kv_opened demo1.1.
Proof.
  apply (run_put_opened kv_b [4] demo0.1 demo0.2 _ demo1.2); [|rewrite <- !surjective_pairing; run].
  apply (run_put_opened kv_a [1; 2; 3] (store_new 3 4) no_disk _ demo0.2); [constructor; lia|rewrite <- surjective_pairing; run].
Qed.

Lemma kv_wellformed_witness : store_wf demo1.1 ∧ ∀ k k' id, ssd demo1.1 !! k = Some id → ssd demo1.1 !! k' = Some id → k = k'.
Proof.
  destruct (kv_wellformed demo1.1 demo1_opened) as (Hwf & _ & Hf). split; [exact Hwf|exact (Hf demo1.2 demo1_reach)].
Defined.

Lemma put_within_budget_witness :
  ∃ out s' ops, put kv_a [7; 8] demo1.1 = Some (out, s', ops) ∧ dram_bytes s' ≤ 3 ∧ ssd_bytes s' ≤ 4.
Proof.
  destruct (put_within_budget demo1.1 demo1.2 kv_a [7; 8] demo1_reach) as (out & s' & ops & H1 & H2 & H3 & _).
  exists out, s', ops. split; [exact H1|]. split; [exact H2|exact H3].
Defined.

Lemma demo1_kv_a : get_raw kv_a demo1.2 demo1.1 = Some [1; 2; 3] ∧ get_raw kv_b demo1.2 demo1.1 = Some [4] ∧
  tier_of kv_a demo1.1 = Some LocalSsd ∧ tier_of kv_b demo1.1 = Some CpuDram.
Proof. split_and!; vm_compute; reflexivity. Qed.

Lemma get_serves_own_bytes_witness :
  (get kv_a demo1.2 demo1.1).1 = Ok [1; 2; 3] ∧ (get kv_a' demo1.2 demo1.1).1 = Err (SUnsafe VTenant).
Proof.
  split.
  - destruct (get_serves_own_bytes demo1.1 demo1.2 kv_a demo1_reach) as [Hg _]. rewrite (proj1 demo1_kv_a) in Hg. exact Hg.
  - vm_compute. reflexivity.
Defined.

(** With no DRAM every put goes to the SSD at once.  [kv_a] is committed; a put of [kv_b] crashes with its file half written, and
    the store is opened again. *)
Definition no_put : PutOutcome * LocalKvStore * list DiskOp := (mkPutOutcome CpuDram [], store_new 0 0, []).
Definition ssd_only : LocalKvStore := store_new 0 100.
Definition reuse0 : LocalKvStore * SsdDir := default no_run (run_put kv_a [1; 2] (ssd_only, no_disk)).
Definition half_put : PutOutcome * LocalKvStore * list DiskOp := default no_put (put kv_b [5; 6] reuse0.1).
Definition half_disk : SsdDir := disk_op reuse0.2 (WriteFile 2 (take 1 [5; 6])).
Definition half_store : LocalKvStore := default (store_new 0 0) (store_recover half_disk 0 100).

Lemma half_store_reach : kv_reach half_store half_disk.
Proof.
  assert (kv_reach reuse0.1 reuse0.2) as H0.
  { apply (run_put_reach kv_a [1; 2] ssd_only no_disk).
    - change no_disk with (disk_new no_disk). constructor; lia.
    - rewrite <- surjective_pairing. run.
    - vm_compute; reflexivity. }
  apply (kr_reopen reuse0.1 reuse0.2 half_put.2 half_disk 0 100 half_store H0); [..|lia|lia|run|].
  - apply (kw_put _ kv_b [5; 6] half_put.1.1 half_put.1.2). rewrite <- !surjective_pairing. run.
  - apply op_fitsb_all. vm_compute. reflexivity.
  - assert (half_put.2 = WriteFile 2 [5; 6] :: drop 1 half_put.2) as -> by (vm_compute; reflexivity). apply cr_torn_file.
  - exists [WCommit kv_a 1 2 (wal_crc [1; 2])]. split; [|vm_compute; reflexivity]. repeat constructor. vm_compute. discriminate.
  - intros live k Hl Hk. assert (wal_replay (wal half_disk) = Some {[kv_a := (1, 2, wal_crc [1; 2])]}) as E by (apply (bool_decide_eq_true_1 _); vm_compute; reflexivity).
    rewrite E in Hl. injection Hl as <-. destruct Hk as [e [<- _]%lookup_singleton_Some]. exists 1. vm_compute. reflexivity.
Qed.

Lemma restart_restores_ssd_witness :
  ∃ s', store_recover half_disk 3 4 = Some s' ∧ get_raw kv_a half_disk s' = Some [1; 2] ∧ get_raw kv_b half_disk s' = None.
Proof.
  destruct (restart_restores_ssd half_store half_disk 3 4 half_store_reach) as (s' & Hr & _ & Hk). exists s'. split; [exact Hr|].
  rewrite (proj2 (Hk kv_a)), (proj2 (Hk kv_b)). split; vm_compute; reflexivity.
Defined.

(** The put that replaces [kv_a] unlinks its file and demotes [kv_b]; here the crash tears
    the new file. *)
Definition demo_put : PutOutcome * LocalKvStore * list DiskOp := default no_put (put kv_a [7; 8; 9] demo1.1).
Lemma demo_put_eq : put kv_a [7; 8; 9] demo1.1 = Some (demo_put.1.1, demo_put.1.2, demo_put.2).
Proof. rewrite <- !surjective_pairing. run. Qed.
Lemma demo_put_fits : Forall op_fits demo_put.2.
Proof. apply op_fitsb_all. vm_compute. reflexivity. Qed.
Definition demo_torn : SsdDir := disk_op (disk_op demo1.2 (Unlink 1)) (WriteFile 2 (take 0 [4])).
Lemma demo_torn_crashed : crashed demo1.2 demo_put.2 demo_torn.
Proof.
  assert (demo_put.2 = [Unlink 1; WriteFile 2 [4]] ++ drop 2 demo_put.2) as -> by (vm_compute; reflexivity).
  apply cr_next. apply cr_torn_file.
Qed.

Lemma put_crash_safe_witness :
  ∃ r, store_recover demo_torn 3 4 = Some r ∧
    (∀ b', get_raw kv_a demo_torn r = Some b' → get_raw kv_a demo1.2 demo1.1 = Some b' ∨ kv_a = kv_a ∧ b' = [7; 8; 9]).
Proof.
  destruct (put_crash_safe demo1.1 demo1.2 kv_a [7; 8; 9] demo_put.1.1 demo_put.1.2 demo_put.2 demo_torn 3 4
    demo1_reach demo_put_eq demo_put_fits demo_torn_crashed) as (r & Hr & Hk).
  exists r. split; [exact Hr|]. exact (proj1 (Hk kv_a)).
Defined.

(** ** Behaviour outside the theorems *)

(** The disk after a crash that tore the commit of the first put, the store recovered from
    it, and the store and disk after one more put. *)
Definition torn_disk : SsdDir :=
  disk_op (disk_op no_disk (WriteFile 1 [1; 2])) (AppendWal (take 20 (wal_frame (WCommit kv_a 1 2 (wal_crc [1; 2]))))).
Definition torn_put : PutOutcome * LocalKvStore * list DiskOp := default no_put (put kv_a [1; 2] ssd_only).
Definition torn_store : LocalKvStore := default (store_new 0 0) (store_recover torn_disk 0 100).
Definition after_torn : LocalKvStore * SsdDir := default no_run (run_put kv_b [5; 6] (torn_store, torn_disk)).

(** Commits that follow a torn log tail are lost: recovery reopens the log in append mode
    and leaves the torn frame in it, so the next commit lands behind bytes that stop every later
    replay.  The block is on the SSD, committed and synced, and the next
    recovery does not find it. *)
Theorem commit_after_torn_tail_lost :
  (∃ out s ops, put kv_a [1; 2] ssd_only = Some (out, s, ops) ∧ crashed no_disk ops torn_disk) ∧
  ∃ s0 s d s', store_recover torn_disk 0 100 = Some s0 ∧ run_put kv_b [5; 6] (s0, torn_disk) = Some (s, d) ∧
    tier_of kv_b s = Some LocalSsd ∧ get_raw kv_b d s = Some [5; 6] ∧ store_recover d 0 100 = Some s' ∧ tier_of kv_b s' = None.
Proof.
  split.
  - exists torn_put.1.1, torn_put.1.2, torn_put.2. split; [rewrite <- !surjective_pairing; run|].
    assert (torn_put.2 = [WriteFile 1 [1; 2]; AppendWal (wal_frame (WCommit kv_a 1 2 (wal_crc [1; 2])))]) as -> by (vm_compute; reflexivity).
    apply cr_next. unfold torn_disk. apply cr_torn_wal.
  - exists torn_store, after_torn.1, after_torn.2, (default (store_new 0 0) (store_recover after_torn.2 0 100)).
    split; [run|]. split; [rewrite <- surjective_pairing; run|]. split; [vm_compute; reflexivity|].
    split; [vm_compute; reflexivity|]. split; [run|vm_compute; reflexivity].
Qed.

(** A block is committed, then replaced; the crash comes after its file is unlinked. *)
Definition reuse_put : PutOutcome * LocalKvStore * list DiskOp := default no_put (put kv_a [3; 4] reuse0.1).
Definition reuse_disk : SsdDir := disk_op reuse0.2 (Unlink 1).
(** Recover, put another block with the same bytes, restart. *)
Definition reuse_store : LocalKvStore := default (store_new 0 0) (store_recover reuse_disk 0 100).
Definition reuse1 : LocalKvStore * SsdDir := default no_run (run_put kv_b [1; 2] (reuse_store, reuse_disk)).
Definition reuse2 : LocalKvStore := default (store_new 0 0) (store_recover reuse1.2 0 100).

(** A file number is used again after recovery: the next number is taken from the
    commits that survived verification, so a commit whose file is missing can be given a file by a later
    block.  If the bytes match, the next restart serves both keys from the one file, and dropping
    the first leaves the second resident with its file deleted: a read of it is an I/O error. *)
Theorem file_number_reuse_dangles :
  (∃ out s' ops, run_put kv_a [1; 2] (ssd_only, no_disk) = Some reuse0 ∧ put kv_a [3; 4] reuse0.1 = Some (out, s', ops) ∧
     crashed reuse0.2 ops reuse_disk) ∧
  store_recover reuse_disk 0 100 = Some reuse_store ∧ run_put kv_b [1; 2] (reuse_store, reuse_disk) = Some reuse1 ∧
  store_recover reuse1.2 0 100 = Some reuse2 ∧ ssd reuse2 !! kv_a = Some 1 ∧ ssd reuse2 !! kv_b = Some 1 ∧
  (drop_block kv_a reuse2).1.1 = true ∧ tier_of kv_b (drop_block kv_a reuse2).1.2 = Some LocalSsd ∧
  (get kv_b (disk_ops reuse1.2 (drop_block kv_a reuse2).2) (drop_block kv_a reuse2).1.2).1 = Err SIo.
Proof.
  split.
  - exists reuse_put.1.1, reuse_put.1.2, reuse_put.2. split; [run|]. split; [rewrite <- !surjective_pairing; run|].
    assert (reuse_put.2 = Unlink 1 :: drop 1 reuse_put.2) as -> by (vm_compute; reflexivity).
    apply cr_next. apply cr_here.
  - split; [run|]. split; [run|]. split; [run|]. split; [vm_compute; reflexivity|]. split; [vm_compute; reflexivity|].
    split; [vm_compute; reflexivity|]. split; vm_compute; reflexivity.
Qed.

Definition over_put : PutOutcome * LocalKvStore * list DiskOp := default no_put (put kv_a [1; 2; 3] (store_new 1 2)).

(** A block larger than both budgets is dropped by the put that stores it, which still
    reports that it landed in DRAM. *)
Theorem oversized_put_reports_dram :
  ∃ out s ops, put kv_a [1; 2; 3] (store_new 1 2) = Some (out, s, ops) ∧
    po_tier out = CpuDram ∧ po_evicted out = [kv_a] ∧ tier_of kv_a s = None ∧ (get kv_a (disk_ops no_disk ops) s).1 = Err SNotFound.
Proof.
  exists over_put.1.1, over_put.1.2, over_put.2. split; [rewrite <- !surjective_pairing; run|]. split_and!; vm_compute; reflexivity.
Qed.
