(* ===== verification/DiskTier.v ===== *)
(** * The durable disk tier

    crates/quillcache-store/src/disk_tier.rs: [DiskTier] keeps the [Disk] replicas of a node
    in a [LocalKvStore] without DRAM.  An object is stored under a key made of its name and
    the identity of its writer, so the byte store's guard applies to it. *)
From S2P Require Import Prelude Identity MemIndex MemIndexProofs Router BufferAllocator StoreTypes OpLog KvStore KvStoreProofs KvCrash KvTheorems KvExamples.

Record DiskTier : Type := mkDiskTier { dt_store : LocalKvStore }.

Definition durable_key (key : string) (scope : IdentityScope) : KvBlockKey :=
  mkKey (s_model_id scope) (s_tokenizer_id scope) (s_adapter_id scope) (s_tenant_id scope) "" key 0 0.

Definition dt_open (d : SsdDir) : DiskTier * SsdDir := (mkDiskTier (store_new 0 u64_max), disk_new d).

Section tier.
Context `{WalCodec} `{HashIter}.
Implicit Types (t : DiskTier) (d : SsdDir).

Definition dt_recover d : option DiskTier := mkDiskTier <$> store_recover d 0 u64_max.

Definition dt_put (key : string) (scope : IdentityScope) (data : Bytes) t : result ErrorCode ReplicaData * DiskTier * list DiskOp :=
  let object_size := Z.of_nat (length data) in
  let durable := durable_key key scope in
  let '(s1, ops1) := put_dram durable data (dt_store t) in
  let '(_, s2, ops2) := demote_to_ssd durable s1 in
  (Ok (Disk ("durable:" +:+ key) object_size), mkDiskTier s2, ops1 ++ ops2).

Definition dt_get (key : string) (scope : IdentityScope) d t : result ErrorCode Bytes * DiskTier :=
  let '(r, s') := get (durable_key key scope) d (dt_store t) in
  (match r with
   | Ok bytes => Ok bytes
   | Err (SUnsafe violation) => Err (UnsafeReuse violation)
   | Err _ => Err ObjectNotFound
   end, mkDiskTier s').

Definition dt_len t : Z := store_len (dt_store t).

(** ** Lemmas *)

Lemma from_durable_key key scope : from_key (durable_key key scope) = scope.
Proof. by destruct scope. Qed.

(** A put: the block enters DRAM, its old file is unlinked, and it is demoted. *)
Lemma dt_put_spec key scope b t :
  store_wf (dt_store t) → let k := durable_key key scope in let s1 := (put_dram k b (dt_store t)).1 in
  ∃ s2 ops2, demote_to_ssd k s1 = (true, s2, ops2) ∧
    dt_put key scope b t = (Ok (Disk ("durable:" +:+ key) (Z.of_nat (length b))), mkDiskTier s2, (put_dram k b (dt_store t)).2 ++ ops2).
Proof.
  intros Hwf k s1. destruct (put_dram_spec k b (dt_store t) Hwf) as (Hd & _ & _ & _ & _ & _ & Hwf1 & _). fold s1 in Hd, Hwf1.
  destruct (demote_to_ssd k s1) as [[ok s2] ops2] eqn:Ed. pose proof (demote_spec _ _ _ _ _ Hwf1 Ed) as Hs.
  rewrite Hd, lookup_insert_eq in Hs. destruct Hs as [-> _]. exists s2, ops2. split; [done|].
  unfold dt_put. fold k. rewrite (surjective_pairing (put_dram k b (dt_store t))). fold s1. by rewrite Ed.
Qed.

(** The blocks a recovered store reads. *)
Lemma recovered_resident s s' d rs tl c1 c2 :
  disk_inv s d rs tl → store_recover d c1 c2 = Some s' → ∀ k, is_Some (meta s' !! k) → is_Some (get_raw k d s').
Proof.
  intros Hinv Hr k Hk. destruct (recovered_get s s' d rs tl c1 c2 Hinv Hr) as [Hwf Hg].
  destruct (recover_disk_inv s d rs tl c1 c2 Hinv) as (s'' & Hr' & _ & Hs & Hd & _). rewrite Hr in Hr'. simplify_eq.
  rewrite Hg. destruct Hk as [m Hm]. destruct (wf_meta _ Hwf _ _ Hm) as [_ [[_ Hk]|[_ [i Hi]]]].
  - rewrite Hd, lookup_empty in Hk. by destruct Hk.
  - rewrite Hs in Hi. unfold durable. rewrite Hi. destruct (di_ssd _ _ _ _ Hinv _ _ Hi) as (b & Hb & _). cbn. rewrite Hb. eauto.
Qed.

(** Demoting a block leaves the others' files alone. *)
Lemma demote_files k s s' d rs ops k' :
  store_wf s → disk_inv s d rs [] → demote_to_ssd k s = (true, s', ops) → k' ≠ k → durable s' (disk_ops d ops) k' = durable s d k'.
Proof.
  intros Hwf Hinv Hd Hne. apply demote_ok in Hd as (b & _ & _ & _ & Hs & _ & _ & _ & _ & ->); [|done].
  rewrite <- (durable_file s d rs [] (next_file s + 1) b k') by (done || lia). unfold durable. by rewrite Hs, lookup_insert_ne.
Qed.

(** A durable put survives a restart and stays guarded: once a put has returned, reopening
    the directory serves the object to the identity that wrote it.  Any other identity gets bytes only if it stored
    them itself under that name, and otherwise the refusal, never the writer's bytes. *)
Theorem disk_put_survives_restart t d key scope b rep t' ops :
  kv_reach (dt_store t) d → dt_put key scope b t = (rep, t', ops) → Forall op_fits ops →
  rep = Ok (Disk ("durable:" +:+ key) (Z.of_nat (length b))) ∧
  ∃ r, dt_recover (disk_ops d ops) = Some r ∧ (dt_get key scope (disk_ops d ops) r).1 = Ok b ∧
    ∀ scope', scope' ≠ scope →
      match (dt_get key scope' (disk_ops d ops) r).1 with
      | Ok b' => get_raw (durable_key key scope') d (dt_store t) = Some b'
      | Err (UnsafeReuse v) => True
      | Err _ => False
      end.
Proof.
  intros (Hwf & _ & _ & rs & Hinv)%kv_reach_inv Hp Hfit. set (k := durable_key key scope).
  destruct (dt_put_spec key scope b t Hwf) as (s2 & ops2 & Hd & Hp'). rewrite Hp in Hp'. simplify_eq. split; [done|]. fold k in Hd, Hfit |- *.
  destruct (put_dram_spec k b (dt_store t) Hwf) as (Hdr & _ & _ & _ & _ & _ & Hwf1 & _).
  destruct (put_dram_atomic k b (dt_store t) d rs Hwf Hinv) as [[rs1 Hinv1] _].
  pose proof Hfit as [_ Hfit2]%Forall_app. destruct (demote_atomic _ _ _ _ _ _ Hwf1 Hinv1 Hd Hfit2) as [[rs2 Hinv2] _].
  pose proof (demote_ok _ _ _ _ Hwf1 Hd) as (b0 & Hb0 & Hwf2 & _ & Hs2 & _). rewrite Hdr, lookup_insert_eq in Hb0. simplify_eq.
  rewrite <- disk_ops_app in Hinv2. set (d' := disk_ops d ((put_dram k b0 (dt_store t)).2 ++ ops2)) in *.
  assert (∀ k', get_raw k' d' s2 = if decide (k' = k) then Some b0 else get_raw k' d (dt_store t)) as Hc.
  { intros k'. unfold d'. rewrite disk_ops_app, (demote_contents _ _ _ _ _ _ k' Hwf1 Hinv1 Hd). by apply (put_dram_contents k b0 (dt_store t) d rs). }
  destruct (recover_disk_inv s2 d' rs2 [] 0 u64_max Hinv2) as (r & Hr & Hwfr & _). exists (mkDiskTier r).
  unfold dt_recover. rewrite Hr. split; [done|]. destruct (recovered_get _ _ _ _ _ _ _ Hinv2 Hr) as [_ Hg].
  pose proof (recovered_resident _ _ _ _ _ _ _ Hinv2 Hr) as Hres.
  assert (get_raw k d' r = Some b0) as Hk.
  { rewrite Hg, ssd_get_raw, Hc; [by rewrite decide_True|done|]. rewrite Hs2, lookup_insert_eq. eauto. }
  unfold dt_get. cbn [dt_store]. fold k. split.
  - pose proof (get_serves r d' k Hwfr Hres) as Hgk. rewrite Hk in Hgk. destruct (get k d' r) as [x sx]. cbn in Hgk |- *. by subst.
  - intros scope' Hne. pose proof (get_serves r d' (durable_key key scope') Hwfr Hres) as Hgk.
    assert (durable_key key scope' ≠ k) as Hkk.
    { intros E. apply Hne. rewrite <- (from_durable_key key scope'), <- (from_durable_key key scope). by f_equal. }
    destruct (get_raw (durable_key key scope') d' r) as [b'|] eqn:Eb, (get (durable_key key scope') d' r) as [x sx]; cbn in Hgk |- *.
    + subst. rewrite Hg in Eb. apply durable_get_raw in Eb; [|done]. by rewrite Hc, decide_False in Eb.
    + destruct Hgk as [(k' & v & _ & _ & _ & _ & ->)|[_ Hall]]; [done|]. exfalso. apply Hne.
      rewrite <- (from_durable_key key scope'), <- (from_durable_key key scope). symmetry. apply Hall; [|done].
      destruct (meta r !! k) as [m|] eqn:Em; [unfold tier_of, k in *; rewrite Em; cbn; eauto|]. by unfold get_raw in Hk; rewrite Em in Hk.
Qed.

(** C21 A crash inside a durable put: recovery succeeds, every other object of the tier is
    intact, and the object itself has its old bytes, its new bytes, or is absent; if it was not there
    before, it is wholly new or absent.  The tier may have been reopened before, after a stop or a crash, as long as none of those
    reopenings found a torn frame in the log or a commit without its file. *)
Theorem disk_put_crash t d key scope b rep t' ops d' :
  kv_reach (dt_store t) d → dt_put key scope b t = (rep, t', ops) → Forall op_fits ops → crashed d ops d' →
  ∃ r, dt_recover d' = Some r ∧ ∀ k,
    if decide (k = durable_key key scope)
    then get_raw k d' (dt_store r) ∈ [durable (dt_store t) d k; None; Some b]
    else get_raw k d' (dt_store r) = durable (dt_store t) d k.
Proof.
  intros (Hwf & _ & _ & rs & Hinv)%kv_reach_inv Hp Hfit Hcr. set (dk := durable_key key scope).
  destruct (dt_put_spec key scope b t Hwf) as (s2 & ops2 & Hd & Hp'). rewrite Hp in Hp'. simplify_eq. fold dk in Hd, Hfit, Hcr.
  destruct (put_dram_spec dk b (dt_store t) Hwf) as (Hdr & Hs1 & _ & _ & _ & _ & Hwf1 & Hu).
  destruct (put_dram_atomic dk b (dt_store t) d rs Hwf Hinv) as [[rs1 Hinv1] Hat1].
  pose proof Hfit as [_ Hfit2]%Forall_app. destruct (demote_atomic _ _ _ _ _ _ Hwf1 Hinv1 Hd Hfit2) as [_ Hat2].
  pose proof (demote_ok _ _ _ _ Hwf1 Hd) as (b0 & Hb0 & Hwf2 & _ & Hs2 & _). rewrite Hdr, lookup_insert_eq in Hb0. injection Hb0 as <-.
  set (s1 := (put_dram dk b (dt_store t)).1) in *. set (d1 := disk_ops d (put_dram dk b (dt_store t)).2) in *.
  assert (∀ k, durable s1 d1 k = if decide (k = dk) then None else durable (dt_store t) d k) as H1.
  { intros k. unfold d1. rewrite Hu, (durable_unlinked _ s1 d rs dk k Hinv Hs1). unfold durable. rewrite Hs1.
    destruct (decide (k = dk)) as [->|]; [by rewrite lookup_delete_eq|by rewrite lookup_delete_ne]. }
  assert (∀ k, durable s2 (disk_ops d1 ops2) k = if decide (k = dk) then Some b else durable (dt_store t) d k) as H2.
  { intros k. destruct (decide (k = dk)) as [->|Hne].
    - rewrite ssd_get_raw, (demote_contents _ _ _ _ _ _ dk Hwf1 Hinv1 Hd); [|done|rewrite Hs2, lookup_insert_eq; eauto].
      rewrite get_raw_eq, Hdr, lookup_insert_eq by done. done.
    - apply (demote_files _ _ _ _ _ _ k Hwf1 Hinv1) in Hd; [|done]. rewrite Hd, H1. by rewrite decide_False. }
  apply crashed_app in Hcr as [(rs' & tl & [[Hi Hdur]|[Hi Hdur]])%Hat1|(rs' & tl & [[Hi Hdur]|[Hi Hdur]])%Hat2];
    destruct (recover_disk_inv _ _ _ _ 0 u64_max Hi) as (r & Hr & _); exists (mkDiskTier r); unfold dt_recover; rewrite Hr;
    (split; [done|]); destruct (recovered_get _ _ _ _ _ _ _ Hi Hr) as [_ Hg]; intros k; cbn [dt_store]; rewrite Hg, Hdur, ?H1, ?H2;
    destruct (decide (k = dk)); try done; set_solver.
Qed.
End tier.

(** ** Runs *)

#[local] Existing Instance wal_bits.
#[local] Existing Instance canonical_iter.

Definition dt_scope : IdentityScope := mkScope "m" "t" None "ten".
Definition dt_other : IdentityScope := mkScope "m" "t" None "two".
Definition dt_fresh : DiskTier := (dt_open no_disk).1.
Lemma dt_fresh_reach : kv_reach (dt_store dt_fresh) no_disk.
Proof. change no_disk with (disk_new no_disk). constructor; vm_compute; discriminate. Qed.

Definition dt_run (t : DiskTier) (b : Bytes) : result ErrorCode ReplicaData * DiskTier * list DiskOp := dt_put "obj" dt_scope b t.
Lemma dt_run_eq t b : dt_put "obj" dt_scope b t = ((dt_run t b).1.1, (dt_run t b).1.2, (dt_run t b).2).
Proof. unfold dt_run. by rewrite <- !surjective_pairing. Qed.
Lemma dt_run_fits : Forall op_fits (dt_run dt_fresh [1; 2]).2.
Proof. apply op_fitsb_all. vm_compute. reflexivity. Qed.

Lemma disk_put_survives_restart_witness :
  ∃ r, dt_recover (disk_ops no_disk (dt_run dt_fresh [1; 2]).2) = Some r ∧
    (dt_get "obj" dt_scope (disk_ops no_disk (dt_run dt_fresh [1; 2]).2) r).1 = Ok [1; 2].
Proof.
  destruct (disk_put_survives_restart dt_fresh no_disk "obj" dt_scope [1; 2] _ _ _ dt_fresh_reach (dt_run_eq dt_fresh [1; 2]) dt_run_fits)
    as (_ & r & Hr & Hg & _).
  exists r. split; [exact Hr|exact Hg].
Defined.

(** The object is stored, then stored again; the crash comes after the old file is unlinked. *)
Definition dt_first : DiskTier := (dt_run dt_fresh [1; 2]).1.2.
Definition dt_disk : SsdDir := disk_ops no_disk (dt_run dt_fresh [1; 2]).2.
Definition dt_crashed : SsdDir := disk_op dt_disk (Unlink 1).

Lemma dt_first_reach : kv_reach (dt_store dt_first) dt_disk.
Proof.
  pose proof (kr_put_dram _ _ (durable_key "obj" dt_scope) [1; 2] dt_fresh_reach) as H1.
  destruct (dt_put_spec "obj" dt_scope [1; 2] dt_fresh (store_new_wf _ _)) as (s2 & ops2 & Hd & Hp).
  pose proof dt_run_fits as Hf. unfold dt_first, dt_disk, dt_run in *. rewrite Hp in *. cbn [fst snd dt_store] in *.
  rewrite disk_ops_app. eapply kr_demote; [exact H1|exact Hd|]. by apply Forall_app in Hf as [_ Hf].
Qed.
Lemma dt_second_fits : Forall op_fits (dt_run dt_first [3; 4]).2.
Proof. apply op_fitsb_all. vm_compute. reflexivity. Qed.
Lemma dt_second_crashed : crashed dt_disk (dt_run dt_first [3; 4]).2 dt_crashed.
Proof.
  assert ((dt_run dt_first [3; 4]).2 = Unlink 1 :: drop 1 (dt_run dt_first [3; 4]).2) as -> by (vm_compute; reflexivity).
  apply cr_next. apply cr_here.
Qed.

Lemma disk_put_crash_witness :
  ∃ r, dt_recover dt_crashed = Some r ∧
    get_raw (durable_key "obj" dt_scope) dt_crashed (dt_store r) ∈ [durable (dt_store dt_first) dt_disk (durable_key "obj" dt_scope); None; Some [3; 4]].
Proof.
  destruct (disk_put_crash dt_first dt_disk "obj" dt_scope [3; 4] _ _ _ dt_crashed dt_first_reach (dt_run_eq dt_first [3; 4])
    dt_second_fits dt_second_crashed) as (r & Hr & Hk).
  exists r. split; [exact Hr|]. specialize (Hk (durable_key "obj" dt_scope)). rewrite decide_True in Hk by reflexivity. exact Hk.
Defined.

(** Storing an object again is not atomic: its old file is unlinked before the new one is
    written, so a crash in between loses an object whose earlier put was durable. *)
Theorem durable_overwrite_window :
  (∃ r, dt_recover dt_disk = Some r ∧ (dt_get "obj" dt_scope dt_disk r).1 = Ok [1; 2]) ∧
  crashed dt_disk (dt_run dt_first [3; 4]).2 dt_crashed ∧
  ∃ r, dt_recover dt_crashed = Some r ∧ (dt_get "obj" dt_scope dt_crashed r).1 = Err ObjectNotFound.
Proof.
  split; [|split; [exact dt_second_crashed|]].
  - exists (default dt_fresh (dt_recover dt_disk)). split; [run|vm_compute; reflexivity].
  - exists (default dt_fresh (dt_recover dt_crashed)). split; [run|vm_compute; reflexivity].
Qed.
