(* ===== verification/StorePlane.v ===== *)
(** * The tiered block manager

    [StoreDataPlane] of crates/quillcache-store/src/lib.rs: per worker, the blocks of each
    tier and, for the blocks stored with their bytes, a [LocalKvStore] whose tier moves
    follow the metadata.  It implements the [DataPlane] seam of the control plane.  The
    SSD directories of the byte pools are part of the state.  Sums of bytes and transfer
    costs are [u64]: their overflow is a panic ([None]); event counters and the workers'
    clocks are unbounded. *)
From S2P Require Import Prelude Identity MemIndex Router DataPlane OpLog KvStore.

Record StoreTierConfig : Type := mkTierConfig {
  hbm_capacity_bytes : Z;
  cpu_dram_capacity_bytes : Z;
  local_ssd_capacity_bytes : Z
}.
Definition tier_config_default : StoreTierConfig :=
  mkTierConfig (2 * 1024 * 1024 * 1024) (16 * 1024 * 1024 * 1024) (128 * 1024 * 1024 * 1024).

Record TierEntry : Type := mkEntry { te_residency : CacheResidency; te_last_access : Z }.
Record WorkerCache : Type := mkWorkerCache { wc_entries : gmap KvBlockKey TierEntry; wc_clock : Z }.
Definition worker_cache_default : WorkerCache := mkWorkerCache ∅ 0.

Record StoreDataPlane : Type := mkPlane {
  sp_config : StoreTierConfig;
  sp_workers : gmap string WorkerCache;
  sp_byte_pools : gmap string LocalKvStore;
  sp_dirs : gmap string SsdDir;
  sp_cost : CostModel;
  sp_admits : Z;
  sp_hits : Z;
  sp_promotions : Z;
  sp_demotions : Z;
  sp_evictions : Z
}.

Definition plane_new (config : StoreTierConfig) (dirs : gmap string SsdDir) : StoreDataPlane :=
  mkPlane config ∅ ∅ dirs cost_default 0 0 0 0 0.

Definition capacity (tier : CacheTier) (sp : StoreDataPlane) : Z :=
  match tier with
  | Hbm => hbm_capacity_bytes (sp_config sp)
  | CpuDram => cpu_dram_capacity_bytes (sp_config sp)
  | LocalSsd => local_ssd_capacity_bytes (sp_config sp)
  | RemoteHbm | ObjectStore => 0
  end.
Definition lower_tier (tier : CacheTier) : option CacheTier :=
  match tier with Hbm => Some CpuDram | CpuDram => Some LocalSsd | LocalSsd | RemoteHbm | ObjectStore => None end.
Definition tier_rank (tier : CacheTier) : Z :=
  match tier with Hbm => 0 | RemoteHbm => 1 | CpuDram => 2 | LocalSsd => 3 | ObjectStore => 4 end.

(** ** Field updates *)

Definition set_workers (ws : gmap string WorkerCache) (sp : StoreDataPlane) : StoreDataPlane :=
  mkPlane (sp_config sp) ws (sp_byte_pools sp) (sp_dirs sp) (sp_cost sp) (sp_admits sp) (sp_hits sp) (sp_promotions sp) (sp_demotions sp) (sp_evictions sp).
Definition set_pools (ps : gmap string LocalKvStore) (ds : gmap string SsdDir) (sp : StoreDataPlane) : StoreDataPlane :=
  mkPlane (sp_config sp) (sp_workers sp) ps ds (sp_cost sp) (sp_admits sp) (sp_hits sp) (sp_promotions sp) (sp_demotions sp) (sp_evictions sp).
Definition count_events (a h p d e : Z) (sp : StoreDataPlane) : StoreDataPlane :=
  mkPlane (sp_config sp) (sp_workers sp) (sp_byte_pools sp) (sp_dirs sp) (sp_cost sp)
    (sp_admits sp + a) (sp_hits sp + h) (sp_promotions sp + p) (sp_demotions sp + d) (sp_evictions sp + e).
Definition no_dir : SsdDir := mkDisk ∅ [].
Definition dir_of (worker_id : string) (sp : StoreDataPlane) : SsdDir := default no_dir (sp_dirs sp !! worker_id).
(** A pool's new state and the writes it issued. *)
Definition store_pool (worker_id : string) (s : LocalKvStore) (ops : list DiskOp) (sp : StoreDataPlane) : StoreDataPlane :=
  set_pools (<[worker_id := s]> (sp_byte_pools sp)) (<[worker_id := disk_ops (dir_of worker_id sp) ops]> (sp_dirs sp)) sp.

Section plane.
Context `{WalCodec} `{HashIter}.
Implicit Types sp : StoreDataPlane.

Definition byte_pool_mut (worker_id : string) sp : LocalKvStore * StoreDataPlane :=
  match sp_byte_pools sp !! worker_id with
  | Some s => (s, sp)
  | None =>
      let pool := store_new u64_max u64_max in
      (pool, set_pools (<[worker_id := pool]> (sp_byte_pools sp)) (<[worker_id := disk_new (dir_of worker_id sp)]> (sp_dirs sp)) sp)
  end.

(** The pool's share of a demotion and of an eviction. *)
Definition pool_demote (worker_id : string) (key : KvBlockKey) sp : StoreDataPlane :=
  match sp_byte_pools sp !! worker_id with
  | None => sp
  | Some pool => let '(_, s, ops) := demote_to_ssd key pool in store_pool worker_id s ops sp
  end.
Definition pool_drop (worker_id : string) (key : KvBlockKey) sp : StoreDataPlane :=
  match sp_byte_pools sp !! worker_id with
  | None => sp
  | Some pool => let '(_, s, ops) := drop_block key pool in store_pool worker_id s ops sp
  end.

Definition wc_tier_bytes (w : WorkerCache) (tier : CacheTier) : option Z :=
  u64_sum ((λ e, res_bytes (te_residency e)) <$> filter (λ e, res_tier (te_residency e) = tier) (hvalues (wc_entries w))).
Definition coldest_in_tier (w : WorkerCache) (tier : CacheTier) : option KvBlockKey :=
  fst <$> min_by (λ a b : KvBlockKey * TierEntry, te_last_access a.2 <? te_last_access b.2)
            (filter (λ ke : KvBlockKey * TierEntry, res_tier (te_residency ke.2) = tier) (hiter (wc_entries w))).

Definition action sp (kind : DataPlaneActionKind) (r : CacheResidency) (from_tier to_tier : option CacheTier) : option DataPlaneAction :=
  us ← match (match to_tier with Some t => Some t | None => from_tier end) with
       | Some tier => transfer_cost_us (sp_cost sp) tier (res_bytes r) true true
       | None => Some 0
       end;
  Some (mkDpAction kind (res_worker_id r) (res_key r) from_tier to_tier (res_bytes r) us).

Definition push_action (a : DataPlaneAction) (u : DataPlaneUpdate) : DataPlaneUpdate :=
  mkUpdate (du_actions u ++ [a]) (du_resident u) (du_removed u).
Definition push_removed (r : CacheResidency) (u : DataPlaneUpdate) : DataPlaneUpdate :=
  mkUpdate (du_actions u) (du_resident u) (du_removed u ++ [r]).

Definition at_tier (tier : CacheTier) (worker_id : string) (r : CacheResidency) : CacheResidency :=
  mkResidency (res_key r) worker_id tier (res_bytes r) (res_last_access_ms r) (res_ref_count r) (res_pinned r).

(** The state of the loops: the plane, the worker taken out of it, the update and the keys
    touched. *)
Record Sweep : Type := mkSweep { sw_plane : StoreDataPlane; sw_worker : WorkerCache; sw_update : DataPlaneUpdate; sw_affected : HashSet KvBlockKey }.

(** One turn: the victim goes down a tier, or out. *)
Definition displace (worker_id : string) (tier : CacheTier) (victim_key : KvBlockKey) (victim : TierEntry) (x : Sweep) : option Sweep :=
  let w := sw_worker x in
  let affected := <[victim_key := tt]> (sw_affected x) in
  let rest := delete victim_key (wc_entries w) in
  match lower_tier tier with
  | Some next_tier =>
      let r := at_tier next_tier worker_id (te_residency victim) in
      a ← action (sw_plane x) Demote r (Some (res_tier (te_residency victim))) (Some next_tier);
      let sp := count_events 0 0 0 1 0 (sw_plane x) in
      Some (mkSweep (if decide (next_tier = LocalSsd) then pool_demote worker_id victim_key sp else sp)
        (mkWorkerCache (<[victim_key := mkEntry r (wc_clock w)]> rest) (wc_clock w)) (push_action a (sw_update x)) affected)
  | None =>
      let r := te_residency victim in
      a ← action (sw_plane x) Evict r (Some (res_tier r)) None;
      Some (mkSweep (pool_drop worker_id victim_key (count_events 0 0 0 0 1 (sw_plane x)))
        (mkWorkerCache rest (wc_clock w)) (push_removed r (push_action a (sw_update x))) affected)
  end.

(** A turn takes a block out of the tier: one more turn than there are blocks is enough. *)
Fixpoint tier_loop (fuel : nat) (worker_id : string) (tier : CacheTier) (x : Sweep) : option Sweep :=
  used ← wc_tier_bytes (sw_worker x) tier;
  if capacity tier (sw_plane x) <? used then
    match fuel with
    | O => None
    | S fuel' =>
        match coldest_in_tier (sw_worker x) tier with
        | None => Some x
        | Some victim_key =>
            match wc_entries (sw_worker x) !! victim_key with
            | None => Some x
            | Some victim => x' ← displace worker_id tier victim_key victim x; tier_loop fuel' worker_id tier x'
            end
        end
    end
  else Some x.
Definition sweep_tier (worker_id : string) (tier : CacheTier) (x : Sweep) : option Sweep :=
  tier_loop (S (size (wc_entries (sw_worker x)))) worker_id tier x.
Definition plane_enforce_capacity (worker_id : string) (x : Sweep) : option Sweep :=
  x1 ← sweep_tier worker_id Hbm x; x2 ← sweep_tier worker_id CpuDram x1; sweep_tier worker_id LocalSsd x2.

(** The action and the counters of a placement. *)
Definition place_action (r : CacheResidency) (existing : option TierEntry) sp : option (DataPlaneAction * StoreDataPlane) :=
  let target := res_tier r in
  match existing with
  | None => Some (mkDpAction Admit (res_worker_id r) (res_key r) None (Some target) (res_bytes r) 0, count_events 1 0 0 0 0 sp)
  | Some e =>
      let old := res_tier (te_residency e) in
      if decide (old = target) then
        us ← transfer_cost_us (sp_cost sp) target (res_bytes r) true true;
        Some (mkDpAction Hit (res_worker_id r) (res_key r) (Some target) (Some target) (res_bytes r) us, count_events 0 1 0 0 0 sp)
      else
        us ← transfer_cost_us (sp_cost sp) old (res_bytes r) true true;
        let up := tier_rank target <? tier_rank old in
        Some (mkDpAction (if up then Promote else Demote) (res_worker_id r) (res_key r) (Some old) (Some target) (res_bytes r) us,
              if up then count_events 0 0 1 0 0 sp else count_events 0 0 0 1 0 sp)
  end.

Definition plane_place (r : CacheResidency) sp : option (DataPlaneUpdate * StoreDataPlane) :=
  let worker_id := res_worker_id r in
  let w := default worker_cache_default (sp_workers sp !! worker_id) in
  let sp0 := set_workers (delete worker_id (sp_workers sp)) sp in
  let clock := wc_clock w + 1 in
  let r := mkResidency (res_key r) worker_id (res_tier r) (res_bytes r) clock (res_ref_count r) (res_pinned r) in
  '(a, sp1) ← place_action r (wc_entries w !! res_key r) sp0;
  let w1 := mkWorkerCache (<[res_key r := mkEntry r clock]> (wc_entries w)) clock in
  x ← plane_enforce_capacity worker_id (mkSweep sp1 w1 (push_action a update_default) {[res_key r := tt]});
  let u := sw_update x in
  let resident := omap (λ key, te_residency <$> wc_entries (sw_worker x) !! key) (hkeys (sw_affected x)) in
  Some (mkUpdate (du_actions u) resident (du_removed u), set_workers (<[worker_id := sw_worker x]> (sp_workers (sw_plane x))) (sw_plane x)).

Definition plane_put (worker_id : string) (key : KvBlockKey) (data : Bytes) sp : option StoreDataPlane :=
  let '(pool, sp1) := byte_pool_mut worker_id sp in
  let '(s, ops) := put_dram key data pool in
  '(_, sp2) ← plane_place (mkResidency key worker_id CpuDram (Z.of_nat (length data)) 0 0 false) (store_pool worker_id s ops sp1);
  Some sp2.

Definition plane_get (worker_id : string) (key : KvBlockKey) sp : result StoreError Bytes * StoreDataPlane :=
  match sp_byte_pools sp !! worker_id with
  | None => (Err SNotFound, sp)
  | Some pool => let '(r, s) := get key (dir_of worker_id sp) pool in (r, store_pool worker_id s [] sp)
  end.

Definition plane_tier_of (worker_id : string) (key : KvBlockKey) sp : option CacheTier :=
  w ← sp_workers sp !! worker_id; e ← wc_entries w !! key; Some (res_tier (te_residency e)).
Definition plane_fetch_cost_us (worker_id : string) (key : KvBlockKey) sp : option (option Z) :=
  match sp_workers sp !! worker_id ≫= (λ w, wc_entries w !! key) with
  | None => Some None
  | Some e => c ← transfer_cost_us (sp_cost sp) (res_tier (te_residency e)) (res_bytes (te_residency e)) true true; Some (Some c)
  end.

(** [entry.residency.key], not the map's key, goes into the action. *)
Definition plane_remove_action (worker_id : string) (e : CacheResidency) : DataPlaneAction :=
  mkDpAction Remove worker_id (res_key e) (Some (res_tier e)) None (res_bytes e) 0.
Definition remove_key (worker_id : string) (x : Sweep) (key : KvBlockKey) : Sweep :=
  let w := sw_worker x in
  let u := match wc_entries w !! key with
           | None => sw_update x
           | Some e => push_removed (te_residency e) (push_action (plane_remove_action worker_id (te_residency e)) (sw_update x))
           end in
  mkSweep (pool_drop worker_id key (sw_plane x)) (mkWorkerCache (delete key (wc_entries w)) (wc_clock w)) u (sw_affected x).
Definition plane_remove_block (scope : IdentityScope) (worker_id hash : string) sp : DataPlaneUpdate * StoreDataPlane :=
  match sp_workers sp !! worker_id with
  | None => (update_default, sp)
  | Some w =>
      let keys := filter (λ key, block_hash key = hash ∧ scope_matches scope key = true) (hkeys (wc_entries w)) in
      let x := foldl (remove_key worker_id) (mkSweep sp w update_default ∅) keys in
      (sw_update x, set_workers (<[worker_id := sw_worker x]> (sp_workers (sw_plane x))) (sw_plane x))
  end.

Definition plane_clear_worker (worker_id : string) sp : DataPlaneUpdate * StoreDataPlane :=
  let sp1 := set_pools (delete worker_id (sp_byte_pools sp)) (sp_dirs sp) sp in
  match sp_workers sp !! worker_id with
  | None => (update_default, sp1)
  | Some w =>
      let removed := te_residency <$> hvalues (wc_entries w) in
      (mkUpdate ((λ e, plane_remove_action (res_worker_id e) e) <$> removed) [] removed, set_workers (delete worker_id (sp_workers sp)) sp1)
  end.

Definition plane_snapshot sp : list CacheResidency :=
  hvalues (sp_workers sp) ≫= λ w, te_residency <$> hvalues (wc_entries w).
Definition plane_metrics sp : option DataPlaneMetrics :=
  m ← metrics_of_snapshot (plane_snapshot sp);
  Some (mkDpMetrics (dm_resident_blocks m) (dm_resident_bytes m) (dm_hbm_bytes m) (dm_cpu_dram_bytes m) (dm_local_ssd_bytes m)
          (sp_admits sp) (sp_hits sp) (sp_promotions sp) (sp_demotions sp) (sp_evictions sp)).

#[export] Instance store_data_plane : DataPlane StoreDataPlane := {|
  dp_name := λ _, "store"%string;
  dp_tier_of := plane_tier_of;
  dp_fetch_cost_us := plane_fetch_cost_us;
  dp_place := plane_place;
  dp_remove_block := λ s w h sp, Some (plane_remove_block s w h sp);
  dp_clear_worker := λ w sp, Some (plane_clear_worker w sp);
  dp_snapshot := plane_snapshot;
  dp_metrics := plane_metrics
|}.
End plane.
