(* ===== verification/StorePlaneProofs.v ===== *)
(** * The tiered block manager: invariant and lemmas

    [plane_inv]: a worker's entries sit under their own key and worker, their bytes fit a
    [u64], and every block a byte pool holds is one of the worker's entries.  The sweep of
    [enforce_capacity] terminates, brings each tier within its budget, and records what it
    touches. *)
From S2P Require Import Prelude Identity MemIndex MemIndexProofs Router RouterPlan DataPlane OpLog KvStore KvStoreProofs KvCrash StorePlane.

(** ** Bytes per tier *)

Notation Entries := (gmap KvBlockKey TierEntry).

Definition e_bytes (e : TierEntry) : Z := res_bytes (te_residency e).
Definition e_tier (e : TierEntry) : CacheTier := res_tier (te_residency e).
Definition e_in (t : CacheTier) (e : TierEntry) : Z := if decide (e_tier e = t) then e_bytes e else 0.

Definition entry_ok (worker_id : string) (k : KvBlockKey) (e : TierEntry) : Prop :=
  res_key (te_residency e) = k ∧ res_worker_id (te_residency e) = worker_id ∧ 0 ≤ e_bytes e.
Definition entries_ok (worker_id : string) (M : Entries) : Prop :=
  map_Forall (entry_ok worker_id) M ∧ wsum e_bytes M ≤ u64_max.

Lemma e_in_bounds t e : 0 ≤ e_bytes e → 0 ≤ e_in t e ≤ e_bytes e.
Proof. unfold e_in. case_decide; lia. Qed.

Lemma entries_pos w M : entries_ok w M → map_Forall (λ _ e, 0 ≤ e_bytes e) M.
Proof. intros [HM _] k e Hk. by apply HM in Hk as (_ & _ & ?). Qed.

Lemma wsum_le (f g : TierEntry → Z) (M : Entries) : map_Forall (λ _ e, 0 ≤ f e ≤ g e) M → 0 ≤ wsum f M ≤ wsum g M.
Proof.
  induction M as [|k e M Hk IH] using map_ind; intros HM; [by rewrite !wsum_empty|].
  apply map_Forall_insert in HM as [He HM]; [|done]. rewrite !wsum_insert by done. specialize (IH HM). lia.
Qed.

Lemma wsum_e_in t w M : entries_ok w M → 0 ≤ wsum (e_in t) M ≤ wsum e_bytes M.
Proof. intros HM. apply wsum_le. intros k e Hk. apply (entries_pos _ _ HM) in Hk. by apply e_in_bounds. Qed.

Lemma foldr_filter_tier t l :
  foldr Z.add 0 ((λ e, res_bytes (te_residency e)) <$> filter (λ e, res_tier (te_residency e) = t) l) = foldr Z.add 0 (e_in t <$> l).
Proof.
  induction l as [|e l IH]; [done|]. rewrite filter_cons. cbn. unfold e_in at 1, e_tier, e_bytes.
  destruct (decide (res_tier (te_residency e) = t)); cbn; rewrite IH; lia.
Qed.

Section plane.
Context `{WalCodec} `{HashIter}.
Implicit Types sp : StoreDataPlane.

Lemma wc_tier_bytes_ok w wc t : entries_ok w (wc_entries wc) → wc_tier_bytes wc t = Some (wsum (e_in t) (wc_entries wc)).
Proof.
  intros HM. unfold wc_tier_bytes. pose proof (wsum_e_in t _ _ HM) as Hb.
  rewrite u64_sum_ok; rewrite ?foldr_filter_tier, ?wsum_list; [done| |destruct HM; lia].
  apply Forall_forall. intros z (e & -> & He)%list_elem_of_fmap. apply list_elem_of_filter in He as [_ He].
  apply elem_of_hvalues in He as [k Hk]. by apply (entries_pos _ _ HM) in Hk.
Qed.

Lemma coldest_in_tier_spec wc t :
  match coldest_in_tier wc t with
  | None => wsum (e_in t) (wc_entries wc) = 0
  | Some k => ∃ e, wc_entries wc !! k = Some e ∧ e_tier e = t
  end.
Proof.
  unfold coldest_in_tier. set (l := filter _ _).
  assert (∀ k e, (k, e) ∈ l ↔ wc_entries wc !! k = Some e ∧ e_tier e = t) as Hl.
  { intros k e. unfold l. rewrite list_elem_of_filter, elem_of_hiter. cbn. unfold e_tier. naive_solver. }
  destruct (min_by _ l) as [[k e]|] eqn:Em; cbn.
  - destruct (min_by_is_first_min _ (StrictWeak0 := sw_by_key (λ x : KvBlockKey * TierEntry, te_last_access x.2)) _ _ Em) as (i & Hi & _).
    apply list_elem_of_lookup_2, Hl in Hi as [Hk Ht]. eauto.
  - apply min_by_nil in Em. apply wsum_zero. intros k e Hk. unfold e_in. destruct (decide _) as [Ht|]; [|done].
    assert ((k, e) ∈ l) as Hin by (by apply Hl). rewrite Em in Hin. by apply not_elem_of_nil in Hin.
Qed.

(** With the default prices, no transfer of a [u64] of bytes overflows. *)
Lemma transfer_default t bytes : 0 ≤ bytes ≤ u64_max → is_Some (transfer_cost_us cost_default t bytes true true).
Proof.
  intros Hb. unfold transfer_cost_us. destruct (true && bool_decide (t = Hbm)); [eauto|].
  assert (mib_ceil bytes ≤ 17592186044416) as Hm.
  { unfold mib_ceil, u64_max in *. apply Z.max_lub; [|lia]. apply Z.lt_succ_r, Z.div_lt_upper_bound; lia. }
  assert (0 ≤ mib_ceil bytes) by (unfold mib_ceil; lia).
  assert (tier_us_per_mb cost_default t * mib_ceil bytes ≤ u64_max) as Hle.
  { unfold u64_max. destruct t; cbn; lia. }
  unfold u64_mul. rewrite (proj2 (Z.leb_le _ _) Hle). cbn. eauto.
Qed.

(** ** The byte pools *)

Definition pool_ok (worker_id : string) (M : Entries) sp : Prop :=
  ∀ s, sp_byte_pools sp !! worker_id = Some s → store_wf s ∧ ∀ k, is_Some (meta s !! k) → is_Some (M !! k).

(** Everything but one worker's pool and the counters is as before. *)
Record frame_of (worker_id : string) sp sp' : Prop := {
  fr_config : sp_config sp' = sp_config sp;
  fr_cost : sp_cost sp' = sp_cost sp;
  fr_workers : sp_workers sp' = sp_workers sp;
  fr_pools : ∀ w, w ≠ worker_id → sp_byte_pools sp' !! w = sp_byte_pools sp !! w;
  fr_dirs : ∀ w, w ≠ worker_id → sp_dirs sp' !! w = sp_dirs sp !! w
}.

Lemma frame_refl w sp : frame_of w sp sp.
Proof. done. Qed.
Lemma frame_trans w sp1 sp2 sp3 : frame_of w sp1 sp2 → frame_of w sp2 sp3 → frame_of w sp1 sp3.
Proof.
  intros [A1 A2 A3 A4 A5] [B1 B2 B3 B4 B5]. split; try congruence; intros w' Hw; [rewrite B4 by done|rewrite B5 by done]; auto.
Qed.
Lemma frame_count w a h p d e sp : frame_of w sp (count_events a h p d e sp).
Proof. done. Qed.

Lemma store_pool_frame w s ops sp : frame_of w sp (store_pool w s ops sp).
Proof. split; try done; intros w' Hw; cbn; by rewrite lookup_insert_ne. Qed.

Lemma pool_demote_spec w k M sp : pool_ok w M sp → frame_of w sp (pool_demote w k sp) ∧ pool_ok w M (pool_demote w k sp).
Proof.
  intros Hp. unfold pool_demote. destruct (sp_byte_pools sp !! w) as [s|] eqn:E; [|done]. destruct (Hp s E) as [Hwf Hin].
  destruct (demote_to_ssd k s) as [[ok s'] ops] eqn:Ed. split; [apply store_pool_frame|].
  intros s''. cbn. rewrite lookup_insert_eq. intros [= <-]. pose proof (demote_spec _ _ _ _ _ Hwf Ed) as Hs.
  destruct (dram s !! k); [|by destruct Hs as (_ & -> & _)]. destruct Hs as (_ & Hwf' & _ & _ & Hm & _). split; [done|].
  intros k'. rewrite Hm, lookup_alter_is_Some. apply Hin.
Qed.

Lemma pool_drop_spec w k M sp : pool_ok w M sp → frame_of w sp (pool_drop w k sp) ∧ pool_ok w (delete k M) (pool_drop w k sp).
Proof.
  intros Hp. unfold pool_drop. destruct (sp_byte_pools sp !! w) as [s|] eqn:E.
  2: { split; [done|]. intros s. congruence. }
  destruct (Hp s E) as [Hwf Hin]. destruct (drop_block k s) as [[ok s'] ops] eqn:Ed. split; [apply store_pool_frame|].
  intros s''. cbn. rewrite lookup_insert_eq. intros [= <-]. pose proof (drop_block_spec _ _ _ _ _ Hwf Ed) as Hs.
  destruct (meta s !! k) as [m|] eqn:Em.
  - destruct Hs as (_ & Hrm & _). split; [by eapply removed_wf|]. intros k'.
    rewrite (rm_meta _ _ _ Hrm), !lookup_delete_is_Some. intros [? ?%Hin]. done.
  - destruct Hs as (_ & -> & _). split; [done|]. intros k' Hk'. rewrite lookup_delete_is_Some. split; [|by apply Hin].
    intros <-. rewrite Em in Hk'. by destruct Hk'.
Qed.

(** ** The sweep *)

Definition cnt (t : CacheTier) (e : TierEntry) : Z := if decide (e_tier e = t) then 1 else 0.
Lemma wsum_cnt t (M : Entries) : 0 ≤ wsum (cnt t) M ≤ Z.of_nat (size M).
Proof.
  induction M as [|k e M Hk IH] using map_ind; [by rewrite wsum_empty, map_size_empty|].
  rewrite wsum_insert, map_size_insert_None by done. unfold cnt at 1 3. case_decide; lia.
Qed.

(** [M0]: the entries the sweep starts from; [key0]: the key placed. *)
Record sweep_inv (worker_id : string) (key0 : KvBlockKey) (M0 : Entries) sp0 (x : Sweep) : Prop := {
  si_key : is_Some (sw_affected x !! key0);
  si_entries : entries_ok worker_id (wc_entries (sw_worker x));
  si_frame : frame_of worker_id sp0 (sw_plane x);
  si_pool : pool_ok worker_id (wc_entries (sw_worker x)) (sw_plane x);
  si_rest : ∀ k, sw_affected x !! k = None → wc_entries (sw_worker x) !! k = M0 !! k;
  si_affected : ∀ k, is_Some (sw_affected x !! k) → is_Some (wc_entries (sw_worker x) !! k) ∨
    ∃ r, r ∈ du_removed (sw_update x) ∧ res_key r = k;
  si_removed : ∀ r, r ∈ du_removed (sw_update x) → wc_entries (sw_worker x) !! res_key r = None ∧ is_Some (sw_affected x !! res_key r)
}.

Definition swept (t : CacheTier) : Prop := t = Hbm ∨ t = CpuDram ∨ t = LocalSsd.

Section displace.
Context (worker_id : string) (key0 : KvBlockKey) (M0 : Entries) (sp0 : StoreDataPlane) (Hcost : sp_cost sp0 = cost_default).
Context (t : CacheTier) (x : Sweep) (k : KvBlockKey) (e : TierEntry).
Context (Hx : sweep_inv worker_id key0 M0 sp0 x) (Hk : wc_entries (sw_worker x) !! k = Some e) (Ht : e_tier e = t).

Lemma victim_cost t' : is_Some (transfer_cost_us (sp_cost (sw_plane x)) t' (e_bytes e) true true).
Proof.
  rewrite (fr_cost _ _ _ (si_frame _ _ _ _ _ Hx)), Hcost. pose proof (si_entries _ _ _ _ _ Hx) as HM. apply transfer_default.
  pose proof (wsum_bounds e_bytes _ k e (entries_pos _ _ HM) Hk). destruct HM. lia.
Qed.

Lemma displace_down next :
  lower_tier t = Some next → let r := at_tier next worker_id (te_residency e) in
  ∃ x', displace worker_id t k e x = Some x' ∧ sweep_inv worker_id key0 M0 sp0 x' ∧
    wc_entries (sw_worker x') = <[k := mkEntry r (wc_clock (sw_worker x))]> (wc_entries (sw_worker x)).
Proof.
  intros Hlow r. unfold displace. rewrite Hlow. unfold action. cbn [at_tier res_bytes].
  destruct (victim_cost next) as [us Hus]. unfold e_bytes in Hus. rewrite Hus. cbn [mbind option_bind].
  eexists. split; [done|]. cbn [sw_worker wc_entries]. rewrite insert_delete_eq. split; [|done].
  destruct Hx as [I0 I1 I2 I3 I4 I5 I6]. pose proof I1 as [HM Hsum]. pose proof (HM _ _ Hk) as (Hkey & Hw & Hpos).
  set (M' := <[k := _]> _).
  assert (is_Some (M' !! k)) as Hk' by (unfold M'; rewrite lookup_insert_eq; eauto).
  assert (∀ k', is_Some (wc_entries (sw_worker x) !! k') → is_Some (M' !! k')) as Hmono.
  { intros k' Hs. unfold M'. rewrite lookup_insert_is_Some'. by right. }
  assert (pool_ok worker_id M' (count_events 0 0 0 1 0 (sw_plane x))) as Hp.
  { intros s Hs. destruct (I3 s Hs) as [Hwf Hin]. split; [done|]. intros k' Hm. by apply Hmono, Hin. }
  split; cbn.
  - rewrite lookup_insert_is_Some'. by right.
  - split; [apply map_Forall_insert_2; [|done]; done|]. unfold M'. rewrite (wsum_update e_bytes _ _ _ _ Hk).
    replace (e_bytes (mkEntry (at_tier next worker_id (te_residency e)) (wc_clock (sw_worker x)))) with (e_bytes e) by done. lia.
  - eapply frame_trans; [apply I2|]. apply (frame_trans _ _ (count_events 0 0 0 1 0 (sw_plane x))); [apply frame_count|].
    case_decide; [by apply (pool_demote_spec worker_id k M')|done].
  - case_decide; [by apply pool_demote_spec|done].
  - intros k' [Hn Hne]%lookup_insert_None. unfold M'. rewrite lookup_insert_ne by done. by apply I4.
  - intros k' Hs. destruct (decide (k = k')) as [<-|Hne]; [by left|]. rewrite lookup_insert_ne in Hs by done.
    apply I5 in Hs as [Hs|Hs]; [left; by apply Hmono|by right].
  - intros r' Hr. apply I6 in Hr as [Hn Ha]. split; [|rewrite lookup_insert_is_Some'; by right].
    unfold M'. rewrite lookup_insert_ne; [done|]. congruence.
Qed.

Lemma displace_out :
  lower_tier t = None →
  ∃ x', displace worker_id t k e x = Some x' ∧ sweep_inv worker_id key0 M0 sp0 x' ∧
    wc_entries (sw_worker x') = delete k (wc_entries (sw_worker x)).
Proof.
  intros Hlow. unfold displace. rewrite Hlow. unfold action.
  destruct (victim_cost (res_tier (te_residency e))) as [us Hus]. unfold e_bytes in Hus. rewrite Hus. cbn [mbind option_bind].
  eexists. split; [done|]. split; [|done].
  destruct Hx as [I0 I1 I2 I3 I4 I5 I6]. pose proof I1 as [HM Hsum]. pose proof (HM _ _ Hk) as (Hkey & Hw & Hpos).
  destruct (pool_drop_spec worker_id k (wc_entries (sw_worker x)) (count_events 0 0 0 0 1 (sw_plane x))) as [Hf Hp]; [done|].
  split; cbn.
  - rewrite lookup_insert_is_Some'. by right.
  - split; [by apply map_Forall_delete|]. rewrite (wsum_delete e_bytes _ _ _ Hk). lia.
  - eapply frame_trans; [apply I2|]. by eapply frame_trans; [apply (frame_count _ 0 0 0 0 1)|].
  - done.
  - intros k' [Hn Hne]%lookup_insert_None. rewrite lookup_delete_ne by done. by apply I4.
  - intros k' Hs. destruct (decide (k = k')) as [<-|Hne]; [right; eexists; split; [|exact Hkey]; set_solver|].
    rewrite lookup_insert_ne in Hs by done. rewrite lookup_delete_ne by done. apply I5 in Hs as [Hs|(r & Hr & ?)]; [by left|right].
    exists r. set_solver.
  - intros r [Hr| ->%list_elem_of_singleton]%elem_of_app.
    + apply I6 in Hr as [Hn Ha]. split; [by rewrite lookup_delete_None; right|rewrite lookup_insert_is_Some'; by right].
    + rewrite Hkey, lookup_delete_eq, lookup_insert_eq. eauto.
Qed.

(** The victim leaves its tier; of the others only the one below changes. *)
Lemma displace_spec :
  ∃ x', displace worker_id t k e x = Some x' ∧ sweep_inv worker_id key0 M0 sp0 x' ∧
    wsum (cnt t) (wc_entries (sw_worker x')) = wsum (cnt t) (wc_entries (sw_worker x)) - 1 ∧
    ∀ t', t' ≠ t → lower_tier t ≠ Some t' → wsum (e_in t') (wc_entries (sw_worker x')) = wsum (e_in t') (wc_entries (sw_worker x)).
Proof.
  assert (∀ t', t' ≠ t → e_in t' e = 0) as Hz by (intros t' Hne; unfold e_in; rewrite decide_False; congruence).
  destruct (lower_tier t) as [next|] eqn:El.
  - assert (next ≠ t) as Hnt by (destruct t; cbn in El; congruence).
    destruct (displace_down next El) as (x' & Hd & Hinv & HM). exists x'. split_and!; [done..| |]; rewrite HM.
    + rewrite (wsum_update (cnt t) _ _ _ _ Hk). unfold cnt at 1 3, e_tier at 1. cbn [te_residency at_tier res_tier].
      rewrite decide_False, decide_True by done. lia.
    + intros t' Hne Hl. rewrite (wsum_update (e_in t') _ _ _ _ Hk), (Hz t') by done.
      unfold e_in at 1, e_tier at 1. cbn [te_residency at_tier res_tier]. rewrite decide_False by (cbn; congruence). lia.
  - destruct (displace_out El) as (x' & Hd & Hinv & HM). exists x'. split_and!; [done..| |]; rewrite HM.
    + rewrite (wsum_delete (cnt t) _ _ _ Hk). unfold cnt at 2. rewrite decide_True by done. lia.
    + intros t' Hne _. rewrite (wsum_delete (e_in t') _ _ _ Hk), (Hz t') by done. lia.
Qed.
End displace.

Lemma tier_loop_spec worker_id key0 M0 sp0 t fuel x :
  sp_cost sp0 = cost_default → 0 ≤ capacity t sp0 → sweep_inv worker_id key0 M0 sp0 x → wsum (cnt t) (wc_entries (sw_worker x)) < Z.of_nat fuel →
  ∃ x', tier_loop fuel worker_id t x = Some x' ∧ sweep_inv worker_id key0 M0 sp0 x' ∧
    wsum (e_in t) (wc_entries (sw_worker x')) ≤ capacity t sp0 ∧
    ∀ t', t' ≠ t → lower_tier t ≠ Some t' → wsum (e_in t') (wc_entries (sw_worker x')) = wsum (e_in t') (wc_entries (sw_worker x)).
Proof.
  intros Hcost Hcap. revert x. induction fuel as [|fuel IH]; intros x Hx Hf.
  { pose proof (wsum_cnt t (wc_entries (sw_worker x))). lia. }
  cbn [tier_loop]. rewrite (wc_tier_bytes_ok worker_id) by apply Hx. cbn [mbind option_bind].
  assert (capacity t (sw_plane x) = capacity t sp0) as -> by (unfold capacity; by rewrite (fr_config _ _ _ (si_frame _ _ _ _ _ Hx))).
  destruct (Z.ltb_spec (capacity t sp0) (wsum (e_in t) (wc_entries (sw_worker x)))) as [Hover|Hfit].
  2: { exists x. split_and!; try done. }
  pose proof (coldest_in_tier_spec (sw_worker x) t) as Hc. destruct (coldest_in_tier (sw_worker x) t) as [k|]; [|lia].
  destruct Hc as (e & Hk & Ht). rewrite Hk.
  destruct (displace_spec worker_id key0 M0 sp0 Hcost t x k e Hx Hk Ht) as (x1 & -> & Hx1 & Hc1 & Ho1). cbn [mbind option_bind].
  destruct (IH x1 Hx1) as (x' & -> & Hx' & Hb & Ho); [lia|]. exists x'. split_and!; [done..|].
  intros t' Hne Hl. rewrite Ho, Ho1 by done. done.
Qed.

Lemma sweep_tier_spec worker_id key0 M0 sp0 t x :
  sp_cost sp0 = cost_default → 0 ≤ capacity t sp0 → sweep_inv worker_id key0 M0 sp0 x →
  ∃ x', sweep_tier worker_id t x = Some x' ∧ sweep_inv worker_id key0 M0 sp0 x' ∧
    wsum (e_in t) (wc_entries (sw_worker x')) ≤ capacity t sp0 ∧
    ∀ t', t' ≠ t → lower_tier t ≠ Some t' → wsum (e_in t') (wc_entries (sw_worker x')) = wsum (e_in t') (wc_entries (sw_worker x)).
Proof.
  intros Hcost Hcap Hx. apply tier_loop_spec; try done. pose proof (wsum_cnt t (wc_entries (sw_worker x))). lia.
Qed.

(** [enforce_capacity] terminates without a panic, with the three local tiers within budget. *)
Lemma plane_enforce_spec worker_id key0 M0 sp0 x :
  sp_cost sp0 = cost_default → (∀ t, 0 ≤ capacity t sp0) → sweep_inv worker_id key0 M0 sp0 x →
  ∃ x', plane_enforce_capacity worker_id x = Some x' ∧ sweep_inv worker_id key0 M0 sp0 x' ∧
    ∀ t, swept t → wsum (e_in t) (wc_entries (sw_worker x')) ≤ capacity t sp0.
Proof.
  intros Hcost Hcap Hx. unfold plane_enforce_capacity.
  destruct (sweep_tier_spec worker_id key0 M0 sp0 Hbm x Hcost (Hcap _) Hx) as (x1 & -> & Hx1 & Hb1 & _). cbn [mbind option_bind].
  destruct (sweep_tier_spec worker_id key0 M0 sp0 CpuDram x1 Hcost (Hcap _) Hx1) as (x2 & -> & Hx2 & Hb2 & Ho2). cbn [mbind option_bind].
  destruct (sweep_tier_spec worker_id key0 M0 sp0 LocalSsd x2 Hcost (Hcap _) Hx2) as (x3 & -> & Hx3 & Hb3 & Ho3).
  exists x3. split_and!; [done..|]. intros t [->|[->| ->]]; [|rewrite Ho3 by done; done|done]. rewrite Ho3, Ho2 by done. done.
Qed.
End plane.
