(* ===== verification/StorePlaneTheorems.v ===== *)
(** * The tiered block manager: theorems

    Placement always returns with the local tiers within budget and reports exactly what it
    changed; in every reachable state the bytes a pool serves belong to blocks the metadata
    still tracks. *)
From S2P Require Import Prelude Identity MemIndex MemIndexProofs Router RouterPlan DataPlane OpLog KvStore KvStoreProofs KvCrash KvTheorems KvExamples StorePlane StorePlaneProofs.

Definition entries_of (worker_id : string) (sp : StoreDataPlane) : Entries :=
  wc_entries (default worker_cache_default (sp_workers sp !! worker_id)).

Section plane.
Context `{WalCodec} `{HashIter}.
Implicit Types sp : StoreDataPlane.

Record plane_inv sp : Prop := {
  pi_cost : sp_cost sp = cost_default;
  pi_capacity : ∀ t, 0 ≤ capacity t sp;
  pi_entries : ∀ w, entries_ok w (entries_of w sp);
  pi_pools : ∀ w, pool_ok w (entries_of w sp) sp
}.

(** The same, but worker [w]'s pool may hold one block, [key], that is not an entry yet. *)
Record plane_pre (w : string) (key : KvBlockKey) sp : Prop := {
  pp_cost : sp_cost sp = cost_default;
  pp_capacity : ∀ t, 0 ≤ capacity t sp;
  pp_entries : ∀ w', entries_ok w' (entries_of w' sp);
  pp_pools : ∀ w' s, sp_byte_pools sp !! w' = Some s →
    store_wf s ∧ ∀ k, is_Some (meta s !! k) → is_Some (entries_of w' sp !! k) ∨ w' = w ∧ k = key
}.

Lemma plane_inv_pre w key sp : plane_inv sp → plane_pre w key sp.
Proof. intros [P1 P2 P3 P4]. split; [done..|]. intros w' s Hs. destruct (P4 w' s Hs) as [? Hin]. split; [done|]. intros k Hk%Hin. by left. Qed.

Lemma entries_ok_empty w : entries_ok w ∅.
Proof. split; [apply map_Forall_empty|]. by rewrite wsum_empty. Qed.

Lemma plane_new_inv config dirs :
  0 ≤ hbm_capacity_bytes config → 0 ≤ cpu_dram_capacity_bytes config → 0 ≤ local_ssd_capacity_bytes config → plane_inv (plane_new config dirs).
Proof.
  intros. split; [done|by intros []|..]; intros w; unfold entries_of; cbn; rewrite lookup_empty; [apply entries_ok_empty|].
  intros s. cbn. by rewrite lookup_empty.
Qed.

(** A plane with one worker's entries replaced and its pool updated. *)
Lemma plane_inv_worker w key sp sp' wc :
  plane_pre w key sp → frame_of w (set_workers (delete w (sp_workers sp)) sp) sp' → entries_ok w (wc_entries wc) → pool_ok w (wc_entries wc) sp' →
  plane_inv (set_workers (<[w := wc]> (sp_workers sp')) sp').
Proof.
  intros [P1 P2 P3 P4] [F1 F2 F3 F4 F5] Hok Hp. cbn in *. split; cbn.
  - congruence.
  - intros t. specialize (P2 t). unfold capacity in *. cbn. by rewrite F1.
  - intros w'. unfold entries_of. cbn. destruct (decide (w = w')) as [<-|Hne]; [by rewrite lookup_insert_eq|].
    rewrite lookup_insert_ne, F3, lookup_delete_ne by done. apply P3.
  - intros w'. unfold entries_of. cbn. destruct (decide (w = w')) as [<-|Hne]; [by rewrite lookup_insert_eq|].
    rewrite lookup_insert_ne, F3, lookup_delete_ne by done. intros s Hs. cbn in Hs. rewrite F4 in Hs by done.
    destruct (P4 w' s Hs) as [? Hin]. split; [done|]. intros k Hk. destruct (Hin k Hk) as [?|[? _]]; [done|congruence].
Qed.

(** ** Placement *)

Lemma place_action_spec r existing sp :
  sp_cost sp = cost_default → 0 ≤ res_bytes r ≤ u64_max → ∃ a a' h p d, place_action r existing sp = Some (a, count_events a' h p d 0 sp).
Proof.
  intros Hc Hb. unfold place_action. destruct existing as [e|]; [|by do 5 eexists].
  destruct (decide _); [destruct (transfer_default (res_tier r) _ Hb) as [us Hus]|destruct (transfer_default (res_tier (te_residency e)) _ Hb) as [us Hus]];
    rewrite Hc, Hus; cbn [mbind option_bind]; [by do 5 eexists|]. destruct (_ <? _); by do 5 eexists.
Qed.

Definition placed (r : CacheResidency) (clock : Z) : CacheResidency :=
  mkResidency (res_key r) (res_worker_id r) (res_tier r) (res_bytes r) clock (res_ref_count r) (res_pinned r).

(** The state the sweep of a placement starts from. *)
Lemma place_start r sp a' h p d a c :
  plane_pre (res_worker_id r) (res_key r) sp → 0 ≤ res_bytes r → let w := res_worker_id r in let E := entries_of w sp in
  wsum e_bytes E + res_bytes r ≤ u64_max →
  let M0 := <[res_key r := mkEntry (placed r c) c]> E in
  let sp0 := set_workers (delete w (sp_workers sp)) sp in
  sweep_inv w (res_key r) M0 sp0 (mkSweep (count_events a' h p d 0 sp0) (mkWorkerCache M0 c) (push_action a update_default) {[res_key r := tt]}).
Proof.
  intros Hinv Hpos w E Hsum M0 sp0. pose proof (pp_entries _ _ _ Hinv w) as [HE HEs]. fold E in HE, HEs.
  split; cbn; [rewrite lookup_singleton_eq; eauto|split|done| |done| |].
  - apply map_Forall_insert_2; [|done]. done.
  - destruct (E !! res_key r) as [e|] eqn:Ee.
    + unfold M0. rewrite (wsum_update e_bytes _ _ _ _ Ee). pose proof (HE _ _ Ee) as (_ & _ & ?). change (e_bytes (mkEntry (placed r c) c)) with (res_bytes r). lia.
    + unfold M0. rewrite wsum_insert by done. change (e_bytes (mkEntry (placed r c) c)) with (res_bytes r). lia.
  - intros s Hs. destruct (pp_pools _ _ _ Hinv w s Hs) as [Hwf Hin]. split; [done|]. intros k Hk%Hin. unfold M0.
    rewrite lookup_insert_is_Some'. destruct Hk as [?|[_ ->]]; [by right|by left].
  - intros k [u Hk]. apply lookup_singleton_Some in Hk as [<- _]. left. unfold M0. rewrite lookup_insert_eq. eauto.
  - intros x Hx. by apply not_elem_of_nil in Hx.
Qed.

(** What a placement reports about a key. *)
Definition reported (E E' : Entries) (u : DataPlaneUpdate) (k : KvBlockKey) : Prop :=
  (∃ x, x ∈ du_resident u ∧ res_key x = k ∧ te_residency <$> E' !! k = Some x) ∨
  (∃ x, x ∈ du_removed u ∧ res_key x = k ∧ E' !! k = None) ∨
  E' !! k = E !! k ∧ (∀ x, x ∈ du_resident u ++ du_removed u → res_key x ≠ k).

Lemma sweep_reported w E sp0 x key e0 k :
  sweep_inv w key (<[key := e0]> E) sp0 x →
  reported E (wc_entries (sw_worker x))
    (mkUpdate (du_actions (sw_update x)) (omap (λ key, te_residency <$> wc_entries (sw_worker x) !! key) (hkeys (sw_affected x))) (du_removed (sw_update x))) k.
Proof.
  intros [Hkey I1 I2 I3 I4 I5 I6]. pose proof I1 as [HM _]. unfold reported. cbn.
  set (M := wc_entries (sw_worker x)) in *.
  assert (∀ y, y ∈ omap (λ key, te_residency <$> M !! key) (hkeys (sw_affected x)) ↔
            is_Some (sw_affected x !! res_key y) ∧ te_residency <$> M !! res_key y = Some y) as Hres.
  { intros y. rewrite list_elem_of_omap. setoid_rewrite elem_of_hkeys. split.
    - intros (k' & Hk' & Hy). apply fmap_Some in Hy as (e & He & ->). pose proof (HM _ _ He) as (-> & _ & _). by rewrite He.
    - intros [Hk Hy]. eauto. }
  destruct (sw_affected x !! k) as [[]|] eqn:Ek.
  - destruct (I5 k) as [[e He]|(r & Hr & Hk)]; [eauto| |].
    + left. exists (te_residency e). pose proof (HM _ _ He) as (Hk & _ & _). rewrite Hres, Hk, He. split_and!; eauto.
    + right; left. exists r. split_and!; [done..|]. destruct (I6 r Hr) as [? _]. congruence.
  - right; right. split.
    + rewrite (I4 k Ek), lookup_insert_ne; [done|]. intros ->. rewrite Ek in Hkey. by destruct Hkey.
    + intros y [[Hy _]%Hres|[_ Hy]%I6]%elem_of_app <-; rewrite Ek in Hy; by destruct Hy.
Qed.

Lemma place_spec r sp :
  plane_pre (res_worker_id r) (res_key r) sp → 0 ≤ res_bytes r → let w := res_worker_id r in
  wsum e_bytes (entries_of w sp) + res_bytes r ≤ u64_max →
  ∃ u sp', plane_place r sp = Some (u, sp') ∧ plane_inv sp' ∧
    (∀ t, swept t → wsum (e_in t) (entries_of w sp') ≤ capacity t sp') ∧
    (∀ w', w' ≠ w → entries_of w' sp' = entries_of w' sp) ∧
    ∀ k, reported (entries_of w sp) (entries_of w sp') u k.
Proof.
  intros Hinv Hpos w Hsum. pose proof (pp_entries _ _ _ Hinv w) as HE.
  pose proof (wsum_nonneg e_bytes _ (entries_pos _ _ HE)) as Hnn.
  unfold plane_place. fold w. set (c := wc_clock (default worker_cache_default (sp_workers sp !! w)) + 1).
  set (sp0 := set_workers (delete w (sp_workers sp)) sp). change (mkResidency (res_key r) w _ _ c _ _) with (placed r c).
  destruct (place_action_spec (placed r c) (wc_entries (default worker_cache_default (sp_workers sp !! w)) !! res_key (placed r c)) sp0)
    as (a & a' & h & p & d & ->); [apply Hinv|cbn; lia|]. cbn [mbind option_bind]. change (res_key (placed r c)) with (res_key r).
  pose proof (place_start r sp a' h p d a c Hinv Hpos Hsum) as Hst. cbn zeta in Hst. fold w sp0 in Hst. unfold entries_of in Hst.
  destruct (plane_enforce_spec w (res_key r) _ sp0 _ (pp_cost _ _ _ Hinv) (pp_capacity _ _ _ Hinv) Hst) as (x & -> & Hx & Hcap). cbn [mbind option_bind].
  eexists _, _. split; [done|].
  assert (entries_of w (set_workers (<[w:=sw_worker x]> (sp_workers (sw_plane x))) (sw_plane x)) = wc_entries (sw_worker x)) as Hent.
  { unfold entries_of. cbn. by rewrite lookup_insert_eq. }
  rewrite Hent. split_and!.
  - apply (plane_inv_worker w (res_key r) sp); [done|apply Hx..].
  - intros t Ht. unfold capacity. cbn. rewrite (fr_config _ _ _ (si_frame _ _ _ _ _ Hx)). by apply Hcap.
  - intros w' Hne. unfold entries_of. cbn. rewrite lookup_insert_ne, (fr_workers _ _ _ (si_frame _ _ _ _ _ Hx)) by done. cbn. by rewrite lookup_delete_ne.
  - intros k. by apply (sweep_reported w _ sp0 x (res_key r) _ k Hx).
Qed.

(** ** The other operations *)

Lemma byte_pool_mut_inv w sp pool sp' :
  plane_inv sp → byte_pool_mut w sp = (pool, sp') → plane_inv sp' ∧ sp_workers sp' = sp_workers sp ∧ sp_byte_pools sp' !! w = Some pool.
Proof.
  intros [P1 P2 P3 P4]. unfold byte_pool_mut. destruct (sp_byte_pools sp !! w) as [s|] eqn:E; intros [= <- <-]; [done|].
  cbn. rewrite lookup_insert_eq. split; [|done]. split; try done. intros w' s'. cbn. destruct (decide (w = w')) as [<-|Hne].
  - rewrite lookup_insert_eq. intros [= <-]. split; [apply store_new_wf|]. intros k [? Hk]. cbn in Hk. by rewrite lookup_empty in Hk.
  - rewrite lookup_insert_ne by done. apply P4.
Qed.

Lemma put_pre w key data sp pool sp1 :
  plane_inv sp → byte_pool_mut w sp = (pool, sp1) →
  plane_pre w key (store_pool w (put_dram key data pool).1 (put_dram key data pool).2 sp1) ∧
  entries_of w (store_pool w (put_dram key data pool).1 (put_dram key data pool).2 sp1) = entries_of w sp.
Proof.
  intros Hinv Hb. destruct (byte_pool_mut_inv w sp pool sp1 Hinv Hb) as ([P1 P2 P3 P4] & Hw & Hpool).
  destruct (P4 w pool Hpool) as [Hwf Hin]. destruct (put_dram_spec key data pool Hwf) as (_ & _ & Hm & _ & _ & _ & Hwf' & _).
  revert Hm Hwf'. generalize (put_dram key data pool). intros [s1 ops] Hm Hwf'. cbn [fst snd] in *.
  split; [|unfold entries_of; cbn; by rewrite Hw]. split; try done. intros w' s. cbn. destruct (decide (w = w')) as [<-|Hne].
  - rewrite lookup_insert_eq. intros [= <-]. split; [done|]. intros k. rewrite Hm, lookup_insert_is_Some'.
    intros [->|Hk]; [by right|left]. by apply Hin.
  - rewrite lookup_insert_ne by done. intros Hs. destruct (P4 w' s Hs) as [? Hin']. split; [done|]. intros k Hk. left. by apply Hin'.
Qed.

Lemma plane_get_inv w key sp : plane_inv sp → plane_inv (plane_get w key sp).2.
Proof.
  intros [P1 P2 P3 P4]. unfold plane_get. destruct (sp_byte_pools sp !! w) as [s|] eqn:E; [|done].
  destruct (P4 w s E) as [Hwf Hin]. pose proof (get_wf key (dir_of w sp) s Hwf) as Hwf'.
  assert (∀ k, is_Some (meta (get key (dir_of w sp) s).2 !! k) → is_Some (meta s !! k)) as Hdom.
  { intros k. destruct (meta s !! key) as [m|] eqn:Em; [|unfold get; by rewrite Em].
    destruct (get_same_blocks key (dir_of w sp) s m Em) as (_ & _ & -> & _). rewrite lookup_insert_is_Some'. intros [<-|?]; [eauto|done]. }
  destruct (get key (dir_of w sp) s) as [r s']. cbn in *. split; try done. intros w' s''. cbn. destruct (decide (w = w')) as [<-|Hne].
  - rewrite lookup_insert_eq. intros [= <-]. split; [done|]. intros k Hk. by apply Hin, Hdom.
  - rewrite lookup_insert_ne by done. apply P4.
Qed.

Lemma remove_key_spec w sp0 keys x :
  frame_of w sp0 (sw_plane x) → entries_ok w (wc_entries (sw_worker x)) → pool_ok w (wc_entries (sw_worker x)) (sw_plane x) →
  let x' := foldl (remove_key w) x keys in
  frame_of w sp0 (sw_plane x') ∧ entries_ok w (wc_entries (sw_worker x')) ∧ pool_ok w (wc_entries (sw_worker x')) (sw_plane x') ∧
  ∀ k, wc_entries (sw_worker x') !! k = if decide (k ∈ keys) then None else wc_entries (sw_worker x) !! k.
Proof.
  revert x. induction keys as [|key keys IH]; intros x Hf Hok Hp x'.
  { split_and!; try done. }
  destruct (pool_drop_spec w key _ _ Hp) as [Hf' Hp'].
  destruct (IH (remove_key w x key)) as (F & O & P & L).
  - cbn. by eapply frame_trans.
  - destruct Hok as [HM Hs]. split; cbn; [by apply map_Forall_delete|].
    destruct (wc_entries (sw_worker x) !! key) as [e|] eqn:Ee; [|by rewrite delete_id].
    rewrite (wsum_delete e_bytes _ _ _ Ee). apply HM in Ee as (_ & _ & ?). lia.
  - done.
  - split_and!; [done..|]. intros k. subst x'. cbn [foldl]. rewrite L. cbn [remove_key sw_worker wc_entries].
    clear. destruct (decide (k = key)) as [->|Hne].
    + rewrite lookup_delete_eq, (decide_True (P := key ∈ key :: keys)) by set_solver. by destruct (decide _).
    + rewrite lookup_delete_ne by done. by rewrite (decide_ext (k ∈ key :: keys) (k ∈ keys)) by set_solver.
Qed.

Lemma frame_delete w sp sp' : frame_of w sp sp' → frame_of w (set_workers (delete w (sp_workers sp)) sp) (set_workers (delete w (sp_workers sp')) sp').
Proof. intros [F1 F2 F3 F4 F5]. split; cbn; try done. by rewrite F3. Qed.

Lemma plane_remove_inv scope w hash sp :
  plane_inv sp → let sp' := (plane_remove_block scope w hash sp).2 in plane_inv sp' ∧
  (∀ w', w' ≠ w → entries_of w' sp' = entries_of w' sp) ∧
  ∀ k, entries_of w sp' !! k = if decide (block_hash k = hash ∧ from_key k = scope) then None else entries_of w sp !! k.
Proof.
  intros Hinv. unfold plane_remove_block. destruct (sp_workers sp !! w) as [wc|] eqn:E.
  2: { cbn. split_and!; [done..|]. intros k. unfold entries_of. rewrite E. cbn. rewrite lookup_empty. by destruct (decide _). }
  set (keys := filter _ _). cbn zeta. pose proof (pi_entries _ Hinv w) as Hok. pose proof (pi_pools _ Hinv w) as Hp.
  assert (entries_of w sp = wc_entries wc) as He by (unfold entries_of; by rewrite E). rewrite He in Hok, Hp.
  destruct (remove_key_spec w sp keys (mkSweep sp wc update_default ∅)) as (F & O & P & L); try done.
  set (x := foldl _ _ _) in *. cbn [snd]. split_and!.
  - replace (<[w := sw_worker x]> (sp_workers (sw_plane x))) with (<[w := sw_worker x]> (delete w (sp_workers (sw_plane x)))) by apply insert_delete_eq.
    refine (plane_inv_worker w kv_a sp (set_workers (delete w (sp_workers (sw_plane x))) (sw_plane x)) _ _ _ O P).
    + by apply plane_inv_pre.
    + by apply frame_delete.
  - intros w' Hne. unfold entries_of. cbn. by rewrite lookup_insert_ne, (fr_workers _ _ _ F).
  - intros k. rewrite He. unfold entries_of at 1. cbn. rewrite lookup_insert_eq. cbn. rewrite L. cbn [sw_worker].
    assert (k ∈ keys ↔ (block_hash k = hash ∧ from_key k = scope) ∧ is_Some (wc_entries wc !! k)) as Hk.
    { unfold keys. rewrite list_elem_of_filter, elem_of_hkeys, scope_matches_iff. split; [intros [[? ->] ?]|intros [[? <-] ?]]; done. }
    destruct (decide (k ∈ keys)), (decide (block_hash k = hash ∧ from_key k = scope)); try done; [tauto|].
    apply eq_None_not_Some. tauto.
Qed.

Lemma plane_clear_inv w sp : plane_inv sp → plane_inv (plane_clear_worker w sp).2.
Proof.
  intros [P1 P2 P3 P4]. unfold plane_clear_worker. destruct (sp_workers sp !! w) as [wc|] eqn:E; cbn [snd].
  - split; try done; intros w'; unfold entries_of; cbn; destruct (decide (w = w')) as [<-|Hne]; rewrite ?lookup_delete_eq, ?lookup_delete_ne by done.
    + apply entries_ok_empty.
    + apply P3.
    + intros s. cbn. by rewrite lookup_delete_eq.
    + intros s. cbn. rewrite lookup_delete_ne by done. apply P4.
  - split; try done. intros w' s. cbn. intros [_ Hs]%lookup_delete_Some. by apply P4.
Qed.

(** ** Reachable planes *)

(** The worker's bytes and the new block's fit a [u64]. *)
Definition bytes_fit (w : string) (bytes : Z) sp : Prop := 0 ≤ bytes ∧ wsum e_bytes (entries_of w sp) + bytes ≤ u64_max.

Inductive plane_reach : StoreDataPlane → Prop :=
| pr_new config dirs :
    0 ≤ hbm_capacity_bytes config → 0 ≤ cpu_dram_capacity_bytes config → 0 ≤ local_ssd_capacity_bytes config → plane_reach (plane_new config dirs)
| pr_place r sp u sp' : plane_reach sp → bytes_fit (res_worker_id r) (res_bytes r) sp → plane_place r sp = Some (u, sp') → plane_reach sp'
| pr_put w key data sp sp' : plane_reach sp → bytes_fit w (Z.of_nat (length data)) sp → plane_put w key data sp = Some sp' → plane_reach sp'
| pr_get w key sp : plane_reach sp → plane_reach (plane_get w key sp).2
| pr_remove scope w hash sp : plane_reach sp → plane_reach (plane_remove_block scope w hash sp).2
| pr_clear w sp : plane_reach sp → plane_reach (plane_clear_worker w sp).2.

Lemma plane_put_spec w key data sp :
  plane_inv sp → bytes_fit w (Z.of_nat (length data)) sp →
  ∃ sp', plane_put w key data sp = Some sp' ∧ plane_inv sp' ∧ ∀ t, swept t → wsum (e_in t) (entries_of w sp') ≤ capacity t sp'.
Proof.
  intros Hinv [Hpos Hsum]. unfold plane_put. destruct (byte_pool_mut w sp) as [pool sp1] eqn:Eb.
  destruct (put_pre w key data sp pool sp1 Hinv Eb) as [Hpre He]. destruct (put_dram key data pool) as [s ops]. cbn [fst snd] in *.
  destruct (place_spec (mkResidency key w CpuDram (Z.of_nat (length data)) 0 0 false) (store_pool w s ops sp1)) as (u & sp' & -> & Hinv' & Hcap & _); try done.
  - cbn [res_worker_id res_bytes]. by rewrite He.
  - cbn [mbind option_bind]. eauto.
Qed.

Lemma plane_reach_inv sp : plane_reach sp → plane_inv sp.
Proof.
  induction 1 as [| r sp u sp' _ IH [Hp Hs] E|w key data sp sp' _ IH Hf E| | |].
  - by apply plane_new_inv.
  - destruct (place_spec r sp (plane_inv_pre _ _ _ IH) Hp Hs) as (u' & sp'' & E' & Hinv & _). rewrite E in E'. by simplify_eq.
  - destruct (plane_put_spec w key data sp IH Hf) as (sp'' & E' & Hinv & _). rewrite E in E'. by simplify_eq.
  - by apply plane_get_inv.
  - by apply plane_remove_inv.
  - by apply plane_clear_inv.
Qed.

Lemma plane_tier_of_entries w k sp : plane_tier_of w k sp = e_tier <$> entries_of w sp !! k.
Proof.
  unfold plane_tier_of, entries_of. destruct (sp_workers sp !! w) as [wc|]; cbn; [|by rewrite lookup_empty].
  by destruct (wc_entries wc !! k).
Qed.

Lemma plane_get_ok w k b sp : plane_inv sp → (plane_get w k sp).1 = Ok b → is_Some (entries_of w sp !! k).
Proof.
  intros Hinv. unfold plane_get. destruct (sp_byte_pools sp !! w) as [s|] eqn:E; [|done].
  destruct (pi_pools _ Hinv w s E) as [Hwf Hin]. intros Hg. apply Hin. destruct (meta s !! k) eqn:Em; [eauto|]. exfalso. revert Hg.
  unfold get. rewrite Em. destruct (content s !! block_hash k); [|done]. by destruct (head _).
Qed.

(** ** Theorems *)

(** Placement always returns, without overflow, and leaves the worker's HBM, DRAM and SSD
    tiers within their budgets.  Its update is the exact difference: for every key it lists the current
    record, or a removed one, or the key's entry is untouched; other workers are unchanged. *)
Theorem place_within_budget r sp :
  plane_reach sp → bytes_fit (res_worker_id r) (res_bytes r) sp →
  ∃ u sp', plane_place r sp = Some (u, sp') ∧
    (∀ t, swept t → wsum (e_in t) (entries_of (res_worker_id r) sp') ≤ capacity t sp') ∧
    (∀ w, w ≠ res_worker_id r → entries_of w sp' = entries_of w sp) ∧
    ∀ k, reported (entries_of (res_worker_id r) sp) (entries_of (res_worker_id r) sp') u k.
Proof.
  intros Hinv%plane_reach_inv [Hp Hs]. destruct (place_spec r sp (plane_inv_pre _ _ _ Hinv) Hp Hs) as (u & sp' & E & _ & H1 & H2 & H3). eauto 7.
Qed.

(** C22 The bytes follow the metadata: in every reachable state, a worker serves bytes only for
    a block the plane still tracks on it, so an evicted, removed or cleared block is never served from a
    stale pool; storing bytes always succeeds, within the budgets. *)
Theorem bytes_follow_metadata w k sp :
  plane_reach sp →
  (∀ b, (plane_get w k sp).1 = Ok b → is_Some (plane_tier_of w k sp)) ∧
  ∀ data, bytes_fit w (Z.of_nat (length data)) sp → ∃ sp', plane_put w k data sp = Some sp' ∧
    ∀ t, swept t → wsum (e_in t) (entries_of w sp') ≤ capacity t sp'.
Proof.
  intros Hinv%plane_reach_inv. split.
  - intros b Hb%plane_get_ok; [|done]. by rewrite plane_tier_of_entries, fmap_is_Some.
  - intros data Hf. destruct (plane_put_spec w k data sp Hinv Hf) as (sp' & E & _ & Hc). eauto.
Qed.

(** Removal by content hash is scoped: afterwards no block of that hash and identity is
    tracked or served on the worker, and every other block on every worker is tracked as before. *)
Theorem plane_remove_scoped scope w hash sp :
  plane_reach sp → let sp' := (plane_remove_block scope w hash sp).2 in
  (∀ k, block_hash k = hash → from_key k = scope → plane_tier_of w k sp' = None ∧ ∀ b, (plane_get w k sp').1 ≠ Ok b) ∧
  ∀ w' k, ¬ (w' = w ∧ block_hash k = hash ∧ from_key k = scope) → plane_tier_of w' k sp' = plane_tier_of w' k sp.
Proof.
  intros Hinv%plane_reach_inv sp'. destruct (plane_remove_inv scope w hash sp Hinv) as (Hinv' & Ho & Hk). fold sp' in Hinv', Ho, Hk. split.
  - intros k Hh Hs. specialize (Hk k). rewrite decide_True in Hk by done. split; [by rewrite plane_tier_of_entries, Hk|].
    intros b Hb%plane_get_ok; [|done]. rewrite Hk in Hb. by destruct Hb.
  - intros w' k Hn. rewrite !plane_tier_of_entries. destruct (decide (w' = w)) as [->|Hne]; [|by rewrite Ho].
    rewrite Hk, decide_False; [done|]. intros [? ?]. by apply Hn.
Qed.
End plane.

(** ** Runs *)

#[local] Existing Instance wal_bits.
#[local] Existing Instance canonical_iter.

(** DRAM and SSD for four bytes each. *)
Definition demo_plane : StoreDataPlane := plane_new (mkTierConfig 4 4 4) ∅.
Lemma demo_plane_reach : plane_reach demo_plane.
Proof. constructor; cbn; lia. Qed.
Definition plane1 : StoreDataPlane := default demo_plane (plane_put "w" kv_a [1; 2; 3] demo_plane).
Lemma plane1_eq : plane_put "w" kv_a [1; 2; 3] demo_plane = Some plane1.
Proof. run. Qed.
Lemma plane1_reach : plane_reach plane1.
Proof. apply (pr_put "w" kv_a [1; 2; 3] demo_plane plane1 demo_plane_reach); [split; vm_compute; discriminate|exact plane1_eq]. Qed.

Definition demo_record : CacheResidency := mkResidency kv_b "w" CpuDram 3 0 0 false.
Lemma demo_record_fits : bytes_fit "w" 3 plane1.
Proof. split; vm_compute; discriminate. Qed.

Lemma place_within_budget_witness :
  ∃ u sp', plane_place demo_record plane1 = Some (u, sp') ∧ wsum (e_in CpuDram) (entries_of "w" sp') ≤ capacity CpuDram sp'.
Proof.
  destruct (place_within_budget demo_record plane1 plane1_reach demo_record_fits) as (u & sp' & E & H1 & _).
  exists u, sp'. split; [exact E|]. apply H1. right. left. reflexivity.
Defined.

Lemma plane1_serves : (plane_get "w" kv_a plane1).1 = Ok [1; 2; 3].
Proof. vm_compute. reflexivity. Qed.
Lemma bytes_follow_metadata_witness : is_Some (plane_tier_of "w" kv_a plane1).
Proof. exact (proj1 (bytes_follow_metadata "w" kv_a plane1 plane1_reach) [1; 2; 3] plane1_serves). Defined.

Lemma plane_remove_scoped_witness :
  plane_tier_of "w" kv_a (plane_remove_block (from_key kv_a) "w" "a" plane1).2 = None.
Proof. exact (proj1 (proj1 (plane_remove_scoped (from_key kv_a) "w" "a" plane1 plane1_reach) kv_a eq_refl eq_refl)). Defined.

Definition ssd_record : CacheResidency := mkResidency kv_a "w" LocalSsd 3 0 0 false.
Definition plane2 : DataPlaneUpdate * StoreDataPlane := default (update_default, demo_plane) (plane_place ssd_record plane1).

(** A placement that moves a block down a tier moves no bytes: the plane reports a demotion
    from DRAM to SSD and tracks the block there, while its bytes stay in the pool's DRAM and nothing is
    written to disk. *)
Theorem placed_demotion_keeps_bytes :
  plane_place ssd_record plane1 = Some plane2 ∧ da_kind <$> du_actions plane2.1 = [Demote] ∧
  plane_tier_of "w" kv_a plane2.2 = Some LocalSsd ∧
  (s ← sp_byte_pools plane2.2 !! "w"; tier_of kv_a s) = Some CpuDram ∧ wal (dir_of "w" plane2.2) = [].
Proof. split; [run|]. split_and!; vm_compute; reflexivity. Qed.
