(* ===== verification/EndpointStore.v ===== *)
(** * The endpoint store

    crates/quillcache-transfer-engine/src/endpoint_store.rs: a bounded cache of per-peer
    connections with FIFO or SIEVE eviction, and a waiting list that keeps an evicted
    connection alive while a transfer still holds it.

    A connection behind an [Arc] is an allocation with an address ([arc_id]); its strong
    count is the number of owners: the store's map and waiting list, and the handles the
    callers hold (an argument, [held], of the two operations that read the count).  The
    caller's side, handing out and dropping handles, is the step relation [ep_step]. *)
From S2P Require Import Prelude.

Inductive EvictionPolicy : Type := Fifo | Sieve.

Record Arc (V : Type) : Type := mkArc { arc_id : Z; arc_val : V }.
Arguments mkArc {V} _ _.
Arguments arc_id {V} _.
Arguments arc_val {V} _.

Record EndpointStore (V : Type) : Type := mkEndpointStore {
  max_size : nat;
  policy : EvictionPolicy;
  ep_map : gmap string (Arc V);
  visited : gmap string bool;
  ep_order : list string;
  hand : nat;
  waiting : list (Arc V)
}.
Arguments mkEndpointStore {V} _ _ _ _ _ _ _.
Arguments max_size {V} _.
Arguments policy {V} _.
Arguments ep_map {V} _.
Arguments visited {V} _.
Arguments ep_order {V} _.
Arguments hand {V} _.
Arguments waiting {V} _.

(** ** Operations *)

(** The owners of an allocation in a list of handles. *)
Definition owners {V} (a : Arc V) (l : list (Arc V)) : nat :=
  length (filter (λ b, arc_id b = arc_id a) l).

(** [Arc::strong_count(conn)] where [l] lists every handle that exists. *)
Definition strong_count {V} (a : Arc V) (l : list (Arc V)) : nat := owners a l.

Definition map_arcs {V} (m : gmap string (Arc V)) : list (Arc V) := (map_to_list m).*2.

Definition ep_new {V} (max : nat) (p : EvictionPolicy) : EndpointStore V :=
  mkEndpointStore (Nat.max max 1) p ∅ ∅ [] 0 [].

Definition ep_len {V} (s : EndpointStore V) : nat := size (ep_map s).
Definition ep_is_empty {V} (s : EndpointStore V) : bool := bool_decide (ep_map s = ∅).
Definition waiting_len {V} (s : EndpointStore V) : nat := length (waiting s).
Definition peek {V} (key : string) (s : EndpointStore V) : option (Arc V) := ep_map s !! key.

(** The loop of [sieve_victim]: [None] is an index out of range, or no fuel. *)
Fixpoint sieve_loop (fuel : nat) (order : list string) (vis : gmap string bool) (h : nat)
    : option (string * list string * gmap string bool * nat) :=
  match fuel with
  | O => None
  | S fuel =>
      let h := if (length order <=? h)%nat then 0%nat else h in
      key ← order !! h;
      if default false (vis !! key) then sieve_loop fuel order (<[key := false]> vis) (S h)
      else Some (key, delete h order, vis, h)
  end.

Section endpoint_store.
Context {V : Type}.
Implicit Types s : EndpointStore V.

Definition sieve_victim s : option (option string * EndpointStore V) :=
  if decide (ep_order s = []) then Some (None, s)
  else '(key, order, vis, h) ← sieve_loop (S (length (ep_order s))) (ep_order s) (visited s) (hand s);
       Some (Some key, mkEndpointStore (max_size s) (policy s) (ep_map s) vis order h (waiting s)).

(** The victim of the policy, taken out of [order]. *)
Definition pick_victim s : option (option string * EndpointStore V) :=
  match policy s with
  | Fifo =>
      match ep_order s with
      | [] => Some (None, s)
      | key :: order => Some (Some key, mkEndpointStore (max_size s) (policy s) (ep_map s) (visited s) order (hand s) (waiting s))
      end
  | Sieve => sieve_victim s
  end.

Definition drop_victim (held : list (Arc V)) (key : string) s : EndpointStore V :=
  let vis := delete key (visited s) in
  match ep_map s !! key with
  | Some conn =>
      let m := delete key (ep_map s) in
      (* [conn] itself is one owner *)
      let wait := if (1 <? strong_count conn (conn :: map_arcs m ++ waiting s ++ held))%nat then waiting s ++ [conn] else waiting s in
      mkEndpointStore (max_size s) (policy s) m vis (ep_order s) (hand s) wait
  | None => mkEndpointStore (max_size s) (policy s) (ep_map s) vis (ep_order s) (hand s) (waiting s)
  end.

Definition evict_one (held : list (Arc V)) s : option (EndpointStore V) :=
  '(victim, s) ← pick_victim s;
  Some match victim with Some key => drop_victim held key s | None => s end.

(** [fresh] is the address of the allocation [Arc::new] makes. *)
Definition get_or_insert {E} (held : list (Arc V)) (fresh : Z) (key : string) (make : unit → result E V) s
    : option (result E (Arc V) * EndpointStore V) :=
  match ep_map s !! key with
  | Some conn =>
      Some (Ok conn, mkEndpointStore (max_size s) (policy s) (ep_map s) (<[key := true]> (visited s)) (ep_order s) (hand s) (waiting s))
  | None =>
      match make tt with
      | Err e => Some (Err e, s)
      | Ok v =>
          let conn := mkArc fresh v in
          s ← (if (max_size s <=? size (ep_map s))%nat then evict_one held s else Some s);
          Some (Ok conn, mkEndpointStore (max_size s) (policy s) (<[key := conn]> (ep_map s)) (<[key := false]> (visited s))
                           (ep_order s ++ [key]) (hand s) (waiting s))
      end
  end.

(** [Vec::retain]: front to back, an element that is not kept is dropped on the spot. *)
Fixpoint retain_live (others kept rest : list (Arc V)) : list (Arc V) :=
  match rest with
  | [] => kept
  | conn :: rest =>
      if (1 <? strong_count conn (others ++ kept ++ conn :: rest))%nat then retain_live others (kept ++ [conn]) rest
      else retain_live others kept rest
  end.

Definition reclaim (held : list (Arc V)) s : EndpointStore V :=
  mkEndpointStore (max_size s) (policy s) (ep_map s) (visited s) (ep_order s) (hand s)
    (retain_live (map_arcs (ep_map s) ++ held) [] (waiting s)).

(** ** The store and its callers *)

(** A store, the handles its callers hold, and the next allocation address. *)
Record EpSystem : Type := mkEpSystem { ep_store : EndpointStore V; ep_held : list (Arc V); ep_fresh : Z }.

Inductive EpOp : Type :=
| OpGet (key : string) (make : result unit V)
| OpDrop (i : nat)
| OpReclaim.

Definition ep_run (op : EpOp) (y : EpSystem) : option EpSystem :=
  match op with
  | OpGet key make =>
      '(r, s) ← get_or_insert (ep_held y) (ep_fresh y) key (λ _, make) (ep_store y);
      Some match r with
           | Ok conn => mkEpSystem s (ep_held y ++ [conn]) (ep_fresh y + 1)
           | Err _ => mkEpSystem s (ep_held y) (ep_fresh y + 1)
           end
  | OpDrop i => Some (mkEpSystem (ep_store y) (delete i (ep_held y)) (ep_fresh y))
  | OpReclaim => Some (mkEpSystem (reclaim (ep_held y) (ep_store y)) (ep_held y) (ep_fresh y))
  end.

Fixpoint ep_trace (ops : list EpOp) (y : EpSystem) : option EpSystem :=
  match ops with
  | [] => Some y
  | op :: ops => y ← ep_run op y; ep_trace ops y
  end.

Definition ep_init (max : nat) (p : EvictionPolicy) : EpSystem := mkEpSystem (ep_new max p) [] 0.
End endpoint_store.
Arguments EpSystem : clear implicits.
Arguments EpOp : clear implicits.

(** ** SIEVE *)

(** The entries from the hand, wrapping around, and the hand's normal form. *)
Definition norm_hand (order : list string) (h : nat) : nat := if (length order <=? h)%nat then 0%nat else h.
Definition from_hand (order : list string) (h : nat) : list string :=
  drop (norm_hand order h) order ++ take (norm_hand order h) order.
Definition clear_bits (keys : list string) (vis : gmap string bool) : gmap string bool :=
  foldl (λ m k, <[k := false]> m) vis keys.
Definition is_visited (vis : gmap string bool) (k : string) : Prop := vis !! k = Some true.

#[global] Instance is_visited_dec vis k : Decision (is_visited vis k).
Proof. unfold is_visited. apply _. Defined.

(** The entries before the first unvisited one, or all of them. *)
Lemma split_visited vis (l : list string) :
  (∃ pre k post, l = pre ++ k :: post ∧ Forall (is_visited vis) pre ∧ ¬ is_visited vis k) ∨ Forall (is_visited vis) l.
Proof.
  induction l as [|x l IH]; [by right|]. destruct (decide (is_visited vis x)) as [Hx|Hx]; [|left; by exists [], x, l].
  destruct IH as [(pre & k & post & -> & Hpre & Hk)|Hl]; [left; exists (x :: pre), k, post; auto|right; auto].
Qed.

Lemma clear_bits_lookup keys vis k :
  clear_bits keys vis !! k = if decide (k ∈ keys) then Some false else vis !! k.
Proof.
  unfold clear_bits. revert vis. induction keys as [|x keys IH]; intros vis; simpl; [done|]. rewrite IH.
  destruct (decide (k ∈ keys)) as [Hk|Hk], (decide (k ∈ x :: keys)) as [Hx|Hx]; try done.
  - destruct Hx. by right.
  - apply elem_of_cons in Hx as [->|?]; [by rewrite lookup_insert_eq|done].
  - rewrite lookup_insert_ne; [done|]. intros ->. destruct Hx. by left.
Qed.

Lemma is_visited_default vis k : default false (vis !! k) = true ↔ is_visited vis k.
Proof. unfold is_visited. destruct (vis !! k) as [[]|]; simpl; naive_solver. Qed.

Lemma norm_hand_lt order h : order ≠ [] → (norm_hand order h < length order)%nat.
Proof. unfold norm_hand. destruct order; [done|]. intros _. destruct (Nat.leb_spec (length (s :: order)) h); simpl in *; lia. Qed.

Lemma norm_hand_idem order h : norm_hand order (norm_hand order h) = norm_hand order h.
Proof. unfold norm_hand. destruct (Nat.leb_spec (length order) h); destruct (Nat.leb_spec (length order) 0);
  destruct (Nat.leb_spec (length order) h); lia. Qed.

Lemma from_hand_perm order h : from_hand order h ≡ₚ order.
Proof. unfold from_hand. rewrite (comm (++)). by rewrite take_drop. Qed.

Lemma from_hand_nil order h : from_hand order h = [] ↔ order = [].
Proof.
  split; intros H.
  - apply Permutation_nil. rewrite <- H. apply from_hand_perm.
  - apply Permutation_nil. rewrite from_hand_perm. by rewrite H.
Qed.

(** The hand's entry leads the rotation, and moving the hand rotates by one. *)
Lemma from_hand_cons order h k l :
  from_hand order h = k :: l →
  order !! norm_hand order h = Some k ∧ from_hand order (S (norm_hand order h)) = l ++ [k].
Proof.
  intros E. assert (order ≠ []) as Hne by (intros H0; rewrite (proj2 (from_hand_nil order h) H0) in E; done).
  pose proof (norm_hand_lt order h Hne) as Hlt. unfold from_hand in E |- *.
  destruct (lookup_lt_is_Some_2 _ _ Hlt) as [k' Hk]. rewrite (drop_S _ _ _ Hk) in E. injection E as -> <-. split; [done|].
  remember (norm_hand order h) as n eqn:Hn. unfold norm_hand at 1 2. destruct (Nat.leb_spec (length order) (S n)) as [Hle|Hle].
  - rewrite (drop_ge order (S n)) by lia. simpl. rewrite app_nil_r, <- (take_S_r _ _ _ Hk). rewrite take_ge by lia. by rewrite drop_0.
  - rewrite (take_S_r _ _ _ Hk). by rewrite assoc_L by apply _.
Qed.

(** Visited entries under the hand are passed over, their bit cleared. *)
Lemma sieve_loop_pass fuel order pre post vis h :
  NoDup order → from_hand order h = pre ++ post → Forall (is_visited vis) pre →
  ∃ h', sieve_loop (length pre + fuel) order vis h = sieve_loop fuel order (clear_bits pre vis) h' ∧ from_hand order h' = post ++ pre.
Proof.
  intros Hnd. revert post vis h. induction pre as [|k pre IH]; intros post vis h Hrot Hvis.
  { exists h. rewrite app_nil_r. by rewrite Hrot. }
  apply Forall_cons in Hvis as [Hk Hpre]. destruct (from_hand_cons _ _ _ _ Hrot) as [Hget Hnext].
  assert (k ∉ pre) as Hnin.
  { assert (NoDup ((k :: pre) ++ post)) as Hnd' by (rewrite <- Hrot, from_hand_perm; done).
    apply NoDup_app in Hnd' as [Hnd' _]. by apply NoDup_cons in Hnd' as [? _]. }
  destruct (IH (post ++ [k]) (<[k := false]> vis) (S (norm_hand order h))) as (h' & Hrun & Hrot').
  - rewrite Hnext. by rewrite <- assoc_L by apply _.
  - apply Forall_forall. intros x Hx. rewrite Forall_forall in Hpre. unfold is_visited.
    rewrite lookup_insert_ne by (intros ->; done). by apply Hpre.
  - exists h'. split; [|by rewrite Hrot', <- assoc_L by apply _].
    change (length (k :: pre) + fuel)%nat with (S (length pre + fuel)). cbn [sieve_loop].
    fold (norm_hand order h). rewrite Hget. cbn [mbind option_bind]. rewrite (proj2 (is_visited_default vis k) Hk). exact Hrun.
Qed.

Lemma sieve_loop_take fuel order vis h k l :
  from_hand order h = k :: l → ¬ is_visited vis k →
  sieve_loop (S fuel) order vis h = Some (k, delete (norm_hand order h) order, vis, norm_hand order h)
  ∧ from_hand (delete (norm_hand order h) order) (norm_hand order h) = l.
Proof.
  intros Hrot Hk. destruct (from_hand_cons _ _ _ _ Hrot) as [Hget Hnext]. split.
  - cbn [sieve_loop]. fold (norm_hand order h). rewrite Hget. cbn [mbind option_bind].
    destruct (default false (vis !! k)) eqn:E; [by apply is_visited_default in E|done].
  - pose proof (lookup_lt_Some _ _ _ Hget) as Hlt.
    unfold from_hand in Hrot. rewrite (drop_S _ _ _ Hget) in Hrot. injection Hrot as <-.
    remember (norm_hand order h) as n eqn:Hn. rewrite delete_take_drop. unfold from_hand, norm_hand.
    rewrite length_app, length_take, length_drop, Nat.min_l by lia.
    destruct (Nat.leb_spec (n + (length order - S n)) n).
    + rewrite drop_0, take_0, app_nil_r. rewrite (drop_ge order (S n)) by lia. by rewrite app_nil_r.
    + rewrite drop_app_length', take_app_length' by (rewrite length_take; lia). done.
Qed.

Section invariant.
Context {V : Type}.
Implicit Types s : EndpointStore V.

(** [map], [visited] and [order] agree, within the bound. *)
Record ep_inv s : Prop := {
  inv_max : (1 ≤ max_size s)%nat;
  inv_bound : (size (ep_map s) ≤ max_size s)%nat;
  inv_order : NoDup (ep_order s);
  inv_dom : ∀ k, k ∈ ep_order s ↔ is_Some (ep_map s !! k);
  inv_visited : ∀ k, is_Some (visited s !! k) ↔ is_Some (ep_map s !! k)
}.

Lemma sieve_victim_ok s :
  NoDup (ep_order s) → ep_order s ≠ [] →
  ∃ pre k post i vis h,
    from_hand (ep_order s) (hand s) = pre ++ k :: post
    ∧ sieve_victim s = Some (Some k, mkEndpointStore (max_size s) (policy s) (ep_map s) vis (delete i (ep_order s)) h (waiting s))
    ∧ ep_order s !! i = Some k
    ∧ from_hand (delete i (ep_order s)) h = post ++ pre
    ∧ (Forall (is_visited (visited s)) pre ∧ ¬ is_visited (visited s) k ∧ vis = clear_bits pre (visited s)
       ∨ pre = [] ∧ Forall (is_visited (visited s)) (k :: post) ∧ vis = clear_bits (k :: post) (visited s)).
Proof.
  intros Hnd Hne. unfold sieve_victim. rewrite decide_False by done.
  assert (length (from_hand (ep_order s) (hand s)) = length (ep_order s)) as Hlen by (by rewrite from_hand_perm).
  destruct (split_visited (visited s) (from_hand (ep_order s) (hand s))) as [(pre & k & post & Hrot & Hpre & Hk)|Hall].
  - destruct (sieve_loop_pass (S (length post + 1)) (ep_order s) pre (k :: post) (visited s) (hand s)) as (h' & Hrun & Hrot'); [done..|].
    destruct (sieve_loop_take (length post + 1) (ep_order s) (clear_bits pre (visited s)) h' k _ Hrot') as [Hrun' Hrot''].
    { unfold is_visited. rewrite clear_bits_lookup. by case_decide. }
    exists pre, k, post, (norm_hand (ep_order s) h'), (clear_bits pre (visited s)), (norm_hand (ep_order s) h').
    split_and!; [done| |by destruct (from_hand_cons _ _ _ _ Hrot') as [? _]|done|by left].
    rewrite Hrot, length_app in Hlen. simpl in Hlen.
    replace (S (length (ep_order s))) with (length pre + S (length post + 1))%nat by lia. by rewrite Hrun, Hrun'.
  - destruct (from_hand (ep_order s) (hand s)) as [|k rot] eqn:Hrot; [simpl in Hlen; by destruct (ep_order s)|].
    destruct (sieve_loop_pass 1 (ep_order s) (k :: rot) [] (visited s) (hand s)) as (h' & Hrun & Hrot'); [done|by rewrite app_nil_r|done|].
    destruct (sieve_loop_take 0 (ep_order s) (clear_bits (k :: rot) (visited s)) h' k _ Hrot') as [Hrun' Hrot''].
    { unfold is_visited. rewrite clear_bits_lookup. rewrite decide_True by (by left). done. }
    exists [], k, rot, (norm_hand (ep_order s) h'), (clear_bits (k :: rot) (visited s)), (norm_hand (ep_order s) h').
    split_and!; [done| |by destruct (from_hand_cons _ _ _ _ Hrot') as [? _]|by rewrite app_nil_r|by right].
    replace (S (length (ep_order s))) with (length (k :: rot) + 1)%nat by lia. by rewrite Hrun, Hrun'.
Qed.

Lemma order_size s : ep_inv s → length (ep_order s) = size (ep_map s).
Proof.
  intros H. rewrite <- (size_list_to_set (C := gset string)) by apply H. rewrite <- size_dom. f_equal.
  apply set_eq. intros k. by rewrite elem_of_list_to_set, (inv_dom _ H), elem_of_dom.
Qed.

Lemma clear_bits_dom keys (vis : gmap string bool) k :
  (∀ x, x ∈ keys → is_Some (vis !! x)) → is_Some (clear_bits keys vis !! k) ↔ is_Some (vis !! k).
Proof. intros H. rewrite clear_bits_lookup. case_decide; [|done]. split; [by intros _; apply H|eauto]. Qed.

Lemma pick_victim_ok s :
  ep_inv s → ep_order s ≠ [] →
  ∃ k vis order h,
    pick_victim s = Some (Some k, mkEndpointStore (max_size s) (policy s) (ep_map s) vis order h (waiting s))
    ∧ ep_order s ≡ₚ k :: order ∧ (∀ x, is_Some (vis !! x) ↔ is_Some (visited s !! x)).
Proof.
  intros Hs Hne. unfold pick_victim. destruct (policy s) eqn:Hp.
  - destruct (ep_order s) as [|k order]; [done|]. exists k, (visited s), order, (hand s). done.
  - destruct (sieve_victim_ok s (inv_order _ Hs) Hne) as (pre & k & post & i & vis & h & Hrot & Hrun & Hi & _ & Hvis).
    exists k, vis, (delete i (ep_order s)), h. rewrite Hp in Hrun. split_and!; [done|by apply delete_Permutation|].
    assert (∀ x, x ∈ pre ++ k :: post → is_Some (visited s !! x)) as Hin.
    { intros x. rewrite <- Hrot, from_hand_perm. intros ?%(inv_dom _ Hs). by apply (inv_visited _ Hs). }
    intros x. destruct Hvis as [(_ & _ & ->)|(-> & _ & ->)]; apply clear_bits_dom; intros y Hy; apply Hin; set_solver.
Qed.

Lemma evict_one_ok held s :
  ep_inv s → ep_map s ≠ ∅ →
  ∃ k conn s', evict_one held s = Some s' ∧ ep_map s !! k = Some conn ∧ ep_map s' = delete k (ep_map s) ∧ max_size s' = max_size s
    ∧ waiting s' = waiting s ++ (if (1 <? strong_count conn (conn :: map_arcs (delete k (ep_map s)) ++ waiting s ++ held))%nat then [conn] else [])
    ∧ ep_inv s'.
Proof.
  intros Hs Hne. assert (ep_order s ≠ []) as Hne'.
  { intros E. apply Hne, map_size_empty_inv. by rewrite <- (order_size s Hs), E. }
  destruct (pick_victim_ok s Hs Hne') as (k & vis & order & h & Hpick & Hperm & Hvis).
  assert (k ∈ ep_order s) as [conn Hconn]%(inv_dom _ Hs) by (rewrite Hperm; left).
  assert (NoDup (k :: order)) as [Hk Hnd]%NoDup_cons by (rewrite <- Hperm; apply Hs).
  unfold evict_one. rewrite Hpick. cbn [mbind option_bind]. unfold drop_victim. cbn [ep_map]. rewrite Hconn. cbn [max_size policy visited ep_order hand waiting].
  eexists k, conn, _. split; [done|]. cbn [ep_map max_size waiting]. split_and!; [done..|by split_ifs; rewrite ?app_nil_r|].
  assert (size (ep_map s) = S (size (delete k (ep_map s)))) as Hsz.
  { rewrite map_size_delete_Some by (by eexists). symmetry. apply Nat.succ_pred. by intros E%map_size_empty_inv. }
  split; cbn [ep_map max_size visited ep_order]; [apply Hs| |done|..].
  - pose proof (inv_bound _ Hs). lia.
  - intros x. destruct (decide (x = k)) as [->|Hx].
    + rewrite lookup_delete_eq. split; [done|by intros []].
    + rewrite lookup_delete_ne, <- (inv_dom _ Hs), Hperm, elem_of_cons by done. naive_solver.
  - intros x. destruct (decide (x = k)) as [->|Hx]; [by rewrite !lookup_delete_eq|].
    by rewrite !lookup_delete_ne, Hvis, (inv_visited _ Hs).
Qed.
End invariant.

(** ** Ownership *)

Section ownership.
Context {V : Type}.
Implicit Types (s : EndpointStore V) (y : EpSystem V) (a c : Arc V) (l : list (Arc V)).

Definition ids l : list Z := arc_id <$> l.
(** Every connection the store owns. *)
Definition owned s : list (Arc V) := map_arcs (ep_map s) ++ waiting s.

Lemma owners_pos a l : (0 < owners a l)%nat ↔ arc_id a ∈ ids l.
Proof.
  unfold owners, ids. induction l as [|b l IH]; simpl; [split; [lia|by intros ?%elem_of_nil]|].
  rewrite filter_cons, elem_of_cons. case_decide as Hb; simpl; [split; [by left|lia]|]. rewrite IH. naive_solver.
Qed.

(** A handle is shared when another handle has its address. *)
Lemma strong_count_shared c l k : (1 <? strong_count c (l ++ c :: k))%nat = true ↔ arc_id c ∈ ids (l ++ k).
Proof.
  rewrite Nat.ltb_lt, <- owners_pos. unfold strong_count, owners. rewrite !filter_app, !length_app, filter_cons_True by done. simpl. lia.
Qed.

Lemma map_arcs_insert (m : gmap string (Arc V)) k c : m !! k = None → map_arcs (<[k := c]> m) ≡ₚ c :: map_arcs m.
Proof. intros Hk. unfold map_arcs. by rewrite map_to_list_insert. Qed.
Lemma map_arcs_delete (m : gmap string (Arc V)) k c : m !! k = Some c → map_arcs m ≡ₚ c :: map_arcs (delete k m).
Proof. intros Hk. unfold map_arcs. by rewrite <- (map_to_list_delete m k c Hk). Qed.

(** Live allocations have distinct addresses, and a handle a caller holds is still owned by the
    store: in the map, or waiting. *)
Record sys_inv y : Prop := {
  sys_store : ep_inv (ep_store y);
  sys_ids : NoDup (ids (owned (ep_store y)));
  sys_held : ∀ a, a ∈ ep_held y → a ∈ owned (ep_store y);
  sys_fresh : ∀ a, a ∈ owned (ep_store y) → arc_id a < ep_fresh y
}.

Lemma ids_elem a l : a ∈ l → arc_id a ∈ ids l.
Proof. intros H. by apply (list_elem_of_fmap_2 arc_id). Qed.

(** Under distinct addresses, [reclaim] keeps exactly the connections callers hold. *)
Lemma retain_live_filter (live held kept rest : list (Arc V)) :
  NoDup (ids (live ++ kept ++ rest)) →
  retain_live (live ++ held) kept rest = kept ++ filter (λ c, arc_id c ∈ ids held) rest.
Proof.
  revert kept. induction rest as [|c rest IH]; intros kept Hnd; simpl; [by rewrite app_nil_r|].
  assert (arc_id c ∉ ids (live ++ kept ++ rest)) as Hc.
  { unfold ids in *. rewrite !fmap_app, fmap_cons in Hnd. rewrite !fmap_app.
    rewrite <- (Permutation_middle (arc_id <$> kept)), <- (Permutation_middle (arc_id <$> live)) in Hnd.
    by apply NoDup_cons in Hnd as [? _]. }
  assert ((1 <? strong_count c ((live ++ held) ++ kept ++ c :: rest))%nat = bool_decide (arc_id c ∈ ids held)) as ->.
  { apply eq_bool_prop_intro. rewrite bool_decide_spec, Is_true_true, (assoc_L (++)), strong_count_shared by apply _.
    unfold ids in *. rewrite !fmap_app, !elem_of_app in *. naive_solver. }
  rewrite filter_cons. case_bool_decide; [rewrite decide_True by done|rewrite decide_False by done].
  - rewrite IH; [by rewrite <- (assoc_L (++)) by apply _|]. by rewrite <- (assoc_L (++) kept) by apply _.
  - apply IH. unfold ids in *. rewrite !fmap_app, fmap_cons in Hnd. rewrite !fmap_app.
    rewrite <- (Permutation_middle (arc_id <$> kept)), <- (Permutation_middle (arc_id <$> live)) in Hnd.
    by apply NoDup_cons in Hnd as [_ ?].
Qed.

Lemma reclaim_waiting y :
  sys_inv y → waiting (reclaim (ep_held y) (ep_store y)) = filter (λ c, arc_id c ∈ ids (ep_held y)) (waiting (ep_store y)).
Proof. intros H. unfold reclaim. cbn [waiting]. by rewrite retain_live_filter by apply H. Qed.

(** What an eviction does to the connections owned: nothing is lost that a caller holds. *)
Lemma evict_owned y :
  sys_inv y → ep_map (ep_store y) ≠ ∅ →
  ∃ k s', evict_one (ep_held y) (ep_store y) = Some s' ∧ is_Some (ep_map (ep_store y) !! k) ∧ ep_map s' = delete k (ep_map (ep_store y))
    ∧ max_size s' = max_size (ep_store y)
    ∧ sys_inv (mkEpSystem s' (ep_held y) (ep_fresh y)).
Proof.
  intros H Hne. destruct (evict_one_ok (ep_held y) _ (sys_store _ H) Hne) as (k & conn & s' & Hrun & Hk & Hm & Hmax & Hw & Hinv).
  exists k, s'. split_and!; [done|by eexists|done|done|].
  assert (owned (ep_store y) ≡ₚ conn :: map_arcs (delete k (ep_map (ep_store y))) ++ waiting (ep_store y)) as Hperm.
  { unfold owned. by rewrite (map_arcs_delete _ _ _ Hk). }
  assert (owned s' ≡ₚ owned (ep_store y) ∨ owned s' ≡ₚ map_arcs (delete k (ep_map (ep_store y))) ++ waiting (ep_store y) ∧ arc_id conn ∉ ids (ep_held y)) as Hown.
  { rewrite Hperm. unfold owned. rewrite Hm, Hw. destruct (1 <? _)%nat eqn:Hc; [left|right].
    - rewrite (assoc_L (++)) by apply _. by rewrite <- Permutation_cons_append.
    - rewrite app_nil_r. split; [done|]. intros Hin. apply not_true_iff_false in Hc. apply Hc, (strong_count_shared conn []).
      simpl. unfold ids in *. rewrite !fmap_app, !elem_of_app. auto. }
  pose proof (sys_ids _ H) as Hids. unfold ids in Hids.
  destruct Hown as [Hown|[Hown Hfree]]; split; cbn [ep_store ep_held ep_fresh]; try done.
  - unfold ids. by rewrite Hown.
  - intros a Ha. rewrite Hown. by apply H.
  - intros a. rewrite Hown. apply H.
  - unfold ids. rewrite Hown. rewrite Hperm in Hids. by apply NoDup_cons in Hids as [_ ?].
  - intros a Ha. rewrite Hown. pose proof (sys_held _ H _ Ha) as Ho. rewrite Hperm in Ho. apply elem_of_cons in Ho as [->|?]; [|done].
    by apply ids_elem in Ha.
  - intros a Ha. apply H. rewrite Hperm. right. by rewrite <- Hown.
Qed.

Lemma insert_inv s key c order' :
  ep_inv s → ep_map s !! key = None → (size (ep_map s) < max_size s)%nat → order' = ep_order s ++ [key] →
  ep_inv (mkEndpointStore (max_size s) (policy s) (<[key := c]> (ep_map s)) (<[key := false]> (visited s)) order' (hand s) (waiting s)).
Proof.
  intros H Hk Hlt ->. assert (key ∉ ep_order s) as Hnin by (rewrite (inv_dom _ H), Hk; by intros []).
  split; cbn [ep_map max_size visited ep_order]; [apply H|rewrite map_size_insert_None by done; lia| | |].
  - apply NoDup_app. split_and!; [apply H| |by apply NoDup_singleton]. intros x Hx ->%list_elem_of_singleton. done.
  - intros x. rewrite elem_of_app, list_elem_of_singleton, lookup_insert_is_Some', (inv_dom _ H). naive_solver.
  - intros x. rewrite !lookup_insert_is_Some', (inv_visited _ H). done.
Qed.

(** A connection made at a fresh address joins the store. *)
Lemma insert_sys_inv y key v :
  sys_inv y → ep_map (ep_store y) !! key = None → (size (ep_map (ep_store y)) < max_size (ep_store y))%nat →
  let c := mkArc (ep_fresh y) v in
  let s := ep_store y in
  sys_inv (mkEpSystem (mkEndpointStore (max_size s) (policy s) (<[key := c]> (ep_map s)) (<[key := false]> (visited s))
                         (ep_order s ++ [key]) (hand s) (waiting s)) (ep_held y ++ [c]) (ep_fresh y + 1)).
Proof.
  intros H Hk Hlt c s.
  assert (owned (mkEndpointStore (max_size s) (policy s) (<[key := c]> (ep_map s)) (<[key := false]> (visited s))
            (ep_order s ++ [key]) (hand s) (waiting s)) ≡ₚ c :: owned s) as Hown by (unfold owned; cbn [ep_map waiting]; by rewrite map_arcs_insert).
  split; cbn [ep_store ep_held ep_fresh].
  - by apply insert_inv; [apply H|..].
  - unfold ids. rewrite Hown. apply NoDup_cons. split; [|apply H].
    intros (a & Ha & Hin)%list_elem_of_fmap. pose proof (sys_fresh _ H _ Hin). simpl in Ha. lia.
  - intros a. rewrite Hown, elem_of_app, list_elem_of_singleton, elem_of_cons. intros [?%(sys_held _ H)| ->]; auto.
  - intros a. rewrite Hown, elem_of_cons. intros [->|Ha]; [simpl; lia|]. pose proof (sys_fresh _ H _ Ha). lia.
Qed.

Lemma get_or_insert_ok {E} y key (make : result E V) :
  sys_inv y → ∃ r s, get_or_insert (ep_held y) (ep_fresh y) key (λ _, make) (ep_store y) = Some (r, s)
    ∧ max_size s = max_size (ep_store y)
    ∧ sys_inv (mkEpSystem s (ep_held y ++ match r with Ok c => [c] | Err _ => [] end) (ep_fresh y + 1)).
Proof.
  intros H. unfold get_or_insert. destruct (ep_map (ep_store y) !! key) as [c|] eqn:Hk.
  - eexists _, _. split; [done|]. split; [done|]. pose proof (sys_store _ H) as Hs. split; cbn [ep_store ep_held ep_fresh]; [|apply H|..].
    + split; cbn [ep_map max_size visited ep_order]; try apply Hs. intros x. rewrite lookup_insert_is_Some', (inv_visited _ Hs).
      split; [intros [<-|?]; [by eexists|done]|by right].
    + intros a. rewrite elem_of_app, list_elem_of_singleton. intros [?%(sys_held _ H)| ->]; [done|].
      unfold owned. apply elem_of_app. left. unfold map_arcs. apply list_elem_of_fmap. exists (key, c). split; [done|]. by apply elem_of_map_to_list.
    + intros a Ha. pose proof (sys_fresh _ H _ Ha). lia.
  - destruct make as [v|e].
    + destruct (Nat.leb_spec (max_size (ep_store y)) (size (ep_map (ep_store y)))) as [Hfull|Hroom].
      * destruct (evict_owned y H) as (k & s' & -> & Hkk & Hm & Hmax & Hsys).
        { intros E0. rewrite E0, map_size_empty in Hfull. pose proof (inv_max _ (sys_store _ H)). lia. }
        cbn [mbind option_bind]. eexists _, _. split; [done|]. split; [done|].
        apply (insert_sys_inv (mkEpSystem s' (ep_held y) (ep_fresh y))); [done|cbn; by rewrite Hm, lookup_delete_None; right|].
        cbn [ep_store]. rewrite Hmax, Hm, map_size_delete_Some by done. pose proof (inv_bound _ (sys_store _ H)). pose proof (inv_max _ (sys_store _ H)). lia.
      * cbn [mbind option_bind]. eexists _, _. split; [done|]. split; [done|]. by apply insert_sys_inv.
    + eexists _, _. split; [done|]. split; [done|]. rewrite app_nil_r. destruct H as [? ? ? Hf]. split; [done..|]. cbn. intros a Ha. pose proof (Hf _ Ha). lia.
Qed.

Lemma ep_run_inv op y : sys_inv y → ∃ y', ep_run op y = Some y' ∧ sys_inv y' ∧ max_size (ep_store y') = max_size (ep_store y).
Proof.
  intros H. destruct op as [key make|i|]; simpl.
  - destruct (get_or_insert_ok y key make H) as (r & s & -> & Hmax & Hs). simpl. eexists. split; [done|]. destruct r; [done|]. by rewrite app_nil_r in Hs.
  - eexists. split; [done|]. split; [|done]. split; try apply H. cbn. intros a Ha. apply H. eapply elem_of_sublist; [done|]. apply sublist_delete.
  - eexists. split; [done|]. split; [|done].
    assert (owned (reclaim (ep_held y) (ep_store y)) `sublist_of` owned (ep_store y)) as Hsub.
    { unfold owned. rewrite (reclaim_waiting y H). apply sublist_app; [done|]. apply sublist_filter. }
    split; cbn [ep_store ep_held ep_fresh].
    + destruct (sys_store _ H). by split.
    + eapply sublist_NoDup; [apply (sys_ids _ H)|]. by apply fmap_sublist.
    + intros a Ha. pose proof (sys_held _ H _ Ha) as Ho. unfold owned in *. rewrite (reclaim_waiting y H), elem_of_app in *.
      destruct Ho as [?|?]; [by left|right]. apply list_elem_of_filter. split; [by apply ids_elem|done].
    + intros a Ha. apply H. by eapply elem_of_sublist.
Qed.

Lemma ep_trace_inv ops y : sys_inv y → ∃ y', ep_trace ops y = Some y' ∧ sys_inv y' ∧ max_size (ep_store y') = max_size (ep_store y).
Proof.
  revert y. induction ops as [|op ops IH]; intros y H; simpl; [by eexists|].
  destruct (ep_run_inv op y H) as (y1 & -> & H1 & Hm). simpl. destruct (IH y1 H1) as (y2 & -> & H2 & Hm2). eexists. split; [done|]. split; [done|congruence].
Qed.

Lemma ep_init_inv max p : sys_inv (ep_init max p).
Proof.
  split; cbn; try (intros ? []%elem_of_nil); [|by constructor]. split; cbn; [lia|rewrite map_size_empty; lia|by constructor| |]; intros k;
    rewrite ?lookup_empty; (split; [try intros []%elem_of_nil; done|by intros []]).
Qed.
End ownership.

(** ** Theorems *)

(** C29 Through any sequence of lookups (hits, builds, failed builds), dropped handles and reclaim passes,
    with either policy, the store never panics (the SIEVE scan ends, no index is out of range), never holds
    more than [max_size] connections, its three collections agree, and a connection some caller still holds
    is never lost: it is in the map or on the waiting list. *)
Theorem endpoint_store_safe {V} max p (ops : list (EpOp V)) :
  ∃ y, ep_trace ops (ep_init max p) = Some y
    ∧ (ep_len (ep_store y) ≤ Nat.max max 1)%nat
    ∧ NoDup (ep_order (ep_store y))
    ∧ (∀ k, k ∈ ep_order (ep_store y) ↔ is_Some (peek k (ep_store y)))
    ∧ (∀ a, a ∈ ep_held y → (∃ k, peek k (ep_store y) = Some a) ∨ a ∈ waiting (ep_store y)).
Proof.
  destruct (ep_trace_inv ops _ (ep_init_inv max p)) as (y & Hrun & H & Hmax). pose proof (sys_store _ H) as Hs. exists y.
  split_and!; [done| |apply Hs|apply Hs|].
  - pose proof (inv_bound _ Hs) as Hb. rewrite Hmax in Hb. exact Hb.
  - intros a Ha%(sys_held _ H). apply elem_of_app in Ha as [Ha|Ha]; [left|by right].
    apply list_elem_of_fmap in Ha as ([k c] & -> & Hk). exists k. by apply elem_of_map_to_list in Hk.
Qed.

(** In every reachable state a reclaim pass keeps, in order, exactly the waiting connections a caller
    still holds, and touches nothing else; with no handle out, nothing is left waiting. *)
Theorem reclaim_exact {V} max p (ops : list (EpOp V)) y :
  ep_trace ops (ep_init max p) = Some y →
  waiting (reclaim (ep_held y) (ep_store y)) = filter (λ c, arc_id c ∈ arc_id <$> ep_held y) (waiting (ep_store y))
  ∧ ep_map (reclaim (ep_held y) (ep_store y)) = ep_map (ep_store y)
  ∧ (ep_held y = [] → waiting_len (reclaim (ep_held y) (ep_store y)) = 0%nat).
Proof.
  intros Hrun. destruct (ep_trace_inv ops _ (ep_init_inv max p)) as (y' & Hrun' & H & _). assert (y' = y) as -> by congruence.
  split_and!; [by apply reclaim_waiting|done|]. intros E0. unfold waiting_len. rewrite (reclaim_waiting y H), E0. apply length_zero_iff_nil.
  apply list_filter_none. intros x _. simpl. by intros []%elem_of_nil.
Qed.

(** SIEVE ends after at most one pass and evicts the first entry from the hand that was not used since
    the hand last passed it; the used entries before it lose their bit and stay (their second chance).  When
    every entry was used, the one under the hand goes and all bits are cleared.  The hand then stands at the
    victim's successor. *)
Theorem sieve_second_chance {V} (s : EndpointStore V) :
  NoDup (ep_order s) → ep_order s ≠ [] →
  ∃ pre k post s',
    from_hand (ep_order s) (hand s) = pre ++ k :: post
    ∧ sieve_victim s = Some (Some k, s')
    ∧ ep_order s ≡ₚ k :: ep_order s'
    ∧ from_hand (ep_order s') (hand s') = post ++ pre
    ∧ (Forall (λ x, visited s !! x = Some true) pre ∧ visited s !! k ≠ Some true ∧ visited s' = clear_bits pre (visited s)
       ∨ pre = [] ∧ Forall (λ x, visited s !! x = Some true) (k :: post) ∧ visited s' = clear_bits (k :: post) (visited s)).
Proof.
  intros Hnd Hne. destruct (sieve_victim_ok s Hnd Hne) as (pre & k & post & i & vis & h & Hrot & Hrun & Hi & Hrot' & Hvis).
  eexists pre, k, post, _. split_and!; [done|exact Hrun|by apply delete_Permutation|done|exact Hvis].
Qed.

(** ** Runs *)

Definition sieve_ab : EndpointStore Z :=
  mkEndpointStore 2 Sieve {["a" := mkArc 0 1; "b" := mkArc 1 2]} {["a" := true; "b" := false]} ["a"; "b"] 0 [].

Lemma sieve_second_chance_witness : ∃ s', sieve_victim sieve_ab = Some (Some "b"%string, s').
Proof.
  destruct (sieve_second_chance sieve_ab) as (pre & k & post & s' & Hrot & Hrun & _); [by vm_compute; repeat constructor; set_solver|done|].
  exists s'. rewrite Hrun. f_equal. f_equal. f_equal. assert (Hk : fst <$> sieve_victim sieve_ab = Some (Some "b"%string)) by (vm_compute; reflexivity).
  rewrite Hrun in Hk. by injection Hk as ->.
Defined.

(** A lookup holds "a"; the next evicts it, in flight; then the handle is dropped. *)
Definition ep_in_flight : list (EpOp Z) := [OpGet "a" (Ok 1); OpGet "b" (Ok 2); OpDrop 0].
Definition ep_in_flight_end : EpSystem Z := default (ep_init 1 Fifo) (ep_trace ep_in_flight (ep_init 1 Fifo)).

Lemma reclaim_exact_witness :
  waiting_len (ep_store ep_in_flight_end) = 1%nat ∧ waiting (reclaim (ep_held ep_in_flight_end) (ep_store ep_in_flight_end)) = [].
Proof.
  destruct (reclaim_exact 1 Fifo ep_in_flight ep_in_flight_end) as (Hw & _); [run|].
  split; [vm_compute; reflexivity|]. rewrite Hw. vm_compute. reflexivity.
Defined.

(** Nothing but a reclaim pass shrinks the waiting list: a lookup or a dropped handle never removes a
    connection from it, so a caller that never calls [reclaim] keeps every connection evicted in flight. *)
Theorem waiting_only_reclaimed {V} max p (ops : list (EpOp V)) op y y' :
  ep_trace ops (ep_init max p) = Some y → op ≠ OpReclaim → ep_run op y = Some y' →
  waiting (ep_store y) `prefix_of` waiting (ep_store y').
Proof.
  intros Hrun Hop Hstep. destruct (ep_trace_inv ops _ (ep_init_inv max p)) as (y0 & Hrun' & H & _). assert (y0 = y) as -> by congruence.
  destruct op as [key make|i|]; [|by simplify_eq/=|done]. simpl in Hstep. unfold get_or_insert in Hstep.
  destruct (ep_map (ep_store y) !! key); [by simplify_eq/=|]. destruct make as [v|e]; [|by simplify_eq/=].
  destruct (Nat.leb_spec (max_size (ep_store y)) (size (ep_map (ep_store y)))) as [Hfull|]; [|by simplify_eq/=].
  destruct (evict_one_ok (ep_held y) _ (sys_store _ H)) as (k & conn & s' & He & _ & _ & _ & Hw & _).
  { intros E0. rewrite E0, map_size_empty in Hfull. pose proof (inv_max _ (sys_store _ H)). lia. }
  rewrite He in Hstep. simplify_eq/=. rewrite Hw. by apply prefix_app_r.
Qed.

Lemma waiting_only_reclaimed_witness : waiting (ep_store ep_in_flight_end) `prefix_of` waiting (ep_store ep_in_flight_end).
Proof.
  refine (waiting_only_reclaimed 1 Fifo ep_in_flight (OpDrop 5) ep_in_flight_end _ _ _ _); [run|done|vm_compute; reflexivity].
Defined.
