(* ===== verification/Topology.v ===== *)
(** * Topology

    crates/quillcache-transfer-engine/src/topology.rs: the priority matrix (location to
    devices, best first), the PCIe affinities it is rebuilt from, and the decision between
    GPUDirect and staging through the CPU.  The order in which the rebuild
    walks the hash map's keys is the parameter [HashIter]. *)
From S2P Require Import Prelude F64 Identity ShardedMap Router RouterPlan.

Inductive PcieAffinity : Type := SameSwitch | SameNuma | CrossNuma.

(** The derived [Ord]: declaration order. *)
Definition affinity_ord (a : PcieAffinity) : Z := match a with SameSwitch => 0 | SameNuma => 1 | CrossNuma => 2 end.

Record Topology : Type := mkTopology {
  matrix : gmap string (list string);
  affinity : gmap string (list (string * PcieAffinity))
}.

Definition topology_new : Topology := mkTopology ∅ ∅.

Definition set_preference (location : string) (devices : list string) (t : Topology) : Topology :=
  mkTopology (<[location := devices]> (matrix t)) (affinity t).

Definition select_device (location : string) (t : Topology) : option string :=
  devices ← matrix t !! location; head devices.

Definition select_devices (location : string) (t : Topology) : list string :=
  default [] (matrix t !! location).

Definition topology_is_empty (t : Topology) : bool := bool_decide (matrix t = ∅).

(** The first entry for [nic] is updated in place, else one is appended. *)
Fixpoint update_or_push (nic : string) (a : PcieAffinity) (entry : list (string * PcieAffinity)) : list (string * PcieAffinity) :=
  match entry with
  | [] => [(nic, a)]
  | (n, b) :: entry => if bool_decide (n = nic) then (n, a) :: entry else (n, b) :: update_or_push nic a entry
  end.

Definition set_affinity (location nic : string) (a : PcieAffinity) (t : Topology) : Topology :=
  mkTopology (matrix t) (<[location := update_or_push nic a (default [] (affinity t !! location))]> (affinity t)).

Definition closer (x y : string * PcieAffinity) : bool := affinity_ord x.2 <=? affinity_ord y.2.

Definition affine_nics (location : string) (t : Topology) : list string :=
  match affinity t !! location with
  | None => []
  | Some nics => (stable_sort closer nics).*1
  end.

Definition prefers_gpudirect (location : string) (max_affinity : PcieAffinity) (t : Topology) : bool :=
  match (nics ← affinity t !! location; min_by (λ a b, affinity_ord a <? affinity_ord b) nics.*2) with
  | Some best => affinity_ord best <=? affinity_ord max_affinity
  | None => false
  end.

Definition rebuild_one (t : Topology) (loc : string) : Topology :=
  let ranked := affine_nics loc t in
  if bool_decide (ranked = []) then t else mkTopology (<[loc := ranked]> (matrix t)) (affinity t).

Section rebuild.
Context `{HashIter}.

Definition rebuild_matrix_from_affinity (t : Topology) : Topology :=
  foldl rebuild_one t (hkeys (affinity t)).

(** ** Lemmas *)

Lemma closer_total a b : closer a b = false → closer b a = true.
Proof. unfold closer. rewrite Z.leb_gt, Z.leb_le. lia. Qed.
Lemma closer_trans a b c : closer a b = true → closer b c = true → closer a c = true.
Proof. unfold closer. rewrite !Z.leb_le. lia. Qed.

Lemma rebuild_one_affinity t loc : affinity (rebuild_one t loc) = affinity t.
Proof. unfold rebuild_one. by case_bool_decide. Qed.

Lemma affine_nics_affinity loc t t' : affinity t' = affinity t → affine_nics loc t' = affine_nics loc t.
Proof. unfold affine_nics. by intros ->. Qed.

Lemma rebuild_fold keys t :
  affinity (foldl rebuild_one t keys) = affinity t
  ∧ ∀ loc, matrix (foldl rebuild_one t keys) !! loc
           = if decide (loc ∈ keys ∧ affine_nics loc t ≠ []) then Some (affine_nics loc t) else matrix t !! loc.
Proof.
  revert t. induction keys as [|k keys IH]; intros t; cbn [foldl].
  { split; [done|]. intros loc. rewrite decide_False; [done|]. by intros [[]%elem_of_nil _]. }
  destruct (IH (rebuild_one t k)) as [Ha Hm]. split; [by rewrite Ha, rebuild_one_affinity|]. intros loc.
  rewrite Hm, (affine_nics_affinity loc t) by apply rebuild_one_affinity.
  destruct (decide (loc ∈ keys ∧ affine_nics loc t ≠ [])) as [[Hin Hne]|Hn].
  { rewrite decide_True; [done|]. split; [by right|done]. }
  unfold rebuild_one. destruct (decide (loc = k)) as [->|Hk].
  - case_bool_decide as He; [rewrite decide_False by tauto; done|]. cbn. rewrite lookup_insert_eq, decide_True; [done|]. split; [by left|done].
  - rewrite decide_False by (rewrite elem_of_cons; tauto). case_bool_decide; [done|]. cbn. by rewrite lookup_insert_ne.
Qed.

Lemma update_or_push_NoDup nic a entry : NoDup entry.*1 → NoDup (update_or_push nic a entry).*1.
Proof.
  induction entry as [|[n b] entry IH]; simpl; intros Hnd; [by apply NoDup_singleton|].
  case_bool_decide; simpl; [done|]. apply NoDup_cons in Hnd as [Hn Hnd]. apply NoDup_cons. split; [|by apply IH].
  assert ((update_or_push nic a entry).*1 ⊆ nic :: entry.*1) as Hsub.
  { clear. induction entry as [|[m c] entry IH]; simpl; [done|]. case_bool_decide; simpl; set_solver. }
  intros Hin%Hsub. apply elem_of_cons in Hin as [->|?]; done.
Qed.

Lemma update_or_push_spec nic a entry n b :
  NoDup entry.*1 → (n, b) ∈ update_or_push nic a entry ↔ n = nic ∧ b = a ∨ n ≠ nic ∧ (n, b) ∈ entry.
Proof.
  induction entry as [|[m c] entry IH]; simpl; intros Hnd.
  { rewrite list_elem_of_singleton. split; [intros [= -> ->]; by left|]. intros [[-> ->]|[_ []%elem_of_nil]]; done. }
  apply NoDup_cons in Hnd as [Hm Hnd]. case_bool_decide as Hc.
  - subst m. rewrite !elem_of_cons. split.
    + intros [[= -> ->]|Hin]; [by left|]. right. split; [|by right]. intros ->. apply Hm. apply list_elem_of_fmap. by exists (nic, b).
    + intros [[-> ->]|[Hne [[= -> ->]|Hin]]]; [by left|done|by right].
  - rewrite !elem_of_cons, IH by done. naive_solver.
Qed.

(** ** Theorems *)

(** Recording an affinity updates exactly that (location, NIC) edge and keeps one edge per NIC. *)
Theorem set_affinity_edge t loc nic a :
  (∀ l e, affinity t !! l = Some e → NoDup e.*1) →
  (∀ l e, affinity (set_affinity loc nic a t) !! l = Some e → NoDup e.*1)
  ∧ ∀ l n b, (n, b) ∈ default [] (affinity (set_affinity loc nic a t) !! l)
             ↔ (l = loc ∧ n = nic ∧ b = a) ∨ (¬ (l = loc ∧ n = nic) ∧ (n, b) ∈ default [] (affinity t !! l)).
Proof.
  intros Hnd. assert (NoDup (default [] (affinity t !! loc)).*1) as Hloc.
  { destruct (affinity t !! loc) as [e|] eqn:He; [by eapply Hnd|constructor]. }
  split.
  - intros l e. unfold set_affinity. cbn [affinity]. destruct (decide (l = loc)) as [->|Hl].
    + rewrite lookup_insert_eq. intros [= <-]. by apply update_or_push_NoDup.
    + rewrite lookup_insert_ne by done. apply Hnd.
  - intros l n b. unfold set_affinity. cbn [affinity]. destruct (decide (l = loc)) as [->|Hl].
    + rewrite lookup_insert_eq. simpl. rewrite update_or_push_spec by done. naive_solver.
    + rewrite lookup_insert_ne by done. naive_solver.
Qed.

(** After a rebuild, whatever order the map's keys come in, every location with a recorded NIC lists its
    NICs closest first (a permutation, ties in recorded order by stability), so the selected device is one no
    recorded NIC is closer than, and GPUDirect is preferred exactly when that device is close enough; the other
    locations keep their preferences. *)
Theorem rebuild_selects_closest t loc :
  match affinity t !! loc with
  | Some ((_ :: _) as nics) =>
      select_devices loc (rebuild_matrix_from_affinity t) = (stable_sort closer nics).*1
      ∧ StronglySorted (λ x y, affinity_ord x.2 ≤ affinity_ord y.2) (stable_sort closer nics)
      ∧ stable_sort closer nics ≡ₚ nics
      ∧ ∃ dev a, select_device loc (rebuild_matrix_from_affinity t) = Some dev ∧ (dev, a) ∈ nics
          ∧ (∀ n b, (n, b) ∈ nics → affinity_ord a ≤ affinity_ord b)
          ∧ ∀ max, prefers_gpudirect loc max t = (affinity_ord a <=? affinity_ord max)
  | _ => matrix (rebuild_matrix_from_affinity t) !! loc = matrix t !! loc ∧ ∀ max, prefers_gpudirect loc max t = false
  end.
Proof.
  unfold rebuild_matrix_from_affinity, select_device, select_devices. destruct (rebuild_fold (hkeys (affinity t)) t) as [_ Hm].
  rewrite Hm. unfold prefers_gpudirect. destruct (affinity t !! loc) as [[|x nics]|] eqn:Ha.
  - split; [|done]. rewrite decide_False; [done|]. intros [_ Hne]. apply Hne. unfold affine_nics. by rewrite Ha.
  - assert (affine_nics loc t = (stable_sort closer (x :: nics)).*1) as Haf by (unfold affine_nics; by rewrite Ha).
    pose proof (stable_sort_perm closer (x :: nics)) as Hp.
    destruct (stable_sort closer (x :: nics)) as [|[dev a] l] eqn:Hs; [by apply Permutation_nil_cons in Hp|].
    assert (StronglySorted (λ x y, affinity_ord x.2 ≤ affinity_ord y.2) ((dev, a) :: l)) as Hsort.
    { rewrite <- Hs. pose proof (stable_sort_sorted closer (x :: nics) closer_total closer_trans) as Hss. clear -Hss.
      induction Hss as [|y k Hk IH Hy]; constructor; [done|]. eapply Forall_impl; [exact Hy|]. intros z. apply Z.leb_le. }
    assert (∀ n b, (n, b) ∈ x :: nics → affinity_ord a ≤ affinity_ord b) as Hmin.
    { intros n b. rewrite <- Hp, elem_of_cons. apply StronglySorted_inv in Hsort as [_ Hall]. rewrite Forall_forall in Hall.
      intros [[= <- <-]|Hin]; [done|]. apply (Hall (n, b) Hin). }
    rewrite decide_True by (split; [by apply elem_of_hkeys; rewrite Ha|by rewrite Haf]). cbn [mbind option_bind default from_option]. rewrite Haf.
    split_and!; [done|done|done|]. exists dev, a. split_and!; [done|rewrite <- Hp; left|done|]. intros max.
    destruct (min_by _ (x :: nics).*2) as [best|] eqn:Hb; [|done].
    destruct (min_by_is_first_min _ (StrictWeak0 := sw_by_key affinity_ord) _ _ Hb) as (i & Hi & Hlow & _).
    assert (affinity_ord best = affinity_ord a) as ->; [|done]. apply Z.le_antisymm.
    + assert ((dev, a) ∈ x :: nics) as Hin by (rewrite <- Hp; left). apply list_elem_of_lookup in Hin as [j Hj].
      assert ((x :: nics).*2 !! j = Some a) as Hj2 by (by rewrite list_lookup_fmap, Hj). apply Hlow, Z.ltb_ge in Hj2. lia.
    + rewrite list_lookup_fmap in Hi. destruct ((x :: nics) !! i) as [[n b]|] eqn:Hj; [|done]. injection Hi as <-.
      apply (Hmin n). by eapply list_elem_of_lookup_2.
  - split; [|done]. rewrite decide_False; [done|]. intros [[? Hin]%elem_of_hkeys _]. congruence.
Qed.
End rebuild.

(** ** Runs *)

Lemma set_affinity_edge_witness :
  ("mlx5_0"%string, SameSwitch) ∈ default [] (affinity (set_affinity "cuda:0" "mlx5_0" SameSwitch topology_new) !! "cuda:0"%string).
Proof.
  apply (proj2 (set_affinity_edge topology_new "cuda:0" "mlx5_0" SameSwitch ltac:(intros l e; cbn; by rewrite lookup_empty))).
  left. done.
Defined.
