(* ===== verification/TransferTypes.v ===== *)
(** * Transfer engine: requests, statuses, errors, links and transport selection

    crates/quillcache-transfer-engine/src/transport.rs (types), metadata.rs (segment
    descriptors and the in-memory backend), multi_transport.rs (the registry) and the two
    stub backends.  The TCP backend is in TcpTransport. *)
From S2P Require Import Prelude F64 Identity ShardedMap Router RouterPlan.

(** ** transport.rs *)

Inductive OpCode : Type := OpRead | OpWrite.

Inductive TransferStatusEnum : Type := StWaiting | StPending | StCompleted | StFailed | StTimeout.

Record TransferStatus : Type := mkTransferStatus { ts_state : TransferStatusEnum; transferred_bytes : Z }.

Inductive LinkClass : Type := LocalShm | Nvlink | RdmaIb | RdmaRoce | LinkTcp.

Definition link_name (l : LinkClass) : string :=
  match l with
  | LocalShm => "local-shm" | Nvlink => "nvlink" | RdmaIb => "rdma-ib" | RdmaRoce => "rdma-roce" | LinkTcp => "tcp"
  end.

Definition link_rank (l : LinkClass) : Z :=
  match l with LocalShm => 0 | Nvlink => 1 | RdmaIb | RdmaRoce => 2 | LinkTcp => 3 end.

Record TransferRequest : Type := mkTransferRequest {
  opcode : OpCode;
  source_offset : Z;
  target_id : Z;
  target_offset : Z;
  req_length : Z
}.

Inductive TransferError : Type :=
| TeNotFound
| TeBadSegment
| TeIo (msg : string)
| TeProtocol (msg : string)
| TeUnsupported (what : string).

#[global] Instance transfer_error_eq_dec : EqDecision TransferError.
Proof. solve_decision. Defined.

(** ** metadata.rs *)

Record BufferDesc : Type := mkBufferDesc { bd_offset : Z; bd_length : Z }.
Record SegmentDesc : Type := mkSegmentDesc {
  sd_name : string;
  sd_protocol : string;
  sd_endpoint : string;
  sd_buffers : list BufferDesc
}.

(** The seam of [MetadataBackend]. *)
Class MetadataBackend (M : Type) : Type := {
  put_segment : SegmentDesc → M → M;
  get_segment : string → M → option SegmentDesc;
  remove_segment : string → M → M;
  segment_names : M → list string
}.

(** What a client of the seam relies on. *)
Class MetadataLaws (M : Type) `{MetadataBackend M} : Prop := {
  get_put_segment : ∀ d n m, get_segment n (put_segment d m) = if bool_decide (n = sd_name d) then Some d else get_segment n m;
  get_remove_segment : ∀ k n m, get_segment n (remove_segment k m) = if bool_decide (n = k) then None else get_segment n m;
  names_segment : ∀ n m, n ∈ segment_names m ↔ is_Some (get_segment n m)
}.

(** [InMemoryMetadata]. *)
Record InMemoryMetadata : Type := mkInMemory { imm_segments : gmap string SegmentDesc }.
Definition in_memory_new : InMemoryMetadata := mkInMemory ∅.

Section in_memory.
Context `{HashIter}.

#[global] Instance in_memory_backend : MetadataBackend InMemoryMetadata := {|
  put_segment d m := mkInMemory (<[sd_name d := d]> (imm_segments m));
  get_segment n m := imm_segments m !! n;
  remove_segment n m := mkInMemory (delete n (imm_segments m));
  segment_names m := hkeys (imm_segments m)
|}.

#[global] Instance in_memory_laws : MetadataLaws InMemoryMetadata.
Proof.
  split.
  - intros d n [m]; cbn. case_bool_decide as E; [subst; by rewrite lookup_insert_eq|by rewrite lookup_insert_ne].
  - intros k n [m]; cbn. case_bool_decide as E; [subst; by rewrite lookup_delete_eq|by rewrite lookup_delete_ne].
  - intros n [m]; cbn. apply elem_of_hkeys.
Qed.
End in_memory.

(** ** The transport trait and multi_transport.rs *)

(** A call returns or panics; either way it may have changed the state. *)
Inductive outcome (A : Type) : Type :=
| Done (a : A)
| Panic.
Arguments Done {A} _.
Arguments Panic {A}.

(** [dyn Transport], over the state [W] of the peers' memory. *)
Record Transport (W : Type) : Type := mkTransport {
  tr_name : string;
  tr_link : LinkClass;
  read_remote : string → Z → Z → W → outcome (result TransferError (list Z)) * W;
  write_remote : string → Z → list Z → W → outcome (result TransferError unit) * W
}.
Arguments mkTransport {W} _ _ _ _.
Arguments tr_name {W} _.
Arguments tr_link {W} _.
Arguments read_remote {W} _ _ _ _ _.
Arguments write_remote {W} _ _ _ _ _.

(** The two backends that are stubs in the default build (transport/nvlink.rs, and
    transport/rdma.rs without its feature). *)
Definition NEEDS_GPU : string :=
  "NVLink/GPUDirect transport requires an NVIDIA GPU (reserved; build with --features nvlink once CUDA + NVLink/IBGDA is wired)".
Definition NEEDS_NIC : string := "RDMA needs --features rdma + an ibverbs device (a real NIC or SoftRoCE/rxe)".
Definition NvlinkTransport {W} : Transport W :=
  mkTransport "nvlink" Nvlink (λ _ _ _ w, (Done (Err (TeUnsupported NEEDS_GPU)), w)) (λ _ _ _ w, (Done (Err (TeUnsupported NEEDS_GPU)), w)).
Definition RdmaTransport {W} : Transport W :=
  mkTransport "rdma" RdmaRoce (λ _ _ _ w, (Done (Err (TeUnsupported NEEDS_NIC)), w)) (λ _ _ _ w, (Done (Err (TeUnsupported NEEDS_NIC)), w)).

Record MultiTransport (W : Type) : Type := mkMulti { transports : gmap string (Transport W) }.
Arguments mkMulti {W} _.
Arguments transports {W} _.

Section multi.
Context {W : Type}.
Implicit Types m : MultiTransport W.

Definition multi_new : MultiTransport W := mkMulti ∅.
Definition multi_install (protocol : string) (t : Transport W) m : MultiTransport W := mkMulti (<[protocol := t]> (transports m)).
Definition multi_select (protocol : string) m : option (Transport W) := transports m !! protocol.
Definition faster (a b : Transport W) : bool := link_rank (tr_link a) <? link_rank (tr_link b).
Definition select_best (protocols : list string) m : option (Transport W) := min_by faster (omap (λ p, transports m !! p) protocols).
Definition multi_installed `{HashIter} m : list string := hkeys (transports m).

(** The selected transport is an installed one of the protocols the peer supports, none of the others is on
    a faster link, and of the equally fast it is the first listed; nothing is selected exactly when none of the
    protocols is installed. *)
Theorem select_best_fastest protocols m :
  match select_best protocols m with
  | Some t => ∃ i p, protocols !! i = Some p ∧ multi_select p m = Some t
      ∧ (∀ q u, q ∈ protocols → multi_select q m = Some u → link_rank (tr_link t) ≤ link_rank (tr_link u))
      ∧ (∀ j q u, (j < i)%nat → protocols !! j = Some q → multi_select q m = Some u → link_rank (tr_link t) < link_rank (tr_link u))
  | None => ∀ p, p ∈ protocols → multi_select p m = None
  end.
Proof.
  unfold select_best, multi_select. induction protocols as [|q l IH] using rev_ind; [by intros p []%elem_of_nil|].
  rewrite omap_app. cbn [omap list_omap].
  destruct (transports m !! q) as [u|] eqn:Hq.
  - destruct (min_by faster (omap _ l)) as [b|] eqn:Hb.
    + rewrite (min_by_snoc faster _ _ u Hb). destruct IH as (i & p & Hi & Hp & Hmin & Hfst).
      destruct (faster u b) eqn:Hlt; unfold faster in Hlt; zbool.
      * exists (length l), q. split_and!; [by apply list_lookup_middle|done| |].
        -- intros q' u' [Hin| ->%list_elem_of_singleton]%elem_of_app Hu'; [specialize (Hmin _ _ Hin Hu'); lia|]. replace u' with u by congruence. lia.
        -- intros j q' u' Hj Hq' Hu'. rewrite lookup_app_l in Hq' by done. apply list_elem_of_lookup_2 in Hq'. specialize (Hmin _ _ Hq' Hu'). lia.
      * exists i, p. pose proof (lookup_lt_Some _ _ _ Hi). split_and!; [by rewrite lookup_app_l|done| |].
        -- intros q' u' [Hin| ->%list_elem_of_singleton]%elem_of_app Hu'; [by apply (Hmin q')|]. replace u' with u by congruence. lia.
        -- intros j q' u' Hj Hq' Hu'. rewrite lookup_app_l in Hq' by lia. by apply (Hfst j q').
    + destruct (omap _ l) as [|? ?] eqn:Hl; [|done]. cbn. exists (length l), q. split_and!; [by apply list_lookup_middle|done| |].
      * intros q' u' [Hin| ->%list_elem_of_singleton]%elem_of_app Hu'; [by rewrite (IH _ Hin) in Hu'|]. replace u' with u by congruence. lia.
      * intros j q' u' Hj Hq' Hu'. rewrite lookup_app_l in Hq' by done. apply list_elem_of_lookup_2 in Hq'. by rewrite (IH _ Hq') in Hu'.
  - rewrite app_nil_r. destruct (min_by faster (omap _ l)) as [b|].
    + destruct IH as (i & p & Hi & Hp & Hmin & Hfst). pose proof (lookup_lt_Some _ _ _ Hi). exists i, p. split_and!; [by rewrite lookup_app_l|done| |].
      * intros q' u' [Hin| ->%list_elem_of_singleton]%elem_of_app Hu'; [by apply (Hmin q')|congruence].
      * intros j q' u' Hj Hq' Hu'. rewrite lookup_app_l in Hq' by lia. by apply (Hfst j q').
    + intros p [Hin| ->%list_elem_of_singleton]%elem_of_app; [by apply IH|done].
Qed.
End multi.
