(* ===== verification/SlicePool.v ===== *)
(** * The slice pool

    crates/quillcache-transfer-engine/src/slice_pool.rs: cutting a transfer into slices,
    running the slices (or the layers of a KV blob) with a bounded number in flight, and
    telling the consumer which layers have landed, in order.

    The tasks of the [JoinSet] finish in any order: [Joined] is what [join_next] returns for
    one of them, and the runs below are over every choice of task and outcome.  The two
    pools of the file share the loop [pool_prime]/[pool_join]; they differ in the iterator
    that feeds them and in what a finished task does ([on_ok]). *)
From stdpp Require Import relations.
From S2P Require Import Prelude F64 Identity ShardedMap Router RouterPlan TransferTypes.

(** ** Slices *)

Definition u64_mul (a b : Z) : option Z := if a * b <=? u64_max then Some (a * b) else None.

(** [(0..).map(i * step).take_while(off < total).map(..)]: the next index, and the flag
    [take_while] sets when its predicate fails. *)
Record SliceIter : Type := mkSliceIter { si_total : Z; si_step : Z; si_i : Z; si_done : bool }.

Definition slices (total_len slice_size : Z) : SliceIter := mkSliceIter total_len (Z.max slice_size 1) 0 false.

(** [None] is the overflow of [i * step]. *)
Definition slices_next (it : SliceIter) : option (option (Z * Z) * SliceIter) :=
  if si_done it then Some (None, it)
  else off ← u64_mul (si_i it) (si_step it);
       if off <? si_total it
       then Some (Some (off, Z.min (si_step it) (si_total it - off)), mkSliceIter (si_total it) (si_step it) (si_i it + 1) false)
       else Some (None, mkSliceIter (si_total it) (si_step it) (si_i it + 1) true).

(** [layer_slices]: the running prefix sums; the sum itself is computed too. *)
Fixpoint layer_slices_from (i : nat) (off : Z) (layer_sizes : list Z) : option (list (nat * Z * Z)) :=
  match layer_sizes with
  | [] => Some []
  | len :: sizes =>
      off' ← u64_add off len;
      rest ← layer_slices_from (S i) off' sizes;
      Some ((i, off, len) :: rest)
  end.
Definition layer_slices (layer_sizes : list Z) : option (list (nat * Z * Z)) := layer_slices_from 0 0 layer_sizes.

(** ** The pool *)

(** What [join_next] returns for a finished task: its result, or a join error. *)
Inductive Joined : Type := JoinedOk | JoinedErr (e : TransferError) | JoinError (msg : string).

Definition get_or_insert_err (e : TransferError) (first : option TransferError) : option TransferError :=
  match first with Some e0 => Some e0 | None => Some e end.

Section pool.
Context {Job I H : Type} (iter_next : I → option (option Job * I)) (on_ok : bool → Job → H → H).

(** [p_launched] and [p_joined] record the history. *)
Record Pool : Type := mkPool {
  p_iter : I;
  p_set : list Job;
  p_err : option TransferError;
  p_user : H;
  p_launched : list Job;
  p_joined : list (Job * Joined)
}.

Definition pool_init (it : I) (h : H) : Pool := mkPool it [] None h [] [].

(** [if let Some(job) = iter.next() { set.spawn(op(job)) }]. *)
Definition spawn_next (p : Pool) : option (bool * Pool) :=
  '(next, it) ← iter_next (p_iter p);
  Some match next with
       | Some j => (true, mkPool it (p_set p ++ [j]) (p_err p) (p_user p) (p_launched p ++ [j]) (p_joined p))
       | None => (false, mkPool it (p_set p) (p_err p) (p_user p) (p_launched p) (p_joined p))
       end.

(** [for _ in 0..max { match iter.next() { Some(..) => spawn, None => break } }]. *)
Fixpoint pool_prime (max : nat) (p : Pool) : option Pool :=
  match max with
  | O => Some p
  | S max => '(more, p) ← spawn_next p; if (more : bool) then pool_prime max p else Some p
  end.

(** The body of the [while let Some(joined) = set.join_next().await] loop, where the task
    that finished is the [i]-th of the set. *)
Definition pool_join (i : nat) (j : Job) (o : Joined) (p : Pool) : option Pool :=
  let set := delete i (p_set p) in
  let joined := p_joined p ++ [(j, o)] in
  let p :=
    match o with
    | JoinedOk => mkPool (p_iter p) set (p_err p) (on_ok (bool_decide (p_err p = None)) j (p_user p)) (p_launched p) joined
    | JoinedErr e => mkPool (p_iter p) set (get_or_insert_err e (p_err p)) (p_user p) (p_launched p) joined
    | JoinError msg => mkPool (p_iter p) set (get_or_insert_err (TeIo msg) (p_err p)) (p_user p) (p_launched p) joined
    end in
  match p_err p with
  | None => '(_, p) ← spawn_next p; Some p
  | Some _ => Some p
  end.

(** One turn of the loop: any task of the set finishes, with any outcome. *)
Inductive pool_step (p p' : Pool) : Prop :=
| PoolJoin i j o : p_set p !! i = Some j → pool_join i j o p = Some p' → pool_step p p'.

(** The loop ends when the set is empty. *)
Definition pool_result (p : Pool) : option (result TransferError unit) :=
  match p_set p with
  | [] => Some match p_err p with Some e => Err e | None => Ok tt end
  | _ => None
  end.

(** An execution along a list of (position, outcome) choices. *)
Fixpoint pool_drive (choices : list (nat * Joined)) (p : Pool) : option Pool :=
  match choices with
  | [] => Some p
  | (i, o) :: choices => j ← p_set p !! i; p ← pool_join i j o p; pool_drive choices p
  end.
End pool.
Arguments Pool : clear implicits.
Arguments pool_init {Job I H} _ _.
Arguments pool_result {Job I H} _.

(** ** [run_slices] *)

Notation SlicePool := (Pool (Z * Z) SliceIter unit).


(** ** [run_layers_with_notify] *)

(** The reorder gate: landed layers not yet announced, the next layer to announce, and the
    calls of [on_layer_ready] so far. *)
Record Gate : Type := mkGate { g_done : gset nat; watermark : nat; notified : list nat }.

(** [while done.remove(&watermark) { on_layer_ready(watermark); watermark += 1 }]: each turn
    removes an element of [done]. *)
Fixpoint release (fuel : nat) (g : Gate) : Gate :=
  match fuel with
  | O => g
  | S fuel =>
      if bool_decide (watermark g ∈ g_done g)
      then release fuel (mkGate (g_done g ∖ {[watermark g]}) (S (watermark g)) (notified g ++ [watermark g]))
      else g
  end.

Definition layer_landed (healthy : bool) (j : nat * Z * Z) (g : Gate) : Gate :=
  let g := mkGate ({[j.1.1]} ∪ g_done g) (watermark g) (notified g) in
  if healthy then release (size (g_done g)) g else g.

(** [layers[next_idx]] while [next_idx < n]. *)
Definition layers_next (it : list (nat * Z * Z) * nat) : option (option (nat * Z * Z) * (list (nat * Z * Z) * nat)) :=
  let '(layers, next_idx) := it in
  if (next_idx <? length layers)%nat then j ← layers !! next_idx; Some (Some j, (layers, S next_idx)) else Some (None, it).

Notation LayerPool := (Pool (nat * Z * Z) (list (nat * Z * Z) * nat) Gate).

(** The pool after priming: the loop is [pool_step layers_next layer_landed]. *)
Definition run_layers_with_notify (layer_sizes : list Z) (max_inflight : nat) : option LayerPool :=
  layers ← layer_slices layer_sizes;
  pool_prime layers_next (Nat.max max_inflight 1) (pool_init (layers, 0%nat) (mkGate ∅ 0 [])).

(** ** [run_layers_with_telemetry] *)

Record LayerTransferTelemetry : Type := mkTelemetry {
  tl_layers : nat;
  tl_bytes : Z;
  tl_max_inflight : nat;
  time_to_first_layer_us : option Z;
  full_transfer_us : Z;
  overlap_window_us : Z
}.

Definition telemetry_empty (max_inflight : nat) : LayerTransferTelemetry := mkTelemetry 0 0 (Nat.max max_inflight 1) None 0 0.

(** [Duration::as_micros] of nanoseconds, capped. *)
Definition duration_us (nanos : Z) : Z := Z.min (nanos / 1000) u64_max.

(** The wrapped callback: [clock] is [start.elapsed()] at the call for the i-th layer. *)
Definition record_first (clock : nat → Z) (notes : list nat) : option Z :=
  foldl (λ first i, if (i =? 0)%nat && negb (bool_decide (is_Some first)) then Some (clock i) else first) None notes.

(** The pass, given the pool it ended in and the clock's reading at the end. *)
Definition run_layers_with_telemetry (layer_sizes : list Z) (max_inflight : nat) (p : LayerPool) (clock : nat → Z) (full_transfer : Z)
    : option (result TransferError LayerTransferTelemetry) :=
  match layer_sizes with
  | [] => Some (Ok (telemetry_empty max_inflight))
  | _ =>
      bytes ← u64_sum layer_sizes;
      r ← pool_result p;
      Some match r with
           | Err e => Err e
           | Ok _ =>
               let first := duration_us <$> record_first clock (notified (p_user p)) in
               Ok (mkTelemetry (length layer_sizes) bytes (Nat.max max_inflight 1) first (duration_us full_transfer)
                     (from_option (λ f, sat_sub (duration_us full_transfer) f) 0 first))
           end
  end.

(** ** The pool's invariant *)

Definition error_of (o : Joined) : option TransferError :=
  match o with JoinedOk => None | JoinedErr e => Some e | JoinError msg => Some (TeIo msg) end.
Definition first_error (os : list Joined) : option TransferError := head (omap error_of os).

Lemma first_error_snoc os o : first_error (os ++ [o]) = match first_error os with Some e => Some e | None => error_of o end.
Proof. unfold first_error. rewrite omap_app. cbn. destruct (omap error_of os); simpl; [by destruct (error_of o)|done]. Qed.

Lemma first_error_None os : first_error os = None ↔ Forall (λ o, o = JoinedOk) os.
Proof.
  unfold first_error. induction os as [|o os IH]; [by split|]. cbn. rewrite Forall_cons.
  destruct o; simpl; (split; [|naive_solver]); try done. intros E. split; [done|by apply IH].
Qed.

Section pool_proofs.
Context {Job I H : Type} (iter_next : I → option (option Job * I)) (on_ok : bool → Job → H → H).
(** The iterator enumerates [jobs]: [at_pos it n] says that [it] has yielded [n] of them. *)
Context (jobs : list Job) (at_pos : I → nat → Prop).
Context (iter_spec : ∀ it n, at_pos it n → (n ≤ length jobs)%nat →
  ∃ it', iter_next it = Some (jobs !! n, it') ∧ at_pos it' (Nat.min (S n) (length jobs))).
Implicit Types p : Pool Job I H.

Record pool_inv (max n : nat) p : Prop := {
  pool_pos : at_pos (p_iter p) n;
  pool_n : (n ≤ length jobs)%nat;
  pool_launched : p_launched p = take n jobs;
  pool_split : p_launched p ≡ₚ (p_joined p).*1 ++ p_set p;
  pool_flight : (length (p_set p) ≤ max)%nat;
  pool_err : p_err p = first_error (p_joined p).*2
}.

(** The pipeline is full: everything was launched, or the bound is reached. *)
Definition pool_full (max n : nat) p : Prop := n = length jobs ∨ length (p_set p) = max.

Lemma spawn_next_inv max n p :
  pool_inv max n p → (length (p_set p) < max)%nat →
  ∃ more p', spawn_next iter_next p = Some (more, p') ∧ p_joined p' = p_joined p ∧ p_user p' = p_user p ∧ p_err p' = p_err p
    ∧ (if (more : bool) then (n < length jobs)%nat ∧ length (p_set p') = S (length (p_set p)) ∧ pool_inv max (S n) p'
       else n = length jobs ∧ pool_inv max n p').
Proof.
  intros [Hpos Hn Hl Hs Hf He] Hlt. destruct (iter_spec _ _ Hpos Hn) as (it' & Hnext & Hpos'). unfold spawn_next. rewrite Hnext. cbn [mbind option_bind].
  destruct (jobs !! n) as [j|] eqn:Hj.
  - pose proof (lookup_lt_Some _ _ _ Hj). rewrite Nat.min_l in Hpos' by lia. eexists true, _. do 4 (split; [done|]).
    cbn. rewrite length_app. simpl. split; [done|]. split; [lia|]. split; cbn; [done|lia| | |rewrite length_app; simpl; lia|done].
    + by rewrite Hl, (take_S_r _ _ _ Hj).
    + by rewrite Hs, (assoc_L (++)) by apply _.
  - apply lookup_ge_None in Hj. rewrite Nat.min_r in Hpos' by lia. eexists false, _. do 4 (split; [done|]). cbn.
    assert (n = length jobs) as -> by lia. split; [done|]. by split.
Qed.

Lemma pool_prime_inv max k n p :
  pool_inv max n p → (length (p_set p) + k ≤ max)%nat →
  ∃ n' p', pool_prime iter_next k p = Some p' ∧ pool_inv max n' p' ∧ p_joined p' = p_joined p ∧ p_user p' = p_user p
    ∧ (n' = length jobs ∨ (length (p_set p') = length (p_set p) + k)%nat).
Proof.
  revert n p. induction k as [|k IH]; intros n p Hp Hk; cbn [pool_prime].
  { exists n, p. split_and!; [done..|right; lia]. }
  destruct (spawn_next_inv max n p Hp) as (more & p1 & -> & Hj & Hu & _ & Hm); [lia|]. cbn [mbind option_bind]. destruct more.
  - destruct Hm as (_ & Hlen & Hp1). destruct (IH _ _ Hp1) as (n' & p' & -> & Hp' & Hj' & Hu' & Hor); [lia|].
    exists n', p'. split_and!; [done|done|congruence|congruence|]. destruct Hor; [by left|right; lia].
  - destruct Hm as (Hn & Hp1). exists n, p1. split_and!; [done..|by left].
Qed.

(** The state between a task's removal and the refill. *)
Definition joined_pool (i : nat) (j : Job) (o : Joined) p : Pool Job I H :=
  mkPool (p_iter p) (delete i (p_set p)) (first_error (p_joined p ++ [(j, o)]).*2)
    (match o with JoinedOk => on_ok (bool_decide (p_err p = None)) j (p_user p) | _ => p_user p end)
    (p_launched p) (p_joined p ++ [(j, o)]).

Lemma pool_join_joined i j o p :
  p_err p = first_error (p_joined p).*2 →
  pool_join iter_next on_ok i j o p =
  match p_err (joined_pool i j o p) with
  | None => '(_, p') ← spawn_next iter_next (joined_pool i j o p); Some p'
  | Some _ => Some (joined_pool i j o p)
  end.
Proof.
  intros He. unfold pool_join, joined_pool. cbn [p_err]. rewrite fmap_app. cbn [fmap list_fmap]. rewrite first_error_snoc, <- He.
  destruct o; cbn [p_err error_of get_or_insert_err]; by destruct (p_err p).
Qed.

Lemma joined_pool_inv max n i j o p :
  pool_inv max n p → p_set p !! i = Some j →
  pool_inv max n (joined_pool i j o p) ∧ S (length (p_set (joined_pool i j o p))) = length (p_set p).
Proof.
  intros [Hpos Hn Hl Hs Hf He] Hi. pose proof (delete_Permutation _ _ _ Hi) as Hd.
  assert (S (length (delete i (p_set p))) = length (p_set p)) as Hlen by (by rewrite Hd at 2).
  split; [|done]. split; cbn; [done..| | |done].
  - rewrite fmap_app. cbn. rewrite <- (assoc_L (++)) by apply _. cbn. rewrite <- Hd. exact Hs.
  - lia.
Qed.

(** A turn never panics; it launches at most one task, and none after an error. *)
Lemma pool_join_inv max n i j o p :
  pool_inv max n p → pool_full max n p ∨ is_Some (p_err p) → p_set p !! i = Some j →
  ∃ n' p', pool_join iter_next on_ok i j o p = Some p' ∧ pool_inv max n' p' ∧ (pool_full max n' p' ∨ is_Some (p_err p'))
    ∧ p_joined p' = p_joined p ++ [(j, o)] ∧ p_user p' = p_user (joined_pool i j o p)
    ∧ (is_Some (p_err p) → n' = n).
Proof.
  intros Hp Hfull Hi. rewrite pool_join_joined by apply Hp. destruct (joined_pool_inv max n i j o p Hp Hi) as [Hq Hlen].
  destruct (p_err (joined_pool i j o p)) as [e|] eqn:He.
  { exists n, (joined_pool i j o p). split_and!; try done. right. by rewrite He. }
  assert (p_err p = None) as Hnone.
  { revert He. unfold joined_pool. cbn. rewrite fmap_app. cbn. rewrite first_error_snoc, <- (pool_err _ _ _ Hp). by destruct (p_err p). }
  pose proof (pool_flight _ _ _ Hp) as Hfl.
  destruct (spawn_next_inv max n _ Hq) as (more & p' & -> & Hj' & Hu' & He' & Hm); [lia|]. cbn [mbind option_bind]. destruct more.
  - destruct Hm as (Hlt & Hlen' & Hp'). exists (S n), p'. split_and!; try done.
    + left. right. destruct Hfull as [[?|?]|[? Hs]]; [lia|lia|congruence].
    + rewrite Hnone. by intros [].
  - destruct Hm as (Hn & Hp'). exists n, p'. split_and!; try done. left. by left.
Qed.

(** A pool some turns after it was primed. *)
Definition pool_reached (k : nat) (p0 p : Pool Job I H) : Prop := nsteps (pool_step iter_next on_ok) k p0 p.

Lemma pool_reached_inv max n0 k p0 p :
  pool_inv max n0 p0 → pool_full max n0 p0 ∨ is_Some (p_err p0) → pool_reached k p0 p →
  ∃ n, pool_inv max n p ∧ (pool_full max n p ∨ is_Some (p_err p)) ∧ length (p_joined p) = (length (p_joined p0) + k)%nat.
Proof.
  intros Hp Hf Hr. revert n0 Hp Hf. unfold pool_reached in Hr. induction Hr as [p|k p q r [i j o Hi Hq] _ IH]; intros n0 Hp Hf.
  { exists n0. split_and!; [done..|lia]. }
  destruct (pool_join_inv max n0 i j o p Hp Hf Hi) as (n1 & p1 & Hrun & Hp1 & Hf1 & Hj & _). assert (p1 = q) as -> by congruence.
  destruct (IH _ Hp1 Hf1) as (n & Hn & Hfn & Hlen). exists n. split_and!; [done..|]. rewrite Hlen, Hj, length_app. simpl. lia.
Qed.

(** Every execution: the number of turns, the tasks in flight, the tasks launched, and the result. *)
Lemma pool_run_spec max k p0 p :
  (1 ≤ max)%nat → (∃ n0, pool_inv max n0 p0 ∧ pool_full max n0 p0) → p_joined p0 = [] → pool_reached k p0 p →
  (k ≤ length jobs)%nat
  ∧ (length (p_set p) ≤ max)%nat
  ∧ p_launched p `prefix_of` jobs
  ∧ p_launched p ≡ₚ (p_joined p).*1 ++ p_set p
  ∧ (∀ i j o, p_set p !! i = Some j → ∃ p', pool_join iter_next on_ok i j o p = Some p'
       ∧ (first_error (p_joined p).*2 ≠ None → p_launched p' = p_launched p))
  ∧ (p_set p = [] → match first_error (p_joined p).*2 with
                    | Some e => pool_result p = Some (Err e)
                    | None => pool_result p = Some (Ok tt) ∧ (p_joined p).*1 ≡ₚ jobs
                    end).
Proof.
  intros Hmax (n0 & Hp0 & Hf0) Hj0 Hr. destruct (pool_reached_inv max n0 k p0 p Hp0 (or_introl Hf0) Hr) as (n & Hp & Hf & Hlen).
  pose proof Hp as [Hpos Hn Hl Hs Hfl He]. rewrite Hj0 in Hlen. simpl in Hlen. split_and!; [|done| |done| |].
  - assert (length (p_launched p) = length ((p_joined p).*1 ++ p_set p)) as E by (by rewrite Hs).
    rewrite Hl, length_app, length_fmap, length_take in E. lia.
  - rewrite Hl. apply prefix_take.
  - intros i j o Hi. destruct (pool_join_inv max n i j o p Hp Hf Hi) as (n' & p' & Hrun & Hp' & _ & _ & _ & Hsame). exists p'. split; [done|].
    intros Hne. rewrite Hl, (pool_launched _ _ _ Hp'). rewrite Hsame; [done|]. rewrite He. by apply not_eq_None_Some.
  - intros E. unfold pool_result. rewrite E, <- He. destruct (p_err p) as [e|] eqn:Herr; [done|]. split; [done|].
    rewrite E, app_nil_r in Hs. rewrite <- Hs, Hl. destruct Hf as [[->|Hx]|[? ?]]; [by rewrite take_ge| |done]. rewrite E in Hx. simpl in Hx. lia.
Qed.

Lemma pool_primed max it h :
  at_pos it 0 → ∃ p0, pool_prime iter_next max (pool_init it h) = Some p0 ∧ p_joined p0 = [] ∧ p_user p0 = h
    ∧ ∃ n0, pool_inv max n0 p0 ∧ pool_full max n0 p0.
Proof.
  intros Hit. destruct (pool_prime_inv max max 0 (pool_init it h)) as (n & p & Hrun & Hp & Hj & Hu & Hor); [|cbn; lia|].
  - split; cbn; [done|lia|done|done|lia|done].
  - exists p. split_and!; [done..|]. exists n. split; [done|]. destruct Hor; [by left|by right].
Qed.

Lemma pool_drive_steps choices p p' : pool_drive iter_next on_ok choices p = Some p' → pool_reached (length choices) p p'.
Proof.
  revert p. induction choices as [|[i o] choices IH]; intros p; cbn [pool_drive].
  - intros [= <-]. apply nsteps_O.
  - intros (j & Hi & (q & Hq & Hrun)%bind_Some)%bind_Some. eapply nsteps_l; [by eapply PoolJoin|by apply IH].
Qed.
End pool_proofs.

(** ** The slices *)

(** The slices of [[0, total)] at a step, declaratively. *)
Definition slice_ref (total step : Z) : list (Z * Z) :=
  (λ i, (i * step, Z.min step (total - i * step))) <$> seqZ 0 ((total + step - 1) `div` step).

Lemma slice_ref_lookup total step n :
  0 < step → 0 ≤ total →
  slice_ref total step !! n = if Z.of_nat n * step <? total then Some (Z.of_nat n * step, Z.min step (total - Z.of_nat n * step)) else None.
Proof.
  intros Hs Ht. unfold slice_ref. rewrite list_lookup_fmap. set (c := (total + step - 1) `div` step).
  assert (Z.of_nat n < c ↔ Z.of_nat n * step < total) as Hc.
  { unfold c. split; intros E.
    - assert (Z.of_nat n + 1 ≤ (total + step - 1) / step) as E1 by lia. apply (Z.mul_le_mono_nonneg_r _ _ step) in E1; [|lia].
      pose proof (Z.mul_div_le (total + step - 1) step Hs). lia.
    - assert (Z.of_nat n + 1 ≤ (total + step - 1) / step); [|lia]. apply Z.div_le_lower_bound; lia. }
  destruct (Z.ltb_spec (Z.of_nat n * step) total) as [Hlt|Hge].
  - rewrite lookup_seqZ_lt by lia. simpl. done.
  - rewrite lookup_seqZ_ge by lia. done.
Qed.

Lemma slice_ref_length total step : 0 < step → 0 ≤ total → Z.of_nat (length (slice_ref total step)) = (total + step - 1) `div` step.
Proof.
  intros Hs Ht. unfold slice_ref. rewrite length_fmap, length_seqZ, Z2Nat.id; [done|]. apply Z.div_pos; lia.
Qed.

(** The bytes covered: the offsets up to the end of the last slice. *)
Lemma slice_ref_take total step n :
  0 < step → 0 ≤ total →
  foldr Z.add 0 (take n (slice_ref total step)).*2 = Z.min (Z.of_nat n * step) total.
Proof.
  intros Hs Ht. induction n as [|n IH]; [rewrite take_0; simpl; lia|].
  destruct (slice_ref total step !! n) as [x|] eqn:Hx.
  - rewrite (take_S_r _ _ _ Hx), fmap_app, foldr_add_app, IH. rewrite slice_ref_lookup in Hx by done.
    destruct (Z.ltb_spec (Z.of_nat n * step) total); [|done]. injection Hx as <-. cbn. lia.
  - pose proof Hx as Hge%lookup_ge_None. rewrite take_ge in IH by lia. rewrite take_ge by lia. rewrite IH.
    rewrite slice_ref_lookup in Hx by done. destruct (Z.ltb_spec (Z.of_nat n * step) total); [done|]. lia.
Qed.

(** The iterator has yielded [n] slices. *)
Definition slices_at (total step : Z) (it : SliceIter) (n : nat) : Prop :=
  si_total it = total ∧ si_step it = step
  ∧ (si_done it = false ∧ si_i it = Z.of_nat n ∨ si_done it = true ∧ n = length (slice_ref total step)).

Lemma slices_next_spec total step it n :
  0 < step → 0 ≤ total → (total + step - 1) `div` step * step ≤ u64_max →
  slices_at total step it n → (n ≤ length (slice_ref total step))%nat →
  ∃ it', slices_next it = Some (slice_ref total step !! n, it')
    ∧ slices_at total step it' (Nat.min (S n) (length (slice_ref total step))).
Proof.
  intros Hs Ht Hmax (Et & Es & Hor) Hn. pose proof (slice_ref_length total step Hs Ht) as Hlen. unfold slices_next.
  destruct Hor as [(-> & Hi)|(Hd & ->)].
  - assert (Z.of_nat n * step ≤ (total + step - 1) / step * step) by (apply Z.mul_le_mono_nonneg_r; lia).
    rewrite Et, Es, Hi. unfold u64_mul. rewrite (proj2 (Z.leb_le _ _)) by lia. cbn [mbind option_bind].
    rewrite slice_ref_lookup by done. destruct (Z.ltb_spec (Z.of_nat n * step) total) as [Hlt|Hge].
    + eexists. split; [done|]. assert (n < length (slice_ref total step))%nat.
      { apply lookup_lt_is_Some. rewrite slice_ref_lookup by done. by rewrite (proj2 (Z.ltb_lt _ _)) by lia. }
      rewrite Nat.min_l by lia. split_and!; [done..|]. left. cbn. split; [done|lia].
    + eexists. split; [done|]. split_and!; [done..|]. right. split; [done|].
      assert (length (slice_ref total step) ≤ n)%nat; [|lia]. apply lookup_ge_None. rewrite slice_ref_lookup by done. by rewrite (proj2 (Z.ltb_ge _ _)) by lia.
  - exists it. rewrite Hd. split; [|split_and!; [done..|right; split; [done|lia]]].
    rewrite (proj2 (lookup_ge_None _ _)) by lia. done.
Qed.

(** [slices(..).collect()]; [None] is a panic, or no fuel. *)
Fixpoint slices_collect (fuel : nat) (it : SliceIter) : option (list (Z * Z)) :=
  match fuel with
  | O => None
  | S fuel => '(next, it) ← slices_next it; match next with Some x => cons x <$> slices_collect fuel it | None => Some [] end
  end.

Lemma slices_collect_spec total step fuel it n :
  0 < step → 0 ≤ total → (total + step - 1) `div` step * step ≤ u64_max →
  slices_at total step it n → (n ≤ length (slice_ref total step))%nat → (length (slice_ref total step) < fuel + n)%nat →
  slices_collect fuel it = Some (drop n (slice_ref total step)).
Proof.
  intros Hs Ht Hmax. revert it n. induction fuel as [|fuel IH]; intros it n Hat Hn Hfuel; [lia|]. cbn [slices_collect].
  destruct (slices_next_spec total step it n Hs Ht Hmax Hat Hn) as (it' & -> & Hat'). cbn [mbind option_bind].
  destruct (slice_ref total step !! n) as [x|] eqn:Hx.
  - pose proof (lookup_lt_Some _ _ _ Hx). rewrite Nat.min_l in Hat' by lia. rewrite (IH it' (S n)) by (done || lia). by rewrite (drop_S _ _ _ Hx).
  - apply lookup_ge_None in Hx. by rewrite drop_ge.
Qed.

(** The slices of a transfer tile it: they start at 0, each begins where the one before ends, their lengths
    are positive and at most the slice size, and they add up to the transfer's length.  The iterator ends after
    [ceil(total / step)] slices and does not overflow, provided the end of the last full step fits 64 bits. *)
Theorem slices_tile total size fuel :
  0 ≤ total → (total + Z.max size 1 - 1) `div` Z.max size 1 * Z.max size 1 ≤ u64_max →
  (total + Z.max size 1 - 1) `div` Z.max size 1 < Z.of_nat fuel →
  ∃ l, slices_collect fuel (slices total size) = Some l
    ∧ Z.of_nat (length l) = (total + Z.max size 1 - 1) `div` Z.max size 1
    ∧ (∀ x, l !! 0%nat = Some x → x.1 = 0)
    ∧ (∀ i x y, l !! i = Some x → l !! S i = Some y → y.1 = x.1 + x.2)
    ∧ Forall (λ x, 0 < x.2 ≤ Z.max size 1) l
    ∧ foldr Z.add 0 l.*2 = total.
Proof.
  intros Ht Hmax Hfuel. set (step := Z.max size 1) in *. assert (0 < step) as Hs by lia. pose proof (slice_ref_length total step Hs Ht) as Hlen.
  exists (slice_ref total step). split_and!.
  - apply (slices_collect_spec total step fuel (slices total size) 0); [done..| |lia|lia]. split_and!; [done..|]. by left.
  - done.
  - intros x Hx. rewrite slice_ref_lookup in Hx by done. destruct (_ <? _); by simplify_eq/=.
  - intros i x y Hx Hy. rewrite slice_ref_lookup in Hx, Hy by done.
    destruct (Z.ltb_spec (Z.of_nat i * step) total), (Z.ltb_spec (Z.of_nat (S i) * step) total); simplify_eq/=; lia.
  - apply Forall_lookup. intros i x Hx. rewrite slice_ref_lookup in Hx by done.
    destruct (Z.ltb_spec (Z.of_nat i * step) total); simplify_eq/=; lia.
  - rewrite <- (take_ge (slice_ref total step) (length (slice_ref total step))) by lia. rewrite slice_ref_take by done.
    rewrite Hlen. apply Z.min_r. pose proof (Z.mod_pos_bound (total + step - 1) step Hs). pose proof (Z.div_mod (total + step - 1) step). lia.
Qed.

Lemma slices_tile_witness : slices_collect 4 (slices 10 4) = Some [(0, 4); (4, 4); (8, 2)].
Proof.
  destruct (slices_tile 10 4 4) as (l & Hl & _); [by vm_compute..|]. rewrite Hl. vm_compute in Hl. exact (eq_sym Hl).
Defined.

(** Near the end of the 64-bit range the iterator overflows instead of ending: the offset after the last
    slice is computed before it is compared with the length. *)
Theorem slices_overflow : slices_collect 4 (slices u64_max (2 ^ 63)) = None ∧ Z.of_nat (length (slice_ref u64_max (2 ^ 63))) = 2.
Proof. split; vm_compute; reflexivity. Qed.



(** ** The layers *)

(** Prefix sums, declaratively. *)
Definition layer_ref (sizes : list Z) : list (nat * Z * Z) :=
  imap (λ i len, (i, foldr Z.add 0 (take i sizes), len)) sizes.

Lemma layer_slices_from_ok i off sizes :
  Forall (λ z, 0 ≤ z) sizes → 0 ≤ off → off + foldr Z.add 0 sizes ≤ u64_max →
  layer_slices_from i off sizes = Some (imap (λ j len, ((i + j)%nat, off + foldr Z.add 0 (take j sizes), len)) sizes).
Proof.
  revert i off. induction sizes as [|len sizes IH]; intros i off Hpos Hoff Hsum; [done|]. cbn [layer_slices_from].
  apply Forall_cons in Hpos as [Hlen Hpos]. pose proof (foldr_add_nonneg sizes Hpos). cbn in Hsum.
  rewrite u64_add_ok by lia. cbn [mbind option_bind]. rewrite (IH (S i) (off + len)) by (done || lia). cbn [mbind option_bind].
  rewrite imap_cons. cbn. f_equal. f_equal; [f_equal; f_equal; lia|]. apply imap_ext. intros j x _. cbn. f_equal. f_equal; lia.
Qed.

Lemma layer_slices_ok sizes :
  Forall (λ z, 0 ≤ z) sizes → foldr Z.add 0 sizes ≤ u64_max → layer_slices sizes = Some (layer_ref sizes).
Proof. intros Hpos Hsum. unfold layer_slices. rewrite layer_slices_from_ok by (done || lia). done. Qed.

Definition layers_at (layers : list (nat * Z * Z)) (it : list (nat * Z * Z) * nat) (n : nat) : Prop := it = (layers, n).

Lemma layers_next_spec layers it n :
  layers_at layers it n → (n ≤ length layers)%nat →
  ∃ it', layers_next it = Some (layers !! n, it') ∧ layers_at layers it' (Nat.min (S n) (length layers)).
Proof.
  intros -> Hn. unfold layers_next. destruct (Nat.ltb_spec n (length layers)) as [Hlt|Hge].
  - destruct (lookup_lt_is_Some_2 _ _ Hlt) as [j Hj]. rewrite Hj. cbn [mbind option_bind]. eexists. split; [done|]. rewrite Nat.min_l by lia. done.
  - rewrite (proj2 (lookup_ge_None _ _)) by lia. eexists. split; [done|]. rewrite Nat.min_r by lia. unfold layers_at. f_equal. lia.
Qed.

(** ** The gate *)

(** Layer [i] landed: its task was joined with success. *)
Definition landed (p : LayerPool) (i : nat) : Prop := ∃ off len, ((i, off, len), JoinedOk) ∈ p_joined p.

Lemma release_spec fuel g :
  (size (g_done g) ≤ fuel)%nat →
  let g' := release fuel g in
  (watermark g ≤ watermark g')%nat
  ∧ notified g' = notified g ++ seq (watermark g) (watermark g' - watermark g)
  ∧ watermark g' ∉ g_done g'
  ∧ ∀ i, (i < watermark g')%nat ∨ i ∈ g_done g' ↔ (i < watermark g)%nat ∨ i ∈ g_done g.
Proof.
  revert g. induction fuel as [|fuel IH]; intros g Hf; simpl.
  - assert (g_done g = ∅) as E by (apply leibniz_equiv, size_empty_inv; lia). rewrite Nat.sub_diag, app_nil_r.
    split_and!; [done..| |done]. rewrite E. apply not_elem_of_empty.
  - case_bool_decide as Hw; [|rewrite Nat.sub_diag, app_nil_r; done].
    destruct (IH (mkGate (g_done g ∖ {[watermark g]}) (S (watermark g)) (notified g ++ [watermark g]))) as (Hle & Hn & Hnot & Hiff).
    { cbn. rewrite size_difference by set_solver. rewrite size_singleton. lia. }
    cbn in Hle, Hn, Hiff. split_and!; [lia| |done|].
    + rewrite Hn, <- (assoc_L (++)) by apply _. f_equal. cbn [app].
      match goal with |- _ :: seq _ (?w - _) = _ => replace (w - watermark g)%nat with (S (w - S (watermark g))) by lia end. done.
    + intros i. rewrite Hiff, elem_of_difference, elem_of_singleton. destruct (decide (i = watermark g)) as [->|]; [|intuition lia].
      split; [by right|left; lia].
Qed.

(** What the gate promises: the layers announced are 0, 1, .. in order and have all landed;
    while no task failed, the first layer not announced has not landed. *)
Record gate_inv (p : LayerPool) : Prop := {
  gate_notified : notified (p_user p) = seq 0 (watermark (p_user p));
  gate_landed : ∀ i, (i < watermark (p_user p))%nat → landed p i;
  gate_done : ∀ i, i ∈ g_done (p_user p) → landed p i;
  gate_healthy : p_err p = None → watermark (p_user p) ∉ g_done (p_user p)
    ∧ ∀ i, landed p i → (i < watermark (p_user p))%nat ∨ i ∈ g_done (p_user p)
}.

Lemma landed_snoc p p' j o : p_joined p' = p_joined p ++ [(j, o)] → ∀ i, landed p' i ↔ landed p i ∨ (o = JoinedOk ∧ i = j.1.1).
Proof.
  intros Hj i. unfold landed. rewrite Hj. setoid_rewrite elem_of_app. setoid_rewrite list_elem_of_singleton. destruct j as [[n off] len]. split.
  - intros (x & y & [Hin|[= -> -> -> <-]]); [left; eauto|by right].
  - intros [(x & y & Hin)|[-> ->]]; [eauto|]. exists off, len. by right.
Qed.

Lemma gate_step p p' j o :
  gate_inv p → p_joined p' = p_joined p ++ [(j, o)] →
  p_user p' = (match o with JoinedOk => layer_landed (bool_decide (p_err p = None)) j (p_user p) | _ => p_user p end) →
  (p_err p' = None → p_err p = None ∧ o = JoinedOk) → gate_inv p'.
Proof.
  intros [Hn Hl Hd Hh] Hj Hu He. pose proof (landed_snoc p p' j o Hj) as Hland.
  assert (o ≠ JoinedOk → gate_inv p') as Hbad.
  { intros Ho. assert (p_user p' = p_user p) as Hu' by (by destruct o). split; rewrite ?Hu'; [done|..].
    - intros i Hi. apply Hland. left. by apply Hl.
    - intros i Hi. apply Hland. left. by apply Hd.
    - intros E. by destruct (He E). }
  destruct o; [|by apply Hbad..]. clear Hbad. unfold layer_landed in Hu. cbn [g_done watermark notified] in Hu.
  case_bool_decide as Hnone.
  - destruct (Hh Hnone) as [_ Hall].
    pose proof (release_spec _ (mkGate ({[j.1.1]} ∪ g_done (p_user p)) (watermark (p_user p)) (notified (p_user p))) (le_n _)) as Hr.
    cbn [g_done watermark notified] in Hr. rewrite <- Hu in Hr. destruct Hr as (Hle & Hnot & Hw & Hiff). split.
    + rewrite Hnot, Hn, <- seq_app. f_equal. lia.
    + intros i Hi. destruct (proj1 (Hiff i) (or_introl Hi)) as [?|[?%elem_of_singleton|?]%elem_of_union]; apply Hland; auto.
    + intros i Hi. destruct (proj1 (Hiff i) (or_intror Hi)) as [?|[?%elem_of_singleton|?]%elem_of_union]; apply Hland; auto.
    + intros _. split; [done|]. intros i [Hi|[_ ->]]%Hland; apply Hiff; rewrite elem_of_union, elem_of_singleton; [|auto].
      destruct (Hall i Hi); auto.
  - split; rewrite Hu; cbn; [done|..].
    + intros i Hi. apply Hland. auto.
    + intros i [->%elem_of_singleton|Hi]%elem_of_union; apply Hland; auto.
    + intros E. by destruct (He E).
Qed.

Section layers.
Context (sizes : list Z) (max_inflight : nat).
Notation layers := (layer_ref sizes).
Notation step := (pool_step layers_next layer_landed).
Notation inv := (pool_inv layers (layers_at layers) (Nat.max max_inflight 1)).
Notation full := (pool_full layers (Nat.max max_inflight 1)).

Lemma layers_step_gate n p p' :
  inv n p → full n p ∨ is_Some (p_err p) → gate_inv p → step p p' →
  gate_inv p' ∧ (is_Some (p_err p) → notified (p_user p') = notified (p_user p)).
Proof.
  intros Hp Hf Hg [i j o Hi Hrun].
  destruct (pool_join_inv layers_next layer_landed layers _ (layers_next_spec layers) _ n i j o p Hp Hf Hi)
    as (n' & q & Hq & Hinv & _ & Hj & Hu & _). assert (q = p') as -> by congruence. split.
  - apply (gate_step p p' j o Hg Hj Hu). rewrite (pool_err _ _ _ _ _ Hinv), (pool_err _ _ _ _ _ Hp), Hj, fmap_app. cbn. rewrite first_error_snoc.
    destruct (first_error _); [done|]. by destruct o.
  - intros [e He]. rewrite Hu. cbn. destruct o; [|done..]. unfold layer_landed. by rewrite bool_decide_eq_false_2 by congruence.
Qed.

Lemma layers_reached n0 k p0 p :
  inv n0 p0 → full n0 p0 ∨ is_Some (p_err p0) → gate_inv p0 → nsteps step k p0 p → gate_inv p.
Proof.
  intros Hp Hf Hg Hr. revert n0 Hp Hf Hg. induction Hr as [p|k p q r Hs Hr IH]; intros n0 Hp Hf Hg; [done|].
  destruct (pool_reached_inv layers_next layer_landed layers _ (layers_next_spec layers) _ n0 1 p q Hp Hf (nsteps_once _ _ Hs)) as (n & Hn & Hfn & _).
  by apply (IH n); [..|apply (layers_step_gate n0 p q)].
Qed.

Lemma layer_ref_length : length layers = length sizes.
Proof. unfold layer_ref. by rewrite length_imap. Qed.
Lemma layer_ref_index i j : layers !! i = Some j → j.1.1 = i.
Proof. unfold layer_ref. rewrite list_lookup_imap. destruct (sizes !! i); [|done]. by intros [= <-]. Qed.

(** The loop from a primed pool. *)
Lemma layers_primed :
  Forall (λ z, 0 ≤ z) sizes → foldr Z.add 0 sizes ≤ u64_max →
  ∃ p0, run_layers_with_notify sizes max_inflight = Some p0 ∧ p_joined p0 = [] ∧ gate_inv p0 ∧ ∃ n0, inv n0 p0 ∧ full n0 p0.
Proof.
  intros Hpos Hsum. unfold run_layers_with_notify. rewrite layer_slices_ok by done. cbn [mbind option_bind].
  destruct (pool_primed layers_next layers _ (layers_next_spec layers) (Nat.max max_inflight 1) (layers, 0%nat) (mkGate ∅ 0 [])) as (p0 & Hrun & Hj & Hu & Hinv); [done|].
  exists p0. split_and!; [done..| |done]. split; rewrite ?Hu; cbn; [done|lia|set_solver|]. intros _. split; [set_solver|].
  intros i (off & len & Hin). rewrite Hj in Hin. by apply elem_of_nil in Hin.
Qed.

Lemma all_landed p : (p_joined p).*1 ≡ₚ layers → first_error (p_joined p).*2 = None → ∀ i, landed p i ↔ (i < length sizes)%nat.
Proof.
  intros Hperm Hok i. apply first_error_None in Hok. rewrite <- layer_ref_length. split.
  - intros (off & len & Hin). apply (list_elem_of_fmap_2 fst) in Hin. rewrite Hperm in Hin. apply list_elem_of_lookup in Hin as [n Hn].
    pose proof (layer_ref_index _ _ Hn) as E. cbn in E. subst n. by eapply lookup_lt_Some.
  - intros [j Hj]%lookup_lt_is_Some_2. pose proof (layer_ref_index _ _ Hj) as E. apply list_elem_of_lookup_2 in Hj. rewrite <- Hperm in Hj.
    apply list_elem_of_fmap in Hj as ([j' o] & -> & Hin). destruct j' as [[n off] len]. cbn in E. subst n. exists off, len.
    rewrite Forall_forall in Hok. pose proof (list_elem_of_fmap_2 snd _ _ Hin) as Ho. apply Hok in Ho. cbn in Ho. by subst o.
Qed.
End layers.

(** C27 Every execution of [run_layers_with_notify]: bounded in flight, within one turn per layer; while a task is in flight the
    loop can take its outcome, whichever finishes and however (its error or panic included), without a panic of its own, and launches nothing
    after an error, so every execution ends with no task in flight; the layers announced are at every moment 0, 1, .. w-1 in order, each having landed, and while no task failed layer w has
    not landed, so a layer is announced as soon as it and all before it are in; nothing is announced after an
    error; the result is the first error joined, or [Ok] with every layer landed and announced. *)
Theorem run_layers_spec sizes max_inflight :
  Forall (λ z, 0 ≤ z) sizes → foldr Z.add 0 sizes ≤ u64_max →
  ∃ p0, run_layers_with_notify sizes max_inflight = Some p0 ∧
  ∀ k p, nsteps (pool_step layers_next layer_landed) k p0 p →
    (k ≤ length sizes)%nat
    ∧ (length (p_set p) ≤ Nat.max max_inflight 1)%nat
    ∧ p_launched p `prefix_of` layer_ref sizes
    ∧ (∀ i j o, p_set p !! i = Some j → ∃ p', pool_join layers_next layer_landed i j o p = Some p'
         ∧ (first_error (p_joined p).*2 ≠ None → p_launched p' = p_launched p))
    ∧ (∃ w, notified (p_user p) = seq 0 w ∧ (∀ i, (i < w)%nat → landed p i) ∧ (first_error (p_joined p).*2 = None → ¬ landed p w))
    ∧ (∀ p', pool_step layers_next layer_landed p p' → first_error (p_joined p).*2 ≠ None → notified (p_user p') = notified (p_user p))
    ∧ (p_set p = [] → match first_error (p_joined p).*2 with
                      | Some e => pool_result p = Some (Err e)
                      | None => pool_result p = Some (Ok tt) ∧ (∀ i, landed p i ↔ (i < length sizes)%nat) ∧ notified (p_user p) = seq 0 (length sizes)
                      end).
Proof.
  intros Hpos Hsum. destruct (layers_primed sizes max_inflight Hpos Hsum) as (p0 & Hrun & Hj0 & Hg0 & n0 & Hp0 & Hf0).
  exists p0. split; [done|]. intros k p Hk.
  destruct (pool_run_spec layers_next layer_landed _ _ (layers_next_spec (layer_ref sizes)) (Nat.max max_inflight 1) k p0 p)
    as (Hlen & Hfl & Hpre & _ & Hprog & Hend); [lia|eauto|done..|]. rewrite layer_ref_length in Hlen.
  pose proof (layers_reached _ _ _ _ _ _ Hp0 (or_introl Hf0) Hg0 Hk) as Hg.
  destruct (pool_reached_inv layers_next layer_landed _ _ (layers_next_spec (layer_ref sizes)) _ _ _ _ _ Hp0 (or_introl Hf0) Hk) as (n & Hp & Hf & _).
  pose proof (pool_err _ _ _ _ _ Hp) as He. pose proof Hg as [Hn Hl Hd Hh].
  assert (first_error (p_joined p).*2 = None → ¬ landed p (watermark (p_user p))) as Hw.
  { intros Hok. rewrite <- He in Hok. destruct (Hh Hok) as [Hnot Hall]. intros [?|?]%Hall; [lia|done]. }
  split_and!; [done..|by exists (watermark (p_user p))| |].
  - intros p' Hs Hne. apply (layers_step_gate sizes max_inflight n p p' Hp Hf Hg Hs). rewrite He. by apply not_eq_None_Some.
  - intros Hset. specialize (Hend Hset). destruct (first_error (p_joined p).*2) as [e|] eqn:Hok; [done|]. destruct Hend as [Hres Hperm].
    pose proof (all_landed sizes p Hperm Hok) as Hall. split_and!; [done..|]. rewrite Hn. f_equal. specialize (Hw eq_refl).
    rewrite Hall in Hw. destruct (decide (watermark (p_user p) = length sizes)) as [|Hne]; [done|]. exfalso.
    assert (length sizes < watermark (p_user p))%nat as Hlt by lia. apply Hl, Hall in Hlt. lia.
Qed.

Lemma record_first_seq clock n : (0 < n)%nat → record_first clock (seq 0 n) = Some (clock 0%nat).
Proof.
  intros Hn. destruct n as [|n]; [lia|]. unfold record_first. cbn.
  assert (∀ l, foldl (λ first i, if (i =? 0)%nat && negb (bool_decide (is_Some first)) then Some (clock i) else first) (Some (clock 0%nat)) l = Some (clock 0%nat)) as Hl; [|apply Hl].
  induction l as [|i l IH]; cbn [foldl]; [done|]. rewrite bool_decide_eq_true_2 by eauto. by rewrite andb_false_r.
Qed.

(** The telemetry of a pass that ended without an error: it counts every layer and byte, the first-layer time
    is the clock at the announcement of layer 0, and that time and the overlap window add up to the full
    transfer time. *)
Theorem telemetry_window sizes max_inflight p0 k p clock full :
  sizes ≠ [] → Forall (λ z, 0 ≤ z) sizes → foldr Z.add 0 sizes ≤ u64_max → run_layers_with_notify sizes max_inflight = Some p0 →
  nsteps (pool_step layers_next layer_landed) k p0 p → p_set p = [] → first_error (p_joined p).*2 = None →
  0 ≤ clock 0%nat ≤ full →
  ∃ t, run_layers_with_telemetry sizes max_inflight p clock full = Some (Ok t)
    ∧ tl_layers t = length sizes ∧ tl_bytes t = foldr Z.add 0 sizes
    ∧ time_to_first_layer_us t = Some (duration_us (clock 0%nat))
    ∧ duration_us (clock 0%nat) + overlap_window_us t = full_transfer_us t.
Proof.
  intros Hne Hpos Hsum Hrun Hk Hset Hok Hclock. destruct (layers_primed sizes max_inflight Hpos Hsum) as (q0 & Hrun' & Hj0 & Hg0 & n0 & Hp0 & Hf0).
  assert (q0 = p0) as -> by congruence. pose proof (layers_reached _ _ _ _ _ _ Hp0 (or_introl Hf0) Hg0 Hk) as Hg.
  destruct (pool_run_spec layers_next layer_landed _ _ (layers_next_spec (layer_ref sizes)) (Nat.max max_inflight 1) k p0 p)
    as (_ & _ & _ & _ & _ & Hend); [lia|eauto|done..|]. specialize (Hend Hset). rewrite Hok in Hend. destruct Hend as [Hres Hperm].
  pose proof (all_landed sizes p Hperm Hok) as Hall.
  destruct (pool_reached_inv layers_next layer_landed _ _ (layers_next_spec (layer_ref sizes)) _ _ _ _ _ Hp0 (or_introl Hf0) Hk) as (n & Hp & _).
  destruct (gate_healthy p Hg) as [_ Hdone]; [by rewrite (pool_err _ _ _ _ _ Hp)|].
  assert (0 < watermark (p_user p))%nat as Hw.
  { destruct (Nat.eq_dec (watermark (p_user p)) 0%nat) as [E|]; [|lia]. destruct (gate_healthy p Hg) as [Hnot _]; [by rewrite (pool_err _ _ _ _ _ Hp)|].
    destruct (Hdone 0%nat) as [?|?]; [apply Hall; destruct sizes; [done|simpl; lia]|lia|congruence]. }
  unfold run_layers_with_telemetry. destruct sizes as [|z sizes]; [done|]. rewrite u64_sum_ok by done. rewrite Hres. cbn [mbind option_bind].
  rewrite (gate_notified p Hg), record_first_seq by done. eexists. split; [done|]. cbn [tl_layers tl_bytes time_to_first_layer_us overlap_window_us full_transfer_us fmap option_fmap option_map from_option].
  split_and!; try done. unfold sat_sub, duration_us. assert (clock 0%nat / 1000 ≤ full / 1000) by (apply Z.div_le_mono; lia). lia.
Qed.

(** Three layers, two in flight, the second landing first; then a run in which the second fails. *)
Definition lx_sizes : list Z := [4; 4; 2].
Definition lx_pool : LayerPool := default (pool_init ([], 0%nat) (mkGate ∅ 0 [])) (run_layers_with_notify lx_sizes 2).
Definition lx_choices : list (nat * Joined) := [(1%nat, JoinedOk); (0%nat, JoinedOk); (0%nat, JoinedOk)].
Definition lx_end : LayerPool := default lx_pool (pool_drive layers_next layer_landed lx_choices lx_pool).
Definition lx_failed : LayerPool :=
  default lx_pool (pool_drive layers_next layer_landed [(1%nat, JoinedErr TeNotFound); (0%nat, JoinedOk)] lx_pool).

Lemma lx_sizes_ok : Forall (λ z, 0 ≤ z) lx_sizes ∧ foldr Z.add 0 lx_sizes ≤ u64_max.
Proof. split; [repeat constructor; lia|by vm_compute]. Qed.
Lemma lx_pool_eq : run_layers_with_notify lx_sizes 2 = Some lx_pool.
Proof. run. Qed.
Lemma lx_end_reached : nsteps (pool_step layers_next layer_landed) 3 lx_pool lx_end.
Proof. apply (pool_drive_steps layers_next layer_landed lx_choices). run. Qed.

Lemma run_layers_spec_witness :
  notified (p_user lx_end) = [0; 1; 2]%nat ∧ pool_result lx_failed = Some (Err TeNotFound) ∧ notified (p_user lx_failed) = []
  ∧ p_launched lx_end `prefix_of` layer_ref lx_sizes.
Proof.
  split_and!; [vm_compute; reflexivity..|].
  destruct (run_layers_spec lx_sizes 2) as (p0 & Hp0 & Hall); [apply lx_sizes_ok..|]. assert (p0 = lx_pool) as -> by (rewrite lx_pool_eq in Hp0; congruence).
  destruct (Hall _ _ lx_end_reached) as (_ & _ & Hpre & _). exact Hpre.
Defined.

Lemma telemetry_window_witness :
  ∃ t, run_layers_with_telemetry lx_sizes 2 lx_end (λ i, 5000 * Z.of_nat i + 7000) 30000 = Some (Ok t) ∧ 7 + overlap_window_us t = full_transfer_us t.
Proof.
  destruct (telemetry_window lx_sizes 2 lx_pool 3 lx_end (λ i, 5000 * Z.of_nat i + 7000) 30000) as (t & Ht & _ & _ & _ & Hw);
    [done|apply lx_sizes_ok..|exact lx_pool_eq|exact lx_end_reached|vm_compute; reflexivity|vm_compute; reflexivity|lia|].
  exists t. split; [exact Ht|exact Hw].
Defined.
