(* ===== verification/TcpTransport.v ===== *)
(** * The TCP backend

    crates/quillcache-transfer-engine/src/transport/tcp.rs: the wire frames, the server loop
    of a connection over the shared byte arena, and the client calls.

    The arena is a [Vec<u8>] behind a mutex.  A panic while the lock is held poisons it,
    after which every [lock().unwrap()] panics.  A connection's input is the bytes its peer
    sends before it closes; the reply is the bytes written back (writes to a socket
    succeed).  Allocation failure, which aborts the process, is outside the model; a
    [Vec] longer than [isize::MAX] panics, as documented. *)
From S2P Require Import Prelude F64 Identity ShardedMap Router RouterPlan TransferTypes.

(** ** Readers *)

Definition be64 (z : Z) : list Z := be_bytes 8 z.

(** [read_exact]: [None] is an unexpected end of the stream. *)
Definition read_exact (n : nat) (input : list Z) : option (list Z * list Z) :=
  if (n <=? length input)%nat then Some (take n input, drop n input) else None.
Definition read_u8 (input : list Z) : option (Z * list Z) :=
  match input with [] => None | b :: rest => Some (b, rest) end.
Definition read_u64 (input : list Z) : option (Z * list Z) :=
  '(bs, rest) ← read_exact 8 input; Some (from_be_bytes bs, rest).

Lemma from_be64 z : is_u64 z → from_be_bytes (be64 z) = z.
Proof. intros Hz. apply from_be_bytes_be. unfold is_u64, u64_max in Hz. change (256 ^ Z.of_nat 8) with 18446744073709551616. lia. Qed.

Lemma read_exact_app l k : read_exact (length l) (l ++ k) = Some (l, k).
Proof. unfold read_exact. rewrite (proj2 (Nat.leb_le _ _)) by (rewrite length_app; lia). by rewrite take_app_length, drop_app_length. Qed.

Lemma read_u64_be z rest : is_u64 z → read_u64 (be64 z ++ rest) = Some (z, rest).
Proof.
  intros Hz. unfold read_u64. change 8%nat with (length (be64 z)) at 1. rewrite read_exact_app. cbn [mbind option_bind]. by rewrite from_be64.
Qed.

(** ** The server *)

Record SharedSegment : Type := mkSegment { seg_bytes : list Z; seg_poisoned : bool }.
Definition seg_len (s : SharedSegment) : Z := Z.of_nat (length (seg_bytes s)).
Definition poison (s : SharedSegment) : SharedSegment := mkSegment (seg_bytes s) true.

Definition isize_max : Z := 9223372036854775807.

(** [seg.resize(len, 0)] to a length that is not smaller. *)
Definition grow_to (n : nat) (l : list Z) : list Z := l ++ replicate (n - length l) 0.
(** [l[off..off + data.len()].copy_from_slice(data)]. *)
Definition splice (off : nat) (data l : list Z) : list Z := take off l ++ data ++ drop (off + length data) l.
Definition slice (off len : nat) (l : list Z) : list Z := take len (drop off l).

(** The locked section of the READ arm. *)
Definition seg_read (offset len : Z) (s : SharedSegment) : outcome (option (list Z)) :=
  if seg_poisoned s then Panic
  else Done (e ← u64_add offset len; if e <=? seg_len s then Some (slice (Z.to_nat offset) (Z.to_nat len) (seg_bytes s)) else None).

(** The locked section of the WRITE arm: [offset + len] overflowing (in a release build, the
    slice it then takes), or growing past [isize::MAX], panics with the lock held. *)
Definition seg_write (offset : Z) (buf : list Z) (s : SharedSegment) : outcome unit * SharedSegment :=
  if seg_poisoned s then (Panic, s)
  else match u64_add offset (Z.of_nat (length buf)) with
       | None => (Panic, poison s)
       | Some e =>
           if (seg_len s <? e) && (isize_max <? e) then (Panic, poison s)
           else (Done tt, mkSegment (splice (Z.to_nat offset) buf (grow_to (Z.to_nat e) (seg_bytes s))) false)
       end.

Definition OP_READ : Z := 0.
Definition OP_WRITE : Z := 1.
Definition ST_OK : Z := 0.
Definition ST_ERR : Z := 2.

(** How a connection's task ends. *)
Inductive ConnEnd : Type := ConnClosed | ConnIoError | ConnPanicked.

(** One turn of the loop: the task ends, or goes on with the rest of the input. *)
Definition handle_frame (input : list Z) (s : SharedSegment) : (ConnEnd + list Z) * list Z * SharedSegment :=
  match read_u8 input with
  | None => (inl ConnClosed, [], s)
  | Some (op, input) =>
  match read_u64 input with
  | None => (inl ConnIoError, [], s)
  | Some (offset, input) =>
  match read_u64 input with
  | None => (inl ConnIoError, [], s)
  | Some (len, input) =>
      if op =? OP_READ then
        match seg_read offset len s with
        | Panic => (inl ConnPanicked, [], s)
        | Done (Some bytes) => (inr input, ST_OK :: be64 (Z.of_nat (length bytes)) ++ bytes, s)
        | Done None => (inr input, [ST_ERR], s)
        end
      else if op =? OP_WRITE then
        if isize_max <? len then (inl ConnPanicked, [], s)
        else match read_exact (Z.to_nat len) input with
             | None => (inl ConnIoError, [], s)
             | Some (buf, input) =>
                 match seg_write offset buf s with
                 | (Panic, s) => (inl ConnPanicked, [], s)
                 | (Done _, s) => (inr input, [ST_OK], s)
                 end
             end
      else (inl ConnClosed, [], s)
  end end end.

Fixpoint handle_conn (fuel : nat) (input : list Z) (s : SharedSegment) : option (list Z * SharedSegment * ConnEnd) :=
  match fuel with
  | O => None
  | S fuel =>
      match handle_frame input s with
      | (inl e, reply, s) => Some (reply, s, e)
      | (inr input, reply, s) =>
          '(reply', s, e) ← handle_conn fuel input s;
          Some (reply ++ reply', s, e)
      end
  end.

(** Every frame consumes input: the loop ends. *)
Definition serve_connection (input : list Z) (s : SharedSegment) : option (list Z * SharedSegment * ConnEnd) :=
  handle_conn (S (length input)) input s.

(** ** The client *)

(** The nodes reachable by their endpoint, each with its arena. *)
Notation Net := (gmap string SharedSegment).

(** The texts of the operating system's errors. *)
Class IoMessages : Type := { connection_refused : string; unexpected_eof : string }.

Section client.
Context `{IoMessages}.

Definition read_frame (offset len : Z) : list Z := OP_READ :: be64 offset ++ be64 len.
Definition write_frame (offset : Z) (data : list Z) : list Z := OP_WRITE :: be64 offset ++ be64 (Z.of_nat (length data)) ++ data.

(** What the client makes of the reply to a READ. *)
Definition parse_read_reply (reply : list Z) : outcome (result TransferError (list Z)) :=
  match read_u8 reply with
  | None => Done (Err (TeIo unexpected_eof))
  | Some (status, reply) =>
      if negb (status =? ST_OK) then Done (Err (TeProtocol "remote read out of segment bounds"))
      else match read_u64 reply with
           | None => Done (Err (TeIo unexpected_eof))
           | Some (len, reply) =>
               if isize_max <? len then Panic
               else match read_exact (Z.to_nat len) reply with
                    | None => Done (Err (TeIo unexpected_eof))
                    | Some (buf, _) => Done (Ok buf)
                    end
           end
  end.

Definition parse_write_reply (reply : list Z) : outcome (result TransferError unit) :=
  match read_u8 reply with
  | None => Done (Err (TeIo unexpected_eof))
  | Some (status, _) => Done (if negb (status =? ST_OK) then Err (TeProtocol "remote write failed") else Ok tt)
  end.

(** A connection to [endpoint] that carries one request. *)
Definition exchange {A} (endpoint : string) (request : list Z) (parse : list Z → outcome (result TransferError A)) (net : Net)
    : outcome (result TransferError A) * Net :=
  match net !! endpoint with
  | None => (Done (Err (TeIo connection_refused)), net)
  | Some s =>
      match serve_connection request s with
      | Some (reply, s, _) => (parse reply, <[endpoint := s]> net)
      | None => (Panic, net)
      end
  end.

Definition tcp_read_remote (endpoint : string) (offset len : Z) : Net → outcome (result TransferError (list Z)) * Net :=
  exchange endpoint (read_frame offset len) parse_read_reply.
Definition tcp_write_remote (endpoint : string) (offset : Z) (data : list Z) : Net → outcome (result TransferError unit) * Net :=
  exchange endpoint (write_frame offset data) parse_write_reply.

Definition TcpTransport : Transport Net := mkTransport "tcp" LinkTcp tcp_read_remote tcp_write_remote.
End client.

(** ** The memory a segment promises *)

(** A request, its frame, and what it does to a plain byte memory. *)
Inductive WireOp : Type := WireRead (offset len : Z) | WireWrite (offset : Z) (data : list Z).

Definition wire_frame (op : WireOp) : list Z :=
  match op with WireRead o n => read_frame o n | WireWrite o d => write_frame o d end.

Definition mem_read (offset len : Z) (m : list Z) : option (list Z) :=
  if offset + len <=? Z.of_nat (length m) then Some (slice (Z.to_nat offset) (Z.to_nat len) m) else None.
Definition mem_write (offset : Z) (data m : list Z) : list Z :=
  splice (Z.to_nat offset) data (grow_to (Z.to_nat (offset + Z.of_nat (length data))) m).

Definition mem_step (op : WireOp) (m : list Z) : list Z * list Z :=
  match op with
  | WireRead o n => (match mem_read o n m with Some bs => ST_OK :: be64 (Z.of_nat (length bs)) ++ bs | None => [ST_ERR] end, m)
  | WireWrite o d => ([ST_OK], mem_write o d m)
  end.
Fixpoint mem_run (ops : list WireOp) (m : list Z) : list Z * list Z :=
  match ops with
  | [] => ([], m)
  | op :: ops => let '(r, m) := mem_step op m in let '(r', m) := mem_run ops m in (r ++ r', m)
  end.

(** A request the wire can carry and the server can serve: a write ends within [isize::MAX]. *)
Definition wire_ok (op : WireOp) : Prop :=
  match op with
  | WireRead o n => is_u64 o ∧ is_u64 n
  | WireWrite o d => 0 ≤ o ∧ o + Z.of_nat (length d) ≤ isize_max
  end.

Lemma slice_length off len (l : list Z) : (off + len ≤ length l)%nat → length (slice off len l) = len.
Proof. intros Hle. unfold slice. rewrite length_take, length_drop. lia. Qed.

Lemma slice_lookup off len (l : list Z) i : (i < len)%nat → slice off len l !! i = l !! (off + i)%nat.
Proof. intros Hi. unfold slice. by rewrite lookup_take_lt, lookup_drop. Qed.

Lemma grow_to_length n l : length (grow_to n l) = Nat.max n (length l).
Proof. unfold grow_to. rewrite length_app, length_replicate. lia. Qed.

Lemma grow_to_lookup n l i : grow_to n l !! i = if decide (i < length l)%nat then l !! i else if decide (i < n)%nat then Some 0 else None.
Proof.
  unfold grow_to. case_decide; [by rewrite lookup_app_l|]. rewrite lookup_app_r by lia.
  case_decide; [apply lookup_replicate_2|apply lookup_ge_None; rewrite length_replicate]; lia.
Qed.

Lemma splice_length off data l : (off + length data ≤ length l)%nat → length (splice off data l) = length l.
Proof. intros Hle. unfold splice. rewrite !length_app, length_take, length_drop. lia. Qed.

Lemma splice_lookup off data l i :
  (off + length data ≤ length l)%nat →
  splice off data l !! i = if decide (off ≤ i < off + length data)%nat then data !! (i - off)%nat else l !! i.
Proof.
  intros Hle. unfold splice. destruct (decide (i < off)%nat) as [Hlt|Hge].
  { rewrite decide_False by lia. rewrite lookup_app_l by (rewrite length_take; lia). by rewrite lookup_take_lt. }
  rewrite lookup_app_r by (rewrite length_take; lia). rewrite length_take, Nat.min_l by lia. case_decide as Hin.
  - rewrite lookup_app_l by lia. done.
  - rewrite lookup_app_r by lia. rewrite lookup_drop. f_equal. lia.
Qed.

(** The byte at [i] after a write: the data in its range, the old bytes elsewhere, zeros in a gap. *)
Lemma mem_write_lookup offset data m i :
  0 ≤ offset →
  mem_write offset data m !! i =
  if decide (offset ≤ Z.of_nat i < offset + Z.of_nat (length data)) then data !! (i - Z.to_nat offset)%nat
  else if decide (i < length m)%nat then m !! i
  else if decide (Z.of_nat i < offset + Z.of_nat (length data)) then Some 0 else None.
Proof.
  intros Ho. unfold mem_write. rewrite splice_lookup by (rewrite grow_to_length; lia). rewrite grow_to_lookup.
  repeat case_decide; try lia; done.
Qed.

Lemma mem_write_length offset data m : 0 ≤ offset → Z.of_nat (length (mem_write offset data m)) = Z.max (Z.of_nat (length m)) (offset + Z.of_nat (length data)).
Proof. intros Ho. unfold mem_write. rewrite splice_length; rewrite grow_to_length; lia. Qed.

(** A read of what was just written. *)
Lemma mem_read_write offset data m : 0 ≤ offset → mem_read offset (Z.of_nat (length data)) (mem_write offset data m) = Some data.
Proof.
  intros Ho. unfold mem_read. pose proof (mem_write_length offset data m Ho) as Hlen. rewrite (proj2 (Z.leb_le _ _)) by lia. f_equal.
  apply list_eq. intros i. destruct (decide (i < length data)%nat) as [Hi|Hi].
  - rewrite slice_lookup by lia. rewrite mem_write_lookup by done. rewrite decide_True by lia. f_equal. lia.
  - rewrite !(proj2 (lookup_ge_None _ _)); [done|lia|]. rewrite slice_length; lia.
Qed.

(** A read that a write does not touch. *)
Lemma mem_read_write_disjoint offset data m o n :
  0 ≤ offset → 0 ≤ o → 0 ≤ n → o + n ≤ offset ∨ offset + Z.of_nat (length data) ≤ o →
  o + n ≤ Z.of_nat (length m) → mem_read o n (mem_write offset data m) = mem_read o n m.
Proof.
  intros Hoff Ho Hn Hd Hin. unfold mem_read. pose proof (mem_write_length offset data m Hoff) as Hlen.
  rewrite !(proj2 (Z.leb_le _ _)) by lia. f_equal. apply list_eq. intros i. destruct (decide (i < Z.to_nat n)%nat) as [Hi|Hi].
  - rewrite !slice_lookup by lia. rewrite mem_write_lookup by done. rewrite decide_False, decide_True by lia. done.
  - rewrite !(proj2 (lookup_ge_None _ _)); [done|..]; rewrite slice_length; lia.
Qed.

(** ** The server implements the memory *)

Lemma seg_read_mem offset len m :
  is_u64 offset → is_u64 len → Z.of_nat (length m) ≤ u64_max → seg_read offset len (mkSegment m false) = Done (mem_read offset len m).
Proof.
  unfold is_u64. intros Ho Hl Hm. unfold seg_read, mem_read, seg_len, u64_add. cbn. f_equal.
  destruct (Z.leb_spec (offset + len) u64_max); cbn; [done|]. by rewrite (proj2 (Z.leb_gt _ _)) by lia.
Qed.

Lemma seg_write_mem offset data m :
  0 ≤ offset → offset + Z.of_nat (length data) ≤ isize_max →
  seg_write offset data (mkSegment m false) = (Done tt, mkSegment (mem_write offset data m) false).
Proof.
  intros Ho He. unfold seg_write. cbn. rewrite u64_add_ok by (unfold u64_max, isize_max in *; lia).
  rewrite (proj2 (Z.ltb_ge isize_max _)) by lia. rewrite andb_false_r. done.
Qed.

Lemma handle_frame_step op rest m :
  wire_ok op → Z.of_nat (length m) ≤ u64_max →
  handle_frame (wire_frame op ++ rest) (mkSegment m false) = (inr rest, (mem_step op m).1, mkSegment (mem_step op m).2 false).
Proof.
  intros Hok Hm. unfold handle_frame. destruct op as [o n|o d]; cbn [wire_frame]; unfold read_frame, write_frame; cbn [read_u8 app].
  - destruct Hok as [Ho Hn]. rewrite <- !(assoc_L (++)) by apply _. rewrite !read_u64_be by done. cbn [OP_READ OP_WRITE Z.eqb].
    rewrite seg_read_mem by done. cbn. by destruct (mem_read o n m).
  - destruct Hok as [Ho He]. assert (is_u64 o ∧ is_u64 (Z.of_nat (length d))) as [Ho' Hd'] by (unfold is_u64, u64_max, isize_max in *; lia).
    rewrite <- !(assoc_L (++)) by apply _. rewrite !read_u64_be by done. cbn [OP_READ OP_WRITE Z.eqb].
    rewrite (proj2 (Z.ltb_ge _ _)) by lia. rewrite Nat2Z.id, read_exact_app, seg_write_mem by done. done.
Qed.

Lemma wire_frame_length op : (1 ≤ length (wire_frame op))%nat.
Proof. destruct op; simpl; lia. Qed.

Lemma mem_step_length op m : wire_ok op → Z.of_nat (length m) ≤ isize_max → Z.of_nat (length (mem_step op m).2) ≤ isize_max.
Proof. destruct op as [o n|o d]; cbn; [done|]. intros [? ?] ?. rewrite mem_write_length by done. lia. Qed.

Lemma handle_conn_run fuel ops m :
  Forall wire_ok ops → Z.of_nat (length m) ≤ isize_max → (length (mjoin (wire_frame <$> ops)) < fuel)%nat →
  handle_conn fuel (mjoin (wire_frame <$> ops)) (mkSegment m false) = Some ((mem_run ops m).1, mkSegment (mem_run ops m).2 false, ConnClosed).
Proof.
  revert fuel m. induction ops as [|op ops IH]; intros fuel m Hok Hm Hfuel; (destruct fuel as [|fuel]; [lia|]); [done|].
  apply Forall_cons in Hok as [Hop Hok]. change (mjoin (wire_frame <$> op :: ops)) with (wire_frame op ++ mjoin (wire_frame <$> ops)) in *. cbn [handle_conn].
  rewrite handle_frame_step by (done || unfold u64_max, isize_max in *; lia). pose proof (wire_frame_length op). rewrite length_app in Hfuel.
  rewrite IH; [|done|by apply mem_step_length|lia]. cbn [mbind option_bind mem_run]. destruct (mem_step op m) as [r m1]. cbn [fst snd].
  by destruct (mem_run ops m1).
Qed.

Lemma read_u64_shorter l z rest : read_u64 l = Some (z, rest) → (length rest < length l)%nat.
Proof.
  unfold read_u64, read_exact. destruct (Nat.leb_spec 8 (length l)); [|done]. cbn. intros [= _ <-]. rewrite length_drop. lia.
Qed.

Lemma handle_frame_shorter input s rest reply s' : handle_frame input s = (inr rest, reply, s') → (length rest < length input)%nat.
Proof.
  unfold handle_frame. destruct input as [|op input]; [done|]. cbn [read_u8]. intros E.
  destruct (read_u64 input) as [[o i1]|] eqn:E1; [|done]. destruct (read_u64 i1) as [[n i2]|] eqn:E2; [|done].
  apply read_u64_shorter in E1, E2. cbn.
  destruct (op =? OP_READ). { destruct (seg_read o n s) as [[bs|]|]; simplify_eq; lia. }
  destruct (op =? OP_WRITE); [|done]. destruct (isize_max <? n); [done|]. unfold read_exact in E.
  destruct (Nat.leb_spec (Z.to_nat n) (length i2)); [|done]. destruct (seg_write _ _ _) as [[] ?]; simplify_eq. rewrite length_drop. lia.
Qed.

Lemma handle_conn_total fuel input s : (length input < fuel)%nat → is_Some (handle_conn fuel input s).
Proof.
  revert input s. induction fuel as [|fuel IH]; intros input s Hf; [lia|]. cbn [handle_conn].
  destruct (handle_frame input s) as [[[e|rest] reply] s'] eqn:E; [done|]. apply handle_frame_shorter in E.
  destruct (IH rest s') as [[[r s2] e2] ->]; [lia|]. done.
Qed.

(** ** Theorems *)

(** C26 Whatever bytes a peer sends, its connection's task ends (each frame consumes input), and on a sequence of
    requests whose writes end within [isize::MAX] the server replies and updates its arena exactly as a byte memory does:
    a read in range returns the range, a read out of range (or whose end overflows) an error and nothing else, a write
    stores its bytes, growing the arena with zeros. *)
Theorem serve_connection_refines :
  (∀ input s, is_Some (serve_connection input s))
  ∧ ∀ ops m, Forall wire_ok ops → Z.of_nat (length m) ≤ isize_max →
      serve_connection (mjoin (wire_frame <$> ops)) (mkSegment m false) = Some ((mem_run ops m).1, mkSegment (mem_run ops m).2 false, ConnClosed).
Proof.
  split.
  - intros input s. apply handle_conn_total. lia.
  - intros ops m Hok Hm. apply handle_conn_run; [done..|lia].
Qed.

Section client_theorems.
Context `{IoMessages}.

(** What the two client calls do to a live peer. *)
Lemma tcp_read_ok endpoint o n m (net : Net) :
  is_u64 o → is_u64 n → Z.of_nat (length m) ≤ isize_max → net !! endpoint = Some (mkSegment m false) →
  tcp_read_remote endpoint o n net
  = (Done (match mem_read o n m with Some bs => Ok bs | None => Err (TeProtocol "remote read out of segment bounds") end), net).
Proof.
  intros Ho Hn Hm Hnet. unfold tcp_read_remote, exchange. rewrite Hnet. unfold serve_connection.
  pose proof (handle_conn_run (S (length (read_frame o n))) [WireRead o n] m) as Hrun. cbn [fmap list_fmap mjoin list_join wire_frame] in Hrun.
  rewrite app_nil_r in Hrun. rewrite Hrun; [|by apply Forall_singleton|done|lia]. cbn [mem_run mem_step fst snd].
  rewrite insert_id by done. f_equal. destruct (mem_read o n m) as [bs|] eqn:Hr; [|done]. rewrite app_nil_r.
  assert (length bs ≤ length m)%nat as Hle.
  { unfold mem_read in Hr. destruct (_ <=? _); [|done]. injection Hr as <-. unfold slice. rewrite length_take, length_drop. lia. }
  unfold parse_read_reply. cbn [read_u8]. rewrite read_u64_be by (unfold is_u64, u64_max, isize_max in *; lia).
  rewrite (proj2 (Z.ltb_ge _ _)) by lia. rewrite Nat2Z.id. rewrite <- (app_nil_r bs) at 2. by rewrite read_exact_app.
Qed.

Lemma tcp_write_ok endpoint o d m (net : Net) :
  0 ≤ o → o + Z.of_nat (length d) ≤ isize_max → Z.of_nat (length m) ≤ isize_max → net !! endpoint = Some (mkSegment m false) →
  tcp_write_remote endpoint o d net = (Done (Ok tt), <[endpoint := mkSegment (mem_write o d m) false]> net).
Proof.
  intros Ho Hd Hm Hnet. unfold tcp_write_remote, exchange. rewrite Hnet. unfold serve_connection.
  pose proof (handle_conn_run (S (length (write_frame o d))) [WireWrite o d] m) as Hrun. cbn [fmap list_fmap mjoin list_join wire_frame] in Hrun.
  rewrite app_nil_r in Hrun. rewrite Hrun; [done|by apply Forall_singleton|done|lia].
Qed.

(** Bytes written to a peer over the wire are the bytes read back from there, through both encodings, while the
    other peers, and the peer's bytes outside the range, keep their contents. *)
Theorem tcp_write_read_roundtrip endpoint o d m net :
  0 ≤ o → o + Z.of_nat (length d) ≤ isize_max → Z.of_nat (length m) ≤ isize_max → net !! endpoint = Some (mkSegment m false) →
  ∃ net', tcp_write_remote endpoint o d net = (Done (Ok tt), net')
    ∧ tcp_read_remote endpoint o (Z.of_nat (length d)) net' = (Done (Ok d), net')
    ∧ (∀ e, e ≠ endpoint → net' !! e = net !! e)
    ∧ (∀ o' n, 0 ≤ o' → 0 ≤ n → o' + n ≤ o ∨ o + Z.of_nat (length d) ≤ o' → o' + n ≤ Z.of_nat (length m) →
         tcp_read_remote endpoint o' n net' = ((tcp_read_remote endpoint o' n net).1, net')).
Proof.
  intros Ho Hd Hm Hnet. assert (∀ z, 0 ≤ z ≤ isize_max → is_u64 z) as Hu by (unfold is_u64, u64_max, isize_max; lia).
  assert (Z.of_nat (length (mem_write o d m)) ≤ isize_max) as Hm' by (rewrite mem_write_length by done; lia).
  exists (<[endpoint := mkSegment (mem_write o d m) false]> net). split_and!.
  - by apply tcp_write_ok.
  - rewrite (tcp_read_ok endpoint o _ (mem_write o d m)); [|apply Hu; lia|apply Hu; lia|done|by rewrite lookup_insert_eq].
    by rewrite mem_read_write.
  - intros e He. by rewrite lookup_insert_ne.
  - intros o' n Ho' Hn Hdis Hin.
    rewrite (tcp_read_ok endpoint o' n (mem_write o d m)); [|apply Hu; lia|apply Hu; lia|done|by rewrite lookup_insert_eq].
    rewrite (tcp_read_ok endpoint o' n m); [|apply Hu; lia|apply Hu; lia|done..]. cbn [fst]. by rewrite mem_read_write_disjoint.
Qed.

(** A single WRITE frame whose end overflows panics the server's task with the arena locked; from then on the arena
    is poisoned and every request of every peer, well formed or not, gets its connection dropped. *)
Theorem overflowing_write_poisons m ops op :
  wire_ok op → (∃ rest, serve_connection (write_frame u64_max [0] ++ ops) (mkSegment m false) = Some ([], mkSegment m true, rest))
  ∧ serve_connection (wire_frame op) (mkSegment m true) = Some ([], mkSegment m true, ConnPanicked).
Proof.
  intros Hop. split.
  - exists ConnPanicked. unfold serve_connection. cbn [handle_conn]. unfold handle_frame, write_frame. cbn [read_u8 app].
    rewrite <- !(assoc_L (++)) by apply _. rewrite !read_u64_be by done. cbn [OP_READ OP_WRITE Z.eqb isize_max Z.ltb Z.compare length].
    change (Z.of_nat 1) with 1. cbn [Z.ltb Z.compare Pos.compare Pos.compare_cont]. change (Z.to_nat 1) with (length [0]). rewrite read_exact_app. done.
  - unfold serve_connection. cbn [handle_conn]. rewrite <- (app_nil_r (wire_frame op)). unfold handle_frame.
    destruct op as [o n|o d]; cbn [wire_frame]; unfold read_frame, write_frame; cbn [read_u8 app].
    + destruct Hop as [Ho Hn]. rewrite <- !(assoc_L (++)) by apply _. rewrite !read_u64_be by done. done.
    + destruct Hop as [Ho Hd]. assert (is_u64 o ∧ is_u64 (Z.of_nat (length d))) as [Ho' Hd'] by (unfold is_u64, u64_max, isize_max in *; lia).
      rewrite <- !(assoc_L (++)) by apply _. rewrite !read_u64_be by done. cbn [OP_READ OP_WRITE Z.eqb].
      rewrite (proj2 (Z.ltb_ge _ _)) by lia. rewrite Nat2Z.id, read_exact_app. done.
Qed.
End client_theorems.

(** ** Runs *)

#[local] Instance tx_messages : IoMessages := {| connection_refused := "Connection refused"; unexpected_eof := "unexpected end of file" |}.

Lemma serve_connection_refines_witness :
  serve_connection (write_frame 2 [7; 8] ++ read_frame 1 3 ++ read_frame 2 9) (mkSegment [5] false)
  = Some ([ST_OK] ++ (ST_OK :: be64 3 ++ [0; 7; 8]) ++ [ST_ERR], mkSegment [5; 0; 7; 8] false, ConnClosed).
Proof.
  exact (proj2 serve_connection_refines [WireWrite 2 [7; 8]; WireRead 1 3; WireRead 2 9] [5]
    ltac:(repeat (apply Forall_cons; split); [split; [lia|by vm_compute]|by split; vm_compute|by split; vm_compute|by apply Forall_nil]) ltac:(by vm_compute)).
Defined.

Definition tx_net : Net := {["node" := mkSegment [1; 2; 3] false]}.
Lemma tcp_write_read_roundtrip_witness :
  ∃ net', tcp_write_remote "node" 5 [9; 9] tx_net = (Done (Ok tt), net') ∧ tcp_read_remote "node" 5 2 net' = (Done (Ok [9; 9]), net').
Proof.
  destruct (tcp_write_read_roundtrip "node" 5 [9; 9] [1; 2; 3] tx_net) as (net' & Hw & Hr & _); [lia|by vm_compute|by vm_compute|done|].
  exists net'. split; [exact Hw|exact Hr].
Defined.

Lemma overflowing_write_poisons_witness : serve_connection (read_frame 0 1) (mkSegment [5] true) = Some ([], mkSegment [5] true, ConnPanicked).
Proof. exact (proj2 (overflowing_write_poisons [5] [] (WireRead 0 1) ltac:(by split; vm_compute))). Defined.
