(* ===== verification/TransferEngine.v ===== *)
(** * The transfer engine

    crates/quillcache-transfer-engine/src/engine.rs: the facade over the metadata backend,
    the transports and the batch table.  The RAM segment is an [Arc] the engine shares with
    the task that serves it to peers: it is the entry of the network at the engine's own
    endpoint ([te_segment]), so a transfer to oneself goes through the same bytes.

    An operation is a function of the engine and the world (the nodes' arenas and the
    metadata) that returns or panics; a panic with the arena locked poisons it.  Counters
    are unbounded. *)
From S2P Require Import Prelude F64 Identity ShardedMap Router RouterPlan TransferTypes TcpTransport.

Record World (M : Type) : Type := mkWorld { w_net : Net; w_meta : M }.
Arguments mkWorld {M} _ _.
Arguments w_net {M} _.
Arguments w_meta {M} _.

Record TransferEngine : Type := mkEngine {
  local_name : string;
  te_segment : string;
  te_multi : MultiTransport Net;
  next_batch : Z;
  batches : gmap Z TransferStatus;
  segment_cache : gmap Z (string * string);
  next_seg : Z
}.

Section engine.
Context {M : Type} `{MetadataBackend M} `{IoMessages}.

Notation State := (TransferEngine * World M)%type.

(** ** The monad: state, panics, and errors as values *)

Definition Run (A : Type) : Type := State → outcome A * State.
Definition run_ret {A} (a : A) : Run A := λ st, (Done a, st).
Definition run_bind {A B} (m : Run A) (k : A → Run B) : Run B :=
  λ st, match m st with (Done a, st) => k a st | (Panic, st) => (Panic, st) end.
(** [expr?]: an error returns at once. *)
Definition run_try {A B} (m : Run (result TransferError A)) (k : A → Run (result TransferError B)) : Run (result TransferError B) :=
  run_bind m (λ r, match r with Ok a => k a | Err e => run_ret (Err e) end).

Notation "'let!' x := m 'in' k" := (run_bind m (λ x, k)) (at level 200, x binder, right associativity).
Notation "'try!' x := m 'in' k" := (run_try m (λ x, k)) (at level 200, x binder, right associativity).

(** [self.segment.lock().unwrap()], a write through the guard, and a panic with the guard alive. *)
Definition lock_segment : Run (list Z) := λ st,
  match w_net st.2 !! te_segment st.1 with
  | Some s => if seg_poisoned s then (Panic, st) else (Done (seg_bytes s), st)
  | None => (Panic, st)
  end.
Definition store_segment (bytes : list Z) : Run unit := λ st,
  (Done tt, (st.1, mkWorld (<[te_segment st.1 := mkSegment bytes false]> (w_net st.2)) (w_meta st.2))).
Definition panic_locked {A} : Run A := λ st,
  (Panic, (st.1, mkWorld (alter poison (te_segment st.1) (w_net st.2)) (w_meta st.2))).
Definition get_engine : Run TransferEngine := λ st, (Done st.1, st).
Definition set_engine (e : TransferEngine) : Run unit := λ st, (Done tt, (e, st.2)).
(** A call to the transport: it moves bytes of the network. *)
Definition on_net {A} (f : Net → outcome A * Net) : Run A := λ st,
  let '(r, net) := f (w_net st.2) in (r, (st.1, mkWorld net (w_meta st.2))).

(** ** Operations *)

(** [TransferEngine::init] with the endpoint the listener was bound to (a free address). *)
Definition te_init (name endpoint : string) (w : World M) : TransferEngine * World M :=
  (mkEngine name endpoint (multi_install "tcp" TcpTransport multi_new) 1 ∅ ∅ 1,
   mkWorld (<[endpoint := mkSegment [] false]> (w_net w)) (put_segment (mkSegmentDesc name "tcp" endpoint []) (w_meta w))).

Definition register_local_memory (data : list Z) : Run Z :=
  let! seg := lock_segment in
  if isize_max <? Z.of_nat (length seg + length data) then panic_locked
  else let! _ := store_segment (seg ++ data) in
       run_ret (Z.of_nat (length seg)).

Definition register_zeroed (len : Z) : Run Z :=
  let! seg := lock_segment in
  match u64_add (Z.of_nat (length seg)) len with
  | None => panic_locked
  | Some n =>
      if isize_max <? n then panic_locked
      else let! _ := store_segment (grow_to (Z.to_nat n) seg) in
           run_ret (Z.of_nat (length seg))
  end.

Definition read_local (offset len : Z) : Run (list Z) :=
  let! seg := lock_segment in
  match u64_add offset len with
  | None => panic_locked
  | Some e => if Z.of_nat (length seg) <? e then panic_locked else run_ret (slice (Z.to_nat offset) (Z.to_nat len) seg)
  end.

Definition open_segment (name : string) : Run (result TransferError Z) := λ st,
  match get_segment name (w_meta st.2) with
  | None => (Done (Err TeNotFound), st)
  | Some desc =>
      let e := st.1 in
      let id := next_seg e in
      (Done (Ok id),
       (mkEngine (local_name e) (te_segment e) (te_multi e) (next_batch e) (batches e)
          (<[id := (sd_protocol desc, sd_endpoint desc)]> (segment_cache e)) (id + 1), st.2))
  end.

Definition set_batches (b : gmap Z TransferStatus) (e : TransferEngine) : TransferEngine :=
  mkEngine (local_name e) (te_segment e) (te_multi e) (next_batch e) b (segment_cache e) (next_seg e).

Definition allocate_batch_id : Run Z :=
  let! e := get_engine in
  let id := next_batch e in
  let! _ := set_engine (mkEngine (local_name e) (te_segment e) (te_multi e) (id + 1)
                          (<[id := mkTransferStatus StWaiting 0]> (batches e)) (segment_cache e) (next_seg e)) in
  run_ret id.

(** One request of a batch. *)
Definition submit_one (req : TransferRequest) : Run (result TransferError unit) :=
  let! e := get_engine in
  match segment_cache e !! target_id req with
  | None => run_ret (Err TeBadSegment)
  | Some (protocol, endpoint) =>
  match multi_select protocol (te_multi e) with
  | None => run_ret (Err (TeUnsupported "no transport for protocol"))
  | Some transport =>
  match opcode req with
  | OpRead =>
      try! bytes := on_net (read_remote transport endpoint (target_offset req) (req_length req)) in
      let! seg := lock_segment in
      match u64_add (source_offset req) (req_length req) with
      | None => panic_locked
      | Some e =>
          if Z.of_nat (length seg) <? e then run_ret (Err (TeProtocol "local source buffer too small for READ"))
          else if negb (Z.of_nat (length bytes) =? req_length req) then panic_locked
          else let! _ := store_segment (splice (Z.to_nat (source_offset req)) bytes seg) in
               run_ret (Ok tt)
      end
  | OpWrite =>
      let! seg := lock_segment in
      match u64_add (source_offset req) (req_length req) with
      | None => panic_locked
      | Some e =>
          if Z.of_nat (length seg) <? e then run_ret (Err (TeProtocol "local source buffer too small for WRITE"))
          else on_net (write_remote transport endpoint (target_offset req) (slice (Z.to_nat (source_offset req)) (Z.to_nat (req_length req)) seg))
      end
  end end end.

(** The loop over the batch, with the bytes transferred so far. *)
Fixpoint submit_loop (transferred : Z) (requests : list TransferRequest) : Run (result TransferError Z) :=
  match requests with
  | [] => run_ret (Ok transferred)
  | req :: requests =>
      try! _ := submit_one req in
      match u64_add transferred (req_length req) with
      | None => λ st, (Panic, st)
      | Some transferred => submit_loop transferred requests
      end
  end.

Definition submit_transfer (batch : Z) (requests : list TransferRequest) : Run (result TransferError unit) :=
  try! transferred := submit_loop 0 requests in
  let! e := get_engine in
  let! _ := set_engine (set_batches (<[batch := mkTransferStatus StCompleted transferred]> (batches e)) e) in
  run_ret (Ok tt).

Definition get_transfer_status (batch : Z) : Run (option TransferStatus) :=
  let! e := get_engine in run_ret (batches e !! batch).

Definition free_batch_id (batch : Z) : Run unit :=
  let! e := get_engine in set_engine (set_batches (delete batch (batches e)) e).
End engine.

Notation "'let!' x := m 'in' k" := (run_bind m (λ x, k)) (at level 200, x binder, right associativity).
Notation "'try!' x := m 'in' k" := (run_try m (λ x, k)) (at level 200, x binder, right associativity).

(** ** Lemmas: the operations on a live engine *)

Section lemmas.
Context {M : Type} `{MetadataBackend M} `{IoMessages}.
Implicit Types (e : TransferEngine) (w : World M) (net : Net).

(** The contents of a node's arena, when it is up and not poisoned. *)
Definition live net (ep : string) : option (list Z) :=
  s ← net !! ep; if (seg_poisoned s : bool) || (isize_max <? Z.of_nat (length (seg_bytes s))) then None else Some (seg_bytes s).

Lemma live_Some net ep l : live net ep = Some l ↔ net !! ep = Some (mkSegment l false) ∧ Z.of_nat (length l) ≤ isize_max.
Proof.
  unfold live. split.
  - intros ([b p] & Hs & Hb)%bind_Some. destruct p; [done|]. cbn in Hb. destruct (Z.ltb_spec isize_max (Z.of_nat (length b))); [done|]. by injection Hb as ->.
  - intros [-> Hl]. cbn. by rewrite (proj2 (Z.ltb_ge _ _)) by lia.
Qed.

Lemma live_insert net ep l : Z.of_nat (length l) ≤ isize_max → live (<[ep := mkSegment l false]> net) ep = Some l.
Proof. intros Hl. apply live_Some. by rewrite lookup_insert_eq. Qed.
Lemma live_insert_ne net ep ep' s : ep ≠ ep' → live (<[ep := s]> net) ep' = live net ep'.
Proof. intros Hne. unfold live. by rewrite lookup_insert_ne. Qed.

Lemma lock_segment_ok e w l : live (w_net w) (te_segment e) = Some l → lock_segment (e, w) = (Done l, (e, w)).
Proof. intros [Hl _]%live_Some. unfold lock_segment. cbn. by rewrite Hl. Qed.

Definition put_net net w : World M := mkWorld net (w_meta w).

Lemma register_local_memory_ok e w l data :
  live (w_net w) (te_segment e) = Some l → Z.of_nat (length l + length data) ≤ isize_max →
  register_local_memory data (e, w)
  = (Done (Z.of_nat (length l)), (e, put_net (<[te_segment e := mkSegment (l ++ data) false]> (w_net w)) w)).
Proof.
  intros Hl Hd. unfold register_local_memory, run_bind. rewrite (lock_segment_ok _ _ _ Hl). by rewrite (proj2 (Z.ltb_ge _ _)) by lia.
Qed.

Lemma register_zeroed_ok e w l n :
  live (w_net w) (te_segment e) = Some l → 0 ≤ n → Z.of_nat (length l) + n ≤ isize_max →
  register_zeroed n (e, w)
  = (Done (Z.of_nat (length l)), (e, put_net (<[te_segment e := mkSegment (l ++ replicate (Z.to_nat n) 0) false]> (w_net w)) w)).
Proof.
  intros Hl Hn Hd. unfold register_zeroed, run_bind. rewrite (lock_segment_ok _ _ _ Hl). rewrite u64_add_ok by (unfold u64_max, isize_max in *; lia).
  rewrite (proj2 (Z.ltb_ge _ _)) by lia. unfold store_segment, run_ret, grow_to, put_net. cbn [fst snd]. do 6 f_equal. f_equal. f_equal. lia.
Qed.

Lemma read_local_ok e w l o n :
  live (w_net w) (te_segment e) = Some l → 0 ≤ o → 0 ≤ n → o + n ≤ Z.of_nat (length l) →
  read_local o n (e, w) = (Done (slice (Z.to_nat o) (Z.to_nat n) l), (e, w)).
Proof.
  intros Hl Ho Hn Hd. pose proof (proj2 (proj1 (live_Some _ _ _) Hl)). unfold read_local, run_bind. rewrite (lock_segment_ok _ _ _ Hl).
  rewrite u64_add_ok by (unfold u64_max, isize_max in *; lia). by rewrite (proj2 (Z.ltb_ge _ _)) by lia.
Qed.

(** ** What a batch does, on byte memories *)

Definition is_local (e : TransferEngine) (req : TransferRequest) (l : list Z) : bool :=
  (0 <=? source_offset req) && (0 <=? req_length req) && (0 <=? target_offset req) && (source_offset req + req_length req <=? Z.of_nat (length l)).

(** One request as a copy between two memories; [None] where it is not one. *)
Definition move (e : TransferEngine) (req : TransferRequest) net : option Net :=
  '(protocol, ep) ← segment_cache e !! target_id req;
  l ← live net (te_segment e);
  r ← live net ep;
  if negb (bool_decide (protocol = "tcp"%string) && is_local e req l) then None
  else match opcode req with
       | OpWrite =>
           let data := slice (Z.to_nat (source_offset req)) (Z.to_nat (req_length req)) l in
           if isize_max <? target_offset req + req_length req then None
           else Some (<[ep := mkSegment (mem_write (target_offset req) data r) false]> net)
       | OpRead =>
           bytes ← mem_read (target_offset req) (req_length req) r;
           Some (<[te_segment e := mkSegment (mem_write (source_offset req) bytes l) false]> net)
       end.

Fixpoint moves (e : TransferEngine) (reqs : list TransferRequest) net : option Net :=
  match reqs with [] => Some net | req :: reqs => net ← move e req net; moves e reqs net end.

(** The engine has its TCP transport, as [init] leaves it. *)
Definition has_tcp e : Prop := multi_select "tcp" (te_multi e) = Some TcpTransport.

Lemma is_local_spec e req l :
  is_local e req l = true ↔ 0 ≤ source_offset req ∧ 0 ≤ req_length req ∧ 0 ≤ target_offset req ∧ source_offset req + req_length req ≤ Z.of_nat (length l).
Proof. unfold is_local. rewrite !andb_true_iff, !Z.leb_le. tauto. Qed.

Lemma mem_read_length o n m bs : 0 ≤ o → 0 ≤ n → mem_read o n m = Some bs → Z.of_nat (length bs) = n ∧ o + n ≤ Z.of_nat (length m).
Proof.
  intros Ho Hn. unfold mem_read. destruct (Z.leb_spec (o + n) (Z.of_nat (length m))); [|done]. intros [= <-]. rewrite slice_length; lia.
Qed.

Lemma mem_write_inside o bs m : 0 ≤ o → o + Z.of_nat (length bs) ≤ Z.of_nat (length m) → mem_write o bs m = splice (Z.to_nat o) bs m.
Proof. intros Ho Hle. unfold mem_write, grow_to. replace (_ - length m)%nat with 0%nat by lia. by rewrite app_nil_r. Qed.

Lemma submit_one_ok e w req net' :
  has_tcp e → move e req (w_net w) = Some net' → submit_one req (e, w) = (Done (Ok tt), (e, put_net net' w)).
Proof.
  intros Ht ([protocol ep] & Hc & (l & Hl & (r & Hr & Hm)%bind_Some)%bind_Some)%bind_Some.
  destruct (bool_decide (protocol = "tcp"%string) && is_local e req l) eqn:Hg; [|done]. cbn [negb] in Hm.
  apply andb_true_iff in Hg as [->%bool_decide_eq_true Hlocal]. apply is_local_spec in Hlocal as (Hs & Hn & Ht0 & Hsl).
  pose proof (proj1 (live_Some _ _ _) Hl) as [Hl1 Hl2]. pose proof (proj1 (live_Some _ _ _) Hr) as [Hr1 Hr2].
  assert (u64_add (source_offset req) (req_length req) = Some (source_offset req + req_length req)) as Hadd
    by (apply u64_add_ok; unfold u64_max, isize_max in *; lia).
  unfold submit_one, run_bind at 1. unfold get_engine. cbn [fst]. rewrite Hc, Ht. destruct (opcode req).
  - apply bind_Some in Hm as (bs & Hbs & [= <-]). pose proof (mem_read_length _ _ _ _ Ht0 Hn Hbs) as [Hlen Hin].
    unfold run_try, run_bind, on_net. cbn [snd fst read_remote TcpTransport].
    rewrite (tcp_read_ok ep _ _ r) by (done || unfold is_u64, u64_max, isize_max in *; lia). rewrite Hbs. cbn [fst snd].
    rewrite (lock_segment_ok e (mkWorld (w_net w) (w_meta w)) l Hl). rewrite Hadd. rewrite (proj2 (Z.ltb_ge _ _)) by lia. rewrite Hlen, Z.eqb_refl. cbn [negb].
    rewrite mem_write_inside by lia. done.
  - destruct (Z.ltb_spec isize_max (target_offset req + req_length req)); [done|]. injection Hm as <-.
    unfold run_bind. rewrite (lock_segment_ok e w l Hl). rewrite Hadd. rewrite (proj2 (Z.ltb_ge _ _)) by lia.
    unfold on_net. cbn [snd fst write_remote TcpTransport]. rewrite (tcp_write_ok ep _ _ r); [done|lia| |done|done]. rewrite slice_length; lia.
Qed.

Lemma submit_loop_ok e w reqs net' t :
  has_tcp e → moves e reqs (w_net w) = Some net' → Forall (λ r, 0 ≤ req_length r) reqs → 0 ≤ t →
  t + foldr Z.add 0 (req_length <$> reqs) ≤ u64_max →
  submit_loop t reqs (e, w) = (Done (Ok (t + foldr Z.add 0 (req_length <$> reqs))), (e, put_net net' w)).
Proof.
  intros Ht. revert w t. induction reqs as [|req reqs IH]; intros w t Hm Hpos Ht0 Hsum; cbn [moves submit_loop fmap list_fmap foldr] in *.
  { injection Hm as <-. unfold run_ret, put_net. rewrite Z.add_0_r. by destruct w. }
  apply bind_Some in Hm as (net1 & Hmove & Hm). apply Forall_cons in Hpos as [Hn Hpos].
  assert (0 ≤ foldr Z.add 0 (req_length <$> reqs)) as Hrest by (apply foldr_add_nonneg; by apply Forall_fmap).
  unfold run_try, run_bind. rewrite (submit_one_ok e w req net1 Ht Hmove). rewrite u64_add_ok by (cbn in *; lia).
  rewrite (IH (put_net net1 w)) by (done || cbn in *; lia). do 3 f_equal. cbn. lia.
Qed.

Lemma submit_transfer_ok e w batch reqs net' :
  has_tcp e → moves e reqs (w_net w) = Some net' → Forall (λ r, 0 ≤ req_length r) reqs → foldr Z.add 0 (req_length <$> reqs) ≤ u64_max →
  submit_transfer batch reqs (e, w)
  = (Done (Ok tt), (set_batches (<[batch := mkTransferStatus StCompleted (foldr Z.add 0 (req_length <$> reqs))]> (batches e)) e, put_net net' w)).
Proof.
  intros Ht Hm Hpos Hsum. unfold submit_transfer, run_try, run_bind at 1. rewrite (submit_loop_ok e w reqs net' 0) by done. done.
Qed.

(** An operation that leaves the engine's own fields alone. *)
Definition keeps_engine {A} (m : Run (M := M) A) : Prop := ∀ e w, (m (e, w)).2.1 = e.

Lemma keeps_bind {A B} (m : Run A) (k : A → Run B) : keeps_engine m → (∀ a, keeps_engine (k a)) → keeps_engine (run_bind m k).
Proof. intros Hm Hk e w. unfold run_bind. pose proof (Hm e w) as E. destruct (m (e, w)) as [[a|] [e' w']]; cbn in E; subst e'; [apply Hk|done]. Qed.
Lemma keeps_try {A B} (m : Run (result TransferError A)) (k : A → Run (result TransferError B)) :
  keeps_engine m → (∀ a, keeps_engine (k a)) → keeps_engine (run_try m k).
Proof. intros Hm Hk. apply keeps_bind; [done|]. intros [a|x]; [apply Hk|]. by intros e w. Qed.
Lemma keeps_lock : keeps_engine lock_segment.
Proof. intros e w. unfold lock_segment. by destruct (_ !! _) as [[? []]|]. Qed.
Lemma keeps_net {A} f : keeps_engine (on_net (A := A) f).
Proof. intros e w. unfold on_net. by destruct (f _). Qed.

Lemma keeps_submit_one req : keeps_engine (submit_one req).
Proof.
  apply keeps_bind; [by intros e w|]. intros e0. destruct (segment_cache e0 !! _) as [[p ep]|]; [|by intros e w].
  destruct (multi_select p _); [|by intros e w]. destruct (opcode req).
  - apply keeps_try; [apply keeps_net|]. intros bs. apply keeps_bind; [apply keeps_lock|]. intros seg.
    destruct (u64_add _ _); [|by intros e w]. destruct (_ <? _); [by intros e w|]. destruct (negb _); [by intros e w|].
    apply keeps_bind; by intros.
  - apply keeps_bind; [apply keeps_lock|]. intros seg. destruct (u64_add _ _); [|by intros e w].
    destruct (_ <? _); [by intros e w|apply keeps_net].
Qed.

Lemma keeps_submit_loop t reqs : keeps_engine (submit_loop t reqs).
Proof.
  revert t. induction reqs as [|req reqs IH]; intros t; [by intros e w|]. apply keeps_try; [apply keeps_submit_one|].
  intros _. destruct (u64_add _ _); [apply IH|by intros e w].
Qed.
End lemmas.

(** ** Theorems *)

Section theorems.
Context {M : Type} `{MetadataBackend M} `{IoMessages}.
Implicit Types (e : TransferEngine) (w : World M).

(** C25 A batch of reads and writes whose ranges are in bounds copies, request by request, exactly the bytes its requests
    name between this node's arena and the peers' (itself included), through the wire protocol; the call succeeds without a panic,
    every other node keeps its bytes, and the batch is reported completed with the sum of the lengths. *)
Theorem submit_transfer_refines e w batch reqs net' :
  has_tcp e → moves e reqs (w_net w) = Some net' → Forall (λ r, 0 ≤ req_length r) reqs → foldr Z.add 0 (req_length <$> reqs) ≤ u64_max →
  ∃ e', submit_transfer batch reqs (e, w) = (Done (Ok tt), (e', mkWorld net' (w_meta w)))
    ∧ batches e' = <[batch := mkTransferStatus StCompleted (foldr Z.add 0 (req_length <$> reqs))]> (batches e)
    ∧ segment_cache e' = segment_cache e ∧ next_batch e' = next_batch e.
Proof.
  intros Ht Hm Hpos Hsum. eexists. split; [by apply submit_transfer_ok|]. done.
Qed.

(** A batch that returns an error, or panics, leaves the engine's tables as they were: whatever its earlier requests
    already copied, the batch is still reported in the state it had before the call. *)
Theorem submit_error_keeps_status e w batch reqs r st' :
  submit_transfer batch reqs (e, w) = (r, st') → r ≠ Done (Ok tt) → st'.1 = e.
Proof.
  unfold submit_transfer, run_try. unfold run_bind at 1. pose proof (keeps_submit_loop (M := M) 0 reqs e w) as Hk.
  destruct (submit_loop 0 reqs (e, w)) as [[[t|x]|] [e' w']]; cbn in Hk; subst e'.
  - cbn. intros [= <- <-] Hne. done.
  - cbn. intros [= <- <-] _. done.
  - intros [= <- <-] _. done.
Qed.

(** The calls a user of the engine makes. *)
Inductive TeOp : Type :=
| TeRegister (data : list Z)
| TeZeroed (len : Z)
| TeReadLocal (offset len : Z)
| TeOpen (name : string)
| TeAllocate
| TeSubmit (batch : Z) (reqs : list TransferRequest)
| TeFree (batch : Z).

Definition te_step (st : TransferEngine * World M) (op : TeOp) : TransferEngine * World M :=
  match op with
  | TeRegister data => (register_local_memory data st).2
  | TeZeroed len => (register_zeroed len st).2
  | TeReadLocal offset len => (read_local offset len st).2
  | TeOpen name => (open_segment name st).2
  | TeAllocate => (allocate_batch_id st).2
  | TeSubmit batch reqs => (submit_transfer batch reqs st).2
  | TeFree batch => (free_batch_id batch st).2
  end.

Record te_inv e : Prop := {
  te_states : ∀ b s, batches e !! b = Some s → ts_state s = StWaiting ∧ transferred_bytes s = 0 ∨ ts_state s = StCompleted;
  te_handles : ∀ id, is_Some (segment_cache e !! id) → 1 ≤ id < next_seg e;
  te_next : 1 ≤ next_seg e
}.

Lemma te_inv_batches e b : te_inv e → (∀ k s, b !! k = Some s → ts_state s = StWaiting ∧ transferred_bytes s = 0 ∨ ts_state s = StCompleted) → te_inv (set_batches b e).
Proof. intros [? ? ?] Hb. by split. Qed.

Lemma te_step_inv st op : te_inv st.1 → te_inv (te_step st op).1.
Proof.
  destruct st as [e w]. intros Hi. cbn [fst] in Hi.
  assert (∀ A (m : Run (M := M) A), keeps_engine m → te_inv (m (e, w)).2.1) as Hkeep by (intros A m ->; done).
  destruct op as [data|len|o n|name| |batch reqs|batch]; cbn [te_step].
  - apply (Hkeep _ (register_local_memory data)). apply keeps_bind; [apply keeps_lock|]. intros seg. destruct (_ <? _); [by intros ? ?|]. by apply keeps_bind; intros.
  - apply (Hkeep _ (register_zeroed len)). apply keeps_bind; [apply keeps_lock|]. intros seg. destruct (u64_add _ _); [|by intros ? ?]. destruct (_ <? _); [by intros ? ?|]. by apply keeps_bind; intros.
  - apply (Hkeep _ (read_local o n)). apply keeps_bind; [apply keeps_lock|]. intros seg. destruct (u64_add _ _); [|by intros ? ?]. destruct (_ <? _); by intros ? ?.
  - unfold open_segment. destruct (get_segment name _); [|done]. cbn. destruct Hi as [Hs Hh Hn]. split; cbn; [done| |lia].
    intros id [<-|Hid]%lookup_insert_is_Some'; [lia|]. specialize (Hh _ Hid). lia.
  - destruct Hi as [Hs Hh Hn]. split; cbn; [|done..]. intros b s [(<- & <-)|(_ & Hb)]%lookup_insert_Some; [by left|by eapply Hs].
  - destruct (submit_transfer batch reqs (e, w)) as [r [e' w']] eqn:Hr. pose proof Hr as Hr0. unfold submit_transfer, run_try in Hr0. unfold run_bind at 1 in Hr0.
    pose proof (keeps_submit_loop (M := M) 0 reqs e w) as Hk. destruct (submit_loop 0 reqs (e, w)) as [[[t|x]|] [e1 w1]]; cbn in Hk; subst e1.
    + cbn in Hr0. injection Hr0 as <- <- <-. cbn. apply te_inv_batches; [done|]. intros b s [(<- & <-)|(_ & Hb)]%lookup_insert_Some; [by right|by eapply Hi].
    + cbn in Hr0. by injection Hr0 as <- <- <-.
    + by injection Hr0 as <- <- <-.
  - cbn. apply te_inv_batches; [done|]. intros b s (_ & Hb)%lookup_delete_Some. by eapply Hi.
Qed.

(** Through any sequence of calls a batch is only ever waiting with no bytes, or completed: no call records the
    states pending, failed or timed out; and every handle of the segment table is one the engine has given out. *)
Theorem batch_lifecycle ops name endpoint w :
  let e := (foldl te_step (te_init name endpoint w) ops).1 in
  (∀ b s, batches e !! b = Some s → ts_state s = StWaiting ∧ transferred_bytes s = 0 ∨ ts_state s = StCompleted)
  ∧ (∀ id, is_Some (segment_cache e !! id) → 1 ≤ id < next_seg e).
Proof.
  assert (∀ ops st, te_inv st.1 → te_inv (foldl te_step st ops).1) as Hall.
  { clear. induction ops as [|op ops IH]; intros st Hst; [done|]. apply IH. by apply te_step_inv. }
  destruct (Hall ops (te_init name endpoint w)) as [Hs Hh _]; [|by split].
  split; cbn; [by intros b s|by intros id []|done].
Qed.
End theorems.

(** ** A run: two nodes *)

#[local] Instance ex_messages : IoMessages := {| connection_refused := "Connection refused"; unexpected_eof := "unexpected end of file" |}.
#[local] Instance ex_iter : HashIter := canonical_iter.

Definition tex_a : TransferEngine * World InMemoryMetadata := te_init "A" "127.0.0.1:1" (mkWorld ∅ in_memory_new).
Definition tex_b : TransferEngine * World InMemoryMetadata := te_init "B" "127.0.0.1:2" (register_local_memory [1; 2; 3; 4] tex_a).2.2.
(** B opens A's segment and reserves two bytes. *)
Definition tex_ready : TransferEngine * World InMemoryMetadata := (register_zeroed 2 (open_segment "A" tex_b).2).2.
Definition tex_reqs : list TransferRequest := [mkTransferRequest OpRead 0 1 1 2; mkTransferRequest OpWrite 0 1 6 2].

Lemma submit_transfer_refines_witness :
  ∃ st', submit_transfer 7 tex_reqs tex_ready = (Done (Ok tt), st')
    ∧ live (w_net st'.2) "127.0.0.1:1" = Some [1; 2; 3; 4; 0; 0; 2; 3] ∧ batches st'.1 !! 7 = Some (mkTransferStatus StCompleted 4).
Proof.
  assert (moves tex_ready.1 tex_reqs (w_net tex_ready.2) = Some (default ∅ (moves tex_ready.1 tex_reqs (w_net tex_ready.2)))) as Hm by run.
  destruct (submit_transfer_refines tex_ready.1 tex_ready.2 7 tex_reqs _ ltac:(done) Hm ltac:(repeat (apply Forall_cons; split); try (by cbn); by apply Forall_nil) ltac:(by vm_compute))
    as (e' & Hrun & Hb & _).
  eexists. split; [exact Hrun|]. split; [vm_compute; reflexivity|]. cbn [fst]. rewrite Hb. vm_compute. reflexivity.
Defined.

(** The second request of the batch has an unknown handle: the first was carried out, the status stays. *)
Definition tex_bad : list TransferRequest := [mkTransferRequest OpRead 0 1 1 2; mkTransferRequest OpWrite 0 9 6 2].
Definition tex_waiting : TransferEngine * World InMemoryMetadata := (allocate_batch_id tex_ready).2.
Lemma tex_bad_result : (submit_transfer 1 tex_bad tex_waiting).1 = Done (Err TeBadSegment).
Proof. vm_compute. reflexivity. Qed.
Lemma submit_error_keeps_status_witness :
  batches (submit_transfer 1 tex_bad tex_waiting).2.1 !! 1 = Some (mkTransferStatus StWaiting 0).
Proof.
  rewrite (submit_error_keeps_status tex_waiting.1 tex_waiting.2 1 tex_bad (submit_transfer 1 tex_bad tex_waiting).1 (submit_transfer 1 tex_bad tex_waiting).2).
  - vm_compute. reflexivity.
  - destruct tex_waiting as [e w]. cbn [fst snd]. apply surjective_pairing.
  - rewrite tex_bad_result. discriminate.
Defined.
