(* ===== verification/Client.v ===== *)
(** * The store clients

    crates/quillcache-store/src/client.rs: the two clients that drive the master's two-phase
    put and guarded get and move the bytes: [DummyClient] in local arenas, [RealClient] over
    the transfer engine to the arenas of storage nodes. *)
From S2P Require Import Prelude F64 BufferAllocator OffsetAllocator Identity ShardedMap CountMin StoreTypes Strategy OpLog Master Router RouterPlan TransferTypes TcpTransport TransferEngine.

(** [first_memory_buffer]: the first replica that is in memory. *)
Fixpoint first_memory_buffer (replicas : list Replica) : result ErrorCode AllocatedBuffer :=
  match replicas with
  | [] => Err InvalidReplica
  | r :: replicas => match rep_data r with Memory b => Ok b | Disk _ _ => first_memory_buffer replicas end
  end.

Section clients.
Context `{HashIter} `{KeyHash} `{EntryCodec}.

(** ** [DummyClient] *)

Record DummyClient : Type := mkDummy { dc_master : MasterService; arenas : gmap string (list Z) }.

Definition dummy_new (strategy : string) : DummyClient := mkDummy (master_new strategy) ∅.

(** [vec![0u8; capacity]] panics past [isize::MAX]. *)
Definition dummy_mount (name : string) (cap : Z) (c : DummyClient) : option DummyClient :=
  m ← mount_segment name cap (dc_master c);
  if isize_max <? cap then None
  else Some (mkDummy m (<[name := replicate (Z.to_nat cap) 0]> (arenas c))).

(** The loop of [put] over the buffers: [arena[start..end].copy_from_slice(data)] panics when
    the range is not in the arena or has another length than the data. *)
Fixpoint write_arenas (data : list Z) (buffers : list AllocatedBuffer) (ars : gmap string (list Z))
    : option (result ErrorCode unit * gmap string (list Z)) :=
  match buffers with
  | [] => Some (Ok tt, ars)
  | b :: buffers =>
      match ars !! buf_segment_name b with
      | None => Some (Err SegmentNotFound, ars)
      | Some arena =>
          e ← u64_add (buf_offset b) (buf_size b);
          if (Z.of_nat (length arena) <? e) || negb (buf_size b =? Z.of_nat (length data)) then None
          else write_arenas data buffers (<[buf_segment_name b := splice (Z.to_nat (buf_offset b)) data arena]> ars)
      end
  end.

Definition dummy_put (key : string) (identity : IdentityScope) (data : list Z) (config : ReplicateConfig) (c : DummyClient)
    : option (result ErrorCode unit * DummyClient) :=
  '(r, m) ← put_start key identity (Z.of_nat (length data)) config (dc_master c);
  match r with
  | Err e => Some (Err e, mkDummy m (arenas c))
  | Ok buffers =>
      '(w, ars) ← write_arenas data buffers (arenas c);
      match w with
      | Err e => Some (Err e, mkDummy m ars)
      | Ok _ => '(r, m) ← put_end key m; Some (r, mkDummy m ars)
      end
  end.

Definition dummy_get (key : string) (identity : IdentityScope) (c : DummyClient) : option (result ErrorCode (list Z) * DummyClient) :=
  '(r, m) ← get_replica_list key identity (dc_master c);
  let c := mkDummy m (arenas c) in
  match r with
  | Err e => Some (Err e, c)
  | Ok replicas =>
      match first_memory_buffer replicas with
      | Err e => Some (Err e, c)
      | Ok b =>
          match arenas c !! buf_segment_name b with
          | None => Some (Err SegmentNotFound, c)
          | Some arena =>
              e ← u64_add (buf_offset b) (buf_size b);
              if Z.of_nat (length arena) <? e then None
              else Some (Ok (slice (Z.to_nat (buf_offset b)) (Z.to_nat (buf_size b)) arena), c)
          end
      end
  end.

Definition dummy_remove (key : string) (force : bool) (c : DummyClient) : option (result ErrorCode unit * DummyClient) :=
  '(r, m) ← remove key force (dc_master c); Some (r, mkDummy m (arenas c)).

Definition dummy_exist (key : string) (c : DummyClient) : option (bool * DummyClient) :=
  '(r, m) ← exist_key key (dc_master c); Some (r, mkDummy m (arenas c)).

(** ** [RealClient] *)

Context {M : Type} `{MetadataBackend M} `{IoMessages}.

(** The client's engine, and the world its transfers change. *)
Record RealClient : Type := mkReal { rc_master : MasterService; rc_engine : TransferEngine; rc_world : World M }.

Definition real_new (strategy : string) (e : TransferEngine) (w : World M) : RealClient := mkReal (master_new strategy) e w.

Definition real_mount (name : string) (cap : Z) (c : RealClient) : option RealClient :=
  m ← mount_segment name cap (rc_master c); Some (mkReal m (rc_engine c) (rc_world c)).

(** [map_err]. *)
Definition map_err {A} (f : TransferError → ErrorCode) (r : result TransferError A) : result ErrorCode A :=
  match r with Ok a => Ok a | Err e => Err (f e) end.

(** [open_segment] with its error mapped: the rest runs only on success. *)
Definition with_segment {A} (name : string) (k : Z → Run (M := M) (result ErrorCode A)) : Run (M := M) (result ErrorCode A) :=
  let! r := open_segment name in
  match map_err (λ _, SegmentNotFound) r with Err e => run_ret (Err e) | Ok segment => k segment end.

(** Stage the data locally and WRITE it to one replica's buffer. *)
Definition push_buffer (data : list Z) (b : AllocatedBuffer) : Run (M := M) (result ErrorCode unit) :=
  with_segment (buf_segment_name b) (λ segment,
    let! source := register_local_memory data in
    let! batch := allocate_batch_id in
    let! r := submit_transfer batch [mkTransferRequest OpWrite source segment (buf_offset b) (buf_size b)] in
    match map_err (λ _, BufferOverflow) r with
    | Err e => run_ret (Err e)
    | Ok _ => let! _ := free_batch_id batch in run_ret (Ok tt)
    end).

Fixpoint push_buffers (data : list Z) (buffers : list AllocatedBuffer) : Run (M := M) (result ErrorCode unit) :=
  match buffers with
  | [] => run_ret (Ok tt)
  | b :: buffers =>
      let! r := push_buffer data b in
      match r with Err e => run_ret (Err e) | Ok _ => push_buffers data buffers end
  end.

Definition pull_buffer (b : AllocatedBuffer) : Run (M := M) (result ErrorCode (list Z)) :=
  with_segment (buf_segment_name b) (λ segment,
    let! dest := register_zeroed (buf_size b) in
    let! batch := allocate_batch_id in
    let! r := submit_transfer batch [mkTransferRequest OpRead dest segment (buf_offset b) (buf_size b)] in
    match map_err (λ _, BufferOverflow) r with
    | Err e => run_ret (Err e)
    | Ok _ => let! _ := free_batch_id batch in let! bytes := read_local dest (buf_size b) in run_ret (Ok bytes)
    end).

(** Run engine code on the client's fields. *)
Definition on_engine {A} (m : MasterService) (run : Run (M := M) A) (c : RealClient) : outcome A * RealClient :=
  let '(r, st) := run (rc_engine c, rc_world c) in (r, mkReal m st.1 st.2).

(** A panic of the master: the client is as it was. *)
Definition real_put (key : string) (identity : IdentityScope) (data : list Z) (config : ReplicateConfig) (c : RealClient)
    : outcome (result ErrorCode unit) * RealClient :=
  match put_start key identity (Z.of_nat (length data)) config (rc_master c) with
  | None => (Panic, c)
  | Some (Err e, m) => (Done (Err e), mkReal m (rc_engine c) (rc_world c))
  | Some (Ok buffers, m) =>
      match on_engine m (push_buffers data buffers) c with
      | (Done (Ok _), c) =>
          match put_end key m with
          | None => (Panic, c)
          | Some (r, m) => (Done r, mkReal m (rc_engine c) (rc_world c))
          end
      | (Done (Err e), c) => (Done (Err e), c)
      | (Panic, c) => (Panic, c)
      end
  end.

Definition real_get (key : string) (identity : IdentityScope) (c : RealClient) : outcome (result ErrorCode (list Z)) * RealClient :=
  match get_replica_list key identity (rc_master c) with
  | None => (Panic, c)
  | Some (Err e, m) => (Done (Err e), mkReal m (rc_engine c) (rc_world c))
  | Some (Ok replicas, m) =>
      match first_memory_buffer replicas with
      | Err e => (Done (Err e), mkReal m (rc_engine c) (rc_world c))
      | Ok b => on_engine m (pull_buffer b) c
      end
  end.
End clients.
