(* ===== verification/ClientTheorems.v ===== *)
(** * Properties of the store clients

    In every state either client can reach, a get returns the bytes of the last put of its
    key, under the identity that put them, and nothing panics.

    What the clients' memory holds.

    The link between the master's records and the bytes of the segments: every complete
    replica's buffer holds the data of the last put of its key ([content]).  It is stated
    over any memory of the segments, so the two clients share it. *)
From S2P Require Import Prelude F64 BufferAllocator OffsetAllocator Identity ShardedMap CountMin StoreTypes Strategy OpLog Master SegmentLedger MasterInv MasterEvict MasterOps MasterSegments Recovery MasterSteps MasterTheorems Router RouterPlan TransferTypes TcpTransport TransferEngine Client.

(** What was put under each key, and by whom. *)
Notation Written := (gmap string (IdentityScope * list Z)).

Section content.
Context `{HashIter} `{KeyHash} `{EntryCodec} `{RegexEngine}.
Implicit Types (m : MasterService) (mem : string → option (list Z)) (W : Written).

Definition content m mem W : Prop :=
  ∀ k o id r, view m !! k = Some o → obj_replicas o !! id = Some r → rep_status r = Complete →
  ∃ b l data, rep_data r = Memory b ∧ mem (buf_segment_name b) = Some l ∧ W !! k = Some (obj_identity o, data)
    ∧ mem_read (buf_offset b) (buf_size b) l = Some data.

(** [data] was stored in every buffer, each on a segment of its own. *)
Definition stored (data : list Z) (bs : list AllocatedBuffer) mem mem' : Prop :=
  (∀ n, n ∉ buf_segment_name <$> bs → mem' n = mem n)
  ∧ ∀ b, b ∈ bs → ∃ l, mem (buf_segment_name b) = Some l ∧ mem' (buf_segment_name b) = Some (mem_write (buf_offset b) data l).

(** The buffers of [bs] are clear of every complete replica of [m]. *)
Definition clear_of m (data : list Z) (bs : list AllocatedBuffer) : Prop :=
  Forall (λ b, 0 ≤ buf_offset b ∧ buf_size b = Z.of_nat (length data)) bs
  ∧ ∀ k o id r b' b, view m !! k = Some o → obj_replicas o !! id = Some r → rep_status r = Complete → rep_data r = Memory b' →
      b ∈ bs → buf_segment_name b' = buf_segment_name b →
      0 ≤ buf_offset b' ∧ 0 ≤ buf_size b' ∧ buffers_disjoint (buf_offset b') (buf_size b') (buf_offset b) (buf_size b).

Lemma content_stored m mem mem' W data bs :
  content m mem W → clear_of m data bs → stored data bs mem mem' →
  content m mem' W ∧ ∀ b, b ∈ bs → ∃ l, mem' (buf_segment_name b) = Some l ∧ mem_read (buf_offset b) (buf_size b) l = Some data.
Proof.
  intros Hc [Hall Hdis] [Hout Hin]. rewrite Forall_forall in Hall. split.
  - intros k o id r Hk Hi Hs. destruct (Hc k o id r Hk Hi Hs) as (b & l & d & Hb & Hl & HW & Hr).
    destruct (decide (buf_segment_name b ∈ buf_segment_name <$> bs)) as [Hn|Hn].
    + apply list_elem_of_fmap in Hn as (b' & Hn & Hb'). destruct (Hin _ Hb') as (l' & Hl' & Hm'). rewrite <- Hn, Hl in Hl'. injection Hl' as <-.
      destruct (Hdis k o id r b b' Hk Hi Hs Hb Hb' Hn) as (Ho & Hz & Hd). destruct (Hall _ Hb') as [Ho' Hz'].
      exists b, (mem_write (buf_offset b') data l), d. split_and!; [done|by rewrite Hn|done|]. rewrite <- Hr. apply mem_read_write_disjoint; try done.
      * unfold buffers_disjoint in Hd. rewrite Hz' in Hd. tauto.
      * unfold mem_read in Hr. by destruct (Z.leb_spec (buf_offset b + buf_size b) (Z.of_nat (length l))).
    + exists b, l, d. split_and!; [done|by rewrite Hout|done..].
  - intros b Hb. destruct (Hin _ Hb) as (l & _ & Hm'). destruct (Hall _ Hb) as [Ho Hz]. exists (mem_write (buf_offset b) data l). split; [done|].
    rewrite Hz. by apply mem_read_write.
Qed.

(** ** The two phases of a put *)

Section put.
Context (key : string) (identity : IdentityScope) (data : list Z) (config : ReplicateConfig).

(** After [put_start]: the old contents stand (less what was evicted) and the new buffers are
    clear of them and inside their segments. *)
Lemma put_start_content m mem W r m1 :
  reachable m → op_ok (OPutStart key identity (Z.of_nat (length data)) config) m → content m mem W →
  put_start key identity (Z.of_nat (length data)) config m = Some (r, m1) →
  reachable m1 ∧ config_eq m m1 ∧ content m1 mem W ∧
  match r with
  | Err _ => True
  | Ok bs => clear_of m1 data bs ∧ NoDup (buf_segment_name <$> bs) ∧ Z.of_nat (length bs) = replica_num config
      ∧ (∀ b, b ∈ bs → ∃ cap, (buf_segment_name b, cap) ∈ shape (allocs m1) ∧ buf_offset b + buf_size b ≤ cap)
      ∧ ∃ rl, view m1 !! key = Some (new_object m identity config rl) ∧ (∀ i x, rl !! i = Some x → ∃ b, b ∈ bs ∧ x = replica_new i (Memory b))
  end.
Proof.
  intros Hr Hok Hc Hput. pose proof (reachable_inv m Hr) as HI.
  assert (reachable m1) as Hr1 by (apply (reach_step m (OPutStart key identity (Z.of_nat (length data)) config)); [done..|]; simpl; by rewrite Hput).
  destruct Hok as (Hz & Hn & Hmax).
  destruct (put_start_spec key identity (Z.of_nat (length data)) config m HI Hz Hn Hmax) as (r' & m1' & Heq & HI1 & Hcfg & Hspec).
  rewrite Hput in Heq. injection Heq as <- <-. split; [done|]. split; [done|].
  assert (∀ w, evicts (clock m) (delete key (view m)) w → w ⊆ view m) as Hsub.
  { intros w [Hw _]. etrans; [exact Hw|apply delete_subseteq]. }
  destruct r as [bs|e].
  - destruct Hspec as (_ & Hlen & _ & Hnd & Hsz & w & rl & He & Hwk & Hv & _ & Hrl & Hbs). apply Hsub in He.
    assert (∀ k o id x, view m1 !! k = Some o → obj_replicas o !! id = Some x → rep_status x = Complete → k ≠ key ∧ view m !! k = Some o) as Hold.
    { intros k o id x Hk Hi Hs. rewrite Hv in Hk. destruct (decide (k = key)) as [->|Hne].
      - rewrite lookup_insert_eq in Hk. injection Hk as <-. cbn in Hi. destruct (Hrl _ _ Hi) as (b & _ & ->). done.
      - rewrite lookup_insert_ne in Hk by done. split; [done|]. by eapply lookup_weaken. }
    assert (∀ b, b ∈ bs → ∃ o id x, view m1 !! key = Some o ∧ obj_replicas o !! id = Some x ∧ rep_data x = Memory b) as Hnew.
    { intros b Hb. destruct (Hbs _ Hb) as (i & Hi). eexists _, i, _. rewrite Hv, lookup_insert_eq. split; [done|]. split; [exact Hi|done]. }
    split_and!; try done.
    + intros k o id x Hk Hi Hs. destruct (Hold _ _ _ _ Hk Hi Hs) as [_ Hk']. by apply (Hc k o id x).
    + split.
      * apply Forall_forall. intros b Hb. rewrite Forall_forall in Hsz. split; [|by apply Hsz].
        destruct (Hnew _ Hb) as (o & id & x & Hk & Hi & Hd). by destruct (recorded_inside m1 _ _ _ _ _ HI1 Hk Hi Hd) as (? & _ & _ & ? & _).
      * intros k o id x b' b Hk Hi Hs Hd Hb Hn'. destruct (Hold _ _ _ _ Hk Hi Hs) as [Hne _]. destruct (Hnew _ Hb) as (o2 & id2 & x2 & Hk2 & Hi2 & Hd2).
        destruct (recorded_inside m1 _ _ _ _ _ HI1 Hk Hi Hd) as (? & _ & _ & ? & ? & _). split; [done|]. split; [lia|].
        apply (recorded_disjoint m1 k o id x b' key o2 id2 x2 b HI1); [done..|congruence|done].
    + intros b Hb. destruct (Hnew _ Hb) as (o & id & x & Hk & Hi & Hd). destruct (recorded_inside m1 _ _ _ _ _ HI1 Hk Hi Hd) as (a & Ha & Hna & _ & _ & Hcap).
      exists (capacity a). split; [|done]. unfold shape. apply list_elem_of_fmap. exists a. by rewrite <- Hna.
    + exists rl. rewrite Hv, lookup_insert_eq. done.
  - split; [|done]. intros k o id x Hk Hi Hs. apply (Hc k o id x); [|done..].
    destruct Hspec as (_ & [(_ & _ & Hv)|(_ & _ & He)]); [by rewrite <- Hv|]. apply Hsub in He. by eapply lookup_weaken.
Qed.

Lemma put_end_content m m1 mem W (bs : list AllocatedBuffer) rl :
  reachable m1 → content m1 mem W →
  view m1 !! key = Some (new_object m identity config rl) → (∀ i x, rl !! i = Some x → ∃ b, b ∈ bs ∧ x = replica_new i (Memory b)) →
  (∀ b, b ∈ bs → ∃ l, mem (buf_segment_name b) = Some l ∧ mem_read (buf_offset b) (buf_size b) l = Some data) →
  ∃ m2, put_end key m1 = Some (Ok tt, m2) ∧ reachable m2 ∧ config_eq m1 m2 ∧ content m2 mem (<[key := (identity, data)]> W)
    ∧ view m2 !! key = Some (set_replica_status Complete (new_object m identity config rl)).
Proof.
  intros Hr Hc Hv Hrl Hmem. destruct (put_end_spec key m1 (reachable_inv _ Hr)) as (r & m2 & Heq & HI2 & Hf & Hspec). rewrite Hv in Hspec.
  destruct Hspec as (-> & Hv2 & _). exists m2. split; [done|]. split; [|split; [by apply frame_config|]].
  { apply (reach_step m1 (OPutEnd key)); [done..|]. simpl. by rewrite Heq. }
  split; [|by rewrite Hv2, lookup_insert_eq].
  intros k o id x Hk Hi Hs. rewrite Hv2 in Hk. destruct (decide (k = key)) as [->|Hne].
  - rewrite lookup_insert_eq in Hk. injection Hk as <-. cbn in Hi. rewrite lookup_fmap in Hi. destruct (rl !! id) as [y|] eqn:Hy; [|done]. injection Hi as <-.
    destruct (Hrl _ _ Hy) as (b & Hb & ->). destruct (Hmem _ Hb) as (l & Hl & Hread). exists b, l, data. rewrite lookup_insert_eq. done.
  - rewrite lookup_insert_ne in Hk by done. destruct (Hc k o id x Hk Hi Hs) as (b & l & d & ? & ? & ? & ?). exists b, l, d. by rewrite lookup_insert_ne.
Qed.
End put.

(** ** Reading, removing, mounting *)

(** A get that the master grants finds the bytes of the last put, under the writer's identity. *)
Lemma get_content key identity m mem W r m1 :
  reachable m → content m mem W → get_replica_list key identity m = Some (r, m1) →
  reachable m1 ∧ config_eq m m1 ∧ content m1 mem W ∧
  match r with
  | Err _ => True
  | Ok rs => ∃ b l data, first_memory_buffer rs = Ok b ∧ mem (buf_segment_name b) = Some l ∧ W !! key = Some (identity, data)
      ∧ mem_read (buf_offset b) (buf_size b) l = Some data ∧ 0 ≤ buf_offset b ∧ 0 ≤ buf_size b ∧ buf_segment_name b ∈ names m
  end.
Proof.
  intros Hr Hc Hget. pose proof (reachable_inv m Hr) as HI.
  destruct (get_replica_list_spec key identity m HI) as (r' & m1' & Heq & HI1 & Hcfg & _ & Hspec). rewrite Hget in Heq. injection Heq as <- <-.
  split; [apply (reach_step m (OGet key identity)); [done..|]; simpl; by rewrite Hget|]. split; [done|].
  assert (view m1 = view m → content m1 mem W) as Hsame by (intros Hv k o; rewrite Hv; apply Hc).
  destruct (view m !! key) as [o|] eqn:Hk; [|destruct Hspec as [-> Hv]; split; [by apply Hsame|done]].
  destruct (reuse_violation_against (obj_identity o) identity) eqn:Hviol; [destruct Hspec as [-> Hv]; split; [by apply Hsame|done]|].
  apply reuse_violation_against_None in Hviol. cbn zeta in Hspec. case_decide as Hrs; [destruct Hspec as [-> Hv]; split; [by apply Hsame|done]|].
  destruct Hspec as [-> Hv]. split.
  - intros k o' id x Hk' Hi Hs. rewrite Hv in Hk'. destruct (decide (k = key)) as [->|Hne].
    + rewrite lookup_insert_eq in Hk'. injection Hk' as <-. by apply (Hc key o id x).
    + rewrite lookup_insert_ne in Hk' by done. by apply (Hc k o' id x).
  - destruct (readable_replicas (alive_segments m) o) as [|x rs] eqn:Hrd; [done|].
    assert (x ∈ readable_replicas (alive_segments m) o) as [Hread Hx]%list_elem_of_filter by (rewrite Hrd; left).
    apply elem_of_hvalues in Hx as (id & Hi). unfold readable in Hread. apply andb_true_iff in Hread as [Hcomp _]. apply bool_decide_eq_true in Hcomp.
    destruct (Hc key o id x Hk Hi Hcomp) as (b & l & d & Hb & Hl & HW & Hrd'). exists b, l, d. simpl. rewrite Hb.
    destruct (recorded_inside m _ _ _ _ _ HI Hk Hi Hb) as (a & Ha & Hn & ? & ? & _). split_and!; try done; [by rewrite <- Hviol|lia|].
    rewrite <- Hn. unfold names. by apply list_elem_of_fmap_2.
Qed.

Lemma remove_content key force m mem W r m1 :
  reachable m → content m mem W → remove key force m = Some (r, m1) →
  reachable m1 ∧ config_eq m m1 ∧ content m1 mem (if is_ok r then delete key W else W).
Proof.
  intros Hr Hc Hrun. destruct (remove_spec key force m (reachable_inv m Hr)) as (r' & m1' & Heq & HI1 & Hf & Hspec). rewrite Hrun in Heq. injection Heq as <- <-.
  split; [apply (reach_step m (ORemove key force)); [done..|]; simpl; by rewrite Hrun|]. split; [by apply frame_config|].
  assert (view m1 = view m → content m1 mem W) as Hsame by (intros Hv k o; rewrite Hv; apply Hc).
  destruct (view m !! key) as [o|] eqn:Hk; [|destruct Hspec as [-> Hv]; by apply Hsame].
  destruct (_ && _); [destruct Hspec as [-> Hv]; by apply Hsame|]. destruct Hspec as [-> Hv]. simpl.
  intros k o' id x Hk' Hi Hs. rewrite Hv in Hk'. apply lookup_delete_Some in Hk' as [Hne Hk']. rewrite lookup_delete_ne by done. by apply (Hc k o' id x).
Qed.

(** A larger memory with the same segments so far. *)
Lemma content_mem m m' mem mem' W :
  master_inv m → content m mem W → view m' = view m → (∀ n, n ∈ names m → mem' n = mem n) → content m' mem' W.
Proof.
  intros HI Hc Hv Hm k o id x Hk Hi Hs. rewrite Hv in Hk. destruct (Hc k o id x Hk Hi Hs) as (b & l & d & Hb & Hl & HW & Hrd). exists b, l, d. split_and!; try done.
  destruct (recorded_inside m _ _ _ _ _ HI Hk Hi Hb) as (a & Ha & Hn & _). rewrite Hm; [done|]. rewrite <- Hn. unfold names. by apply list_elem_of_fmap_2.
Qed.
End content.

Section granted.
Context `{HashIter} `{KeyHash} `{EntryCodec} `{RegexEngine}.
Implicit Types m : MasterService.

(** With heartbeats off, a complete memory replica is always readable by the writer, and by nobody else. *)
Lemma get_granted key identity m o id b :
  master_inv m → segment_ttl m = 0 → view m !! key = Some o → obj_replicas o !! id = Some (set_status Complete (replica_new id (Memory b))) →
  ∃ r m', get_replica_list key identity m = Some (r, m')
    ∧ if decide (identity = obj_identity o) then ∃ rs, r = Ok rs else ∃ v, r = Err (UnsafeReuse v).
Proof.
  intros HI Httl Hk Hi. destruct (get_replica_list_spec key identity m HI) as (r & m' & Heq & _ & _ & _ & Hspec). exists r, m'. split; [done|].
  rewrite Hk in Hspec. case_decide as Hid.
  - rewrite (proj2 (reuse_violation_against_None (obj_identity o) identity) (eq_sym Hid)) in Hspec. cbn zeta in Hspec.
    rewrite decide_False in Hspec; [destruct Hspec as [-> _]; eauto|].
    assert (set_status Complete (replica_new id (Memory b)) ∈ readable_replicas (alive_segments m) o) as Hin; [|intros E; rewrite E in Hin; by apply elem_of_nil in Hin].
    apply list_elem_of_filter. split; [|apply elem_of_hvalues; eauto]. unfold readable. cbn. rewrite bool_decide_true; [done|].
    apply alive_spec. unfold segment_alive. destruct (recorded_inside m _ _ _ _ b HI Hk Hi eq_refl) as (a & Ha & Hn & _).
    assert (buf_segment_name b ∈ names m) as [h Hh]%(mi_heartbeat _ _ HI) by (rewrite <- Hn; unfold names; by apply list_elem_of_fmap_2).
    rewrite Hh, Httl. done.
  - destruct (reuse_violation_against (obj_identity o) identity) as [v|] eqn:Hv; [destruct Hspec as [-> _]; eauto|].
    apply reuse_violation_against_None in Hv. by destruct Hid.
Qed.
End granted.

(** ** The in-process client *)

Section dummy.
Context `{HashIter} `{KeyHash} `{EntryCodec} `{RegexEngine}.
Implicit Types (c : DummyClient) (W : Written).

(** The states a [DummyClient] can reach, with what was put. *)
Inductive dummy_reach : DummyClient → Written → Prop :=
| dr_new strategy : dummy_reach (dummy_new strategy) ∅
| dr_mount c W name cap c' :
    dummy_reach c W → mountable name cap (dc_master c) → cap ≤ isize_max → dummy_mount name cap c = Some c' → dummy_reach c' W
| dr_put c W key identity data config r c' :
    dummy_reach c W → op_ok (OPutStart key identity (Z.of_nat (length data)) config) (dc_master c) →
    dummy_put key identity data config c = Some (r, c') → dummy_reach c' (if is_ok r then <[key := (identity, data)]> W else W)
| dr_get c W key identity r c' : dummy_reach c W → dummy_get key identity c = Some (r, c') → dummy_reach c' W
| dr_remove c W key force r c' :
    dummy_reach c W → dummy_remove key force c = Some (r, c') → dummy_reach c' (if is_ok r then delete key W else W)
| dr_exist c W key r c' : dummy_reach c W → dummy_exist key c = Some (r, c') → dummy_reach c' W.

Record dummy_inv c W : Prop := {
  di_reach : reachable (dc_master c);
  di_ttl : segment_ttl (dc_master c) = 0;
  di_arenas : ∀ n cap, (n, cap) ∈ shape (allocs (dc_master c)) → cap ≤ isize_max ∧ ∃ l, arenas c !! n = Some l ∧ Z.of_nat (length l) = cap;
  di_content : content (dc_master c) (λ n, arenas c !! n) W
}.

Lemma write_arenas_ok data bs ars :
  NoDup (buf_segment_name <$> bs) →
  (∀ b, b ∈ bs → ∃ l, ars !! buf_segment_name b = Some l ∧ 0 ≤ buf_offset b ∧ buf_offset b + buf_size b ≤ Z.of_nat (length l) ≤ isize_max
     ∧ buf_size b = Z.of_nat (length data)) →
  ∃ ars', write_arenas data bs ars = Some (Ok tt, ars') ∧ stored data bs (λ n, ars !! n) (λ n, ars' !! n)
    ∧ ∀ n l, ars !! n = Some l → ∃ l', ars' !! n = Some l' ∧ length l' = length l.
Proof.
  revert ars. induction bs as [|b bs IH]; intros ars Hnd Hall; cbn [write_arenas].
  { exists ars. split; [done|]. split; [split; [done|by intros b []%elem_of_nil]|eauto]. }
  rewrite fmap_cons in Hnd. apply NoDup_cons in Hnd as [Hb Hnd].
  destruct (Hall b) as (l & Hl & Ho & Hle & Hz); [by left|]. rewrite Hl. rewrite u64_add_ok by (unfold u64_max, isize_max in *; lia). cbn [mbind option_bind].
  rewrite (proj2 (Z.ltb_ge _ _)) by lia. rewrite Hz, Z.eqb_refl. cbn [orb negb].
  assert (splice (Z.to_nat (buf_offset b)) data l = mem_write (buf_offset b) data l) as -> by (rewrite mem_write_inside by lia; done).
  assert (length (mem_write (buf_offset b) data l) = length l) as Hlen by (apply Nat2Z.inj; rewrite mem_write_length by done; lia).
  assert (∀ b', b' ∈ bs → buf_segment_name b' ≠ buf_segment_name b) as Hne by (intros b' Hb' E; apply Hb; rewrite <- E; by apply list_elem_of_fmap_2).
  destruct (IH (<[buf_segment_name b := mem_write (buf_offset b) data l]> ars) Hnd) as (ars' & -> & [Hout Hin] & Hpres).
  { intros b' Hb'. rewrite lookup_insert_ne by (by apply not_eq_sym, Hne). apply Hall. by right. }
  exists ars'. split; [done|]. split; [split|].
  - intros n [Hn Hns]%not_elem_of_cons. rewrite Hout by done. by rewrite lookup_insert_ne.
  - intros b' [->|Hb']%elem_of_cons.
    + exists l. split; [done|]. rewrite Hout by done. by rewrite lookup_insert_eq.
    + destruct (Hin _ Hb') as (l' & Hl' & Hm). exists l'. split; [|done]. cbn in Hl'. by rewrite lookup_insert_ne in Hl' by (by apply not_eq_sym, Hne).
  - intros n l0 Hn. destruct (decide (n = buf_segment_name b)) as [->|Hnb].
    + rewrite Hl in Hn. injection Hn as <-. destruct (Hpres (buf_segment_name b) (mem_write (buf_offset b) data l)) as (l' & ? & ?); [by rewrite lookup_insert_eq|].
      exists l'. split; [done|congruence].
    + apply Hpres. by rewrite lookup_insert_ne.
Qed.

(** A put in a good state: it returns, and a success leaves the data readable. *)
Lemma dummy_put_ok key identity data config c W :
  dummy_inv c W → op_ok (OPutStart key identity (Z.of_nat (length data)) config) (dc_master c) →
  ∃ r c', dummy_put key identity data config c = Some (r, c') ∧ dummy_inv c' (if is_ok r then <[key := (identity, data)]> W else W)
    ∧ (is_ok r = true → 0 < replica_num config → ∃ o id b, view (dc_master c') !! key = Some o ∧ obj_identity o = identity
        ∧ obj_replicas o !! id = Some (set_status Complete (replica_new id (Memory b)))).
Proof.
  intros [Hr Httl Har Hc] Hok. unfold dummy_put.
  destruct (put_start_spec key identity (Z.of_nat (length data)) config (dc_master c) (reachable_inv _ Hr)) as (r & m1 & Hput & _ & _ & Hspec0); [apply Hok..|].
  destruct (put_start_content key identity data config _ _ _ _ _ Hr Hok Hc Hput) as (Hr1 & Hcfg & Hc1 & Hspec). rewrite Hput. cbn [mbind option_bind].
  destruct r as [bs|e].
  - destruct Hspec as (Hclear & Hnd & Hlen & Hin & rl & Hv & Hrl).
    destruct (write_arenas_ok data bs (arenas c) Hnd) as (ars & -> & Hst & Hpres).
    { intros b Hb. destruct (Hin _ Hb) as (cap & Hcap & Hle). rewrite (ce_shape _ _ Hcfg) in Hcap. destruct (Har _ _ Hcap) as (Hmax & l & Hl & Hlc).
      destruct Hclear as [Hall _]. rewrite Forall_forall in Hall. destruct (Hall _ Hb) as [? ?]. exists l. split_and!; [done|done|lia|lia|done]. }
    cbn [mbind option_bind]. destruct (content_stored _ _ _ _ _ _ Hc1 Hclear Hst) as [Hc1' Hmem].
    destruct (put_end_content key identity data config (dc_master c) m1 _ W bs rl Hr1 Hc1' Hv Hrl Hmem) as (m2 & -> & Hr2 & Hcfg2 & Hc2 & Hv2).
    cbn [mbind option_bind]. eexists _, _. split; [done|]. cbn [is_ok]. split; [split; cbn [dc_master arenas]|].
    + done.
    + by rewrite (ce_ttl _ _ Hcfg2), (ce_ttl _ _ Hcfg).
    + intros n cap. rewrite (ce_shape _ _ Hcfg2), (ce_shape _ _ Hcfg). intros Hn. destruct (Har _ _ Hn) as (Hmax & l & Hl & Hlc). split; [done|].
      destruct (Hpres _ _ Hl) as (l' & Hl' & E). exists l'. split; [done|congruence].
    + done.
    + intros _ Hpos. destruct bs as [|b bs']; [simpl in Hlen; lia|].
      destruct Hspec0 as (_ & _ & _ & _ & _ & w & rl0 & _ & _ & Hv0 & _ & _ & Hall). destruct (Hall b) as (i & Hi); [by left|].
      rewrite Hv0, lookup_insert_eq in Hv. unfold new_object in Hv; injection Hv as ->.
      eexists _, i, b. split; [exact Hv2|]. split; [done|]. cbn. by rewrite lookup_fmap, Hi.
  - eexists _, _. split; [done|]. cbn [is_ok]. split; [|done]. split; cbn [dc_master arenas]; [done|by rewrite (ce_ttl _ _ Hcfg)|by rewrite (ce_shape _ _ Hcfg)|done].
Qed.

Lemma dummy_get_ok key identity c W :
  dummy_inv c W →
  ∃ r m, get_replica_list key identity (dc_master c) = Some (r, m) ∧ dummy_inv (mkDummy m (arenas c)) W
    ∧ match r with
      | Err e => dummy_get key identity c = Some (Err e, mkDummy m (arenas c))
      | Ok _ => ∃ data, W !! key = Some (identity, data) ∧ dummy_get key identity c = Some (Ok data, mkDummy m (arenas c))
      end.
Proof.
  intros [Hr Httl Har Hc]. destruct (get_replica_list_spec key identity (dc_master c) (reachable_inv _ Hr)) as (r & m & Hget & _).
  destruct (get_content key identity _ _ _ _ _ Hr Hc Hget) as (Hr1 & Hcfg & Hc1 & Hspec). exists r, m. split; [done|]. split.
  { split; cbn [dc_master arenas]; [done|by rewrite (ce_ttl _ _ Hcfg)|by rewrite (ce_shape _ _ Hcfg)|done]. }
  unfold dummy_get. rewrite Hget. cbn [mbind option_bind]. destruct r as [rs|e]; [|done].
  destruct Hspec as (b & l & data & Hfirst & Hl & HW & Hread & Ho & Hz & Hn). exists data. split; [done|]. rewrite Hfirst. cbn [arenas]. rewrite Hl.
  unfold mem_read in Hread. destruct (Z.leb_spec (buf_offset b + buf_size b) (Z.of_nat (length l))); [|done]. injection Hread as <-.
  assert (Z.of_nat (length l) ≤ isize_max) as Hmax.
  { unfold names in Hn. apply list_elem_of_fmap in Hn as (a & Hn & Ha). destruct (Har (segment_name a) (capacity a)) as (? & l' & Hl' & ?).
    - unfold shape. apply list_elem_of_fmap. by exists a.
    - rewrite <- Hn, Hl in Hl'. injection Hl' as <-. lia. }
  rewrite u64_add_ok by (unfold u64_max, isize_max in *; lia). cbn [mbind option_bind]. by rewrite (proj2 (Z.ltb_ge _ _)) by lia.
Qed.

Lemma dummy_reach_inv c W : dummy_reach c W → dummy_inv c W.
Proof.
  induction 1 as [strategy|c W name cap c' _ IH Hm Hcap Hrun|c W key identity data config r c' _ IH Hok Hrun|c W key identity r c' _ IH Hrun
                 |c W key force r c' _ IH Hrun|c W key r c' _ IH Hrun].
  - split; cbn; [apply reach_new|done|by intros n cap []%elem_of_nil|].
    intros k o id x Hk. exfalso. unfold view in Hk. cbn in Hk. unfold sm_new, sm_view in Hk. vm_compute in Hk. done.
  - destruct IH as [Hr Httl Har Hc]. destruct (mount_segment_spec name cap (dc_master c) (reachable_inv _ Hr) Hm) as (m & Hmount & HI & Hv & _ & Hsh & _ & _ & _ & Ht & _).
    unfold dummy_mount in Hrun. rewrite Hmount in Hrun. cbn [mbind option_bind] in Hrun. rewrite (proj2 (Z.ltb_ge _ _)) in Hrun by lia. injection Hrun as <-.
    destruct Hm as (Hcap0 & Hnew & Hsum). split; cbn [dc_master arenas].
    + by apply (reach_step (dc_master c) (OMount name cap)).
    + by rewrite Ht.
    + intros n cp. rewrite Hsh, elem_of_app, list_elem_of_singleton. intros [Hn|[= -> ->]].
      * destruct (Har _ _ Hn) as (? & l & ? & ?). split; [done|]. exists l. split; [|done]. rewrite lookup_insert_ne; [done|].
        intros <-. apply Hnew. unfold names. apply list_elem_of_fmap in Hn as (a & [= -> ->] & Ha). by apply list_elem_of_fmap_2.
      * split; [done|]. eexists. rewrite lookup_insert_eq. split; [done|]. rewrite length_replicate. lia.
    + apply (content_mem (dc_master c) m (λ n, arenas c !! n)); [by apply reachable_inv|done|done|].
      intros n Hn. rewrite lookup_insert_ne; [done|]. by intros <-.
  - destruct (dummy_put_ok key identity data config c W IH Hok) as (r' & c1 & Heq & HI & _). rewrite Hrun in Heq. by injection Heq as <- <-.
  - destruct (dummy_get_ok key identity c W IH) as (r' & m & _ & HI & Hspec). destruct r' as [rs|e].
    + destruct Hspec as (data & _ & Heq). rewrite Hrun in Heq. by injection Heq as -> ->.
    + rewrite Hrun in Hspec. by injection Hspec as -> ->.
  - destruct IH as [Hr Httl Har Hc]. unfold dummy_remove in Hrun. apply bind_Some in Hrun as ([r1 m] & Hrem & [= -> <-]).
    destruct (remove_content key force _ _ _ _ _ Hr Hc Hrem) as (Hr1 & Hcfg & Hc1). split; cbn [dc_master arenas]; [done|by rewrite (ce_ttl _ _ Hcfg)|by rewrite (ce_shape _ _ Hcfg)|done].
  - destruct IH as [Hr Httl Har Hc]. unfold dummy_exist in Hrun. apply bind_Some in Hrun as ([r1 m] & Hex & [= -> <-]).
    destruct (exist_key_spec key (dc_master c) (reachable_inv _ Hr)) as (m' & Heq & HI & Hf & Hv). rewrite Hex in Heq. injection Heq as -> <-.
    split; cbn [dc_master arenas]; [|by rewrite (fe_ttl _ _ Hf)|by rewrite (fe_shape _ _ Hf)|].
    + apply (reach_step (dc_master c) (OExist [key])); [done..|]. simpl. unfold batch_exist_key, for_keys. simpl. by rewrite Hex.
    + intros k o. rewrite Hv. apply Hc.
Qed.

(** Nothing an in-process client does panics, and in every state it can reach a get returns exactly the bytes of the last put of
    its key, provided it asks under the identity that put them; any other outcome is the master's refusal. *)
Theorem dummy_get_last_put c W key identity :
  dummy_reach c W →
  ∃ r c', dummy_get key identity c = Some (r, c')
    ∧ match r with
      | Ok bytes => W !! key = Some (identity, bytes)
      | Err e => ∃ m, get_replica_list key identity (dc_master c) = Some (Err e, m)
      end.
Proof.
  intros Hr%dummy_reach_inv. destruct (dummy_get_ok key identity c W Hr) as (r & m & Hget & _ & Hspec). destruct r as [rs|e].
  - destruct Hspec as (data & HW & ->). by eexists _, _.
  - rewrite Hspec. exists (Err e), (mkDummy m (arenas c)). split; [done|]. by exists m.
Qed.

(** The in-process round trip: in every reachable state a put returns (without a panic), and when it succeeds with at least one replica the
    writer's next get returns its bytes while every other identity is refused as unsafe reuse. *)
Theorem dummy_put_get_roundtrip c W key identity data config :
  dummy_reach c W → op_ok (OPutStart key identity (Z.of_nat (length data)) config) (dc_master c) →
  ∃ r c', dummy_put key identity data config c = Some (r, c')
    ∧ (r = Ok tt → 0 < replica_num config →
        (∃ c'', dummy_get key identity c' = Some (Ok data, c''))
        ∧ ∀ other, other ≠ identity → ∃ v c'', dummy_get key other c' = Some (Err (UnsafeReuse v), c'')).
Proof.
  intros Hr%dummy_reach_inv Hok. destruct (dummy_put_ok key identity data config c W Hr Hok) as (r & c' & Hput & HI & Hv). exists r, c'. split; [done|].
  intros -> Hpos. cbn [is_ok] in HI, Hv. destruct (Hv eq_refl Hpos) as (o & id & b & Hk & Hid & Hi). pose proof HI as [Hr' Httl _ _]. split.
  - destruct (get_granted key identity _ o id b (reachable_inv _ Hr') Httl Hk Hi) as (r1 & m1 & Hget & Hspec). rewrite decide_True in Hspec by done.
    destruct Hspec as [rs ->]. destruct (dummy_get_ok key identity c' _ HI) as (r2 & m2 & Hget2 & _ & Hspec2). rewrite Hget in Hget2. injection Hget2 as <- <-.
    destruct Hspec2 as (d & HW & ->). rewrite lookup_insert_eq in HW. injection HW as <-. eauto.
  - intros other Hne. destruct (get_granted key other _ o id b (reachable_inv _ Hr') Httl Hk Hi) as (r1 & m1 & Hget & Hspec). rewrite decide_False in Hspec by congruence.
    destruct Hspec as [v ->]. destruct (dummy_get_ok key other c' _ HI) as (r2 & m2 & Hget2 & _ & Hspec2). rewrite Hget in Hget2. injection Hget2 as <- <-.
    rewrite Hspec2. eauto.
Qed.
End dummy.
