(* ===== verification/RealClient.v ===== *)
(** * The distributed client

    [RealClient] over the transfer engine and the TCP wire: the same contract as the
    in-process client's, with the bytes on storage nodes.  The client stages every transfer
    in its own arena; the storage nodes are other nodes, each mounted under one name, whose
    arenas only the client's transfers change.

    Runs of the store clients. *)
From S2P Require Import Prelude BufferAllocator OffsetAllocator Identity ShardedMap CountMin F64 StoreTypes Strategy OpLog Master SegmentLedger MasterInv MasterEvict MasterOps MasterSegments Recovery MasterSteps MasterTheorems MasterExamples Router RouterPlan TransferTypes TcpTransport TransferEngine Client ClientTheorems.

Section real.
Context `{HashIter} `{KeyHash} `{EntryCodec} `{RegexEngine} {M : Type} `{MetadataBackend M} `{IoMessages}.
Implicit Types (e : TransferEngine) (w : World M) (W : Written).

(** The arena behind a segment name. *)
Definition node_mem w (n : string) : option (list Z) :=
  d ← get_segment n (w_meta w); if bool_decide (sd_protocol d = "tcp"%string) then live (w_net w) (sd_endpoint d) else None.
Definition node_of w (n : string) : option string := sd_endpoint <$> get_segment n (w_meta w).

(** The bytes staged so far in the client's own arena. *)
Definition staged e w : option (list Z) := live (w_net w) (te_segment e).

(** A name that resolves to a live node other than the client's. *)
Definition remote_node e w (n : string) : Prop := is_Some (node_mem w n) ∧ node_of w n ≠ Some (te_segment e).

Lemma node_mem_Some w n R :
  node_mem w n = Some R ↔ ∃ d, get_segment n (w_meta w) = Some d ∧ sd_protocol d = "tcp"%string ∧ live (w_net w) (sd_endpoint d) = Some R.
Proof.
  unfold node_mem. rewrite bind_Some. split.
  - intros (d & Hd & Hl). case_bool_decide; [eauto|done].
  - intros (d & Hd & Hp & Hl). exists d. split; [done|]. by rewrite bool_decide_true.
Qed.

(** The engine state after a transfer: same arena, same transports. *)
Definition same_engine e e' : Prop := te_segment e' = te_segment e ∧ te_multi e' = te_multi e.

Lemma with_segment_ok {A} n d (k : Z → Run (M := M) (result ErrorCode A)) e w :
  get_segment n (w_meta w) = Some d →
  with_segment n k (e, w) = k (next_seg e) (mkEngine (local_name e) (te_segment e) (te_multi e) (next_batch e) (batches e)
     (<[next_seg e := (sd_protocol d, sd_endpoint d)]> (segment_cache e)) (next_seg e + 1), w).
Proof. intros Hd. unfold with_segment, run_bind at 1, open_segment. cbn [snd]. by rewrite Hd. Qed.

Lemma push_buffer_ok e w data b L R :
  has_tcp e → staged e w = Some L → Z.of_nat (length L + length data) ≤ isize_max →
  node_mem w (buf_segment_name b) = Some R → node_of w (buf_segment_name b) ≠ Some (te_segment e) →
  0 ≤ buf_offset b → buf_size b = Z.of_nat (length data) → buf_offset b + buf_size b ≤ isize_max →
  ∃ e' w' ep, push_buffer data b (e, w) = (Done (Ok tt), (e', w')) ∧ same_engine e e' ∧ w_meta w' = w_meta w ∧ node_of w (buf_segment_name b) = Some ep
    ∧ w_net w' = <[ep := mkSegment (mem_write (buf_offset b) data R) false]> (<[te_segment e := mkSegment (L ++ data) false]> (w_net w)).
Proof.
  intros Ht HL Hroom HR Hne Ho Hz Hmax. apply node_mem_Some in HR as (d & Hd & Hp & HR). unfold node_of in *. rewrite Hd in *. cbn [fmap option_fmap option_map] in *.
  assert (sd_endpoint d ≠ te_segment e) as Hne' by congruence.
  unfold push_buffer. rewrite (with_segment_ok _ d) by done. rewrite Hp. set (e1 := mkEngine _ _ _ _ _ _ _). unfold run_bind at 1.
  rewrite (register_local_memory_ok e1 w L data HL Hroom). unfold run_bind at 1. set (w1 := put_net _ w). set (e2 := (allocate_batch_id (e1, w1)).2.1).
  change (allocate_batch_id (e1, w1)) with (Done (next_batch e), (e2, w1)). cbn [fst snd]. unfold run_bind at 1.
  set (req := mkTransferRequest _ _ _ _ _).
  assert (moves e2 [req] (w_net w1) = Some (<[sd_endpoint d := mkSegment (mem_write (buf_offset b) data R) false]> (<[te_segment e := mkSegment (L ++ data) false]> (w_net w)))) as Hm.
  { cbn [moves]. unfold move. change (segment_cache e2) with (<[next_seg e := ("tcp"%string, sd_endpoint d)]> (segment_cache e)). cbn [target_id req].
    rewrite lookup_insert_eq. cbn [mbind option_bind]. change (te_segment e2) with (te_segment e). change (w_net w1) with (<[te_segment e := mkSegment (L ++ data) false]> (w_net w)).
    rewrite live_insert by (rewrite length_app; lia). cbn [mbind option_bind]. rewrite live_insert_ne by done. rewrite HR. cbn [mbind option_bind].
    assert (is_local e2 req (L ++ data) = true) as -> by (apply is_local_spec; cbn; rewrite length_app; lia). cbn [bool_decide andb negb opcode req].
    change (isize_max <? target_offset req + req_length req) with (isize_max <? buf_offset b + buf_size b). rewrite (proj2 (Z.ltb_ge _ _)) by lia.
    change (source_offset req) with (Z.of_nat (length L)). change (req_length req) with (buf_size b). change (target_offset req) with (buf_offset b).
    rewrite Hz, !Nat2Z.id. unfold slice. rewrite drop_app_length, take_ge by lia. done. }
  rewrite (submit_transfer_ok e2 w1 (next_batch e) [req] _ Ht Hm); [|by apply Forall_singleton; cbn; lia|cbn; unfold u64_max, isize_max in *; lia].
  cbn [map_err]. unfold run_bind at 1, free_batch_id, run_bind, get_engine, set_engine, run_ret. eexists _, _, (sd_endpoint d). split; [done|]. done.
Qed.

Lemma pull_buffer_ok e w b L R data :
  has_tcp e → staged e w = Some L → 0 ≤ buf_offset b → 0 ≤ buf_size b → Z.of_nat (length L) + buf_size b ≤ isize_max →
  node_mem w (buf_segment_name b) = Some R → node_of w (buf_segment_name b) ≠ Some (te_segment e) →
  mem_read (buf_offset b) (buf_size b) R = Some data →
  ∃ e' w' l', pull_buffer b (e, w) = (Done (Ok data), (e', w')) ∧ same_engine e e' ∧ w_meta w' = w_meta w
    ∧ w_net w' = <[te_segment e := mkSegment l' false]> (w_net w) ∧ Z.of_nat (length l') = Z.of_nat (length L) + buf_size b.
Proof.
  intros Ht HL Ho Hz Hroom HR Hne Hread. apply node_mem_Some in HR as (d & Hd & Hp & HR). unfold node_of in *. rewrite Hd in *. cbn [fmap option_fmap option_map] in *.
  assert (sd_endpoint d ≠ te_segment e) as Hne' by congruence. pose proof (mem_read_length _ _ _ _ Ho Hz Hread) as [Hlen Hin].
  unfold pull_buffer. rewrite (with_segment_ok _ d) by done. rewrite Hp. set (e1 := mkEngine _ _ _ _ _ _ _). unfold run_bind at 1.
  rewrite (register_zeroed_ok e1 w L (buf_size b) HL Hz Hroom). unfold run_bind at 1. set (w1 := put_net _ w). set (e2 := (allocate_batch_id (e1, w1)).2.1).
  change (allocate_batch_id (e1, w1)) with (Done (next_batch e), (e2, w1)). cbn [fst snd]. unfold run_bind at 1.
  set (req := mkTransferRequest _ _ _ _ _). set (L1 := L ++ replicate (Z.to_nat (buf_size b)) 0).
  assert (Z.of_nat (length L1) = Z.of_nat (length L) + buf_size b) as HL1 by (unfold L1; rewrite length_app, length_replicate; lia).
  set (L2 := mem_write (Z.of_nat (length L)) data L1).
  assert (Z.of_nat (length L2) = Z.of_nat (length L) + buf_size b) as HL2 by (unfold L2; rewrite mem_write_length by lia; lia).
  assert (moves e2 [req] (w_net w1) = Some (<[te_segment e := mkSegment L2 false]> (w_net w1))) as Hm.
  { cbn [moves]. unfold move. change (segment_cache e2) with (<[next_seg e := ("tcp"%string, sd_endpoint d)]> (segment_cache e)). cbn [target_id req].
    rewrite lookup_insert_eq. cbn [mbind option_bind]. change (te_segment e2) with (te_segment e). change (w_net w1) with (<[te_segment e := mkSegment L1 false]> (w_net w)).
    rewrite live_insert by lia. cbn [mbind option_bind]. rewrite live_insert_ne by done. rewrite HR. cbn [mbind option_bind].
    assert (is_local e2 req L1 = true) as -> by (apply is_local_spec; cbn; lia). cbn [bool_decide andb negb opcode req].
    change (target_offset req) with (buf_offset b). change (req_length req) with (buf_size b). rewrite Hread. done. }
  rewrite (submit_transfer_ok e2 w1 (next_batch e) [req] _ Ht Hm); [|by apply Forall_singleton; cbn; lia|cbn; unfold u64_max, isize_max in *; lia].
  cbn [map_err]. unfold run_bind at 1, free_batch_id, run_bind at 1, get_engine, set_engine. set (e3 := set_batches _ _). set (w2 := put_net _ w1). unfold run_bind.
  rewrite (read_local_ok e3 w2 L2); [|change (te_segment e3) with (te_segment e); unfold w2, put_net; cbn [w_net]; apply live_insert; lia|lia|done|lia].
  assert (slice (Z.to_nat (Z.of_nat (length L))) (Z.to_nat (buf_size b)) L2 = data) as ->.
  { pose proof (mem_read_write (Z.of_nat (length L)) data L1) as Hrw. unfold mem_read in Hrw. fold L2 in Hrw.
    rewrite Hlen in Hrw. rewrite (proj2 (Z.leb_le _ _)) in Hrw by lia. specialize (Hrw ltac:(lia)). by injection Hrw as ->. }
  eexists _, _, L2. split; [done|]. split; [done|]. split; [done|]. split; [|done].
  unfold w2, w1, put_net. cbn [w_net]. by rewrite insert_insert_eq.
Qed.

(** ** The pool: the arenas of the mounted names *)

Definition pool_mem (ns : list string) w (n : string) : option (list Z) := if decide (n ∈ ns) then node_mem w n else None.

(** Every mounted name is a live node of its own, none the client's. *)
Definition pool_ok (ns : list string) e w : Prop :=
  (∀ n, n ∈ ns → remote_node e w n) ∧ ∀ n1 n2, n1 ∈ ns → n2 ∈ ns → node_of w n1 = node_of w n2 → n1 = n2.

Lemma node_of_meta w w' n : w_meta w' = w_meta w → node_of w' n = node_of w n.
Proof. unfold node_of. by intros ->. Qed.

(** Changing arenas that are not [n]'s. *)
Lemma node_mem_same w w' n :
  w_meta w' = w_meta w → (∀ ep, node_of w n = Some ep → live (w_net w') ep = live (w_net w) ep) → node_mem w' n = node_mem w n.
Proof.
  unfold node_mem, node_of. intros ->. destruct (get_segment n (w_meta w)) as [d|]; [|done]. cbn. intros Hl. by rewrite Hl.
Qed.

Lemma pool_after_push ns e w e' w' n0 ep R' l' :
  pool_ok ns e w → n0 ∈ ns → same_engine e e' → w_meta w' = w_meta w → node_of w n0 = Some ep →
  w_net w' = <[ep := mkSegment R' false]> (<[te_segment e := mkSegment l' false]> (w_net w)) → Z.of_nat (length R') ≤ isize_max →
  (∀ n, n ∈ ns → node_mem w' n = if decide (n = n0) then Some R' else node_mem w n) ∧ pool_ok ns e' w'.
Proof.
  intros [Hrem Hinj] Hn0 [Hseg _] Hmeta Hep Hnet Hlen.
  assert (∀ n, n ∈ ns → node_mem w' n = if decide (n = n0) then Some R' else node_mem w n) as Hmem.
  { intros n Hn. case_decide as E.
    - subst n. destruct (Hrem _ Hn0) as [[R HR] _]. apply node_mem_Some in HR as (d & Hd & Hp & _). apply node_mem_Some. exists d. rewrite Hmeta. split_and!; [done..|].
      unfold node_of in Hep. rewrite Hd in Hep. injection Hep as ->. rewrite Hnet. by apply live_insert.
    - apply node_mem_same; [done|]. intros ep' Hep'. rewrite Hnet. rewrite live_insert_ne; [|intros ->; apply E, Hinj; [done..|congruence]].
      rewrite live_insert_ne; [done|]. intros <-. by destruct (Hrem _ Hn) as [_ Hne]. }
  split; [done|]. split.
  - intros n Hn. destruct (Hrem _ Hn) as [Hs Hne]. split; [rewrite Hmem by done; case_decide; eauto|]. by rewrite (node_of_meta _ _ _ Hmeta), Hseg.
  - intros n1 n2. rewrite !(node_of_meta _ _ _ Hmeta). apply Hinj.
Qed.

Lemma push_buffers_ok ns data bs e w L :
  has_tcp e → pool_ok ns e w → staged e w = Some L → Z.of_nat (length L) + Z.of_nat (length bs) * Z.of_nat (length data) ≤ isize_max →
  NoDup (buf_segment_name <$> bs) →
  Forall (λ b, buf_segment_name b ∈ ns ∧ 0 ≤ buf_offset b ∧ buf_size b = Z.of_nat (length data) ∧ buf_offset b + buf_size b ≤ isize_max) bs →
  ∃ e' w' L', push_buffers data bs (e, w) = (Done (Ok tt), (e', w')) ∧ same_engine e e' ∧ pool_ok ns e' w' ∧ w_meta w' = w_meta w
    ∧ stored data bs (pool_mem ns w) (pool_mem ns w')
    ∧ staged e' w' = Some L' ∧ Z.of_nat (length L') = Z.of_nat (length L) + Z.of_nat (length bs) * Z.of_nat (length data).
Proof.
  revert e w L. induction bs as [|b bs IH]; intros e w L Ht Hp HL Hroom Hnd Hall; cbn [push_buffers].
  { exists e, w, L. split_and!; try done; [split; [done|by intros b []%elem_of_nil]|simpl; lia]. }
  rewrite fmap_cons in Hnd. apply NoDup_cons in Hnd as [Hb Hnd]. apply Forall_cons in Hall as [(Hn & Ho & Hz & Hmax) Hall]. cbn [length] in Hroom.
  destruct (proj1 Hp _ Hn) as [[R HR] Hne].
  destruct (push_buffer_ok e w data b L R) as (e1 & w1 & ep & Hrun & Hsame & Hmeta & Hep & Hnet); [done..|lia|done|done|done|done|done|].
  assert (Z.of_nat (length (mem_write (buf_offset b) data R)) ≤ isize_max) as HlR.
  { rewrite mem_write_length by done. apply node_mem_Some in HR as (d & _ & _ & [_ HRl]%live_Some). lia. }
  destruct (pool_after_push ns e w e1 w1 (buf_segment_name b) ep _ _ Hp Hn Hsame Hmeta Hep Hnet HlR) as [Hmem Hp1].
  assert (staged e1 w1 = Some (L ++ data)) as HL1.
  { unfold staged. rewrite (proj1 Hsame), Hnet. rewrite live_insert_ne; [apply live_insert; rewrite length_app; lia|]. intros ->. done. }
  destruct (IH e1 w1 (L ++ data)) as (e' & w' & L' & Hrun' & Hsame' & Hp' & Hmeta' & [Hout Hin] & HL' & HlL'); [|done|done|rewrite length_app; lia|done|done|].
  { unfold has_tcp. by rewrite (proj2 Hsame). }
  exists e', w', L'. unfold run_bind. rewrite Hrun. split; [done|]. split; [by split; etrans; [apply Hsame'|apply Hsame|apply Hsame'|apply Hsame]|]. split; [done|]. split; [congruence|]. split; [|split; [done|]].
  - split.
    + intros n [Hnb Hns]%not_elem_of_cons. rewrite Hout by done. unfold pool_mem. case_decide as Hnn; [|done]. rewrite Hmem by done. by rewrite decide_False.
    + intros b' [->|Hb']%elem_of_cons.
      * exists R. unfold pool_mem at 1. rewrite decide_True by done. split; [done|]. rewrite Hout by done. unfold pool_mem. rewrite decide_True by done. rewrite Hmem by done. by rewrite decide_True.
      * destruct (Hin _ Hb') as (l & Hl & Hl'). exists l. split; [|done]. unfold pool_mem in *. rewrite Forall_forall in Hall. destruct (Hall _ Hb') as [Hnb' _].
        rewrite decide_True in * by done. rewrite Hmem in Hl by done. rewrite decide_False in Hl; [done|]. intros E. apply Hb. rewrite <- E. by apply list_elem_of_fmap_2.
  - rewrite HlL', length_app. cbn [length]. lia.
Qed.

(** ** The client's invariant *)

Notation Client := (RealClient (M := M)).
Implicit Types c : Client.

Definition rc_staged c : option (list Z) := staged (rc_engine c) (rc_world c).

Record real_inv c W : Prop := {
  ri_reach : reachable (rc_master c);
  ri_ttl : segment_ttl (rc_master c) = 0;
  ri_tcp : has_tcp (rc_engine c);
  ri_staged : is_Some (rc_staged c);
  ri_caps : ∀ n cap, (n, cap) ∈ shape (allocs (rc_master c)) → cap ≤ isize_max;
  ri_pool : pool_ok (names (rc_master c)) (rc_engine c) (rc_world c);
  ri_content : content (rc_master c) (pool_mem (names (rc_master c)) (rc_world c)) W
}.

Lemma shape_name m n cap : (n, cap) ∈ shape (allocs m) → n ∈ names m.
Proof. unfold shape, names. intros (a & [= -> ->] & Ha)%list_elem_of_fmap. by apply list_elem_of_fmap_2. Qed.
Lemma config_names m m' : config_eq m m' → names m' = names m.
Proof. intros Hc. unfold names. by rewrite (shape_names _ _ (ce_shape _ _ Hc)). Qed.

(** The master moved on without touching segments or bytes. *)
Lemma real_inv_master c W W' m :
  real_inv c W → reachable m → config_eq (rc_master c) m → content m (pool_mem (names (rc_master c)) (rc_world c)) W' →
  real_inv (mkReal m (rc_engine c) (rc_world c)) W'.
Proof.
  intros [Hr Httl Ht Hs Hcap Hp Hc] Hr' Hcfg Hc'. split; cbn [rc_master rc_engine rc_world]; rewrite ?(config_names _ _ Hcfg), ?(ce_ttl _ _ Hcfg), ?(ce_shape _ _ Hcfg); done.
Qed.

Lemma real_put_ok key identity data config c W :
  real_inv c W → op_ok (OPutStart key identity (Z.of_nat (length data)) config) (rc_master c) →
  (∀ L, rc_staged c = Some L → Z.of_nat (length L) + replica_num config * Z.of_nat (length data) ≤ isize_max) →
  ∃ r c', real_put key identity data config c = (Done r, c') ∧ real_inv c' (if is_ok r then <[key := (identity, data)]> W else W)
    ∧ (is_ok r = true → 0 < replica_num config → ∃ o id b, view (rc_master c') !! key = Some o ∧ obj_identity o = identity
        ∧ obj_replicas o !! id = Some (set_status Complete (replica_new id (Memory b))))
    ∧ (is_ok r = true → ∀ L, rc_staged c = Some L → ∃ L', rc_staged c' = Some L' ∧ Z.of_nat (length L') = Z.of_nat (length L) + replica_num config * Z.of_nat (length data))
    ∧ config_eq (rc_master c) (rc_master c').
Proof.
  intros HI Hok Hroom. pose proof HI as [Hr Httl Ht [L HL] Hcap Hp Hc]. unfold real_put.
  destruct (put_start_spec key identity (Z.of_nat (length data)) config (rc_master c) (reachable_inv _ Hr)) as (r & m1 & Hput & _ & _ & Hspec0); [apply Hok..|].
  destruct (put_start_content key identity data config _ _ _ _ _ Hr Hok Hc Hput) as (Hr1 & Hcfg & Hc1 & Hspec). rewrite Hput.
  destruct r as [bs|x].
  2: { eexists _, _. split; [done|]. cbn [is_ok]. split; [by apply (real_inv_master c W)|done]. }
  destruct Hspec as (Hclear & Hnd & Hlen & Hin & rl & Hv & Hrl).
  destruct (push_buffers_ok (names (rc_master c)) data bs (rc_engine c) (rc_world c) L Ht Hp HL) as (e' & w' & L' & Hrun & Hsame & Hp' & Hmeta & Hst & HL' & HlL');
    [rewrite Hlen; by apply Hroom|done| |].
  { apply Forall_forall. intros b Hb. destruct (Hin _ Hb) as (cap & Hs & Hle). rewrite (ce_shape _ _ Hcfg) in Hs. pose proof (Hcap _ _ Hs).
    destruct Hclear as [Hall _]. rewrite Forall_forall in Hall. destruct (Hall _ Hb) as [? ?]. split_and!; [by eapply shape_name|done|done|lia]. }
  unfold on_engine. rewrite Hrun. cbn [fst snd].
  destruct (content_stored _ _ _ _ _ _ Hc1 Hclear Hst) as [Hc1' Hmem].
  destruct (put_end_content key identity data config (rc_master c) m1 _ W bs rl Hr1 Hc1' Hv Hrl Hmem) as (m2 & -> & Hr2 & Hcfg2 & Hc2 & Hv2).
  eexists _, _. split; [done|]. cbn [is_ok rc_engine rc_world]. assert (config_eq (rc_master c) m2) as Hcfg' by (by etrans). split; [|split; [|split; [|done]]].
  - split; cbn [rc_master rc_engine rc_world]; rewrite ?(config_names _ _ Hcfg'), ?(ce_ttl _ _ Hcfg'), ?(ce_shape _ _ Hcfg'); try done.
    + unfold has_tcp. by rewrite (proj2 Hsame).
  - intros _ Hpos. destruct bs as [|b bs']; [simpl in Hlen; lia|].
    destruct Hspec0 as (_ & _ & _ & _ & _ & w & rl0 & _ & _ & Hv0 & _ & _ & Hall). destruct (Hall b) as (i & Hi); [by left|].
    rewrite Hv0, lookup_insert_eq in Hv. unfold new_object in Hv. injection Hv as ->.
    eexists _, i, b. split; [exact Hv2|]. split; [done|]. cbn. by rewrite lookup_fmap, Hi.
  - intros _ L0 HL0. exists L'. split; [done|]. assert (L0 = L) as -> by congruence. by rewrite HlL', Hlen.
Qed.

Lemma real_get_ok key identity c W :
  real_inv c W → (∀ L data, rc_staged c = Some L → W !! key = Some (identity, data) → Z.of_nat (length L) + Z.of_nat (length data) ≤ isize_max) →
  ∃ r m, get_replica_list key identity (rc_master c) = Some (r, m)
    ∧ match r with
      | Err x => real_get key identity c = (Done (Err x), mkReal m (rc_engine c) (rc_world c)) ∧ real_inv (mkReal m (rc_engine c) (rc_world c)) W
      | Ok _ => ∃ data c', W !! key = Some (identity, data) ∧ real_get key identity c = (Done (Ok data), c') ∧ real_inv c' W ∧ rc_master c' = m
          ∧ ∀ L, rc_staged c = Some L → ∃ L', rc_staged c' = Some L' ∧ Z.of_nat (length L') = Z.of_nat (length L) + Z.of_nat (length data)
      end.
Proof.
  intros HI Hroom. pose proof HI as [Hr Httl Ht [L HL] Hcap Hp Hc].
  destruct (get_replica_list_spec key identity (rc_master c) (reachable_inv _ Hr)) as (r & m & Hget & _).
  destruct (get_content key identity _ _ _ _ _ Hr Hc Hget) as (Hr1 & Hcfg & Hc1 & Hspec). exists r, m. split; [done|].
  unfold real_get. rewrite Hget. destruct r as [rs|x]; [|split; [done|by apply (real_inv_master c W)]].
  destruct Hspec as (b & l & data & Hfirst & Hl & HW & Hread & Ho & Hz & Hn). rewrite Hfirst. unfold pool_mem in Hl. rewrite decide_True in Hl by done.
  pose proof (mem_read_length _ _ _ _ Ho Hz Hread) as [Hlen _]. pose proof (Hroom _ _ HL HW).
  destruct (pull_buffer_ok (rc_engine c) (rc_world c) b L l data) as (e' & w' & l' & Hrun & Hsame & Hmeta & Hnet & Hl'); [done..|lia|done|by apply Hp|done|].
  exists data. unfold on_engine. rewrite Hrun. cbn [fst snd]. eexists. split; [done|]. split; [done|].
  assert (∀ n, n ∈ names (rc_master c) → node_mem w' n = node_mem (rc_world c) n) as Hmem.
  { intros n Hnn. apply node_mem_same; [done|]. intros ep Hep. rewrite Hnet. apply live_insert_ne. intros <-. by destruct (proj1 Hp _ Hnn). }
  assert (rc_staged (mkReal m e' w') = Some l') as Hst.
  { unfold rc_staged, staged. cbn. rewrite (proj1 Hsame), Hnet. apply live_insert. lia. }
  split; [|split; [done|intros L0 HL0; exists l'; split; [done|]; assert (L0 = L) as -> by congruence; lia]].
  split; cbn [rc_master rc_engine rc_world]; rewrite ?(config_names _ _ Hcfg), ?(ce_ttl _ _ Hcfg), ?(ce_shape _ _ Hcfg); try done.
  - unfold has_tcp. by rewrite (proj2 Hsame).
  - destruct Hp as [Hrem Hinj]. split.
    + intros n Hnn. destruct (Hrem _ Hnn) as [Hs Hne]. split; [by rewrite Hmem|]. by rewrite (node_of_meta _ _ _ Hmeta), (proj1 Hsame).
    + intros n1 n2. rewrite !(node_of_meta _ _ _ Hmeta). apply Hinj.
  - apply (content_mem m m (pool_mem (names (rc_master c)) (rc_world c))); [by apply reachable_inv|done|done|].
    intros n Hnn. unfold pool_mem. rewrite (config_names _ _ Hcfg) in Hnn. rewrite !decide_True by done. by apply Hmem.
Qed.

(** The states the client can reach: transfers have room to stage, and a mounted name is a live
    node of its own. *)
Inductive real_reach : Client → Written → Prop :=
| rr_new strategy e w : has_tcp e → is_Some (staged e w) → real_reach (real_new strategy e w) ∅
| rr_mount c W name cap c' :
    real_reach c W → mountable name cap (rc_master c) → cap ≤ isize_max → pool_ok (names (rc_master c) ++ [name]) (rc_engine c) (rc_world c) →
    real_mount name cap c = Some c' → real_reach c' W
| rr_put c W key identity data config r c' :
    real_reach c W → op_ok (OPutStart key identity (Z.of_nat (length data)) config) (rc_master c) →
    (∀ L, rc_staged c = Some L → Z.of_nat (length L) + replica_num config * Z.of_nat (length data) ≤ isize_max) →
    real_put key identity data config c = (Done r, c') → real_reach c' (if is_ok r then <[key := (identity, data)]> W else W)
| rr_get c W key identity r c' :
    real_reach c W → (∀ L data, rc_staged c = Some L → W !! key = Some (identity, data) → Z.of_nat (length L) + Z.of_nat (length data) ≤ isize_max) →
    real_get key identity c = (Done r, c') → real_reach c' W.

Lemma real_reach_inv c W : real_reach c W → real_inv c W.
Proof.
  induction 1 as [strategy e w Ht Hs|c W name cap c' _ IH Hm Hcap Hpool Hrun|c W key identity data config r c' _ IH Hok Hroom Hrun|c W key identity r c' _ IH Hroom Hrun].
  - split; cbn; [apply reach_new|done|done|done|by intros n cap []%elem_of_nil|split; [by intros n []%elem_of_nil|by intros n1 n2 []%elem_of_nil]|].
    intros k o id x Hk. exfalso. unfold view in Hk. cbn in Hk. unfold sm_new, sm_view in Hk. vm_compute in Hk. done.
  - destruct IH as [Hr Httl Ht Hs Hcaps Hp Hc]. destruct (mount_segment_spec name cap (rc_master c) (reachable_inv _ Hr) Hm) as (m & Hmount & HI & Hv & _ & Hsh & _ & _ & _ & Ht0 & _).
    unfold real_mount in Hrun. rewrite Hmount in Hrun. injection Hrun as <-.
    assert (names m = names (rc_master c) ++ [name]) as Hnm by (unfold names; rewrite !names_of_shape, Hsh, fmap_app; done).
    split; cbn [rc_master rc_engine rc_world]; try done.
    + by apply (reach_step (rc_master c) (OMount name cap)).
    + by rewrite Ht0.
    + intros n cp. rewrite Hsh, elem_of_app, list_elem_of_singleton. intros [Hn|[= -> ->]]; [by eapply Hcaps|done].
    + by rewrite Hnm.
    + apply (content_mem (rc_master c) m (pool_mem (names (rc_master c)) (rc_world c))); [by apply reachable_inv|done|done|].
      intros n Hn. unfold pool_mem. rewrite Hnm. rewrite !decide_True by (rewrite ?elem_of_app; auto). done.
  - destruct (real_put_ok key identity data config c W IH Hok Hroom) as (r' & c1 & Heq & HI & _). rewrite Hrun in Heq. by injection Heq as -> ->.
  - destruct (real_get_ok key identity c W IH Hroom) as (r' & m & _ & Hspec). destruct r' as [rs|x].
    + destruct Hspec as (data & c1 & _ & Heq & HI & _). rewrite Hrun in Heq. by injection Heq as -> ->.
    + destruct Hspec as [Heq HI]. rewrite Hrun in Heq. by injection Heq as -> ->.
Qed.


(** C24 The distributed round trip: a put returns, and when it succeeds the writer's next get returns its bytes over the wire.  Each
    replica of the put leaves a copy of the data in the client's own arena, which no operation of the client gives back. *)
Theorem real_put_get_roundtrip c W key identity data config L :
  real_reach c W → op_ok (OPutStart key identity (Z.of_nat (length data)) config) (rc_master c) → 0 < replica_num config → rc_staged c = Some L →
  Z.of_nat (length L) + (replica_num config + 1) * Z.of_nat (length data) ≤ isize_max →
  ∃ r c', real_put key identity data config c = (Done r, c')
    ∧ (r = Ok tt → (∃ c'', real_get key identity c' = (Done (Ok data), c''))
         ∧ ∃ L', rc_staged c' = Some L' ∧ Z.of_nat (length L') = Z.of_nat (length L) + replica_num config * Z.of_nat (length data)).
Proof.
  intros HI%real_reach_inv Hok Hpos HL Hroom.
  destruct (real_put_ok key identity data config c W HI Hok) as (r & c' & Hput & HI' & Hv & Hst & _); [intros L0 HL0; assert (L0 = L) as -> by congruence; lia|].
  exists r, c'. split; [done|]. intros ->. cbn [is_ok] in *. destruct (Hst eq_refl L HL) as (L' & HL' & Hlen). split; [|eauto].
  destruct (Hv eq_refl Hpos) as (o & id & b & Hk & Hid & Hi).
  destruct (get_granted key identity (rc_master c') o id b (reachable_inv _ (ri_reach _ _ HI')) (ri_ttl _ _ HI') Hk Hi) as (r1 & m1 & Hget & Hspec). rewrite decide_True in Hspec by done.
  destruct Hspec as [rs ->].
  destruct (real_get_ok key identity c' _ HI') as (r2 & m2 & Hget2 & Hspec2).
  { intros L0 d HL0 Hd. rewrite lookup_insert_eq in Hd. injection Hd as <-. assert (L0 = L') as -> by congruence. lia. }
  rewrite Hget in Hget2. injection Hget2 as <- <-. destruct Hspec2 as (d & c2 & HW & -> & _). rewrite lookup_insert_eq in HW. injection HW as <-. eauto.
Qed.
End real.

#[local] Existing Instance canonical_iter.
#[local] Existing Instance length_hash.
#[local] Existing Instance bit_codec.
#[local] Existing Instance literal_regex.
#[local] Instance cx_messages : IoMessages := {| connection_refused := "Connection refused"; unexpected_eof := "unexpected end of file" |}.

(** ** In process: a segment, a put, a get *)

Definition cx_data : list Z := [7; 8; 9].
Definition cx0 : DummyClient := dummy_new "random".
Definition cx1 : DummyClient := default cx0 (dummy_mount "s0" 100 cx0).

Lemma cx1_reach : dummy_reach cx1 ∅.
Proof.
  apply (dr_mount cx0 ∅ "s0" 100 cx1); [apply dr_new| |by vm_compute|run].
  split; [unfold MAX_SEGMENT; lia|]. split; [apply not_in_cases; vm_compute; reflexivity|]. vm_compute. discriminate.
Qed.
Lemma cx1_put : op_ok (OPutStart "k" idA (Z.of_nat (length cx_data)) (config_replicas 1)) (dc_master cx1).
Proof. split; [lia|]. split; [discriminate|]. vm_compute. discriminate. Qed.

Definition cx2 : result ErrorCode unit * DummyClient := default (Ok tt, cx1) (dummy_put "k" idA cx_data (config_replicas 1) cx1).
Lemma cx2_eq : dummy_put "k" idA cx_data (config_replicas 1) cx1 = Some cx2.
Proof. run. Qed.
Lemma cx2_ok : cx2.1 = Ok tt.
Proof. vm_compute. reflexivity. Qed.

Lemma dummy_put_get_roundtrip_witness : ∃ c'', dummy_get "k" idA cx2.2 = Some (Ok cx_data, c'').
Proof.
  destruct (dummy_put_get_roundtrip cx1 ∅ "k" idA cx_data (config_replicas 1) cx1_reach cx1_put) as (r & c' & Hput & Hget).
  rewrite cx2_eq in Hput. assert (cx2 = (r, c')) as E by congruence. pose proof cx2_ok as Hok. rewrite E in Hok |- *. cbn [fst snd] in *.
  exact (proj1 (Hget Hok ltac:(by vm_compute))).
Defined.

Lemma cx2_reach : dummy_reach cx2.2 {["k" := (idA, cx_data)]}.
Proof.
  pose proof (dr_put cx1 ∅ "k" idA cx_data (config_replicas 1) cx2.1 cx2.2 cx1_reach cx1_put) as Hr. rewrite <- surjective_pairing in Hr.
  specialize (Hr cx2_eq). rewrite cx2_ok in Hr. exact Hr.
Qed.

Lemma dummy_get_last_put_witness : ∃ r c', dummy_get "k" idB cx2.2 = Some (r, c') ∧ r ≠ Ok cx_data.
Proof.
  destruct (dummy_get_last_put cx2.2 {["k" := (idA, cx_data)]} "k" idB cx2_reach) as (r & c' & Hget & Hr). exists r, c'. split; [exact Hget|].
  intros ->. rewrite lookup_singleton_eq in Hr. discriminate Hr.
Defined.

(** ** Over the wire: client A, storage node B *)

Definition rx_world : World InMemoryMetadata := (te_init "B" "127.0.0.1:2" (mkWorld ∅ in_memory_new)).2.
Definition rx_engine : TransferEngine * World InMemoryMetadata := te_init "A" "127.0.0.1:1" rx_world.
Definition rx0 : RealClient := real_new "random" rx_engine.1 rx_engine.2.
Definition rx1 : RealClient := default rx0 (real_mount "B" 100 rx0).

Lemma rx1_reach : real_reach rx1 ∅.
Proof.
  apply (rr_mount rx0 ∅ "B" 100 rx1).
  - apply rr_new; [reflexivity|by eexists; vm_compute].
  - split; [unfold MAX_SEGMENT; lia|]. split; [apply not_in_cases; vm_compute; reflexivity|]. vm_compute. discriminate.
  - by vm_compute.
  - split.
    + intros n [[]%elem_of_nil| ->%list_elem_of_singleton]%elem_of_app. split; [by eexists; vm_compute|]. vm_compute. discriminate.
    + intros n1 n2 [[]%elem_of_nil| ->%list_elem_of_singleton]%elem_of_app [[]%elem_of_nil| ->%list_elem_of_singleton]%elem_of_app. done.
  - apply default_run. vm_compute. reflexivity.
Qed.
Lemma rx1_put : op_ok (OPutStart "k" idA (Z.of_nat (length cx_data)) (config_replicas 1)) (rc_master rx1).
Proof. split; [lia|]. split; [discriminate|]. vm_compute. discriminate. Qed.
Lemma rx1_staged : rc_staged rx1 = Some [].
Proof. vm_compute. reflexivity. Qed.
Lemma rx2_ok : (real_put "k" idA cx_data (config_replicas 1) rx1).1 = Done (Ok tt).
Proof. vm_compute. reflexivity. Qed.

Lemma real_put_get_roundtrip_witness :
  ∃ c'', real_get "k" idA (real_put "k" idA cx_data (config_replicas 1) rx1).2 = (Done (Ok cx_data), c'').
Proof.
  destruct (real_put_get_roundtrip rx1 ∅ "k" idA cx_data (config_replicas 1) [] rx1_reach rx1_put ltac:(by vm_compute) rx1_staged ltac:(by vm_compute))
    as (r & c' & Hput & Hget).
  pose proof rx2_ok as Hok. rewrite Hput in Hok |- *. cbn [fst snd] in *. injection Hok as ->. exact (proj1 (Hget eq_refl)).
Defined.


(** A mounted name that no node publishes. *)
Definition rx_lost : RealClient := default rx0 (real_mount "gone" 100 rx0).

(** A put whose transfer fails returns the error and leaves its allocation behind: the key is not readable and not revoked, and its bytes stay
    allocated on the segment. *)
Theorem failed_put_keeps_allocation :
  (real_put "k" idA cx_data (config_replicas 1) rx_lost).1 = Done (Err SegmentNotFound)
  ∧ (λ r, r.1) <$> get_replica_list "k" idA (rc_master (real_put "k" idA cx_data (config_replicas 1) rx_lost).2) = Some (Err ObjectNotReady)
  ∧ master_allocated (rc_master (real_put "k" idA cx_data (config_replicas 1) rx_lost).2) = Some 3.
Proof. split_and!; vm_compute; reflexivity. Qed.
