(* ===== verification/PersistIndex.v ===== *)
(** * The persistent residency indexes

    crates/quillcache-core/src/index_holt.rs and index_rocksdb.rs: [IndexBackend] on a
    key-value store, with a reverse index for eviction.  The stores are third-party code:
    [PrefixStore] is what the index uses of Holt's tree (put, delete, scan of a prefix),
    [OrderedDb] what it uses of RocksDB (the ordered iterator); their laws state the
    documented behaviour.  The value encoding is serde's ([ResidencyCodec]).  Calls to the
    stores succeed.

    Keys of the persistent residency indexes.

    The key encoding shared (copied) by crates/quillcache-core/src/index_rocksdb.rs and
    index_holt.rs: the fields of a residency joined by a zero byte under a namespace tag.
    The lemmas say what a prefix of such a key determines, for fields without a zero
    byte. *)
From S2P Require Import Prelude Identity MemIndex MemIndexProofs IndexLaws.

Definition SEP : Z := 0.
Definition PRIMARY : Z := 1.
Definition SECONDARY : Z := 2.

(** [str::as_bytes]. *)
Definition str_bytes (s : string) : list Z := (λ c, Z.of_N (Ascii.N_of_ascii c)) <$> String.list_ascii_of_string s.

(** ** The encoding *)

(** [buf.extend_from_slice(field); buf.push(SEP)]. *)
Definition field (s : string) : list Z := str_bytes s ++ [SEP].

Definition enc_scope (model tokenizer : string) (adapter : option string) (tenant : string) : list Z :=
  field model ++ field tokenizer ++ field (default "" adapter) ++ field tenant.

Definition scope_prefix (scope : IdentityScope) : list Z :=
  PRIMARY :: enc_scope (s_model_id scope) (s_tokenizer_id scope) (s_adapter_id scope) (s_tenant_id scope).

Definition primary_key_for (r : CacheResidency) : list Z :=
  let k := res_key r in
  PRIMARY :: enc_scope (model_id k) (tokenizer_id k) (adapter_id k) (tenant_id k)
    ++ field (prefix_hash k) ++ field (block_hash k) ++ be_bytes 4 (block_index k) ++ [SEP]
    ++ field (res_worker_id r) ++ str_bytes (tier_fmt (res_tier r)).

Definition secondary_key_for (r : CacheResidency) : list Z :=
  let k := res_key r in
  SECONDARY :: enc_scope (model_id k) (tokenizer_id k) (adapter_id k) (tenant_id k)
    ++ field (block_hash k) ++ field (res_worker_id r) ++ field (tier_fmt (res_tier r))
    ++ field (prefix_hash k) ++ be_bytes 4 (block_index k).

Definition remove_scan_prefix (scope : IdentityScope) (worker hash : string) : list Z :=
  SECONDARY :: enc_scope (s_model_id scope) (s_tokenizer_id scope) (s_adapter_id scope) (s_tenant_id scope) ++ field hash ++ field worker.

(** The prefixes [locate] and [prefix_scan] seek. *)
Definition locate_prefix (k : KvBlockKey) : list Z :=
  scope_prefix (from_key k) ++ field (prefix_hash k) ++ field (block_hash k) ++ be_bytes 4 (block_index k) ++ [SEP].
Definition scan_scope_prefix (scope : IdentityScope) (prefix : string) : list Z := scope_prefix scope ++ field prefix.

(** ** What a prefix determines *)

Lemma str_bytes_inj s t : str_bytes s = str_bytes t → s = t.
Proof.
  unfold str_bytes. intros E. rewrite <- (String.string_of_list_ascii_of_string s), <- (String.string_of_list_ascii_of_string t). f_equal.
  revert E. generalize (String.list_ascii_of_string s) (String.list_ascii_of_string t). intros l. induction l as [|c l IH]; intros [|d k] E; try done.
  injection E as Ec El. f_equal; [|by apply IH]. apply N2Z.inj in Ec.
  rewrite <- (Ascii.ascii_N_embedding c), <- (Ascii.ascii_N_embedding d). by f_equal.
Qed.

(** A string without a zero byte. *)
Definition nul_free (s : string) : Prop := SEP ∉ str_bytes s.
#[global] Instance nul_free_dec s : Decision (nul_free s).
Proof. unfold nul_free. apply _. Defined.

(** [field s ++ x] starts [field t ++ y]: the first fields agree, and the rest starts the rest. *)
Lemma sep_prefix (a b x y : list Z) : SEP ∉ a → SEP ∉ b → a ++ [SEP] ++ x `prefix_of` b ++ [SEP] ++ y → a = b ∧ x `prefix_of` y.
Proof.
  revert b. induction a as [|c a IH]; intros [|d b] Ha Hb Hp; cbn in Hp.
  - apply prefix_cons_inv_2 in Hp. done.
  - apply prefix_cons_inv_1 in Hp. subst. exfalso. apply Hb. by left.
  - apply prefix_cons_inv_1 in Hp. subst. exfalso. apply Ha. by left.
  - pose proof (prefix_cons_inv_1 _ _ _ _ Hp) as ->. apply prefix_cons_inv_2 in Hp.
    apply not_elem_of_cons in Ha as [_ Ha], Hb as [_ Hb]. by destruct (IH b Ha Hb Hp) as [-> ?].
Qed.

Lemma field_prefix s t x y : nul_free s → nul_free t → field s ++ x `prefix_of` field t ++ y ↔ s = t ∧ x `prefix_of` y.
Proof.
  intros Hs Ht. unfold field. rewrite <- !(assoc_L (++)) by apply _. split.
  - intros [E Hp]%sep_prefix; [|done..]. split; [by apply str_bytes_inj|done].
  - intros [-> Hp]. by apply prefix_app, prefix_app.
Qed.

(** Two blocks of equal length. *)
Lemma fixed_prefix (a b x y : list Z) : length a = length b → a ++ x `prefix_of` b ++ y ↔ a = b ∧ x `prefix_of` y.
Proof.
  intros Hl. split.
  - intros [k E]. rewrite <- (assoc_L (++)) in E by apply _. apply app_inj_1 in E as [-> ->]; [|done]. split; [done|by eexists].
  - intros [-> Hp]. by apply prefix_app.
Qed.

Lemma be4_inj a b : is_u32 a → is_u32 b → be_bytes 4 a = be_bytes 4 b → a = b.
Proof.
  unfold is_u32, u32_max. intros Ha Hb E. rewrite <- (from_be_bytes_be 4 a), <- (from_be_bytes_be 4 b), E; [done|..]; change (256 ^ Z.of_nat 4) with 4294967296; lia.
Qed.

(** ** Keys that the encoding separates *)

Record key_ok (k : KvBlockKey) : Prop := {
  ok_model : nul_free (model_id k);
  ok_tokenizer : nul_free (tokenizer_id k);
  ok_adapter : nul_free (default "" (adapter_id k)) ∧ adapter_id k ≠ Some "";
  ok_tenant : nul_free (tenant_id k);
  ok_prefix : nul_free (prefix_hash k);
  ok_hash : nul_free (block_hash k);
  ok_index : is_u32 (block_index k)
}.
Record scope_ok (s : IdentityScope) : Prop := {
  so_model : nul_free (s_model_id s);
  so_tokenizer : nul_free (s_tokenizer_id s);
  so_adapter : nul_free (default "" (s_adapter_id s)) ∧ s_adapter_id s ≠ Some "";
  so_tenant : nul_free (s_tenant_id s)
}.
Definition res_ok (r : CacheResidency) : Prop := key_ok (res_key r) ∧ nul_free (res_worker_id r).

Lemma key_scope_ok k : key_ok k → scope_ok (from_key k).
Proof. intros []. by split. Qed.

Lemma tier_nul_free t : nul_free (tier_fmt t).
Proof. destruct t; by apply (bool_decide_unpack _); vm_compute. Qed.
Lemma tier_fmt_inj a b : tier_fmt a = tier_fmt b → a = b.
Proof. by destruct a, b. Qed.

Lemma adapter_default (a b : option string) : a ≠ Some "" → b ≠ Some "" → default "" a = default "" b → a = b.
Proof. destruct a as [a|], b as [b|]; cbn; congruence. Qed.

(** The scope encoding separates scopes. *)
Lemma enc_scope_prefix s t x y :
  scope_ok s → scope_ok t →
  enc_scope (s_model_id s) (s_tokenizer_id s) (s_adapter_id s) (s_tenant_id s) ++ x
    `prefix_of` enc_scope (s_model_id t) (s_tokenizer_id t) (s_adapter_id t) (s_tenant_id t) ++ y
  ↔ s = t ∧ x `prefix_of` y.
Proof.
  intros [] []. unfold enc_scope. rewrite <- !(assoc_L (++)) by apply _. rewrite !field_prefix by tauto. split.
  - intros (Em & Et & Ea & En & Hp). split; [|done]. destruct s, t; cbn in *. f_equal; try done. apply adapter_default; tauto.
  - by intros [-> Hp].
Qed.

(** [k] without what is not encoded: the token count. *)
Definition same_block (k1 k2 : KvBlockKey) : Prop :=
  from_key k1 = from_key k2 ∧ prefix_hash k1 = prefix_hash k2 ∧ block_hash k1 = block_hash k2 ∧ block_index k1 = block_index k2.
#[global] Instance same_block_dec k1 k2 : Decision (same_block k1 k2).
Proof. unfold same_block. apply _. Defined.

Lemma primary_unfold r :
  primary_key_for r = scope_prefix (from_key (res_key r)) ++ field (prefix_hash (res_key r)) ++ field (block_hash (res_key r))
    ++ (be_bytes 4 (block_index (res_key r)) ++ [SEP]) ++ field (res_worker_id r) ++ str_bytes (tier_fmt (res_tier r)).
Proof. unfold primary_key_for, scope_prefix. cbn [app]. by rewrite <- !(assoc_L (++)) by apply _. Qed.

(** [locate] finds the keys of the same block, and no others. *)
Lemma locate_prefix_iff k r : key_ok k → res_ok r → locate_prefix k `prefix_of` primary_key_for r ↔ same_block k (res_key r).
Proof.
  intros Hk [Hr Hw]. rewrite primary_unfold. unfold locate_prefix, scope_prefix, same_block. cbn [app].
  assert (∀ x y, PRIMARY :: x `prefix_of` PRIMARY :: y ↔ x `prefix_of` y) as Hcons by (intros; split; [apply prefix_cons_inv_2|apply prefix_cons]).
  rewrite Hcons, (enc_scope_prefix (from_key k) (from_key (res_key r))) by (by apply key_scope_ok). destruct Hk, Hr. rewrite !field_prefix by done.
  rewrite <- (app_nil_r (be_bytes 4 (block_index k) ++ [SEP])). rewrite fixed_prefix by (by rewrite !length_app, !be_bytes_length). split.
  - intros (-> & -> & -> & E%app_inj_tail & _). destruct E as [E _]. apply be4_inj in E; done.
  - intros (-> & -> & -> & ->). split_and!; [done..|apply prefix_nil].
Qed.

Lemma scan_prefix_iff s p r :
  scope_ok s → nul_free p → res_ok r → scan_scope_prefix s p `prefix_of` primary_key_for r ↔ s = from_key (res_key r) ∧ p = prefix_hash (res_key r).
Proof.
  intros Hs Hp [Hr Hw]. rewrite primary_unfold. unfold scan_scope_prefix, scope_prefix. cbn [app].
  assert (∀ x y, PRIMARY :: x `prefix_of` PRIMARY :: y ↔ x `prefix_of` y) as Hcons by (intros; split; [apply prefix_cons_inv_2|apply prefix_cons]).
  rewrite Hcons, (enc_scope_prefix s (from_key (res_key r))) by (done || by apply key_scope_ok). destruct Hr. rewrite <- (app_nil_r (field p)), field_prefix by done.
  split; [tauto|]. intros [? ?]. split_and!; [done..|apply prefix_nil].
Qed.

Lemma remove_prefix_iff s w h r :
  scope_ok s → nul_free w → nul_free h → res_ok r →
  remove_scan_prefix s w h `prefix_of` secondary_key_for r ↔ s = from_key (res_key r) ∧ h = block_hash (res_key r) ∧ w = res_worker_id r.
Proof.
  intros Hs Hw0 Hh [Hr Hw]. unfold remove_scan_prefix, secondary_key_for.
  assert (∀ x y, SECONDARY :: x `prefix_of` SECONDARY :: y ↔ x `prefix_of` y) as Hcons by (intros; split; [apply prefix_cons_inv_2|apply prefix_cons]).
  rewrite Hcons. pose proof (enc_scope_prefix s (from_key (res_key r))) as He. cbn [from_key s_model_id s_tokenizer_id s_adapter_id s_tenant_id] in He.
  rewrite He by (done || by apply key_scope_ok). destruct Hr. rewrite <- (app_nil_r (field w)), !field_prefix by done.
  split; [tauto|]. intros (? & ? & ?). split_and!; [done..|apply prefix_nil].
Qed.

(** What one slot of the store holds. *)
Definition same_record (a b : CacheResidency) : Prop :=
  same_block (res_key a) (res_key b) ∧ res_worker_id a = res_worker_id b ∧ res_tier a = res_tier b.
#[global] Instance same_record_dec a b : Decision (same_record a b).
Proof. unfold same_record. apply _. Defined.

Lemma primary_inj a b : res_ok a → res_ok b → primary_key_for a = primary_key_for b ↔ same_record a b.
Proof.
  intros [Ha Hwa] [Hb Hwb]. split.
  - intros E. assert (primary_key_for a `prefix_of` primary_key_for b) as Hp by (by rewrite E). rewrite !primary_unfold in Hp. unfold scope_prefix in Hp. cbn [app] in Hp.
    apply prefix_cons_inv_2 in Hp. rewrite (enc_scope_prefix (from_key (res_key a)) (from_key (res_key b))) in Hp by (by apply key_scope_ok). destruct Ha, Hb. rewrite !field_prefix in Hp by done.
    rewrite fixed_prefix in Hp by (by rewrite !length_app, !be_bytes_length). rewrite field_prefix in Hp by done. destruct Hp as (E1 & E2 & E3 & E4 & E5 & Ht).
    apply app_inj_tail in E4 as [E4 _]. apply be4_inj in E4; [|done..]. split; [by split_and!|]. split; [done|].
    rewrite !primary_unfold in E. unfold scope_prefix in E. rewrite E1, E2, E3, E4, E5 in E. repeat apply app_inv_head in E. by apply tier_fmt_inj, str_bytes_inj.
  - intros ((E1 & E2 & E3 & E4) & E5 & E6). rewrite !primary_unfold. by rewrite E1, E2, E3, E4, E5, E6.
Qed.

Lemma same_record_secondary a b : same_record a b → secondary_key_for a = secondary_key_for b.
Proof.
  intros ((E1 & E2 & E3 & E4) & E5 & E6). unfold secondary_key_for. unfold from_key in E1. injection E1 as -> -> -> ->. by rewrite E2, E3, E4, E5, E6.
Qed.

Lemma secondary_inj a b : res_ok a → res_ok b → secondary_key_for a = secondary_key_for b ↔ same_record a b.
Proof.
  intros [Ha Hwa] [Hb Hwb]. split; [|apply same_record_secondary]. intros E.
  assert (secondary_key_for a `prefix_of` secondary_key_for b) as Hp by (by rewrite E). unfold secondary_key_for in Hp. apply prefix_cons_inv_2 in Hp.
  pose proof (enc_scope_prefix (from_key (res_key a)) (from_key (res_key b))) as He. cbn [from_key s_model_id s_tokenizer_id s_adapter_id s_tenant_id] in He.
  rewrite He in Hp by (by apply key_scope_ok). destruct Ha, Hb. rewrite !field_prefix in Hp by (done || apply tier_nul_free).
  destruct Hp as (E1 & E2 & E3 & E4 & E5 & Hx). rewrite <- (app_nil_r (be_bytes 4 (block_index (res_key a)))), <- (app_nil_r (be_bytes 4 (block_index (res_key b)))) in Hx.
  rewrite fixed_prefix in Hx by (by rewrite !be_bytes_length). destruct Hx as [Hx _]. apply be4_inj in Hx; [|done..]. apply tier_fmt_inj in E4.
  split; [by split_and!|by split].
Qed.

(** [serde_json::to_vec] and [from_slice] on a residency. *)
Class ResidencyCodec : Type := {
  enc_res : CacheResidency → list Z;
  dec_res : list Z → option CacheResidency;
  dec_enc_res : ∀ r, dec_res (enc_res r) = Some r
}.

(** A key-value store with prefix scans.  [kv_delete] also says whether the caller counts
    the deletion. *)
Class PrefixStore (D : Type) : Type := {
  kv_put : list Z → list Z → D → D;
  kv_delete : list Z → D → bool * D;
  kv_scan : list Z → D → list (list Z * list Z);
  kv_keys : D → list (list Z)
}.
Class PrefixStoreLaws (D : Type) `{PrefixStore D} : Type := {
  kv_view : D → gmap (list Z) (list Z);
  kv_view_put : ∀ k v d, kv_view (kv_put k v d) = <[k := v]> (kv_view d);
  kv_view_delete : ∀ k d, kv_view (kv_delete k d).2 = delete k (kv_view d);
  kv_delete_present : ∀ k d, is_Some (kv_view d !! k) → (kv_delete k d).1 = true;
  kv_scan_spec : ∀ p d, kv_scan p d ≡ₚ filter (λ kv, p `prefix_of` kv.1) (map_to_list (kv_view d));
  kv_keys_spec : ∀ k d, k ∈ kv_keys d ↔ is_Some (kv_view d !! k)
}.

(** ** The index *)

Section index.
Context `{ResidencyCodec} {D : Type} `{PrefixStore D}.
Implicit Types d : D.

Definition scan_prefix (prefix : list Z) d : list CacheResidency := omap (λ kv, dec_res kv.2) (kv_scan prefix d).

Definition pi_put (r : CacheResidency) d : D :=
  let primary := primary_key_for r in
  let d := kv_put primary (enc_res r) d in
  kv_put (secondary_key_for r) primary d.

Definition pi_locate (key : KvBlockKey) d : list CacheResidency := scan_prefix (locate_prefix key) d.
Definition pi_prefix_scan (scope : IdentityScope) (prefix : string) d : list CacheResidency := scan_prefix (scan_scope_prefix scope prefix) d.

(** Delete the pairs (secondary, primary), counting the primaries. *)
Fixpoint delete_pairs (pairs : list (list Z * list Z)) (removed : Z) d : Z * D :=
  match pairs with
  | [] => (removed, d)
  | (secondary, primary) :: pairs =>
      let '(counted, d) := kv_delete primary d in
      let d := (kv_delete secondary d).2 in
      delete_pairs pairs (if (counted : bool) then removed + 1 else removed) d
  end.

Definition pi_remove_block (scope : IdentityScope) (worker hash : string) d : Z * D :=
  delete_pairs (kv_scan (remove_scan_prefix scope worker hash) d) 0 d.

Definition pi_clear_worker (worker : string) d : D :=
  let to_delete := omap (λ kv, r ← dec_res kv.2;
      if bool_decide (res_worker_id r = worker) then Some (secondary_key_for r, kv.1) else None) (kv_scan [PRIMARY] d) in
  (delete_pairs to_delete 0 d).2.

Definition pi_clear d : D := foldl (λ d k, (kv_delete k d).2) d (kv_keys d).

Definition pi_snapshot d : list CacheResidency := scan_prefix [PRIMARY] d.
Definition pi_len d : Z := Z.of_nat (length (kv_scan [PRIMARY] d)).

(** The trait's default scan of the snapshot. *)
Definition pi_by_content_hash (hash : string) d : list CacheResidency := filter (λ r, block_hash (res_key r) = hash) (pi_snapshot d).

(** [bytes_written] is the store's size on disk. *)
Definition pi_metrics (on_disk : D → Z) d : option (Z * Z * Z) :=
  bytes ← u64_sum (res_bytes <$> pi_snapshot d);
  Some (Z.of_nat (length (pi_snapshot d)), bytes, on_disk d).

#[global] Instance persist_backend : IndexBackend D := {|
  ix_put r d := Some (pi_put r d);
  ix_locate := pi_locate;
  ix_prefix_scan := pi_prefix_scan;
  ix_remove_block sc w h d := Some (pi_remove_block sc w h d);
  ix_clear_worker := pi_clear_worker;
  ix_clear := pi_clear;
  ix_snapshot := pi_snapshot;
  ix_residency_by_content_hash := pi_by_content_hash;
  ix_len := pi_len
|}.
End index.

(** ** RocksDB: scans by an ordered iterator *)

(** Bytewise order. *)
Fixpoint lex_le (a b : list Z) : bool :=
  match a, b with
  | [], _ => true
  | _ :: _, [] => false
  | x :: a, y :: b => (x <? y) || ((x =? y) && lex_le a b)
  end.

Class OrderedDb (D : Type) : Type := {
  db_put : list Z → list Z → D → D;
  db_delete : list Z → D → D;
  (* [IteratorMode::From(p, Forward)] *)
  db_iter_from : list Z → D → list (list Z * list Z)
}.
Class OrderedDbLaws (D : Type) `{OrderedDb D} : Type := {
  db_view : D → gmap (list Z) (list Z);
  db_view_put : ∀ k v d, db_view (db_put k v d) = <[k := v]> (db_view d);
  db_view_delete : ∀ k d, db_view (db_delete k d) = delete k (db_view d);
  db_iter_elems : ∀ p d, db_iter_from p d ≡ₚ filter (λ kv, lex_le p kv.1 = true) (map_to_list (db_view d));
  db_iter_sorted : ∀ p d, StronglySorted (λ a b, lex_le a.1 b.1 = true) (db_iter_from p d)
}.

(** [for (k, v) in iterator { if !k.starts_with(prefix) { break } .. }]. *)
Fixpoint take_prefix (prefix : list Z) (items : list (list Z * list Z)) : list (list Z * list Z) :=
  match items with
  | [] => []
  | (k, v) :: items => if bool_decide (prefix `prefix_of` k) then (k, v) :: take_prefix prefix items else []
  end.

Record RocksDb (D : Type) : Type := mkRocks { rocks_db : D }.
Arguments mkRocks {D} _.
Arguments rocks_db {D} _.

Section rocks.
Context {D : Type} `{OrderedDb D}.

(** A deletion succeeds whether or not the key is present. *)
#[global] Instance rocks_store : PrefixStore (RocksDb D) := {|
  kv_put k v d := mkRocks (db_put k v (rocks_db d));
  kv_delete k d := (true, mkRocks (db_delete k (rocks_db d)));
  kv_scan p d := take_prefix p (db_iter_from p (rocks_db d));
  kv_keys d := (db_iter_from [] (rocks_db d)).*1
|}.

Lemma lex_le_cons x y a b : lex_le (x :: a) (y :: b) = true ↔ x < y ∨ x = y ∧ lex_le a b = true.
Proof. cbn. by rewrite orb_true_iff, andb_true_iff, Z.ltb_lt, Z.eqb_eq. Qed.

(** Keys from [p] on that do not start with [p] come after all that do. *)
Lemma lex_prefix_convex p a b : lex_le p a = true → lex_le a b = true → p `prefix_of` b → p `prefix_of` a.
Proof.
  revert a b. induction p as [|x p IH]; intros a b Hpa Hab Hp; [apply prefix_nil|].
  destruct b as [|z b]; [by apply prefix_nil_not in Hp|]. pose proof (prefix_cons_inv_1 _ _ _ _ Hp) as <-. apply prefix_cons_inv_2 in Hp.
  destruct a as [|y a]; [done|]. apply lex_le_cons in Hpa, Hab.
  destruct Hpa as [?|[E1 Hpa]], Hab as [?|[E2 Hab]]; try lia. subst y. by apply prefix_cons, (IH a b).
Qed.

Lemma lex_le_prefix p a : p `prefix_of` a → lex_le p a = true.
Proof.
  revert a. induction p as [|x p IH]; intros a Hp; [done|]. destruct a as [|y a]; [by apply prefix_nil_not in Hp|].
  pose proof (prefix_cons_inv_1 _ _ _ _ Hp) as <-. apply prefix_cons_inv_2 in Hp. apply lex_le_cons. auto.
Qed.

(** Stopping at the first key outside the prefix misses none inside. *)
Lemma take_prefix_filter p items :
  StronglySorted (λ a b, lex_le a.1 b.1 = true) items → Forall (λ kv, lex_le p kv.1 = true) items →
  take_prefix p items = filter (λ kv, p `prefix_of` kv.1) items.
Proof.
  induction 1 as [|[k v] items Hs IH Hall]; intros Hp; [done|]. apply Forall_cons in Hp as [Hk Hp]. cbn [take_prefix]. rewrite filter_cons. cbn [fst] in *.
  case_bool_decide as Hpre; [rewrite decide_True by done; by rewrite IH|]. rewrite decide_False by done. symmetry. apply list_filter_none.
  intros [k' v'] Hin Hpre'. rewrite Forall_forall in Hall. apply Hpre. by apply (lex_prefix_convex p k k'); [|apply (Hall _ Hin)|].
Qed.

#[global] Instance rocks_laws `{!OrderedDbLaws D} : PrefixStoreLaws (RocksDb D).
Proof.
  refine {| kv_view d := db_view (rocks_db d) |}.
  - intros. apply db_view_put.
  - intros. apply db_view_delete.
  - done.
  - intros p d. assert (Forall (λ kv, lex_le p kv.1 = true) (db_iter_from p (rocks_db d))) as Hle.
    { apply Forall_forall. intros kv. rewrite db_iter_elems. by intros [? _]%list_elem_of_filter. }
    change (kv_scan p d) with (take_prefix p (db_iter_from p (rocks_db d))). rewrite take_prefix_filter by (done || apply db_iter_sorted). rewrite db_iter_elems. rewrite list_filter_filter.
    erewrite list_filter_iff; [done|]. intros [k v]. cbn. split; [tauto|]. intros Hp. split; [done|by apply lex_le_prefix].
  - intros k d. split.
    + intros ([k' v] & -> & Hin)%list_elem_of_fmap. rewrite db_iter_elems in Hin. apply list_elem_of_filter in Hin as [_ Hin%elem_of_map_to_list]. eauto.
    + intros [v Hv]. apply list_elem_of_fmap. exists (k, v). split; [done|]. rewrite db_iter_elems. apply list_elem_of_filter. split; [done|]. by apply elem_of_map_to_list.
Defined.

(** The index on RocksDB. *)
Definition rocks_index `{ResidencyCodec} : IndexBackend (RocksDb D) := persist_backend.
End rocks.
