(* ===== verification/PersistProofs.v ===== *)
(** * The persistent indexes refine a table of residencies

    The store holds, for every residency of an abstract table, its primary record and its
    reverse-index entry, and nothing else ([pinv]); every operation of the index keeps this
    and does to the table what the trait says. *)
From S2P Require Import Prelude Identity MemIndex MemIndexProofs IndexLaws PersistIndex.

Lemma filter_iff_in {A} (P Q : A → Prop) `{!∀ x, Decision (P x)} `{!∀ x, Decision (Q x)} (l : list A) :
  (∀ x, x ∈ l → P x ↔ Q x) → filter P l = filter Q l.
Proof.
  induction l as [|x l IH]; intros Hl; [done|]. rewrite !filter_cons, IH by (intros; apply Hl; by right).
  assert (P x ↔ Q x) as Hx by (apply Hl; by left). destruct (decide (P x)), (decide (Q x)); tauto.
Qed.

(** The table: residencies by primary key. *)
Notation Table := (gmap (list Z) CacheResidency).

Section refine.
Context `{ResidencyCodec} {D : Type} `{PrefixStore D, !PrefixStoreLaws D}.
Implicit Types (d : D) (A : Table) (r : CacheResidency).

Record pinv d A : Prop := {
  pi_table : ∀ k r, A !! k = Some r → res_ok r ∧ k = primary_key_for r;
  pi_store : ∀ k v, kv_view d !! k = Some v ↔
    (∃ r, A !! k = Some r ∧ v = enc_res r) ∨ (∃ p r, A !! p = Some r ∧ k = secondary_key_for r ∧ v = p)
}.

Definition recs A : list CacheResidency := (map_to_list A).*2.

Lemma elem_of_recs A r : r ∈ recs A ↔ ∃ k, A !! k = Some r.
Proof.
  unfold recs. rewrite list_elem_of_fmap. split.
  - intros ([k r'] & -> & Hin%elem_of_map_to_list). eauto.
  - intros [k Hk]. exists (k, r). split; [done|]. by apply elem_of_map_to_list.
Qed.

Lemma recs_filter A (P : CacheResidency → Prop) `{!∀ r, Decision (P r)} : recs (filter (λ kr, P kr.2) A) ≡ₚ filter P (recs A).
Proof.
  unfold recs. apply (map_ind (λ A, (map_to_list (filter (λ kr, P kr.2) A)).*2 ≡ₚ filter P (map_to_list A).*2)); [by rewrite map_filter_empty, map_to_list_empty|].
  intros k r m Hm IH. rewrite map_to_list_insert by done. rewrite fmap_cons, filter_cons. cbn [snd]. destruct (decide (P r)) as [HP|HP].
  - rewrite map_filter_insert_True by done. rewrite map_to_list_insert; [by rewrite fmap_cons, IH|]. apply map_lookup_filter_None. by left.
  - by rewrite map_filter_insert_not' by (done || (intros ? E; by rewrite Hm in E)).
Qed.

(** What a scan of either namespace yields. *)
Lemma scan_primary d A q :
  pinv d A → kv_scan (PRIMARY :: q) d ≡ₚ (λ kr, (kr.1, enc_res kr.2)) <$> filter (λ kr, PRIMARY :: q `prefix_of` kr.1) (map_to_list A).
Proof.
  intros HI. rewrite kv_scan_spec. apply NoDup_Permutation.
  - apply NoDup_filter, NoDup_map_to_list.
  - apply NoDup_fmap_2_strong; [|apply NoDup_filter, NoDup_map_to_list].
    intros [k1 r1] [k2 r2] [_ Ha]%list_elem_of_filter [_ Hb]%list_elem_of_filter. apply elem_of_map_to_list in Ha, Hb. cbn. intros [= -> _]. congruence.
  - intros [k v]. rewrite list_elem_of_filter, elem_of_map_to_list, (pi_store _ _ HI), list_elem_of_fmap. split.
    + intros [Hp [(r & Hr & ->)|(p & r & Hr & -> & ->)]]; [|by apply prefix_cons_inv_1 in Hp].
      exists (k, r). split; [done|]. apply list_elem_of_filter. split; [done|]. by apply elem_of_map_to_list.
    + intros ([k' r] & [= -> ->] & [Hp Hr%elem_of_map_to_list]%list_elem_of_filter). split; [done|]. eauto.
Qed.

Lemma scan_secondary d A q :
  pinv d A → kv_scan (SECONDARY :: q) d ≡ₚ (λ kr, (secondary_key_for kr.2, kr.1)) <$> filter (λ kr, SECONDARY :: q `prefix_of` secondary_key_for kr.2) (map_to_list A).
Proof.
  intros HI. rewrite kv_scan_spec. apply NoDup_Permutation.
  - apply NoDup_filter, NoDup_map_to_list.
  - apply NoDup_fmap_2_strong; [|apply NoDup_filter, NoDup_map_to_list].
    intros [k1 r1] [k2 r2] [_ Ha]%list_elem_of_filter [_ Hb]%list_elem_of_filter. apply elem_of_map_to_list in Ha, Hb. cbn. intros [= _ ->]. congruence.
  - intros [k v]. rewrite list_elem_of_filter, elem_of_map_to_list, (pi_store _ _ HI), list_elem_of_fmap. split.
    + intros [Hp [(r & Hr & ->)|(p & r & Hr & -> & ->)]].
      * destruct (pi_table _ _ HI _ _ Hr) as [_ ->]. by apply prefix_cons_inv_1 in Hp.
      * exists (p, r). split; [done|]. apply list_elem_of_filter. split; [done|]. by apply elem_of_map_to_list.
    + intros ([k' r] & [= -> ->] & [Hp Hr%elem_of_map_to_list]%list_elem_of_filter). split; [done|]. eauto 10.
Qed.

(** Residencies of the table whose primary key extends a prefix. *)
Lemma scan_prefix_recs d A q : pinv d A → scan_prefix (PRIMARY :: q) d ≡ₚ filter (λ r, PRIMARY :: q `prefix_of` primary_key_for r) (recs A).
Proof.
  intros HI. unfold scan_prefix. rewrite (scan_primary d A q HI). unfold recs.
  assert (∀ kr, kr ∈ map_to_list A → kr.1 = primary_key_for kr.2) as Hk.
  { intros [k r] Hr%elem_of_map_to_list. by destruct (pi_table _ _ HI _ _ Hr). }
  revert Hk. generalize (map_to_list A). intros l Hk. induction l as [|[k r] l IH]; [done|]. rewrite fmap_cons, !filter_cons. cbn [fst snd].
  assert (k = primary_key_for r) as -> by (apply (Hk (k, r)); by left).
  destruct (decide (PRIMARY :: q `prefix_of` primary_key_for r)); cbn; [rewrite dec_enc_res|]; (rewrite <- IH; [done|]; intros; apply Hk; by right).
Qed.

(** ** Writes *)

Lemma primary_not_secondary r r' : primary_key_for r ≠ secondary_key_for r'.
Proof. done. Qed.

Lemma pi_put_inv d A r : pinv d A → res_ok r → pinv (pi_put r d) (<[primary_key_for r := r]> A).
Proof.
  intros [Ht Hs] Hr. split.
  - intros k x [(<- & <-)|(_ & Hk)]%lookup_insert_Some; [done|by apply Ht].
  - intros k v. unfold pi_put. rewrite !kv_view_put. rewrite lookup_insert_Some. split.
    + intros [(<- & <-)|(Hne & [(<- & <-)|(Hne' & Hv)]%lookup_insert_Some)].
      * right. exists (primary_key_for r), r. by rewrite lookup_insert_eq.
      * left. exists r. by rewrite lookup_insert_eq.
      * apply Hs in Hv as [(x & Hx & ->)|(p & x & Hx & -> & ->)]; [left; exists x; by rewrite lookup_insert_ne|].
        right. exists p, x. split; [|done]. rewrite lookup_insert_ne; [done|]. intros <-.
        destruct (Ht _ _ Hx) as [Hxok E]. apply primary_inj in E; [|done..]. by apply same_record_secondary in E.
    + intros [(x & Hx & ->)|(p & x & Hx & -> & ->)].
      * right. split; [intros E; apply lookup_insert_Some in Hx as [(<- & <-)|(_ & Hx)]; [done|destruct (Ht _ _ Hx) as [_ ->]; done]|].
        apply lookup_insert_Some in Hx as [(<- & <-)|(Hne & Hx)]; [by rewrite lookup_insert_eq|]. rewrite lookup_insert_ne by done. apply Hs. eauto.
      * apply lookup_insert_Some in Hx as [(<- & <-)|(Hne & Hx)]; [by left|]. right.
        destruct (Ht _ _ Hx) as [Hxok E]. split.
        -- intros E2. apply Hne. subst p. apply primary_inj; [done..|]. by apply secondary_inj.
        -- rewrite lookup_insert_ne by done. apply Hs. eauto 10.
Qed.

(** Deleting pairs: every key named goes, and the primaries present are counted. *)
Lemma delete_pairs_view pairs n d :
  NoDup pairs.*2 → (∀ s p, (s, p) ∈ pairs → is_Some (kv_view d !! p) ∧ ∀ s' p', (s', p') ∈ pairs → s' ≠ p) →
  (delete_pairs pairs n d).1 = n + Z.of_nat (length pairs)
  ∧ ∀ k, kv_view (delete_pairs pairs n d).2 !! k = if decide (k ∈ pairs.*1 ∨ k ∈ pairs.*2) then None else kv_view d !! k.
Proof.
  revert n d. induction pairs as [|[s p] pairs IH]; intros n d Hnd Hin; cbn [delete_pairs].
  { split; [cbn; lia|]. intros k. rewrite decide_False; [done|]. by intros [[]%elem_of_nil|[]%elem_of_nil]. }
  rewrite fmap_cons in Hnd. apply NoDup_cons in Hnd as [Hp Hnd]. destruct (Hin s p) as [Hsome _]; [by left|].
  pose proof (kv_delete_present _ _ Hsome) as Hc. pose proof (kv_view_delete p d) as Hv. destruct (kv_delete p d) as [c d1]. cbn in Hc, Hv. subst c.
  destruct (IH (n + 1) (kv_delete s d1).2 Hnd) as [Hn Hview].
  { intros s' p' Hsp. destruct (Hin s' p') as [Hs Hd]; [by right|]. split; [|intros; apply (Hd s'0 p'0); by right].
    rewrite kv_view_delete, Hv. rewrite !lookup_delete_ne; [done| |]; [intros <-; apply Hp; by apply (list_elem_of_fmap_2 snd pairs (s', p))|].
    apply (Hd s p). by left. }
  split; [rewrite Hn; cbn; lia|]. intros k. rewrite Hview, kv_view_delete, Hv, !fmap_cons. cbn [fst snd].
  destruct (decide (k ∈ pairs.*1 ∨ k ∈ pairs.*2)) as [Hk|Hk]; [rewrite decide_True; [done|set_solver]|].
  destruct (decide (k = s)) as [->|Hs]; [rewrite lookup_delete_eq, decide_True; [done|set_solver]|].
  rewrite (lookup_delete_ne _ s k) by done. destruct (decide (k = p)) as [->|Hkp]; [rewrite lookup_delete_eq, decide_True; [done|set_solver]|].
  rewrite lookup_delete_ne by done. rewrite decide_False; [done|set_solver].
Qed.

(** Deleting both entries of some residencies of the table. *)
Lemma delete_records d A (P : CacheResidency → Prop) `{!∀ r, Decision (P r)} pairs n :
  pinv d A → pairs ≡ₚ (λ kr, (secondary_key_for kr.2, kr.1)) <$> filter (λ kr, P kr.2) (map_to_list A) →
  (delete_pairs pairs n d).1 = n + Z.of_nat (length (filter P (recs A)))
  ∧ pinv (delete_pairs pairs n d).2 (filter (λ kr, ¬ P kr.2) A).
Proof.
  intros HI Hpairs. pose proof HI as [Ht Hs].
  assert (∀ s p, (s, p) ∈ pairs ↔ ∃ r, A !! p = Some r ∧ P r ∧ s = secondary_key_for r) as Hin.
  { intros s p. rewrite Hpairs, list_elem_of_fmap. split.
    - intros ([k r] & [= -> ->] & [Hp Hr%elem_of_map_to_list]%list_elem_of_filter). eauto.
    - intros (r & Hr & HP & ->). exists (p, r). split; [done|]. apply list_elem_of_filter. split; [done|]. by apply elem_of_map_to_list. }
  assert (∀ k, k ∈ pairs.*2 ↔ ∃ r, A !! k = Some r ∧ P r) as Hin2.
  { intros k. rewrite list_elem_of_fmap. split; [intros ([s p] & -> & (r & ? & ? & _)%Hin); eauto|]. intros (r & Hr & HP). exists (secondary_key_for r, k). split; [done|]. apply Hin. eauto. }
  assert (∀ k, k ∈ pairs.*1 ↔ ∃ p r, A !! p = Some r ∧ P r ∧ k = secondary_key_for r) as Hin1.
  { intros k. rewrite list_elem_of_fmap. split; [intros ([s p] & -> & (r & ? & ? & ?)%Hin); eauto 10|]. intros (p & r & Hr & HP & ->). exists (secondary_key_for r, p). split; [done|]. apply Hin. eauto. }
  destruct (delete_pairs_view pairs n d) as [Hn Hview].
  - rewrite Hpairs. rewrite <- list_fmap_compose. apply NoDup_fmap_2_strong; [|apply NoDup_filter, NoDup_map_to_list].
    intros [k1 r1] [k2 r2] [_ Ha]%list_elem_of_filter [_ Hb]%list_elem_of_filter. apply elem_of_map_to_list in Ha, Hb. cbn. intros ->. congruence.
  - intros s p (r & Hr & HP & ->)%Hin. split; [exists (enc_res r); apply Hs; eauto|]. intros s' p' (r' & Hr' & _ & ->)%Hin. destruct (Ht _ _ Hr) as [_ ->]. done.
  - split.
    { rewrite Hn. f_equal. f_equal. rewrite (Permutation_length Hpairs), length_fmap. unfold recs. clear. induction (map_to_list A) as [|[k r] l IH]; [done|].
      rewrite fmap_cons, !filter_cons. cbn [snd]. destruct (decide (P r)); cbn; by rewrite IH. }
    split.
    + intros k r [Hr _]%map_lookup_filter_Some. by apply Ht.
    + intros k v. rewrite Hview. case_decide as Hk.
      * split; [done|]. intros [(r & [Hr HP]%map_lookup_filter_Some & ->)|(p & r & [Hr HP]%map_lookup_filter_Some & -> & ->)]; exfalso; destruct Hk as [Hk|Hk].
        -- apply Hin1 in Hk as (p & r' & _ & _ & ->). destruct (Ht _ _ Hr) as [_ E]. done.
        -- apply Hin2 in Hk as (r' & Hr' & HP'). cbn in HP. congruence.
        -- apply Hin1 in Hk as (p' & r' & Hr' & HP' & E). cbn in HP. destruct (Ht _ _ Hr) as [Hok ->], (Ht _ _ Hr') as [Hok' ->].
           apply secondary_inj in E; [|done..]. apply primary_inj in E; [|done..]. rewrite E in Hr. congruence.
        -- apply Hin2 in Hk as (r' & Hr' & _). destruct (Ht _ _ Hr') as [_ E]. done.
      * rewrite Hs. split.
        -- intros [(r & Hr & ->)|(p & r & Hr & -> & ->)].
           ++ left. exists r. split; [|done]. apply map_lookup_filter_Some. split; [done|]. cbn. intros HP. apply Hk. right. apply Hin2. eauto.
           ++ right. exists p, r. split; [|done]. apply map_lookup_filter_Some. split; [done|]. cbn. intros HP. apply Hk. left. apply Hin1. eauto 10.
        -- intros [(r & [Hr _]%map_lookup_filter_Some & ->)|(p & r & [Hr _]%map_lookup_filter_Some & -> & ->)]; [left; eauto|right; eauto 10].
Qed.

(** ** The operations on the table *)

Definition evicted (sc : IdentityScope) (w h : string) r : Prop := sc = from_key (res_key r) ∧ h = block_hash (res_key r) ∧ w = res_worker_id r.
#[global] Instance evicted_dec sc w h r : Decision (evicted sc w h r).
Proof. unfold evicted. apply _. Defined.

Lemma table_res_ok d A k r : pinv d A → A !! k = Some r → res_ok r.
Proof. intros HI Hr. by destruct (pi_table _ _ HI _ _ Hr). Qed.

Lemma filter_map_to_list_iff A (P Q : list Z * CacheResidency → Prop) `{!∀ x, Decision (P x)} `{!∀ x, Decision (Q x)} :
  (∀ k r, A !! k = Some r → P (k, r) ↔ Q (k, r)) → filter P (map_to_list A) = filter Q (map_to_list A).
Proof.
  intros HPQ. apply filter_iff_in. intros [k r] Hr%elem_of_map_to_list. by apply HPQ.
Qed.

Lemma pi_remove_block_spec d A sc w h :
  pinv d A → scope_ok sc → nul_free w → nul_free h →
  (pi_remove_block sc w h d).1 = Z.of_nat (length (filter (evicted sc w h) (recs A)))
  ∧ pinv (pi_remove_block sc w h d).2 (filter (λ kr, ¬ evicted sc w h kr.2) A).
Proof.
  intros HI Hsc Hw Hh. unfold pi_remove_block. rewrite <- (Z.add_0_l (Z.of_nat _)). apply delete_records; [done|].
  unfold remove_scan_prefix. rewrite (scan_secondary d A _ HI). erewrite filter_map_to_list_iff; [done|]. intros k r Hr. cbn [snd].
  apply remove_prefix_iff; [done..|by eapply table_res_ok].
Qed.

Lemma pi_clear_worker_spec d A w : pinv d A → pinv (pi_clear_worker w d) (filter (λ kr, ¬ res_worker_id kr.2 = w) A).
Proof.
  intros HI. unfold pi_clear_worker. refine (proj2 (delete_records d A (λ r, res_worker_id r = w) _ 0 HI _)).
  rewrite (scan_primary d A [] HI). rewrite (filter_map_to_list_iff A _ (λ _, True)).
  - clear HI. induction (map_to_list A) as [|[k r] l IH]; [done|]. rewrite !filter_cons, decide_True by done. cbn [fmap list_fmap omap list_omap snd fst].
    rewrite dec_enc_res. cbn [mbind option_bind]. case_bool_decide as E; [rewrite decide_True by done; cbn; by rewrite IH|by rewrite decide_False].
  - intros k r Hr. destruct (pi_table _ _ HI _ _ Hr) as [_ ->]. split; [done|]. intros _. apply prefix_cons, prefix_nil.
Qed.

Lemma pi_clear_spec d A : pinv d A → pinv (pi_clear d) ∅.
Proof.
  intros HI. assert (∀ ks d k, kv_view (foldl (λ d k, (kv_delete k d).2) d ks) !! k = if decide (k ∈ ks) then None else kv_view d !! k) as Hfold.
  { intros ks. induction ks as [|x ks IH]; intros d0 k; cbn [foldl]; [by rewrite decide_False by set_solver|]. rewrite IH, kv_view_delete.
    destruct (decide (k = x)) as [->|]; [rewrite lookup_delete_eq, (decide_True (P := x ∈ x :: ks)) by set_solver; by case_decide|].
    rewrite lookup_delete_ne by done. do 2 case_decide; set_solver. }
  split; [done|]. intros k v. unfold pi_clear. rewrite Hfold. split.
  - case_decide as Hd; [done|]. intros Hv. exfalso. apply Hd, kv_keys_spec. eauto.
  - intros [(r & ? & _)|(p & r & ? & _)]; done.
Qed.

Lemma pi_snapshot_spec d A : pinv d A → pi_snapshot d ≡ₚ recs A.
Proof.
  intros HI. unfold pi_snapshot. rewrite (scan_prefix_recs d A [] HI). rewrite list_filter_all; [done|]. intros r _. apply prefix_cons, prefix_nil.
Qed.

Lemma pi_len_spec d A : pinv d A → pi_len d = Z.of_nat (length (recs A)).
Proof.
  intros HI. unfold pi_len. rewrite (scan_primary d A [] HI), length_fmap, list_filter_all; [unfold recs; by rewrite length_fmap|].
  intros [k r] Hr%elem_of_map_to_list. destruct (pi_table _ _ HI _ _ Hr) as [_ ->]. apply prefix_cons, prefix_nil.
Qed.

Lemma filter_recs_iff d A (P Q : CacheResidency → Prop) `{!∀ x, Decision (P x)} `{!∀ x, Decision (Q x)} :
  pinv d A → (∀ r, res_ok r → P r ↔ Q r) → filter P (recs A) = filter Q (recs A).
Proof.
  intros HI HPQ. apply filter_iff_in. intros r [k Hr]%elem_of_recs. by apply HPQ, (table_res_ok d A k r).
Qed.

Lemma pi_locate_spec d A k : pinv d A → key_ok k → pi_locate k d ≡ₚ filter (λ r, same_block k (res_key r)) (recs A).
Proof.
  intros HI Hk. unfold pi_locate, locate_prefix, scope_prefix. cbn [app]. rewrite (scan_prefix_recs d A _ HI).
  erewrite (filter_recs_iff d A); [done..|]. intros r Hr. by apply (locate_prefix_iff k r).
Qed.

Lemma pi_prefix_scan_spec d A sc p :
  pinv d A → scope_ok sc → nul_free p → pi_prefix_scan sc p d ≡ₚ filter (λ r, sc = from_key (res_key r) ∧ p = prefix_hash (res_key r)) (recs A).
Proof.
  intros HI Hs Hp. unfold pi_prefix_scan, scan_scope_prefix, scope_prefix. cbn [app]. rewrite (scan_prefix_recs d A _ HI).
  erewrite (filter_recs_iff d A); [done..|]. intros r Hr. by apply (scan_prefix_iff sc p r).
Qed.

(** *** Reads of an updated table *)

Lemma recs_insert d A r : pinv d A → res_ok r → recs (<[primary_key_for r := r]> A) ≡ₚ r :: filter (λ x, ¬ same_record r x) (recs A).
Proof.
  intros HI Hr. unfold recs. rewrite <- insert_delete_eq, map_to_list_insert by apply lookup_delete_eq. cbn. apply perm_skip.
  assert (delete (primary_key_for r) A = filter (λ kr, ¬ same_record r kr.2) A) as ->.
  { apply map_eq. intros k. apply option_eq. intros x. rewrite lookup_delete_Some, map_lookup_filter_Some. cbn. split.
    - intros [Hne Hx]. split; [done|]. intros Hs. apply Hne. destruct (pi_table _ _ HI _ _ Hx) as [Hxok ->]. by apply primary_inj.
    - intros [Hx Hn]. split; [|done]. intros <-. destruct (pi_table _ _ HI _ _ Hx) as [Hxok E]. by apply Hn, primary_inj. }
  exact (recs_filter A (λ x, ¬ same_record r x)).
Qed.
End refine.
