(* ===== verification/PersistTheorems.v ===== *)
(** * The persistent indexes: what they promise

    Traces of index operations.  Over any trace whose fields the key encoding separates,
    a persistent index answers as the in-memory one does (up to order), and its scoped
    scans and evictions touch exactly the records of the scope.  The last section gives
    the traces on which the encoding does not separate identities.

    The persistent indexes on concrete stores.

    A residency codec, a map with prefix scans and an ordered map with iterators: the
    parameters of the persistent indexes instantiated, the theorems at concrete traces,
    and the traces whose identities the key encoding does not separate. *)
From stdpp Require Import sorting.
From S2P Require Import Prelude Identity MemIndex MemIndexProofs IndexLaws PersistIndex PersistProofs.

Inductive IxOp : Type :=
| OpPut (r : CacheResidency)
| OpRemoveBlock (scope : IdentityScope) (worker hash : string)
| OpClearWorker (worker : string)
| OpClear.

Definition ix_step `{IndexBackend B} (op : IxOp) (b : B) : option B :=
  match op with
  | OpPut r => ix_put r b
  | OpRemoveBlock sc w h => snd <$> ix_remove_block sc w h b
  | OpClearWorker w => Some (ix_clear_worker w b)
  | OpClear => Some (ix_clear b)
  end.

Fixpoint ix_run `{IndexBackend B} (ops : list IxOp) (b : B) : option B :=
  match ops with
  | [] => Some b
  | op :: ops => b ← ix_step op b; ix_run ops b
  end.

(** No zero byte in a field, no empty adapter name. *)
Definition op_ok (op : IxOp) : Prop :=
  match op with
  | OpPut r => res_ok r
  | OpRemoveBlock sc w h => scope_ok sc ∧ nul_free w ∧ nul_free h
  | _ => True
  end.

(** Blocks put by the trace do not differ in their token count alone. *)
Definition separated (ops : list IxOp) : Prop :=
  ∀ r1 r2, OpPut r1 ∈ ops → OpPut r2 ∈ ops → same_block (res_key r1) (res_key r2) → res_key r1 = res_key r2.

(** Lists that agree on every key agree. *)
Lemma perm_by_key {A K} `{EqDecision K} (f : A → K) (l1 l2 : list A) :
  (∀ k, filter (λ x, f x = k) l1 ≡ₚ filter (λ x, f x = k) l2) → l1 ≡ₚ l2.
Proof.
  revert l2. induction l1 as [|x l1 IH]; intros l2 Hk.
  - destruct l2 as [|y l2]; [done|]. specialize (Hk (f y)). rewrite filter_cons, decide_True in Hk by done. by apply Permutation_nil_cons in Hk.
  - assert (x ∈ l2) as Hx. { assert (x ∈ filter (λ y, f y = f x) l2) as Hin; [|by apply list_elem_of_filter in Hin as [_ Hin]].
      rewrite <- Hk, filter_cons, decide_True by done. by left. }
    apply elem_of_Permutation in Hx as [l2' Hl2]. rewrite Hl2. apply perm_skip, IH. intros k. specialize (Hk k). rewrite Hl2, !filter_cons in Hk.
    case_decide; [by apply Permutation_cons_inv in Hk|done].
Qed.

Lemma filter_and {A} (P Q : A → Prop) `{!∀ x, Decision (P x)} `{!∀ x, Decision (Q x)} (l : list A) (R : A → Prop) `{!∀ x, Decision (R x)} :
  (∀ x, x ∈ l → R x ↔ P x ∧ Q x) → filter P (filter Q l) = filter R l.
Proof.
  intros HR. rewrite list_filter_filter. apply filter_iff_in. intros x Hx. by rewrite HR.
Qed.

(** The laws of the in-memory index, by its own names. *)
Section memory.
Context `{HashIter}.
Implicit Types m : MemoryIndex.

Lemma mem_put_law m r m' : mi_inv m → mi_put r m = Some m' →
  mi_inv m' ∧ ∀ k, mi_locate k m' = if decide (k = res_key r) then put_list r (mi_locate k m) else mi_locate k m.
Proof. apply (@ix_put_law _ _ mi_laws). Qed.
Lemma mem_remove_law m sc w h n m' : mi_inv m → mi_remove_block sc w h m = Some (n, m') →
  mi_inv m' ∧ ∀ k, mi_locate k m' = if decide (from_key k = sc ∧ block_hash k = h) then without_worker w (mi_locate k m) else mi_locate k m.
Proof. apply (@ix_remove_law _ _ mi_laws). Qed.
Lemma mem_clear_worker_law m w : mi_inv m → mi_inv (mi_clear_worker w m) ∧ ∀ k, mi_locate k (mi_clear_worker w m) = without_worker w (mi_locate k m).
Proof. apply (@ix_clear_law _ _ mi_laws). Qed.
Lemma mem_snapshot_law m k : mi_inv m → filter (λ r, res_key r = k) (mi_snapshot m) = mi_locate k m.
Proof. apply (@ix_snapshot_law _ _ mi_laws). Qed.
Lemma mem_clear_inv m : mi_inv (mi_clear m).
Proof. pose proof mi_new_inv as []. by constructor. Qed.
Lemma mem_len m : mi_len m = Z.of_nat (length (mi_snapshot m)).
Proof. unfold mi_len, mi_snapshot. induction (hvalues (entries m)) as [|l ls IH]; cbn; [done|]. rewrite length_app. cbn in IH. unfold id in *. lia. Qed.
End memory.

Section store.
Context `{ResidencyCodec} {D : Type} `{PrefixStore D, !PrefixStoreLaws D}.
Implicit Types d : D.

Lemma pinv_empty d : kv_view d = ∅ → pinv d ∅.
Proof. intros Hd. split; [done|]. intros k v. rewrite Hd. split; [done|]. by intros [(r & ? & _)|(p & r & ? & _)]. Qed.

Lemma ix_step_inv op d A : pinv d A → op_ok op → ∃ d' A', ix_step op d = Some d' ∧ pinv d' A'.
Proof.
  intros HI Hop. destruct op as [r|sc w h|w|]; cbn.
  - do 2 eexists. split; [done|]. by apply pi_put_inv.
  - destruct Hop as (Hs & Hw & Hh). destruct (pi_remove_block_spec d A sc w h) as [_ HI']; eauto.
  - do 2 eexists. split; [done|]. by apply pi_clear_worker_spec.
  - do 2 eexists. split; [done|]. by eapply pi_clear_spec.
Qed.

Lemma ix_run_inv ops d A : pinv d A → Forall op_ok ops → ∃ d' A', ix_run ops d = Some d' ∧ pinv d' A'.
Proof.
  revert d A. induction ops as [|op ops IH]; intros d A HI Hops; cbn; [eauto|]. apply Forall_cons in Hops as [Hop Hops].
  destruct (ix_step_inv op d A HI Hop) as (d1 & A1 & -> & HI1). by apply (IH d1 A1).
Qed.

(** Over any trace of operations on an empty persistent index whose fields hold no zero byte and no empty adapter
    name: the index never fails; [prefix_scan] of a scope returns exactly the resident records of that scope with
    that prefix hash, so no record of another model, tokenizer, adapter or tenant; [remove_block] returns the number
    of records of the scope with that content hash on that worker, removes exactly these, and leaves all others;
    [len] counts the records of the snapshot. *)
Theorem persist_scope_exact ops d0 :
  kv_view d0 = ∅ → Forall op_ok ops →
  ∃ d, ix_run ops d0 = Some d
    ∧ pi_len d = Z.of_nat (length (pi_snapshot d))
    ∧ (∀ sc p, scope_ok sc → nul_free p →
        pi_prefix_scan sc p d ≡ₚ filter (λ r, sc = from_key (res_key r) ∧ p = prefix_hash (res_key r)) (pi_snapshot d))
    ∧ (∀ sc w h, scope_ok sc → nul_free w → nul_free h →
        (pi_remove_block sc w h d).1 = Z.of_nat (length (filter (evicted sc w h) (pi_snapshot d)))
        ∧ pi_snapshot (pi_remove_block sc w h d).2 ≡ₚ filter (λ r, ¬ evicted sc w h r) (pi_snapshot d)).
Proof.
  intros Hd Hops. destruct (ix_run_inv ops d0 ∅ (pinv_empty d0 Hd) Hops) as (d & A & Hrun & HI). exists d. split; [done|].
  pose proof (pi_snapshot_spec d A HI) as Hs. split_and!.
  - by rewrite Hs, (pi_len_spec d A HI).
  - intros sc p Hsc Hp. by rewrite Hs, (pi_prefix_scan_spec d A).
  - intros sc w h Hsc Hw Hh. destruct (pi_remove_block_spec d A sc w h) as [Hn HI']; [done..|]. rewrite Hs. split; [done|].
    rewrite (pi_snapshot_spec _ _ HI'). exact (recs_filter A (λ r, ¬ evicted sc w h r)).
Qed.

(** ** Equivalence with the in-memory index *)

Section sim.
Context `{HashIter} (K : KvBlockKey → Prop) (Hsep : ∀ k1 k2, K k1 → K k2 → same_block k1 k2 → k1 = k2).

Record sim d (m : MemoryIndex) (A : Table) : Prop := {
  sim_inv : pinv d A;
  sim_mem : mi_inv m;
  sim_keys : ∀ r, r ∈ recs A → K (res_key r);
  sim_locate : ∀ k, filter (λ r, res_key r = k) (recs A) ≡ₚ mi_locate k m
}.

Lemma sim_put d m m' A r : sim d m A → res_ok r → K (res_key r) → mi_put r m = Some m' → sim (pi_put r d) m' (<[primary_key_for r := r]> A).
Proof.
  intros [HI Hm HK Hl] Hr HKr Hput. pose proof (recs_insert d A r HI Hr) as Hrecs. destruct (mem_put_law m r m' Hm Hput) as [Hm' Hloc]. split.
  - by apply pi_put_inv.
  - done.
  - intros x. rewrite Hrecs. intros [->|[_ Hx]%list_elem_of_filter]%elem_of_cons; auto.
  - intros k. rewrite Hrecs. rewrite Hloc. rewrite filter_cons. case_decide as Hk; case_decide; subst; try done.
    + unfold put_list. rewrite <- Permutation_cons_append. apply perm_skip. rewrite <- Hl.
      rewrite (filter_and _ _ _ (λ x, res_key x = res_key r ∧ same_slot x r = false)).
      * rewrite (filter_and _ _ _ (λ x, res_key x = res_key r ∧ same_slot x r = false)); [done|]. tauto.
      * intros x _. unfold same_record, same_slot, same_block. split; intros [E Hx]; (split; [done|]).
        -- intros (_ & E1 & E2). rewrite E1, E2, !bool_decide_eq_true_2 in Hx; done.
        -- apply andb_false_iff. rewrite !bool_decide_eq_false. destruct (decide (res_worker_id x = res_worker_id r)) as [E1|]; [|by left].
           right. intros E2. apply Hx. by rewrite E, E1, E2.
    + rewrite <- Hl. rewrite (filter_and _ _ _ (λ x, res_key x = k)); [done|].
      intros x Hx. split; [|tauto]. intros <-. split; [done|]. intros (Hb & _). apply Hk, Hsep; auto.
Qed.

Lemma sim_drop d d' m m' A (P : CacheResidency → Prop) `{!∀ r, Decision (P r)} :
  sim d m A → pinv d' (filter (λ kr, ¬ P kr.2) A) → mi_inv m' → (∀ k, mi_locate k m' = filter (λ r, ¬ P r) (mi_locate k m)) →
  sim d' m' (filter (λ kr, ¬ P kr.2) A).
Proof.
  intros [HI Hm HK Hl] HI' Hm' Hloc. pose proof (recs_filter A (λ r, ¬ P r)) as Hrecs. split; [done..| |].
  - intros r. rewrite Hrecs. intros [_ Hr]%list_elem_of_filter. auto.
  - intros k. rewrite Hrecs, Hloc, <- Hl. rewrite (filter_and _ _ _ (λ x, res_key x = k ∧ ¬ P x)) by tauto. by rewrite (filter_and _ _ _ (λ x, res_key x = k ∧ ¬ P x)) by tauto.
Qed.

Lemma sim_remove d m A sc w h n m' :
  sim d m A → scope_ok sc → nul_free w → nul_free h → mi_remove_block sc w h m = Some (n, m') →
  sim (pi_remove_block sc w h d).2 m' (filter (λ kr, ¬ evicted sc w h kr.2) A).
Proof.
  intros Hsim Hsc Hw Hh Hrem. pose proof Hsim as [HI Hm HK Hl]. destruct (mem_remove_law m sc w h n m' Hm Hrem) as [Hm' Hloc].
  apply (sim_drop d _ m _ A (evicted sc w h)); [done|by apply pi_remove_block_spec|done|]. intros k. rewrite Hloc.
  assert (∀ r, r ∈ mi_locate k m → res_key r = k) as Hkey by (intros r Hr; rewrite <- Hl in Hr; by apply list_elem_of_filter in Hr as [? _]).
  case_decide as Hk.
  - destruct Hk as [<- <-]. unfold without_worker. apply filter_iff_in. intros r Hr. unfold evicted. rewrite (Hkey r Hr). naive_solver.
  - symmetry. apply list_filter_all. intros r Hr (E1 & E2 & _). apply Hk. by rewrite <- (Hkey r Hr).
Qed.

Lemma sim_clear_worker d m A w : sim d m A → sim (pi_clear_worker w d) (mi_clear_worker w m) (filter (λ kr, ¬ res_worker_id kr.2 = w) A).
Proof.
  intros Hsim. pose proof Hsim as [HI Hm HK Hl]. destruct (mem_clear_worker_law m w Hm) as [Hm' Hloc].
  refine (sim_drop d _ m _ A (λ r, res_worker_id r = w) Hsim _ Hm' Hloc). by apply pi_clear_worker_spec.
Qed.

Lemma sim_clear d m A : sim d m A → sim (pi_clear d) (mi_clear m) ∅.
Proof.
  intros [HI Hm HK Hl]. split; [by eapply pi_clear_spec|apply mem_clear_inv|by intros r [k Hk]%elem_of_recs|]. intros k. unfold recs. by rewrite map_to_list_empty.
Qed.

Lemma sim_step op d m m' A :
  sim d m A → op_ok op → (∀ r, op = OpPut r → K (res_key r)) → ix_step op m = Some m' → ∃ d' A', ix_step op d = Some d' ∧ sim d' m' A'.
Proof.
  intros Hsim Hop HK Hm. destruct op as [r|sc w h|w|]; cbn in Hm |- *.
  - do 2 eexists. split; [done|]. apply (sim_put d m m' A r); auto.
  - destruct (mi_remove_block sc w h m) as [[n m1]|] eqn:E; simplify_eq/=. destruct Hop as (? & ? & ?). do 2 eexists. split; [done|]. by eapply sim_remove.
  - simplify_eq. do 2 eexists. split; [done|]. by apply sim_clear_worker.
  - simplify_eq. do 2 eexists. split; [done|]. by eapply sim_clear.
Qed.

Lemma sim_run ops d m m' A :
  sim d m A → Forall op_ok ops → (∀ r, OpPut r ∈ ops → K (res_key r)) → ix_run ops m = Some m' → ∃ d' A', ix_run ops d = Some d' ∧ sim d' m' A'.
Proof.
  revert d m A. induction ops as [|op ops IH]; intros d m A Hsim Hops HK Hrun; cbn in Hrun |- *; [simplify_eq; eauto|].
  apply Forall_cons in Hops as [Hop Hops]. destruct (ix_step op m) as [m1|] eqn:E; [|done]. cbn in Hrun.
  destruct (sim_step op d m m1 A Hsim Hop) as (d1 & A1 & -> & Hsim1); [|done|].
  - intros r ->. apply HK. by left.
  - cbn. apply (IH d1 m1 A1); auto. intros r Hr. apply HK. by right.
Qed.
End sim.

(** C33 Over any trace of puts, evictions, worker clears and clears whose fields hold no zero byte and no empty adapter
    name, and in which no two blocks differ in their token count alone, a persistent index started empty holds the
    same records as the in-memory index (same snapshot and length, up to order), and locating a block returns the
    same residencies. *)
Theorem persist_equiv_memory `{HashIter} ops d0 m :
  kv_view d0 = ∅ → Forall op_ok ops → separated ops → ix_run ops mi_new = Some m →
  ∃ d, ix_run ops d0 = Some d
    ∧ pi_snapshot d ≡ₚ mi_snapshot m
    ∧ pi_len d = mi_len m
    ∧ ∀ k, key_ok k → (∀ r, OpPut r ∈ ops → same_block k (res_key r) → res_key r = k) → pi_locate k d ≡ₚ mi_locate k m.
Proof.
  intros Hd Hops Hsep Hrun. set (K k := ∃ r, OpPut r ∈ ops ∧ res_key r = k).
  assert (∀ k1 k2, K k1 → K k2 → same_block k1 k2 → k1 = k2) as HK by (intros k1 k2 (r1 & ? & <-) (r2 & ? & <-); by apply Hsep).
  destruct (sim_run K HK ops d0 mi_new m ∅) as (d & A & Hd' & [HI Hm Hkeys Hl]); [|done|by intros r Hr; exists r|done|].
  { split; [by apply pinv_empty|apply mi_new_inv|by intros r [k Hk]%elem_of_recs|]. intros k. unfold recs. by rewrite map_to_list_empty. }
  exists d. split; [done|]. assert (pi_snapshot d ≡ₚ mi_snapshot m) as Hsnap.
  { rewrite (pi_snapshot_spec d A HI). apply (perm_by_key res_key). intros k. by rewrite mem_snapshot_law. }
  split_and!; [done| |].
  - by rewrite mem_len, (pi_len_spec d A HI), <- Hsnap, (pi_snapshot_spec d A HI).
  - intros k Hk Hput. rewrite (pi_locate_spec d A k HI Hk), <- Hl. erewrite filter_iff_in; [done|]. intros r Hr. split.
    + intros Hb. destruct (Hkeys r Hr) as (r0 & Hr0 & E). rewrite <- E. apply Hput; [done|by rewrite E].
    + intros <-. done.
Qed.
End store.

(** ** Instances *)

Definition res_fields (r : CacheResidency) : KvBlockKey * string * string * Z * Z * Z * bool :=
  (res_key r, res_worker_id r, tier_fmt (res_tier r), res_bytes r, res_last_access_ms r, res_ref_count r, res_pinned r).
Definition tier_parse (s : string) : option CacheTier := list_find (λ t, tier_fmt t = s) [Hbm; RemoteHbm; CpuDram; LocalSsd; ObjectStore] ≫= λ p, Some p.2.

#[local] Instance ex_codec : ResidencyCodec.
Proof.
  refine {| enc_res r := [Zpos (encode (res_fields r))];
            dec_res l := match l with
                         | [Zpos p] => '(k, w, t, b, a, n, pin) ← decode (A := KvBlockKey * string * string * Z * Z * Z * bool) p; t ← tier_parse t; Some (mkResidency k w t b a n pin)
                         | _ => None
                         end |}.
  intros [k w t b a n pin]. rewrite decode_encode. by destruct t.
Defined.

(** A map with prefix scans. *)
Notation MapStore := (gmap (list Z) (list Z)).
#[local] Instance map_store : PrefixStore MapStore := {|
  kv_put k v d := <[k := v]> d;
  kv_delete k d := (bool_decide (is_Some (d !! k)), delete k d);
  kv_scan p d := filter (λ kv, p `prefix_of` kv.1) (map_to_list d);
  kv_keys d := (map_to_list d).*1
|}.
#[local] Instance map_store_laws : PrefixStoreLaws MapStore.
Proof.
  refine {| kv_view d := d |}; [done..| |done|].
  - intros k d Hk. by apply bool_decide_eq_true_2.
  - intros k d. cbn. rewrite list_elem_of_fmap. split.
    + intros ([k' v] & -> & Hin%elem_of_map_to_list). eauto.
    + intros [v Hv]. exists (k, v). split; [done|]. by apply elem_of_map_to_list.
Defined.

(** An ordered map with iterators. *)
Definition key_le (a b : list Z * list Z) : Prop := lex_le a.1 b.1 = true.
#[local] Instance key_le_dec a b : Decision (key_le a b) := decide (lex_le a.1 b.1 = true).

Lemma lex_le_total a b : lex_le a b = true ∨ lex_le b a = true.
Proof.
  revert b. induction a as [|x a IH]; intros [|y b]; cbn; try (by left); try (by right). rewrite !orb_true_iff, !andb_true_iff, !Z.ltb_lt, !Z.eqb_eq.
  destruct (Z.lt_trichotomy x y) as [|[->|]]; [tauto| |tauto]. destruct (IH b); tauto.
Qed.
Lemma lex_le_trans a b c : lex_le a b = true → lex_le b c = true → lex_le a c = true.
Proof.
  revert b c. induction a as [|x a IH]; intros [|y b] [|z c]; try done. rewrite !lex_le_cons. intros [?|[-> Hab]] [?|[-> Hbc]]; [lia..|]. right. split; [done|]. by apply (IH b).
Qed.
#[local] Instance key_le_total : Total key_le.
Proof. intros a b. apply lex_le_total. Qed.
#[local] Instance key_le_trans : Transitive key_le.
Proof. intros a b c. apply lex_le_trans. Qed.

Record OrderedMap : Type := mkOrdered { om_map : MapStore }.
#[local] Instance ordered_db : OrderedDb OrderedMap := {|
  db_put k v d := mkOrdered (<[k := v]> (om_map d));
  db_delete k d := mkOrdered (delete k (om_map d));
  db_iter_from p d := merge_sort key_le (filter (λ kv, lex_le p kv.1 = true) (map_to_list (om_map d)))
|}.
#[local] Instance ordered_db_laws : OrderedDbLaws OrderedMap.
Proof.
  refine {| db_view := om_map |}; [done..| |].
  - intros p d. apply merge_sort_Permutation.
  - intros p d. apply (StronglySorted_merge_sort key_le _).
Defined.

#[local] Instance ex_iter : HashIter := canonical_iter.

(** ** Concrete traces *)

Definition pe_key (tenant prefix hash : string) (tokens : Z) : KvBlockKey := key_new "m" "t" tenant prefix hash 0 tokens.
Definition pe_res (k : KvBlockKey) (w : string) (t : CacheTier) : CacheResidency := mkResidency k w t 4096 0 0 false.
Definition pe_ops : list IxOp := [
  OpPut (pe_res (pe_key "a" "p" "h1" 16) "w1" Hbm); OpPut (pe_res (pe_key "a" "p" "h1" 16) "w2" CpuDram);
  OpPut (pe_res (pe_key "a" "p" "h2" 16) "w1" Hbm); OpPut (pe_res (pe_key "b" "p" "h1" 16) "w1" Hbm);
  OpPut (pe_res (pe_key "a" "p" "h1" 16) "w1" Hbm); OpRemoveBlock (from_key (pe_key "a" "p" "h1" 16)) "w1" "h1"; OpClearWorker "w2"].

Lemma pe_nul s : bool_decide (nul_free s) = true → nul_free s.
Proof. apply bool_decide_eq_true_1. Qed.

Lemma pe_key_ok tenant prefix hash tokens : nul_free tenant → nul_free prefix → nul_free hash → key_ok (pe_key tenant prefix hash tokens).
Proof. intros. split; cbn; try done; [by apply pe_nul..|split; [by apply pe_nul|done]]. Qed.

Lemma pe_ops_ok : Forall op_ok pe_ops.
Proof.
  repeat apply Forall_cons_2; [..|apply Forall_nil_2]; cbn.
  1-5: split; [apply pe_key_ok; by apply pe_nul|by apply pe_nul].
  - split; [apply key_scope_ok, pe_key_ok; by apply pe_nul|]. split; by apply pe_nul.
  - done.
Qed.

Lemma pe_tokens r : OpPut r ∈ pe_ops → token_count (res_key r) = 16.
Proof. intros Hr. repeat (apply elem_of_cons in Hr as [Hr|Hr]; [by simplify_eq|]). by apply elem_of_nil in Hr. Qed.

Lemma same_block_eq k1 k2 : same_block k1 k2 → token_count k1 = token_count k2 → k1 = k2.
Proof. intros (E & E1 & E2 & E3) E4. destruct k1, k2; cbn in *. unfold from_key in E. cbn in E. congruence. Qed.

Lemma pe_ops_separated : separated pe_ops.
Proof. intros r1 r2 H1%pe_tokens H2%pe_tokens Hb. apply same_block_eq; [done|congruence]. Qed.

Lemma persist_scope_exact_witness :
  ∃ d : RocksDb OrderedMap, ix_run pe_ops (mkRocks (mkOrdered ∅)) = Some d
    ∧ pi_len d = 2 ∧ pi_prefix_scan (from_key (pe_key "a" "p" "h2" 16)) "p" d = [pe_res (pe_key "a" "p" "h2" 16) "w1" Hbm].
Proof.
  assert (kv_view (mkRocks (mkOrdered ∅)) = ∅) as H0 by reflexivity.
  destruct (persist_scope_exact (D := RocksDb OrderedMap) pe_ops (mkRocks (mkOrdered ∅)) H0 pe_ops_ok) as (d & Hrun & _).
  exists d. split; [done|]. assert (d = default d (ix_run pe_ops (mkRocks (mkOrdered ∅)))) as -> by (by rewrite Hrun).
  split; by vm_compute.
Defined.

Lemma persist_equiv_memory_witness :
  ∃ d : MapStore, ix_run pe_ops (∅ : MapStore) = Some d ∧ length (pi_locate (pe_key "b" "p" "h1" 16) d) = 1%nat.
Proof.
  assert (ix_run pe_ops mi_new = Some (default mi_new (ix_run pe_ops mi_new))) as Hm by run.
  assert (kv_view (∅ : MapStore) = ∅) as H0 by reflexivity.
  destruct (persist_equiv_memory (D := MapStore) pe_ops ∅ _ H0 pe_ops_ok pe_ops_separated Hm) as (d & Hrun & _ & _ & Hloc).
  exists d. split; [done|]. rewrite Hloc; [by vm_compute|apply pe_key_ok; by apply pe_nul|].
  intros r Hr%pe_tokens Hb. symmetry. by apply same_block_eq.
Defined.

(** ** Identities the encoding does not separate *)

Definition nul : string := String Ascii.zero EmptyString.
Definition alias_adapter : KvBlockKey := mkKey "m" "t" (Some "") "a" "p" "h" 0 16.
Definition alias_tenant : KvBlockKey := mkKey "m" "t" None ("a" +:+ nul +:+ "p") "q" "h" 0 16.
Definition put_one (k : KvBlockKey) : MapStore := pi_put (pe_res k "w" Hbm) ∅.

(** The key encoding is not injective, and the scans of a persistent index then return records of another
    identity: a block of the adapter named by the empty string is found by the scan of the base model's scope; a block
    of the tenant "a NUL p" is found by tenant a's scan of the prefix p; and of two blocks that differ in their token
    count only the one put last is kept, and it is what locating the other returns.  The in-memory index, on the same
    operations, returns nothing, nothing, and both. *)
Theorem persist_key_aliases :
  (let sc := from_key (pe_key "a" "p" "h" 16) in
   pi_prefix_scan sc "p" (put_one alias_adapter) = [pe_res alias_adapter "w" Hbm] ∧ from_key alias_adapter ≠ sc
   ∧ pi_prefix_scan sc "p" (put_one alias_tenant) = [pe_res alias_tenant "w" Hbm] ∧ tenant_id alias_tenant ≠ s_tenant_id sc ∧ prefix_hash alias_tenant ≠ "p"
   ∧ (mi_prefix_scan sc "p" <$> mi_put (pe_res alias_adapter "w" Hbm) mi_new) = Some []
   ∧ (mi_prefix_scan sc "p" <$> mi_put (pe_res alias_tenant "w" Hbm) mi_new) = Some [])
  ∧ (let r1 := pe_res (pe_key "a" "p" "h" 16) "w" Hbm in let r2 := pe_res (pe_key "a" "p" "h" 32) "w" Hbm in
     let ops := [OpPut r1; OpPut r2] in
     (pi_locate (res_key r1) <$> ix_run ops (∅ : MapStore)) = Some [r2] ∧ (pi_len <$> ix_run ops (∅ : MapStore)) = Some 1
     ∧ (mi_locate (res_key r1) <$> ix_run ops mi_new) = Some [r1] ∧ (mi_len <$> ix_run ops mi_new) = Some 2).
Proof. cbv zeta. split_and!; by vm_compute. Qed.
