(* ===== verification/GatewayRequest.v ===== *)
(** * Requests of the gateway

    The part of src/gateway.rs that turns an OpenAI request body into a [RequestShape]:
    the client's hints, or blocks cut from the prompt text.  JSON values are serde_json's
    [Value]; its parser, printer and typed deserialisation are the parameters [SerdeJson].
    A [str] is its UTF-8 bytes, a [char] the bytes of one code point. *)
From stdpp Require Import pretty.
From S2P Require Import Prelude F64 Identity ShardedMap Router.

(** ** JSON *)

Inductive Number : Type := PosInt (n : Z) | NegInt (n : Z) | Float (x : f64).
Inductive Value : Type :=
| Null
| VBool (b : bool)
| VNumber (n : Number)
| VString (s : string)
| VArray (l : list Value)
| VObject (fields : list (string * Value)).

Class SerdeJson : Type := {
  from_slice : list Z → result string Value;
  to_vec : Value → result string (list Z);
  value_to_string : Value → string;
  hints_from_value : Value → option RequestKvHints
}.

Fixpoint field_of (key : string) (fields : list (string * Value)) : option Value :=
  match fields with
  | [] => None
  | (k, v) :: fields => if decide (k = key) then Some v else field_of key fields
  end.
Definition value_get (key : string) (v : Value) : option Value := match v with VObject fs => field_of key fs | _ => None end.
Definition as_str (v : Value) : option string := match v with VString s => Some s | _ => None end.
Definition as_array (v : Value) : option (list Value) := match v with VArray l => Some l | _ => None end.
Definition as_u64 (v : Value) : option Z := match v with VNumber (PosInt n) => Some n | _ => None end.

(** [as_object_mut().and_then(|o| o.remove(key))]: the value removed and the object left. *)
Definition object_remove (key : string) (v : Value) : option Value * Value :=
  match v with
  | VObject fs => (field_of key fs, VObject (filter (λ kv, kv.1 ≠ key) fs))
  | _ => (None, v)
  end.

(** ** Text *)

(** A UTF-8 continuation byte. *)
Definition is_continuation (c : Ascii.ascii) : bool := let n := Ascii.nat_of_ascii c in (128 <=? n)%nat && (n <? 192)%nat.
Definition starts_inside (s : string) : bool := match s with String c _ => is_continuation c | EmptyString => false end.

(** [str::chars]. *)
Fixpoint chars (s : string) : list string :=
  match s with
  | EmptyString => []
  | String c s' =>
      match chars s' with
      | x :: xs => if starts_inside x then String c x :: xs else String c EmptyString :: x :: xs
      | [] => [String c EmptyString]
      end
  end.
(** [iter().collect::<String>()]. *)
Definition collect (cs : list string) : string := foldr String.append EmptyString cs.

(** [format!("{:016x}", n)]. *)
Definition hex_digit (d : Z) : Ascii.ascii := Ascii.ascii_of_nat (Z.to_nat (if d <? 10 then 48 + d else 87 + d)).
Fixpoint hex (n : nat) (z : Z) : string :=
  match n with
  | O => EmptyString
  | S n => hex n (z / 16) +:+ String (hex_digit (z mod 16)) EmptyString
  end.

Definition newline : string := String (Ascii.ascii_of_nat 10) EmptyString.

Section request.
Context `{SerdeJson} `{KeyHash}.

Definition message_text (message : Value) : string :=
  (match value_get "role" message ≫= as_str with Some role => role +:+ ":" | None => "" end)
  +:+ (match value_get "content" message ≫= as_str with Some content => content +:+ newline | None => "" end).

Definition prompt_text (payload : Value) : string :=
  match value_get "messages" payload ≫= as_array with
  | Some messages => collect (message_text <$> messages)
  | None =>
      match value_get "prompt" payload ≫= as_str with
      | Some prompt => prompt
      | None => value_to_string payload
      end
  end.

Definition FALLBACK_BLOCK_CHARS : nat := 256.
Definition FALLBACK_MAX_BLOCKS : nat := 64.
Definition DEFAULT_BLOCK_BYTES : Z := 4 * 1024 * 1024.

Definition pfx_hash (text : string) : string := "pfx-" +:+ hex 16 (key_hash text).

(** [((end - start) as u32).div_ceil(4).max(1)]. *)
Definition fallback_tokens (len : nat) : Z := Z.max ((as_u32 (Z.of_nat len) + 3) / 4) 1.

(** The loop: [room] is [FALLBACK_MAX_BLOCKS - blocks.len()]. *)
Fixpoint fallback_loop (model tokenizer tenant : string) (cs : list string) (room start : nat) (idx : Z) (parent : string) : list KvBlockKey :=
  match room with
  | O => []
  | S room =>
      if (start <? length cs)%nat then
        let stop := Nat.min (start + FALLBACK_BLOCK_CHARS) (length cs) in
        let block_hash := pfx_hash (collect (take stop cs)) in
        external_hash (mkExternal model tokenizer None tenant parent block_hash idx (fallback_tokens (stop - start)))
        :: fallback_loop model tokenizer tenant cs room stop (idx + 1) block_hash
      else []
  end.

Definition fallback_blocks (payload : Value) (model tokenizer tenant : string) : list KvBlockKey :=
  let cs := chars (prompt_text payload) in
  if bool_decide (cs = [])
  then [external_hash (mkExternal model tokenizer None tenant "root" (pfx_hash (value_to_string payload)) 0 64)]
  else fallback_loop model tokenizer tenant cs FALLBACK_MAX_BLOCKS 0 0 "root".

(** [now] is the clock in nanoseconds since the epoch. *)
Definition fallback_request_id (now : Z) : string := "req-" +:+ pretty now.

(** The shape, and the payload without the hints. *)
Definition request_shape_from_payload (now : Z) (payload0 : Value) : RequestShape * Value :=
  let '(removed, payload) := object_remove "quillcache" payload0 in
  let hints := removed ≫= hints_from_value in
  let model_id := default "unknown-model" (value_get "model" payload ≫= as_str) in
  let tokenizer_id := default model_id (hints ≫= h_tokenizer_id) in
  let tenant_id := default "default" (hints ≫= h_tenant_id) in
  let decode := match hints ≫= h_estimated_decode_tokens with
                | Some n => n
                | None => default 128 (as_u32 <$> (value_get "max_tokens" payload ≫= as_u64))
                end in
  let id := match hints ≫= h_request_id with Some id => id | None => fallback_request_id now end in
  let blocks := match hints with
                | Some h => if bool_decide (h_block_hashes h = []) then fallback_blocks payload model_id tokenizer_id tenant_id
                            else to_blocks h model_id tokenizer_id tenant_id
                | None => fallback_blocks payload model_id tokenizer_id tenant_id
                end in
  (mkRequest id model_id tokenizer_id (hints ≫= h_adapter_id) tenant_id (hints ≫= h_session_id) blocks decode slo_default, payload).
End request.

(** ** Text lemmas *)

Lemma append_assoc (a b c : string) : a +:+ b +:+ c = (a +:+ b) +:+ c.
Proof. induction a as [|x a IH]; [done|]. change (String x (a +:+ b +:+ c) = String x ((a +:+ b) +:+ c)). by rewrite IH. Qed.

Lemma collect_app a b : collect (a ++ b) = collect a +:+ collect b.
Proof. induction a as [|x a IH]; [done|]. change (x +:+ collect (a ++ b) = (x +:+ collect a) +:+ collect b). rewrite IH. by rewrite append_assoc. Qed.

Lemma collect_chars s : collect (chars s) = s.
Proof.
  induction s as [|c s IH]; [done|]. cbn [chars]. destruct (chars s) as [|x xs]; [by rewrite <- IH|].
  destruct (starts_inside x); change (String c (collect (x :: xs)) = String c s); by rewrite IH.
Qed.

Lemma chars_nonempty s x : x ∈ chars s → x ≠ "".
Proof.
  revert x. induction s as [|c s IH]; intros x Hx; [by apply elem_of_nil in Hx|]. cbn [chars] in Hx. destruct (chars s) as [|y ys]; [|destruct (starts_inside y)]; set_solver.
Qed.

Lemma starts_inside_head x s : x ≠ "" → starts_inside (x +:+ s) = starts_inside x.
Proof. by destruct x. Qed.

(** A text cut where no code point straddles. *)
Lemma chars_app s t : starts_inside t = false → chars (s +:+ t) = chars s ++ chars t.
Proof.
  intros Ht. induction s as [|c s IH]; [done|]. change (String c s +:+ t) with (String c (s +:+ t)). cbn [chars]. rewrite IH.
  destruct (chars s) as [|x xs] eqn:Es; cbn [app].
  - assert (s = "") as -> by (by rewrite <- (collect_chars s), Es). cbn in IH. destruct (chars t) as [|y ys] eqn:Et; [done|].
    assert (starts_inside y = false) as ->; [|done]. rewrite <- (collect_chars t), Et in Ht. cbn in Ht.
    rewrite starts_inside_head in Ht; [done|]. apply (chars_nonempty t). rewrite Et. by left.
  - by destruct (starts_inside x).
Qed.

(** ** Hexadecimal *)

Lemma append_last_inj (s t : string) c d : s +:+ String c "" = t +:+ String d "" → s = t ∧ c = d.
Proof.
  revert t. induction s as [|x s IH]; intros [|y t] E; cbn in E; simplify_eq; [done|by destruct t|by destruct s|].
  by destruct (IH t) as [-> ->].
Qed.

Lemma hex_digit_inj a b : 0 ≤ a < 16 → 0 ≤ b < 16 → hex_digit a = hex_digit b → a = b.
Proof.
  unfold hex_digit. intros Ha Hb E. apply (f_equal Ascii.nat_of_ascii) in E.
  rewrite !Ascii.nat_ascii_embedding in E by (destruct (a <? 10), (b <? 10); lia).
  destruct (Z.ltb_spec a 10), (Z.ltb_spec b 10); lia.
Qed.

Lemma hex_inj n a b : 0 ≤ a < 16 ^ Z.of_nat n → 0 ≤ b < 16 ^ Z.of_nat n → hex n a = hex n b → a = b.
Proof.
  revert a b. induction n as [|n IH]; intros a b Ha Hb; [cbn in *; lia|]. cbn [hex]. intros [E1 E2]%append_last_inj.
  rewrite Nat2Z.inj_succ, Z.pow_succ_r in Ha, Hb by lia.
  apply IH in E1; [|by split; [apply Z.div_pos; lia|apply Z.div_lt_upper_bound; lia]..].
  apply hex_digit_inj in E2; [|apply Z.mod_pos_bound; lia..]. rewrite (Z.div_mod a 16), (Z.div_mod b 16) by lia. congruence.
Qed.

Lemma pfx_hash_inj `{KeyHash} s t : pfx_hash s = pfx_hash t → key_hash s = key_hash t.
Proof.
  assert (∀ a b : string, "pfx-" +:+ a = "pfx-" +:+ b → a = b) as Hinj by (intros a b [=]; done).
  unfold pfx_hash. intros E%Hinj. apply (hex_inj 16); [..|done]; change (16 ^ Z.of_nat 16) with (u64_max + 1);
    pose proof (key_hash_u64 s); pose proof (key_hash_u64 t); unfold is_u64 in *; lia.
Qed.

(** ** The blocks of a prompt *)

Section blocks.
Context `{SerdeJson} `{KeyHash}.

(** The [i]th block of the loop from [start]. *)
Definition fallback_block (model tokenizer tenant : string) (cs : list string) (start : nat) (idx : Z) (parent : string) (i : nat) : KvBlockKey :=
  let from := (start + FALLBACK_BLOCK_CHARS * i)%nat in
  let stop := Nat.min (from + FALLBACK_BLOCK_CHARS) (length cs) in
  mkKey model tokenizer None tenant (match i with O => parent | S _ => pfx_hash (collect (take from cs)) end)
    (pfx_hash (collect (take stop cs))) (idx + Z.of_nat i) (fallback_tokens (stop - from)).

Lemma fallback_loop_lookup model tokenizer tenant cs room start idx parent i :
  fallback_loop model tokenizer tenant cs room start idx parent !! i
  = if decide (i < room ∧ start + FALLBACK_BLOCK_CHARS * i < length cs)%nat then Some (fallback_block model tokenizer tenant cs start idx parent i) else None.
Proof.
  revert start idx parent i. induction room as [|room IH]; intros start idx parent i; cbn [fallback_loop]; [by rewrite decide_False by lia|].
  destruct (Nat.ltb_spec start (length cs)) as [Hlt|Hge]; [|rewrite decide_False by lia; by apply lookup_nil].
  destruct i as [|i].
  - rewrite decide_True by lia. unfold fallback_block. rewrite !Nat.mul_0_r, !Nat.add_0_r, Z.add_0_r. done.
  - cbn [lookup list_lookup]. rewrite IH. destruct (decide (S i < S room ∧ start + FALLBACK_BLOCK_CHARS * S i < length cs)%nat) as [[Hr Hi]|Hn].
    + assert (Nat.min (start + FALLBACK_BLOCK_CHARS) (length cs) = start + FALLBACK_BLOCK_CHARS)%nat as -> by lia.
      rewrite decide_True by lia. unfold fallback_block.
      replace (start + FALLBACK_BLOCK_CHARS + FALLBACK_BLOCK_CHARS * i)%nat with (start + FALLBACK_BLOCK_CHARS * S i)%nat by lia.
      replace (idx + 1 + Z.of_nat i) with (idx + Z.of_nat (S i)) by lia. destruct i as [|i]; [|done].
      by replace (start + FALLBACK_BLOCK_CHARS * 1)%nat with (start + FALLBACK_BLOCK_CHARS)%nat by lia.
    + apply decide_False. intros [Hr Hi]. apply Hn. lia.
Qed.

Lemma fallback_blocks_lookup payload model tokenizer tenant i :
  chars (prompt_text payload) ≠ [] →
  fallback_blocks payload model tokenizer tenant !! i
  = if decide (i < FALLBACK_MAX_BLOCKS ∧ FALLBACK_BLOCK_CHARS * i < length (chars (prompt_text payload)))%nat
    then Some (fallback_block model tokenizer tenant (chars (prompt_text payload)) 0 0 "root" i) else None.
Proof. intros Hne. unfold fallback_blocks. rewrite bool_decide_eq_false_2 by done. apply fallback_loop_lookup. Qed.

Lemma fallback_tokens_bounds n : (0 < n ≤ FALLBACK_BLOCK_CHARS)%nat → 1 ≤ fallback_tokens n ≤ 64.
Proof.
  unfold fallback_tokens, FALLBACK_BLOCK_CHARS, as_u32. intros Hn. change u32_max with (Z.ones 32). rewrite Z.land_ones, Z.mod_small by lia.
  assert ((Z.of_nat n + 3) / 4 < 65); [|lia]. apply Z.div_lt_upper_bound; lia.
Qed.

(** Without hints a request still gets blocks: at least one and at most 64, each under the request's model,
    tokenizer and tenant with no adapter, numbered from 0, of 1 to 64 tokens, and chained: the prefix hash of each is
    the block hash of the one before it, that of the first is "root". *)
Theorem fallback_blocks_chained payload model tokenizer tenant :
  let blocks := fallback_blocks payload model tokenizer tenant in
  (0 < length blocks ≤ 64)%nat
  ∧ ∀ i k, blocks !! i = Some k →
      from_key k = mkScope model tokenizer None tenant ∧ block_index k = Z.of_nat i ∧ 1 ≤ token_count k ≤ 64
      ∧ Some (prefix_hash k) = match i with O => Some "root" | S j => block_hash <$> blocks !! j end.
Proof.
  cbv zeta. destruct (decide (chars (prompt_text payload) = [])) as [E|Hne].
  - unfold fallback_blocks. rewrite bool_decide_eq_true_2 by done. cbn [length]. split; [lia|]. intros [|i] k Hk; [|by rewrite lookup_cons, lookup_nil in Hk].
    injection Hk as <-. cbn. split_and!; done || lia.
  - assert (0 < length (chars (prompt_text payload)))%nat by (destruct (chars (prompt_text payload)); [done|cbn; lia]). split.
    + split.
      * assert (is_Some (fallback_blocks payload model tokenizer tenant !! 0%nat)) as Hs%lookup_lt_is_Some; [|done].
        rewrite fallback_blocks_lookup by done. unfold FALLBACK_MAX_BLOCKS. rewrite decide_True by lia. eauto.
      * apply Nat.nlt_ge. intros Hlt. apply lookup_lt_is_Some in Hlt as [k Hk]. rewrite fallback_blocks_lookup in Hk by done.
        unfold FALLBACK_MAX_BLOCKS in Hk. by rewrite decide_False in Hk by lia.
    + intros i k Hk. rewrite fallback_blocks_lookup in Hk by done. case_decide as Hi; [|done]. injection Hk as <-. cbn.
      split_and!; [done|done|apply fallback_tokens_bounds; unfold FALLBACK_BLOCK_CHARS in *; lia..|].
      destruct i as [|j]; [done|]. rewrite fallback_blocks_lookup by done. rewrite decide_True by lia. cbn.
      unfold FALLBACK_BLOCK_CHARS in *. do 4 f_equal. lia.
Qed.

(** Prompts that share a beginning share its blocks: if the texts of two requests of one model, tokenizer and
    tenant agree on [n] blocks of 256 code points, they have the same first [n] blocks (up to the cap of 64).  And
    where the hash of the text up to a block differs, so does the block: no later block is shared by accident of
    position. *)
Theorem shared_prefix_shares_blocks p1 p2 model tokenizer tenant common t1 t2 n :
  prompt_text p1 = common +:+ t1 → prompt_text p2 = common +:+ t2 → starts_inside t1 = false → starts_inside t2 = false →
  (FALLBACK_BLOCK_CHARS * n ≤ length (chars common))%nat →
  take n (fallback_blocks p1 model tokenizer tenant) = take n (fallback_blocks p2 model tokenizer tenant)
  ∧ (∀ i, (i < Nat.min n FALLBACK_MAX_BLOCKS)%nat → is_Some (fallback_blocks p1 model tokenizer tenant !! i))
  ∧ (∀ i k1 k2, chars (prompt_text p1) ≠ [] → chars (prompt_text p2) ≠ [] →
       fallback_blocks p1 model tokenizer tenant !! i = Some k1 → fallback_blocks p2 model tokenizer tenant !! i = Some k2 →
       key_hash (collect (take (FALLBACK_BLOCK_CHARS * (i + 1)) (chars (prompt_text p1))))
       ≠ key_hash (collect (take (FALLBACK_BLOCK_CHARS * (i + 1)) (chars (prompt_text p2)))) →
       block_hash k1 ≠ block_hash k2).
Proof.
  intros E1 E2 H1 H2 Hn. assert (∀ (cs : list string) m, take (Nat.min m (length cs)) cs = take m cs) as Hmin.
  { intros cs m. destruct (Nat.le_gt_cases m (length cs)); [by rewrite Nat.min_l by lia|]. rewrite Nat.min_r, !take_ge by lia. done. }
  assert (chars (prompt_text p1) = chars common ++ chars t1) as C1 by (by rewrite E1, chars_app).
  assert (chars (prompt_text p2) = chars common ++ chars t2) as C2 by (by rewrite E2, chars_app).
  assert (∀ p t i, chars (prompt_text p) = chars common ++ chars t → (i < n)%nat →
    fallback_blocks p model tokenizer tenant !! i = if decide (i < FALLBACK_MAX_BLOCKS)%nat then Some (fallback_block model tokenizer tenant (chars common) 0 0 "root" i) else None) as Hlook.
  { intros p t i Cp Hi. unfold FALLBACK_BLOCK_CHARS in *. assert (0 < length (chars common))%nat by lia. rewrite fallback_blocks_lookup by (rewrite Cp; destruct (chars common); [cbn in *; lia|done]).
    rewrite Cp, length_app. destruct (decide (i < FALLBACK_MAX_BLOCKS)%nat) as [Hd|Hd]; [|by rewrite decide_False by lia]. rewrite decide_True by (unfold FALLBACK_BLOCK_CHARS; lia).
    f_equal. unfold fallback_block, FALLBACK_BLOCK_CHARS. rewrite length_app. rewrite !Nat.min_l by lia. rewrite !take_app_le by lia. done. }
  split_and!.
  - apply list_eq. intros i. destruct (Nat.lt_ge_cases i n); [|by rewrite !lookup_take_ge by lia]. rewrite !lookup_take_lt by done.
    by rewrite (Hlook p1 t1), (Hlook p2 t2).
  - intros i Hi. rewrite (Hlook p1 t1) by (done || lia). rewrite decide_True by lia. eauto.
  - intros i k1 k2 N1 N2 Hk1 Hk2 Hne E. rewrite fallback_blocks_lookup in Hk1, Hk2 by done. do 2 (case_decide; [|done]). injection Hk1 as <-. injection Hk2 as <-.
    unfold fallback_block in E. cbn [block_hash] in E. apply pfx_hash_inj in E. apply Hne. rewrite !Hmin in E.
    by replace (FALLBACK_BLOCK_CHARS * (i + 1))%nat with (0 + FALLBACK_BLOCK_CHARS * i + FALLBACK_BLOCK_CHARS)%nat by lia.
Qed.
End blocks.
