(* ===== verification/GatewayMetrics.v ===== *)
(** * The gateway's counters

    [SloGoodput], [GatewayMetrics] and what is derived from them, of src/gateway.rs.
    [AtomicU64::fetch_add] wraps around. *)
From stdpp Require Import pretty.
From S2P Require Import Prelude F64 Order Identity ShardedMap MemIndex Router Conductor Replication DataPlane SlicePool CoScheduler Control.

(** [fetch_add]. *)
Definition fetch_add (a b : Z) : Z := (a + b) mod (u64_max + 1).

(** ** Derived rates *)

Definition gw_pct (numerator denominator : Z) : option f64 :=
  if denominator =? 0 then None
  else Some (f64_div (f64_mul (f64_of_u64 100) (f64_of_u64 numerator)) (f64_of_u64 denominator)).
Definition avg_us_to_ms (total_us count : Z) : option f64 :=
  if count =? 0 then None else Some (f64_div (f64_div (f64_of_u64 total_us) (f64_of_u64 count)) (f64_of_u64 1000)).
Definition gw_bandwidth_mbps (bytes total_us : Z) : option f64 :=
  if total_us =? 0 then None else Some (f64_div (f64_mul (f64_of_u64 bytes) (f64_of_u64 8)) (f64_of_u64 total_us)).
Definition gw_overlap_efficiency_pct (overlap_us full_us : Z) : option f64 :=
  if full_us =? 0 then None
  else Some (f64_div (f64_mul (f64_of_u64 100) (f64_of_u64 (Z.min overlap_us full_us))) (f64_of_u64 full_us)).

(** ** Goodput *)

Record SloGoodput : Type := mkSloGoodput { served : Z; met : Z; ttft_ms_sum : Z; ttft_budget_ms_sum : Z }.
Definition slo_goodput_default : SloGoodput := mkSloGoodput 0 0 0 0.

Definition slo_record (ttft budget : Z) (s : SloGoodput) : SloGoodput :=
  mkSloGoodput (fetch_add (served s) 1) (if ttft <=? budget then fetch_add (met s) 1 else met s)
    (fetch_add (ttft_ms_sum s) ttft) (fetch_add (ttft_budget_ms_sum s) budget).

Definition slo_observation_default : SloObservation := mkSloObs None None None None None None None.
Definition slo_observation (s : SloGoodput) : SloObservation :=
  if served s =? 0 then slo_observation_default
  else mkSloObs None (Some (f64_div (f64_of_u64 (ttft_ms_sum s)) (f64_of_u64 (served s)))) None (Some (ttft_budget_ms_sum s / served s)) None
         (gw_pct (sat_sub (served s) (met s)) (served s)) (gw_pct (met s) (served s)).

(** The JSON object of [/v1/state]. *)
Record SloSnapshot : Type := mkSloSnapshot { ss_served : Z; ss_met_slo : Z; ss_goodput_pct : f64; ss_mean_ttft_ms : f64; ss_mean_ttft_budget_ms : Z }.
Definition slo_snapshot (s : SloGoodput) : SloSnapshot :=
  let o := slo_observation s in
  mkSloSnapshot (served s) (met s) (default (f64_of_u64 0) (goodput_pct o))
    (if 0 <? served s then f64_div (f64_of_u64 (ttft_ms_sum s)) (f64_of_u64 (served s)) else f64_of_u64 0)
    (default 0 (ttft_budget_ms o)).

(** ** Routing and transfer counters *)

Record GatewayRouteTrace : Type := mkTrace {
  tr_request_id : string;
  tr_mode : ServingMode;
  tr_engine_id : string;
  tr_prefill_engine_id : option string;
  tr_decode_engine_id : string;
  tr_planner_actions : Z;
  tr_reusable_blocks : Z;
  tr_local_hits : Z;
  tr_transfer_blocks : Z;
  tr_recompute_blocks : Z;
  tr_reuse_refused : Z;
  tr_estimated_ttft_us : Z;
  tr_estimated_tpot_us : Z;
  tr_estimated_transfer_us : Z;
  tr_estimated_first_transfer_us : Z
}.

Record GatewayMetrics : Type := mkMetrics {
  requests_total : Z;
  reusable_blocks_total : Z;
  local_hits_total : Z;
  transfer_blocks_total : Z;
  recompute_blocks_total : Z;
  reuse_refused_total : Z;
  transfer_requests_total : Z;
  transfer_estimated_us_sum : Z;
  transfer_first_estimated_us_sum : Z;
  measured_events_total : Z;
  measured_first_layer_events_total : Z;
  measured_bytes_total : Z;
  measured_layers_total : Z;
  measured_first_layer_us_sum : Z;
  measured_full_us_sum : Z;
  measured_overlap_us_sum : Z;
  measured_queue_depth : Z
}.
Definition metrics_default : GatewayMetrics := mkMetrics 0 0 0 0 0 0 0 0 0 0 0 0 0 0 0 0 0.

Definition metrics_record (t : GatewayRouteTrace) (m : GatewayMetrics) : GatewayMetrics :=
  let moved := 0 <? tr_transfer_blocks t in
  mkMetrics (fetch_add (requests_total m) 1) (fetch_add (reusable_blocks_total m) (tr_reusable_blocks t))
    (fetch_add (local_hits_total m) (tr_local_hits t)) (fetch_add (transfer_blocks_total m) (tr_transfer_blocks t))
    (fetch_add (recompute_blocks_total m) (tr_recompute_blocks t)) (fetch_add (reuse_refused_total m) (tr_reuse_refused t))
    (if moved then fetch_add (transfer_requests_total m) 1 else transfer_requests_total m)
    (if moved then fetch_add (transfer_estimated_us_sum m) (tr_estimated_transfer_us t) else transfer_estimated_us_sum m)
    (if moved then fetch_add (transfer_first_estimated_us_sum m) (tr_estimated_first_transfer_us t) else transfer_first_estimated_us_sum m)
    (measured_events_total m) (measured_first_layer_events_total m) (measured_bytes_total m) (measured_layers_total m)
    (measured_first_layer_us_sum m) (measured_full_us_sum m) (measured_overlap_us_sum m) (measured_queue_depth m).

(** The sum of the routed blocks panics when it overflows. *)
Definition metrics_observation (m : GatewayMetrics) : option CacheObservation :=
  a ← u64_add (local_hits_total m) (transfer_blocks_total m);
  routed ← u64_add a (recompute_blocks_total m);
  Some (mkCacheObs (requests_total m) (reusable_blocks_total m) (local_hits_total m) (transfer_blocks_total m)
          (recompute_blocks_total m) (reuse_refused_total m) (gw_pct (local_hits_total m) routed) (gw_pct (transfer_blocks_total m) routed)).

Record TransferTelemetryEvent : Type := mkTransferEvent {
  tv_request_id : option string;
  tv_source_engine_id : option string;
  tv_target_engine_id : option string;
  tv_backend : option string;
  tv_queue_depth : option Z;
  tv_telemetry : LayerTransferTelemetry
}.

Definition record_transfer_telemetry (e : TransferTelemetryEvent) (m : GatewayMetrics) : GatewayMetrics :=
  let t := tv_telemetry e in
  mkMetrics (requests_total m) (reusable_blocks_total m) (local_hits_total m) (transfer_blocks_total m) (recompute_blocks_total m)
    (reuse_refused_total m) (transfer_requests_total m) (transfer_estimated_us_sum m) (transfer_first_estimated_us_sum m)
    (fetch_add (measured_events_total m) 1)
    (match time_to_first_layer_us t with Some _ => fetch_add (measured_first_layer_events_total m) 1 | None => measured_first_layer_events_total m end)
    (fetch_add (measured_bytes_total m) (tl_bytes t)) (fetch_add (measured_layers_total m) (Z.of_nat (tl_layers t)))
    (match time_to_first_layer_us t with Some us => fetch_add (measured_first_layer_us_sum m) us | None => measured_first_layer_us_sum m end)
    (fetch_add (measured_full_us_sum m) (full_transfer_us t)) (fetch_add (measured_overlap_us_sum m) (overlap_window_us t))
    (default (measured_queue_depth m) (tv_queue_depth e)).

Definition transfer_observation_default : TransferObservation := mkTransferObs None None None None None 0 None.
Definition transfer_observation (m : GatewayMetrics) : TransferObservation :=
  if 0 <? measured_events_total m then
    let full_us := measured_full_us_sum m in
    let overlap_us := measured_overlap_us_sum m in
    mkTransferObs (avg_us_to_ms (measured_first_layer_us_sum m) (measured_first_layer_events_total m))
      (avg_us_to_ms full_us (measured_events_total m)) (avg_us_to_ms overlap_us (measured_events_total m))
      (avg_us_to_ms (sat_sub full_us overlap_us) (measured_events_total m)) (gw_overlap_efficiency_pct overlap_us full_us)
      (measured_queue_depth m) (gw_bandwidth_mbps (measured_bytes_total m) full_us)
  else
    let requests := transfer_requests_total m in
    if requests =? 0 then transfer_observation_default
    else
      let full_us := transfer_estimated_us_sum m in
      let first_us := transfer_first_estimated_us_sum m in
      mkTransferObs (Some (f64_div (f64_div (f64_of_u64 first_us) (f64_of_u64 requests)) (f64_of_u64 1000)))
        (Some (f64_div (f64_div (f64_of_u64 full_us) (f64_of_u64 requests)) (f64_of_u64 1000)))
        (avg_us_to_ms (sat_sub full_us first_us) requests) (avg_us_to_ms (Z.min first_us full_us) requests)
        (gw_overlap_efficiency_pct (sat_sub full_us first_us) full_us) 0 None.

Record TransferTelemetrySummary : Type := mkTransferSummary {
  su_measured_events : Z;
  su_measured_first_layer_events : Z;
  su_measured_bytes : Z;
  su_measured_layers : Z;
  su_avg_time_to_first_layer_ms : option f64;
  su_avg_full_transfer_ms : option f64;
  su_avg_overlap_window_ms : option f64;
  su_avg_exposed_transfer_ms : option f64;
  su_overlap_efficiency_pct : option f64;
  su_latest_queue_depth : Z;
  su_bandwidth_mbps : option f64
}.
Definition transfer_summary (m : GatewayMetrics) : TransferTelemetrySummary :=
  let events := measured_events_total m in
  let full_us := measured_full_us_sum m in
  let overlap_us := measured_overlap_us_sum m in
  mkTransferSummary events (measured_first_layer_events_total m) (measured_bytes_total m) (measured_layers_total m)
    (avg_us_to_ms (measured_first_layer_us_sum m) (measured_first_layer_events_total m)) (avg_us_to_ms full_us events)
    (avg_us_to_ms overlap_us events) (avg_us_to_ms (sat_sub full_us overlap_us) events) (gw_overlap_efficiency_pct overlap_us full_us)
    (measured_queue_depth m) (gw_bandwidth_mbps (measured_bytes_total m) full_us).

(** ** The estimated cost of a plan's fetches *)

Record TransferCostSummary : Type := mkTransferCost { tc_transfer_us : Z; tc_first_transfer_us : Z }.
Definition add_fetch (s : TransferCostSummary) (a : PlanAction) : TransferCostSummary :=
  if decide (pa_kind a = Fetch)
  then mkTransferCost (Z.min u64_max (tc_transfer_us s + pa_estimated_us a))
         (if tc_first_transfer_us s =? 0 then pa_estimated_us a else Z.min (tc_first_transfer_us s) (pa_estimated_us a))
  else s.
Definition transfer_cost_summary (p : RequestPlan) : TransferCostSummary := foldl add_fetch (mkTransferCost 0 0) (rq_actions p).
