(* ===== verification/Gateway.v ===== *)
(** * The gateway

    src/gateway.rs: the HTTP front of the control plane.  A handler is an async function;
    it is modelled by the states it waits in ([Task]) and one step per awaited result, so
    that the requests of a gateway interleave at its await points and nowhere else, and a
    request whose client goes away is dropped at one of them.  What the network and the
    clock return are inputs of the steps; a step has no result where the code panics.
    The control plane is behind a read-write lock: each step takes it once. *)
From stdpp Require Import pretty.
From S2P Require Import Prelude F64 Order Identity ShardedMap MemIndex Router Conductor Replication DataPlane StorePlane SlicePool CoScheduler Control GatewayRequest GatewayMetrics.

(** ** Configuration *)

Record DataPlaneConfig : Type := mkDataPlaneConfig {
  dc_kind : string;
  dc_hbm_capacity_bytes : option Z;
  dc_cpu_dram_capacity_bytes : option Z;
  dc_local_ssd_capacity_bytes : option Z
}.
Record ActionSinkConfig : Type := mkSinkConfig {
  ac_kind : string;
  ac_url : option string;
  ac_fail_open : bool;
  ac_timeout_ms : Z
}.
Record GatewayConfig : Type := mkGatewayConfig {
  gc_bind : string;
  gc_engines : list EngineEndpoint;
  gc_policy : option string;
  gc_index : option string;
  gc_index_path : option string;
  gc_data_plane : option DataPlaneConfig;
  gc_action_sink : option ActionSinkConfig;
  gc_conductor : option bool
}.
Inductive GatewayError : Type :=
| ReadConfig (path source : string) | ParseConfig (path source : string) | NoEngines
| BindError (addr source : string) | ActionSinkMissingUrl | ServeError (source : string).

(** [read] and [parse] are the file system's and serde_yaml's answers. *)
Definition config_from_path (path : string) (read : result string string) (parse : string → result string GatewayConfig) : result GatewayError GatewayConfig :=
  match read with
  | Err e => Err (ReadConfig path e)
  | Ok raw =>
      match parse raw with
      | Err e => Err (ParseConfig path e)
      | Ok config => if bool_decide (length (gc_engines config) = 0%nat) then Err NoEngines else Ok config
      end
  end.

Definition build_policy (name : option string) : Policy :=
  let name := default "greedy" name in
  if decide (name = "prefix-affinity" ∨ name = "affinity") then PrefixAffinity
  else if decide (name = "round-robin" ∨ name = "roundrobin") then RoundRobin
  else if decide (name = "least-loaded" ∨ name = "load") then LeastLoaded
  else if decide (name = "slo-aware" ∨ name = "slo") then SloAware
  else if decide (name = "session-affinity" ∨ name = "session") then SessionAffinity
  else if decide (name = "dynamo-cost" ∨ name = "dynamo" ∨ name = "kv-router") then DynamoCost dynamo_default
  else GreedyStatePlane.

(** Which index is used: the features of the build, and whether the store at the path opens. *)
Inductive IndexChoice : Type := UseMemory | UseHolt (path : string) | UseRocks (path : string).
Definition build_index (holt rocksdb : bool) (opens : string → bool) (config : GatewayConfig) : IndexChoice :=
  let name := default "memory" (gc_index config) in
  let path := default "quillcache-residency" (gc_index_path config) in
  if decide (name = "memory") then UseMemory
  else if decide (holt = true ∧ name = "holt") then (if opens path then UseHolt path else UseMemory)
  else if decide (rocksdb = true ∧ name = "rocksdb") then (if opens path then UseRocks path else UseMemory)
  else UseMemory.

(** [None]: no data plane. *)
Definition build_data_plane (config : option DataPlaneConfig) : option StoreTierConfig :=
  c ← config;
  if decide (dc_kind c = "none") then None
  else if decide (dc_kind c = "tiered" ∨ dc_kind c = "store") then
    let d := tier_config_default in
    Some (mkTierConfig (default (StorePlane.hbm_capacity_bytes d) (dc_hbm_capacity_bytes c))
            (default (cpu_dram_capacity_bytes d) (dc_cpu_dram_capacity_bytes c))
            (default (local_ssd_capacity_bytes d) (dc_local_ssd_capacity_bytes c)))
  else None.

Record ActionSink : Type := mkSink { sink_url : string; fail_open : bool; sink_timeout_ms : Z }.
Definition build_action_sink (config : option ActionSinkConfig) : result GatewayError (option ActionSink) :=
  match config with
  | None => Ok None
  | Some c =>
      if decide (ac_kind c = "none") then Ok None
      else if decide (ac_kind c = "http") then
        match ac_url c with
        | None => Err ActionSinkMissingUrl
        | Some url => Ok (Some (mkSink url (ac_fail_open c) (ac_timeout_ms c)))
        end
      else Ok None
  end.

Record ActionSinkSnapshot : Type := mkSinkSnapshot { sn_kind : string; sn_url : option string; sn_fail_open : bool; sn_timeout_ms : Z }.
Definition sink_disabled : ActionSinkSnapshot := mkSinkSnapshot "none" None true 0.
Definition sink_snapshot (s : ActionSink) : ActionSinkSnapshot := mkSinkSnapshot "http" (Some (sink_url s)) (fail_open s) (sink_timeout_ms s).

(** ** Events for the action sink *)

Inductive ActionSinkPhase : Type := PhasePlanned | PhaseCommitted.
Record ActionSinkPlan : Type := mkSinkPlan {
  ap_mode : ServingMode;
  ap_execution_worker_id : string;
  ap_prefill_worker_id : option string;
  ap_decode_worker_id : string;
  ap_actions : list PlanAction
}.
Definition sink_plan (p : RequestPlan) : ActionSinkPlan :=
  mkSinkPlan (rq_mode p) (rq_execution_worker_id p) (rq_prefill_worker_id p) (rq_decode_worker_id p) (rq_actions p).
Record ActionSinkEvent : Type := mkSinkEvent {
  ev_schema_version : Z;
  ev_phase : ActionSinkPhase;
  ev_openai_path : string;
  ev_request : RequestShape;
  ev_route : GatewayRouteTrace;
  ev_plan : ActionSinkPlan;
  ev_cache_actions : list DataPlaneAction
}.
Definition sink_event (phase : ActionSinkPhase) (path : string) (r : RequestShape) (t : GatewayRouteTrace) (p : ActionSinkPlan) (acts : list DataPlaneAction) : ActionSinkEvent :=
  mkSinkEvent 1 phase path r t p acts.

Inductive ActionSinkDelivery : Type := DDisabled | DSent | DFailed.
Definition delivery_header (d : ActionSinkDelivery) : string := match d with DDisabled => "disabled" | DSent => "sent" | DFailed => "failed" end.
Definition delivery_merge (a b : ActionSinkDelivery) : ActionSinkDelivery :=
  match a, b with
  | DFailed, _ | _, DFailed => DFailed
  | DSent, _ | _, DSent => DSent
  | _, _ => DDisabled
  end.

(** ** Errors *)

Inductive GatewayHttpError : Type :=
| EJson (e : string) | EControl (e : ControlError) | EMissingEngine (id : string)
| EUpstream (e : string) | EActionSink (e : string) | EBuildResponse (e : string).
Definition error_status (e : GatewayHttpError) : Z :=
  match e with
  | EJson _ => 400
  | EMissingEngine _ => 502
  | EControl _ | EUpstream _ | EActionSink _ | EBuildResponse _ => 502
  end.

(** [answer] is what publishing the event returned. *)
Definition dispatch_action_sink_event (sink : option ActionSink) (answer : result string unit) : result GatewayHttpError ActionSinkDelivery :=
  match sink with
  | None => Ok DDisabled
  | Some s =>
      match answer with
      | Ok _ => Ok DSent
      | Err e => if fail_open s then Ok DFailed else Err (EActionSink e)
      end
  end.

(** ** Headers *)

Notation Headers := (list (string * string)).

Definition should_forward_header (name : string) : bool :=
  negb (bool_decide (name ∈ ["host"; "content-length"; "connection"; "upgrade"; "proxy-authorization"; "proxy-authenticate"; "te"; "trailer"; "transfer-encoding"])).
Definition should_return_header (name : string) : bool := should_forward_header name && negb (bool_decide (name = "content-length")).

Definition serving_mode_header (m : ServingMode) : string := match m with AggregatedMode => "aggregated" | Disaggregated => "disaggregated" end.

(** [trim_end_matches('/')]. *)
Fixpoint trim_end_slash (s : string) : string :=
  match s with
  | EmptyString => EmptyString
  | String c s' => let t := trim_end_slash s' in if decide (c = Ascii.ascii_of_nat 47 ∧ t = "") then "" else String c t
  end.

Record UpstreamRequest : Type := mkUpstreamRequest { ur_url : string; ur_headers : Headers; ur_body : list Z }.
Record Upstream : Type := mkUpstream { up_status : Z; up_headers : Headers }.
(** The head of the response; its body streams the upstream's. *)
Record Response : Type := mkResponse { rs_status : Z; rs_headers : Headers }.

Definition is_success (status : Z) : bool := (200 <=? status) && (status <? 300).
(** [StatusCode::from_u16(..).unwrap_or(INTERNAL_SERVER_ERROR)]. *)
Definition status_from_u16 (n : Z) : Z := if (100 <=? n) && (n <=? 999) then n else 500.

(** Values a [HeaderValue] can hold. *)
Class HeaderLib : Type := { header_value_ok : string → bool }.

(** ** The state *)

Record Gateway (B D : Type) : Type := mkGateway {
  g_control : ControlPlane B D;
  g_sink : option ActionSink;
  g_slo : SloGoodput;
  g_metrics : GatewayMetrics;
  g_co_policy : CoSchedulerPolicy;
  g_epoch : Z
}.
Arguments mkGateway {B D}. Arguments g_control {B D}. Arguments g_sink {B D}. Arguments g_slo {B D}.
Arguments g_metrics {B D}. Arguments g_co_policy {B D}. Arguments g_epoch {B D}.

Section updates.
Context {B D : Type}.
Implicit Types g : Gateway B D.
Definition set_control (c : ControlPlane B D) g : Gateway B D := mkGateway c (g_sink g) (g_slo g) (g_metrics g) (g_co_policy g) (g_epoch g).
Definition set_slo (s : SloGoodput) g : Gateway B D := mkGateway (g_control g) (g_sink g) s (g_metrics g) (g_co_policy g) (g_epoch g).
Definition set_metrics (m : GatewayMetrics) g : Gateway B D := mkGateway (g_control g) (g_sink g) (g_slo g) m (g_co_policy g) (g_epoch g).
Definition set_epoch (n : Z) g : Gateway B D := mkGateway (g_control g) (g_sink g) (g_slo g) (g_metrics g) (g_co_policy g) n.
End updates.

(** [run], up to serving: the control plane over the index and data plane chosen. *)
Definition gateway_start {B D} (config : GatewayConfig) (index : B) (plane : D) : result GatewayError (Gateway B D) :=
  match build_action_sink (gc_action_sink config) with
  | Err e => Err e
  | Ok sink =>
      let control := with_conductor_routing (default false (gc_conductor config))
                       (with_data_plane plane (with_index_and_policy (gc_engines config) index (build_policy (gc_policy config)) cost_default)) in
      Ok (mkGateway control sink slo_goodput_default metrics_default co_policy_default 0)
  end.

(** ** Proxying a request *)

(** What the handler keeps from planning on. *)
Record Routed : Type := mkRouted {
  rt_request : RequestShape;
  rt_engine : EngineEndpoint;
  rt_trace : GatewayRouteTrace;
  rt_plan : ActionSinkPlan;
  rt_body : list Z;
  rt_headers : Headers;
  rt_path : string
}.

(** The states of the handler, by what it waits for. *)
Inductive Task : Type :=
| Arrived (headers : Headers) (body : list Z) (path : string)              (* the read lock *)
| Planned (x : Routed)                                                     (* the sink, about the plan *)
| Ready (x : Routed) (d : ActionSinkDelivery)                              (* the write lock, to begin *)
| Sending (x : Routed) (d : ActionSinkDelivery)                            (* the engine's response head *)
| Answered (x : Routed) (d : ActionSinkDelivery) (u : result string Upstream)   (* the write lock, to end *)
| Placing (x : Routed) (d : ActionSinkDelivery) (u : Upstream)             (* the write lock, to place *)
| Committing (x : Routed) (d : ActionSinkDelivery) (u : Upstream) (acts : list DataPlaneAction)   (* the sink, about the placement *)
| Streaming (r : Response) (budget : Z) (recorded : bool)                  (* the engine's next chunk *)
| Finished (r : Response)
| Refused (e : GatewayHttpError)
| Dropped (t : Task).                                                      (* cancelled while waiting in [t] *)

Inductive Input : Type :=
| InLock (nanos : Z)                        (* a lock, with the system clock *)
| InSink (answer : result string unit)
| InUpstream (answer : result string Upstream)
| InChunk (elapsed_ms : Z)
| InEnd.

(** What a step shows to the outside. *)
Inductive Effect : Type :=
| EffRouted (r : RequestShape) (t : GatewayRouteTrace)
| EffPublish (e : ActionSinkEvent)
| EffSend (r : UpstreamRequest)
| EffPlaced (worker : string) (r : RequestShape)
| EffFirstChunk (status ttft budget : Z).

Definition publish (sink : option ActionSink) (e : ActionSinkEvent) : list Effect :=
  match sink with Some _ => [EffPublish e] | None => [] end.

Definition upstream_request (x : Routed) : UpstreamRequest :=
  let t := rt_trace x in
  mkUpstreamRequest (trim_end_slash (e_base_url (rt_engine x)) +:+ rt_path x)
    (filter (λ nv, should_forward_header nv.1 = true) (rt_headers x)
     ++ [("x-quillcache-engine-id", tr_engine_id t); ("x-quillcache-request-id", tr_request_id t);
         ("x-quillcache-mode", serving_mode_header (tr_mode t)); ("x-quillcache-decode-engine-id", tr_decode_engine_id t)]
     ++ match tr_prefill_engine_id t with Some p => [("x-quillcache-prefill-engine-id", p)] | None => [] end
     ++ [("x-quillcache-reusable-blocks", pretty (tr_reusable_blocks t))])
    (rt_body x).

Definition response_headers (t : GatewayRouteTrace) (u : Upstream) (acts : list DataPlaneAction) (d : ActionSinkDelivery) : Headers :=
  filter (λ nv, should_return_header nv.1 = true) (up_headers u)
  ++ [("x-quillcache-engine-id", tr_engine_id t); ("x-quillcache-mode", serving_mode_header (tr_mode t));
      ("x-quillcache-decode-engine-id", tr_decode_engine_id t); ("x-quillcache-prefill-engine-id", default "" (tr_prefill_engine_id t));
      ("x-quillcache-planner-actions", pretty (tr_planner_actions t)); ("x-quillcache-cache-actions", pretty (Z.of_nat (length acts)));
      ("x-quillcache-action-sink", delivery_header d); ("x-quillcache-request-id", tr_request_id t);
      ("x-quillcache-local-hits", pretty (tr_local_hits t)); ("x-quillcache-transfer-blocks", pretty (tr_transfer_blocks t));
      ("x-quillcache-recompute-blocks", pretty (tr_recompute_blocks t)); ("x-quillcache-reuse-refused", pretty (tr_reuse_refused t));
      ("x-quillcache-estimated-ttft-us", pretty (tr_estimated_ttft_us t)); ("x-quillcache-estimated-transfer-us", pretty (tr_estimated_transfer_us t));
      ("x-quillcache-estimated-first-transfer-us", pretty (tr_estimated_first_transfer_us t))].

Section gateway.
Context {B D : Type} `{IndexBackend B} `{DataPlane D} `{KeyHash} `{Libm} `{HashIter} `{SerdeJson} `{HeaderLib}.
Implicit Types (g : Gateway B D) (c : ControlPlane B D).

Definition route_trace (p : RequestPlan) (a : ReuseAudit) : GatewayRouteTrace :=
  let d := rq_route p in
  let costs := transfer_cost_summary p in
  mkTrace (rd_request_id d) (rq_mode p) (rq_execution_worker_id p) (rq_prefill_worker_id p) (rq_decode_worker_id p)
    (Z.of_nat (length (rq_actions p))) (reusable_blocks d) (Z.of_nat (length (local_hits d))) (Z.of_nat (length (transfers d)))
    (Z.of_nat (length (recomputes d))) (refused_unsafe a) (estimated_ttft_us d) (estimated_tpot_us d) (tc_transfer_us costs) (tc_first_transfer_us costs).

(** Under the read lock: plan, audit, and look the engine up. *)
Definition route_request (r : RequestShape) c : option (result GatewayHttpError (EngineEndpoint * GatewayRouteTrace * ActionSinkPlan) * ControlPlane B D) :=
  '(x, c') ← plan r c;
  Some (match x with
        | Err e => Err (EControl e)
        | Ok p =>
            match find_engine (cp_engines c') (rq_execution_worker_id p) with
            | None => Err (EMissingEngine (rq_execution_worker_id p))
            | Some engine => Ok (engine, route_trace p (audit_reuse r c'), sink_plan p)
            end
        end, c').

(** From arrival to the sink's planned event. *)
Definition step_plan (headers : Headers) (body : list Z) (path : string) (nanos : Z) g : option (Task * Gateway B D * list Effect) :=
  match from_slice body with
  | Err e => Some (Refused (EJson e), g, [])
  | Ok payload0 =>
      let '(r, payload) := request_shape_from_payload nanos payload0 in
      match to_vec payload with
      | Err e => Some (Refused (EJson e), g, [])
      | Ok clean_body =>
          '(x, c') ← route_request r (g_control g);
          let g := set_control c' g in
          Some match x with
               | Err e => (Refused e, g, [])
               | Ok (engine, trace, plan) =>
                   (Planned (mkRouted r engine trace plan clean_body headers path), set_metrics (metrics_record trace (g_metrics g)) g,
                    EffRouted r trace :: publish (g_sink g) (sink_event PhasePlanned path r trace plan []))
               end
      end
  end.

(** The response head, or an error when a header value cannot be sent. *)
Definition build_response (x : Routed) (u : Upstream) (acts : list DataPlaneAction) (d : ActionSinkDelivery) : Task :=
  let headers := response_headers (rt_trace x) u acts d in
  if forallb (λ nv, header_value_ok nv.2) headers
  then Streaming (mkResponse (status_from_u16 (up_status u)) headers) (ttft_ms (req_slo (rt_request x))) false
  else Refused (EBuildResponse "invalid header value").

(** [proxy_openai_path], one awaited result at a time. *)
Definition task_step (t : Task) (i : Input) g : option (Task * Gateway B D * list Effect) :=
  match t, i with
  | Arrived headers body path, InLock nanos => step_plan headers body path nanos g
  | Planned x, InSink answer =>
      Some (match dispatch_action_sink_event (g_sink g) answer with Err e => Refused e | Ok d => Ready x d end, g, [])
  | Ready x d, InLock _ =>
      Some (Sending x d, set_control (begin_request (tr_engine_id (rt_trace x)) (g_control g)) g, [EffSend (upstream_request x)])
  | Sending x d, InUpstream answer => Some (Answered x d answer, g, [])
  | Answered x d u, InLock _ =>
      let g := set_control (end_request (tr_engine_id (rt_trace x)) (g_control g)) g in
      Some (match u with
            | Err e => Refused (EUpstream e)
            | Ok u => if is_success (status_from_u16 (up_status u)) then Placing x d u else build_response x u [] (delivery_merge d DDisabled)
            end, g, [])
  | Placing x d u, InLock _ =>
      '(acts, c') ← observe_placement (tr_engine_id (rt_trace x)) (rt_request x) DEFAULT_BLOCK_BYTES (g_control g);
      Some (Committing x d u acts, set_control c' g,
            EffPlaced (tr_engine_id (rt_trace x)) (rt_request x)
            :: publish (g_sink g) (sink_event PhaseCommitted (rt_path x) (rt_request x) (rt_trace x) (rt_plan x) acts))
  | Committing x d u acts, InSink answer =>
      Some (match dispatch_action_sink_event (g_sink g) answer with
            | Err e => Refused e
            | Ok d' => build_response x u acts (delivery_merge d d')
            end, g, [])
  | Streaming r budget recorded, InChunk elapsed_ms =>
      Some (if recorded then (Streaming r budget true, g, [])
            else (Streaming r budget true, set_slo (slo_record elapsed_ms budget (g_slo g)) g, [EffFirstChunk (rs_status r) elapsed_ms budget]))
  | Streaming r _ _, InEnd => Some (Finished r, g, [])
  | _, _ => None
  end.

(** ** The other handlers *)

Definition ingest_kv_events (batch : KvEventBatch) g : option (result GatewayHttpError IngestSummary * Gateway B D) :=
  '(x, c') ← ingest batch (g_control g);
  Some (match x with Ok s => Ok s | Err e => Err (EControl e) end, set_control c' g).

Definition ingest_transfer_telemetry (e : TransferTelemetryEvent) g : TransferTelemetrySummary * Gateway B D :=
  let m := record_transfer_telemetry e (g_metrics g) in
  (transfer_summary m, set_metrics m g).

(** The JSON object, less the index's own metrics and the names of the backend and policy. *)
Record StateSnapshot : Type := mkState {
  st_engines : list EngineEndpoint;
  st_workers : list WorkerState;
  st_data_plane : string;
  st_data_plane_metrics : DataPlaneMetrics;
  st_data_plane_residency : list CacheResidency;
  st_action_sink : ActionSinkSnapshot;
  st_slo_goodput : SloSnapshot;
  st_transfer_telemetry : TransferTelemetrySummary;
  st_co_snapshot : CoSchedulerSnapshot;
  st_co_plan : CoSchedulerPlan;
  st_resident_blocks : Z;
  st_residency : list CacheResidency
}.
Definition state_snapshot g : option (StateSnapshot * Gateway B D) :=
  let c := g_control g in
  let epoch := Z.min u64_max (g_epoch g + 1) in
  let g' := set_epoch (fetch_add (g_epoch g) 1) g in
  let threshold := Z.min (min_hot_prefix_hits (g_co_policy g)) u32_max in
  cache ← metrics_observation (g_metrics g);
  snapshot ← co_scheduler_snapshot epoch (CoScheduler.mkTelemetry (slo_observation (g_slo g)) cache (transfer_observation (g_metrics g))) threshold c;
  plan ← dry_run (g_co_policy g) snapshot;
  dm ← dp_metrics (cp_data_plane c);
  Some (mkState (cp_engines c) (cp_workers c) (dp_name (cp_data_plane c)) dm (dp_snapshot (cp_data_plane c))
          (from_option sink_snapshot sink_disabled (g_sink g)) (slo_snapshot (g_slo g)) (transfer_summary (g_metrics g)) snapshot plan
          (ix_len (cp_residency c)) (ix_snapshot (cp_residency c)), g').

Definition metric (name help kind : string) (value : Z) : string :=
  "# HELP " +:+ name +:+ " " +:+ help +:+ newline +:+ "# TYPE " +:+ name +:+ " " +:+ kind +:+ newline +:+ name +:+ " " +:+ pretty value +:+ newline.
Definition metrics_endpoint g : string :=
  let m := g_metrics g in
  let s := g_slo g in
  let resident := ix_len (cp_residency (g_control g)) in
  collect
  [metric "quillcache_requests_total" "Requests routed by the gateway." "counter" (requests_total m);
   metric "quillcache_local_hits_total" "KV blocks served from a worker's local HBM." "counter" (local_hits_total m);
   metric "quillcache_transfer_blocks_total" "KV blocks fetched from the store / another worker." "counter" (transfer_blocks_total m);
   metric "quillcache_transfer_requests_total" "Requests whose plan includes remote KV fetches." "counter" (transfer_requests_total m);
   metric "quillcache_transfer_estimated_us_sum" "Sum of planner-estimated full KV fetch time." "counter" (transfer_estimated_us_sum m);
   metric "quillcache_transfer_first_estimated_us_sum" "Sum of planner-estimated first KV fetch time." "counter" (transfer_first_estimated_us_sum m);
   metric "quillcache_transfer_measured_events_total" "Layer-wise transfer telemetry events reported by the transfer engine." "counter" (measured_events_total m);
   metric "quillcache_transfer_measured_first_layer_events_total" "Measured transfer events that made layer 0 consumable." "counter" (measured_first_layer_events_total m);
   metric "quillcache_transfer_measured_bytes_total" "Bytes covered by measured transfer telemetry." "counter" (measured_bytes_total m);
   metric "quillcache_transfer_measured_layers_total" "Layers covered by measured transfer telemetry." "counter" (measured_layers_total m);
   metric "quillcache_transfer_measured_first_layer_us_sum" "Sum of measured consumer-visible first-layer latency." "counter" (measured_first_layer_us_sum m);
   metric "quillcache_transfer_measured_full_us_sum" "Sum of measured full-transfer latency." "counter" (measured_full_us_sum m);
   metric "quillcache_transfer_measured_overlap_us_sum" "Sum of measured transfer overlap windows." "counter" (measured_overlap_us_sum m);
   metric "quillcache_transfer_measured_queue_depth" "Latest reported transfer queue depth." "gauge" (measured_queue_depth m);
   metric "quillcache_recompute_blocks_total" "KV blocks recomputed on a cache miss." "counter" (recompute_blocks_total m);
   metric "quillcache_reusable_blocks_total" "Reusable prefix blocks the planner found." "counter" (reusable_blocks_total m);
   metric "quillcache_reuse_refused_total" "Content-matching blocks the identity guard refused." "counter" (reuse_refused_total m);
   metric "quillcache_slo_served_total" "Streamed responses measured for SLO goodput." "counter" (served s);
   metric "quillcache_slo_met_total" "Responses whose first token met the TTFT budget." "counter" (met s);
   metric "quillcache_slo_ttft_ms_sum" "Sum of measured TTFT in milliseconds." "counter" (ttft_ms_sum s);
   metric "quillcache_resident_blocks" "Current resident KV blocks in the index." "gauge" resident].

(** ** Many requests

    The log holds the effects of every request, by its number. *)

Record System : Type := mkSystem { sys_gateway : Gateway B D; sys_tasks : list Task; sys_log : list (nat * Effect) }.
Definition sys_start g : System := mkSystem g [] [].

Inductive Event : Type :=
| EvArrive (headers : Headers) (body : list Z) (path : string)
| EvStep (i : nat) (input : Input)
| EvCancel (i : nat)
| EvIngest (batch : KvEventBatch)
| EvTelemetry (e : TransferTelemetryEvent)
| EvSnapshot.

(** A finished or dropped request cannot be cancelled. *)
Definition live (t : Task) : bool := match t with Finished _ | Refused _ | Dropped _ => false | _ => true end.

Definition sys_step (e : Event) (s : System) : option System :=
  let '(mkSystem g ts log) := s in
  match e with
  | EvArrive headers body path => Some (mkSystem g (ts ++ [Arrived headers body path]) log)
  | EvStep i input =>
      t ← ts !! i;
      '(t', g', effs) ← task_step t input g;
      Some (mkSystem g' (<[i := t']> ts) (log ++ (pair i <$> effs)))
  | EvCancel i =>
      t ← ts !! i;
      if live t then Some (mkSystem g (<[i := Dropped t]> ts) log) else None
  | EvIngest batch => '(_, g') ← ingest_kv_events batch g; Some (mkSystem g' ts log)
  | EvTelemetry ev => Some (mkSystem (ingest_transfer_telemetry ev g).2 ts log)
  | EvSnapshot => '(_, g') ← state_snapshot g; Some (mkSystem g' ts log)
  end.
Fixpoint sys_run (es : list Event) (s : System) : option System :=
  match es with
  | [] => Some s
  | e :: es => s' ← sys_step e s; sys_run es s'
  end.
End gateway.
Arguments System : clear implicits.
