(* ===== verification/GatewayTheorems.v ===== *)
(** * What the gateway promises

    Over every interleaving of requests, cancellations, engine events, telemetry and
    snapshots: the load counters, the routing targets, the totals, and the order of what a
    request does.

    Lemmas about the gateway.

    What its handlers leave alone in the control plane, and induction over the events of a
    gateway serving many requests.

    The gateway's totals.

    The counters behind /metrics and the co-scheduler's telemetry are the sums over what
    the requests did, and requests go to configured engines. *)
From S2P Require Import Prelude F64 Order Identity ShardedMap MemIndex IndexLaws Router RouterPlan RouterTheorems Conductor Replication DataPlane StorePlane SlicePool CoScheduler Control ControlTheorems GatewayRequest GatewayMetrics Gateway.

Section control.
Context {B D : Type} `{IndexBackend B} `{DataPlane D} `{KeyHash} `{Libm} `{HashIter}.
Implicit Types c : ControlPlane B D.

(** The fleet is changed by no operation but the load counters. *)
Definition same_fleet c c' : Prop := cp_engines c' = cp_engines c ∧ cp_workers c' = cp_workers c.

Lemma plan_fleet r c x c' : plan r c = Some (x, c') → same_fleet c c'.
Proof.
  unfold plan. intros (h & _ & ([y n] & _ & E)%bind_Some)%bind_Some. by destruct y; injection E as <- <-.
Qed.

Lemma observe_fleet w r bytes c acts c' : observe_placement w r bytes c = Some (acts, c') → same_fleet c c'.
Proof. unfold observe_placement. intros ([[a b] d] & _ & E)%bind_Some. destruct (request_prefix r). by injection E as <- <-. Qed.

Lemma feed_fleet batch c : same_fleet c (feed_conductor batch c).
Proof. unfold feed_conductor. by destruct (find_engine _ _). Qed.

Lemma ingest_fleet batch c x c' : ingest batch c = Some (x, c') → same_fleet c c'.
Proof.
  unfold ingest. intros ([y b] & _ & E)%bind_Some. destruct y as [summary|e]; [|by injection E as <- <-].
  destruct (feed_fleet batch (set_residency b c)) as [He Hw]. cbn zeta in E.
  case_decide; [injection E as <- <-; done|]. apply bind_Some in E as ([y d] & _ & E). destruct y as [u|e]; [|by injection E as <- <-].
  apply bind_Some in E as ([a b'] & _ & E). by injection E as <- <-.
Qed.

(** Every worker is an engine. *)
Definition fleet_ok c : Prop := w_id <$> cp_workers c = e_id <$> cp_engines c.

Lemma same_fleet_ok c c' : same_fleet c c' → fleet_ok c → fleet_ok c'.
Proof. unfold fleet_ok. by intros [-> ->]. Qed.

Lemma update_worker_ids id f ws : (∀ w, w_id (f w) = w_id w) → w_id <$> update_worker id f ws = w_id <$> ws.
Proof. intros Hf. induction ws as [|w ws IH]; [done|]. cbn. case_decide; cbn; [by rewrite Hf|by rewrite IH]. Qed.

Lemma find_update_worker id f ws e :
  (∀ w, w_id (f w) = w_id w) →
  List.find (λ w, bool_decide (w_id w = e)) (update_worker id f ws)
  = (if decide (e = id) then f else λ w, w) <$> List.find (λ w, bool_decide (w_id w = e)) ws.
Proof.
  intros Hf. induction ws as [|w ws IH]; [by destruct (decide _)|]. cbn. destruct (decide (w_id w = id)) as [Ew|Ew]; cbn.
  - rewrite Hf. case_bool_decide as E; [rewrite decide_True by congruence; done|]. rewrite decide_False by congruence. by destruct (List.find _ ws).
  - case_bool_decide as E; [by rewrite decide_False by congruence|done].
Qed.

Lemma find_engine_some c id : fleet_ok c → (∃ w, w ∈ cp_workers c ∧ w_id w = id) → ∃ e, find_engine (cp_engines c) id = Some e ∧ e_id e = id.
Proof.
  intros Hok (w & Hw & <-). assert (w_id w ∈ e_id <$> cp_engines c) as Hin by (rewrite <- Hok; by apply list_elem_of_fmap_2).
  apply list_elem_of_fmap in Hin as (e & E & He). unfold find_engine.
  destruct (List.find _ _) as [e'|] eqn:Ef.
  - exists e'. split; [done|]. apply List.find_some in Ef as [_ Hb]. by apply bool_decide_eq_true in Hb.
  - exfalso. apply list_elem_of_In in He. pose proof (List.find_none _ _ Ef e He) as Hn. cbn in Hn. by rewrite bool_decide_eq_true_2 in Hn.
Qed.

Lemma plan_worker r c p c' :
  plan r c = Some (Ok p, c') →
  (∃ w, w ∈ cp_workers c ∧ w_id w = rq_execution_worker_id p)
  ∧ rd_request_id (rq_route p) = req_id r
  ∧ local_hits (rq_route p) ++ (tp_key <$> transfers (rq_route p)) ++ (rp_key <$> recomputes (rq_route p)) ≡ₚ req_blocks r.
Proof.
  unfold plan. intros (h & _ & ([x n] & Hdec & Hp)%bind_Some)%bind_Some. destruct x as [route|e]; [|done]. injection Hp as <- <-.
  destruct (decide_planned _ _ _ _ _ _ Hdec) as (cm & w & Hw & Hplan). destruct (plan_for_worker_ok _ _ _ _ _ _ Hplan) as (Hid & Hrid & Hserve & _ & _).
  split_and!; [|done..]. exists w. split; [|done]. unfold route_workers in Hw. case_bool_decide; [done|].
  by apply list_elem_of_filter in Hw as [_ Hw].
Qed.

(** Routing on a fleet whose workers are engines finds the engine; the counts of the trace are the request's blocks. *)
Lemma route_request_ok r c x c' :
  fleet_ok c → route_request r c = Some (x, c') →
  same_fleet c c' ∧ (∀ id, x ≠ Err (EMissingEngine id))
  ∧ ∀ engine t p, x = Ok (engine, t, p) →
      e_id engine = tr_engine_id t ∧ engine ∈ cp_engines c ∧ tr_request_id t = req_id r
      ∧ tr_local_hits t + tr_transfer_blocks t + tr_recompute_blocks t = Z.of_nat (length (req_blocks r))
      ∧ tr_reusable_blocks t = tr_local_hits t + tr_transfer_blocks t ∧ tr_reuse_refused t = refused_unsafe (audit_reuse r c').
Proof.
  intros Hok. unfold route_request. intros ([y c1] & Hp & E)%bind_Some. injection E as <- <-. pose proof (plan_fleet _ _ _ _ Hp) as Hs.
  destruct y as [p|e]; [|done]. destruct (plan_worker r c p c1 Hp) as (Hw & Hid & Hperm).
  destruct (find_engine_some c1 (rq_execution_worker_id p)) as (en & Hen & Heid); [by eapply same_fleet_ok|destruct Hs as [_ ->]; done|].
  rewrite Hen. split_and!; [done|done|]. intros engine t pl [= <- <- <-]. cbn. split_and!; try done.
  - unfold find_engine in Hen. apply List.find_some in Hen as [Hin _]. apply list_elem_of_In in Hin. by destruct Hs as [<- _].
  - apply Permutation_length in Hperm. rewrite !length_app, !length_fmap in Hperm. lia.
Qed.
End control.

(** ** Induction over events *)

Section system.
Context {B D : Type} `{IndexBackend B} `{DataPlane D} `{KeyHash} `{Libm} `{HashIter} `{SerdeJson} `{HeaderLib}.
Implicit Types (g : Gateway B D) (s : System B D).

Lemma sys_run_ind (P : System B D → Prop) es s s' :
  (∀ e s1 s2, P s1 → sys_step e s1 = Some s2 → P s2) → P s → sys_run es s = Some s' → P s'.
Proof.
  intros Hstep. revert s. induction es as [|e es IH]; intros s HP Hrun; cbn in Hrun; [by simplify_eq|].
  apply bind_Some in Hrun as (s1 & Hs1 & Hrun). eauto.
Qed.

Lemma sys_run_app es1 es2 s : sys_run (es1 ++ es2) s = sys_run es1 s ≫= sys_run es2.
Proof. revert s. induction es1 as [|e es1 IH]; intros s; [done|]. cbn. destruct (sys_step e s); cbn; [apply IH|done]. Qed.

(** A step of one request, or an event that leaves the requests alone. *)
Inductive sys_case g ts log : System B D → Prop :=
| case_arrive h b p : sys_case g ts log (mkSystem g (ts ++ [Arrived h b p]) log)
| case_step i t input t' g' effs : ts !! i = Some t → task_step t input g = Some (t', g', effs) →
    sys_case g ts log (mkSystem g' (<[i := t']> ts) (log ++ (pair i <$> effs)))
| case_cancel i t : ts !! i = Some t → live t = true → sys_case g ts log (mkSystem g (<[i := Dropped t]> ts) log)
| case_other g' : same_fleet (g_control g) (g_control g') → g_sink g' = g_sink g → g_slo g' = g_slo g →
    (requests_total (g_metrics g'), reusable_blocks_total (g_metrics g'), local_hits_total (g_metrics g'), transfer_blocks_total (g_metrics g'),
     recompute_blocks_total (g_metrics g'), reuse_refused_total (g_metrics g'))
    = (requests_total (g_metrics g), reusable_blocks_total (g_metrics g), local_hits_total (g_metrics g), transfer_blocks_total (g_metrics g),
       recompute_blocks_total (g_metrics g), reuse_refused_total (g_metrics g)) →
    sys_case g ts log (mkSystem g' ts log).

Lemma sys_step_case e g ts log s' : sys_step e (mkSystem g ts log) = Some s' → sys_case g ts log s'.
Proof.
  destruct e as [h b p|i input|i|batch|ev|]; cbn.
  - intros [= <-]. constructor.
  - intros (t & Ht & ([[t' g'] effs] & Hs & [= <-])%bind_Some)%bind_Some. by econstructor.
  - intros (t & Ht & E)%bind_Some. destruct (live t) eqn:El; [|done]. injection E as <-. by constructor.
  - intros ([x g'] & Hi & [= <-])%bind_Some. unfold ingest_kv_events in Hi. apply bind_Some in Hi as ([y c'] & Hc & [= <- <-]).
    apply case_other; try done. by eapply ingest_fleet.
  - intros [= <-]. by apply case_other.
  - intros ([x g'] & Hs & [= <-])%bind_Some. unfold state_snapshot in Hs. repeat (apply bind_Some in Hs as (? & _ & Hs)).
    injection Hs as <- <-. by apply case_other.
Qed.
End system.

(** A request between [begin_request] and [end_request] on an engine, now or when it was dropped. *)
Fixpoint in_flight (e : string) (t : Task) : Z :=
  match t with
  | Sending x _ | Answered x _ _ => if decide (tr_engine_id (rt_trace x) = e) then 1 else 0
  | Dropped t => in_flight e t
  | _ => 0
  end.
Definition load (e : string) (ts : list Task) : Z := foldr (λ t n, in_flight e t + n) 0 ts.

Lemma in_flight_bounds e t : 0 ≤ in_flight e t ≤ 1.
Proof. induction t; cbn; try case_decide; lia. Qed.

Lemma load_cons e t ts : load e (t :: ts) = in_flight e t + load e ts.
Proof. done. Qed.

Lemma load_bounds e ts : 0 ≤ load e ts ≤ Z.of_nat (length ts).
Proof. induction ts as [|t ts IH]; [done|]. rewrite load_cons. pose proof (in_flight_bounds e t). cbn [length]. lia. Qed.

Lemma load_insert e ts i t t' : ts !! i = Some t → load e (<[i := t']> ts) = load e ts - in_flight e t + in_flight e t'.
Proof.
  revert i. induction ts as [|x ts IH]; intros [|i] Hi; [done..| |].
  - injection Hi as <-. change (<[0%nat := t']> (x :: ts)) with (t' :: ts). rewrite !load_cons. lia.
  - change (<[S i := t']> (x :: ts)) with (x :: <[i := t']> ts). rewrite !load_cons, (IH i Hi). lia.
Qed.

Lemma load_elem e ts i t : ts !! i = Some t → in_flight e t ≤ load e ts ∧ load e ts - in_flight e t + 1 ≤ Z.of_nat (length ts).
Proof.
  revert i. induction ts as [|x ts IH]; intros [|i] Hi; [done..| |]; rewrite load_cons; cbn [length].
  - injection Hi as ->. pose proof (load_bounds e ts). lia.
  - destruct (IH i Hi). pose proof (in_flight_bounds e x). lia.
Qed.

Lemma load_app e ts us : load e (ts ++ us) = load e ts + load e us.
Proof. induction ts as [|t ts IH]; [done|]. cbn [app]. rewrite !load_cons. lia. Qed.

Section system.
Context {B D : Type} `{IndexBackend B} `{DataPlane D} `{KeyHash} `{Libm} `{HashIter} `{SerdeJson} `{HeaderLib}.
Implicit Types (g : Gateway B D) (s : System B D) (c : ControlPlane B D).

Definition find_worker c (e : string) : option WorkerState := List.find (λ w, bool_decide (w_id w = e)) (cp_workers c).

(** The load of every worker. *)
Definition loads c (n : string → Z) : Prop := ∀ e w, find_worker c e = Some w → running_decodes w = n e.

Lemma same_fleet_loads c c' n : same_fleet c c' → loads c n → loads c' n.
Proof. unfold loads, find_worker. by intros [_ ->]. Qed.

Lemma begin_loads c id n : loads c n → n id + 1 ≤ u32_max → loads (begin_request id c) (λ e, if decide (id = e) then n e + 1 else n e).
Proof.
  intros Hl Hb e w. unfold find_worker, begin_request. cbn [set_workers cp_workers]. rewrite find_update_worker by done.
  intros (w0 & Hw0 & ->)%fmap_Some. specialize (Hl e w0 Hw0). destruct (decide (e = id)) as [->|]; [rewrite decide_True by done; cbn; lia|].
  by rewrite decide_False by congruence.
Qed.

Lemma end_loads c id n : loads c n → 1 ≤ n id → loads (end_request id c) (λ e, if decide (id = e) then n e - 1 else n e).
Proof.
  intros Hl Hb e w. unfold find_worker, end_request. cbn [set_workers cp_workers]. rewrite find_update_worker by done.
  intros (w0 & Hw0 & ->)%fmap_Some. specialize (Hl e w0 Hw0). destruct (decide (e = id)) as [->|]; [rewrite decide_True by done; cbn; unfold sat_sub; lia|].
  by rewrite decide_False by congruence.
Qed.

Lemma loads_ext c n m : (∀ e, n e = m e) → loads c n → loads c m.
Proof. intros E Hl e w Hw. by rewrite <- E, (Hl e w). Qed.

(** Tasks that are not in flight. *)
Lemma build_response_flight e x u acts d : in_flight e (build_response x u acts d) = 0.
Proof. unfold build_response. by case_match. Qed.

Lemma task_step_load t i g t' g' effs n :
  fleet_ok (g_control g) → task_step t i g = Some (t', g', effs) → loads (g_control g) n → (∀ e, in_flight e t ≤ n e ∧ n e - in_flight e t + 1 ≤ u32_max) →
  loads (g_control g') (λ e, n e - in_flight e t + in_flight e t').
Proof.
  intros Hok Hs Hl Hb.
  assert (∀ c', same_fleet (g_control g) c' → (∀ e, in_flight e t = in_flight e t') → loads c' (λ e, n e - in_flight e t + in_flight e t')) as Hkeep.
  { intros c' Hsame Heq. eapply loads_ext; [|by eapply same_fleet_loads]. intros e. cbn. rewrite Heq. lia. }
  destruct t, i; cbn in Hs; try done.
  - unfold step_plan in Hs. destruct (from_slice body) as [payload0|er]; [|injection Hs as <- <- <-; by apply Hkeep].
    destruct (request_shape_from_payload nanos payload0) as [r payload]. destruct (to_vec payload) as [cb|er]; [|injection Hs as <- <- <-; by apply Hkeep].
    apply bind_Some in Hs as ([x c'] & Hr & Hs). destruct (route_request_ok r (g_control g) x c' Hok Hr) as (Hsame & _ & _).
    destruct x as [[[engine trace] p]|er]; injection Hs as <- <- <-; by apply Hkeep.
  - injection Hs as <- <- <-. apply Hkeep; [done|]. intros e. by destruct (dispatch_action_sink_event _ _).
  - injection Hs as <- <- <-. cbn. eapply loads_ext; [|apply begin_loads; [done|]]; [|destruct (Hb (tr_engine_id (rt_trace x))); cbn in *; lia].
    intros e. cbn. case_decide; lia.
  - injection Hs as <- <- <-. by apply Hkeep.
  - injection Hs as <- <- <-. eapply loads_ext; [|apply end_loads; [done|]].
    + intros e. cbn. assert (∀ t0, t0 = match u with Err e0 => Refused (EUpstream e0) | Ok u0 => if is_success (status_from_u16 (up_status u0)) then Placing x d u0 else build_response x u0 [] (delivery_merge d DDisabled) end → in_flight e t0 = 0) as Hz.
      { intros t0 ->. destruct u as [u0|]; [|done]. destruct (is_success _); [done|]. apply build_response_flight. }
      rewrite (Hz _ eq_refl). case_decide; lia.
    + destruct (Hb (tr_engine_id (rt_trace x))) as [Hle _]. cbn in Hle. by rewrite decide_True in Hle.
  - apply bind_Some in Hs as ([acts c'] & Hp & [= <- <- <-]). apply Hkeep; [by eapply observe_fleet|done].
  - injection Hs as <- <- <-. apply Hkeep; [done|]. intros e. destruct (dispatch_action_sink_event _ _); [|done]. cbn. by rewrite build_response_flight.
  - destruct recorded; injection Hs as <- <- <-; by apply Hkeep.
  - injection Hs as <- <- <-. by apply Hkeep.
Qed.

(** ** Load *)

Record sys_inv (engines : list EngineEndpoint) s : Prop := {
  si_engines : cp_engines (g_control (sys_gateway s)) = engines;
  si_fleet : fleet_ok (g_control (sys_gateway s));
  si_loads : Z.of_nat (length (sys_tasks s)) ≤ u32_max → loads (g_control (sys_gateway s)) (λ e, load e (sys_tasks s))
}.

Lemma task_step_fleet t i g t' g' effs :
  fleet_ok (g_control g) → task_step t i g = Some (t', g', effs) →
  cp_engines (g_control g') = cp_engines (g_control g) ∧ fleet_ok (g_control g') ∧ g_sink g' = g_sink g.
Proof.
  intros Hok Hs. assert (∀ c', same_fleet (g_control g) c' → cp_engines c' = cp_engines (g_control g) ∧ fleet_ok c') as Hkeep.
  { intros c' Hsame. split; [by destruct Hsame|by eapply same_fleet_ok]. }
  destruct t, i; cbn in Hs; try done.
  - unfold step_plan in Hs. destruct (from_slice body) as [payload0|er]; [|by injection Hs as <- <- <-].
    destruct (request_shape_from_payload nanos payload0) as [r payload]. destruct (to_vec payload) as [cb|er]; [|by injection Hs as <- <- <-].
    apply bind_Some in Hs as ([x c'] & Hr & Hs). destruct (route_request_ok r (g_control g) x c' Hok Hr) as (Hsame & _ & _).
    destruct (Hkeep c' Hsame). destruct x as [[[engine trace] p]|er]; by injection Hs as <- <- <-.
  - by injection Hs as <- <- <-.
  - injection Hs as <- <- <-. split_and!; [done| |done]. unfold fleet_ok. cbn. by rewrite update_worker_ids.
  - by injection Hs as <- <- <-.
  - injection Hs as <- <- <-. split_and!; [done| |done]. unfold fleet_ok. cbn. by rewrite update_worker_ids.
  - apply bind_Some in Hs as ([acts c'] & Hp & [= <- <- <-]). destruct (Hkeep c'); [by eapply observe_fleet|done].
  - by injection Hs as <- <- <-.
  - destruct recorded; by injection Hs as <- <- <-.
  - by injection Hs as <- <- <-.
Qed.

Lemma sys_inv_step engines e s s' : sys_inv engines s → sys_step e s = Some s' → sys_inv engines s'.
Proof.
  destruct s as [g ts log]. intros [He Hf Hl] Hs%sys_step_case. cbn [sys_gateway sys_tasks] in He, Hf, Hl. destruct Hs as [h b p|i t input t' g' effs Ht Hs|i t Ht Hlive|g' Hsame Hsink _ _]; split; cbn [sys_gateway sys_tasks]; try done.
  - rewrite length_app. cbn [length]. intros Hb. eapply loads_ext; [|apply Hl; lia]. intros x. cbv beta. rewrite load_app, load_cons. cbn [in_flight]. change (load x []) with 0. lia.
  - destruct (task_step_fleet _ _ _ _ _ _ Hf Hs) as (-> & _ & _). done.
  - by destruct (task_step_fleet _ _ _ _ _ _ Hf Hs) as (_ & Hf' & _).
  - rewrite length_insert. intros Hb. specialize (Hl Hb).
    eapply loads_ext; [|apply (task_step_load t input g t' g' effs _ Hf Hs Hl)]; [intros x; cbv beta; symmetry; by apply load_insert|].
    intros x. destruct (load_elem x ts i t Ht). lia.
  - rewrite length_insert. intros Hb. eapply loads_ext; [|by apply Hl]. intros x. cbv beta. rewrite (load_insert _ _ _ _ _ Ht). cbn [in_flight]. lia.
  - by destruct Hsame as [-> _].
  - by eapply same_fleet_ok.
  - intros Hb. eapply same_fleet_loads; [done|by apply Hl].
Qed.

Lemma sys_inv_start config (index : B) (plane : D) g : gateway_start config index plane = Ok g → sys_inv (gc_engines config) (sys_start g).
Proof.
  unfold gateway_start. destruct (build_action_sink _) as [sink|]; [|done]. intros [= <-]. split; cbn; [done| |].
  - unfold fleet_ok. cbn. rewrite <- list_fmap_compose. by apply list_fmap_ext.
  - intros _ e w. unfold find_worker. cbn. intros [Hin _]%List.find_some. apply list_elem_of_In, list_elem_of_fmap in Hin as (en & -> & _). done.
Qed.

Lemma sys_inv_run config (index : B) (plane : D) g es s :
  gateway_start config index plane = Ok g → sys_run es (sys_start g) = Some s → sys_inv (gc_engines config) s.
Proof.
  intros Hg Hrun. apply (sys_run_ind (sys_inv (gc_engines config)) es (sys_start g) s); [intros; by eapply sys_inv_step|by eapply sys_inv_start|done].
Qed.

(** C34 The gateway's load signal is exact up to dropped requests: at every moment of every interleaving, the running
    count of an engine is the number of requests sent to it and not yet answered, plus the number that were dropped in
    that window; such a request is counted for ever.  In particular the counts are back to zero when all requests have
    ended and none was dropped. *)
Theorem gateway_load_exact config (index : B) (plane : D) g es s :
  gateway_start config index plane = Ok g → sys_run es (sys_start g) = Some s → Z.of_nat (length (sys_tasks s)) ≤ u32_max →
  (∀ e w, find_worker (g_control (sys_gateway s)) e = Some w → running_decodes w = load e (sys_tasks s))
  ∧ (Forall (λ t, match t with Finished _ | Refused _ => True | _ => False end) (sys_tasks s) →
     ∀ e w, find_worker (g_control (sys_gateway s)) e = Some w → running_decodes w = 0).
Proof.
  intros Hg Hrun Hb. destruct (sys_inv_run _ _ _ _ _ _ Hg Hrun) as [_ _ Hl]. specialize (Hl Hb). split; [done|].
  intros Hall e w Hw. rewrite (Hl e w Hw). revert Hall. generalize (sys_tasks s). intros ts Hall. induction Hall as [|t ts Ht Hall IH]; [done|].
  rewrite load_cons, IH. by destruct t.
Qed.

(** ** What a request does, in order *)

Inductive Kind : Type := KRouted | KPlanned | KSend | KPlaced | KCommitted | KFirst.
Definition kind_of (e : Effect) : Kind :=
  match e with
  | EffRouted _ _ => KRouted
  | EffPublish ev => match ev_phase ev with PhasePlanned => KPlanned | PhaseCommitted => KCommitted end
  | EffSend _ => KSend
  | EffPlaced _ _ => KPlaced
  | EffFirstChunk _ _ _ => KFirst
  end.
Definition kinds (i : nat) (log : list (nat * Effect)) : list Kind := kind_of <$> (filter (λ p, p.1 = i) log).*2.

Definition planned_kinds (sink : option ActionSink) : list Kind := KRouted :: match sink with Some _ => [KPlanned] | None => [] end.
Definition sent_kinds (sink : option ActionSink) : list Kind := planned_kinds sink ++ [KSend].
Definition placed_kinds (sink : option ActionSink) : list Kind := sent_kinds sink ++ KPlaced :: match sink with Some _ => [KCommitted] | None => [] end.

(** What a request in a state has done. *)
Fixpoint done_in (sink : option ActionSink) (t : Task) (ks : list Kind) : Prop :=
  match t with
  | Arrived _ _ _ => ks = []
  | Planned _ | Ready _ _ => ks = planned_kinds sink
  | Sending _ _ | Answered _ _ _ | Placing _ _ _ => ks = sent_kinds sink
  | Committing _ _ _ _ => ks = placed_kinds sink
  | Streaming _ _ false => ks = sent_kinds sink ∨ ks = placed_kinds sink
  | Streaming _ _ true => ks = sent_kinds sink ++ [KFirst] ∨ ks = placed_kinds sink ++ [KFirst]
  | Finished _ => ∃ last, (last = [] ∨ last = [KFirst]) ∧ (ks = sent_kinds sink ++ last ∨ ks = placed_kinds sink ++ last)
  | Refused e =>
      match e with
      | EJson _ | EControl _ => ks = []
      | EMissingEngine _ => False
      | EActionSink _ => (∃ k, sink = Some k ∧ fail_open k = false) ∧ (ks = planned_kinds sink ∨ ks = placed_kinds sink)
      | EUpstream _ => ks = sent_kinds sink
      | EBuildResponse _ => ks = sent_kinds sink ∨ ks = placed_kinds sink
      end
  | Dropped t => done_in sink t ks
  end.

Lemma build_response_done sink x u acts d ks : ks = sent_kinds sink ∨ ks = placed_kinds sink → done_in sink (build_response x u acts d) ks.
Proof. unfold build_response. by case_match. Qed.

Lemma dispatch_err sink answer e : dispatch_action_sink_event sink answer = Err e → ∃ k m, sink = Some k ∧ fail_open k = false ∧ e = EActionSink m.
Proof. unfold dispatch_action_sink_event. destruct sink as [k|]; [|done]. destruct answer; [done|]. destruct (fail_open k) eqn:E; [done|]. intros [= <-]. eauto. Qed.

Lemma task_step_done t i g t' g' effs ks :
  fleet_ok (g_control g) → task_step t i g = Some (t', g', effs) → done_in (g_sink g) t ks → done_in (g_sink g) t' (ks ++ (kind_of <$> effs)).
Proof.
  intros Hok Hs Hd. destruct t, i; cbn in Hs, Hd; try done.
  - unfold step_plan in Hs. subst ks. destruct (from_slice body) as [payload0|er]; [|by injection Hs as <- <- <-].
    destruct (request_shape_from_payload nanos payload0) as [r payload]. destruct (to_vec payload) as [cb|er]; [|by injection Hs as <- <- <-].
    apply bind_Some in Hs as ([x c'] & Hr & Hs). pose proof Hr as Hr'. apply route_request_ok in Hr as (_ & Hmiss & _); [|done].
    destruct x as [[[engine trace] p]|er]; injection Hs as <- <- <-; cbn.
    + unfold planned_kinds, publish. by destruct (g_sink g).
    + unfold route_request in Hr'. apply bind_Some in Hr' as ([y c1] & _ & [= Hy _]). destruct y as [p|e]; [|by simplify_eq].
      destruct (find_engine _ _); simplify_eq. exfalso. by eapply Hmiss.
  - injection Hs as <- <- <-. rewrite app_nil_r. destruct (dispatch_action_sink_event (g_sink g) answer) as [d'|e] eqn:E; [done|].
    apply dispatch_err in E as (k & m & Ek & Hfo & ->). cbn. eauto.
  - injection Hs as <- <- <-. cbn. by rewrite Hd.
  - injection Hs as <- <- <-. by rewrite app_nil_r.
  - injection Hs as <- <- <-. rewrite app_nil_r. destruct u as [u|]; [|done]. destruct (is_success _); [done|]. apply build_response_done. by left.
  - apply bind_Some in Hs as ([acts c'] & Hp & [= <- <- <-]). subst ks. cbn. unfold placed_kinds, publish. by destruct (g_sink g).
  - injection Hs as <- <- <-. rewrite app_nil_r. destruct (dispatch_action_sink_event (g_sink g) answer) as [d'|e] eqn:E; [apply build_response_done; by right|].
    apply dispatch_err in E as (k & m & Ek & Hfo & ->). cbn. eauto.
  - destruct recorded; injection Hs as <- <- <-; cbn in *; [by rewrite app_nil_r|]. destruct Hd as [->| ->]; [by left|by right].
  - injection Hs as <- <- <-. rewrite app_nil_r. cbn. destruct recorded; [exists [KFirst]|exists []; rewrite !app_nil_r]; auto.
Qed.

Definition done_inv sink s : Prop :=
  g_sink (sys_gateway s) = sink ∧ ∀ i, match sys_tasks s !! i with Some t => done_in sink t (kinds i (sys_log s)) | None => kinds i (sys_log s) = [] end.

Lemma kinds_app i log i' effs : kinds i (log ++ (pair i' <$> effs)) = kinds i log ++ (if decide (i' = i) then kind_of <$> effs else []).
Proof.
  unfold kinds. rewrite filter_app, !fmap_app. f_equal. induction effs as [|e effs IH]; [by case_decide|]. rewrite fmap_cons, filter_cons. cbn [fst].
  case_decide; [rewrite !fmap_cons, IH|]; done.
Qed.

Lemma done_inv_run config (index : B) (plane : D) g es s :
  gateway_start config index plane = Ok g → sys_run es (sys_start g) = Some s → done_inv (g_sink g) s.
Proof.
  intros Hg Hrun. apply (sys_run_ind (λ s, done_inv (g_sink g) s ∧ sys_inv (gc_engines config) s) es (sys_start g) s); [|split; [by split|by eapply sys_inv_start]|done].
  intros e [g1 ts log] s2 [[Hsink Hd] Hinv] Hs. split; [|by eapply sys_inv_step]. destruct Hinv as [_ Hf _]. cbn [sys_gateway sys_tasks sys_log] in Hsink, Hd, Hf. apply sys_step_case in Hs.
  destruct Hs as [h b p|i t input t' g' effs Ht Hs|i t Ht Hlive|g' _ Hsk _ _]; split; cbn [sys_gateway sys_tasks sys_log]; try done.
  - intros j. specialize (Hd j). destruct (decide (j < length ts)%nat); [by rewrite lookup_app_l|]. rewrite lookup_ge_None_2 in Hd by lia.
    rewrite lookup_app_r by lia. destruct (j - length ts)%nat; [done|]. by rewrite lookup_cons, lookup_nil.
  - by destruct (task_step_fleet _ _ _ _ _ _ Hf Hs) as (_ & _ & ->).
  - intros j. rewrite kinds_app. destruct (decide (i = j)) as [->|Hne].
    + rewrite list_lookup_insert_eq by (by eapply lookup_lt_Some). specialize (Hd j). rewrite Ht in Hd. rewrite <- Hsink in *. by eapply task_step_done.
    + rewrite list_lookup_insert_ne by done. rewrite app_nil_r. apply Hd.
  - intros j. destruct (decide (i = j)) as [->|Hne].
    + rewrite list_lookup_insert_eq by (by eapply lookup_lt_Some). specialize (Hd j). by rewrite Ht in Hd.
    + rewrite list_lookup_insert_ne by done. apply Hd.
  - congruence.
Qed.

Lemma done_prefix sink t ks : done_in sink t ks → ks `prefix_of` placed_kinds sink ++ [KFirst] ∨ ks `prefix_of` sent_kinds sink ++ [KFirst].
Proof.
  assert ([] `prefix_of` placed_kinds sink ++ [KFirst]) as Hn by apply prefix_nil.
  assert (planned_kinds sink `prefix_of` placed_kinds sink ++ [KFirst]) as Hp by (unfold placed_kinds, sent_kinds; rewrite <- !app_assoc; by apply prefix_app_r).
  assert (sent_kinds sink `prefix_of` placed_kinds sink ++ [KFirst]) as Hs by (unfold placed_kinds; rewrite <- !app_assoc; by apply prefix_app_r).
  assert (placed_kinds sink `prefix_of` placed_kinds sink ++ [KFirst]) as Hc by (by apply prefix_app_r).
  induction t as [| | | | | | |r b [] |r|e|t IH]; cbn; try (intros ->; by left); auto.
  - intros [->| ->]; [by right|by left].
  - intros [->| ->]; by left.
  - intros (last & [->| ->] & [->| ->]); rewrite ?app_nil_r; auto.
  - destruct e; try (intros ->; by left); [done|intros (_ & [->| ->]); by left|intros [->| ->]; by left].
Qed.

(** C35 What a request does is ordered: it is routed, its plan is published (when there is a sink), the engine is
    contacted once, on success the placement is recorded and then published, and its first chunk is measured at most
    once; a request that stops, fails or is dropped has done a prefix of that.  Refusals tell what was done: a bad body
    or a routing error nothing; an upstream error the sending, no placement; the sink refuses only where it is
    configured not to fail open, before sending or after the placement; and no request is routed to an unknown engine. *)
Theorem gateway_request_order config (index : B) (plane : D) g es s :
  gateway_start config index plane = Ok g → sys_run es (sys_start g) = Some s →
  let pre := KRouted :: match g_sink g with Some _ => [KPlanned] | None => [] end in
  let commit := KPlaced :: match g_sink g with Some _ => [KCommitted] | None => [] end in
  ∀ i t, sys_tasks s !! i = Some t →
    let ks := kinds i (sys_log s) in
    (ks `prefix_of` (pre ++ [KSend]) ++ commit ++ [KFirst] ∨ ks `prefix_of` (pre ++ [KSend]) ++ [KFirst])
    ∧ ∀ e, t = Refused e →
        match e with
        | EJson _ | EControl _ => ks = []
        | EMissingEngine _ => False
        | EUpstream _ => ks = pre ++ [KSend]
        | EActionSink _ => (∃ k, g_sink g = Some k ∧ fail_open k = false) ∧ (ks = pre ∨ ks = (pre ++ [KSend]) ++ commit)
        | EBuildResponse _ => ks = pre ++ [KSend] ∨ ks = (pre ++ [KSend]) ++ commit
        end.
Proof.
  intros Hg Hrun pre commit i t Ht ks. destruct (done_inv_run _ _ _ _ _ _ Hg Hrun) as [_ Hd]. specialize (Hd i). rewrite Ht in Hd. split.
  - apply done_prefix in Hd. unfold placed_kinds in Hd. by rewrite <- app_assoc in Hd.
  - intros e ->. exact Hd.
Qed.
End system.

Definition routed_of (effs : list Effect) : list (RequestShape * GatewayRouteTrace) :=
  omap (λ e, match e with EffRouted r t => Some (r, t) | _ => None end) effs.
Definition firsts_of (effs : list Effect) : list (Z * Z) :=
  omap (λ e, match e with EffFirstChunk _ ttft budget => Some (ttft, budget) | _ => None end) effs.
Definition sends_of (effs : list Effect) : list UpstreamRequest :=
  omap (λ e, match e with EffSend r => Some r | _ => None end) effs.

(** Sums of 64-bit counters. *)
Definition total {A} (f : A → Z) (l : list A) : Z := foldr (λ x n, f x + n) 0 l.
Definition wrap64 (n : Z) : Z := n mod (u64_max + 1).

Lemma fetch_add_wrap a n : fetch_add (wrap64 a) n = wrap64 (a + n).
Proof. unfold fetch_add, wrap64. by rewrite Z.add_mod_idemp_l. Qed.

Lemma wrap_add a b : wrap64 (wrap64 a + wrap64 b) = wrap64 (a + b).
Proof. unfold wrap64. by rewrite <- Z.add_mod. Qed.
Lemma wrap_add3 a b c : wrap64 (wrap64 a + wrap64 b + wrap64 c) = wrap64 (a + b + c).
Proof. unfold wrap64. by rewrite Z.add_mod_idemp_r, <- Z.add_assoc, Z.add_mod_idemp_l, (Z.add_comm a), <- Z.add_assoc, Z.add_mod_idemp_l, Z.add_assoc, (Z.add_comm _ a), Z.add_assoc. Qed.

Lemma total_app {A} (f : A → Z) l k : total f (l ++ k) = total f l + total f k.
Proof. induction l as [|x l IH]; [done|]. change (f x + total f (l ++ k) = f x + total f l + total f k). lia. Qed.

(** The counters of the routed requests. *)
Record counted (m : GatewayMetrics) (l : list (RequestShape * GatewayRouteTrace)) : Prop := {
  ct_requests : requests_total m = wrap64 (Z.of_nat (length l));
  ct_reusable : reusable_blocks_total m = wrap64 (total (tr_reusable_blocks ∘ snd) l);
  ct_local : local_hits_total m = wrap64 (total (tr_local_hits ∘ snd) l);
  ct_transfer : transfer_blocks_total m = wrap64 (total (tr_transfer_blocks ∘ snd) l);
  ct_recompute : recompute_blocks_total m = wrap64 (total (tr_recompute_blocks ∘ snd) l);
  ct_refused : reuse_refused_total m = wrap64 (total (tr_reuse_refused ∘ snd) l)
}.

Lemma counted_record m l r t : counted m l → counted (metrics_record t m) (l ++ [(r, t)]).
Proof.
  intros []. split; unfold metrics_record; cbn [requests_total reusable_blocks_total local_hits_total transfer_blocks_total recompute_blocks_total reuse_refused_total];
    rewrite ?length_app, ?total_app, ?ct_requests0, ?ct_reusable0, ?ct_local0, ?ct_transfer0, ?ct_recompute0, ?ct_refused0, fetch_add_wrap; f_equal; cbn; lia.
Qed.

Definition goodput_of (s : SloGoodput) (l : list (Z * Z)) : Prop :=
  served s = wrap64 (Z.of_nat (length l)) ∧ met s = wrap64 (Z.of_nat (length (filter (λ p, p.1 ≤ p.2) l))).

Lemma goodput_record s l ttft budget : goodput_of s l → goodput_of (slo_record ttft budget s) (l ++ [(ttft, budget)]).
Proof.
  intros [Hs Hm]. unfold goodput_of, slo_record. cbn [served met]. rewrite Hs, Hm, filter_app, !length_app, filter_cons, filter_nil. cbn [fst snd].
  split; [rewrite fetch_add_wrap; f_equal; cbn; lia|]. destruct (Z.leb_spec ttft budget); [rewrite decide_True by done; rewrite fetch_add_wrap|rewrite decide_False by lia]; f_equal; cbn; lia.
Qed.

Section system.
Context {B D : Type} `{IndexBackend B} `{DataPlane D} `{KeyHash} `{Libm} `{HashIter} `{SerdeJson} `{HeaderLib}.
Implicit Types (g : Gateway B D) (s : System B D).

Definition trace_ok (rt : RequestShape * GatewayRouteTrace) : Prop :=
  tr_local_hits rt.2 + tr_transfer_blocks rt.2 + tr_recompute_blocks rt.2 = Z.of_nat (length (req_blocks rt.1))
  ∧ tr_reusable_blocks rt.2 = tr_local_hits rt.2 + tr_transfer_blocks rt.2.
(** A request on its way to an engine of the fleet. *)
Definition goes_to (engines : list EngineEndpoint) (x : Routed) : Prop := rt_engine x ∈ engines ∧ e_id (rt_engine x) = tr_engine_id (rt_trace x).
Definition task_goes (engines : list EngineEndpoint) (t : Task) : Prop :=
  match t with Planned x | Ready x _ => goes_to engines x | _ => True end.
Definition sent_to (engines : list EngineEndpoint) (r : UpstreamRequest) : Prop :=
  ∃ e path, e ∈ engines ∧ ur_url r = trim_end_slash (e_base_url e) +:+ path ∧ ("x-quillcache-engine-id"%string, e_id e) ∈ ur_headers r.

Lemma routed_publish sink ev : routed_of (publish sink ev) = [] ∧ firsts_of (publish sink ev) = [] ∧ sends_of (publish sink ev) = [].
Proof. by destruct sink. Qed.

(** A step of a request counts what it shows. *)
Lemma task_step_counts t i g t' g' effs m l fs engines :
  fleet_ok (g_control g) → cp_engines (g_control g) = engines → task_step t i g = Some (t', g', effs) → task_goes engines t →
  m = g_metrics g → counted m l → goodput_of (g_slo g) fs →
  counted (g_metrics g') (l ++ routed_of effs) ∧ goodput_of (g_slo g') (fs ++ firsts_of effs)
  ∧ Forall trace_ok (routed_of effs) ∧ task_goes engines t' ∧ Forall (sent_to engines) (sends_of effs).
Proof.
  intros Hok He Hs Hg -> Hc Hf.
  assert (∀ x u acts d, task_goes engines (build_response x u acts d)) as Hb by (intros; unfold build_response; by case_match).
  destruct t, i; cbn in Hs; try done.
  - unfold step_plan in Hs. destruct (from_slice body) as [payload0|er]; [|injection Hs as <- <- <-; by rewrite !app_nil_r].
    destruct (request_shape_from_payload nanos payload0) as [r payload]. destruct (to_vec payload) as [cb|er]; [|injection Hs as <- <- <-; by rewrite !app_nil_r].
    apply bind_Some in Hs as ([x c'] & Hr & Hs). destruct (route_request_ok r (g_control g) x c' Hok Hr) as (_ & _ & Ht).
    destruct x as [[[engine trace] p]|er]; injection Hs as <- <- <-; [|by rewrite !app_nil_r].
    destruct (Ht _ _ _ eq_refl) as (Eid & Hin & _ & Hsum & Hre & _). destruct (routed_publish (g_sink g) (sink_event PhasePlanned path r trace p [])) as (E1 & E2 & E3).
    cbn [routed_of firsts_of sends_of omap list_omap] in *. unfold routed_of, firsts_of, sends_of in E1, E2, E3. rewrite E1, E2, E3, app_nil_r. cbn [set_control set_metrics g_metrics g_slo].
    split_and!; [by apply counted_record|done|by repeat constructor| |done]. split; [by rewrite <- He|done].
  - injection Hs as <- <- <-. rewrite !app_nil_r. split_and!; [done..| |done]. by destruct (dispatch_action_sink_event _ _).
  - injection Hs as <- <- <-. rewrite !app_nil_r. split_and!; [done..|]. repeat constructor. destruct Hg as [Hin Hid].
    exists (rt_engine x), (rt_path x). split_and!; [done|done|]. rewrite Hid. cbn. set_solver.
  - injection Hs as <- <- <-. by rewrite !app_nil_r.
  - injection Hs as <- <- <-. rewrite !app_nil_r. split_and!; [done..| |done]. destruct u as [u|]; [|done]. by destruct (is_success _).
  - apply bind_Some in Hs as ([acts c'] & Hp & [= <- <- <-]). destruct (routed_publish (g_sink g) (sink_event PhaseCommitted (rt_path x) (rt_request x) (rt_trace x) (rt_plan x) acts)) as (E1 & E2 & E3).
    cbn [routed_of firsts_of sends_of omap list_omap] in *. unfold routed_of, firsts_of, sends_of in E1, E2, E3. by rewrite E1, E2, E3, !app_nil_r.
  - injection Hs as <- <- <-. rewrite !app_nil_r. split_and!; [done..| |done]. by destruct (dispatch_action_sink_event _ _).
  - destruct recorded; injection Hs as <- <- <-; rewrite !app_nil_r; [done|]. split_and!; [done|by apply goodput_record|done..].
  - injection Hs as <- <- <-. by rewrite !app_nil_r.
Qed.

Record totals_inv (engines : list EngineEndpoint) s : Prop := {
  ti_metrics : counted (g_metrics (sys_gateway s)) (routed_of (sys_log s).*2);
  ti_slo : goodput_of (g_slo (sys_gateway s)) (firsts_of (sys_log s).*2);
  ti_traces : Forall trace_ok (routed_of (sys_log s).*2);
  ti_tasks : Forall (task_goes engines) (sys_tasks s);
  ti_sends : Forall (sent_to engines) (sends_of (sys_log s).*2)
}.

Lemma snd_pairs (i : nat) (effs : list Effect) : (pair i <$> effs).*2 = effs.
Proof. rewrite <- list_fmap_compose. by rewrite list_fmap_id. Qed.

Lemma totals_inv_step engines e s s' : sys_inv engines s → totals_inv engines s → sys_step e s = Some s' → totals_inv engines s'.
Proof.
  destruct s as [g ts log]. intros [He Hf _] [Hm Hsl Htr Ht Hse] Hs%sys_step_case. cbn [sys_gateway sys_tasks sys_log] in *.
  destruct Hs as [h b p|i t input t' g' effs Hi Hs|i t Hi Hlive|g' Hsame Hsink Eslo Em]; split; cbn [sys_gateway sys_tasks sys_log]; try done.
  2-6: rewrite ?fmap_app, ?snd_pairs; unfold routed_of, firsts_of, sends_of; rewrite ?omap_app;
    pose proof (proj1 (Forall_lookup _ _) Ht i t Hi) as Hgo;
    destruct (task_step_counts t input g t' g' effs _ _ _ engines Hf He Hs Hgo eq_refl Hm Hsl) as (Hm' & Hsl' & Htr' & Hgo' & Hse').
  - apply Forall_app. split; [done|]. by repeat constructor.
  - done.
  - done.
  - by apply Forall_app.
  - by apply Forall_insert.
  - by apply Forall_app.
  - by apply Forall_insert.
  - injection Em as E1 E2 E3 E4 E5 E6. destruct Hm. split; congruence.
  - by rewrite Eslo.
Qed.

Lemma totals_run config (index : B) (plane : D) g es s :
  gateway_start config index plane = Ok g → sys_run es (sys_start g) = Some s → totals_inv (gc_engines config) s.
Proof.
  intros Hg Hrun. apply (sys_run_ind (λ s, sys_inv (gc_engines config) s ∧ totals_inv (gc_engines config) s) es (sys_start g) s); [| |done].
  - intros e s1 s2 [H1' H2'] Hs. split; [by eapply sys_inv_step|by eapply totals_inv_step].
  - split; [by eapply sys_inv_start|]. unfold gateway_start in Hg. destruct (build_action_sink _); [|done]. injection Hg as <-. by repeat split.
Qed.

(** The totals account for every block: over any interleaving, the requests counter is the number of routed
    requests, and the blocks counted as local hits, transfers and recomputes are together exactly the blocks of those
    requests; reusable blocks are the first two; refusals are those of their audits; responses counted as served are
    those whose first chunk was seen, and those counted as met had it within their budget (all modulo 2^64, as the
    counters wrap around).  And every request sent upstream goes to a configured engine and names it. *)
Theorem gateway_accounts_blocks config (index : B) (plane : D) g es s :
  gateway_start config index plane = Ok g → sys_run es (sys_start g) = Some s →
  let m := g_metrics (sys_gateway s) in
  let slo := g_slo (sys_gateway s) in
  let routed := routed_of (sys_log s).*2 in
  let firsts := firsts_of (sys_log s).*2 in
  requests_total m = wrap64 (Z.of_nat (length routed))
  ∧ wrap64 (local_hits_total m + transfer_blocks_total m + recompute_blocks_total m) = wrap64 (total (λ rt, Z.of_nat (length (req_blocks rt.1))) routed)
  ∧ reusable_blocks_total m = wrap64 (local_hits_total m + transfer_blocks_total m)
  ∧ reuse_refused_total m = wrap64 (total (tr_reuse_refused ∘ snd) routed)
  ∧ served slo = wrap64 (Z.of_nat (length firsts)) ∧ met slo = wrap64 (Z.of_nat (length (filter (λ p, p.1 ≤ p.2) firsts)))
  ∧ ∀ r, r ∈ sends_of (sys_log s).*2 →
      ∃ e path, e ∈ gc_engines config ∧ ur_url r = trim_end_slash (e_base_url e) +:+ path ∧ ("x-quillcache-engine-id"%string, e_id e) ∈ ur_headers r.
Proof.
  intros Hg Hrun m slo routed firsts. destruct (totals_run _ _ _ _ _ _ Hg Hrun) as [[E1 E2 E3 E4 E5 E6] [E7 E8] Htr _ Hse].
  assert (∀ f1 f2 f3 : RequestShape * GatewayRouteTrace → Z, ∀ l, (∀ x, x ∈ l → f1 x + f2 x = f3 x) → total f1 l + total f2 l = total f3 l) as Hsum.
  { intros f1 f2 f3 l. induction l as [|x l IH]; intros Hl; [done|]. change (f1 x + total f1 l + (f2 x + total f2 l) = f3 x + total f3 l).
    rewrite <- (Hl x), <- IH by set_solver. lia. }
  rewrite Forall_forall in Htr. split_and!; try done.
  - unfold m. rewrite E3, E4, E5, wrap_add3. f_equal.
    rewrite (Hsum _ _ (λ x, tr_local_hits x.2 + tr_transfer_blocks x.2)) by done. apply Hsum. intros x Hx. by destruct (Htr x Hx).
  - unfold m. rewrite E2, E3, E4, wrap_add. f_equal. symmetry. apply Hsum. intros x Hx. destruct (Htr x Hx) as [_ E]. by symmetry.
  - intros r Hr. rewrite Forall_forall in Hse. by apply Hse.
Qed.
End system.
