(* ===== verification/GatewayExamples.v ===== *)
(** * The gateway on concrete requests

    Witnesses for the gateway's theorems and runs of the code that do not do what its
    documentation says: a dropped request that keeps loading its engine, an adapter's
    blocks planned as the base model's, a served request answered with an error, and error
    bodies counted as goodput. *)
From S2P Require Import Prelude F64 Order Identity ShardedMap MemIndex MemIndexProofs IndexLaws Router RouterPlan RouterTheorems Conductor Replication DataPlane StorePlane SlicePool CoScheduler Control ControlTheorems GatewayRequest GatewayMetrics Gateway GatewayTheorems.

#[local] Existing Instance canonical_iter.
#[local] Existing Instance length_hash.
#[local] Instance gx_libm : Libm := {| f64_exp := λ _, f64_of_u64 1 |}.
#[local] Instance gx_header : HeaderLib := {| header_value_ok _ := true |}.

(** Bodies by number; a value prints as its prompt. *)
Definition gx_prompt (text : string) (adapter : option string) : Value :=
  VObject [("model"%string, VString "m"); ("prompt"%string, VString text);
           ("quillcache"%string, VObject [("adapter_id"%string, match adapter with Some a => VString a | None => Null end)])].
Definition gx_bodies : list Value := [gx_prompt "hello" None; gx_prompt "hello" (Some "lora"%string)].
#[local] Instance gx_json : SerdeJson := {|
  from_slice b := match b with [n] => from_option Ok (Err "syntax"%string) (gx_bodies !! Z.to_nat n) | _ => Err "syntax"%string end;
  to_vec _ := Ok [];
  value_to_string _ := "{}"%string;
  hints_from_value v := Some (mkHints None None None (value_get "adapter_id" v ≫= as_str) None None [] None None None)
|}.

Notation GW := (Gateway MemoryIndex NoDataPlane).
Notation Sys := (System MemoryIndex NoDataPlane).

Definition gx_engine (id : string) : EngineEndpoint := mkEndpoint id Vllm Aggregated ("http://" +:+ id +:+ "/") "m" "m" "default" "rack".
Definition gx_config (sink : option ActionSinkConfig) : GatewayConfig := mkGatewayConfig "0.0.0.0:80" [gx_engine "e0"; gx_engine "e1"] None None None None sink None.
Definition gx_closed : ActionSinkConfig := mkSinkConfig "http" (Some "http://sink"%string) false 250.
Definition gx_empty : GW := mkGateway (control_new []) None slo_goodput_default metrics_default co_policy_default 0.
Definition gx_gateway (sink : option ActionSinkConfig) : GW := match gateway_start (gx_config sink) mi_new noDataPlane with Ok g => g | Err _ => gx_empty end.
Definition gx_run (sink : option ActionSinkConfig) (es : list Event) : Sys := default (sys_start gx_empty) (sys_run es (sys_start (gx_gateway sink))).

(** The steps of request [i]: to the engine, to its end. *)
Definition gx_send (i : nat) (body : Z) : list Event := [EvArrive [] [body] "/v1/completions"; EvStep i (InLock 1); EvStep i (InSink (Ok tt)); EvStep i (InLock 1)].
Definition gx_answer (i : nat) (status : Z) : list Event := [EvStep i (InUpstream (Ok (mkUpstream status []))); EvStep i (InLock 1)].
Definition gx_finish (i : nat) : list Event := [EvStep i (InChunk 5); EvStep i (InChunk 9); EvStep i InEnd].
Definition gx_serve (i : nat) (body : Z) : list Event :=
  gx_send i body ++ gx_answer i 200 ++ [EvStep i (InLock 1); EvStep i (InSink (Ok tt))] ++ gx_finish i.
Definition gx_running (s : Sys) : list Z := running_decodes <$> cp_workers (g_control (sys_gateway s)).

Definition gx_one : Sys := gx_run None (gx_serve 0 0).
Lemma gx_start sink : match gateway_start (gx_config sink) mi_new noDataPlane with Ok _ => true | Err _ => false end = true →
  gateway_start (gx_config sink) mi_new noDataPlane = Ok (gx_gateway sink).
Proof. unfold gx_gateway. by destruct (gateway_start (gx_config sink) mi_new noDataPlane). Qed.
Lemma gx_start_open : gateway_start (gx_config None) mi_new noDataPlane = Ok (gx_gateway None).
Proof. apply gx_start. vm_compute. reflexivity. Qed.
Lemma gx_one_eq : sys_run (gx_serve 0 0) (sys_start (gx_gateway None)) = Some gx_one.
Proof. run. Qed.

Lemma gateway_load_exact_witness : gx_running gx_one = [0; 0] ∧ load "e0" (sys_tasks gx_one) = 0.
Proof.
  assert (Z.of_nat (length (sys_tasks gx_one)) ≤ u32_max) as Hb by (vm_compute; discriminate).
  destruct (gateway_load_exact (gx_config None) mi_new noDataPlane (gx_gateway None) (gx_serve 0 0) gx_one gx_start_open gx_one_eq Hb) as [_ _].
  split; vm_compute; reflexivity.
Defined.

Lemma gateway_request_order_witness : kinds 0 (sys_log gx_one) = [KRouted; KSend; KPlaced; KFirst].
Proof.
  destruct (sys_tasks gx_one !! 0%nat) as [t|] eqn:Ht; [|vm_compute in Ht; discriminate].
  destruct (gateway_request_order (gx_config None) mi_new noDataPlane (gx_gateway None) (gx_serve 0 0) gx_one gx_start_open gx_one_eq 0%nat t Ht) as [_ _].
  vm_compute. reflexivity.
Defined.

Lemma gateway_accounts_blocks_witness : requests_total (g_metrics (sys_gateway gx_one)) = 1 ∧ met (g_slo (sys_gateway gx_one)) = 1.
Proof.
  destruct (gateway_accounts_blocks (gx_config None) mi_new noDataPlane (gx_gateway None) (gx_serve 0 0) gx_one gx_start_open gx_one_eq) as (E & _).
  rewrite E. split; vm_compute; reflexivity.
Defined.

Fixpoint repeat_text (n : nat) (s : string) : string := match n with O => ""%string | S n => s +:+ repeat_text n s end.
Lemma shared_prefix_shares_blocks_witness :
  take 1 (fallback_blocks (gx_prompt (repeat_text 64 "abcd" +:+ "one") None) "m" "m" "default")
  = take 1 (fallback_blocks (gx_prompt (repeat_text 64 "abcd" +:+ "two") None) "m" "m" "default").
Proof.
  assert (FALLBACK_BLOCK_CHARS * 1 ≤ length (chars (repeat_text 64 "abcd")))%nat as Hl by (apply Nat.leb_le; vm_compute; reflexivity).
  exact (proj1 (shared_prefix_shares_blocks (gx_prompt (repeat_text 64 "abcd" +:+ "one") None) (gx_prompt (repeat_text 64 "abcd" +:+ "two") None)
    "m" "m" "default" (repeat_text 64 "abcd") "one" "two" 1 eq_refl eq_refl eq_refl eq_refl Hl)).
Defined.

(** ** Runs *)

(** A request dropped while its engine works is never subtracted: the client of the only request goes away after it
    was sent, no request is left, and the engine still counts one running request; after a second request is served in
    full the count is still one. *)
Theorem dropped_request_keeps_load :
  gx_running (gx_run None (gx_send 0 0 ++ [EvCancel 0])) = [1; 0]
  ∧ forallb (λ t, negb (live t)) (sys_tasks (gx_run None (gx_send 0 0 ++ [EvCancel 0]))) = true
  ∧ gx_running (gx_run None (gx_send 0 0 ++ [EvCancel 0] ++ gx_serve 1 0)) = [1; 0]
  ∧ length (sys_tasks (gx_run None (gx_send 0 0 ++ [EvCancel 0] ++ gx_serve 1 0))) = 2%nat.
Proof. split_and!; vm_compute; reflexivity. Qed.

(** A request for an adapter without block hashes is planned on the base model's blocks: its shape carries the
    adapter, every block carries none. *)
Theorem fallback_ignores_adapter now (fields : list (string * Value)) v h :
  field_of "quillcache" fields = Some v → hints_from_value v = Some h → h_block_hashes h = [] →
  let '(r, _) := request_shape_from_payload now (VObject fields) in
  req_adapter_id r = h_adapter_id h ∧ ∀ k, k ∈ req_blocks r → adapter_id k = None.
Proof.
  intros Hf Hh Hb. unfold request_shape_from_payload, object_remove. rewrite Hf. cbn [mbind option_bind]. rewrite Hh. cbn [req_adapter_id req_blocks mbind option_bind].
  rewrite bool_decide_eq_true_2 by done. split; [done|]. intros k [i Hi]%list_elem_of_lookup. revert Hi. unfold fallback_blocks. case_bool_decide.
  - intros Hi. destruct i; [by injection Hi as <-|]. by rewrite lookup_cons, lookup_nil in Hi.
  - rewrite fallback_loop_lookup. case_decide; [by intros [= <-]|done].
Qed.

Lemma fallback_ignores_adapter_witness :
  ∀ k, k ∈ req_blocks (request_shape_from_payload 0 (gx_prompt "hello" (Some "lora"%string))).1 → adapter_id k = None.
Proof.
  pose proof (fallback_ignores_adapter 0
    [("model"%string, VString "m"); ("prompt"%string, VString "hello"); ("quillcache"%string, VObject [("adapter_id"%string, VString "lora")])] _ _ eq_refl eq_refl eq_refl) as Hw.
  exact (proj2 Hw).
Defined.

(** The identity guard is bypassed that way: after a request for the adapter was served, the base model's request
    for the same prompt is planned with that request's block as a local hit, and no reuse is refused. *)
Theorem adapter_blocks_reused_by_base :
  (λ p, (req_adapter_id p.1, tr_local_hits p.2, tr_recompute_blocks p.2, tr_reuse_refused p.2))
    <$> routed_of (sys_log (gx_run None (gx_serve 0 1 ++ gx_serve 1 0))).*2
  = [(Some "lora"%string, 0, 1, 0); (None, 1, 0, 0)].
Proof. vm_compute. reflexivity. Qed.

(** With a sink that must not fail, a failure to publish the placement turns a served request into an error: the
    engine answered 200, the placement is recorded, and the client gets a 502. *)
Theorem commit_failure_hides_success :
  let s := gx_run (Some gx_closed) (gx_send 0 0 ++ gx_answer 0 200 ++ [EvStep 0 (InLock 1); EvStep 0 (InSink (Err "timeout"%string))]) in
  sys_tasks s = [Refused (EActionSink "timeout")] ∧ error_status (EActionSink "timeout") = 502
  ∧ kinds 0 (sys_log s) = [KRouted; KPlanned; KSend; KPlaced; KCommitted]
  ∧ ix_len (cp_residency (g_control (sys_gateway s))) = 1.
Proof. cbv zeta. split_and!; vm_compute; reflexivity. Qed.

(** Goodput counts what was answered, not what was served: a response with status 500 whose body comes quickly
    counts as a request that met its objective. *)
Theorem error_body_counts_as_goodput :
  let s := gx_run None (gx_send 0 0 ++ gx_answer 0 500 ++ gx_finish 0) in
  rs_status <$> omap (λ t, match t with Finished r => Some r | _ => None end) (sys_tasks s) = [500]
  ∧ served (g_slo (sys_gateway s)) = 1 ∧ met (g_slo (sys_gateway s)) = 1
  ∧ goodput_pct (slo_observation (g_slo (sys_gateway s))) = Some (f64_of_u64 100).
Proof. cbv zeta. split_and!; vm_compute; reflexivity. Qed.
