(* ===== verification/MasterHttp.v ===== *)
(** * The master's HTTP server

    src/store_master_http.rs: the routes of the store master behind one mutex, its clock
    and snapshot tasks, and its start in the leader election of
    crates/quillcache-store/src/master_election.rs.  A handler that panics while it holds
    the mutex poisons it, and [lock().unwrap()] panics on a poisoned mutex; a panicking
    handler drops its connection. *)
From S2P Require Import Prelude F64 BufferAllocator OffsetAllocator Identity ShardedMap CountMin StoreTypes Strategy OpLog Master SegmentLedger MasterInv MasterEvict MasterOps MasterSegments Recovery MasterSteps MasterTheorems.

(** ** Requests and replies *)

Inductive HttpRequest : Type :=
| RMount (name : string) (capacity : Z)
| RPutStart (key : string) (identity : IdentityScope) (size : Z) (replica_num : option Z)
| RPutEnd (key : string)
| RPutRevoke (key : string)
| RGet (key : string) (identity : IdentityScope)
| RBatchPutStart (items : list (string * IdentityScope * Z)) (replica_num : option Z)
| RBatchPutEnd (keys : list string)
| RBatchGet (keys : list string) (identity : IdentityScope)
| RRemove (key : string) (force : bool)
| RHeartbeat (segment : string)
| RState.

Record StateResp : Type := mkStateResp { sr_objects : Z; sr_segments : Z; sr_capacity : Z; sr_allocated : Z; sr_dead_segments : list string }.
Inductive Body : Type :=
| BTrue
| BBuffers (l : list AllocatedBuffer)
| BReplicas (l : list Replica)
| BBatchBuffers (l : list (list AllocatedBuffer))
| BBatchReplicas (l : list (list Replica))
| BState (s : StateResp).
Inductive Reply : Type :=
| Success (b : Body)                           (* 200 *)
| Failure (status : Z) (e : ErrorCode)         (* with the error's message *)
| ConnectionLost.                              (* the handler panicked *)

Definition http_err (e : ErrorCode) : Z :=
  match e with
  | ObjectNotFound | SegmentNotFound => 404
  | ObjectAlreadyExists | ObjectNotReady => 409
  | UnsafeReuse _ => 403
  | _ => 400
  end.

Record Server : Type := mkServer { sv_master : MasterService; sv_poisoned : bool }.

Section server.
Context `{HashIter} `{KeyHash} `{EntryCodec} `{RegexEngine}.
Implicit Types m : MasterService.

(** [req.replica_num.map(ReplicateConfig::replicas).unwrap_or_default()]. *)
Definition request_config (n : option Z) : ReplicateConfig := from_option config_replicas config_default n.

Definition reply {A} (f : A → Body) (x : option (result ErrorCode A * MasterService)) : option (Reply * MasterService) :=
  '(r, m) ← x;
  Some (match r with Ok a => Success (f a) | Err e => Failure (http_err e) e end, m).

Definition state_resp m : option StateResp :=
  cap ← master_capacity m;
  alloc ← master_allocated m;
  Some (mkStateResp (object_count m) (segment_count m) cap alloc (dead_segments m)).

(** The handlers, under the lock. *)
Definition handle_request (r : HttpRequest) m : option (Reply * MasterService) :=
  match r with
  | RMount name cap => m' ← mount_segment name cap m; Some (Success BTrue, m')
  | RPutStart key identity size n => reply BBuffers (put_start key identity size (request_config n) m)
  | RPutEnd key => reply (λ _, BTrue) (put_end key m)
  | RPutRevoke key => reply (λ _, BTrue) (put_revoke key m)
  | RGet key identity => reply BReplicas (get_replica_list key identity m)
  | RBatchPutStart items n => reply BBatchBuffers (batch_put_start items (request_config n) m)
  | RBatchPutEnd keys => reply (λ _, BTrue) (batch_put_end keys m)
  | RBatchGet keys identity => reply BBatchReplicas (batch_get_replica_list keys identity m)
  | RRemove key force => reply (λ _, BTrue) (remove key force m)
  | RHeartbeat segment => reply (λ _, BTrue) (Some (heartbeat segment m))
  | RState => s ← state_resp m; Some (Success (BState s), m)
  end.

Definition serve (r : HttpRequest) (s : Server) : Reply * Server :=
  if sv_poisoned s then (ConnectionLost, s)
  else match handle_request r (sv_master s) with
       | Some (reply, m') => (reply, mkServer m' false)
       | None => (ConnectionLost, mkServer (sv_master s) true)
       end.

(** The clock task: once a second. *)
Definition clock_task (s : Server) : Server :=
  if sv_poisoned s then s
  else match tick (sv_master s) with Some (_, m') => mkServer m' false | None => mkServer (sv_master s) true end.

(** [run_store_master], step 2: recover or start fresh; [file] is the snapshot found at the path. *)
Definition start_master (strategy : string) (segment_ttl : Z) (file : option MasterSnapshot) : option (result ErrorCode Server) :=
  r ← match file with Some snap => recover snap | None => Some (Ok (master_new strategy)) end;
  Some match r with
       | Err e => Err e
       | Ok m => Ok (mkServer (if 0 <? segment_ttl then set_segment_ttl segment_ttl m else m) false)
       end.

(** What happens to a running server. *)
Inductive ServerEvent : Type := SERequest (r : HttpRequest) | SETick.
Definition server_step (e : ServerEvent) (s : Server) : list Reply * Server :=
  match e with
  | SERequest r => let '(reply, s') := serve r s in ([reply], s')
  | SETick => ([], clock_task s)
  end.
Fixpoint server_run (es : list ServerEvent) (s : Server) : list Reply * Server :=
  match es with
  | [] => ([], s)
  | e :: es => let '(r1, s1) := server_step e s in let '(r2, s2) := server_run es s1 in (r1 ++ r2, s2)
  end.

(** ** The server is the master *)

(** The master operation of an event; [GET /v1/state] only reads. *)
Definition event_op (e : ServerEvent) : option mop :=
  match e with
  | SERequest r =>
      match r with
      | RMount name cap => Some (OMount name cap)
      | RPutStart key identity size n => Some (OPutStart key identity size (request_config n))
      | RPutEnd key => Some (OPutEnd key)
      | RPutRevoke key => Some (OPutRevoke key)
      | RGet key identity => Some (OGet key identity)
      | RBatchPutStart items n => Some (OBatchPutStart items (request_config n))
      | RBatchPutEnd keys => Some (OBatchPutEnd keys)
      | RBatchGet keys identity => Some (OBatchGet keys identity)
      | RRemove key force => Some (ORemove key force)
      | RHeartbeat segment => Some (OHeartbeat segment)
      | RState => None
      end
  | SETick => Some OTick
  end.

(** Every event of a trace asks for what the master can do. *)
Fixpoint trace_ok (es : list ServerEvent) m : Prop :=
  match es with
  | [] => True
  | e :: es => match event_op e with
               | Some op => op_ok op m ∧ ∀ m', run_mop op m = Some m' → trace_ok es m'
               | None => trace_ok es m
               end
  end.
(** The master after a trace. *)
Fixpoint run_events (es : list ServerEvent) m : option MasterService :=
  match es with
  | [] => Some m
  | e :: es => m' ← match event_op e with Some op => run_mop op m | None => Some m end; run_events es m'
  end.

Lemma reply_master {A} (f : A → Body) x : snd <$> reply f x = snd <$> x.
Proof. by destruct x as [[[] ?]|]. Qed.

Lemma handle_master r m op : event_op (SERequest r) = Some op → snd <$> handle_request r m = run_mop op m.
Proof. destruct r; cbn [event_op]; intros [= <-]; cbn [handle_request run_mop]; rewrite ?reply_master; try done. by destruct (mount_segment _ _ _). Qed.

Lemma reply_not_lost {A} (f : A → Body) x r m : reply f x = Some (r, m) → r ≠ ConnectionLost.
Proof. unfold reply. intros ([[] ?] & _ & [= <- <-])%bind_Some; done. Qed.

Lemma handle_not_lost q m r m' : handle_request q m = Some (r, m') → r ≠ ConnectionLost.
Proof. destruct q; cbn [handle_request]; try apply reply_not_lost; by intros (? & _ & [= <- <-])%bind_Some. Qed.

Lemma state_total m : reachable m → ∃ s, state_resp m = Some s.
Proof.
  intros Hr. destruct (mtotals [] m (reachable_inv m Hr)) as (Hc & Ha & _). unfold state_resp, master_capacity, master_allocated. rewrite Hc, Ha. by eexists.
Qed.

Lemma server_step_ok e m :
  reachable m → match event_op e with Some op => op_ok op m | None => True end →
  ∃ m', match event_op e with Some op => run_mop op m | None => Some m end = Some m' ∧ reachable m'
    ∧ (server_step e (mkServer m false)).2 = mkServer m' false ∧ Forall (λ r, r ≠ ConnectionLost) (server_step e (mkServer m false)).1.
Proof.
  intros Hr Hok. destruct e as [r|]; cbn [server_step].
  - unfold serve. cbn [sv_poisoned sv_master]. destruct (event_op (SERequest r)) as [op|] eqn:Eop.
    + destruct (run_mop_inv op m (reachable_inv m Hr) Hok) as (m' & Hm' & _). exists m'. split; [done|]. split; [by eapply reach_step|].
      pose proof (handle_master r m op Eop) as Hh. rewrite Hm' in Hh. destruct (handle_request r m) as [[rep m1]|] eqn:Eh; [|done]. injection Hh as ->.
      split; [done|]. repeat constructor. by eapply handle_not_lost.
    + destruct r; try done. exists m. destruct (state_total m Hr) as [s Hs]. cbn [handle_request]. rewrite Hs. cbn. split_and!; [done..|]. by repeat constructor.
  - cbn [event_op] in *. destruct (run_mop_inv OTick m (reachable_inv m Hr) Hok) as (m' & Hm' & _). exists m'. split; [done|]. split; [by eapply reach_step|].
    cbn in *. unfold clock_task. cbn. destruct (tick m) as [[z m1]|]; [|done]. by injection Hm' as ->.
Qed.

(** C36 The server is the master: over any trace of requests and clock ticks within the master's bounds (64-bit counters,
    new segment names of a possible size), every request is answered (no connection is lost and the mutex is never
    poisoned), and the server's state is the one the master's operations produce, so it is one of the states the
    master's theorems speak of. *)
Theorem http_server_is_master es m :
  reachable m → trace_ok es m →
  ∃ m', run_events es m = Some m' ∧ reachable m' ∧ (server_run es (mkServer m false)).2 = mkServer m' false
    ∧ Forall (λ r, r ≠ ConnectionLost) (server_run es (mkServer m false)).1.
Proof.
  revert m. induction es as [|e es IH]; intros m Hr Hok; [by exists m; repeat split|]. cbn [trace_ok run_events server_run] in *.
  destruct (server_step_ok e m Hr) as (m1 & Hm1 & Hr1 & Hs & Hl); [by destruct (event_op e); [destruct Hok|]|].
  rewrite Hm1. cbn [mbind option_bind]. destruct (server_step e (mkServer m false)) as [r1 s1]. cbn [fst snd] in Hs, Hl. subst s1.
  destruct (IH m1 Hr1) as (m2 & Hm2 & Hr2 & Hs2 & Hl2); [destruct (event_op e); [by apply Hok|by simplify_eq]|].
  exists m2. destruct (server_run es (mkServer m1 false)) as [r2 s2]. cbn [fst snd] in *. split_and!; [done..|]. by apply Forall_app.
Qed.

(** The status of a read tells the identity guard's verdict: 200 with replicas exactly when the object was written
    under the requester's identity and a readable replica exists, 404 when there is no object, 403 exactly when it
    belongs to another identity (then nothing of it is in the reply), 409 when it is the requester's and not readable. *)
Theorem http_get_status m key identity :
  reachable m →
  let '(r, s') := serve (RGet key identity) (mkServer m false) in
  sv_poisoned s' = false
  ∧ match view m !! key with
    | None => r = Failure 404 ObjectNotFound
    | Some o =>
        if decide (obj_identity o = identity)
        then let rs := readable_replicas (alive_segments m) o in
             r = if decide (rs = []) then Failure 409 ObjectNotReady else Success (BReplicas rs)
        else ∃ v, r = Failure 403 (UnsafeReuse v) ∧ reuse_violation_against (obj_identity o) identity = Some v
    end.
Proof.
  intros HI%reachable_inv. destruct (get_replica_list_spec key identity m HI) as (r & m' & E & _ & _ & _ & Hr).
  unfold serve. cbn [sv_poisoned sv_master handle_request]. rewrite E. cbn [reply mbind option_bind]. split; [done|].
  destruct (view m !! key) as [o|]; [|by destruct Hr as [-> _]].
  destruct (reuse_violation_against (obj_identity o) identity) as [v|] eqn:Ev.
  - destruct Hr as [-> _]. rewrite decide_False; [eauto|]. intros Hid. apply reuse_violation_against_None in Hid. congruence.
  - apply reuse_violation_against_None in Ev. rewrite decide_True by done. cbv zeta in *. case_decide; by destruct Hr as [-> _].
Qed.

(** A poisoned server answers nothing any more. *)
Lemma poisoned_stays es m : (server_run es (mkServer m true)).2 = mkServer m true ∧ Forall (λ r, r = ConnectionLost) (server_run es (mkServer m true)).1.
Proof.
  induction es as [|e es [IH1 IH2]]; [done|]. cbn [server_run]. destruct e as [r|]; cbn [server_step serve clock_task sv_poisoned];
    destruct (server_run es (mkServer m true)) as [r2 s2]; cbn [fst snd] in *; split; auto. by constructor.
Qed.
End server.

(** ** Leader election

    Each master process joins an election on etcd, serves once it has won, and keeps its
    lease alive from a task that ends at the first error.  Etcd grants the leadership to
    one candidate at a time and frees it when the leader's lease lapses, which it does when
    the lease is not kept alive. *)

(** A process: waiting in [campaign], or serving, with its keep-alive task running or ended. *)
Inductive Process : Type := Standby | Serving (keeping : bool) | Crashed.
#[export] Instance Process_eq_dec : EqDecision Process.
Proof. solve_decision. Defined.
Record Cluster : Type := mkCluster { leader : option string; processes : gmap string Process }.

Inductive ElectionEvent : Type :=
| Join (n : string)                       (* [MasterElection::join] *)
| Win (n : string)                        (* [campaign] returns *)
| KeepAlive (n : string) (ok : bool)      (* [keep_alive] returns *)
| Lapse                                   (* the leader's lease lapses *)
| Crash (n : string).

Definition keeps (n : string) (c : Cluster) : bool := bool_decide (processes c !! n = Some (Serving true)).

Definition election_step (e : ElectionEvent) (c : Cluster) : option Cluster :=
  match e with
  | Join n => match processes c !! n with None => Some (mkCluster (leader c) (<[n := Standby]> (processes c))) | Some _ => None end
  | Win n => if decide (processes c !! n = Some Standby ∧ leader c = None) then Some (mkCluster (Some n) (<[n := Serving true]> (processes c))) else None
  | KeepAlive n ok => if keeps n c then Some (if (ok : bool) then c else mkCluster (leader c) (<[n := Serving false]> (processes c))) else None
  | Lapse => match leader c with Some n => if keeps n c then None else Some (mkCluster None (processes c)) | None => None end
  | Crash n => match processes c !! n with Some _ => Some (mkCluster (leader c) (<[n := Crashed]> (processes c))) | None => None end
  end.
Fixpoint election_run (es : list ElectionEvent) (c : Cluster) : option Cluster :=
  match es with
  | [] => Some c
  | e :: es => c' ← election_step e c; election_run es c'
  end.
Definition no_masters : Cluster := mkCluster None ∅.

Definition keeper_leads (c : Cluster) : Prop := ∀ n, processes c !! n = Some (Serving true) → leader c = Some n.

Lemma election_step_inv e c c' :
  keeper_leads c → election_step e c = Some c' →
  keeper_leads c' ∧ ∀ n k, processes c' !! n = Some (Serving k) → (∃ k', processes c !! n = Some (Serving k')) ∨ e = Win n.
Proof.
  intros Hl Hs. destruct e as [x|x|x ok| |x]; cbn in Hs.
  - destruct (processes c !! x); [done|]. injection Hs as <-. split; intros n; cbn [processes leader]; [|intros k]; rewrite lookup_insert_Some; naive_solver.
  - case_decide as Hd; [|done]. destruct Hd as [_ Hnone]. injection Hs as <-. split; intros n; cbn [processes leader]; [|intros k]; rewrite lookup_insert_Some; [|naive_solver].
    intros [[-> _]|[_ Hn%Hl]]; congruence.
  - destruct (keeps x c) eqn:Ek; [|done]. apply bool_decide_eq_true in Ek. injection Hs as <-. destruct ok; [naive_solver|].
    split; intros n; cbn [processes leader]; [|intros k]; rewrite lookup_insert_Some; naive_solver.
  - destruct (leader c) as [y|] eqn:Ey; [|done]. destruct (keeps y c) eqn:Ek; [done|]. injection Hs as <-. split; [|naive_solver].
    intros n Hn. cbn in Hn. pose proof (Hl n Hn) as E. rewrite Ey in E. injection E as ->. unfold keeps in Ek. by rewrite bool_decide_eq_true_2 in Ek.
  - destruct (processes c !! x); [|done]. injection Hs as <-. split; intros n; cbn [processes leader]; [|intros k]; rewrite lookup_insert_Some; naive_solver.
Qed.

Lemma election_run_inv es c c' :
  keeper_leads c → election_run es c = Some c' →
  keeper_leads c' ∧ ∀ n k, processes c' !! n = Some (Serving k) → (∃ k', processes c !! n = Some (Serving k')) ∨ Win n ∈ es.
Proof.
  revert c. induction es as [|e es IH]; intros c Hl Hrun; cbn in Hrun; [simplify_eq; eauto|].
  apply bind_Some in Hrun as (c1 & Hs & Hrun). destruct (election_step_inv e c c1 Hl Hs) as [Hl1 Hw1]. destruct (IH c1 Hl1 Hrun) as [Hl' Hw'].
  split; [done|]. intros n k Hn. destruct (Hw' n k Hn) as [[k1 Hk1]|Hin]; [|right; by right]. destruct (Hw1 n k1 Hk1) as [?| ->]; [by left|right; by left].
Qed.

(** What the election guarantees: in every reachable cluster a master that serves and still keeps its lease alive is
    the leader, so there is at most one such; and only a master that won at some time serves. *)
Theorem election_one_keeper es c :
  election_run es no_masters = Some c →
  (∀ n, processes c !! n = Some (Serving true) → leader c = Some n)
  ∧ (∀ n1 n2, processes c !! n1 = Some (Serving true) → processes c !! n2 = Some (Serving true) → n1 = n2)
  ∧ (∀ n k, processes c !! n = Some (Serving k) → Win n ∈ es).
Proof.
  intros Hrun. destruct (election_run_inv es no_masters c) as [Hl Hw]; [done|done|]. split_and!; [done| |].
  - intros n1 n2 E1%Hl E2%Hl. congruence.
  - intros n k Hn. by destruct (Hw n k Hn) as [[k' Hk']|].
Qed.

(** What it does not: a master whose keep-alive failed stops renewing its lease and goes on serving, so after the
    lease lapses and a standby wins, two masters serve, and the first is not the leader. *)
Theorem lapsed_leader_keeps_serving :
  let c := default no_masters (election_run [Join "a"; Win "a"; Join "b"; KeepAlive "a" true; KeepAlive "a" false; Lapse; Win "b"] no_masters) in
  leader c = Some "b"%string ∧ processes c !! "a"%string = Some (Serving false) ∧ processes c !! "b"%string = Some (Serving true).
Proof. cbv zeta. split_and!; vm_compute; reflexivity. Qed.

Lemma election_one_keeper_witness : ∀ n k,
  processes (default no_masters (election_run [Join "a"; Win "a"] no_masters)) !! n = Some (Serving k) → Win n ∈ [Join "a"; Win "a"].
Proof.
  assert (election_run [Join "a"; Win "a"] no_masters = Some (default no_masters (election_run [Join "a"; Win "a"] no_masters))) as Hrun by run.
  exact (proj2 (proj2 (election_one_keeper _ _ Hrun))).
Defined.

(** ** On a concrete master *)

Section examples.
#[local] Existing Instance canonical_iter.
#[local] Existing Instance length_hash.
#[local] Existing Instance bit_codec.
#[local] Instance no_regex : RegexEngine := {| regex_new p := Ok (λ k, bool_decide (k = p)) |}.

Definition hx_id : IdentityScope := mkScope "m" "t" None "tenant-a".
Definition hx_events : list ServerEvent :=
  [SERequest (RMount "s0" 65536); SETick; SERequest (RPutStart "k" hx_id 16 (Some 1)); SERequest (RPutEnd "k"); SERequest (RGet "k" hx_id); SERequest RState].

Lemma some_default {A} (z : A) (o : option A) x : o = Some x → x = default z o.
Proof. by intros ->. Qed.

Lemma hx_ok : trace_ok hx_events (master_new "random").
Proof.
  cbn [trace_ok hx_events event_op]. split; [|].
  - split; [unfold MAX_SEGMENT; lia|]. split; [vm_compute; intros Hx; by apply elem_of_nil in Hx|vm_compute; discriminate].
  - intros m1 ->%(some_default (master_new "random")).
    split; [vm_compute; discriminate|]. intros m2 ->%(some_default (master_new "random")).
    split; [split; [lia|split; [vm_compute; discriminate|vm_compute; discriminate]]|]. intros m3 _. split; [done|]. intros m4 _. split; [done|]. done.
Qed.

Lemma http_server_is_master_witness :
  Forall (λ r, r ≠ ConnectionLost) (server_run hx_events (mkServer (master_new "random") false)).1.
Proof. destruct (http_server_is_master hx_events (master_new "random") (reach_new "random") hx_ok) as (m' & _ & _ & _ & Hl). exact Hl. Defined.

Lemma http_get_status_witness : (serve (RGet "k" hx_id) (mkServer (master_new "random") false)).1 = Failure 404 ObjectNotFound.
Proof.
  pose proof (http_get_status (master_new "random") "k" hx_id (reach_new "random")) as Hw.
  destruct (serve (RGet "k" hx_id) (mkServer (master_new "random") false)) as [r s']. cbn. destruct Hw as [_ Hw]. exact Hw.
Defined.

(** One bad pair of mounts ends the service: the capacity of a mounted segment is not checked, so two segments whose
    capacities add up past 64 bits are accepted, the next read of the state panics on the sum while it holds the mutex,
    and from then on every request of every client is lost. *)
Theorem oversized_mounts_end_service (es : list ServerEvent) :
  let trace := [SERequest (RMount "a" (2 ^ 63)); SERequest (RMount "b" (2 ^ 63)); SERequest RState] in
  (server_run trace (mkServer (master_new "random") false)).1 = [Success BTrue; Success BTrue; ConnectionLost]
  ∧ Forall (λ r, r = ConnectionLost) (server_run es (server_run trace (mkServer (master_new "random") false)).2).1.
Proof.
  cbv zeta. split; [vm_compute; reflexivity|]. destruct (server_run _ (mkServer (master_new "random") false)) as [rs [m p]] eqn:E.
  assert (p = true) as ->; [|apply poisoned_stays]. apply (f_equal (sv_poisoned ∘ snd)) in E. cbn [compose snd sv_poisoned] in E. rewrite <- E. vm_compute. reflexivity.
Qed.
End examples.
