(* ===== verification/PdProxy.v ===== *)
(** * The prefill/decode proxy

    src/pd_proxy.rs: the router of a disaggregated request.  It mints a transfer id, sends
    the prompt to the prefill engine, then the request to the decode engine, both tagged
    with the id, and returns the decode engine's response.  The engines' answers are inputs
    of the handler. *)
From stdpp Require Import pretty.
From S2P Require Import Prelude F64 Identity ShardedMap Router GatewayRequest GatewayMetrics Gateway.

Record ProxyState : Type := mkProxy { prefill_url : string; decode_url : string; id_base : Z; next_id : Z }.

(** [trim_end_matches('/')] on both URLs; [nanos] is the clock. *)
Definition proxy_start (prefill decode : string) (nanos : Z) : ProxyState :=
  mkProxy (trim_end_slash prefill) (trim_end_slash decode) (nanos mod (u64_max + 1)) 0.

(** [{:x}] of a [u64]: no leading zeros. *)
Fixpoint strip_zeros (s : string) : string :=
  match s with
  | String c s' => if decide (c = hex_digit 0) then strip_zeros s' else s
  | EmptyString => EmptyString
  end.
Definition hex_trim (z : Z) : string := let s := strip_zeros (hex 16 z) in if decide (s = "") then "0" else s.

Definition transfer_id (base n : Z) : string := "pd-" +:+ hex_trim base +:+ "-" +:+ pretty n.
Definition mint_transfer_id (st : ProxyState) : string * ProxyState :=
  (transfer_id (id_base st) (next_id st), mkProxy (prefill_url st) (decode_url st) (id_base st) (fetch_add (next_id st) 1)).

(** [Map::insert]: the value of a present key is replaced. *)
Fixpoint fields_insert (key : string) (v : Value) (fields : list (string * Value)) : list (string * Value) :=
  match fields with
  | [] => [(key, v)]
  | (k, w) :: fields => if decide (k = key) then (k, v) :: fields else (k, w) :: fields_insert key v fields
  end.
Definition object_insert (key : string) (v : Value) (body : Value) : Value :=
  match body with VObject fs => VObject (fields_insert key v fs) | _ => body end.

Definition set_kv_transfer_params (params : Value) (body : Value) : Value := object_insert "kv_transfer_params" params body.

Definition prefill_params (id : string) : Value := VObject [("do_remote_decode", VBool true); ("transfer_id", VString id)].
Definition decode_params (id : string) : Value := VObject [("do_remote_prefill", VBool true); ("transfer_id", VString id)].
Definition prefill_body (id : string) (body : Value) : Value :=
  set_kv_transfer_params (prefill_params id) (object_insert "stream" (VBool false) (object_insert "max_tokens" (VNumber (PosInt 1)) body)).
Definition decode_body (id : string) (body : Value) : Value := set_kv_transfer_params (decode_params id) body.

(** [error_for_status]. *)
Definition error_status_code (n : Z) : bool := (400 <=? n) && (n <? 600).

(** The requests sent, in order, and the reply: a status with a text.  [status_error] is the text of reqwest's error. *)
Definition chat (status_error : Z → string) (body : Value) (prefill : result string Z) (decode : result string (Z * result string string)) (st : ProxyState) :
    list (string * Value) * (Z * string) * ProxyState :=
  let '(id, st) := mint_transfer_id st in
  let sent1 := (prefill_url st +:+ "/v1/chat/completions", prefill_body id body) in
  match prefill with
  | Err e => ([sent1], (502, "prefill engine: " +:+ e), st)
  | Ok status =>
      if error_status_code status then ([sent1], (502, "prefill engine: " +:+ status_error status), st)
      else
        let sent2 := (decode_url st +:+ "/v1/chat/completions", decode_body id body) in
        match decode with
        | Err e => ([sent1; sent2], (502, "decode engine: " +:+ e), st)
        | Ok (status, text) =>
            ([sent1; sent2], match text with
                             | Err e => (502, e)
                             | Ok text => (if (100 <=? status) && (status <=? 999) then status else 200, text)
                             end, st)
        end
  end.

(** The ids minted by [n] requests in any order of their answers. *)
Fixpoint minted (n : nat) (st : ProxyState) : list string :=
  match n with
  | O => []
  | S n => let '(id, st) := mint_transfer_id st in id :: minted n st
  end.

(** ** Ids *)

Lemma strip_length s : (String.length (strip_zeros s) ≤ String.length s)%nat.
Proof. induction s as [|c s IH]; cbn; [lia|]. case_decide; cbn; lia. Qed.

Lemma strip_inj s t : String.length s = String.length t → strip_zeros s = strip_zeros t → s = t.
Proof.
  revert t. induction s as [|c s IH]; intros [|d t] Hl E; cbn in Hl, E; try done. injection Hl as Hl.
  do 2 case_decide; subst; [by rewrite (IH t)| | |done].
  - pose proof (strip_length s). rewrite E in *. cbn in *. lia.
  - pose proof (strip_length t). rewrite <- E in *. cbn in *. lia.
Qed.

Lemma string_length_app s t : String.length (s +:+ t) = (String.length s + String.length t)%nat.
Proof. induction s as [|c s IH]; [done|]. change (S (String.length (s +:+ t)) = S (String.length s + String.length t)). by rewrite IH. Qed.

Lemma hex_length n z : String.length (hex n z) = n.
Proof. revert z. induction n as [|n IH]; intros z; [done|]. cbn [hex]. rewrite string_length_app, IH. cbn. lia. Qed.

Lemma strip_head c s : strip_zeros s ≠ String c "" ∨ c ≠ hex_digit 0.
Proof. induction s as [|d s IH]; cbn; [by left|]. case_decide; [done|]. destruct (decide (c = hex_digit 0)); [left; congruence|by right]. Qed.

Lemma hex_trim_inj a b : is_u64 a → is_u64 b → hex_trim a = hex_trim b → a = b.
Proof.
  unfold is_u64, hex_trim. intros Ha Hb E. apply (hex_inj 16); [change (16 ^ Z.of_nat 16) with (u64_max + 1); lia..|].
  apply strip_inj; [by rewrite !hex_length|]. assert (∀ z, strip_zeros (hex 16 z) ≠ "0") as H0.
  { intros z. destruct (strip_head (hex_digit 0) (hex 16 z)) as [Hn|Hn]; [exact Hn|done]. }
  do 2 case_decide; [congruence|exfalso..|done]; [by apply (H0 b)|by apply (H0 a)].
Qed.

(** No digit is the separator. *)
Fixpoint no_dash (s : string) : Prop := match s with String c s => c ≠ Ascii.ascii_of_nat 45 ∧ no_dash s | EmptyString => True end.

Lemma dash_split s1 s2 t1 t2 : no_dash s1 → no_dash s2 → s1 +:+ "-" +:+ t1 = s2 +:+ "-" +:+ t2 → s1 = s2 ∧ t1 = t2.
Proof.
  revert s2. induction s1 as [|c s1 IH]; intros [|d s2] H1 H2 E.
  - injection E as E. done.
  - injection E as E _. destruct H2 as [H2 _]. by rewrite <- E in H2.
  - injection E as E _. destruct H1 as [H1 _]. by rewrite E in H1.
  - injection E as Ec E. destruct H1 as [_ H1], H2 as [_ H2]. destruct (IH s2 H1 H2 E) as [-> ->]. by rewrite Ec.
Qed.

Lemma no_dash_app s t : no_dash s → no_dash t → no_dash (s +:+ t).
Proof. induction s as [|c s IH]; [done|]. intros [Hc Hs] Ht. split; [done|]. by apply IH. Qed.

Lemma hex_digit_not_dash d : 0 ≤ d < 16 → hex_digit d ≠ Ascii.ascii_of_nat 45.
Proof.
  intros Hd E. apply (f_equal Ascii.nat_of_ascii) in E. unfold hex_digit in E. rewrite !Ascii.nat_ascii_embedding in E by (destruct (d <? 10); lia).
  destruct (Z.ltb_spec d 10); lia.
Qed.

Lemma hex_no_dash n z : no_dash (hex n z).
Proof.
  revert z. induction n as [|n IH]; intros z; [done|]. cbn [hex]. apply no_dash_app; [apply IH|]. split; [|done]. apply hex_digit_not_dash, Z.mod_pos_bound. lia.
Qed.

Lemma hex_trim_no_dash z : no_dash (hex_trim z).
Proof.
  unfold hex_trim. case_decide; [split; [|done]; intros E; discriminate|]. pose proof (hex_no_dash 16 z) as Hn. revert Hn. generalize (hex 16 z). intros s. clear.
  induction s as [|c s IH]; [done|]. intros Hn. cbn. case_decide; [apply IH; by destruct Hn|done].
Qed.

Lemma transfer_id_inj b1 n1 b2 n2 : is_u64 b1 → is_u64 b2 → transfer_id b1 n1 = transfer_id b2 n2 → b1 = b2 ∧ n1 = n2.
Proof.
  intros H1 H2 E. unfold transfer_id in E. assert (∀ s t : string, "pd-" +:+ s = "pd-" +:+ t → s = t) as Hpd by (intros s t [=]; done).
  apply Hpd, dash_split in E as [Eb En]; [|apply hex_trim_no_dash..]. split; [by apply hex_trim_inj|by apply (inj pretty)].
Qed.

Lemma minted_ids n st : is_u64 (next_id st) → next_id st + Z.of_nat n ≤ u64_max →
  minted n st = (λ i, transfer_id (id_base st) (next_id st + Z.of_nat i)) <$> seq 0 n.
Proof.
  unfold is_u64. revert st. induction n as [|n IH]; intros st Hu Hn; [done|]. cbn [minted mint_transfer_id]. rewrite <- cons_seq, fmap_cons. f_equal; [f_equal; lia|].
  assert (fetch_add (next_id st) 1 = next_id st + 1) as E by (unfold fetch_add; apply Z.mod_small; lia).
  rewrite IH; cbn [next_id id_base]; rewrite E; [|lia..]. rewrite <- fmap_S_seq, <- list_fmap_compose. apply list_fmap_ext. intros i x _. cbn. f_equal. lia.
Qed.

(** Transfer ids name one request each: the ids minted by a proxy for fewer than 2^64 requests are pairwise different,
    and different from those of a proxy started at another time. *)
Theorem transfer_ids_unique prefill decode nanos1 nanos2 n1 n2 :
  Z.of_nat n1 ≤ u64_max → Z.of_nat n2 ≤ u64_max → 0 ≤ nanos1 ≤ u64_max → 0 ≤ nanos2 ≤ u64_max → nanos1 ≠ nanos2 →
  NoDup (minted n1 (proxy_start prefill decode nanos1) ++ minted n2 (proxy_start prefill decode nanos2)).
Proof.
  intros Hn1 Hn2 H1 H2 Hne. assert (∀ z, 0 ≤ z ≤ u64_max → z mod (u64_max + 1) = z) as Hm by (intros; apply Z.mod_small; lia).
  rewrite !minted_ids by (cbn; unfold is_u64; lia). cbn [proxy_start id_base next_id]. rewrite !Hm by done. apply NoDup_app. split_and!.
  - apply NoDup_fmap_2_strong; [|apply NoDup_seq]. intros i j _ _ [_ E]%transfer_id_inj; [|done..]. lia.
  - intros x (i & -> & _)%list_elem_of_fmap (j & [E _]%transfer_id_inj & _)%list_elem_of_fmap; done.
  - apply NoDup_fmap_2_strong; [|apply NoDup_seq]. intros i j _ _ [_ E]%transfer_id_inj; [|done..]. lia.
Qed.

(** ** The handshake *)

Lemma fields_insert_get key v fs k : field_of k (fields_insert key v fs) = if decide (k = key) then Some v else field_of k fs.
Proof.
  induction fs as [|[x w] fs IH]; cbn.
  - destruct (decide (k = key)) as [->|Hk]; [by rewrite decide_True|]. by rewrite decide_False by congruence.
  - destruct (decide (x = key)) as [->|Hx]; cbn.
    + destruct (decide (key = k)) as [->|]; [by rewrite decide_True|]. by rewrite decide_False by congruence.
    + rewrite IH. destruct (decide (x = k)) as [->|]; [by rewrite decide_False|done].
Qed.

(** The handshake: the prefill engine is asked first and exactly once; the decode engine is asked exactly when it
    answered without an error status, so its KV is there; both requests carry the same freshly minted id, the first
    capped to one token and not streamed, and otherwise both are the caller's request field by field; the reply is the
    decode engine's, and a failing engine gives a 502. *)
Theorem pd_handshake status_error fs prefill decode st :
  let '(sent, (status, text), st') := chat status_error (VObject fs) prefill decode st in
  let id := transfer_id (id_base st) (next_id st) in
  next_id st' = fetch_add (next_id st) 1
  ∧ ∃ p, head sent = Some (prefill_url st +:+ "/v1/chat/completions", VObject p)
  ∧ (∀ k, field_of k p = if decide (k = "kv_transfer_params") then Some (prefill_params id)
                         else if decide (k = "stream") then Some (VBool false)
                         else if decide (k = "max_tokens") then Some (VNumber (PosInt 1)) else field_of k fs)
  ∧ match prefill with
    | Ok s1 =>
        if error_status_code s1 then status = 502 ∧ length sent = 1%nat
        else ∃ d, tail sent = [(decode_url st +:+ "/v1/chat/completions", VObject d)]
             ∧ (∀ k, field_of k d = if decide (k = "kv_transfer_params") then Some (decode_params id) else field_of k fs)
             ∧ match decode with
               | Ok (s2, Ok body) => text = body ∧ (100 ≤ s2 ≤ 999 → status = s2)
               | _ => status = 502
               end
    | Err _ => status = 502 ∧ length sent = 1%nat
    end.
Proof.
  unfold chat. cbn [mint_transfer_id prefill_url decode_url]. set (id := transfer_id (id_base st) (next_id st)).
  assert (∀ k, field_of k (fields_insert "kv_transfer_params" (prefill_params id) (fields_insert "stream" (VBool false) (fields_insert "max_tokens" (VNumber (PosInt 1)) fs)))
    = if decide (k = "kv_transfer_params") then Some (prefill_params id) else if decide (k = "stream") then Some (VBool false)
      else if decide (k = "max_tokens") then Some (VNumber (PosInt 1)) else field_of k fs) as Hp by (intros k; by rewrite !fields_insert_get).
  destruct prefill as [s1|e]; [destruct (error_status_code s1) eqn:Es; [|destruct decode as [[s2 [text|e]]|e]]|]; (split; [done|]); eexists; (split; [done|]); (split; [exact Hp|]).
  - done.
  - eexists. split; [done|]. split; [intros k; apply fields_insert_get|]. split; [done|]. intros [Ha Hb].
    apply Z.leb_le in Ha, Hb. by rewrite Ha, Hb.
  - eexists. split; [done|]. split; [intros k; apply fields_insert_get|done].
  - eexists. split; [done|]. split; [intros k; apply fields_insert_get|done].
  - done.
Qed.

Lemma transfer_ids_unique_witness : NoDup (minted 2 (proxy_start "http://p/" "http://d" 171) ++ minted 3 (proxy_start "http://p/" "http://d" 172)).
Proof. apply (transfer_ids_unique "http://p/" "http://d" 171 172 2 3); unfold u64_max; lia. Defined.
