(* ===== verification/DeviceSegment.v ===== *)
(** * Device segments

    crates/quillcache-transfer-engine/src/device_segment.rs: a fixed arena of GPU memory
    served over the wire of the TCP backend, and the copy between two GPUs of a node.

    The CUDA driver is outside the repository: a call of it may succeed or fail, and the
    results of the calls still to come are a list (past its end every call succeeds).  A
    copy that fails leaves its destination range with bytes of the driver's choosing.  A
    view out of the arena's range panics, as [CudaSlice::slice] is documented to. *)
From stdpp Require Import pretty.
From S2P Require Import Prelude F64 Identity ShardedMap Router RouterPlan TransferTypes TcpTransport.

(** ** The driver *)

Inductive DriverCall : Type := DrvOk | DrvFail (message : string) (junk : nat → Z).
Notation Cuda := (list DriverCall).

Definition next_call (d : Cuda) : DriverCall * Cuda :=
  match d with [] => (DrvOk, []) | c :: d => (c, d) end.

Definition junk_bytes (junk : nat → Z) (n : nat) : list Z := junk <$> seq 0 n.

(** ** The segment *)

Record Arena : Type := mkArena { hbm : list Z; arena_len : Z }.
Record DeviceSegment : Type := mkDevice { ordinal : Z; arena : Arena; arena_poisoned : bool; capacity : Z }.

Definition set_arena (a : Arena) (s : DeviceSegment) : DeviceSegment := mkDevice (ordinal s) a (arena_poisoned s) (capacity s).
Definition poison_arena (s : DeviceSegment) : DeviceSegment := mkDevice (ordinal s) (arena s) true (capacity s).

Definition device_new (ord cap : Z) (d : Cuda) : result string DeviceSegment * Cuda :=
  match next_call d with
  | (DrvFail e _, d) => (Err ("CudaContext::new: " +:+ e)%string, d)
  | (DrvOk, d) =>
      match next_call d with
      | (DrvFail e _, d) => (Err ("alloc HBM arena: " +:+ e)%string, d)
      | (DrvOk, d) => (Ok (mkDevice ord (mkArena (replicate (Z.to_nat cap) 0) 0) false cap), d)
      end
  end.

Definition device_len (s : DeviceSegment) : outcome Z :=
  if arena_poisoned s then Panic else Done (arena_len (arena s)).

(** [slice(off..end)] / [slice_mut(off..end)] is in range. *)
Definition view_ok (off e : Z) (a : Arena) : bool := (off <=? e) && (e <=? Z.of_nat (length (hbm a))).

(** A copy into the arena and the wait for it. *)
Definition copy_in (prefix : string) (off : nat) (data : list Z) (a : Arena) (d : Cuda) : result string unit * Arena * Cuda :=
  match next_call d with
  | (DrvFail e junk, d) => (Err (prefix +:+ e)%string, mkArena (splice off (junk_bytes junk (length data)) (hbm a)) (arena_len a), d)
  | (DrvOk, d) =>
      match next_call d with
      | (DrvFail e junk, d) => (Err e, mkArena (splice off (junk_bytes junk (length data)) (hbm a)) (arena_len a), d)
      | (DrvOk, d) => (Ok tt, mkArena (splice off data (hbm a)) (arena_len a), d)
      end
  end.

Definition grow_len (e : Z) (a : Arena) : Arena := if arena_len a <? e then mkArena (hbm a) e else a.

Definition write_locked (cap offset : Z) (data : list Z) (a : Arena) (d : Cuda) : outcome (result string unit) * Arena * Cuda :=
  match u64_add offset (Z.of_nat (length data)) with
  | None => (Done (Err "offset+len overflow"), a, d)
  | Some e =>
      if cap <? e then (Done (Err ("write exceeds HBM segment capacity (" +:+ pretty e +:+ " > " +:+ pretty cap +:+ ")")%string), a, d)
      else if bool_decide (data = []) then (Done (Ok tt), grow_len e a, d)
      else if negb (view_ok offset e a) then (Panic, a, d)
      else match copy_in "h2d: " (Z.to_nat offset) data a d with
           | (Err m, a, d) => (Done (Err m), a, d)
           | (Ok _, a, d) => (Done (Ok tt), grow_len e a, d)
           end
  end.

Definition device_write (offset : Z) (data : list Z) (s : DeviceSegment) (d : Cuda) : outcome (result string unit) * DeviceSegment * Cuda :=
  if arena_poisoned s then (Panic, s, d)
  else match write_locked (capacity s) offset data (arena s) d with
       | (Panic, a, d) => (Panic, poison_arena (set_arena a s), d)
       | (Done r, a, d) => (Done r, set_arena a s, d)
       end.

Definition device_register (data : list Z) (s : DeviceSegment) (d : Cuda) : outcome (result string Z) * DeviceSegment * Cuda :=
  if arena_poisoned s then (Panic, s, d)
  else
    let offset := arena_len (arena s) in
    match write_locked (capacity s) offset data (arena s) d with
    | (Panic, a, d) => (Panic, poison_arena (set_arena a s), d)
    | (Done (Err m), a, d) => (Done (Err m), set_arena a s, d)
    | (Done (Ok _), a, d) => (Done (Ok offset), set_arena a s, d)
    end.

Definition device_read (offset len : Z) (s : DeviceSegment) (d : Cuda) : outcome (result string (list Z)) * DeviceSegment * Cuda :=
  if arena_poisoned s then (Panic, s, d)
  else match u64_add offset len with
       | None => (Done (Err "offset+len overflow"), s, d)
       | Some e =>
           if arena_len (arena s) <? e then (Done (Err "read out of segment bounds"), s, d)
           else if isize_max <? len then (Panic, poison_arena s, d)
           else if negb (0 <? len) then (Done (Ok []), s, d)
           else if negb (view_ok offset e (arena s)) then (Panic, poison_arena s, d)
           else match next_call d with
                | (DrvFail m _, d) => (Done (Err ("d2h: " +:+ m)%string), s, d)
                | (DrvOk, d) =>
                    match next_call d with
                    | (DrvFail m _, d) => (Done (Err m), s, d)
                    | (DrvOk, d) => (Done (Ok (slice (Z.to_nat offset) (Z.to_nat len) (hbm (arena s)))), s, d)
                    end
                end
       end.

(** [src.copy_to_peer(src_offset, dst, dst_offset, len)] on two different segments; with
    [same] the two are one segment.  A panic unwinds through both guards. *)
Definition copy_to_peer (same : bool) (src_offset dst_offset len : Z) (src dst : DeviceSegment) (d : Cuda)
    : outcome (result string unit) * (DeviceSegment * DeviceSegment) * Cuda :=
  if same then (Done (Err "peer copy to self is not supported"), (src, dst), d)
  else match u64_add src_offset len with
  | None => (Done (Err "src offset+len overflow"), (src, dst), d)
  | Some src_end =>
  match u64_add dst_offset len with
  | None => (Done (Err "dst offset+len overflow"), (src, dst), d)
  | Some dst_end =>
      if capacity dst <? dst_end then
        (Done (Err ("peer copy exceeds dst HBM capacity (" +:+ pretty dst_end +:+ " > " +:+ pretty (capacity dst) +:+ ")")%string), (src, dst), d)
      else if arena_poisoned src then (Panic, (src, dst), d)
      else if arena_len (arena src) <? src_end then (Done (Err "peer copy src out of segment bounds"), (src, dst), d)
      else if arena_poisoned dst then (Panic, (poison_arena src, dst), d)
      else if negb (0 <? len) then (Done (Ok tt), (src, set_arena (grow_len dst_end (arena dst)) dst), d)
      else if negb (view_ok src_offset src_end (arena src) && view_ok dst_offset dst_end (arena dst)) then
        (Panic, (poison_arena src, poison_arena dst), d)
      else
        let bytes := slice (Z.to_nat src_offset) (Z.to_nat len) (hbm (arena src)) in
        let put bs := mkArena (splice (Z.to_nat dst_offset) bs (hbm (arena dst))) (arena_len (arena dst)) in
        match next_call d with
        | (DrvFail m junk, d) =>
            (Done (Err ("cuMemcpyPeer: " +:+ m)%string), (src, set_arena (put (junk_bytes junk (Z.to_nat len))) dst), d)
        | (DrvOk, d) => (Done (Ok tt), (src, set_arena (grow_len dst_end (put bytes)) dst), d)
        end
  end end.

(** ** The server *)

Definition device_frame (input : list Z) (s : DeviceSegment) (d : Cuda) : (ConnEnd + list Z) * list Z * DeviceSegment * Cuda :=
  match read_u8 input with
  | None => (inl ConnClosed, [], s, d)
  | Some (op, input) =>
  match read_u64 input with
  | None => (inl ConnIoError, [], s, d)
  | Some (offset, input) =>
  match read_u64 input with
  | None => (inl ConnIoError, [], s, d)
  | Some (len, input) =>
      if op =? OP_READ then
        match device_read offset len s d with
        | (Panic, s, d) => (inl ConnPanicked, [], s, d)
        | (Done (Ok bytes), s, d) => (inr input, ST_OK :: be64 (Z.of_nat (length bytes)) ++ bytes, s, d)
        | (Done (Err _), s, d) => (inr input, [ST_ERR], s, d)
        end
      else if op =? OP_WRITE then
        if isize_max <? len then (inl ConnPanicked, [], s, d)
        else match read_exact (Z.to_nat len) input with
             | None => (inl ConnIoError, [], s, d)
             | Some (buf, input) =>
                 match device_write offset buf s d with
                 | (Panic, s, d) => (inl ConnPanicked, [], s, d)
                 | (Done (Ok _), s, d) => (inr input, [ST_OK], s, d)
                 | (Done (Err _), s, d) => (inr input, [ST_ERR], s, d)
                 end
             end
      else (inl ConnClosed, [], s, d)
  end end end.

Fixpoint device_conn (fuel : nat) (input : list Z) (s : DeviceSegment) (d : Cuda) : option (list Z * DeviceSegment * Cuda * ConnEnd) :=
  match fuel with
  | O => None
  | S fuel =>
      match device_frame input s d with
      | (inl e, reply, s, d) => Some (reply, s, d, e)
      | (inr input, reply, s, d) =>
          '(reply', s, d, e) ← device_conn fuel input s d;
          Some (reply ++ reply', s, d, e)
      end
  end.

(** Every frame consumes input: the loop ends. *)
Definition serve_device (input : list Z) (s : DeviceSegment) (d : Cuda) : option (list Z * DeviceSegment * Cuda * ConnEnd) :=
  device_conn (S (length input)) input s d.

(** ** The arena's invariant *)

Definition arena_wf (cap : Z) (a : Arena) : Prop := Z.of_nat (length (hbm a)) = cap ∧ 0 ≤ arena_len a ≤ cap.
Definition device_wf (s : DeviceSegment) : Prop :=
  arena_poisoned s = false ∧ capacity s ≤ isize_max ∧ arena_wf (capacity s) (arena s).

Lemma junk_bytes_length junk n : length (junk_bytes junk n) = n.
Proof. unfold junk_bytes. by rewrite length_fmap, length_seq. Qed.

Lemma grow_len_wf cap e a : arena_wf cap a → e ≤ cap → arena_wf cap (grow_len e a).
Proof. intros [Hh Hl] He. unfold grow_len. destruct (Z.ltb_spec (arena_len a) e); [|done]. split; cbn; [done|lia]. Qed.

Lemma copy_in_wf cap prefix off data a d r a' d' :
  arena_wf cap a → Z.of_nat (off + length data) ≤ cap → copy_in prefix off data a d = (r, a', d') → arena_wf cap a'.
Proof.
  intros [Hh Hl] Hle. unfold copy_in. destruct (next_call d) as [[|m j] d1]; [destruct (next_call d1) as [[|m j] d2]|];
    intros [= _ <- _]; (split; cbn; [rewrite splice_length; rewrite ?junk_bytes_length; lia|done]).
Qed.

(** Whatever the driver does, a write never panics and keeps the arena well formed. *)
Lemma write_locked_wf cap offset data a d :
  arena_wf cap a → 0 ≤ offset → ∃ r a' d', write_locked cap offset data a d = (Done r, a', d') ∧ arena_wf cap a'.
Proof.
  intros Hwf Ho. unfold write_locked. destruct (u64_add _ _) as [e|] eqn:He; [|by eauto 6]. apply u64_add_Some in He as [-> _].
  destruct (Z.ltb_spec cap (offset + Z.of_nat (length data))); [by eauto 6|].
  case_bool_decide; [do 3 eexists; split; [done|by apply grow_len_wf]|].
  unfold view_ok. pose proof (proj1 Hwf). rewrite !(proj2 (Z.leb_le _ _)) by lia. cbn [andb negb].
  destruct (copy_in _ _ _ _ _) as [[[[]|m] a1] d1] eqn:Hc; do 3 eexists; (split; [done|]);
    [apply grow_len_wf; [|done]|]; eapply copy_in_wf; try exact Hc; (done || lia).
Qed.

Lemma device_write_wf offset data s d :
  device_wf s → 0 ≤ offset → ∃ r s' d', device_write offset data s d = (Done r, s', d') ∧ device_wf s'.
Proof.
  intros (Hp & Hc & Hwf) Ho. unfold device_write. rewrite Hp.
  destruct (write_locked_wf _ offset data _ d Hwf Ho) as (r & a & d' & -> & Ha). do 3 eexists. split; [done|]. by split_and!.
Qed.

Lemma device_register_wf data s d :
  device_wf s → ∃ r s' d', device_register data s d = (Done r, s', d') ∧ device_wf s'.
Proof.
  intros (Hp & Hc & Hwf). unfold device_register. rewrite Hp.
  destruct (write_locked_wf _ (arena_len (arena s)) data _ d Hwf) as (r & a & d' & -> & Ha); [apply Hwf|].
  destruct r; do 3 eexists; (split; [done|by split_and!]).
Qed.

Lemma device_read_wf offset len s d :
  device_wf s → 0 ≤ offset → 0 ≤ len → ∃ r d', device_read offset len s d = (Done r, s, d').
Proof.
  intros (Hp & Hc & Hh & Hl) Ho Hn. unfold device_read. rewrite Hp. destruct (u64_add _ _) as [e|] eqn:He; [|by eauto].
  apply u64_add_Some in He as [-> _]. destruct (Z.ltb_spec (arena_len (arena s)) (offset + len)); [by eauto|].
  rewrite (proj2 (Z.ltb_ge _ _)) by lia. destruct (Z.ltb_spec 0 len); cbn [negb]; [|by eauto].
  unfold view_ok. rewrite !(proj2 (Z.leb_le _ _)) by lia. cbn [andb negb].
  destruct (next_call d) as [[|m j] d1]; [destruct (next_call d1) as [[|m j] d2]|]; by eauto.
Qed.

Lemma copy_to_peer_wf src_offset dst_offset len src dst d :
  device_wf src → device_wf dst → 0 ≤ src_offset → 0 ≤ dst_offset → 0 ≤ len →
  ∃ r dst' d', copy_to_peer false src_offset dst_offset len src dst d = (Done r, (src, dst'), d') ∧ device_wf dst'.
Proof.
  intros (Hps & Hcs & Hhs & Hls) (Hpd & Hcd & Hhd & Hld) Hs Hd Hn. unfold copy_to_peer.
  destruct (u64_add src_offset len) as [se|] eqn:Hse; [|by do 3 eexists].
  destruct (u64_add dst_offset len) as [de|] eqn:Hde; [|by do 3 eexists].
  apply u64_add_Some in Hse as [-> _], Hde as [-> _].
  destruct (Z.ltb_spec (capacity dst) (dst_offset + len)); [by do 3 eexists|]. rewrite Hps, Hpd.
  destruct (Z.ltb_spec (arena_len (arena src)) (src_offset + len)); [by do 3 eexists|].
  assert (∀ a, arena_wf (capacity dst) a → device_wf (set_arena a dst)) as Hset by (intros a Ha; by split_and!).
  destruct (Z.ltb_spec 0 len); cbn [negb]; [|do 3 eexists; split; [done|]; apply Hset, grow_len_wf; done].
  unfold view_ok. rewrite !(proj2 (Z.leb_le _ _)) by lia. cbn [andb negb].
  destruct (next_call d) as [[|m j] d1]; do 3 eexists; (split; [done|]); apply Hset; [apply grow_len_wf; [|done]|];
    (split; cbn; [rewrite splice_length; rewrite ?junk_bytes_length, ?slice_length; lia|done]).
Qed.

(** ** The memory a device promises: the plain memory with a capacity *)

Definition device_mem_step (cap : Z) (op : WireOp) (m : list Z) : list Z * list Z :=
  match op with
  | WireRead _ _ => mem_step op m
  | WireWrite o d => if o + Z.of_nat (length d) <=? cap then mem_step op m else ([ST_ERR], m)
  end.
Fixpoint device_mem_run (cap : Z) (ops : list WireOp) (m : list Z) : list Z * list Z :=
  match ops with
  | [] => ([], m)
  | op :: ops => let '(r, m) := device_mem_step cap op m in let '(r', m) := device_mem_run cap ops m in (r ++ r', m)
  end.

(** The segment that holds [m]: zeros beyond it. *)
Definition device_of (ord cap : Z) (m : list Z) : DeviceSegment :=
  mkDevice ord (mkArena (grow_to (Z.to_nat cap) m) (Z.of_nat (length m))) false cap.

(** A request the wire can carry. *)
Definition device_ok (op : WireOp) : Prop :=
  match op with
  | WireRead o n => is_u64 o ∧ is_u64 n
  | WireWrite o d => is_u64 o ∧ Z.of_nat (length d) ≤ isize_max
  end.

Lemma device_of_wf ord cap m : cap ≤ isize_max → Z.of_nat (length m) ≤ cap → device_wf (device_of ord cap m).
Proof. intros Hc Hm. split_and!; [done|done|]. split; cbn; [rewrite grow_to_length; lia|lia]. Qed.

Lemma splice_grow o d cap m :
  0 ≤ o → o + Z.of_nat (length d) ≤ Z.of_nat cap → (length m ≤ cap)%nat →
  splice (Z.to_nat o) d (grow_to cap m) = grow_to cap (mem_write o d m).
Proof.
  intros Ho He Hm. apply list_eq. intros i. rewrite splice_lookup by (rewrite grow_to_length; lia).
  pose proof (mem_write_length o d m Ho) as Hlen. rewrite !grow_to_lookup, mem_write_lookup by done. repeat case_decide; try lia; done.
Qed.

Lemma grow_len_of o d m h :
  0 ≤ o → grow_len (o + Z.of_nat (length d)) (mkArena h (Z.of_nat (length m))) = mkArena h (Z.of_nat (length (mem_write o d m))).
Proof.
  intros Ho. pose proof (mem_write_length o d m Ho). unfold grow_len. cbn. destruct (Z.ltb_spec (Z.of_nat (length m)) (o + Z.of_nat (length d))); f_equal; lia.
Qed.

(** A copy of [d] into the arena that holds [m]. *)
Lemma write_locked_of o d ord cap m :
  0 ≤ o → o + Z.of_nat (length d) ≤ cap → cap ≤ isize_max → Z.of_nat (length m) ≤ cap →
  write_locked cap o d (arena (device_of ord cap m)) [] = (Done (Ok tt), arena (device_of ord cap (mem_write o d m)), []).
Proof.
  intros Ho He Hc Hm. unfold write_locked. rewrite u64_add_ok by (unfold u64_max, isize_max in *; lia).
  rewrite (proj2 (Z.ltb_ge _ _)) by done. pose proof (splice_grow o d (Z.to_nat cap) m Ho ltac:(lia) ltac:(lia)) as Hsp.
  case_bool_decide as Hd.
  - subst d. unfold device_of. cbn [arena]. rewrite grow_len_of by done. rewrite <- Hsp. unfold splice.
    cbn [length app]. by rewrite Nat.add_0_r, take_drop.
  - unfold view_ok. cbn [arena hbm device_of]. rewrite grow_to_length, !(proj2 (Z.leb_le _ _)) by lia. cbn [andb negb copy_in next_call hbm arena_len].
    rewrite grow_len_of by done. by rewrite Hsp.
Qed.

Lemma device_write_of o d ord cap m :
  is_u64 o → cap ≤ isize_max → Z.of_nat (length m) ≤ cap →
  ∃ r, device_write o d (device_of ord cap m) [] = (Done r, device_of ord cap (device_mem_step cap (WireWrite o d) m).2, [])
       ∧ (device_mem_step cap (WireWrite o d) m).1 = [if is_ok r then ST_OK else ST_ERR].
Proof.
  intros Ho Hc Hm. unfold device_write, device_mem_step. cbn [arena_poisoned device_of capacity arena]. destruct (Z.leb_spec (o + Z.of_nat (length d)) cap).
  - pose proof (write_locked_of o d ord cap m) as Hw. cbn [device_of arena] in Hw. rewrite Hw by (done || apply Ho). eexists. by split.
  - unfold write_locked. destruct (u64_add o _) as [e|] eqn:He; [|eexists; by split]. apply u64_add_Some in He as [-> _].
    rewrite (proj2 (Z.ltb_lt _ _)) by done. eexists. by split.
Qed.

Lemma device_read_of o n ord cap m :
  is_u64 o → is_u64 n → cap ≤ isize_max → Z.of_nat (length m) ≤ cap →
  ∃ r, device_read o n (device_of ord cap m) [] = (Done r, device_of ord cap m, [])
       ∧ mem_read o n m = match r with Ok bs => Some bs | Err _ => None end.
Proof.
  unfold is_u64. intros Ho Hn Hc Hm. unfold device_read, mem_read. cbn [arena_poisoned device_of arena arena_len hbm].
  destruct (u64_add o n) as [e|] eqn:He.
  2: { unfold u64_add in He. case_match; [done|]. zbool. eexists. split; [done|]. rewrite (proj2 (Z.leb_gt _ _)) by (unfold u64_max, isize_max in *; lia). done. }
  apply u64_add_Some in He as [-> _]. destruct (Z.ltb_spec (Z.of_nat (length m)) (o + n)).
  { eexists. split; [done|]. by rewrite (proj2 (Z.leb_gt _ _)). }
  rewrite (proj2 (Z.ltb_ge _ _)), (proj2 (Z.leb_le _ _)) by lia. destruct (Z.ltb_spec 0 n); cbn [negb].
  - unfold view_ok. cbn [hbm]. rewrite grow_to_length, !(proj2 (Z.leb_le _ _)) by lia. cbn. eexists. split; [done|]. cbn. f_equal.
    unfold slice, grow_to. rewrite drop_app_le by lia. by rewrite take_app_le by (rewrite length_drop; lia).
  - eexists. split; [done|]. assert (n = 0) as -> by lia. done.
Qed.

Lemma device_frame_step op rest ord cap m :
  device_ok op → cap ≤ isize_max → Z.of_nat (length m) ≤ cap →
  device_frame (wire_frame op ++ rest) (device_of ord cap m) []
  = (inr rest, (device_mem_step cap op m).1, device_of ord cap (device_mem_step cap op m).2, []).
Proof.
  intros Hok Hc Hm. unfold device_frame. destruct op as [o n|o d]; cbn [wire_frame]; unfold read_frame, write_frame; cbn [read_u8 app].
  - destruct Hok as [Ho Hn]. rewrite <- !(assoc_L (++)) by apply _. rewrite !read_u64_be by done. cbn [OP_READ OP_WRITE Z.eqb].
    destruct (device_read_of o n ord cap m) as (r & -> & Hr); [done..|]. cbn [device_mem_step mem_step fst snd]. rewrite Hr. by destruct r.
  - destruct Hok as [Ho Hd]. assert (is_u64 (Z.of_nat (length d))) by (unfold is_u64, u64_max, isize_max in *; lia).
    rewrite <- !(assoc_L (++)) by apply _. rewrite !read_u64_be by done. cbn [OP_READ OP_WRITE Z.eqb].
    rewrite (proj2 (Z.ltb_ge _ _)) by lia. rewrite Nat2Z.id, read_exact_app.
    destruct (device_write_of o d ord cap m) as (r & -> & Hr); [done..|]. rewrite Hr. by destruct r.
Qed.

Lemma device_mem_step_length cap op m :
  device_ok op → Z.of_nat (length m) ≤ cap → Z.of_nat (length (device_mem_step cap op m).2) ≤ cap.
Proof.
  destruct op as [o n|o d]; cbn; [done|]. intros [[? ?] ?] ?. destruct (Z.leb_spec (o + Z.of_nat (length d)) cap); cbn; [|done].
  rewrite mem_write_length by done. lia.
Qed.

Lemma device_conn_run fuel ops ord cap m :
  Forall device_ok ops → cap ≤ isize_max → Z.of_nat (length m) ≤ cap → (length (mjoin (wire_frame <$> ops)) < fuel)%nat →
  device_conn fuel (mjoin (wire_frame <$> ops)) (device_of ord cap m) []
  = Some ((device_mem_run cap ops m).1, device_of ord cap (device_mem_run cap ops m).2, [], ConnClosed).
Proof.
  revert fuel m. induction ops as [|op ops IH]; intros fuel m Hok Hc Hm Hfuel; (destruct fuel as [|fuel]; [lia|]); [done|].
  apply Forall_cons in Hok as [Hop Hok]. change (mjoin (wire_frame <$> op :: ops)) with (wire_frame op ++ mjoin (wire_frame <$> ops)) in *. cbn [device_conn].
  rewrite device_frame_step by done. pose proof (wire_frame_length op). rewrite length_app in Hfuel.
  rewrite IH; [|done|done|by apply device_mem_step_length|lia]. cbn [mbind option_bind device_mem_run]. destruct (device_mem_step cap op m) as [r m1]. cbn [fst snd].
  by destruct (device_mem_run cap ops m1).
Qed.

(** ** Every input ends, whatever the driver does *)

Notation is_byte := (λ b : Z, 0 ≤ b < 256).

Lemma read_u64_bytes input z rest :
  Forall is_byte input → read_u64 input = Some (z, rest) → is_u64 z ∧ Forall is_byte rest ∧ (length rest < length input)%nat.
Proof.
  intros Hin Hr. pose proof (read_u64_shorter _ _ _ Hr) as Hlt. unfold read_u64, read_exact in Hr.
  destruct (Nat.leb_spec 8 (length input)); [|done]. cbn [mbind option_bind] in Hr. injection Hr as <- <-.
  pose proof (from_be_bytes_bounds (take 8 input) (Forall_take _ _ _ Hin)) as Hb. rewrite length_take, Nat.min_l in Hb by done.
  change (256 ^ Z.of_nat 8) with 18446744073709551616 in Hb.
  split_and!; [unfold is_u64, u64_max; lia|by apply Forall_drop|done].
Qed.

Lemma device_frame_wf input s d :
  Forall is_byte input → device_wf s →
  ∃ next reply s' d', device_frame input s d = (next, reply, s', d') ∧ device_wf s'
    ∧ match next with inl _ => True | inr rest => Forall is_byte rest ∧ (length rest < length input)%nat end.
Proof.
  intros Hin Hwf. unfold device_frame. destruct input as [|op input]; cbn [read_u8]; [by eauto 10|].
  apply Forall_cons in Hin as [_ Hin]. destruct (read_u64 input) as [[o i1]|] eqn:E1; [|by eauto 10].
  apply read_u64_bytes in E1 as ([Ho _] & Hi1 & Hl1); [|done]. destruct (read_u64 i1) as [[n i2]|] eqn:E2; [|by eauto 10].
  apply read_u64_bytes in E2 as ([Hn _] & Hi2 & Hl2); [|done]. cbn [length].
  destruct (op =? OP_READ).
  { destruct (device_read_wf o n s d Hwf Ho Hn) as (r & d' & ->). destruct r; do 4 eexists; (split; [done|]); (split; [done|]); (split; [done|lia]). }
  destruct (op =? OP_WRITE); [|by eauto 10]. destruct (isize_max <? n); [by eauto 10|]. unfold read_exact.
  destruct (Nat.leb_spec (Z.to_nat n) (length i2)); [|by eauto 10].
  destruct (device_write_wf o (take (Z.to_nat n) i2) s d Hwf Ho) as (r & s' & d' & -> & Hs').
  destruct r; do 4 eexists; (split; [done|]); (split; [done|]); (split; [by apply Forall_drop|rewrite length_drop; lia]).
Qed.

Lemma device_conn_wf fuel input s d :
  Forall is_byte input → device_wf s → (length input < fuel)%nat →
  ∃ reply s' d' e, device_conn fuel input s d = Some (reply, s', d', e) ∧ device_wf s'.
Proof.
  revert input s d. induction fuel as [|fuel IH]; intros input s d Hin Hwf Hf; [lia|]. cbn [device_conn].
  destruct (device_frame_wf input s d Hin Hwf) as (next & reply & s' & d' & -> & Hwf' & Hnext). destruct next as [e|rest]; [by eauto 8|].
  destruct Hnext as [Hr Hl]. destruct (IH rest s' d' Hr Hwf') as (r2 & s2 & d2 & e2 & -> & Hwf2); [lia|]. by eauto 8.
Qed.

(** ** Theorems *)

(** C30 A device segment is a byte memory with a capacity.  Whatever bytes a peer sends and whatever the driver answers, the
    connection ends with the arena well formed and its lock not poisoned; when the driver's calls succeed, any sequence of
    requests the wire can carry is answered exactly as that memory answers: a read beyond the logical length, and a write
    that ends beyond the capacity or overflows, is an error that changes nothing. *)
Theorem serve_device_refines :
  (∀ input s d, Forall is_byte input → device_wf s →
     ∃ reply s' d' e, serve_device input s d = Some (reply, s', d', e) ∧ device_wf s')
  ∧ ∀ ops ord cap m, Forall device_ok ops → cap ≤ isize_max → Z.of_nat (length m) ≤ cap →
      serve_device (mjoin (wire_frame <$> ops)) (device_of ord cap m) []
      = Some ((device_mem_run cap ops m).1, device_of ord cap (device_mem_run cap ops m).2, [], ConnClosed).
Proof.
  split.
  - intros input s d Hin Hwf. apply device_conn_wf; [done..|lia].
  - intros ops ord cap m Hok Hc Hm. apply device_conn_run; [done..|lia].
Qed.

(** A copy between two devices is a read of the one and a write to the other: with the driver succeeding it returns [Ok]
    exactly when the source range is within its length and the destination range within its capacity, the destination then
    holds the source's bytes there, and the source is as before. *)
Theorem peer_copy_is_read_write so do_ n ord1 cap1 m1 ord2 cap2 m2 :
  is_u64 so → is_u64 do_ → is_u64 n → cap1 ≤ isize_max → cap2 ≤ isize_max → Z.of_nat (length m1) ≤ cap1 → Z.of_nat (length m2) ≤ cap2 →
  ∃ r, copy_to_peer false so do_ n (device_of ord1 cap1 m1) (device_of ord2 cap2 m2) []
       = (Done r, (device_of ord1 cap1 m1,
           device_of ord2 cap2 (match mem_read so n m1 with Some bs => if do_ + n <=? cap2 then mem_write do_ bs m2 else m2 | None => m2 end)), [])
     ∧ is_ok r = match mem_read so n m1 with Some _ => do_ + n <=? cap2 | None => false end.
Proof.
  unfold is_u64. intros Hs Hd Hn Hc1 Hc2 Hm1 Hm2. unfold copy_to_peer, mem_read.
  destruct (u64_add so n) as [se|] eqn:Hse.
  2: { unfold u64_add in Hse. case_match; [done|]. zbool. rewrite (proj2 (Z.leb_gt (so + n) _)) by (unfold u64_max, isize_max in *; lia). by eexists. }
  apply u64_add_Some in Hse as [-> _]. destruct (u64_add do_ n) as [de|] eqn:Hde.
  2: { unfold u64_add in Hde. case_match; [done|]. zbool. rewrite (proj2 (Z.leb_gt (do_ + n) _)) by (unfold u64_max, isize_max in *; lia).
       eexists. split; [by case_match|by case_match]. }
  apply u64_add_Some in Hde as [-> _]. cbn [device_of capacity arena_poisoned arena arena_len].
  destruct (Z.ltb_spec cap2 (do_ + n)).
  { rewrite (proj2 (Z.leb_gt (do_ + n) _)) by done. eexists. split; [by case_match|by case_match]. }
  rewrite (proj2 (Z.leb_le (do_ + n) _)) by done. destruct (Z.ltb_spec (Z.of_nat (length m1)) (so + n)).
  { rewrite (proj2 (Z.leb_gt (so + n) _)) by done. by eexists. }
  rewrite (proj2 (Z.leb_le (so + n) _)) by done. set (bs := slice (Z.to_nat so) (Z.to_nat n) m1).
  assert (Z.of_nat (length bs) = n) as Hbs by (unfold bs; rewrite slice_length; lia).
  pose proof (splice_grow do_ bs (Z.to_nat cap2) m2 ltac:(lia) ltac:(lia) ltac:(lia)) as Hsp.
  destruct (Z.ltb_spec 0 n); cbn [negb].
  - unfold view_ok. cbn [hbm]. rewrite !grow_to_length, !(proj2 (Z.leb_le _ _)) by lia. cbn [andb negb next_call].
    replace (slice _ _ (grow_to (Z.to_nat cap1) m1)) with bs.
    2: { unfold bs, slice, grow_to. rewrite drop_app_le by lia. by rewrite take_app_le by (rewrite length_drop; lia). }
    exists (Ok tt). split; [|done]. rewrite Hsp, <- Hbs, grow_len_of by lia. done.
  - exists (Ok tt). split; [|done]. assert (bs = []) as Hnil by (apply length_zero_iff_nil; lia). rewrite Hnil in Hsp |- *.
    replace (do_ + n) with (do_ + Z.of_nat (length (@nil Z))) by (cbn; lia). rewrite grow_len_of by lia. unfold device_of. rewrite <- Hsp. unfold splice. cbn [length app].
    by rewrite Nat.add_0_r, take_drop.
Qed.

(** ** Locks of two copies at once

    [copy_to_peer] locks the source's arena and then the destination's, holding the first.
    A thread is one call on the segments it names, at its place in the locking order. *)

Inductive CopyPhase : Type := WantSrc | WantDst | HoldBoth | Finished.
Record CopyThread : Type := mkCopy { cp_src : nat; cp_dst : nat; cp_phase : CopyPhase }.

Definition lock_held (l : nat) (t : CopyThread) : bool :=
  match cp_phase t with
  | WantSrc | Finished => false
  | WantDst => (cp_src t =? l)%nat
  | HoldBoth => (cp_src t =? l)%nat || (cp_dst t =? l)%nat
  end.
Definition lock_free (l : nat) (ts : list CopyThread) : bool := forallb (λ t, negb (lock_held l t)) ts.

(** Thread [i] takes its next lock, or finishes and releases both. *)
Definition copy_advance (i : nat) (ts : list CopyThread) : option (list CopyThread) :=
  t ← ts !! i;
  let go ph := Some (<[i := mkCopy (cp_src t) (cp_dst t) ph]> ts) in
  match cp_phase t with
  | WantSrc => if lock_free (cp_src t) ts then go WantDst else None
  | WantDst => if lock_free (cp_dst t) ts then go HoldBoth else None
  | HoldBoth => go Finished
  | Finished => None
  end.

Inductive copy_steps : list CopyThread → list CopyThread → Prop :=
| copy_refl ts : copy_steps ts ts
| copy_step ts i ts' ts'' : copy_advance i ts = Some ts' → copy_steps ts' ts'' → copy_steps ts ts''.

Definition stuck (ts : list CopyThread) : Prop :=
  (∃ t, t ∈ ts ∧ cp_phase t ≠ Finished) ∧ ∀ i, copy_advance i ts = None.

(** Two copies in opposite directions can block each other for ever; two copies of the same direction, or a single one,
    never do: some thread can always go on. *)
Theorem opposite_copies_deadlock a b :
  a ≠ b → ∃ ts, copy_steps [mkCopy a b WantSrc; mkCopy b a WantSrc] ts ∧ stuck ts.
Proof.
  intros Hab. exists [mkCopy a b WantDst; mkCopy b a WantDst].
  assert ((a =? b)%nat = false ∧ (b =? a)%nat = false) as [H1 H2] by (split; apply Nat.eqb_neq; done). split.
  - eapply (copy_step _ 0); [done|]. eapply (copy_step _ 1); [|apply copy_refl].
    unfold copy_advance, lock_free. cbn. unfold lock_held. cbn. by rewrite H1.
  - split; [eexists; split; [by left|done]|]. intros [|[|i]]; [..|done]; unfold copy_advance, lock_free, lock_held; cbn;
      by rewrite !Nat.eqb_refl, ?andb_false_r.
Qed.

Lemma same_direction_progress a b p q :
  a ≠ b → copy_steps [mkCopy a b WantSrc; mkCopy a b WantSrc] [mkCopy a b p; mkCopy a b q] → ¬ stuck [mkCopy a b p; mkCopy a b q].
Proof.
  intros Hab Hsteps. assert ((a =? b)%nat = false ∧ (b =? a)%nat = false) as [H1 H2] by (split; apply Nat.eqb_neq; done).
  assert (∀ ts ts', copy_steps ts ts' → ∀ p q, ts = [mkCopy a b p; mkCopy a b q] → (p = WantSrc ∨ p = Finished ∨ q = WantSrc ∨ q = Finished) →
    ∃ p' q', ts' = [mkCopy a b p'; mkCopy a b q'] ∧ (p' = WantSrc ∨ p' = Finished ∨ q' = WantSrc ∨ q' = Finished)) as Hinv.
  { clear Hsteps p q. induction 1 as [ts|ts i ts' ts'' Ha Hs IH]; intros p q -> Hpq; [by eauto|].
    destruct i as [|[|i]]; [..|done]; destruct p, q; unfold copy_advance, lock_free, lock_held in Ha; cbn in Ha;
      rewrite ?Nat.eqb_refl, ?H1, ?H2 in Ha; cbn in Ha; try done; injection Ha as <-; eapply IH; [reflexivity|naive_solver..]. }
  destruct (Hinv _ _ Hsteps WantSrc WantSrc) as (p' & q' & [= -> ->] & Hpq); [done|by left|].
  intros [(t & Ht & Hf) Hst]. pose proof (Hst 0%nat) as H0. pose proof (Hst 1%nat) as H3.
  destruct p', q'; unfold copy_advance, lock_free, lock_held in H0, H3; cbn in H0, H3; rewrite ?Nat.eqb_refl, ?H1, ?H2 in H0; rewrite ?Nat.eqb_refl, ?H1, ?H2 in H3; cbn in H0, H3;
    try done; first [by destruct Hpq as [?|[?|[?|?]]]|apply elem_of_cons in Ht as [->|Ht]; [done|]; apply elem_of_cons in Ht as [->|Ht]; [done|]; by apply not_elem_of_nil in Ht].
Qed.

(** ** Runs *)

Lemma serve_device_refines_witness :
  (* a read of what was written, a read past the length, and a write past the capacity of 8 *)
  serve_device (write_frame 2 [7; 8] ++ read_frame 1 3 ++ read_frame 2 3 ++ write_frame 7 [1; 1] ++ write_frame u64_max [1]) (device_of 0 8 [5]) []
  = Some ([ST_OK] ++ (ST_OK :: be64 3 ++ [0; 7; 8]) ++ [ST_ERR] ++ [ST_ERR] ++ [ST_ERR], device_of 0 8 [5; 0; 7; 8], [], ConnClosed).
Proof.
  exact (proj2 serve_device_refines [WireWrite 2 [7; 8]; WireRead 1 3; WireRead 2 3; WireWrite 7 [1; 1]; WireWrite u64_max [1]] 0 8 [5]
    ltac:(repeat (apply Forall_cons; split); try (by apply Forall_nil); (split; [by split|by vm_compute])) ltac:(by vm_compute) ltac:(by vm_compute)).
Defined.

Lemma peer_copy_is_read_write_witness :
  ∃ r, copy_to_peer false 1 3 2 (device_of 0 4 [1; 2; 3]) (device_of 1 8 [9]) []
       = (Done r, (device_of 0 4 [1; 2; 3], device_of 1 8 [9; 0; 0; 2; 3]), []) ∧ is_ok r = true.
Proof.
  exact (peer_copy_is_read_write 1 3 2 0 4 [1; 2; 3] 1 8 [9] ltac:(by split) ltac:(by split) ltac:(by split) ltac:(by vm_compute) ltac:(by vm_compute)
    ltac:(by vm_compute) ltac:(by vm_compute)).
Defined.

Lemma opposite_copies_deadlock_witness : ∃ ts, copy_steps [mkCopy 0 1 WantSrc; mkCopy 1 0 WantSrc] ts ∧ stuck ts.
Proof. exact (opposite_copies_deadlock 0 1 ltac:(done)). Defined.

(** A host-side failure of a write leaves the length but not the bytes: what a copy that fails put in range is served. *)
Lemma failed_write_changes_bytes :
  device_read 0 1 (device_write 0 [7] (device_of 0 4 [5]) [DrvFail "CUDA_ERROR_UNKNOWN" (λ _, 9)]).1.2 [] = (Done (Ok [9]), device_of 0 4 [9], []).
Proof. vm_compute. reflexivity. Qed.
