(* ===== verification/Rdma.v ===== *)
(** * The RDMA backend

    crates/quillcache-transfer-engine/src/transport/rdma.rs with its feature on: queue pairs
    and their handshake over a side channel, the registered segment, one-sided operations,
    and the transport over the pool of connections.

    The verbs library and the adapter are outside the repository.  A verbs call takes the
    next of a list of results (past its end calls succeed with the value 0, so a poll of the
    completion queue then finds the completion); the handles a process holds are counted,
    for no destructor frees a raw one.  What the adapter does with a request is the class
    [Hca], whose laws are the documented behaviour of reliable connections.  The two ends of
    a handshake alternate, so [connect] runs them as one function. *)
From stdpp Require Import pretty.
From S2P Require Import Prelude F64 Identity ShardedMap Router RouterPlan TransferTypes EndpointStore TcpTransport.

(** ** Queue pairs on the wire *)

Definition be32 (z : Z) : list Z := be_bytes 4 z.

Record QpEndpoint : Type := mkQpEndpoint { qe_qpn : Z; qe_psn : Z; qe_gid : list Z }.

Definition endpoint_to_bytes (ep : QpEndpoint) : list Z := be32 (qe_qpn ep) ++ be32 (qe_psn ep) ++ qe_gid ep.
Definition endpoint_from_bytes (b : list Z) : QpEndpoint :=
  mkQpEndpoint (from_be_bytes (slice 0 4 b)) (from_be_bytes (slice 4 4 b)) (slice 8 16 b).

(** ** The verbs library *)

Inductive VerbReply : Type := VOk (value : Z) | VFail (rc errno : Z).

Record Handles : Type := mkHandles { open_ctx : Z; open_pd : Z; open_cq : Z; open_qp : Z; open_mr : Z }.
Definition no_handles : Handles := mkHandles 0 0 0 0 0.
Definition plus_handles (a b : Handles) : Handles :=
  mkHandles (open_ctx a + open_ctx b) (open_pd a + open_pd b) (open_cq a + open_cq b) (open_qp a + open_qp b) (open_mr a + open_mr b).
Definition one_ctx : Handles := mkHandles 1 0 0 0 0.
Definition one_pd : Handles := mkHandles 0 1 0 0 0.
Definition one_cq : Handles := mkHandles 0 0 1 0 0.
Definition one_qp : Handles := mkHandles 0 0 0 1 0.
Definition one_mr : Handles := mkHandles 0 0 0 0 1.
Definition minus_handles (a b : Handles) : Handles :=
  mkHandles (open_ctx a - open_ctx b) (open_pd a - open_pd b) (open_cq a - open_cq b) (open_qp a - open_qp b) (open_mr a - open_mr b).

Inductive QpState : Type := QPS_RESET | QPS_INIT | QPS_RTR | QPS_RTS | QPS_ERR.
#[global] Instance qp_state_eq_dec : EqDecision QpState.
Proof. solve_decision. Defined.

Record Qp : Type := mkQp { qp_num : Z; qp_state : QpState; dest_qpn : Z; rq_psn : Z; dgid : list Z; sq_psn : Z }.

(** A process's view of its adapter. *)
Record Verbs : Type := mkVerbs { vb_replies : list VerbReply; vb_handles : Handles; vb_qps : gmap Z Qp }.

Class VerbsLib : Type := {
  device_list : list string;
  (** the address at an index of a device's table: sixteen bytes *)
  gid_table : string → Z → option (list Z);
  gid_table_length d i g : gid_table d i = Some g → length g = 16%nat;
  (** the text of [JoinError] for a task that panicked *)
  join_panicked : string
}.

(** Calls that may fail with a message: [Result<A, String>] over the adapter. *)
Definition V (A : Type) : Type := Verbs → result string A * Verbs.
#[global] Instance V_ret : MRet V := λ A a v, (Ok a, v).
#[global] Instance V_bind : MBind V := λ A B k m v, match m v with (Ok a, v) => k a v | (Err e, v) => (Err e, v) end.
Definition fail {A} (e : string) : V A := λ v, (Err e, v).

Definition next_reply (v : Verbs) : VerbReply * Verbs :=
  match vb_replies v with
  | [] => (VOk 0, v)
  | r :: rs => (r, mkVerbs rs (vb_handles v) (vb_qps v))
  end.

Definition acquire (h : Handles) (v : Verbs) : Verbs := mkVerbs (vb_replies v) (plus_handles (vb_handles v) h) (vb_qps v).
Definition release_handles (h : Handles) (v : Verbs) : Verbs := mkVerbs (vb_replies v) (minus_handles (vb_handles v) h) (vb_qps v).
Definition set_qps (f : gmap Z Qp → gmap Z Qp) (v : Verbs) : Verbs := mkVerbs (vb_replies v) (vb_handles v) (f (vb_qps v)).

(** A call that creates a handle; the value is what the library chose (a number or a key). *)
Definition create (h : Handles) (e : string) : V Z := λ v,
  match next_reply v with
  | (VOk x, v) => (Ok x, acquire h v)
  | (VFail _ _, v) => (Err e, v)
  end.

Section verbs.
Context `{VerbsLib}.

Definition PORT : Z := 1.
Definition GID_INDEX : Z := 1.
Definition dquote : string := String (Ascii.ascii_of_nat 34) EmptyString.

(** [open_device(Some(name))]. *)
Definition open_device (name : string) : V unit :=
  (if decide (device_list = []) then fail "no RDMA devices (is rxe0 up? `rdma link show`)"
   else if decide (name ∈ device_list) then _ ← create one_ctx "ibv_open_device failed"; mret tt
   else fail ("RDMA device Some(" +:+ dquote +:+ name +:+ dquote +:+ ") not found")%string).

Definition query_gid (device : string) (gid_index : Z) : V (list Z) :=
  match gid_table device gid_index with
  | Some g => mret g
  | None => fail ("ibv_query_gid(port=" +:+ pretty PORT +:+ ", index=" +:+ pretty gid_index +:+ ") failed")%string
  end.

Definition create_rc_qp : V Z := λ v,
  match create one_qp "ibv_create_qp failed" v with
  | (Ok n, v) => (Ok n, set_qps <[n := mkQp n QPS_RESET 0 0 [] 0]> v)
  | (Err e, v) => (Err e, v)
  end.

Definition modify_qp (qpn : Z) (what : string) (f : Qp → Qp) : V unit := λ v,
  match next_reply v with
  | (VOk _, v) => (Ok tt, set_qps (alter f qpn) v)
  | (VFail _ errno, v) => (Err ("modify_qp " +:+ what +:+ " failed errno=" +:+ pretty errno)%string, v)
  end.

(** INIT, ready to receive from [remote], ready to send. *)
Definition connect_qp (qpn local_psn : Z) (remote : QpEndpoint) : V unit :=
  _ ← modify_qp qpn "INIT" (λ q, mkQp (qp_num q) QPS_INIT (dest_qpn q) (rq_psn q) (dgid q) (sq_psn q));
  _ ← modify_qp qpn "RTR" (λ q, mkQp (qp_num q) QPS_RTR (qe_qpn remote) (qe_psn remote) (qe_gid remote) (sq_psn q));
  modify_qp qpn "RTS" (λ q, mkQp (qp_num q) QPS_RTS (dest_qpn q) (rq_psn q) (dgid q) local_psn).

Definition destroy_qp (qpn : Z) (v : Verbs) : Verbs := release_handles one_qp (set_qps (delete qpn) v).

(** ** The registered segment *)

Record RdmaSegment : Type := mkRdmaSegment {
  rs_addr : Z;       (* [buf as u64] *)
  rs_rkey : Z;       (* the key of [mr] *)
  rs_mem : list Z;   (* the bytes behind [buf] *)
  rs_capacity : Z;
  rs_len : Z;
  rs_gid : list Z
}.

(** [RdmaSegment::new]: the library registers the buffer at [addr], where the allocator put it. *)
Definition segment_new (device : string) (capacity addr : Z) : V RdmaSegment :=
  _ ← open_device device;
  _ ← create one_pd "ibv_alloc_pd failed";
  gid ← query_gid device GID_INDEX;
  rkey ← create one_mr "ibv_reg_mr failed";
  mret (mkRdmaSegment addr rkey (replicate (Z.to_nat capacity) 0) capacity 0 gid).

Definition segment_register (data : list Z) (s : RdmaSegment) : result string Z * RdmaSegment :=
  if rs_capacity s <? Z.of_nat (length data) then (Err "data exceeds segment capacity", s)
  else (Ok 0, mkRdmaSegment (rs_addr s) (rs_rkey s) (splice 0 data (rs_mem s)) (rs_capacity s) (Z.of_nat (length data)) (rs_gid s)).

Definition segment_read (offset len : Z) (s : RdmaSegment) : result string (list Z) :=
  match u64_add offset len with
  | Some e => if rs_capacity s <? e then Err "read out of segment bounds" else Ok (slice (Z.to_nat offset) (Z.to_nat len) (rs_mem s))
  | None => Err "read out of segment bounds"
  end.

Definition set_mem (m : list Z) (s : RdmaSegment) : RdmaSegment :=
  mkRdmaSegment (rs_addr s) (rs_rkey s) m (rs_capacity s) (rs_len s) (rs_gid s).

(** [Drop for RdmaSegment]. *)
Definition segment_drop (v : Verbs) : Verbs := release_handles one_ctx (release_handles one_pd (release_handles one_mr v)).

(** The 44 bytes: endpoint, address, key, capacity. *)
Definition server_hello (qpn : Z) (s : RdmaSegment) : list Z :=
  endpoint_to_bytes (mkQpEndpoint qpn 0 (rs_gid s)) ++ be64 (rs_addr s) ++ be32 (rs_rkey s) ++ be64 (rs_capacity s).

(** [serve_one] up to its wait: the bytes it sent, and the queue pair it waits with or its error.  [input] is what
    the client sent before it closed or waits. *)
Definition serve_one `{IoMessages} (s : RdmaSegment) (input : list Z) (v : Verbs) : list Z * result string Z * Verbs :=
  match (_ ← create one_cq "ibv_create_cq failed"; create_rc_qp) v with
  | (Err e, v) => ([], Err e, v)
  | (Ok qpn, v) =>
      match read_exact 24 input with
      | None => ([], Err unexpected_eof, v)
      | Some (cbuf, _) =>
          let client := endpoint_from_bytes cbuf in
          let sbuf := server_hello qpn s in
          match connect_qp qpn 0 client v with
          | (Err e, v) => (sbuf, Err e, v)
          | (Ok _, v) => (sbuf ++ [1], Ok qpn, v)
          end
      end
  end.
(** The rest of [serve_one], once the client signals or closes. *)
Definition serve_one_end (qpn : Z) (v : Verbs) : Verbs := release_handles one_cq (destroy_qp qpn v).
End verbs.

(** ** The adapter *)

Inductive WrOpcode : Type := RDMA_WRITE | RDMA_READ.

(** The two ends of a reliable connection. *)
Definition paired (q p : Qp) : Prop :=
  qp_state q = QPS_RTS ∧ qp_state p = QPS_RTS ∧ dest_qpn q = qp_num p ∧ dest_qpn p = qp_num q
  ∧ rq_psn q = sq_psn p ∧ rq_psn p = sq_psn q.

(** The range of [n] bytes at [addr] is in the region of the segment, and the key is its key. *)
Definition in_region (s : RdmaSegment) (addr rkey n : Z) : Prop :=
  rkey = rs_rkey s ∧ rs_addr s ≤ addr ∧ addr + n ≤ rs_addr s + rs_capacity s.

(** The longest message of a reliable connection. *)
Definition max_message : Z := 2 ^ 31.

(** A request on queue pair [q], whose other end is [peer]: the state of [q] after it, and the status of its completion
    or the two memories after it (the segment's, and the local buffer of the request). *)
Class Hca : Type := {
  hca_execute : WrOpcode → Qp → option (Qp * RdmaSegment) → Z → Z → list Z → Qp * result (Z * Z) (list Z * list Z);
  hca_write q p s addr rkey data :
    paired q p → in_region s addr rkey (Z.of_nat (length data)) → Z.of_nat (length data) ≤ max_message →
    hca_execute RDMA_WRITE q (Some (p, s)) addr rkey data = (q, Ok (splice (Z.to_nat (addr - rs_addr s)) data (rs_mem s), data));
  hca_read q p s addr rkey data :
    paired q p → in_region s addr rkey (Z.of_nat (length data)) → Z.of_nat (length data) ≤ max_message →
    hca_execute RDMA_READ q (Some (p, s)) addr rkey data = (q, Ok (rs_mem s, slice (Z.to_nat (addr - rs_addr s)) (length data) (rs_mem s)));
  (** a range or key that is not the region's is refused, and the queue pair enters the error state *)
  hca_refused op q p s addr rkey data :
    0 < Z.of_nat (length data) → ¬ in_region s addr rkey (Z.of_nat (length data)) → qp_state q = QPS_RTS →
    ∃ status, hca_execute op q (Some (p, s)) addr rkey data = (mkQp (qp_num q) QPS_ERR (dest_qpn q) (rq_psn q) (dgid q) (sq_psn q), Err status);
  (** in the error state every request is flushed with an error *)
  hca_flushed op q peer addr rkey data :
    qp_state q = QPS_ERR → ∃ status, hca_execute op q peer addr rkey data = (q, Err status)
}.

(** ** Connections *)

Record RdmaServer : Type := mkRdmaServer { sv_segment : RdmaSegment; sv_verbs : Verbs }.

(** The client's adapter and the nodes reachable by their side-channel address. *)
Record RdmaNet : Type := mkRdmaNet { rn_local : Verbs; rn_servers : gmap string RdmaServer }.

(** [rc_peer] is the node at the other end of [stream]. *)
Record RdmaConnection : Type := mkRdmaConnection { rc_qpn : Z; rc_peer : string; server_addr : Z; server_rkey : Z }.

Definition with_local (v : Verbs) (n : RdmaNet) : RdmaNet := mkRdmaNet v (rn_servers n).
Definition with_server (e : string) (sv : RdmaServer) (n : RdmaNet) : RdmaNet := mkRdmaNet (rn_local n) (<[e := sv]> (rn_servers n)).

(** Polls of the completion queue that find nothing are repeated: whether the completion is found, and the results left. *)
Fixpoint poll_cq (rs : list VerbReply) : bool * list VerbReply :=
  match rs with
  | [] => (true, [])
  | VOk n :: rs => if n =? 0 then poll_cq rs else (true, rs)
  | VFail _ _ :: rs => (false, rs)
  end.

Section connections.
Context `{VerbsLib, Hca, IoMessages}.

(** The client's part of [connect] before it sends its endpoint. *)
Definition connect_open (device : string) (gid_index : Z) : V (Z * list Z) :=
  _ ← open_device device;
  _ ← create one_pd "ibv_alloc_pd failed";
  gid ← query_gid device gid_index;
  _ ← create one_cq "ibv_create_cq failed";
  qpn ← create_rc_qp;
  mret (qpn, gid).

(** [read_exact] of the 44 bytes, the connection, and of the byte that says the server is ready. *)
Definition connect_finish (endpoint : string) (qpn : Z) (received : list Z) : V RdmaConnection :=
  match read_exact 44 received with
  | None => fail unexpected_eof
  | Some (sbuf, received) =>
      let server := endpoint_from_bytes (slice 0 24 sbuf) in
      let addr := from_be_bytes (slice 24 8 sbuf) in
      let rkey := from_be_bytes (slice 32 4 sbuf) in
      _ ← connect_qp qpn 0 server;
      match read_exact 1 received with
      | None => fail unexpected_eof
      | Some _ => mret (mkRdmaConnection qpn endpoint addr rkey)
      end
  end.

(** [RdmaConnection::connect] and the server's thread for it.  When the client gives up its stream closes, and a server
    that waits with its queue pair frees it. *)
Definition connect (endpoint device : string) (gid_index : Z) (n : RdmaNet) : result string RdmaConnection * RdmaNet :=
  match rn_servers n !! endpoint with
  | None => (Err connection_refused, n)
  | Some sv =>
      match connect_open device gid_index (rn_local n) with
      | (Err e, v) =>
          let '(_, _, w) := serve_one (sv_segment sv) [] (sv_verbs sv) in
          (Err e, with_server endpoint (mkRdmaServer (sv_segment sv) w) (with_local v n))
      | (Ok (qpn, gid), v) =>
          let '(sent, r, w) := serve_one (sv_segment sv) (endpoint_to_bytes (mkQpEndpoint qpn 0 gid)) (sv_verbs sv) in
          match connect_finish endpoint qpn sent v with
          | (Ok conn, v) => (Ok conn, with_server endpoint (mkRdmaServer (sv_segment sv) w) (with_local v n))
          | (Err e, v) =>
              let w := match r with Ok sqpn => serve_one_end sqpn w | Err _ => w end in
              (Err e, with_server endpoint (mkRdmaServer (sv_segment sv) w) (with_local v n))
          end
      end
  end.

(** The other end of the connection of a queue pair. *)
Definition peer_of (q : Qp) (peer : string) (n : RdmaNet) : option (Qp * RdmaSegment) :=
  sv ← rn_servers n !! peer; p ← vb_qps (sv_verbs sv) !! dest_qpn q; Some (p, sv_segment sv).

Definition post_and_wait (op : WrOpcode) (qpn : Z) (peer : string) (local : list Z) (remote_addr rkey : Z) (n : RdmaNet)
    : result string (list Z) * RdmaNet :=
  match next_reply (rn_local n) with
  | (VFail rc errno, v) => (Err ("ibv_post_send rc=" +:+ pretty rc +:+ " errno=" +:+ pretty errno)%string, with_local v n)
  | (VOk _, v) =>
      match vb_qps v !! qpn with
      | None => (Err "ibv_poll_cq failed", with_local v n)
      | Some q =>
          let '(q, r) := hca_execute op q (peer_of q peer n) remote_addr rkey local in
          let '(found, rs) := poll_cq (vb_replies v) in
          let n := with_local (mkVerbs rs (vb_handles v) (<[qpn := q]> (vb_qps v))) n in
          let n := match r, rn_servers n !! peer with
                   | Ok (mem, _), Some sv => with_server peer (mkRdmaServer (set_mem mem (sv_segment sv)) (sv_verbs sv)) n
                   | _, _ => n
                   end in
          if found then
            match r with
            | Ok (_, local) => (Ok local, n)
            | Err (status, vendor) => (Err ("RDMA op failed: wc.status=" +:+ pretty status +:+ " vendor_err=" +:+ pretty vendor)%string, n)
            end
          else (Err "ibv_poll_cq failed", n)
      end
  end.

(** [buf.len() as u32]. *)
Definition len_u32 (z : Z) : Z := z mod 2 ^ 32.

(** One operation: the buffer after it.  [server_addr + offset] panics where it overflows. *)
Definition conn_op (op : WrOpcode) (buf : list Z) (offset : Z) (c : RdmaConnection) (n : RdmaNet) : outcome (result string (list Z)) * RdmaNet :=
  match create one_mr "ibv_reg_mr failed" (rn_local n) with
  | (Err e, v) => (Done (Err e), with_local v n)
  | (Ok _, v) =>
      match u64_add (server_addr c) offset with
      | None => (Panic, with_local v n)
      | Some addr =>
          let len := Z.to_nat (len_u32 (Z.of_nat (length buf))) in
          let '(r, n) := post_and_wait op (rc_qpn c) (rc_peer c) (take len buf) addr (server_rkey c) (with_local v n) in
          (Done (match r with Ok moved => Ok (moved ++ drop len buf) | Err e => Err e end), with_local (release_handles one_mr (rn_local n)) n)
      end
  end.

Definition conn_write (offset : Z) (data : list Z) (c : RdmaConnection) (n : RdmaNet) : outcome (result string unit) * RdmaNet :=
  match conn_op RDMA_WRITE data offset c n with
  | (Panic, n) => (Panic, n)
  | (Done (Ok _), n) => (Done (Ok tt), n)
  | (Done (Err e), n) => (Done (Err e), n)
  end.

Definition conn_read (offset len : Z) (c : RdmaConnection) (n : RdmaNet) : outcome (result string (list Z)) * RdmaNet :=
  if isize_max <? len then (Panic, n) else conn_op RDMA_READ (replicate (Z.to_nat len) 0) offset c n.

(** [Drop for RdmaConnection], and the server's thread that it wakes. *)
Definition conn_drop (c : RdmaConnection) (n : RdmaNet) : RdmaNet :=
  let sqpn := dest_qpn <$> vb_qps (rn_local n) !! rc_qpn c in
  let n' := with_local (release_handles one_ctx (release_handles one_pd (release_handles one_cq (destroy_qp (rc_qpn c) (rn_local n))))) n in
  match rn_servers n !! rc_peer c, sqpn with
  | Some sv, Some q => with_server (rc_peer c) (mkRdmaServer (sv_segment sv) (serve_one_end q (sv_verbs sv))) n'
  | _, _ => n'
  end.

(** [rdma_write] and [rdma_read]: a connection for one operation. *)
Definition one_shot {A} (endpoint device : string) (gid_index : Z) (body : RdmaConnection → RdmaNet → outcome (result string A) * RdmaNet) (n : RdmaNet)
    : outcome (result string A) * RdmaNet :=
  match connect endpoint device gid_index n with
  | (Err e, n) => (Done (Err e), n)
  | (Ok c, n) => let '(r, n) := body c n in (r, conn_drop c n)
  end.
Definition rdma_write (endpoint : string) (offset : Z) (data : list Z) (device : string) (gid_index : Z) : RdmaNet → outcome (result string unit) * RdmaNet :=
  one_shot endpoint device gid_index (conn_write offset data).
Definition rdma_read (endpoint : string) (offset len : Z) (device : string) (gid_index : Z) : RdmaNet → outcome (result string (list Z)) * RdmaNet :=
  one_shot endpoint device gid_index (conn_read offset len).

(** ** The transport over the pool *)


(** The transport with its pool, the connections whose mutex is poisoned, the handles other transfers hold, the next
    allocation address, and the network. *)
Record RdmaWorld : Type := mkRdmaWorld {
  rw_device : string; rw_gid_index : Z;
  rw_pool : EndpointStore RdmaConnection; rw_pool_poisoned : bool;
  rw_poisoned : gset Z; rw_held : list (Arc RdmaConnection); rw_fresh : Z; rw_net : RdmaNet }.


Definition set_net (n : RdmaNet) (w : RdmaWorld) : RdmaWorld :=
  mkRdmaWorld (rw_device w) (rw_gid_index w) (rw_pool w) (rw_pool_poisoned w) (rw_poisoned w) (rw_held w) (rw_fresh w) n.

(** The connections whose last handle went away between two stores. *)
Definition dropped_conns (held : list (Arc RdmaConnection)) (s s' : EndpointStore RdmaConnection) : list (Arc RdmaConnection) :=
  filter (λ a, owners a (map_arcs (ep_map s') ++ waiting s' ++ held) = 0%nat) (map_arcs (ep_map s) ++ waiting s).

Definition pool_connect (endpoint : string) (w : RdmaWorld) : result string (Arc RdmaConnection) * RdmaWorld :=
  if rw_pool_poisoned w then (Err "rdma pool poisoned", w)
  else
    let '(made, n) := match ep_map (rw_pool w) !! endpoint with
                      | Some _ => (Err "", rw_net w)
                      | None => connect endpoint (rw_device w) (rw_gid_index w) (rw_net w)
                      end in
    match get_or_insert (rw_held w) (rw_fresh w) endpoint (λ _, made) (rw_pool w) with
    | None => (Err join_panicked, mkRdmaWorld (rw_device w) (rw_gid_index w) (rw_pool w) true (rw_poisoned w) (rw_held w) (rw_fresh w) n)
    | Some (r, s) =>
        let n := foldl (λ n a, conn_drop (arc_val a) n) n (dropped_conns (rw_held w) (rw_pool w) s) in
        (r, mkRdmaWorld (rw_device w) (rw_gid_index w) s (rw_pool_poisoned w) (rw_poisoned w) (rw_held w) (rw_fresh w + 1) n)
    end.

(** The body of the blocking task: a panic in it poisons the connection and is a join error. *)
Definition with_conn {A} (endpoint : string) (body : RdmaConnection → RdmaNet → outcome (result string A) * RdmaNet) (w : RdmaWorld)
    : outcome (result TransferError A) * RdmaWorld :=
  match pool_connect endpoint w with
  | (Err e, w) => (Done (Err (TeIo e)), w)
  | (Ok a, w) =>
      if decide (arc_id a ∈ rw_poisoned w) then (Done (Err (TeIo "rdma conn poisoned")), w)
      else match body (arc_val a) (rw_net w) with
           | (Done (Ok x), n) => (Done (Ok x), set_net n w)
           | (Done (Err e), n) => (Done (Err (TeIo e)), set_net n w)
           | (Panic, n) =>
               (Done (Err (TeIo join_panicked)),
                mkRdmaWorld (rw_device w) (rw_gid_index w) (rw_pool w) (rw_pool_poisoned w) ({[arc_id a]} ∪ rw_poisoned w) (rw_held w) (rw_fresh w) n)
           end
  end.

Definition rdma_read_remote (endpoint : string) (offset len : Z) : RdmaWorld → outcome (result TransferError (list Z)) * RdmaWorld :=
  with_conn endpoint (conn_read offset len).
Definition rdma_write_remote (endpoint : string) (offset : Z) (data : list Z) : RdmaWorld → outcome (result TransferError unit) * RdmaWorld :=
  with_conn endpoint (conn_write offset data).

Definition rdma_transport : Transport RdmaWorld := mkTransport "rdma" RdmaRoce rdma_read_remote rdma_write_remote.
End connections.

(** ** The wire *)






Definition segment_wf (s : RdmaSegment) : Prop :=
  is_u32 (rs_rkey s) ∧ length (rs_gid s) = 16%nat ∧ 0 ≤ rs_addr s ∧ 0 ≤ rs_capacity s ∧ rs_addr s + rs_capacity s ≤ u64_max
  ∧ Z.of_nat (length (rs_mem s)) = rs_capacity s.



(** ** Calls that succeed *)

Definition calls_ok (v : Verbs) : Prop := Forall (λ r, ∃ x, r = VOk x ∧ is_u32 x) (vb_replies v).

Lemma next_reply_ok v :
  calls_ok v → ∃ x v', next_reply v = (VOk x, v') ∧ is_u32 x ∧ calls_ok v' ∧ vb_handles v' = vb_handles v ∧ vb_qps v' = vb_qps v.
Proof.
  destruct v as [[|r rs] h q]; unfold calls_ok; cbn; intros Hv.
  { exists 0. eexists. split; [done|]. split; [by vm_compute|]. done. }
  apply Forall_cons in Hv as [(x & -> & Hx) Hv]. do 2 eexists. split; [done|]. by split_and!.
Qed.

Lemma create_ok h e v :
  calls_ok v → ∃ x v', create h e v = (Ok x, v') ∧ is_u32 x ∧ calls_ok v' ∧ vb_handles v' = plus_handles (vb_handles v) h ∧ vb_qps v' = vb_qps v.
Proof. intros Hv. unfold create. destruct (next_reply_ok v Hv) as (x & v' & -> & Hx & Hv' & Hh & Hq). do 2 eexists. split; [done|]. cbn. by rewrite Hh. Qed.

Lemma modify_qp_ok qpn what f v :
  calls_ok v → ∃ v', modify_qp qpn what f v = (Ok tt, v') ∧ calls_ok v' ∧ vb_handles v' = vb_handles v ∧ vb_qps v' = alter f qpn (vb_qps v).
Proof. intros Hv. unfold modify_qp. destruct (next_reply_ok v Hv) as (x & v' & -> & Hx & Hv' & Hh & Hq). eexists. split; [done|]. cbn. by rewrite Hq. Qed.

Lemma create_rc_qp_ok v :
  calls_ok v → ∃ n v', create_rc_qp v = (Ok n, v') ∧ is_u32 n ∧ calls_ok v' ∧ vb_handles v' = plus_handles (vb_handles v) one_qp
                       ∧ vb_qps v' = <[n := mkQp n QPS_RESET 0 0 [] 0]> (vb_qps v).
Proof.
  intros Hv. unfold create_rc_qp. destruct (create_ok one_qp "ibv_create_qp failed" v Hv) as (x & v' & -> & Hx & Hv' & Hh & Hq).
  do 2 eexists. split; [done|]. cbn. by rewrite Hq.
Qed.

Lemma connect_qp_ok qpn psn remote v q :
  calls_ok v → vb_qps v !! qpn = Some q →
  ∃ v', connect_qp qpn psn remote v = (Ok tt, v') ∧ calls_ok v' ∧ vb_handles v' = vb_handles v
        ∧ vb_qps v' = <[qpn := mkQp (qp_num q) QPS_RTS (qe_qpn remote) (qe_psn remote) (qe_gid remote) psn]> (vb_qps v).
Proof.
  intros Hv Hq. unfold connect_qp, mbind, V_bind.
  edestruct (modify_qp_ok qpn "INIT") as (v1 & -> & Hv1 & Hh1 & Hq1); [exact Hv|].
  edestruct (modify_qp_ok qpn "RTR") as (v2 & -> & Hv2 & Hh2 & Hq2); [exact Hv1|].
  edestruct (modify_qp_ok qpn "RTS") as (v3 & -> & Hv3 & Hh3 & Hq3); [exact Hv2|].
  exists v3. split_and!; [done|done|congruence|]. rewrite Hq3, Hq2, Hq1. apply map_eq. intros i. destruct (decide (i = qpn)) as [->|Hi].
  - by rewrite !lookup_alter_eq, lookup_insert_eq, Hq.
  - by rewrite !lookup_alter_ne, lookup_insert_ne.
Qed.

(** ** The handshake *)

Section handshake.
Context `{VerbsLib, Hca, IoMessages}.

Definition client_handles : Handles := mkHandles 1 1 1 1 0.
Definition server_handles : Handles := mkHandles 0 0 1 1 0.




(** The connection reaches the segment of [sv]: both queue pairs name each other, and the client has the region's address and key. *)
Definition linked (c : RdmaConnection) (sv : RdmaServer) (n : RdmaNet) : Prop :=
  rn_servers n !! rc_peer c = Some sv ∧ segment_wf (sv_segment sv)
  ∧ server_addr c = rs_addr (sv_segment sv) ∧ server_rkey c = rs_rkey (sv_segment sv)
  ∧ ∃ q p, vb_qps (rn_local n) !! rc_qpn c = Some q ∧ vb_qps (sv_verbs sv) !! dest_qpn q = Some p ∧ paired q p.

End handshake.

(** ** Operations on a connection *)

Lemma poll_cq_ok rs : Forall (λ r, ∃ x, r = VOk x ∧ is_u32 x) rs → ∃ rs', poll_cq rs = (true, rs') ∧ Forall (λ r, ∃ x, r = VOk x ∧ is_u32 x) rs'.
Proof. induction 1 as [|r rs (x & -> & Hx) Hrs IH]; cbn; [by eexists|]. destruct (x =? 0); [done|by eexists]. Qed.

Lemma minus_plus_handles a h : minus_handles (plus_handles a h) h = a.
Proof. destruct a, h. unfold minus_handles, plus_handles. cbn. f_equal; lia. Qed.

(** What an operation of [k] bytes leaves in the segment's memory and in the buffer. *)
Definition op_result (op : WrOpcode) (offset : nat) (local mem : list Z) : list Z * list Z :=
  match op with
  | RDMA_WRITE => (splice offset local mem, local)
  | RDMA_READ => (mem, slice offset (length local) mem)
  end.

Lemma op_result_length op offset local mem :
  (offset + length local ≤ length mem)%nat → length (op_result op offset local mem).1 = length mem ∧ length (op_result op offset local mem).2 = length local.
Proof. intros Hle. destruct op; cbn; [by rewrite splice_length|by rewrite slice_length]. Qed.

Section operations.
Context `{VerbsLib, Hca, IoMessages}.

(** A request in range on a linked connection, with the adapter's calls succeeding. *)
Lemma post_and_wait_ok op local offset c sv n :
  linked c sv n → calls_ok (rn_local n) → 0 ≤ offset → offset + Z.of_nat (length local) ≤ rs_capacity (sv_segment sv) →
  Z.of_nat (length local) ≤ max_message →
  let res := op_result op (Z.to_nat offset) local (rs_mem (sv_segment sv)) in
  let sv' := mkRdmaServer (set_mem res.1 (sv_segment sv)) (sv_verbs sv) in
  ∃ n', post_and_wait op (rc_qpn c) (rc_peer c) local (server_addr c + offset) (server_rkey c) n = (Ok res.2, n')
    ∧ linked c sv' n' ∧ calls_ok (rn_local n') ∧ rn_servers n' = <[rc_peer c := sv']> (rn_servers n)
    ∧ vb_handles (rn_local n') = vb_handles (rn_local n).
Proof.
  intros (Hsv & Hwf & Ha & Hk & q & p & Hq & Hp & Hpair) Hv Ho Hle Hmax res sv'. unfold post_and_wait.
  destruct (next_reply_ok _ Hv) as (x & v & -> & _ & Hv' & Hh & Hqs). rewrite Hqs, Hq.
  assert (peer_of q (rc_peer c) n = Some (p, sv_segment sv)) as -> by (unfold peer_of; rewrite Hsv; cbn; by rewrite Hp).
  assert (hca_execute op q (Some (p, sv_segment sv)) (server_addr c + offset) (server_rkey c) local = (q, Ok res)) as ->.
  { assert (in_region (sv_segment sv) (server_addr c + offset) (server_rkey c) (Z.of_nat (length local))) as Hin by (split_and!; [done|lia..]).
    unfold res. replace offset with (server_addr c + offset - rs_addr (sv_segment sv)) at 2 by lia.
    destruct op; cbn [op_result]; [by apply (hca_write q p)|by apply (hca_read q p)]. }
  destruct (poll_cq_ok _ Hv') as (rs & -> & Hrs). destruct res as [mem loc] eqn:Eres. cbn [rn_servers with_local]. rewrite Hsv.
  eexists. split; [reflexivity|]. cbn. split_and!; try done. unfold linked. cbn. rewrite lookup_insert_eq. split_and!; try done.
  - destruct Hwf as (? & ? & ? & ? & ? & Hlen). split_and!; try done. cbn.
    destruct (op_result_length op (Z.to_nat offset) local (rs_mem (sv_segment sv))) as [Hl _]; [lia|]. fold res in Hl. rewrite Eres in Hl. cbn in Hl. lia.
  - exists q, p. by rewrite lookup_insert_eq.
Qed.

Lemma conn_op_ok op buf offset c sv n :
  let k := Z.to_nat (len_u32 (Z.of_nat (length buf))) in
  linked c sv n → calls_ok (rn_local n) → 0 ≤ offset → offset + Z.of_nat k ≤ rs_capacity (sv_segment sv) → Z.of_nat k ≤ max_message →
  let res := op_result op (Z.to_nat offset) (take k buf) (rs_mem (sv_segment sv)) in
  let sv' := mkRdmaServer (set_mem res.1 (sv_segment sv)) (sv_verbs sv) in
  ∃ n', conn_op op buf offset c n = (Done (Ok (res.2 ++ drop k buf)), n')
    ∧ linked c sv' n' ∧ calls_ok (rn_local n') ∧ rn_servers n' = <[rc_peer c := sv']> (rn_servers n)
    ∧ vb_handles (rn_local n') = vb_handles (rn_local n).
Proof.
  intros k Hl Hv Ho Hle Hmax res sv'. unfold conn_op. destruct (create_ok one_mr "ibv_reg_mr failed" _ Hv) as (x & v & -> & _ & Hv' & Hh & Hqs).
  destruct (id Hl) as (_ & (_ & _ & _ & _ & Hmem & _) & Ha & _). rewrite u64_add_ok by lia. fold k.
  assert (length (take k buf) = k) as Hlen.
  { rewrite length_take. assert (len_u32 (Z.of_nat (length buf)) ≤ Z.of_nat (length buf)) by (apply Z.mod_le; lia).
    pose proof (Z.mod_pos_bound (Z.of_nat (length buf)) (2 ^ 32) ltac:(lia)). unfold k, len_u32 in *. lia. }
  assert (linked c sv (with_local v n)) as Hl'.
  { destruct Hl as (? & ? & ? & ? & q & p & ? & ? & ?). split_and!; [done..|]. exists q, p. cbn. by rewrite Hqs. }
  destruct (post_and_wait_ok op (take k buf) offset c sv (with_local v n) Hl' Hv') as (n' & Hp & Hl2 & Hv2 & Hs2 & Hh2); [done|rewrite Hlen; done..|].
  fold res in Hp. rewrite Hp. eexists. split; [reflexivity|]. cbn. split_and!.
  - destruct Hl2 as (? & ? & ? & ? & q & p & ? & ? & ?). split_and!; [done..|]. by exists q, p.
  - done.
  - done.
  - rewrite Hh2. cbn. by rewrite Hh, minus_plus_handles.
Qed.

Lemma len_u32_small z : 0 ≤ z ≤ max_message → len_u32 z = z.
Proof. intros Hz. apply Z.mod_small. unfold max_message in Hz. lia. Qed.


Lemma conn_read_ok offset len c sv n :
  let k := Z.to_nat (len_u32 len) in
  linked c sv n → calls_ok (rn_local n) → 0 ≤ offset → 0 ≤ len ≤ isize_max → offset + Z.of_nat k ≤ rs_capacity (sv_segment sv) → Z.of_nat k ≤ max_message →
  ∃ n', conn_read offset len c n = (Done (Ok (slice (Z.to_nat offset) k (rs_mem (sv_segment sv)) ++ replicate (Z.to_nat len - k) 0)), n')
    ∧ linked c sv n' ∧ calls_ok (rn_local n') ∧ rn_servers n' = rn_servers n ∧ vb_handles (rn_local n') = vb_handles (rn_local n).
Proof.
  intros k Hl Hv Ho [Hn Hi] Hle Hmax. pose proof (conn_op_ok RDMA_READ (replicate (Z.to_nat len) 0) offset c sv n) as Hop. cbv zeta in Hop.
  rewrite length_replicate, (Z2Nat.id len) in Hop by done. fold k in Hop. destruct (Hop Hl Hv Ho Hle Hmax) as (n' & Hc & Hl' & Hv' & Hs' & Hh').
  assert (k ≤ Z.to_nat len)%nat as Hk by (apply Z2Nat.inj_le; [apply Z.mod_pos_bound; lia|done|apply Z.mod_le; lia]).
  exists n'. unfold conn_read. rewrite (proj2 (Z.ltb_ge _ _)) by done. rewrite Hc. cbn [op_result fst snd] in *.
  replace (mkRdmaServer (set_mem (rs_mem (sv_segment sv)) (sv_segment sv)) (sv_verbs sv)) with sv in * by (by destruct sv as [[] ?]).
  split_and!; try done.
  - rewrite length_take, length_replicate, Nat.min_l, drop_replicate by done. done.
  - rewrite Hs'. apply insert_id, Hl.
Qed.
End operations.

(** ** The pool *)

Section pool.
Context `{VerbsLib, Hca, IoMessages}.

(** The endpoint's pooled connection, usable. *)
Definition pooled (a : Arc RdmaConnection) (endpoint : string) (w : RdmaWorld) : Prop :=
  rw_pool_poisoned w = false ∧ ep_map (rw_pool w) !! endpoint = Some a.

Lemma dropped_conns_same held s s' : ep_map s' = ep_map s → waiting s' = waiting s → dropped_conns held s s' = [].
Proof.
  intros Hm Hw. unfold dropped_conns. rewrite Hm, Hw. apply list_filter_none. intros a Ha. unfold owners.
  intros Hz. apply length_zero_iff_nil in Hz. assert (a ∈ filter (λ b, arc_id b = arc_id a) (map_arcs (ep_map s) ++ waiting s ++ held)) as Hin.
  { apply list_elem_of_filter. split; [done|]. set_solver. }
  rewrite Hz in Hin. by apply not_elem_of_nil in Hin.
Qed.

(** A pooled connection is reused: nothing happens on the network. *)
Lemma pool_hit a endpoint w :
  pooled a endpoint w →
  ∃ w', pool_connect endpoint w = (Ok a, w') ∧ rw_net w' = rw_net w ∧ rw_poisoned w' = rw_poisoned w ∧ pooled a endpoint w'
        ∧ waiting (rw_pool w') = waiting (rw_pool w) ∧ ep_map (rw_pool w') = ep_map (rw_pool w).
Proof.
  intros [Hp Ha]. unfold pool_connect. rewrite Hp, Ha. unfold get_or_insert. rewrite Ha. cbv beta iota zeta. rewrite dropped_conns_same by done.
  eexists. split; [reflexivity|]. by split_and!.
Qed.



(** ** Theorems *)


(** The connection's queue pair is in the error state. *)
Definition qp_broken (c : RdmaConnection) (n : RdmaNet) : Prop :=
  ∃ q, vb_qps (rn_local n) !! rc_qpn c = Some q ∧ qp_state q = QPS_ERR.

Definition succeeded {E A} (r : outcome (result E A)) : bool :=
  match r with Done (Ok _) => true | _ => false end.

Lemma next_reply_qps v : vb_qps (next_reply v).2 = vb_qps v.
Proof. unfold next_reply. by destruct (vb_replies v). Qed.

Lemma post_and_wait_broken op c local addr rkey n :
  qp_broken c n →
  ∃ e n', post_and_wait op (rc_qpn c) (rc_peer c) local addr rkey n = (Err e, n') ∧ qp_broken c n'.
Proof.
  intros (q & Hq & Hs). unfold post_and_wait. pose proof (next_reply_qps (rn_local n)) as Hqs.
  destruct (next_reply (rn_local n)) as [[x|rc errno] v]; cbn in Hqs.
  2: { do 2 eexists. split; [done|]. exists q. cbn. by rewrite Hqs. }
  rewrite Hqs, Hq. destruct (hca_flushed op q (peer_of q (rc_peer c) n) addr rkey local Hs) as [[status vendor] ->].
  destruct (poll_cq (vb_replies v)) as [[] rs]; do 2 eexists; (split; [done|]); exists q; cbn; by rewrite lookup_insert_eq.
Qed.

Lemma conn_op_broken op buf offset c n :
  qp_broken c n → ∃ r n', conn_op op buf offset c n = (r, n') ∧ succeeded r = false ∧ qp_broken c n'.
Proof.
  intros Hb. unfold conn_op, create. pose proof (next_reply_qps (rn_local n)) as Hqs.
  destruct (next_reply (rn_local n)) as [[x|rc errno] v]; cbn in Hqs.
  2: { do 2 eexists. split; [done|]. split; [done|]. destruct Hb as (q & ? & ?). exists q. cbn. by rewrite Hqs. }
  assert (qp_broken c (with_local (acquire one_mr v) n)) as Hb' by (destruct Hb as (q & ? & ?); exists q; cbn; by rewrite Hqs).
  destruct (u64_add _ _) as [addr|]; [|do 2 eexists; split; [done|]; by split].
  destruct (post_and_wait_broken op c (take (Z.to_nat (len_u32 (Z.of_nat (length buf)))) buf) addr (server_rkey c) _ Hb') as (e & n' & -> & Hb2).
  do 2 eexists. split; [done|]. split; [done|]. destruct Hb2 as (q & ? & ?). by exists q.
Qed.

(** ** Requests on one endpoint *)

Inductive RdmaOp : Type := RdmaRead (offset len : Z) | RdmaWrite (offset : Z) (data : list Z).

Definition rdma_op (endpoint : string) (op : RdmaOp) (w : RdmaWorld) : bool * RdmaWorld :=
  match op with
  | RdmaRead offset len => let '(r, w) := rdma_read_remote endpoint offset len w in (succeeded r, w)
  | RdmaWrite offset data => let '(r, w) := rdma_write_remote endpoint offset data w in (succeeded r, w)
  end.
Fixpoint rdma_ops (endpoint : string) (ops : list RdmaOp) (w : RdmaWorld) : list bool :=
  match ops with
  | [] => []
  | op :: ops => let '(b, w) := rdma_op endpoint op w in b :: rdma_ops endpoint ops w
  end.

Definition broken (a : Arc RdmaConnection) (endpoint : string) (w : RdmaWorld) : Prop :=
  pooled a endpoint w ∧ qp_broken (arc_val a) (rw_net w).

Lemma with_conn_broken {A} (body : RdmaConnection → RdmaNet → outcome (result string A) * RdmaNet) a endpoint w :
  (∀ c n, qp_broken c n → ∃ r n', body c n = (r, n') ∧ succeeded r = false ∧ qp_broken c n') →
  broken a endpoint w → ∃ r w', with_conn endpoint body w = (r, w') ∧ succeeded r = false ∧ broken a endpoint w'.
Proof.
  intros Hbody [Ha Hb]. unfold with_conn. destruct (pool_hit a endpoint w Ha) as (w1 & -> & Hn & Hps & Hp1 & _).
  case_decide; [do 2 eexists; split; [done|]; split; [done|]; split; [done|by rewrite Hn]|].
  rewrite Hn. destruct (Hbody _ _ Hb) as (r & n' & -> & Hr & Hb'). destruct r as [[x|e]|]; [done|..]; do 2 eexists; (split; [done|]); by split.
Qed.

Lemma rdma_op_broken a endpoint op w :
  broken a endpoint w → ∃ w', rdma_op endpoint op w = (false, w') ∧ broken a endpoint w'.
Proof.
  intros Hb. destruct op as [offset len|offset d]; cbn [rdma_op]; unfold rdma_read_remote, rdma_write_remote.
  - edestruct (with_conn_broken (conn_read offset len)) as (r & w' & -> & -> & Hw'); [|done|by eauto].
    intros c n Hc. unfold conn_read. destruct (isize_max <? len); [by eauto 10|by apply conn_op_broken].
  - edestruct (with_conn_broken (conn_write offset d)) as (r & w' & -> & -> & Hw'); [|done|by eauto].
    intros c n Hc. unfold conn_write. destruct (conn_op_broken RDMA_WRITE d offset c n Hc) as (r & n' & -> & Hr & Hb').
    destruct r as [[x|e]|]; [done|by eauto..].
Qed.

Lemma rdma_ops_broken a endpoint ops w : broken a endpoint w → rdma_ops endpoint ops w = replicate (length ops) false.
Proof.
  revert w. induction ops as [|op ops IH]; intros w Hb; [done|]. cbn. destruct (rdma_op_broken a endpoint op w Hb) as (w' & -> & Hb').
  by rewrite IH.
Qed.

(** The client checks no bound (it does not read the capacity the server sends): a read that ends past the peer's region
    is refused by the adapter, which puts the queue pair in the error state, and because the pool keeps the connection,
    every later request to that endpoint fails, in range or not. *)
Theorem out_of_range_disables_endpoint a endpoint offset len sv w ops :
  pooled a endpoint w → arc_id a ∉ rw_poisoned w → linked (arc_val a) sv (rw_net w) → calls_ok (rn_local (rw_net w)) →
  0 ≤ offset → 0 < len ≤ u32_max → rs_capacity (sv_segment sv) < offset + len → rs_addr (sv_segment sv) + offset ≤ u64_max →
  rdma_ops endpoint (RdmaRead offset len :: ops) w = replicate (S (length ops)) false.
Proof.
  intros Ha Hnp (Hsv & Hwf & Hsa & Hk & q & p & Hq & Hp & Hpair) Hv Ho Hlen Hcap Haddr. cbn [rdma_ops rdma_op]. unfold rdma_read_remote, with_conn.
  destruct (pool_hit a endpoint w Ha) as (w1 & -> & Hn & Hps & Hp1 & _). rewrite decide_False by (by rewrite Hps). rewrite Hn.
  unfold conn_read. rewrite (proj2 (Z.ltb_ge _ _)) by (unfold isize_max, u32_max in *; lia). unfold conn_op.
  destruct (create_ok one_mr "ibv_reg_mr failed" _ Hv) as (x & v & -> & _ & Hv' & Hh & Hqs). rewrite u64_add_ok by lia.
  rewrite length_replicate, Z2Nat.id by lia. assert (len_u32 len = len) as -> by (apply Z.mod_small; unfold u32_max in *; lia).
  rewrite take_replicate, Nat.min_id. unfold post_and_wait. cbn [rn_local with_local].
  destruct (next_reply_ok v Hv') as (y & v2 & -> & _ & Hv2 & Hh2 & Hqs2). rewrite Hqs2, Hqs, Hq.
  assert (peer_of q (rc_peer (arc_val a)) (with_local v (rw_net w)) = Some (p, sv_segment sv)) as -> by (unfold peer_of; cbn; rewrite Hsv; cbn; by rewrite Hp).
  destruct (hca_refused RDMA_READ q p (sv_segment sv) (server_addr (arc_val a) + offset) (server_rkey (arc_val a)) (replicate (Z.to_nat len) 0)) as [[status vendor] ->].
  { rewrite length_replicate. lia. }
  { intros (_ & _ & Hr). rewrite length_replicate in Hr. lia. }
  { apply Hpair. }
  destruct (poll_cq_ok _ Hv2) as (rs & -> & Hrs). cbn [succeeded length replicate]. f_equal.
  apply (rdma_ops_broken a). split; [exact Hp1|]. eexists. cbn. by rewrite lookup_insert_eq.
Qed.

(** A read of more than [u32::MAX] bytes moves the length modulo 2^32 and reports success, zeros in place of the rest. *)
Theorem long_read_truncated offset len c sv n :
  linked c sv n → calls_ok (rn_local n) → 0 ≤ offset → 2 ^ 32 ≤ len ≤ isize_max → len_u32 len ≤ max_message →
  offset + len_u32 len ≤ rs_capacity (sv_segment sv) →
  ∃ n', conn_read offset len c n
        = (Done (Ok (slice (Z.to_nat offset) (Z.to_nat (len_u32 len)) (rs_mem (sv_segment sv)) ++ replicate (Z.to_nat (len - len_u32 len)) 0)), n')
      ∧ 2 ^ 32 ≤ len - len_u32 len.
Proof.
  intros Hl Hv Ho Hlen Hmax Hle. assert (0 ≤ len_u32 len < 2 ^ 32) as Hb by (apply Z.mod_pos_bound; lia).
  assert (len - len_u32 len = 2 ^ 32 * (len / 2 ^ 32)) as Hd by (unfold len_u32; pose proof (Z.div_mod len (2 ^ 32) ltac:(lia)); lia).
  assert (1 ≤ len / 2 ^ 32) by (apply Z.div_le_lower_bound; lia).
  destruct (conn_read_ok offset len c sv n Hl Hv Ho ltac:(lia)) as (n' & Hr & _); [rewrite Z2Nat.id by lia; lia..|].
  exists n'. split; [|lia]. rewrite Hr. by rewrite Z2Nat.inj_sub by lia.
Qed.

(** A peer that closes before it has sent its endpoint leaves the server with a completion queue and a queue pair that
    nothing frees. *)
Theorem early_close_leaks s input v :
  (length input < 24)%nat → calls_ok v →
  ∃ v', serve_one s input v = ([], Err unexpected_eof, v') ∧ calls_ok v' ∧ vb_handles v' = plus_handles (vb_handles v) server_handles.
Proof.
  intros Hi Hv. unfold serve_one, mbind, V_bind.
  edestruct (create_ok one_cq) as (x1 & v1 & -> & _ & Hv1 & Hh1 & Hq1); [exact Hv|].
  destruct (create_rc_qp_ok v1 Hv1) as (sqpn & v2 & -> & Hn & Hv2 & Hh2 & Hq2).
  unfold read_exact. rewrite (proj2 (Nat.leb_gt _ _)) by lia. exists v2. split_and!; [done..|].
  rewrite Hh2, Hh1. destruct (vb_handles v). unfold plus_handles, server_handles, one_qp, one_cq. cbn. f_equal; lia.
Qed.

(** ** Evicted connections *)

Lemma evict_one_waiting held (s s' : EndpointStore RdmaConnection) : evict_one held s = Some s' → waiting s `prefix_of` waiting s'.
Proof.
  unfold evict_one. intros Ev. apply bind_Some in Ev as ([victim s1] & Hp & Ev).
  assert (waiting s1 = waiting s) as Hw.
  { unfold pick_victim, sieve_victim in Hp. destruct (policy s); [destruct (ep_order s); by simplify_eq|].
    destruct (decide _); [by simplify_eq|]. apply bind_Some in Hp as ([[[k o] vis] h] & _ & Hp). by simplify_eq. }
  injection Ev as <-. rewrite <- Hw. destruct victim as [key|]; [|done]. unfold drop_victim. destruct (ep_map s1 !! key); [|done].
  cbn. case_match; [by apply prefix_app_r|done].
Qed.

Lemma get_or_insert_waiting {E} held fresh key (make : unit → result E RdmaConnection) s r s' :
  get_or_insert held fresh key make s = Some (r, s') → waiting s `prefix_of` waiting s'.
Proof.
  unfold get_or_insert. destruct (ep_map s !! key); [intros [= _ <-]; done|]. destruct (make tt); [|intros [= _ <-]; done].
  intros Ev. apply bind_Some in Ev as (s1 & Hs1 & Ev). injection Ev as _ <-. cbn.
  destruct (_ <=? _)%nat; [by eapply evict_one_waiting|by injection Hs1 as <-].
Qed.

Lemma with_conn_waiting {A} (body : RdmaConnection → RdmaNet → outcome (result string A) * RdmaNet) endpoint w r w' :
  with_conn endpoint body w = (r, w') → waiting (rw_pool w) `prefix_of` waiting (rw_pool w').
Proof.
  unfold with_conn. destruct (pool_connect endpoint w) as [p w1] eqn:Hp.
  assert (waiting (rw_pool w) `prefix_of` waiting (rw_pool w1)) as Hw.
  { unfold pool_connect in Hp. destruct (rw_pool_poisoned w); [by injection Hp as _ <-|].
    destruct (match ep_map (rw_pool w) !! endpoint with Some _ => _ | None => _ end) as [made n].
    destruct (get_or_insert _ _ _ _ _) as [[p' s']|] eqn:Hg; injection Hp as _ <-; [|done]. by eapply get_or_insert_waiting. }
  destruct p as [a|e]; [|by intros [= _ <-]]. case_decide; [by intros [= _ <-]|].
  destruct (body _ _) as [[[x|e]|] n]; by intros [= _ <-].
Qed.

Definition set_held (held : list (Arc RdmaConnection)) (w : RdmaWorld) : RdmaWorld :=
  mkRdmaWorld (rw_device w) (rw_gid_index w) (rw_pool w) (rw_pool_poisoned w) (rw_poisoned w) held (rw_fresh w) (rw_net w).

(** Requests to any endpoint, and other transfers taking and dropping their handles. *)
Inductive rdma_step : RdmaWorld → RdmaWorld → Prop :=
| rdma_request endpoint op w : rdma_step w (rdma_op endpoint op w).2
| rdma_handles held w : rdma_step w (set_held held w).

Lemma rdma_step_waiting w w' : rdma_step w w' → waiting (rw_pool w) `prefix_of` waiting (rw_pool w').
Proof.
  destruct 1 as [e [o k|o d] w|held w]; cbn; [..|done];
    [destruct (rdma_read_remote e o k w) as [r u] eqn:E|destruct (rdma_write_remote e o d w) as [r u] eqn:E]; by eapply with_conn_waiting.
Qed.

(** A connection evicted while a transfer holds it goes to the store's waiting list, and nothing the transport does ever
    takes it out: it, and the peer's queue pair, stay allocated after the transfer is over, so the pool's bound does not
    bound the live queue pairs. *)
Theorem evicted_in_use_never_freed w w' a : rtc rdma_step w w' → a ∈ waiting (rw_pool w) → a ∈ waiting (rw_pool w').
Proof. induction 1 as [w|w1 w2 w3 Hs _ IH]; [done|]. intros Ha. apply IH. apply rdma_step_waiting in Hs as [l ->]. set_solver. Qed.
End pool.

(** ** Runs *)

#[local] Instance rx_messages : IoMessages := {| connection_refused := "Connection refused"; unexpected_eof := "failed to fill whole buffer" |}.

#[local] Program Instance rx_lib : VerbsLib := {|
  device_list := ["rxe0"];
  gid_table := λ d i, if decide (d = "rxe0" ∧ i = 1) then Some (replicate 16 7) else None;
  join_panicked := "task panicked"
|}.
Next Obligation. intros d i g. cbv beta. case_decide; [by intros [= <-]|done]. Qed.

(** An adapter that does what the laws say and refuses the rest. *)
#[local] Instance paired_dec q p : Decision (paired q p).
Proof. unfold paired. apply _. Defined.
#[local] Instance in_region_dec s addr rkey n : Decision (in_region s addr rkey n).
Proof. unfold in_region. apply _. Defined.

Definition rx_error (q : Qp) : Qp := mkQp (qp_num q) QPS_ERR (dest_qpn q) (rq_psn q) (dgid q) (sq_psn q).
Definition rx_execute (op : WrOpcode) (q : Qp) (peer : option (Qp * RdmaSegment)) (addr rkey : Z) (data : list Z) : Qp * result (Z * Z) (list Z * list Z) :=
  match peer with
  | Some (p, s) =>
      if decide (paired q p ∧ in_region s addr rkey (Z.of_nat (length data)) ∧ Z.of_nat (length data) ≤ max_message) then
        (q, Ok (op_result op (Z.to_nat (addr - rs_addr s)) data (rs_mem s)))
      else (rx_error q, Err (10, 0))
  | None => (rx_error q, Err (12, 0))
  end.

Lemma rx_error_id q : qp_state q = QPS_ERR → rx_error q = q.
Proof. destruct q; cbn. by intros ->. Qed.

#[local] Program Instance rx_hca : Hca := {| hca_execute := rx_execute |}.
Next Obligation. intros. unfold rx_execute. by rewrite decide_True. Qed.
Next Obligation. intros. unfold rx_execute. by rewrite decide_True. Qed.
Next Obligation. intros op q p s addr rkey data Hl Hin Hq. unfold rx_execute. rewrite decide_False by tauto. by eexists. Qed.
Next Obligation.
  intros op q peer addr rkey data Hq. unfold rx_execute. rewrite (rx_error_id q Hq). destruct peer as [[p s]|]; [|by eexists].
  rewrite decide_False by (intros [(Hrts & _) _]; congruence). by eexists.
Qed.

Definition rx_segment : RdmaSegment := mkRdmaSegment 4096 17 (replicate 8 0) 8 0 (replicate 16 9).

Lemma rx_segment_wf : segment_wf rx_segment.
Proof. by split_and!; vm_compute. Qed.
Lemma rx_calls l : Forall is_u32 l → Forall (λ r, ∃ x, r = VOk x ∧ is_u32 x) (VOk <$> l).
Proof. intros Hl. apply Forall_fmap. eapply Forall_impl; [exact Hl|]. intros x Hx. by exists x. Qed.


(** A pool with one connection. *)
Definition rx_qp : Qp := mkQp 40 QPS_RTS 50 0 (replicate 16 9) 0.
Definition rx_server : RdmaServer := mkRdmaServer rx_segment (mkVerbs [] server_handles {[50 := mkQp 50 QPS_RTS 40 0 (replicate 16 7) 0]}).
Definition rx_conn : Arc RdmaConnection := mkArc 0 (mkRdmaConnection 40 "node" 4096 17).
Definition rx_world (wait : list (Arc RdmaConnection)) : RdmaWorld :=
  mkRdmaWorld "rxe0" 1 (mkEndpointStore 256 Fifo {["node" := rx_conn]} {["node" := false]} ["node"] 0 wait) false ∅ [] 1
    (mkRdmaNet (mkVerbs [] client_handles {[40 := rx_qp]}) {["node" := rx_server]}).

Lemma rx_linked wait : linked (arc_val rx_conn) rx_server (rw_net (rx_world wait)).
Proof.
  split_and!; [done|exact rx_segment_wf|done|done|]. exists rx_qp, (mkQp 50 QPS_RTS 40 0 (replicate 16 7) 0). split_and!; try done.
Qed.

Lemma out_of_range_disables_endpoint_witness :
  rdma_ops "node" [RdmaRead 4 8; RdmaRead 0 1; RdmaWrite 0 [1]] (rx_world []) = [false; false; false].
Proof.
  exact (out_of_range_disables_endpoint rx_conn "node" 4 8 rx_server (rx_world []) [RdmaRead 0 1; RdmaWrite 0 [1]]
    ltac:(by split) ltac:(set_solver) (rx_linked []) ltac:(by apply Forall_nil) ltac:(lia) ltac:(by split; vm_compute) ltac:(by vm_compute) ltac:(by vm_compute)).
Defined.

Lemma evicted_in_use_never_freed_witness :
  let old := mkArc 7 (mkRdmaConnection 41 "gone" 0 0) in old ∈ waiting (rw_pool (set_held [] (rx_world [old]))).
Proof.
  intros old. apply (evicted_in_use_never_freed (rx_world [old])); [|by left].
  eapply rtc_l; [apply (rdma_handles [])|apply rtc_refl].
Defined.

(** The same requests in range succeed on a connection that was not misused. *)
Lemma in_range_requests_succeed : rdma_ops "node" [RdmaWrite 0 [1]; RdmaRead 0 8; RdmaRead 7 1] (rx_world []) = [true; true; true].
Proof. vm_compute. reflexivity. Qed.

(** ** The self-test

    [one_sided_roundtrip]: two queue pairs of one process, connected to each other; a WRITE from one buffer
    to a second and a READ back into a third. *)

(** A call that creates a handle or returns null, without returning early. *)
Definition try_create (h : Handles) : V (option Z) := λ v,
  match next_reply v with
  | (VOk x, v) => (Ok (Some x), acquire h v)
  | (VFail _ _, v) => (Ok None, v)
  end.
Definition try_create_qp : V (option Z) := λ v,
  match next_reply v with
  | (VOk n, v) => (Ok (Some n), set_qps <[n := mkQp n QPS_RESET 0 0 [] 0]> (acquire one_qp v))
  | (VFail _ _, v) => (Ok None, v)
  end.

Definition release_all (qp_a qp_b : Z) (v : Verbs) : Verbs :=
  let v := destroy_qp qp_b (destroy_qp qp_a v) in
  let v := release_handles one_cq (release_handles one_cq v) in
  let v := release_handles one_mr (release_handles one_mr (release_handles one_mr v)) in
  release_handles one_ctx (release_handles one_pd v).

(** The teardown and the result. *)
Definition finish (qp_a qp_b : Z) (back : list Z) : V (list Z) := λ v, (Ok back, release_all qp_a qp_b v).

Section selftest.
Context `{VerbsLib, Hca, IoMessages}.

(** [post_and_wait] with both ends in this process: the local buffer and the region's bytes after it. *)
Definition post_here (op : WrOpcode) (qpn : Z) (local : list Z) (s : RdmaSegment) : V (list Z * list Z) := λ v,
  match post_and_wait op qpn "self" local (rs_addr s) (rs_rkey s) (mkRdmaNet v {["self"%string := mkRdmaServer s v]}) with
  | (Err e, n) => (Err e, rn_local n)
  | (Ok local, n) => (Ok (local, from_option (λ sv, rs_mem (sv_segment sv)) (rs_mem s) (rn_servers n !! "self"%string)), rn_local n)
  end.

(** [dst_addr] is the address the allocator gives the destination buffer. *)
Definition one_sided_roundtrip (dst_addr : Z) (device : string) (payload : list Z) : V (list Z) :=
  let len := Z.of_nat (length payload) in
  if decide (payload = []) then mret []
  else
    _ ← open_device device;
    _ ← create one_pd "ibv_alloc_pd failed";
    gid ← query_gid device GID_INDEX;
    mr_src ← try_create one_mr; mr_dst ← try_create one_mr; mr_back ← try_create one_mr;
    match mr_src, mr_dst, mr_back with
    | Some _, Some rkey, Some _ =>
        cq_a ← try_create one_cq; cq_b ← try_create one_cq;
        match cq_a, cq_b with
        | Some _, Some _ =>
            qp_a ← try_create_qp; qp_b ← try_create_qp;
            match qp_a, qp_b with
            | Some a, Some b =>
                _ ← connect_qp a 0 (mkQpEndpoint b 0 gid);
                _ ← connect_qp b 0 (mkQpEndpoint a 0 gid);
                let k := Z.to_nat (len_u32 len) in
                let dst := mkRdmaSegment dst_addr rkey (replicate (length payload) 0) len 0 gid in
                '(_, mem) ← post_here RDMA_WRITE a (take k payload) dst;
                if decide (mem = payload) then
                  '(moved, _) ← post_here RDMA_READ a (replicate k 0) (set_mem mem dst);
                  finish a b (moved ++ drop k (replicate (length payload) 0))
                else fail "RDMA WRITE did not land the payload in dst"
            | _, _ => fail "ibv_create_qp failed"
            end
        | _, _ => fail "ibv_create_cq failed"
        end
    | _, _, _ => fail "ibv_reg_mr failed"
    end.

Lemma try_create_ok h v :
  calls_ok v → ∃ x v', try_create h v = (Ok (Some x), v') ∧ calls_ok v' ∧ vb_handles v' = plus_handles (vb_handles v) h ∧ vb_qps v' = vb_qps v ∧ vb_replies v' = drop 1 (vb_replies v).
Proof.
  destruct v as [[|r rs] hs q]; unfold calls_ok, try_create; cbn; intros Hv; [by do 2 eexists|].
  apply Forall_cons in Hv as [(x & -> & Hx) Hv]. do 2 eexists. split; [done|]. by rewrite drop_0.
Qed.

Lemma post_here_ok op a local s v qa qb :
  calls_ok v → vb_qps v !! a = Some qa → vb_qps v !! dest_qpn qa = Some qb → paired qa qb →
  length local = length (rs_mem s) → rs_capacity s = Z.of_nat (length (rs_mem s)) → Z.of_nat (length local) ≤ max_message →
  ∃ v', post_here op a local s v = (Ok ((op_result op 0 local (rs_mem s)).2, (op_result op 0 local (rs_mem s)).1), v') ∧ calls_ok v' ∧ vb_handles v' = vb_handles v ∧ vb_qps v' = vb_qps v.
Proof.
  intros Hv Ha Hb Hp Hl Hc Hm. unfold post_here, post_and_wait. cbn [rn_local]. destruct (next_reply_ok _ Hv) as (x & v1 & -> & _ & Hv1 & Hh & Hqs). rewrite Hqs, Ha.
  assert (peer_of qa "self" (mkRdmaNet v {["self"%string := mkRdmaServer s v]}) = Some (qb, s)) as ->.
  { unfold peer_of. cbn [rn_servers]. rewrite lookup_singleton_eq. cbn. by rewrite Hb. }
  assert (hca_execute op qa (Some (qb, s)) (rs_addr s) (rs_rkey s) local = (qa, Ok (op_result op 0 local (rs_mem s)))) as ->.
  { assert (in_region s (rs_addr s) (rs_rkey s) (Z.of_nat (length local))) as Hin by (split_and!; [done|lia..]).
    destruct op; cbn [op_result]; [rewrite (hca_write qa qb) by done|rewrite (hca_read qa qb) by done]; by rewrite Z.sub_diag. }
  destruct (poll_cq_ok _ Hv1) as (rs & -> & Hrs). destruct (op_result op 0 local (rs_mem s)) as [mem loc] eqn:E.
  cbn [rn_servers with_local]. rewrite lookup_singleton_eq. eexists. split.
  { cbn [rn_servers with_server rn_local with_local]. rewrite lookup_insert_eq. cbn. reflexivity. }
  cbn. split_and!; [done|done|]. rewrite <- Hqs. apply insert_id. by rewrite Hqs.
Qed.

Lemma try_create_qp_ok n v rest :
  calls_ok v → vb_replies v = VOk n :: rest →
  ∃ v', try_create_qp v = (Ok (Some n), v') ∧ calls_ok v' ∧ vb_handles v' = plus_handles (vb_handles v) one_qp
        ∧ vb_qps v' = <[n := mkQp n QPS_RESET 0 0 [] 0]> (vb_qps v) ∧ vb_replies v' = rest.
Proof. destruct v as [rs hs q]; unfold calls_ok, try_create_qp; cbn. intros Hv ->. apply Forall_cons in Hv as [_ Hv]. by eexists. Qed.

(** The resources of the self-test. *)
Definition selftest_handles : Handles := mkHandles 1 1 2 2 3.

Lemma plus_plus_handles a b c : plus_handles (plus_handles a b) c = plus_handles a (plus_handles b c).
Proof. destruct a, b, c. unfold plus_handles. cbn. f_equal; lia. Qed.
Lemma minus_minus_handles a b c : minus_handles (minus_handles a b) c = minus_handles a (plus_handles b c).
Proof. destruct a, b, c. unfold minus_handles, plus_handles. cbn. f_equal; lia. Qed.

Lemma release_all_handles a b v h : vb_handles v = plus_handles h selftest_handles → vb_handles (release_all a b v) = h.
Proof.
  intros Hv. transitivity (minus_handles (vb_handles v) selftest_handles); [|rewrite Hv; apply minus_plus_handles].
  unfold release_all, destroy_qp, release_handles, set_qps. cbn [vb_handles]. rewrite !minus_minus_handles. reflexivity.
Qed.

Lemma open_device_ok device v : device ∈ device_list → calls_ok v →
  ∃ v', open_device device v = (Ok tt, v') ∧ calls_ok v' ∧ vb_handles v' = plus_handles (vb_handles v) one_ctx ∧ vb_qps v' = vb_qps v ∧ vb_replies v' = drop 1 (vb_replies v).
Proof.
  intros Hd Hv. unfold open_device. rewrite decide_False by (intros Hnil; rewrite Hnil in Hd; by apply not_elem_of_nil in Hd). rewrite decide_True by done.
  destruct (try_create_ok one_ctx v Hv) as (x & v' & E & Hv' & Hh & Hq & Hr). unfold mbind, V_bind, mret, V_ret, create. unfold try_create in E.
  destruct (next_reply v) as [[y|rc en] v1]; [|done]. injection E as -> <-. by eexists.
Qed.

Lemma create_replies h e v : calls_ok v → ∃ x v', create h e v = (Ok x, v') ∧ calls_ok v' ∧ vb_handles v' = plus_handles (vb_handles v) h ∧ vb_qps v' = vb_qps v ∧ vb_replies v' = drop 1 (vb_replies v).
Proof.
  intros Hv. destruct (try_create_ok h v Hv) as (x & v' & E & Hv' & Hh & Hq & Hr). unfold create. unfold try_create in E.
  destruct (next_reply v) as [[y|rc en] v1]; [|done]. injection E as -> <-. by do 2 eexists.
Qed.

(** The self-test: when the library's calls succeed and it numbers the two queue pairs differently, the payload (of at
    most 2^31 bytes) is read back exactly as it was, and every resource taken is given back. *)
Theorem selftest_roundtrip dst_addr device payload g v pre a b rest :
  device ∈ device_list → gid_table device GID_INDEX = Some g → calls_ok v → vb_replies v = pre ++ VOk a :: VOk b :: rest → length pre = 7%nat → a ≠ b →
  Z.of_nat (length payload) ≤ max_message →
  ∃ v', one_sided_roundtrip dst_addr device payload v = (Ok payload, v') ∧ vb_handles v' = vb_handles v.
Proof.
  intros Hd Hg Hv Hrep Hpre Hab Hmax. unfold one_sided_roundtrip. case_decide as Hp; [subst; by exists v|]. unfold mbind, V_bind.
  destruct (open_device_ok device v Hd Hv) as (v1 & -> & Hv1 & Hh1 & Hq1 & Hr1).
  destruct (create_replies one_pd "ibv_alloc_pd failed" v1 Hv1) as (? & v2 & -> & Hv2 & Hh2 & Hq2 & Hr2).
  unfold query_gid. rewrite Hg. unfold mret, V_ret.
  destruct (try_create_ok one_mr v2 Hv2) as (? & v3 & -> & Hv3 & Hh3 & Hq3 & Hr3). destruct (try_create_ok one_mr v3 Hv3) as (rkey & v4 & -> & Hv4 & Hh4 & Hq4 & Hr4).
  destruct (try_create_ok one_mr v4 Hv4) as (? & v5 & -> & Hv5 & Hh5 & Hq5 & Hr5). cbv beta iota.
  destruct (try_create_ok one_cq v5 Hv5) as (? & v6 & -> & Hv6 & Hh6 & Hq6 & Hr6). destruct (try_create_ok one_cq v6 Hv6) as (? & v7 & -> & Hv7 & Hh7 & Hq7 & Hr7). cbv beta iota.
  assert (vb_replies v7 = VOk a :: VOk b :: rest) as Hr.
  { rewrite Hr7, Hr6, Hr5, Hr4, Hr3, Hr2, Hr1, !drop_drop, Hrep. apply drop_app_length'. lia. }
  destruct (try_create_qp_ok a v7 _ Hv7 Hr) as (v8 & -> & Hv8 & Hh8 & Hq8 & Hr8). destruct (try_create_qp_ok b v8 _ Hv8 Hr8) as (v9 & -> & Hv9 & Hh9 & Hq9 & _). cbv beta iota.
  destruct (connect_qp_ok a 0 (mkQpEndpoint b 0 g) v9 (mkQp a QPS_RESET 0 0 [] 0) Hv9) as (v10 & -> & Hv10 & Hh10 & Hq10);
    [by rewrite Hq9, lookup_insert_ne, Hq8, lookup_insert_eq|].
  destruct (connect_qp_ok b 0 (mkQpEndpoint a 0 g) v10 (mkQp b QPS_RESET 0 0 [] 0) Hv10) as (v11 & -> & Hv11 & Hh11 & Hq11);
    [by rewrite Hq10, lookup_insert_ne, Hq9, lookup_insert_eq|]. cbn [qe_qpn qe_psn qe_gid qp_num] in *.
  rewrite len_u32_small, Nat2Z.id, take_ge by lia.
  assert (vb_qps v11 !! a = Some (mkQp a QPS_RTS b 0 g 0)) as Ha by (by rewrite Hq11, lookup_insert_ne, Hq10, lookup_insert_eq).
  assert (vb_qps v11 !! b = Some (mkQp b QPS_RTS a 0 g 0)) as Hb by (by rewrite Hq11, lookup_insert_eq).
  set (dst := mkRdmaSegment dst_addr rkey (replicate (length payload) 0) (Z.of_nat (length payload)) 0 g).
  destruct (post_here_ok RDMA_WRITE a payload dst v11 _ _ Hv11 Ha Hb) as (v12 & -> & Hv12 & Hh12 & Hq12); [by split_and!|cbn; by rewrite length_replicate|cbn; by rewrite length_replicate|done|].
  cbn [op_result fst snd rs_mem dst]. unfold splice. rewrite take_0, drop_ge, app_nil_r by (rewrite length_replicate; lia). cbn [app]. rewrite decide_True by done.
  rewrite <- Hq12 in Ha, Hb.
  destruct (post_here_ok RDMA_READ a (replicate (length payload) 0) (set_mem payload dst) v12 _ _ Hv12 Ha Hb) as (v13 & -> & Hv13 & Hh13 & Hq13);
    [by split_and!|cbn; by rewrite length_replicate|done|by rewrite length_replicate|].
  cbn [op_result fst snd rs_mem set_mem]. unfold slice. rewrite drop_0, take_ge by (rewrite length_replicate; lia). unfold finish.
  rewrite drop_ge, app_nil_r by (rewrite length_replicate; lia). eexists. split; [reflexivity|]. apply release_all_handles.
  rewrite Hh13, Hh12, Hh11, Hh10, Hh9, Hh8, Hh7, Hh6, Hh5, Hh4, Hh3, Hh2, Hh1, !plus_plus_handles. reflexivity.
Qed.
End selftest.

Definition selftest_verbs : Verbs := mkVerbs (VOk <$> [1; 2; 3; 4; 5; 6; 7; 40; 50]) no_handles ∅.
Lemma selftest_roundtrip_witness : ∃ v', one_sided_roundtrip 4096 "rxe0" [1; 2; 3] selftest_verbs = (Ok [1; 2; 3], v') ∧ vb_handles v' = no_handles.
Proof.
  apply (selftest_roundtrip 4096 "rxe0" [1; 2; 3] (replicate 16 7) selftest_verbs (VOk <$> [1; 2; 3; 4; 5; 6; 7]) 40 50 []); try done.
  - by left.
  - apply rx_calls. repeat (apply Forall_cons; split; [done|]). by apply Forall_nil.
Defined.

(** A call that fails returns at once and leaves what was taken: after a failed registration the device, the protection domain
    and the two registered buffers stay. *)
Example selftest_leaks :
  (λ r, (r.1, vb_handles r.2)) (one_sided_roundtrip 4096 "rxe0" [1; 2; 3] (mkVerbs ((VOk <$> [1; 2; 3; 4]) ++ [VFail 1 12]) no_handles ∅))
  = (Err "ibv_reg_mr failed"%string, mkHandles 1 1 0 0 2).
Proof. vm_compute. reflexivity. Qed.
