(* ===== verification/EtcdMetadata.v ===== *)
(** * Segment metadata in etcd

    crates/quillcache-transfer-engine/src/metadata_etcd.rs: the metadata backend whose reads
    come from a local cache, kept fresh by a watch, and whose writes go to the cache at once
    and to etcd from spawned tasks.

    etcd is outside the repository; what is used of it is documented behaviour: its history
    is a sequence of events, a get returns the pairs at one point of it in key order, a watch
    delivers the events after its start in order, each once, and a delete of an absent key
    leaves no event.  A spawned request runs at any later time, or fails.  [SegmentCodec] is
    serde_json on a descriptor. *)
From S2P Require Import Prelude F64 Identity ShardedMap Router RouterPlan TransferTypes.

Class SegmentCodec : Type := {
  seg_to_vec : SegmentDesc → option (list Z);
  seg_from_slice : list Z → option SegmentDesc;
  seg_codec_roundtrip d : ∃ b, seg_to_vec d = Some b ∧ seg_from_slice b = Some d
}.

(** ** etcd *)

Inductive EtcdEvent : Type := EvPut (key : string) (value : list Z) | EvDelete (key : string).
Definition ev_key (e : EtcdEvent) : string := match e with EvPut k _ => k | EvDelete k => k end.
Definition apply_event (m : gmap string (list Z)) (e : EtcdEvent) : gmap string (list Z) :=
  match e with EvPut k v => <[k := v]> m | EvDelete k => delete k m end.
Definition etcd_store (log : list EtcdEvent) : gmap string (list Z) := foldl apply_event ∅ log.

(** [str::strip_prefix]. *)
Fixpoint strip_prefix (p s : string) : option string :=
  match p, s with
  | EmptyString, _ => Some s
  | String a p, String b s => if Ascii.eqb a b then strip_prefix p s else None
  | String _ _, EmptyString => None
  end.

(** The spawned requests. *)
Inductive EtcdTask : Type := TaskPut (key : string) (value : list Z) | TaskDelete (key : string).

(** What a request adds to the history. *)
Definition task_events (t : EtcdTask) (log : list EtcdEvent) : list EtcdEvent :=
  match t with
  | TaskPut k v => [EvPut k v]
  | TaskDelete k => if etcd_store log !! k then [EvDelete k] else []
  end.

(** ** The backend *)

Record EtcdMetadata : Type := mkEtcd { em_prefix : string; em_cache : gmap string SegmentDesc; em_tasks : list EtcdTask }.

Section backend.
Context `{SegmentCodec, HashIter}.

Definition em_key (m : EtcdMetadata) (name : string) : string := (em_prefix m +:+ name)%string.

#[global] Instance etcd_backend : MetadataBackend EtcdMetadata := {|
  put_segment d m :=
    mkEtcd (em_prefix m) (<[sd_name d := d]> (em_cache m)) (em_tasks m ++ [TaskPut (em_key m (sd_name d)) (default [] (seg_to_vec d))]);
  get_segment n m := em_cache m !! n;
  remove_segment n m := mkEtcd (em_prefix m) (delete n (em_cache m)) (em_tasks m ++ [TaskDelete (em_key m n)]);
  segment_names m := hkeys (em_cache m)
|}.

(** A node sees its own writes at once. *)
#[global] Instance etcd_laws : MetadataLaws EtcdMetadata.
Proof.
  split.
  - intros d n m; cbn. case_bool_decide as E; [subst; by rewrite lookup_insert_eq|by rewrite lookup_insert_ne].
  - intros k n m; cbn. case_bool_decide as E; [subst; by rewrite lookup_delete_eq|by rewrite lookup_delete_ne].
  - intros n m; cbn. apply elem_of_hkeys.
Qed.

Definition insert_desc (cache : gmap string SegmentDesc) (value : list Z) : gmap string SegmentDesc :=
  match seg_from_slice value with Some d => <[sd_name d := d]> cache | None => cache end.

Definition key_le (a b : string * list Z) : Prop := String.leb a.1 b.1 = true.
#[local] Instance key_le_dec a b : Decision (key_le a b).
Proof. unfold key_le. apply _. Defined.

(** The first load of [connect]. *)
Definition em_load (prefix : string) (kvs : gmap string (list Z)) : gmap string SegmentDesc :=
  foldl (λ c kv, if strip_prefix prefix kv.1 then insert_desc c kv.2 else c) ∅ (merge_sort key_le (map_to_list kvs)).

(** One event of the watch; the watch is on the keys with the prefix. *)
Definition watch_event (prefix : string) (e : EtcdEvent) (cache : gmap string SegmentDesc) : gmap string SegmentDesc :=
  match strip_prefix prefix (ev_key e) with
  | None => cache
  | Some name => match e with EvPut _ v => insert_desc cache v | EvDelete _ => delete name cache end
  end.
End backend.

(** ** Nodes on one etcd *)

(** A backend whose [connect] loaded at point [nd_loaded] of the history, and whose watch, once [connect] started it, has
    seen the history up to a point. *)
Record MetaNode : Type := mkMetaNode { nd_meta : EtcdMetadata; nd_loaded : nat; nd_seen : option nat }.
Record MetaCluster : Type := mkMetaCluster { cl_log : list EtcdEvent; cl_nodes : list MetaNode }.

Inductive EtcdOp : Type :=
| OpLoad (prefix : string)       (* [connect], to the end of the first load *)
| OpWatch (i : nat)              (* [connect], from there *)
| OpPutSegment (i : nat) (d : SegmentDesc)
| OpRemoveSegment (i : nat) (name : string)
| OpExec (i k : nat)             (* a spawned request reaches etcd *)
| OpFail (i k : nat)             (* a spawned request fails *)
| OpDeliver (i : nat).           (* the watch hands over the next event *)

Section cluster.
Context `{SegmentCodec, HashIter}.

Definition on_node (i : nat) (f : MetaNode → option MetaNode) (c : MetaCluster) : option MetaCluster :=
  n ← cl_nodes c !! i; n ← f n; Some (mkMetaCluster (cl_log c) (<[i := n]> (cl_nodes c))).

(** The methods exist once [connect] has returned. *)
Definition on_backend (i : nat) (f : EtcdMetadata → EtcdMetadata) : MetaCluster → option MetaCluster :=
  on_node i (λ n, match nd_seen n with Some w => Some (mkMetaNode (f (nd_meta n)) (nd_loaded n) (Some w)) | None => None end).

Definition take_task (k : nat) (n : MetaNode) : option (EtcdTask * MetaNode) :=
  t ← em_tasks (nd_meta n) !! k;
  Some (t, mkMetaNode (mkEtcd (em_prefix (nd_meta n)) (em_cache (nd_meta n)) (delete k (em_tasks (nd_meta n)))) (nd_loaded n) (nd_seen n)).

Definition cl_run (op : EtcdOp) (c : MetaCluster) : option MetaCluster :=
  match op with
  | OpLoad prefix =>
      Some (mkMetaCluster (cl_log c) (cl_nodes c ++ [mkMetaNode (mkEtcd prefix (em_load prefix (etcd_store (cl_log c))) []) (length (cl_log c)) None]))
  | OpWatch i =>
      on_node i (λ n, match nd_seen n with None => Some (mkMetaNode (nd_meta n) (nd_loaded n) (Some (length (cl_log c)))) | Some _ => None end) c
  | OpPutSegment i d => on_backend i (put_segment d) c
  | OpRemoveSegment i name => on_backend i (remove_segment name) c
  | OpExec i k =>
      n ← cl_nodes c !! i; '(t, n) ← take_task k n;
      Some (mkMetaCluster (cl_log c ++ task_events t (cl_log c)) (<[i := n]> (cl_nodes c)))
  | OpFail i k => on_node i (λ n, snd <$> take_task k n) c
  | OpDeliver i =>
      on_node i (λ n, w ← nd_seen n; e ← cl_log c !! w;
        Some (mkMetaNode (mkEtcd (em_prefix (nd_meta n)) (watch_event (em_prefix (nd_meta n)) e (em_cache (nd_meta n))) (em_tasks (nd_meta n)))
                (nd_loaded n) (Some (S w)))) c
  end.

Fixpoint cl_trace (ops : list EtcdOp) (c : MetaCluster) : option MetaCluster :=
  match ops with [] => Some c | op :: ops => c ← cl_run op c; cl_trace ops c end.

(** The segment etcd holds under a name. *)
Definition seg_of (prefix : string) (kvs : gmap string (list Z)) (name : string) : option SegmentDesc :=
  v ← kvs !! (prefix +:+ name)%string; seg_from_slice v.

(** Nothing in flight: no request is outstanding and every watch has seen the history. *)
Definition settled (c : MetaCluster) : Prop :=
  Forall (λ n, em_tasks (nd_meta n) = [] ∧ nd_seen n = Some (length (cl_log c))) (cl_nodes c).
End cluster.

(** ** Events and the keys of a prefix *)

Lemma strip_prefix_spec p s r : strip_prefix p s = Some r ↔ s = (p +:+ r)%string.
Proof.
  revert s. induction p as [|a p IH]; intros s; cbn; [by split; [intros [= ->]|intros ->]|]. destruct s as [|b s]; [done|].
  destruct (Ascii.eqb_spec a b) as [->|Hab]; [|split; [done|intros [= -> _]; done]]. rewrite IH. split; [by intros ->|by intros [= ->]].
Qed.

Lemma strip_prefix_app p r : strip_prefix p (p +:+ r)%string = Some r.
Proof. by apply strip_prefix_spec. Qed.

Section convergence.
Context `{SegmentCodec, HashIter} (P : string).
Implicit Types (name : string) (e : EtcdEvent) (log : list EtcdEvent).

Notation key_of name := (P +:+ name)%string.

Definition ev_value e : option SegmentDesc := match e with EvPut _ v => seg_from_slice v | EvDelete _ => None end.

(** The keys under the prefix hold the descriptor of that name. *)
Definition ev_wf e : Prop :=
  match e with
  | EvPut k v => ∀ name, k = key_of name → ∃ d, seg_from_slice v = Some d ∧ sd_name d = name
  | EvDelete _ => True
  end.

Lemma watch_event_lookup e cache name :
  ev_wf e → watch_event P e cache !! name = if decide (ev_key e = key_of name) then ev_value e else cache !! name.
Proof.
  intros Hwf. unfold watch_event. destruct (strip_prefix P (ev_key e)) as [n|] eqn:Hs.
  - apply strip_prefix_spec in Hs. rewrite Hs. destruct (decide (n = name)) as [->|Hn].
    + rewrite decide_True by done. destruct e as [k v|k]; cbn in *; [|by rewrite lookup_delete_eq].
      destruct (Hwf name Hs) as (d & Hd & <-). unfold insert_desc. by rewrite Hd, lookup_insert_eq.
    + rewrite decide_False by (by intros Hx%(inj _)). destruct e as [k v|k]; cbn in *; [|by rewrite lookup_delete_ne].
      destruct (Hwf n Hs) as (d & Hd & <-). unfold insert_desc. by rewrite Hd, lookup_insert_ne.
  - rewrite decide_False; [done|]. intros Hk. rewrite Hk, strip_prefix_app in Hs. done.
Qed.

Lemma seg_of_apply kvs e name : seg_of P (apply_event kvs e) name = if decide (ev_key e = key_of name) then ev_value e else seg_of P kvs name.
Proof.
  unfold seg_of. destruct e as [k v|k]; cbn; case_decide as Hk; subst.
  - by rewrite lookup_insert_eq.
  - by rewrite lookup_insert_ne.
  - by rewrite lookup_delete_eq.
  - by rewrite lookup_delete_ne.
Qed.

Lemma etcd_store_snoc log e : etcd_store (log ++ [e]) = apply_event (etcd_store log) e.
Proof. unfold etcd_store. by rewrite foldl_app. Qed.

Lemma etcd_store_wf log k v name :
  Forall ev_wf log → etcd_store log !! k = Some v → k = key_of name → ∃ d, seg_from_slice v = Some d ∧ sd_name d = name.
Proof.
  induction log as [|e log IH] using rev_ind; [done|]. intros [Hl He]%Forall_app. apply Forall_cons in He as [He _].
  rewrite etcd_store_snoc. destruct e as [k' v'|k']; cbn; intros Hk ->.
  - apply lookup_insert_Some in Hk as [[-> ->]|[_ Hk]]; [by apply He|by eapply IH].
  - apply lookup_delete_Some in Hk as [_ Hk]. by eapply IH.
Qed.

(** The load finds what etcd holds. *)
Lemma em_load_fold l cache name :
  NoDup l.*1 → (∀ k v n, (k, v) ∈ l → k = key_of n → ∃ d, seg_from_slice v = Some d ∧ sd_name d = n) →
  foldl (λ c kv, if strip_prefix P kv.1 then insert_desc c kv.2 else c) cache l !! name
  = match list_find (λ kv, kv.1 = key_of name) l with Some (_, kv) => seg_from_slice kv.2 | None => cache !! name end.
Proof.
  revert cache. induction l as [|[k v] l IH]; intros cache Hnd Hwf; [done|]. cbn [foldl fst snd]. apply NoDup_cons in Hnd as [Hk Hnd].
  rewrite IH; [|done|intros k' v' n' Hin; apply Hwf; by right]. cbn. case_decide as Hd; cbn in Hd.
  - subst k. rewrite strip_prefix_app. destruct (Hwf (key_of name) v name) as (d & Hdec & <-); [by left|done|].
    destruct (list_find _ l) as [[i [k' v']]|] eqn:Hf; [|unfold insert_desc; by rewrite Hdec, lookup_insert_eq].
    apply list_find_Some in Hf as (Hl & Hk' & _). cbn in Hk'. subst k'. destruct Hk. apply list_elem_of_fmap. exists (key_of (sd_name d), v'). split; [done|]. by apply list_elem_of_lookup_2 with i.
  - destruct (list_find _ l) as [[i [k' v']]|]; [done|]. cbn. destruct (strip_prefix P k) as [n|] eqn:Hs; [|done]. apply strip_prefix_spec in Hs as ->.
    destruct (Hwf (key_of n) v n) as (d & Hdec & <-); [by left|done|]. unfold insert_desc. rewrite Hdec, lookup_insert_ne; [done|]. intros Hn. apply Hd. by rewrite Hn.
Qed.

Lemma em_load_lookup log name : Forall ev_wf log → em_load P (etcd_store log) !! name = seg_of P (etcd_store log) name.
Proof.
  intros Hwf. unfold em_load. set (l := merge_sort key_le (map_to_list (etcd_store log))).
  assert (l ≡ₚ map_to_list (etcd_store log)) as Hp by apply merge_sort_Permutation.
  rewrite em_load_fold.
  - unfold seg_of. destruct (list_find _ l) as [[i [k v]]|] eqn:Hf.
    + apply list_find_Some in Hf as (Hl & Hk & _). cbn in Hk. subst k. apply list_elem_of_lookup_2 in Hl. rewrite Hp in Hl.
      apply elem_of_map_to_list in Hl. by rewrite Hl.
    + apply list_find_None in Hf. destruct (etcd_store log !! key_of name) as [v|] eqn:Hk; [|by rewrite lookup_empty].
      exfalso. apply elem_of_map_to_list in Hk. rewrite <- Hp in Hk. rewrite Forall_forall in Hf. by apply (Hf _ Hk).
  - rewrite Hp. apply NoDup_fst_map_to_list.
  - intros k v n Hin Hk. rewrite Hp in Hin. apply elem_of_map_to_list in Hin. by eapply etcd_store_wf.
Qed.

(** ** The invariant *)

Definition task_key (t : EtcdTask) : string := match t with TaskPut k _ => k | TaskDelete k => k end.
Definition task_value (t : EtcdTask) : option SegmentDesc := match t with TaskPut _ v => seg_from_slice v | TaskDelete _ => None end.
Definition task_wf (t : EtcdTask) : Prop := ∃ name, task_key t = key_of name ∧ match t with TaskPut _ v => ∃ d, seg_from_slice v = Some d ∧ sd_name d = name | TaskDelete _ => True end.

Definition touches name e : Prop := ev_key e = key_of name.

(** A cached entry is what etcd holds, or an event about it is still to be seen, or the node's own write of it is still
    on its way. *)
Definition entry_ok log (m : EtcdMetadata) (w : nat) name : Prop :=
  Exists (touches name) (drop w log) ∨ em_cache m !! name = seg_of P (etcd_store log) name
  ∨ ∃ t, t ∈ em_tasks m ∧ task_key t = key_of name ∧ task_value t = em_cache m !! name.

Definition node_ok log (n : MetaNode) : Prop :=
  em_prefix (nd_meta n) = P ∧ Forall task_wf (em_tasks (nd_meta n)) ∧
  match nd_seen n with
  | None => em_tasks (nd_meta n) = [] ∧ (nd_loaded n = length log → ∀ name, em_cache (nd_meta n) !! name = seg_of P (etcd_store log) name) ∧ (nd_loaded n ≤ length log)%nat
  | Some w => (w ≤ length log)%nat ∧ ∀ name, entry_ok log (nd_meta n) w name
  end.

Definition cluster_ok (c : MetaCluster) : Prop := Forall ev_wf (cl_log c) ∧ Forall (node_ok (cl_log c)) (cl_nodes c).

(** Every node connects with the prefix and loses nothing between its load and its watch; no request fails. *)
Definition steady (op : EtcdOp) (c : MetaCluster) : Prop :=
  match op with
  | OpLoad prefix => prefix = P
  | OpWatch i => ∀ n, cl_nodes c !! i = Some n → nd_loaded n = length (cl_log c)
  | OpFail _ _ => False
  | _ => True
  end.
Fixpoint steady_trace (ops : list EtcdOp) (c : MetaCluster) : Prop :=
  match ops with
  | [] => True
  | op :: ops => steady op c ∧ match cl_run op c with Some c' => steady_trace ops c' | None => True end
  end.

#[local] Instance touches_dec name e : Decision (touches name e).
Proof. unfold touches. apply _. Defined.

Lemma seg_of_untouched log evs name : ¬ Exists (touches name) evs → seg_of P (etcd_store (log ++ evs)) name = seg_of P (etcd_store log) name.
Proof.
  induction evs as [|e evs IH] using rev_ind; [by rewrite app_nil_r|]. intros Hn. rewrite Exists_app, Exists_cons in Hn.
  rewrite app_assoc, etcd_store_snoc, seg_of_apply. unfold touches in Hn. rewrite decide_False by tauto. apply IH. tauto.
Qed.

Lemma entry_ok_app log evs m w name : (w ≤ length log)%nat → entry_ok log m w name → entry_ok (log ++ evs) m w name.
Proof.
  intros Hw Hok. unfold entry_ok. rewrite drop_app_le by done. rewrite Exists_app. destruct (decide (Exists (touches name) evs)) as [He|He]; [by left; right|].
  rewrite seg_of_untouched by done. destruct Hok as [?|[?|?]]; [by left; left|by right; left|by right; right].
Qed.

Lemma node_ok_app log evs n : node_ok log n → node_ok (log ++ evs) n.
Proof.
  intros (Hp & Ht & Hs). split_and!; [done..|]. destruct (nd_seen n) as [w|].
  - destruct Hs as [Hw He]. rewrite length_app. split; [lia|]. intros name. by apply entry_ok_app.
  - destruct Hs as (Hnil & Hl & Hle). rewrite length_app. split_and!; [done| |lia]. intros Hlen.
    assert (evs = []) as -> by (apply length_zero_iff_nil; lia). rewrite app_nil_r. apply Hl. lia.
Qed.

(** A request that runs either leaves an event about its key, or deletes nothing. *)
Lemma task_events_key t log name :
  task_key t = key_of name → Exists (touches name) (task_events t log) ∨ (task_events t log = [] ∧ task_value t = None ∧ seg_of P (etcd_store log) name = None).
Proof.
  intros Hk. destruct t as [k v|k]; cbn in *; subst; [left; by apply Exists_cons_hd|]. unfold seg_of.
  destruct (etcd_store log !! key_of name); [left; by apply Exists_cons_hd|by right].
Qed.

Lemma task_events_wf t log : task_wf t → Forall ev_wf (task_events t log).
Proof.
  intros (name & Hk & Ht). destruct t as [k v|k]; cbn in *.
  - apply Forall_singleton. cbn. intros n Hn. rewrite Hk in Hn. by apply (inj _) in Hn as <-.
  - destruct (etcd_store log !! k); [by apply Forall_singleton|by apply Forall_nil].
Qed.

Lemma exec_node_ok log n k t n' : node_ok log n → take_task k n = Some (t, n') → node_ok (log ++ task_events t log) n' ∧ task_wf t.
Proof.
  intros Hn Ht. unfold take_task in Ht. apply bind_Some in Ht as (t' & Hk & [= -> <-]). destruct Hn as (Hp & Htw & Hs).
  assert (task_wf t) as Hwf by (rewrite Forall_forall in Htw; apply Htw; by apply list_elem_of_lookup_2 with k).
  pose proof (delete_Permutation _ _ _ Hk) as Hperm. split; [|done]. split; [done|]. split; [cbn; by apply Forall_delete|]. cbn.
  destruct (nd_seen n) as [w|].
  2: { destruct Hs as (Hnil & _). rewrite Hnil in Hk. done. }
  destruct Hs as [Hw He]. rewrite length_app. split; [lia|]. intros name.
  destruct (entry_ok_app log (task_events t log) (nd_meta n) w name Hw (He name)) as [?|[?|(t' & Hin & Hkey & Hval)]]; [by left|by right; left|].
  rewrite Hperm in Hin. apply elem_of_cons in Hin as [->|Hin]; [|right; right; by exists t'].
  unfold entry_ok. rewrite drop_app_le, Exists_app by done. destruct (task_events_key t log name Hkey) as [Hx|(Hnil & Hv & Hseg)]; [by left; right|].
  right; left. cbn. by rewrite Hnil, app_nil_r, Hseg, <- Hval.
Qed.

Lemma deliver_node_ok log n w e :
  Forall ev_wf log → node_ok log n → nd_seen n = Some w → log !! w = Some e →
  node_ok log (mkMetaNode (mkEtcd (em_prefix (nd_meta n)) (watch_event (em_prefix (nd_meta n)) e (em_cache (nd_meta n))) (em_tasks (nd_meta n))) (nd_loaded n) (Some (S w))).
Proof.
  intros Hlog (Hp & Ht & Hs) Hw He. rewrite Hw in Hs. destruct Hs as [Hle Hs]. split_and!; [done..|]. cbn. pose proof (lookup_lt_Some _ _ _ He).
  split; [lia|]. intros name. specialize (Hs name). unfold entry_ok in *. cbn. rewrite (drop_S log e w He) in Hs. rewrite Exists_cons in Hs.
  rewrite Hp, watch_event_lookup by (by eapply Forall_lookup_1). destruct (decide (ev_key e = key_of name)) as [Hk|Hk]; [|unfold touches in Hs at 1; tauto].
  destruct (decide (Exists (touches name) (drop (S w) log))) as [Hx|Hx]; [by left|]. right; left.
  rewrite <- (take_drop_middle log w e He) at 1. change (e :: drop (S w) log) with ([e] ++ drop (S w) log). rewrite app_assoc, seg_of_untouched by done.
  rewrite etcd_store_snoc, seg_of_apply. by rewrite decide_True.
Qed.

(** A write of the node itself. *)
Lemma local_node_ok log n w m' t name :
  node_ok log n → nd_seen n = Some w → em_prefix m' = P → em_tasks m' = em_tasks (nd_meta n) ++ [t] → task_wf t → task_key t = key_of name →
  task_value t = em_cache m' !! name → (∀ name', name' ≠ name → em_cache m' !! name' = em_cache (nd_meta n) !! name') →
  node_ok log (mkMetaNode m' (nd_loaded n) (Some w)).
Proof.
  intros (Hp & Ht & Hs) Hw Hp' Htasks Hwf Hkey Hval Hother. rewrite Hw in Hs. destruct Hs as [Hle Hs].
  split; [done|]. split; [cbn; rewrite Htasks; apply Forall_app; split; [done|by apply Forall_singleton]|]. cbn. split; [done|]. intros name'.
  unfold entry_ok. rewrite Htasks. destruct (decide (name' = name)) as [->|Hn]; [right; right; exists t; split; [set_solver|done]|].
  rewrite Hother by done. destruct (Hs name') as [?|[?|(t' & ? & ? & ?)]]; [by left|by right; left|right; right; exists t'; split; [set_solver|done]].
Qed.

Lemma put_node_ok log n w d :
  node_ok log n → nd_seen n = Some w → node_ok log (mkMetaNode (put_segment d (nd_meta n)) (nd_loaded n) (Some w)).
Proof.
  intros Hn Hw. destruct (seg_codec_roundtrip d) as (b & Hb & Hd). pose proof (proj1 Hn) as Hp.
  apply (local_node_ok log n w _ (TaskPut (key_of (sd_name d)) b) (sd_name d)); try done; cbn.
  - unfold em_key. by rewrite Hp, Hb.
  - exists (sd_name d). by eauto.
  - by rewrite lookup_insert_eq.
  - intros name' Hne. by rewrite lookup_insert_ne.
Qed.

Lemma remove_node_ok log n w name :
  node_ok log n → nd_seen n = Some w → node_ok log (mkMetaNode (remove_segment name (nd_meta n)) (nd_loaded n) (Some w)).
Proof.
  intros Hn Hw. pose proof (proj1 Hn) as Hp. apply (local_node_ok log n w _ (TaskDelete (key_of name)) name); try done; cbn.
  - unfold em_key. by rewrite Hp.
  - by exists name.
  - by rewrite lookup_delete_eq.
  - intros name' Hne. by rewrite lookup_delete_ne.
Qed.

Lemma on_node_ok i f c c' :
  cluster_ok c → on_node i f c = Some c' → (∀ n n', cl_nodes c !! i = Some n → node_ok (cl_log c) n → f n = Some n' → node_ok (cl_log c) n') → cluster_ok c'.
Proof.
  intros [Hl Hn] Hf Hstep. unfold on_node in Hf. apply bind_Some in Hf as (n & Hi & Hf). apply bind_Some in Hf as (n' & Hf & [= <-]).
  split; [done|]. cbn. apply Forall_insert; [done|]. eapply Hstep; [done|by eapply Forall_lookup_1|done].
Qed.

Lemma on_backend_ok i g c c' :
  cluster_ok c → on_backend i g c = Some c' →
  (∀ n w, node_ok (cl_log c) n → nd_seen n = Some w → node_ok (cl_log c) (mkMetaNode (g (nd_meta n)) (nd_loaded n) (Some w))) → cluster_ok c'.
Proof. intros Hc Hr Hg. eapply on_node_ok; [done|exact Hr|]. intros n n' _ Hn Hf. cbn in Hf. destruct (nd_seen n) as [w|] eqn:Hw; simplify_eq. by apply Hg. Qed.

Lemma cluster_ok_step op c c' : cluster_ok c → steady op c → cl_run op c = Some c' → cluster_ok c'.
Proof.
  intros Hc Hst Hr. destruct op as [prefix|i|i d|i name|i k|i k|i]; cbn in Hr, Hst; [| |eapply on_backend_ok; [done|exact Hr|]; intros; by apply put_node_ok|eapply on_backend_ok; [done|exact Hr|]; intros; by apply remove_node_ok| |done|].
  - injection Hr as <-. subst. destruct Hc as [Hl Hn]. split; [done|]. cbn. apply Forall_app. split; [done|]. apply Forall_singleton.
    split_and!; [done|by apply Forall_nil|]. cbn. split_and!; [done| |done]. intros _ name. by apply em_load_lookup.
  - eapply on_node_ok; [done|exact Hr|]. intros n n' Hi (Hp & Ht & Hs) Hf. cbn in Hf. destruct (nd_seen n); simplify_eq. destruct Hs as (_ & Hl & _).
    split_and!; [done..|]. cbn. split; [done|]. intros name. right; left. by apply Hl, Hst.
  - destruct Hc as [Hl Hn]. apply bind_Some in Hr as (n & Hi & Hr). apply bind_Some in Hr as ([t n'] & Ht & [= <-]).
    pose proof (Forall_lookup_1 _ _ _ _ Hn Hi) as Hok. destruct (exec_node_ok _ _ _ _ _ Hok Ht) as [Hn' Hwf]. split; cbn.
    + apply Forall_app. split; [done|by apply task_events_wf].
    + apply Forall_insert; [|done]. eapply Forall_impl; [exact Hn|]. intros x Hx. by apply node_ok_app.
  - eapply on_node_ok; [done|exact Hr|]. intros n n' Hi Hn Hf. cbn in Hf. apply bind_Some in Hf as (w & Hw & Hf). apply bind_Some in Hf as (e & He & [= <-]).
    apply deliver_node_ok; [apply Hc|done..].
Qed.

Lemma cluster_ok_trace ops c c' : cluster_ok c → steady_trace ops c → cl_trace ops c = Some c' → cluster_ok c'.
Proof.
  revert c. induction ops as [|op ops IH]; intros c Hc Hst Hr; cbn in *; [by simplify_eq|]. destruct Hst as [Hop Hst].
  destruct (cl_run op c) as [c1|] eqn:E; [|done]. eapply IH; [by eapply cluster_ok_step|done|done].
Qed.
End convergence.

(** ** Theorems *)

(** C32 The caches converge to etcd: when every node's watch starts where its load ended and no request fails, then after any
    interleaving of publications, removals, requests reaching etcd (in any order) and watch events, once nothing is in
    flight every node answers every name exactly as etcd's content does, so all nodes agree. *)
Theorem etcd_converges `{SegmentCodec, HashIter} P log ops c n name :
  Forall (ev_wf P) log → steady_trace P ops (mkMetaCluster log []) → cl_trace ops (mkMetaCluster log []) = Some c → settled c → n ∈ cl_nodes c →
  get_segment name (nd_meta n) = seg_of P (etcd_store (cl_log c)) name.
Proof.
  intros Hlog Hst Hr Hset Hn. assert (cluster_ok P c) as [_ Hok].
  { eapply cluster_ok_trace; [|exact Hst|exact Hr]. by split; [|apply Forall_nil]. }
  rewrite Forall_forall in Hok. unfold settled in Hset. rewrite Forall_forall in Hset. destruct (Hok n Hn) as (_ & _ & Hs). destruct (Hset n Hn) as [Ht Hw].
  rewrite Hw in Hs. destruct (proj2 Hs name) as [Hx|[Hx|(t & Hin & _)]]; [|done|rewrite Ht in Hin; by apply not_elem_of_nil in Hin].
  rewrite drop_all in Hx. by apply Exists_nil in Hx.
Qed.

(** ** Runs *)

#[local] Instance ex_segment_codec : SegmentCodec.
Proof.
  refine {| seg_to_vec d := Some [Zpos (encode (sd_name d, sd_protocol d, sd_endpoint d, (λ b, (bd_offset b, bd_length b)) <$> sd_buffers d))];
            seg_from_slice l :=
              match l with
              | [Zpos p] => '(n, pr, e, bs) ← decode (A := string * string * string * list (Z * Z)) p;
                            Some (mkSegmentDesc n pr e ((λ b, mkBufferDesc b.1 b.2) <$> bs))
              | _ => None
              end |}.
  intros [n pr e bs]. eexists. split; [reflexivity|]. cbv beta iota. rewrite decode_encode. cbn. do 2 f_equal. rewrite <- list_fmap_compose.
  induction bs as [|[o l] bs IH]; [done|]. cbn. by f_equal.
Defined.
#[local] Instance ex_iter : HashIter := canonical_iter.

Definition ex_seg (endpoint : string) : SegmentDesc := mkSegmentDesc "a" "tcp" endpoint [mkBufferDesc 0 4096].

(** What each node answers for the segment at the end of a run, and what etcd holds. *)
Definition ex_answers (ops : list EtcdOp) : option (list (option string) * option string) :=
  c ← cl_trace ops (mkMetaCluster [] []);
  Some ((λ n, sd_endpoint <$> get_segment "a" (nd_meta n)) <$> cl_nodes c, sd_endpoint <$> seg_of "/q/" (etcd_store (cl_log c)) "a").

(** Two nodes; the first publishes, the second finds it, the first removes it. *)
Definition ex_ops : list EtcdOp :=
  [OpLoad "/q/"; OpWatch 0; OpLoad "/q/"; OpWatch 1; OpPutSegment 0 (ex_seg "h:1"); OpExec 0 0; OpDeliver 1; OpDeliver 0].

Lemma etcd_converges_witness :
  get_segment "a" (nd_meta (default (mkMetaNode (mkEtcd "" ∅ []) 0 None) (c ← cl_trace ex_ops (mkMetaCluster [] []); cl_nodes c !! 1%nat))) = Some (ex_seg "h:1").
Proof.
  assert (cl_trace ex_ops (mkMetaCluster [] []) = Some (default (mkMetaCluster [] []) (cl_trace ex_ops (mkMetaCluster [] [])))) as Hr by run.
  assert (settled (default (mkMetaCluster [] []) (cl_trace ex_ops (mkMetaCluster [] [])))) as Hset.
  { unfold settled. vm_compute. repeat (apply List.Forall_cons; [split; reflexivity|]). apply List.Forall_nil. }
  assert (steady_trace "/q/" ex_ops (mkMetaCluster [] [])) as Hst.
  { vm_compute. repeat (split; [first [reflexivity|exact I|intros n [= <-]; reflexivity]|]). exact I. }
  pose proof (etcd_converges "/q/" [] ex_ops _ (default (mkMetaNode (mkEtcd "" ∅ []) 0 None) (c ← cl_trace ex_ops (mkMetaCluster [] []); cl_nodes c !! 1%nat)) "a"
    (List.Forall_nil _) Hst Hr Hset) as Hget.
  rewrite Hget; [vm_compute; reflexivity|]. rewrite Hr at 1. cbn [mbind option_bind]. apply list_elem_of_lookup_2 with 1%nat. vm_compute. reflexivity.
Defined.

(** A publication between a node's load and its watch: in every later state without another write of the name the node does
    not know the segment, though nothing is in flight. *)
Lemma watch_gap_misses_segment :
  ex_answers [OpLoad "/q/"; OpWatch 0; OpPutSegment 0 (ex_seg "h:1"); OpLoad "/q/"; OpExec 0 0; OpWatch 1; OpDeliver 0] = Some ([Some "h:1"; None], Some "h:1").
Proof. vm_compute. reflexivity. Qed.

(** A removal whose request overtakes the publication's: the segment comes back, for the node that removed it too. *)
Lemma removed_segment_returns :
  ex_answers [OpLoad "/q/"; OpWatch 0; OpPutSegment 0 (ex_seg "h:1"); OpRemoveSegment 0 "a"; OpExec 0 1; OpExec 0 0; OpDeliver 0] = Some ([Some "h:1"], Some "h:1").
Proof. vm_compute. reflexivity. Qed.

(** Two publications of a name in one order, their requests in the other: the older descriptor wins everywhere. *)
Lemma older_publication_wins :
  ex_answers [OpLoad "/q/"; OpWatch 0; OpPutSegment 0 (ex_seg "h:1"); OpPutSegment 0 (ex_seg "h:2"); OpExec 0 1; OpExec 0 0; OpDeliver 0; OpDeliver 0]
  = Some ([Some "h:1"], Some "h:1").
Proof. vm_compute. reflexivity. Qed.

(** A request that fails: the publisher answers with a segment no peer will see. *)
Lemma failed_publication_stays_local :
  ex_answers [OpLoad "/q/"; OpWatch 0; OpLoad "/q/"; OpWatch 1; OpPutSegment 0 (ex_seg "h:1"); OpFail 0 0] = Some ([Some "h:1"; None], None).
Proof. vm_compute. reflexivity. Qed.
