(* ===== verification/Bench.v ===== *)
(** * The index benchmark

    crates/quillcache-core/src/bench.rs: a synthetic workload on any [IndexBackend] (ingest,
    eviction churn, prefix scans) and its report.  The theorems are about what the workload
    leaves in the index, proved against [IndexLaws] for every backend, and for the in-memory
    index with its totality and its count.

    The clock is a parameter: the two phase times and the time of each query.  The report's
    floats are [f64] computations. *)
From stdpp Require Import pretty.
From S2P Require Import Prelude F64 Identity MemIndex MemIndexProofs IndexLaws PdProxy.
From Corelib Require Import SpecFloat.

(** ** Configuration and report *)

Record IndexBenchConfig : Type := mkBenchConfig {
  bc_requests : Z;
  bc_shared_prefix_blocks : Z;
  bc_unique_blocks_per_request : Z;
  bc_block_tokens : Z;
  bc_block_bytes : Z;
  bc_scan_queries : Z;
  bc_churn_ops : Z
}.

Definition bench_config_default : IndexBenchConfig := mkBenchConfig 2000 16 4 64 (4 * 1024 * 1024) 20000 0.

Record IndexBenchReport : Type := mkBenchReport {
  br_backend : string;
  br_persistent : bool;
  br_blocks_ingested : Z;
  br_ingest_secs : f64;
  br_ingest_puts_per_sec : f64;
  br_churn_ops : Z;
  br_churn_secs : f64;
  br_churn_ops_per_sec : f64;
  br_scan_queries : Z;
  br_scan_mean_us : f64;
  br_scan_p50_us : f64;
  br_scan_p99_us : f64;
  br_scan_p999_us : f64;
  br_recovery_ms : option f64;
  br_physical_bytes_written : Z;
  br_write_amplification : f64;
  br_metrics : IndexMetrics
}.

Record BenchClock : Type := mkBenchClock { ck_ingest_secs : f64; ck_churn_secs : f64; ck_query_ns : Z → Z }.

(** ** The workload *)

Definition bench_worker : string := "worker-0".
Definition bench_scope : IdentityScope := mkScope "bench-model" "bench-tok" None "bench-tenant".

Definition shared_prefix_hash (i : Z) : string := "sp-" +:+ pretty i.
Definition shared_block (i tokens : Z) : KvBlockKey :=
  key_new "bench-model" "bench-tok" "bench-tenant" (shared_prefix_hash i) ("shared-" +:+ pretty i) i tokens.
Definition unique_block_hash (req j : Z) : string := "uniq-" +:+ pretty req +:+ "-" +:+ pretty j.
Definition unique_block (req j idx tokens : Z) : KvBlockKey :=
  key_new "bench-model" "bench-tok" "bench-tenant" ("uq-" +:+ pretty req +:+ "-" +:+ pretty j) (unique_block_hash req j) idx tokens.

(** [for x in l { .. }] with a body that may panic. *)
Fixpoint for_each {A S : Type} (body : A → S → option S) (l : list A) (s : S) : option S :=
  match l with [] => Some s | x :: l => s ← body x s; for_each body l s end.
(** [0..n]. *)
Definition range (n : Z) : list Z := seqZ 0 n.

Definition u64_mul (a b : Z) : option Z := if a * b <=? u64_max then Some (a * b) else None.

Section workload.
Context {B : Type} `{IndexBackend B}.
Implicit Types (cfg : IndexBenchConfig) (b : B).

Definition put_block cfg (k : KvBlockKey) b : option B := ix_put (residency_hbm bench_worker k (bc_block_bytes cfg)) b.

Definition put_unique cfg (req j : Z) b : option B :=
  idx ← u32_add (bc_shared_prefix_blocks cfg) j;
  put_block cfg (unique_block req j idx (bc_block_tokens cfg)) b.

(** A put and the counter. *)
Definition counted (put : Z → B → option B) (i : Z) (s : B * Z) : option (B * Z) :=
  b ← put i s.1; n ← u64_add s.2 1; Some (b, n).

Definition ingest_request cfg (req : Z) (s : B * Z) : option (B * Z) :=
  s ← for_each (counted (λ i, put_block cfg (shared_block i (bc_block_tokens cfg)))) (range (bc_shared_prefix_blocks cfg)) s;
  for_each (counted (put_unique cfg req)) (range (bc_unique_blocks_per_request cfg)) s.

Definition ingest_phase cfg b : option (B * Z) := for_each (ingest_request cfg) (range (bc_requests cfg)) (b, 0).

Definition churn_cycle cfg (c : Z) b : option B :=
  let req := c mod Z.max (bc_requests cfg) 1 in
  b ← for_each (λ j b, snd <$> ix_remove_block bench_scope bench_worker (unique_block_hash req j) b) (range (bc_unique_blocks_per_request cfg)) b;
  for_each (put_unique cfg req) (range (bc_unique_blocks_per_request cfg)) b.

Definition churn_phase cfg b : option B := for_each (churn_cycle cfg) (range (bc_churn_ops cfg)) b.

(** Both phases. *)
Definition run_workload cfg b : option (B * Z) := '(b, n) ← ingest_phase cfg b; b ← churn_phase cfg b; Some (b, n).

(** ** The report *)

(** [x.round() as usize] of a float that is not negative: halves go up. *)
Definition f64_round_usize (x : f64) : Z :=
  match x with
  | S754_finite false m e => if 0 <=? e then Z.min u64_max (Z.shiftl (Zpos m) e) else Z.shiftr (Zpos m + Z.shiftl 1 (- e - 1)) (- e)
  | S754_infinity false => u64_max
  | _ => 0
  end.

Definition f64_zero : f64 := f64_of_u64 0.
Definition us_of_ns (x : f64) : f64 := f64_div x (f64_of_u64 1000).

Definition pick (sorted : list Z) (p : f64) : option f64 :=
  let idx := f64_round_usize (f64_mul (f64_sub (f64_of_u64 (Z.of_nat (length sorted))) (f64_of_u64 1)) p) in
  n ← vget sorted idx; Some (us_of_ns (f64_of_u64 n)).

Definition summarize_us (samples : list Z) : option (f64 * f64 * f64 * f64) :=
  if decide (samples = []) then Some (f64_zero, f64_zero, f64_zero, f64_zero)
  else
    let sum := foldl (λ a n, f64_add a (f64_of_u64 n)) f64_zero samples in
    let mean := us_of_ns (f64_div sum (f64_of_u64 (Z.of_nat (length samples)))) in
    let sorted := merge_sort Z.le samples in
    p50 ← pick sorted (f64_lit 50 100); p99 ← pick sorted (f64_lit 99 100); p999 ← pick sorted (f64_lit 999 1000);
    Some (mean, p50, p99, p999).

Definition per_sec (n : Z) (secs : f64) : f64 := if f64_ltb f64_zero secs then f64_div (f64_of_u64 n) secs else f64_zero.

(** The queries only read; the backend's name and metrics are methods of the trait. *)
Definition bench_index (name : string) (persistent : bool) (metrics : B → option IndexMetrics) (clk : BenchClock) cfg b
    : option (IndexBenchReport * B) :=
  '(b, ingested) ← run_workload cfg b;
  ops ← u64_mul (bc_churn_ops cfg) (bc_unique_blocks_per_request cfg);
  churn_block_ops ← u64_mul ops 2;
  '(mean, p50, p99, p999) ← summarize_us (ck_query_ns clk <$> range (bc_scan_queries cfg));
  m ← metrics b;
  Some (mkBenchReport name persistent ingested (ck_ingest_secs clk) (per_sec ingested (ck_ingest_secs clk))
          (bc_churn_ops cfg) (ck_churn_secs clk) (per_sec churn_block_ops (ck_churn_secs clk))
          (bc_scan_queries cfg) mean p50 p99 p999 None 0 f64_zero m, b).

(** The query of the scan phase. *)
Definition scan_query cfg (q : Z) b : list CacheResidency :=
  ix_prefix_scan bench_scope (shared_prefix_hash (q mod Z.max (bc_shared_prefix_blocks cfg) 1)) b.
End workload.

(** ** Loops *)

Lemma for_each_ind {A S} (body : A → S → option S) (P : list A → S → Prop) l s s' :
  P [] s → (∀ done x s1 s2, P done s1 → x ∈ l → body x s1 = Some s2 → P (done ++ [x]) s2) → for_each body l s = Some s' → P l s'.
Proof.
  intros H0 Hstep. enough (∀ done rest s1, l = done ++ rest → P done s1 → for_each body rest s1 = Some s' → P l s') as Hgen by (intros; by eapply (Hgen []); [done|..]).
  intros done rest. revert done. induction rest as [|x rest IH]; intros done s1 Hl HP Hr; cbn in Hr.
  - injection Hr as <-. by rewrite Hl, app_nil_r.
  - apply bind_Some in Hr as (s2 & Hb & Hr). apply (IH (done ++ [x]) s2); [by rewrite <- app_assoc|eapply Hstep; [done|set_solver|done]|done].
Qed.

Lemma for_each_total {A S} (body : A → S → option S) (P : list A → S → Prop) l s :
  P [] s → (∀ dn x rest s1, l = dn ++ x :: rest → P dn s1 → ∃ s2, body x s1 = Some s2 ∧ P (dn ++ [x]) s2) →
  ∃ s', for_each body l s = Some s' ∧ P l s'.
Proof.
  intros H0 Hstep. enough (∀ rest dn s1, l = dn ++ rest → P dn s1 → ∃ s', for_each body rest s1 = Some s' ∧ P l s') as Hgen by (by eapply (Hgen l [])).
  induction rest as [|x rest IH]; intros dn s1 Hl HP; cbn [for_each]; [exists s1; by rewrite Hl, app_nil_r|].
  destruct (Hstep dn x rest s1 Hl HP) as (s2 & -> & HP2). cbn [mbind option_bind]. apply (IH (dn ++ [x])); [by rewrite <- app_assoc|done].
Qed.

Lemma elem_of_range n i : i ∈ range n ↔ 0 ≤ i < n.
Proof. unfold range. rewrite elem_of_seqZ. lia. Qed.
Lemma length_range n : length (range n) = Z.to_nat n.
Proof. apply length_seqZ. Qed.

(** ** The keys of the workload are distinct *)

Lemma pretty_digits z : 0 ≤ z → no_dash (pretty z).
Proof.
  assert (∀ x s, no_dash s → no_dash (pretty_N_go x s)) as Hgo.
  { intros x. induction (N.lt_wf_0 x) as [x _ IH]; intros s Hs. assert (x = 0 ∨ 0 < x)%N as [->|Hx] by lia; [by rewrite pretty_N_go_0|].
    rewrite pretty_N_go_step by done. apply IH; [by apply N.div_lt|]. split; [|done]. unfold pretty_N_char. repeat case_match; discriminate. }
  intros Hz. destruct z as [|p|p]; [|unfold pretty, pretty_Z|lia].
  - split; [discriminate|done].
  - unfold pretty, pretty_positive, pretty, pretty_N. rewrite decide_False by done. by apply Hgo.
Qed.

Lemma unique_hash_inj req j req' j' :
  0 ≤ req → 0 ≤ req' → unique_block_hash req j = unique_block_hash req' j' → req = req' ∧ j = j'.
Proof.
  intros H1 H2 E. unfold unique_block_hash in E. assert (∀ s t : string, "uniq-" +:+ s = "uniq-" +:+ t → s = t) as Hu by (intros s t [=]; done).
  apply Hu, dash_split in E as [Er Ej]; [|by apply pretty_digits..]. split; by apply (inj pretty).
Qed.

Lemma shared_prefix_inj i i' : shared_prefix_hash i = shared_prefix_hash i' → i = i'.
Proof. unfold shared_prefix_hash. intros E. apply (inj pretty). by injection E. Qed.

Lemma shared_block_inj t i i' : shared_block i t = shared_block i' t → i = i'.
Proof. intros E. by apply (f_equal prefix_hash), shared_prefix_inj in E. Qed.

Lemma unique_block_inj req j req' j' idx idx' t :
  0 ≤ req → 0 ≤ req' → unique_block req j idx t = unique_block req' j' idx' t → req = req' ∧ j = j'.
Proof. intros H1 H2 E. apply (f_equal block_hash) in E. by apply unique_hash_inj. Qed.

Lemma shared_not_unique i req j idx t : shared_block i t ≠ unique_block req j idx t.
Proof. discriminate. Qed.

(** ** What the workload leaves behind *)

Section keys.
Implicit Types cfg : IndexBenchConfig.

Definition shared_keys cfg : list KvBlockKey := (λ i, shared_block i (bc_block_tokens cfg)) <$> range (bc_shared_prefix_blocks cfg).
Definition unique_key cfg (req j : Z) : KvBlockKey := unique_block req j (bc_shared_prefix_blocks cfg + j) (bc_block_tokens cfg).
Definition unique_keys cfg (req : Z) : list KvBlockKey := unique_key cfg req <$> range (bc_unique_blocks_per_request cfg).
Definition bench_keys cfg : list KvBlockKey := shared_keys cfg ++ (range (bc_requests cfg) ≫= unique_keys cfg).
Definition bench_record cfg (k : KvBlockKey) : CacheResidency := residency_hbm bench_worker k (bc_block_bytes cfg).

Lemma elem_of_unique_keys cfg req k :
  k ∈ unique_keys cfg req ↔ ∃ j, 0 ≤ j < bc_unique_blocks_per_request cfg ∧ k = unique_key cfg req j.
Proof. unfold unique_keys. rewrite list_elem_of_fmap. setoid_rewrite elem_of_range. naive_solver. Qed.

Lemma elem_of_shared_keys cfg k :
  k ∈ shared_keys cfg ↔ ∃ i, 0 ≤ i < bc_shared_prefix_blocks cfg ∧ k = shared_block i (bc_block_tokens cfg).
Proof. unfold shared_keys. rewrite list_elem_of_fmap. setoid_rewrite elem_of_range. naive_solver. Qed.

Lemma NoDup_bench_keys cfg : NoDup (bench_keys cfg).
Proof.
  unfold bench_keys. apply NoDup_app. split_and!.
  - apply NoDup_fmap_2_strong; [|apply NoDup_seqZ]. intros x y _ _. apply shared_block_inj.
  - intros k (i & _ & ->)%elem_of_shared_keys (req & (j & _ & E)%elem_of_unique_keys & _)%list_elem_of_bind. by eapply shared_not_unique.
  - apply NoDup_bind; [| |apply NoDup_seqZ].
    + intros r1 r2 k H1%elem_of_range H2%elem_of_range (j1 & _ & ->)%elem_of_unique_keys (j2 & _ & E)%elem_of_unique_keys.
      apply unique_block_inj in E; lia.
    + intros req Hr%elem_of_range. apply NoDup_fmap_2_strong; [|apply NoDup_seqZ]. intros j1 j2 _ _ E. by apply unique_block_inj in E as [_ ?]; [|lia..].
Qed.

Lemma length_bench_keys cfg :
  0 ≤ bc_requests cfg → 0 ≤ bc_shared_prefix_blocks cfg → 0 ≤ bc_unique_blocks_per_request cfg →
  Z.of_nat (length (bench_keys cfg)) = bc_shared_prefix_blocks cfg + bc_requests cfg * bc_unique_blocks_per_request cfg.
Proof.
  intros Hr Hs Hu. unfold bench_keys, shared_keys. rewrite length_app, length_fmap, length_range.
  assert (∀ l, length (l ≫= unique_keys cfg) = (length l * Z.to_nat (bc_unique_blocks_per_request cfg))%nat) as Hl.
  { induction l as [|x l IH]; [done|]. rewrite bind_cons, length_app, IH. unfold unique_keys. rewrite length_fmap, length_range. cbn. lia. }
  rewrite Hl, length_range. lia.
Qed.
End keys.

Section content.
Context `{IndexLaws B}.
Implicit Types (cfg : IndexBenchConfig) (b : B) (K : gset KvBlockKey).

(** The index holds the benchmark's record of each key of [K], and nothing else. *)
Definition holds cfg K b : Prop :=
  ix_inv b ∧ ∀ k, ix_locate k b = if decide (k ∈ K) then [bench_record cfg k] else [].

Lemma put_list_same cfg k (P : Prop) `{Decision P} : put_list (bench_record cfg k) (if decide P then [bench_record cfg k] else []) = [bench_record cfg k].
Proof. case_decide; [|done]. unfold put_list. rewrite filter_cons_False; [done|]. by rewrite (proj2 (same_slot_spec _ _)). Qed.

Lemma put_block_holds cfg K k b b' : holds cfg K b → put_block cfg k b = Some b' → holds cfg (K ∪ {[k]}) b'.
Proof.
  intros [Hi Hl] Hp. destruct (ix_put_law _ _ _ Hi Hp) as [Hi' Hl']. split; [done|]. intros k'. rewrite Hl'.
  fold (bench_record cfg k). change (res_key (bench_record cfg k)) with k.
  destruct (decide (k' = k)) as [->|Hne].
  - rewrite Hl, put_list_same. by rewrite decide_True by set_solver.
  - rewrite Hl. apply decide_ext. set_solver.
Qed.

Lemma remove_holds cfg K h n b b' :
  holds cfg K b → ix_remove_block bench_scope bench_worker h b = Some (n, b') →
  holds cfg (filter (λ k, ¬ (from_key k = bench_scope ∧ block_hash k = h)) K) b'.
Proof.
  intros [Hi Hl] Hp. destruct (ix_remove_law _ _ _ _ _ _ Hi Hp) as [Hi' Hl']. split; [done|]. intros k. rewrite Hl', Hl.
  destruct (decide (from_key k = bench_scope ∧ block_hash k = h)) as [Ht|Ht].
  - rewrite (decide_False (P := k ∈ filter _ K)) by set_solver. by case_decide.
  - apply decide_ext. set_solver.
Qed.

(** A loop of puts. *)
Lemma puts_hold cfg (put : Z → B → option B) (key : Z → KvBlockKey) l K b b' :
  (∀ i b1 b2, i ∈ l → put i b1 = Some b2 → put_block cfg (key i) b1 = Some b2) →
  holds cfg K b → for_each put l b = Some b' → holds cfg (K ∪ list_to_set (key <$> l)) b'.
Proof.
  intros Hput HK. apply (for_each_ind put (λ done b, holds cfg (K ∪ list_to_set (key <$> done)) b)); [by rewrite fmap_nil, list_to_set_nil, union_empty_r_L|].
  intros dn x b1 b2 Hb Hx Hp%Hput; [|done]. apply (put_block_holds cfg _ _ _ _ Hb) in Hp.
  by rewrite fmap_app, list_to_set_app_L, (assoc_L (∪)), (list_to_set_singleton_L (key x)).
Qed.

Definition without_hashes (hs : list string) K : gset KvBlockKey := filter (λ k, ¬ (from_key k = bench_scope ∧ block_hash k ∈ hs)) K.

Lemma removes_hold cfg (hash : Z → string) l K b b' :
  holds cfg K b → for_each (λ j b, snd <$> ix_remove_block bench_scope bench_worker (hash j) b) l b = Some b' →
  holds cfg (without_hashes (hash <$> l) K) b'.
Proof.
  intros HK. apply (for_each_ind _ (λ done b, holds cfg (without_hashes (hash <$> done) K) b)).
  - replace (without_hashes (hash <$> []) K) with K; [done|]. apply set_eq. intros k. unfold without_hashes. rewrite elem_of_filter, fmap_nil, elem_of_nil. tauto.
  - intros dn x b1 b2 Hb Hx ([n b3] & Hp & ->)%fmap_Some_1. apply (remove_holds cfg _ _ _ _ _ Hb) in Hp. cbn [snd].
    eapply (eq_ind _ (λ K', holds cfg K' b3)); [exact Hp|]. apply set_eq. intros k. unfold without_hashes.
    rewrite !elem_of_filter, fmap_app, elem_of_app. change (hash <$> [x]) with [hash x]. rewrite list_elem_of_singleton. destruct (decide (from_key k = bench_scope)); naive_solver.
Qed.

Lemma for_each_counted (put : Z → B → option B) l b n b' n' :
  for_each (counted put) l (b, n) = Some (b', n') → for_each put l b = Some b' ∧ n' = n + Z.of_nat (length l).
Proof.
  revert b n. induction l as [|x l IH]; intros b n; cbn [for_each length]; [intros [= -> ->]; split; [done|lia]|].
  intros ([b1 n1] & Hc & Hr)%bind_Some. unfold counted in Hc. apply bind_Some in Hc as (b2 & Hp & (n2 & Hn & [= -> ->])%bind_Some).
  cbn [fst snd] in *. rewrite Hp. cbn [mbind option_bind]. apply IH in Hr as [-> ->]. apply u64_add_Some in Hn. split; [done|lia].
Qed.

Lemma counted_eq (put : Z → B → option B) l b n :
  n + Z.of_nat (length l) ≤ u64_max → for_each (counted put) l (b, n) = (λ b', (b', n + Z.of_nat (length l))) <$> for_each put l b.
Proof.
  revert b n. induction l as [|x l IH]; intros b n Hn; cbn [for_each length] in *; [by rewrite Z.add_0_r|].
  change (counted put x (b, n)) with (b ← put x b; k ← u64_add n 1; Some (b, k)). destruct (put x b) as [b1|]; [|done]. cbn [mbind option_bind].
  rewrite u64_add_ok by lia. cbn [mbind option_bind]. rewrite IH by lia. destruct (for_each put l b1); cbn; [do 2 f_equal; lia|done].
Qed.

Lemma put_unique_block cfg req j b b' : put_unique cfg req j b = Some b' → put_block cfg (unique_key cfg req j) b = Some b'.
Proof. unfold put_unique. intros (idx & Hi & Hp)%bind_Some. unfold u32_add in Hi. case_match; by simplify_eq. Qed.

(** A configuration whose counters fit. *)
Record bench_fits cfg : Prop := {
  bf_requests : 0 < bc_requests cfg;
  bf_shared : 0 ≤ bc_shared_prefix_blocks cfg;
  bf_unique : 0 ≤ bc_unique_blocks_per_request cfg;
  bf_churn : 0 ≤ bc_churn_ops cfg;
  bf_index : bc_shared_prefix_blocks cfg + bc_unique_blocks_per_request cfg ≤ u32_max;
  bf_puts : bc_requests cfg * (bc_shared_prefix_blocks cfg + bc_unique_blocks_per_request cfg)
              + bc_churn_ops cfg * bc_unique_blocks_per_request cfg ≤ u64_max
}.

Lemma put_unique_eq cfg req j b : bench_fits cfg → j ∈ range (bc_unique_blocks_per_request cfg) → put_unique cfg req j b = put_block cfg (unique_key cfg req j) b.
Proof. intros [] Hj%elem_of_range. unfold put_unique. by rewrite u32_add_ok by lia. Qed.

Lemma ingest_request_holds cfg req K b n b' n' :
  holds cfg K b → ingest_request cfg req (b, n) = Some (b', n') →
  holds cfg (K ∪ list_to_set (shared_keys cfg) ∪ list_to_set (unique_keys cfg req)) b' ∧
  n' = n + Z.of_nat (length (shared_keys cfg)) + Z.of_nat (length (unique_keys cfg req)).
Proof.
  intros HK ([b1 n1] & [H1 ->]%for_each_counted & [H2 ->]%for_each_counted)%bind_Some.
  unfold shared_keys, unique_keys. rewrite !length_fmap. split; [|done].
  eapply puts_hold; [|eapply puts_hold; [|exact HK|exact H1]|exact H2]; [|done]. intros i b2 b3 _. apply put_unique_block.
Qed.

Lemma ingest_holds cfg b b' n :
  0 < bc_requests cfg → holds cfg ∅ b → ingest_phase cfg b = Some (b', n) →
  holds cfg (list_to_set (bench_keys cfg)) b' ∧
  n = bc_requests cfg * (Z.of_nat (length (shared_keys cfg)) + Z.of_nat (length (unique_keys cfg 0))).
Proof.
  intros Hr HK Hi.
  set (P := λ dn (s : B * Z), holds cfg (list_to_set (if decide (dn = []) then [] else shared_keys cfg ++ (dn ≫= unique_keys cfg))) s.1 ∧
    s.2 = Z.of_nat (length dn) * (Z.of_nat (length (shared_keys cfg)) + Z.of_nat (length (unique_keys cfg 0)))).
  enough (P (range (bc_requests cfg)) (b', n)) as [Hh Hn].
  { rewrite decide_False in Hh by (intros E; apply (f_equal length) in E; rewrite length_range in E; cbn in E; lia).
    rewrite length_range in Hn. split; [done|]. cbn in Hn. lia. }
  eapply (for_each_ind (ingest_request cfg)); [|intros dn x [b1 n1] [b2 n2] [Hb1 Hn1] Hx Hs|exact Hi]; unfold P; [done|]. cbn [fst snd] in *.
  destruct (ingest_request_holds _ _ _ _ _ _ _ Hb1 Hs) as [Hb2 ->]. split.
  - eapply (eq_ind _ (λ K', holds cfg K' b2)); [exact Hb2|]. rewrite (decide_False (P := dn ++ [x] = [])) by (by destruct dn).
    rewrite bind_app, bind_cons. cbn [mbind list_bind]. rewrite app_nil_r. case_decide; set_solver.
  - rewrite length_app, Hn1. unfold unique_keys. rewrite !length_fmap. cbn. lia.
Qed.

Lemma churn_cycle_holds cfg c b b' :
  0 < bc_requests cfg → 0 ≤ c → holds cfg (list_to_set (bench_keys cfg)) b → churn_cycle cfg c b = Some b' →
  holds cfg (list_to_set (bench_keys cfg)) b'.
Proof.
  intros Hr Hc HK (b1 & H1 & H2)%bind_Some. rewrite Z.max_l in H1, H2 by lia. set (req := c mod bc_requests cfg) in *.
  assert (0 ≤ req < bc_requests cfg) as Hreq by (apply Z.mod_pos_bound; lia).
  apply (removes_hold cfg _ _ _ _ _ HK) in H1. eapply (puts_hold cfg _ (unique_key cfg req)) in H2; [|intros i b2 b3 _; apply put_unique_block|exact H1].
  eapply (eq_ind _ (λ K', holds cfg K' b')); [exact H2|]. fold (unique_keys cfg req). apply set_eq. intros k.
  unfold without_hashes, bench_keys. rewrite elem_of_union, elem_of_filter, !elem_of_list_to_set, elem_of_app, list_elem_of_bind. split.
  - intros [[_ ?]|Hk]; [done|]. right. exists req. by rewrite elem_of_range.
  - intros [Hk|(r & Hk & Hin%elem_of_range)].
    + left. split; [|by left]. intros [_ (j & E & _)%list_elem_of_fmap]. by apply elem_of_shared_keys in Hk as (i & _ & ->).
    + destruct (decide (r = req)) as [->|Hne]; [by right|]. left. split; [|right; exists r; by rewrite elem_of_range].
      intros [_ (j & E & _)%list_elem_of_fmap]. apply elem_of_unique_keys in Hk as (j' & _ & ->). apply unique_hash_inj in E; lia.
Qed.

Lemma churn_holds cfg b b' :
  0 < bc_requests cfg → holds cfg (list_to_set (bench_keys cfg)) b → churn_phase cfg b = Some b' →
  holds cfg (list_to_set (bench_keys cfg)) b'.
Proof.
  intros Hr HK. apply (for_each_ind _ (λ _ b, holds cfg (list_to_set (bench_keys cfg)) b)); [done|].
  intros _ c b1 b2 Hb1 [Hc _]%elem_of_range. by apply churn_cycle_holds.
Qed.

(** The snapshot of an index that holds [K] lists each record once. *)
Lemma NoDup_by_key {A} (f : A → KvBlockKey) (l : list A) : (∀ k, (length (filter (λ x, f x = k) l) ≤ 1)%nat) → NoDup l.
Proof.
  induction l as [|x l IH]; intros Hk; constructor.
  - intros Hin. specialize (Hk (f x)). rewrite filter_cons_True in Hk by done. cbn in Hk.
    assert (x ∈ filter (λ y, f y = f x) l) as Hx by (by apply list_elem_of_filter). destruct (filter _ l); [by apply elem_of_nil in Hx|cbn in Hk; lia].
  - apply IH. intros k. specialize (Hk k). rewrite filter_cons in Hk. case_decide; cbn in Hk; lia.
Qed.

Lemma holds_snapshot cfg ks b : NoDup ks → holds cfg (list_to_set ks) b → ix_snapshot b ≡ₚ bench_record cfg <$> ks.
Proof.
  intros Hks [Hi Hl]. apply NoDup_Permutation.
  - apply (NoDup_by_key res_key). intros k. rewrite ix_snapshot_law, Hl by done. case_decide; cbn; lia.
  - apply NoDup_fmap_2_strong; [|done]. by intros k1 k2 _ _ [= ->].
  - intros r. rewrite ix_snapshot_locate by done. rewrite Hl, list_elem_of_fmap. case_decide as Hk.
    + rewrite list_elem_of_singleton. split; [intros ->; eexists; split; [done|set_solver]|]. by intros (k & -> & _).
    + split; [by intros ?%elem_of_nil|]. intros (k & -> & Hin). destruct Hk. set_solver.
Qed.

Lemma bench_index_holds name persistent metrics clk cfg b report b' :
  0 < bc_requests cfg → holds cfg ∅ b → bench_index name persistent metrics clk cfg b = Some (report, b') →
  holds cfg (list_to_set (bench_keys cfg)) b' ∧ metrics b' = Some (br_metrics report) ∧
  br_blocks_ingested report = bc_requests cfg * (Z.of_nat (length (shared_keys cfg)) + Z.of_nat (length (unique_keys cfg 0))).
Proof.
  unfold bench_index. intros Hr HK ([b2 n2] & ([b1 n] & Hi & (b3 & Hc & [= <- <-])%bind_Some)%bind_Some & Hb)%bind_Some.
  apply (ingest_holds _ _ _ _ Hr HK) in Hi as [Hh Hn]. apply churn_holds in Hc; [|done..].
  apply bind_Some in Hb as (ops & _ & (cops & _ & ([[[mean p50] p99] p999] & _ & (m & Hm & [= <- <-])%bind_Some)%bind_Some)%bind_Some). done.
Qed.
End content.

(** ** The in-memory index *)

Section memory.
Context `{HashIter}.
Implicit Types (cfg : IndexBenchConfig) (m : MemoryIndex) (K : gset KvBlockKey).

Definition mholds cfg K (p r : Z) m : Prop := holds cfg K m ∧ puts m = p ∧ removes m = r.

Lemma mi_new_holds cfg : mholds cfg ∅ 0 0 mi_new.
Proof. split; [|done]. split; [apply mi_new_inv|]. intros k. by rewrite decide_False by set_solver. Qed.

Lemma put_block_total cfg K p r k m :
  mholds cfg K p r m → p + 1 ≤ u64_max → ∃ m', put_block cfg k m = Some m' ∧ mholds cfg (K ∪ {[k]}) (p + 1) r m'.
Proof.
  intros (HK & <- & <-) Hp. destruct (mi_put_spec (bench_record cfg k) m (proj1 HK) Hp) as (m' & E & _ & Hp' & Hr' & _).
  exists m'. split; [exact E|]. split; [by eapply put_block_holds|done].
Qed.

Lemma put_loop_total cfg (put : Z → MemoryIndex → option MemoryIndex) (key : Z → KvBlockKey) l K p r m :
  (∀ i m, i ∈ l → put i m = put_block cfg (key i) m) → mholds cfg K p r m → p + Z.of_nat (length l) ≤ u64_max →
  ∃ m', for_each put l m = Some m' ∧ mholds cfg (K ∪ list_to_set (key <$> l)) (p + Z.of_nat (length l)) r m'.
Proof.
  intros Hput HK Hp. destruct (for_each_total put (λ dn m, mholds cfg (K ∪ list_to_set (key <$> dn)) (p + Z.of_nat (length dn)) r m) l m) as (m' & E & H').
  - by rewrite fmap_nil, list_to_set_nil, union_empty_r_L, Z.add_0_r.
  - intros dn x rest m1 -> Hm1. rewrite Hput by set_solver. rewrite length_app in Hp. cbn in Hp.
    destruct (put_block_total _ _ _ _ (key x) _ Hm1) as (m2 & E & H2); [lia|]. exists m2. split; [done|].
    rewrite fmap_app, list_to_set_app_L, (assoc_L (∪)), (list_to_set_singleton_L (key x)), length_app. cbn [length].
    by replace (p + Z.of_nat (length dn + 1)) with (p + Z.of_nat (length dn) + 1) by lia.
  - by exists m'.
Qed.

Lemma remove_total cfg K p r k m :
  mholds cfg K p r m → k ∈ K → (∀ k', k' ∈ K → from_key k' = bench_scope ∧ block_hash k' = block_hash k ↔ k' = k) → r + 1 ≤ u64_max →
  ∃ m', snd <$> ix_remove_block bench_scope bench_worker (block_hash k) m = Some m' ∧ mholds cfg (K ∖ {[k]}) p (r + 1) m'.
Proof.
  intros (HK & <- & <-) Hk Hu Hr. pose proof (proj1 HK) as HI. assert (block_count bench_scope bench_worker (block_hash k) m = 1) as Hc.
  { rewrite block_count_length by done. enough (filter (taken bench_scope bench_worker (block_hash k)) (mi_snapshot m) ≡ₚ [bench_record cfg k]) as -> by done.
    apply NoDup_Permutation; [apply NoDup_filter, NoDup_snapshot, HI|apply NoDup_singleton|]. intros x.
    rewrite list_elem_of_filter, list_elem_of_singleton. change (mi_snapshot m) with (ix_snapshot m). rewrite (ix_snapshot_locate _ _ HI), (proj2 HK).
    unfold taken. case_decide as Hx.
    - rewrite list_elem_of_singleton. split; [|intros ->; split; [|done]; split; [done|by apply Hu]].
      intros [(_ & Ht) Hx']. rewrite Hx'. f_equal. by apply Hu.
    - split; [by intros [_ ?%elem_of_nil]|]. intros ->. done. }
  destruct (mi_remove_block_spec bench_scope bench_worker (block_hash k) m HI) as (m' & E & _ & Hr' & Hp' & _); [lia|].
  exists m'. cbn [ix_remove_block mi_backend]. rewrite E. split; [done|]. rewrite Hc in Hr'. split; [|done].
  eapply (eq_ind _ (λ K', holds cfg K' m')); [exact (remove_holds _ _ _ _ _ _ HK E)|]. apply set_eq. intros k'.
  rewrite elem_of_filter, elem_of_difference, elem_of_singleton. specialize (Hu k'). tauto.
Qed.

Lemma length_shared cfg : bench_fits cfg → Z.of_nat (length (shared_keys cfg)) = bc_shared_prefix_blocks cfg.
Proof. intros []. unfold shared_keys. rewrite length_fmap, length_range. lia. Qed.
Lemma length_unique cfg req : bench_fits cfg → Z.of_nat (length (unique_keys cfg req)) = bc_unique_blocks_per_request cfg.
Proof. intros []. unfold unique_keys. rewrite length_fmap, length_range. lia. Qed.
Lemma length_range_of n : 0 ≤ n → Z.of_nat (length (range n)) = n.
Proof. rewrite length_range. lia. Qed.

Lemma ingest_request_total cfg req K p n m :
  bench_fits cfg → let w := bc_shared_prefix_blocks cfg + bc_unique_blocks_per_request cfg in
  mholds cfg K p 0 m → p + w ≤ u64_max → n + w ≤ u64_max →
  ∃ m' K', ingest_request cfg req (m, n) = Some (m', n + w) ∧ mholds cfg K' (p + w) 0 m'.
Proof.
  intros Hf w HK Hp Hn. pose proof Hf as []. unfold ingest_request.
  destruct (put_loop_total cfg (λ i, put_block cfg (shared_block i (bc_block_tokens cfg))) (λ i, shared_block i (bc_block_tokens cfg)) (range (bc_shared_prefix_blocks cfg)) K p 0 m)
    as (m1 & E1 & H1); [done..|rewrite length_range_of; lia|].
  rewrite counted_eq, E1 by (rewrite length_range_of; lia). cbn [fmap option_fmap option_map mbind option_bind]. rewrite length_range_of in * by done.
  destruct (put_loop_total cfg (put_unique cfg req) (unique_key cfg req) (range (bc_unique_blocks_per_request cfg)) _ _ _ _
    (λ i m Hi, put_unique_eq cfg req i m Hf Hi) H1) as (m2 & E2 & H2); [rewrite length_range_of; lia|].
  rewrite counted_eq, E2 by (rewrite length_range_of; lia). cbn [fmap option_fmap option_map]. rewrite length_range_of in * by done.
  eexists m2, _. split; [do 2 f_equal; lia|]. subst w. rewrite Z.add_assoc. exact H2.
Qed.

Lemma ingest_total cfg :
  bench_fits cfg → ∃ m, ingest_phase cfg mi_new = Some (m, bc_requests cfg * (bc_shared_prefix_blocks cfg + bc_unique_blocks_per_request cfg))
    ∧ mholds cfg (list_to_set (bench_keys cfg)) (bc_requests cfg * (bc_shared_prefix_blocks cfg + bc_unique_blocks_per_request cfg)) 0 m.
Proof.
  intros Hf. pose proof Hf as []. set (w := bc_shared_prefix_blocks cfg + bc_unique_blocks_per_request cfg).
  destruct (for_each_total (ingest_request cfg) (λ dn s, s.2 = Z.of_nat (length dn) * w ∧ ∃ K, mholds cfg K (Z.of_nat (length dn) * w) 0 s.1)
    (range (bc_requests cfg)) (mi_new, 0)) as ([m n] & E & Hn & K & HK).
  - split; [done|]. exists ∅. apply mi_new_holds.
  - intros dn x rest [m1 n1] Hl [Hn [K HK]]. cbn [fst snd] in *. apply (f_equal (Z.of_nat ∘ length)) in Hl. cbn in Hl.
    rewrite length_range_of in Hl by lia. rewrite length_app in Hl. cbn in Hl.
    assert (Z.of_nat (length dn) * w + w ≤ u64_max) by (subst w; nia).
    destruct (ingest_request_total cfg x K _ n1 m1 Hf HK) as (m2 & K2 & E & H2); [subst n1; fold w; lia..|]. exists (m2, n1 + w). split; [exact E|].
    rewrite length_app. cbn [fst snd length]. split; [lia|]. exists K2. by replace (Z.of_nat (length dn + 1) * w) with (Z.of_nat (length dn) * w + w) by lia.
  - exists m. cbn [fst snd] in *. rewrite length_range_of in Hn, HK by lia. subst n. unfold ingest_phase. split; [exact E|].
    split; [|exact (proj2 HK)]. by eapply (ingest_holds cfg mi_new), E; [|apply mi_new_holds].
Qed.

Lemma bench_key_of cfg req j k :
  bench_fits cfg → 0 ≤ req → k ∈ bench_keys cfg → from_key k = bench_scope ∧ block_hash k = block_hash (unique_key cfg req j) ↔ k = unique_key cfg req j.
Proof.
  intros Hf Hr [Hk|(r & Hk & Hin%elem_of_range)%list_elem_of_bind]%elem_of_app.
  - apply elem_of_shared_keys in Hk as (i & _ & ->). split; [by intros [_ E]|done].
  - apply elem_of_unique_keys in Hk as (j' & _ & ->). split; [intros [_ E]; by apply unique_hash_inj in E as [-> ->]; [|lia..]|by intros ->].
Qed.

Lemma churn_cycle_total cfg c p r m :
  bench_fits cfg → 0 ≤ c → mholds cfg (list_to_set (bench_keys cfg)) p r m →
  p + bc_unique_blocks_per_request cfg ≤ u64_max → r + bc_unique_blocks_per_request cfg ≤ u64_max →
  ∃ m', churn_cycle cfg c m = Some m' ∧ mholds cfg (list_to_set (bench_keys cfg)) (p + bc_unique_blocks_per_request cfg) (r + bc_unique_blocks_per_request cfg) m'.
Proof.
  intros Hf Hc HK Hp Hr. pose proof Hf as []. unfold churn_cycle. rewrite Z.max_l by lia. set (req := c mod bc_requests cfg).
  assert (0 ≤ req < bc_requests cfg) as Hreq by (apply Z.mod_pos_bound; lia).
  destruct (for_each_total (λ j m, snd <$> ix_remove_block bench_scope bench_worker (unique_block_hash req j) m)
    (λ dn m, mholds cfg (list_to_set (bench_keys cfg) ∖ list_to_set (unique_key cfg req <$> dn)) p (r + Z.of_nat (length dn)) m)
    (range (bc_unique_blocks_per_request cfg)) m) as (m1 & E1 & H1).
  - by rewrite fmap_nil, list_to_set_nil, difference_empty_L, Z.add_0_r.
  - intros dn x rest m2 Hl H2. pose proof (f_equal (Z.of_nat ∘ length) Hl) as Hn. cbn in Hn. rewrite length_range_of, length_app in Hn by lia. cbn in Hn.
    assert (x ∈ range (bc_unique_blocks_per_request cfg)) as Hx by (rewrite Hl; set_solver). pose proof (NoDup_seqZ 0 (bc_unique_blocks_per_request cfg)) as Hnd.
    fold (range (bc_unique_blocks_per_request cfg)) in Hnd. rewrite Hl in Hnd. apply NoDup_app in Hnd as (_ & Hnd & _).
    destruct (remove_total cfg _ _ _ (unique_key cfg req x) m2 H2) as (m3 & E3 & H3); [| |lia|].
    + apply elem_of_difference. split.
      * apply elem_of_list_to_set, elem_of_app. right. apply list_elem_of_bind. exists req. rewrite elem_of_range. split; [|done].
        apply elem_of_unique_keys. exists x. by apply elem_of_range in Hx.
      * intros (y & E & Hy)%elem_of_list_to_set%list_elem_of_fmap. apply unique_block_inj in E as [_ ->]; [|lia..]. by apply (Hnd y Hy); left.
    + intros k [Hk _]%elem_of_difference. apply elem_of_list_to_set in Hk. apply bench_key_of; [done|lia|done].
    + exists m3. split; [exact E3|]. rewrite fmap_app, list_to_set_app_L, length_app, (list_to_set_singleton_L (unique_key cfg req x)), <- difference_difference_l_L.
      cbn [length]. by replace (r + Z.of_nat (length dn + 1)) with (r + Z.of_nat (length dn) + 1) by lia.
  - rewrite E1. cbn [mbind option_bind]. rewrite length_range_of in H1 by done.
    destruct (put_loop_total cfg (put_unique cfg req) (unique_key cfg req) (range (bc_unique_blocks_per_request cfg)) _ _ _ _
      (λ i m Hi, put_unique_eq cfg req i m Hf Hi) H1) as (m2 & E2 & H2); [rewrite length_range_of; lia|].
    exists m2. split; [exact E2|]. rewrite length_range_of in H2 by done. eapply (eq_ind _ (λ K', mholds cfg K' _ _ m2)); [exact H2|].
    rewrite difference_union_L. apply set_eq. intros k. rewrite elem_of_union, !elem_of_list_to_set.
    split; [|by left]. intros [?|Hk]; [done|]. apply elem_of_app. right. apply list_elem_of_bind. exists req. by rewrite elem_of_range.
Qed.

Lemma churn_total cfg m :
  bench_fits cfg → let n := bc_requests cfg * (bc_shared_prefix_blocks cfg + bc_unique_blocks_per_request cfg) in
  let c := bc_churn_ops cfg * bc_unique_blocks_per_request cfg in
  mholds cfg (list_to_set (bench_keys cfg)) n 0 m → ∃ m', churn_phase cfg m = Some m' ∧ mholds cfg (list_to_set (bench_keys cfg)) (n + c) c m'.
Proof.
  intros Hf n c HK. pose proof Hf as []. set (u := bc_unique_blocks_per_request cfg) in *.
  destruct (for_each_total (churn_cycle cfg) (λ dn m, mholds cfg (list_to_set (bench_keys cfg)) (n + Z.of_nat (length dn) * u) (Z.of_nat (length dn) * u) m)
    (range (bc_churn_ops cfg)) m) as (m' & E & H').
  - cbn. by rewrite Z.add_0_r.
  - intros dn x rest m1 Hl H1. assert (0 ≤ x) as Hx by (apply (elem_of_range (bc_churn_ops cfg)); rewrite Hl; set_solver).
    apply (f_equal (Z.of_nat ∘ length)) in Hl. cbn in Hl. rewrite length_range_of, length_app in Hl by lia. cbn in Hl.
    destruct (churn_cycle_total cfg x _ _ m1 Hf Hx H1) as (m2 & E & H2); [fold u; subst n; nia..|]. exists m2. split; [done|].
    rewrite length_app. cbn [length]. fold u in H2. replace (Z.of_nat (length dn + 1) * u) with (Z.of_nat (length dn) * u + u) by lia. by rewrite Z.add_assoc.
  - exists m'. split; [done|]. by rewrite length_range_of in H' by lia.
Qed.

Lemma mi_len_snapshot m : mi_len m = Z.of_nat (length (mi_snapshot m)).
Proof.
  unfold mi_len, mi_snapshot. induction (hvalues (entries m)) as [|l L IH]; [done|]. rewrite fmap_cons, bind_cons, length_app. cbn [foldr].
  rewrite IH, Nat2Z.inj_add. done.
Qed.

(** [prefix_scan] is a filter of the snapshot. *)
Lemma mi_prefix_scan_snapshot sc p m :
  mi_inv m → mi_prefix_scan sc p m = filter (λ r, from_key (res_key r) = sc ∧ prefix_hash (res_key r) = p) (mi_snapshot m).
Proof.
  intros HI. unfold mi_prefix_scan, mi_snapshot, hvalues. assert (∀ k l, (k, l) ∈ hiter (entries m) → Forall (λ r, res_key r = k) l) as Hk.
  { intros k l Hl%elem_of_hiter. by destruct (iv_entries _ HI k l Hl) as (_ & ? & _). }
  induction (hiter (entries m)) as [|[k l] L IH]; [done|]. rewrite filter_cons, fmap_cons, bind_cons, filter_app, <- IH by (intros; apply Hk; by right).
  cbn [fst snd]. assert (Forall (λ r, res_key r = k) l) as Hl by (apply Hk; by left). pose proof (scope_matches_iff sc k) as Hsc. case_decide as Hd.
  - rewrite bind_cons. cbn [snd]. f_equal. unfold id. rewrite list_filter_all; [done|]. intros r Hr. rewrite Forall_forall in Hl. rewrite (Hl r Hr). destruct Hd as [?%Hsc ?]. done.
  - unfold id. rewrite (list_filter_none _ l); [done|]. intros r Hr [H1 H2]. rewrite Forall_forall in Hl. rewrite (Hl r Hr) in *. apply Hd. split; [by apply Hsc|done].
Qed.

Lemma scan_query_hit cfg q m :
  bench_fits cfg → 0 ≤ q → holds cfg (list_to_set (bench_keys cfg)) m →
  scan_query cfg q m = if decide (0 < bc_shared_prefix_blocks cfg)
                       then [bench_record cfg (shared_block (q mod bc_shared_prefix_blocks cfg) (bc_block_tokens cfg))] else [].
Proof.
  intros [] Hq HK. unfold scan_query. cbn [ix_prefix_scan mi_backend]. rewrite mi_prefix_scan_snapshot by apply HK.
  set (P := λ i r, from_key (res_key r) = bench_scope ∧ prefix_hash (res_key r) = shared_prefix_hash i).
  assert (∀ i r, 0 ≤ i → P i r ∧ r ∈ mi_snapshot m ↔ i < bc_shared_prefix_blocks cfg ∧ r = bench_record cfg (shared_block i (bc_block_tokens cfg))) as Hin.
  { intros i r Hi0. rewrite (holds_snapshot cfg (bench_keys cfg) m (NoDup_bench_keys cfg) HK : mi_snapshot m ≡ₚ _), list_elem_of_fmap.
    unfold bench_keys. setoid_rewrite elem_of_app. setoid_rewrite elem_of_shared_keys. split.
    - intros ((_ & Hp) & k & -> & [(i' & Hi' & ->)|(req & (j & _ & ->)%elem_of_unique_keys & _)%list_elem_of_bind]); [|done].
      apply shared_prefix_inj in Hp as ->. split; [lia|done].
    - intros [Hi ->]. split; [done|]. eexists. split; [done|]. left. by exists i. }
  case_decide as Hs.
  - rewrite Z.max_l by lia. apply Permutation_singleton_r, NoDup_Permutation; [apply NoDup_filter, NoDup_snapshot, HK|apply NoDup_singleton|].
    intros r. rewrite list_elem_of_filter, list_elem_of_singleton. pose proof (Z.mod_pos_bound q (bc_shared_prefix_blocks cfg) Hs) as Hb.
    etransitivity; [apply (Hin _ r (proj1 Hb))|]. naive_solver lia.
  - apply elem_of_nil_inv. intros r Hr%list_elem_of_filter. pose proof (Z.mod_pos_bound q (Z.max (bc_shared_prefix_blocks cfg) 1) ltac:(lia)).
    apply Hin in Hr as [? _]; lia.
Qed.
End memory.

(** ** Theorems *)

(** The benchmark's workload leaves the same content in every backend that keeps the index laws: started on an empty
    index, a run that returns has ingested requests times (shared + unique) blocks and its index lists exactly one record
    for each shared block and for each unique block of each request; the evictions of the churn phase leave no trace. *)
Theorem bench_content `{IndexLaws B} name persistent (metrics : B → option IndexMetrics) clk cfg b report b' :
  0 < bc_requests cfg → 0 ≤ bc_shared_prefix_blocks cfg → 0 ≤ bc_unique_blocks_per_request cfg →
  ix_inv b → (∀ k, ix_locate k b = []) → bench_index name persistent metrics clk cfg b = Some (report, b') →
  ix_snapshot b' ≡ₚ bench_record cfg <$> bench_keys cfg ∧
  Z.of_nat (length (ix_snapshot b')) = bc_shared_prefix_blocks cfg + bc_requests cfg * bc_unique_blocks_per_request cfg ∧
  br_blocks_ingested report = bc_requests cfg * (bc_shared_prefix_blocks cfg + bc_unique_blocks_per_request cfg).
Proof.
  intros Hr Hs Hu Hi He Hb. assert (holds cfg ∅ b) as HK by (split; [done|]; intros k; by rewrite decide_False by set_solver).
  destruct (bench_index_holds _ _ _ _ _ _ _ _ Hr HK Hb) as (Hh & _ & Hn).
  pose proof (holds_snapshot cfg _ _ (NoDup_bench_keys cfg) Hh) as Hp. split; [done|]. rewrite Hp, length_fmap, length_bench_keys by lia. split; [done|].
  rewrite Hn. unfold shared_keys, unique_keys. rewrite !length_fmap, !length_range. lia.
Qed.

(** On the in-memory index the workload always runs: when the counters fit, ingest and churn return, the index then
    holds shared + requests times unique blocks, the put and remove counters are those of the phases, and each query of
    the scan phase hits exactly the one shared block it names (none when there are no shared blocks). *)
Theorem bench_memory_runs `{HashIter} cfg :
  bench_fits cfg → let n := bc_requests cfg * (bc_shared_prefix_blocks cfg + bc_unique_blocks_per_request cfg) in
  ∃ m m', ingest_phase cfg mi_new = Some (m, n) ∧ churn_phase cfg m = Some m' ∧
    mi_len m' = bc_shared_prefix_blocks cfg + bc_requests cfg * bc_unique_blocks_per_request cfg ∧
    puts m' = n + bc_churn_ops cfg * bc_unique_blocks_per_request cfg ∧ removes m' = bc_churn_ops cfg * bc_unique_blocks_per_request cfg ∧
    ∀ q, 0 ≤ q → scan_query cfg q m' = if decide (0 < bc_shared_prefix_blocks cfg)
      then [bench_record cfg (shared_block (q mod bc_shared_prefix_blocks cfg) (bc_block_tokens cfg))] else [].
Proof.
  intros Hf n. destruct (ingest_total cfg Hf) as (m & E & HK). destruct (churn_total cfg m Hf HK) as (m' & E' & HK' & Hp & Hr).
  exists m, m'. split_and!; [done..| |done|done|intros q Hq; by apply scan_query_hit].
  rewrite mi_len_snapshot, (holds_snapshot cfg _ m' (NoDup_bench_keys cfg) HK' : mi_snapshot m' ≡ₚ _), length_fmap. destruct Hf. apply length_bench_keys; lia.
Qed.

(** ** Runs *)

Section runs.
#[local] Existing Instance canonical_iter.

(** The repository's two tests, with the churn. *)
Definition small_bench : IndexBenchConfig := mkBenchConfig 20 2 2 32 1024 50 100.
(** A smaller one, run to its report. *)
Definition tiny_bench : IndexBenchConfig := mkBenchConfig 3 2 1 32 1024 4 3.
Definition small_clock : BenchClock := mkBenchClock (f64_of_u64 1) (f64_of_u64 2) (λ q, 1000 * (q + 1)).
Definition small_run : IndexBenchReport * MemoryIndex :=
  default (mkBenchReport "" false 0 f64_zero f64_zero 0 f64_zero f64_zero 0 f64_zero f64_zero f64_zero f64_zero None 0 f64_zero (mkIndexMetrics 0 0 0 0 0 0), mi_new)
    (bench_index "memory" false mi_metrics small_clock tiny_bench mi_new).

Lemma small_run_ok : bench_index "memory" false mi_metrics small_clock tiny_bench mi_new = Some (small_run.1, small_run.2).
Proof. unfold small_run. assert (is_Some (bench_index "memory" false mi_metrics small_clock tiny_bench mi_new)) as [[r m] ->]; [|done]. apply (proj1 (bool_decide_spec _)). vm_compute. done. Qed.

Example small_report :
  (br_blocks_ingested small_run.1, im_resident_blocks (br_metrics small_run.1), br_churn_ops_per_sec small_run.1, br_scan_p50_us small_run.1)
  = (9, 5, f64_of_u64 3, f64_of_u64 3).
Proof. vm_compute. reflexivity. Qed.

Lemma bench_content_witness : Z.of_nat (length (mi_snapshot small_run.2)) = 5 ∧ br_blocks_ingested small_run.1 = 9.
Proof.
  pose proof (bench_content "memory" false mi_metrics small_clock tiny_bench mi_new small_run.1 small_run.2) as Hb.
  destruct Hb as (_ & Hl & Hn); [done..|apply mi_new_inv|done|apply small_run_ok|]. split; [exact Hl|exact Hn].
Defined.

Lemma bench_memory_runs_witness : ∃ m m', ingest_phase small_bench mi_new = Some (m, 80) ∧ churn_phase small_bench m = Some m' ∧ mi_len m' = 42.
Proof.
  destruct (bench_memory_runs small_bench) as (m & m' & E & E' & Hl & _); [by split|]. exists m, m'. split; [exact E|]. split; [exact E'|exact Hl].
Defined.
End runs.
