(* ===== verification/Demos.v ===== *)
(** * The demos: a local cluster, the prefill/decode handoff and a transfer node

    src/cluster.rs, src/pd.rs and src/transfer_node.rs compose the control plane, the transfer
    engines, the master and the distributed client the way a deployment does.  The address each
    listener is bound to is given by [bind] ([None]: the bind fails); the theorems are about
    every choice of distinct addresses.  Printing is left out: what the demos print is their report. *)
From stdpp Require Import pretty.
From S2P Require Import Prelude F64 Order BufferAllocator OffsetAllocator Identity ShardedMap CountMin MemIndex Router RouterPlan Conductor Replication DataPlane CoScheduler Control StoreTypes Strategy OpLog Master SegmentLedger MasterInv MasterEvict MasterOps MasterSegments Recovery MasterSteps MasterTheorems MasterExamples TransferTypes TcpTransport TransferEngine Client ClientTheorems RealClient Bench.

Inductive DemoError : Type :=
| DemoIo
| DemoStore (e : ErrorCode)
| DemoPlan (e : ControlError)
| DemoAggregated
| DemoMismatch.

Definition i32_max : Z := 2147483647.
Definition i32_add (a b : Z) : option Z := if (a + b <=? i32_max) && (- i32_max - 1 <=? a + b) then Some (a + b) else None.

Notation Bind := (string → option string).

Section demos.
Context `{HashIter} `{KeyHash} `{EntryCodec} `{RegexEngine} `{IoMessages}.
Notation Client := (RealClient (M := InMemoryMetadata)).
Notation Nodes := (World InMemoryMetadata).
Implicit Types (c : Client) (w : Nodes).

Definition empty_world : Nodes := mkWorld ∅ in_memory_new.

(** [TransferEngine::init] of a name, on the address the system gives it. *)
Definition start_node (bind : Bind) (name : string) w : option (TransferEngine * Nodes) := ep ← bind name; Some (te_init name ep w).

(** ** transfer_node.rs: one segment over the wire, for ever *)

Definition run_transfer_node (bind : Bind) (segment : string) : option Nodes := snd <$> start_node bind segment empty_world.

(** ** cluster.rs *)

Definition identity (tenant : string) : IdentityScope := mkScope "Qwen2.5" "Qwen2.5" None tenant.
Definition node_name (i : Z) : string := "node-" +:+ pretty i.

Definition start_nodes (bind : Bind) (n : Z) w : option Nodes := for_each (λ i w, snd <$> start_node bind (node_name i) w) (range n) w.
Definition mount_nodes (n : Z) c : option Client := for_each (λ i c, real_mount (node_name i) (Z.shiftl 1 20) c) (range n) c.

Definition system_prompt : string := "shared-system-prompt".
Definition prompt_kv : list Z := replicate (Z.to_nat 4096) 7.

(** A get that returned 4096 bytes is counted.  The list is a history variable: what each get returned, which the code drops. *)
Definition get_counted (_ : Z) (s : Z * list (result ErrorCode (list Z)) * Client) : outcome (Z * list (result ErrorCode (list Z)) * Client) :=
  let '(served, answers, c) := s in
  match real_get system_prompt (identity "tenant-a") c with
  | (Panic, _) => Panic
  | (Done r, c) =>
      if match r with Ok b => Z.of_nat (length b) =? 4096 | Err _ => false end
      then match i32_add served 1 with Some n => Done (n, answers ++ [r], c) | None => Panic end
      else Done (served, answers ++ [r], c)
  end.
Fixpoint get_loop (l : list Z) (s : Z * list (result ErrorCode (list Z)) * Client) : outcome (Z * list (result ErrorCode (list Z)) * Client) :=
  match l with [] => Done s | x :: l => match get_counted x s with Panic => Panic | Done s => get_loop l s end end.

Definition is_refused {A} (r : result ErrorCode A) : bool := match r with Err (UnsafeReuse _) => true | _ => false end.

(** What the demo prints, and the answers of its gets. *)
Record ClusterReport : Type := mkClusterReport { cr_served : Z; cr_refused : bool; cr_objects : Z; cr_segments : Z; cr_answers : list (result ErrorCode (list Z)) }.

Definition cluster_workload (nodes_n requests : Z) c : outcome (result DemoError ClusterReport) :=
  match real_put system_prompt (identity "tenant-a") prompt_kv (config_replicas (Z.min nodes_n 3)) c with
  | (Panic, _) => Panic
  | (Done (Err e), _) => Done (Err (DemoStore e))
  | (Done (Ok _), c) =>
      match get_loop (range requests) (0, [], c) with
      | Panic => Panic
      | Done (served, answers, c) =>
          match real_get system_prompt (identity "tenant-b") c with
          | (Panic, _) => Panic
          | (Done r, c) => Done (Ok (mkClusterReport served (is_refused r) (object_count (rc_master c)) (segment_count (rc_master c)) answers))
          end
      end
  end.

Definition run_cluster (bind : Bind) (nodes requests : Z) : outcome (result DemoError ClusterReport) :=
  let nodes_n := Z.max nodes 2 in
  match start_nodes bind nodes_n empty_world with
  | None => Done (Err DemoIo)
  | Some w =>
      match start_node bind "client" w with
      | None => Done (Err DemoIo)
      | Some (client_engine, w) =>
          match mount_nodes nodes_n (real_new "random" client_engine w) with
          | None => Panic
          | Some c => cluster_workload nodes_n requests c
          end
      end
  end.

(** ** pd.rs *)

Definition qwen : string := "Qwen/Qwen2.5-0.5B-Instruct".
Definition pd_endpoint (id : string) (role : EngineRole) : EngineEndpoint :=
  mkEndpoint id Vllm role "http://127.0.0.1:0" qwen qwen "tenant-a" "local".
Definition identity_of (r : RequestShape) : IdentityScope := mkScope (req_model_id r) (req_tokenizer_id r) (req_adapter_id r) (req_tenant_id r).
Definition pd_request : RequestShape :=
  mkRequest "req-pd-0" qwen qwen None "tenant-a" None [key_new qwen qwen "tenant-a" "root" "blk-cold" 0 64] 16 slo_default.

Definition pd_kv : list Z := replicate (Z.to_nat 4096) 165.

(** The data path: the prefill node serves a segment, the decode node's client publishes and reads. *)
Definition pd_data_path (bind : Bind) (r : RequestShape) (h : KvHandoff) : outcome (result DemoError unit) :=
  match start_node bind "prefill-a" empty_world with
  | None => Done (Err DemoIo)
  | Some (_, w) =>
      match start_node bind "decode-a" w with
      | None => Done (Err DemoIo)
      | Some (decode_engine, w) =>
          match real_mount "prefill-a" (Z.shiftl 1 20) (real_new "random" decode_engine w) with
          | None => Panic
          | Some c =>
              let id := identity_of r in
              let key := "kv-handoff:" +:+ kh_request_id h in
              match real_put key id pd_kv (config_replicas 1) c with
              | (Panic, _) => Panic
              | (Done (Err e), _) => Done (Err (DemoStore e))
              | (Done (Ok _), c) =>
                  match real_get key id c with
                  | (Panic, _) => Panic
                  | (Done (Err e), _) => Done (Err (DemoStore e))
                  | (Done (Ok received), c) =>
                      match real_get key (mkScope (s_model_id id) (s_tokenizer_id id) (s_adapter_id id) "tenant-b") c with
                      | (Panic, _) => Panic
                      | (Done x, c) => if bool_decide (received = pd_kv) && is_refused x then Done (Ok tt) else Done (Err DemoMismatch)
                      end
                  end
              end
          end
      end
  end.

Context `{Libm}.

Definition run_pd_demo (bind : Bind) : outcome (result DemoError unit) :=
  match plan pd_request (control_new [pd_endpoint "prefill-a" Prefill; pd_endpoint "decode-a" Decode]) with
  | None => Panic
  | Some (Err e, _) => Done (Err (DemoPlan e))
  | Some (Ok p, _) =>
      match kv_handoff p with
      | None => Done (Err DemoAggregated)
      | Some h => match rq_mode p with Disaggregated => pd_data_path bind pd_request h | AggregatedMode => Panic end
      end
  end.
End demos.

(** ** Lemmas *)

Section lemmas.
Context `{HashIter} `{KeyHash} `{EntryCodec} `{RegexEngine} `{IoMessages}.
Notation Client := (RealClient (M := InMemoryMetadata)).
Implicit Types (c : Client) (W : Written).

(** The key has a complete replica, written under the identity. *)
Definition published (key : string) (id : IdentityScope) c : Prop :=
  ∃ o i b, view (rc_master c) !! key = Some o ∧ obj_identity o = id ∧ obj_replicas o !! i = Some (set_status Complete (replica_new i (Memory b))).

Definition staged_len c (n : Z) : Prop := ∃ L, rc_staged c = Some L ∧ Z.of_nat (length L) = n.

Lemma published_get key id id' c W r m :
  real_inv c W → published key id c → get_replica_list key id' (rc_master c) = Some (r, m) →
  config_eq (rc_master c) m ∧ published key id (mkReal m (rc_engine c) (rc_world c)) ∧
  if decide (id' = id) then ∃ rs, r = Ok rs else ∃ v, r = Err (UnsafeReuse v).
Proof.
  intros HI (o & i & b & Hk & Hid & Hi) Hget. pose proof (reachable_inv _ (ri_reach _ _ HI)) as Hm.
  destruct (get_granted key id' (rc_master c) o i b Hm (ri_ttl _ _ HI) Hk Hi) as (r1 & m1 & Hget1 & Hr). rewrite Hget in Hget1. injection Hget1 as <- <-.
  destruct (get_replica_list_spec key id' (rc_master c) Hm) as (r2 & m2 & Hget2 & _ & Hcfg & _ & Hspec). rewrite Hget in Hget2. injection Hget2 as <- <-.
  split; [done|]. split; [|by rewrite Hid in Hr]. unfold published. cbn [rc_master]. rewrite Hk in Hspec.
  destruct (reuse_violation_against (obj_identity o) id') as [v|]; [destruct Hspec as [_ ->]; eauto 10|]. cbn zeta in Hspec.
  case_decide; destruct Hspec as [_ ->]; [eauto 10|]. eexists _, i, b. rewrite lookup_insert_eq. done.
Qed.

(** A get of a published key by its writer. *)
Lemma get_served key id data c W n :
  real_inv c W → published key id c → W !! key = Some (id, data) → staged_len c n → n + Z.of_nat (length data) ≤ isize_max →
  ∃ c', real_get key id c = (Done (Ok data), c') ∧ real_inv c' W ∧ published key id c' ∧ staged_len c' (n + Z.of_nat (length data))
    ∧ config_eq (rc_master c) (rc_master c').
Proof.
  intros HI Hp HW (L & HL & Hn) Hroom.
  destruct (real_get_ok key id c W HI) as (r & m & Hget & Hspec); [intros L0 d HL0 Hd; simplify_eq; congruence || lia|].
  destruct (published_get key id id c W r m HI Hp Hget) as (Hcfg & Hp' & Hr). rewrite decide_True in Hr by done. destruct Hr as [rs ->].
  destruct Hspec as (d & c' & Hd & Hrun & HI' & Hm & Hst). rewrite HW in Hd. injection Hd as <-. exists c'. split; [done|]. split; [done|].
  split; [unfold published; by rewrite Hm|]. split; [|by rewrite Hm]. destruct (Hst L HL) as (L' & HL' & Hlen). exists L'. split; [done|lia].
Qed.

(** A get of a published key under another identity. *)
Lemma get_refused key id id' c W :
  real_inv c W → published key id c → id' ≠ id → W !! key = None ∨ fst <$> W !! key = Some id →
  ∃ v c', real_get key id' c = (Done (Err (UnsafeReuse v)), c') ∧ config_eq (rc_master c) (rc_master c').
Proof.
  intros HI Hp Hne HW. destruct (real_get_ok key id' c W HI) as (r & m & Hget & Hspec).
  { intros L d _ Hd. rewrite Hd in HW. cbn in HW. destruct HW as [?|[=]]; done. }
  destruct (published_get key id id' c W r m HI Hp Hget) as (Hcfg & _ & Hr). rewrite decide_False in Hr by done. destruct Hr as [v ->].
  destruct Hspec as [-> _]. by eexists v, _.
Qed.

Lemma put_published key id data config c W n :
  real_inv c W → op_ok (OPutStart key id (Z.of_nat (length data)) config) (rc_master c) → staged_len c n →
  n + replica_num config * Z.of_nat (length data) ≤ isize_max → 0 < replica_num config →
  ∃ r c', real_put key id data config c = (Done r, c') ∧
    (is_ok r = true → real_inv c' (<[key := (id, data)]> W) ∧ published key id c' ∧ staged_len c' (n + replica_num config * Z.of_nat (length data))
       ∧ config_eq (rc_master c) (rc_master c')).
Proof.
  intros HI Hok (L & HL & Hn) Hroom Hpos.
  destruct (real_put_ok key id data config c W HI Hok) as (r & c' & Hrun & HI' & Hpub & Hst & Hcfg); [intros L0 HL0; simplify_eq; lia|].
  exists r, c'. split; [done|]. intros Hr. rewrite Hr in HI'. split; [done|]. split; [|split; [|done]].
  - destruct (Hpub Hr Hpos) as (o & i & b & ? & ? & ?). by exists o, i, b.
  - destruct (Hst Hr L HL) as (L' & HL' & Hlen). exists L'. split; [done|lia].
Qed.

Lemma config_segment_count m m' : config_eq m m' → segment_count m' = segment_count m.
Proof. intros Hc. unfold segment_count. pose proof (f_equal length (ce_shape _ _ Hc)) as Hl. unfold shape, allocs in Hl. rewrite !length_fmap in Hl. by f_equal. Qed.

(** ** Bringing the nodes up *)

Definition fresh_binds (bind : Bind) : Prop := ∀ n1 n2 ep, bind n1 = Some ep → bind n2 = Some ep → n1 = n2.

(** The node serves an empty arena at its address. *)
Definition serves (bind : Bind) (w : World InMemoryMetadata) (name : string) : Prop :=
  ∃ ep, bind name = Some ep ∧ get_segment name (w_meta w) = Some (mkSegmentDesc name "tcp" ep []) ∧ live (w_net w) ep = Some [].

Lemma start_node_serves bind name w e w' :
  fresh_binds bind → start_node bind name w = Some (e, w') →
  serves bind w' name ∧ has_tcp e ∧ staged e w' = Some [] ∧ bind name = Some (te_segment e) ∧ ∀ n, serves bind w n → n ≠ name → serves bind w' n.
Proof.
  intros Hf (ep & Hep & [= <- <-])%bind_Some. split; [|split; [done|split; [by apply live_insert|split; [done|]]]].
  - exists ep. split; [done|]. cbn. rewrite lookup_insert_eq. split; [done|]. by apply live_insert.
  - intros n (ep' & Hep' & Hd & Hl) Hne. exists ep'. split; [done|]. cbn in *. rewrite lookup_insert_ne by done. split; [done|].
    rewrite live_insert_ne; [done|]. intros ->. by apply Hne, (Hf _ _ ep').
Qed.

Lemma serves_pool bind e w ns :
  fresh_binds bind → (∀ n, n ∈ ns → serves bind w n) → (∀ n, n ∈ ns → bind n ≠ Some (te_segment e)) → pool_ok ns e w.
Proof.
  intros Hf Hs Hne. split.
  - intros n Hn. destruct (Hs n Hn) as (ep & Hep & Hd & Hl). split; [exists []; apply node_mem_Some; eauto|].
    unfold node_of. rewrite Hd. cbn. intros [=]. apply (Hne n Hn). congruence.
  - intros n1 n2 Hn1 Hn2. destruct (Hs n1 Hn1) as (ep1 & Hep1 & Hd1 & _), (Hs n2 Hn2) as (ep2 & Hep2 & Hd2 & _).
    unfold node_of. rewrite Hd1, Hd2. cbn. intros [= ->]. by apply (Hf _ _ ep2).
Qed.

Lemma node_name_inj i j : node_name i = node_name j → i = j.
Proof. unfold node_name. intros E. apply (inj pretty). by injection E. Qed.
Lemma node_not_client i : node_name i ≠ "client".
Proof. discriminate. Qed.

Lemma start_nodes_serve bind n w w' :
  fresh_binds bind → start_nodes bind n w = Some w' → ∀ i, i ∈ range n → serves bind w' (node_name i).
Proof.
  intros Hf Hs. assert (NoDup (range n)) as Hnd by apply NoDup_seqZ. revert Hnd.
  eapply (for_each_ind _ (λ dn w, NoDup dn → ∀ i, i ∈ dn → serves bind w (node_name i))); [by intros _ i []%elem_of_nil| |exact Hs].
  intros dn x w1 w2 IH Hx ([e w3] & Hst & ->)%fmap_Some_1 (Hd & Hnx & _)%NoDup_app i Hi. cbn [snd].
  destruct (start_node_serves _ _ _ _ _ Hf Hst) as (Hsv & _ & _ & _ & Hold). apply elem_of_app in Hi as [Hi| ->%list_elem_of_singleton]; [|done].
  apply Hold; [by apply IH|]. intros E%node_name_inj. subst. by apply (Hnx x Hi); left.
Qed.

Lemma sum_const (l : list (string * Z)) k : (∀ p, p ∈ l → p.2 = k) → foldr Z.add 0 l.*2 = Z.of_nat (length l) * k.
Proof.
  induction l as [|p l IH]; intros Hk; [done|]. rewrite fmap_cons. cbn [foldr length]. rewrite IH by (intros; apply Hk; by right). rewrite (Hk p) by (by left). lia.
Qed.

(** One mount of a served name. *)
Lemma mount_step name cap c W :
  real_reach c W → mountable name cap (rc_master c) → cap ≤ isize_max → pool_ok (names (rc_master c) ++ [name]) (rc_engine c) (rc_world c) →
  ∃ c', real_mount name cap c = Some c' ∧ real_reach c' W ∧ rc_engine c' = rc_engine c ∧ rc_world c' = rc_world c
    ∧ shape (allocs (rc_master c')) = shape (allocs (rc_master c)) ++ [(name, cap)] ∧ next_replica_id (segments (rc_master c')) = next_replica_id (segments (rc_master c)).
Proof.
  intros Hr Hm Hcap Hp. destruct (mount_segment_spec name cap (rc_master c) (reachable_inv _ (ri_reach _ _ (real_reach_inv _ _ Hr))) Hm)
    as (m & Hrun & _ & _ & _ & Hsh & _ & _ & Hid & _).
  exists (mkReal m (rc_engine c) (rc_world c)). assert (real_mount name cap c = Some (mkReal m (rc_engine c) (rc_world c))) as Hmount by (unfold real_mount; by rewrite Hrun).
  split; [done|]. split; [by eapply rr_mount|done].
Qed.

Lemma shape_names_eq m l : shape (allocs m) = l → names m = l.*1.
Proof. intros <-. unfold names, shape. by rewrite <- list_fmap_compose. Qed.
Lemma shape_caps_eq m l : shape (allocs m) = l → capacity <$> allocs m = l.*2.
Proof. intros <-. unfold shape. by rewrite <- list_fmap_compose. Qed.

Lemma mount_nodes_ok n e w :
  0 ≤ n → n * Z.shiftl 1 20 ≤ u64_max → has_tcp e → staged e w = Some [] → pool_ok (node_name <$> range n) e w →
  ∃ c, mount_nodes n (real_new "random" e w) = Some c ∧ real_reach c ∅ ∧ rc_engine c = e ∧ rc_world c = w
    ∧ segment_count (rc_master c) = n ∧ next_replica_id (segments (rc_master c)) = 0.
Proof.
  intros Hn Hcap Ht Hst [Hrem Hinj].
  destruct (for_each_total (λ i c, real_mount (node_name i) (Z.shiftl 1 20) c)
    (λ dn c, real_reach c ∅ ∧ rc_engine c = e ∧ rc_world c = w ∧ shape (allocs (rc_master c)) = (λ i, (node_name i, Z.shiftl 1 20)) <$> dn
       ∧ next_replica_id (segments (rc_master c)) = 0) (range n) (real_new "random" e w)) as (c & Hrun & Hr & He & Hw & Hsh & Hid).
  - split; [apply rr_new; [done|by rewrite Hst]|done].
  - intros dn x rest c1 Hl (Hr & <- & <- & Hsh & Hid). assert (NoDup (range n)) as Hnd by apply NoDup_seqZ. rewrite Hl in Hnd.
    apply NoDup_app in Hnd as (_ & Hnd & _). pose proof (f_equal (Z.of_nat ∘ length) Hl) as Hlen. cbn in Hlen. rewrite length_range_of, length_app in Hlen by done. cbn in Hlen.
    pose proof (shape_names_eq _ _ Hsh) as Hnm. rewrite <- list_fmap_compose in Hnm. unfold compose in Hnm. cbn in Hnm.
    destruct (mount_step (node_name x) (Z.shiftl 1 20) c1 ∅) as (c2 & Hm & Hr2 & He2 & Hw2 & Hsh2 & Hid2); [done| |by vm_compute| |].
    + split; [by vm_compute|]. split.
      * rewrite Hnm. intros (y & E%node_name_inj & Hy)%list_elem_of_fmap. subst. by apply (Hnd y Hy); left.
      * rewrite (shape_caps_eq _ _ Hsh), (sum_const _ (Z.shiftl 1 20)) by (by intros p (y & -> & _)%list_elem_of_fmap). rewrite length_fmap. change (Z.shiftl 1 20) with 1048576 in *. lia.
    + assert (∀ nm, nm ∈ names (rc_master c1) ++ [node_name x] → nm ∈ node_name <$> range n) as Hsub.
      { intros nm. rewrite Hnm, Hl, fmap_app, fmap_cons. set_solver. }
      split; [intros nm Hnm'; by apply Hrem, Hsub|intros n1 n2 Hn1 Hn2; apply Hinj; by apply Hsub].
    + exists c2. split; [done|]. rewrite He2, Hw2, Hsh2, Hid2, Hsh, fmap_app. done.
  - exists c. split; [done|]. split_and!; [done..| |done]. unfold segment_count. apply (f_equal length) in Hsh. unfold shape, allocs in Hsh.
    rewrite !length_fmap in Hsh. rewrite Hsh. by apply length_range_of.
Qed.

(** The gets of the cluster demo: each returns the prompt's bytes. *)
Lemma get_loop_ok l s rs c W n :
  real_inv c W → published system_prompt (identity "tenant-a") c → W !! system_prompt = Some (identity "tenant-a", prompt_kv) →
  staged_len c n → n + Z.of_nat (length l) * 4096 ≤ isize_max → 0 ≤ s → s + Z.of_nat (length l) ≤ i32_max →
  ∃ c', get_loop l (s, rs, c) = Done (s + Z.of_nat (length l), rs ++ replicate (length l) (Ok prompt_kv), c') ∧ real_inv c' W
    ∧ published system_prompt (identity "tenant-a") c' ∧ config_eq (rc_master c) (rc_master c').
Proof.
  revert s rs c n. induction l as [|x l IH]; intros s rs c n HI Hp HW Hst Hroom Hs Hmax; cbn [get_loop length replicate] in *.
  { exists c. rewrite Z.add_0_r, app_nil_r. done. }
  assert (Z.of_nat (length prompt_kv) = 4096) as Hlen by (unfold prompt_kv; rewrite length_replicate; lia).
  destruct (get_served _ _ _ _ _ _ HI Hp HW Hst) as (c1 & Hget & HI1 & Hp1 & Hst1 & Hcfg1); [lia|].
  unfold get_counted. rewrite Hget, Hlen. cbn [Z.eqb Pos.eqb]. unfold i32_add.
  rewrite (proj2 (Z.leb_le (s + 1) _)), (proj2 (Z.leb_le _ (s + 1))) by (unfold i32_max in *; lia). cbn [andb].
  destruct (IH (s + 1) (rs ++ [Ok prompt_kv]) c1 (n + 4096)) as (c' & -> & HI' & Hp' & Hcfg'); [done..|by rewrite <- Hlen|lia|lia|lia|].
  exists c'. rewrite <- app_assoc. split; [do 3 f_equal; lia|]. split_and!; [done..|]. by etrans.
Qed.
End lemmas.

(** ** Theorems *)

Section theorems.
Context `{HashIter} `{KeyHash} `{EntryCodec} `{RegexEngine} `{IoMessages}.

(** C39 The cluster demo, with at most i32::MAX requests, segments that add up to at most 2^64 - 1 bytes, and distinct addresses: it returns, never
    panics, and unless a bind failed or the master refused the put, every one of the requested gets answered exactly the 4096 bytes put, all of them
    are counted as served, the other tenant was refused, and the master has the mounted segments (at least two). *)
Theorem cluster_serves_all bind nodes requests :
  fresh_binds bind → 0 ≤ requests ≤ i32_max → 0 ≤ nodes → Z.max nodes 2 * Z.shiftl 1 20 ≤ u64_max →
  ∃ r, run_cluster bind nodes requests = Done r ∧
    match r with
    | Ok rep => cr_answers rep = replicate (Z.to_nat requests) (Ok prompt_kv) ∧ cr_served rep = requests ∧ cr_refused rep = true ∧ cr_segments rep = Z.max nodes 2
    | Err e => e = DemoIo ∨ ∃ x, e = DemoStore x
    end.
Proof.
  intros Hf Hreq Hnodes Hcap. unfold run_cluster. set (n := Z.max nodes 2) in *. assert (2 ≤ n) as Hn2 by lia.
  destruct (start_nodes bind n empty_world) as [w1|] eqn:Hs; [|by exists (Err DemoIo); eauto].
  pose proof (start_nodes_serve _ _ _ _ Hf Hs) as Hsv. destruct (start_node bind "client" w1) as [[e w]|] eqn:Hc; [|by exists (Err DemoIo); eauto].
  destruct (start_node_serves _ _ _ _ _ Hf Hc) as (_ & Ht & Hst & Hep & Hold).
  destruct (mount_nodes_ok n e w) as (c & -> & Hr & He & Hw & Hcnt & Hid); [lia|done..| |].
  { apply (serves_pool bind); [done| |].
    - intros nm (i & -> & Hi)%list_elem_of_fmap. apply Hold; [by apply Hsv|apply node_not_client].
    - intros nm (i & -> & Hi)%list_elem_of_fmap Hb. by apply (node_not_client i), (Hf _ _ (te_segment e)). }
  unfold cluster_workload. assert (Z.of_nat (length prompt_kv) = 4096) as Hlen by (unfold prompt_kv; rewrite length_replicate; lia).
  assert (staged_len c 0) as Hst0 by (exists []; unfold rc_staged; rewrite He, Hw; done).
  assert (replica_num (config_replicas (Z.min n 3)) = Z.min n 3) as Hrep by (cbn; lia).
  destruct (put_published system_prompt (identity "tenant-a") prompt_kv (config_replicas (Z.min n 3)) c ∅ 0) as (r & c1 & -> & Hok);
    [by apply real_reach_inv|split; [lia|split; [cbn; lia|rewrite Hid, Hrep; unfold u64_max; lia]]|done|rewrite Hlen, Hrep; unfold isize_max; lia|lia|].
  destruct r as [[]|x]; [|by exists (Err (DemoStore x)); eauto 10]. destruct (Hok eq_refl) as (HI1 & Hp1 & Hst1 & Hcfg1). rewrite Hlen, Hrep in Hst1.
  destruct (get_loop_ok (range requests) 0 [] c1 _ _ HI1 Hp1 (lookup_insert_eq _ _ _) Hst1) as (c2 & -> & HI2 & Hp2 & Hcfg2);
    [rewrite length_range_of by lia; unfold isize_max, i32_max in *; lia|lia|rewrite length_range_of; lia|].
  destruct (get_refused system_prompt (identity "tenant-a") (identity "tenant-b") c2 _ HI2 Hp2) as (v & c3 & -> & Hcfg3);
    [discriminate|right; by rewrite lookup_insert_eq|].
  eexists. split; [done|]. cbn [cr_served cr_refused cr_segments cr_answers app]. split; [f_equal; apply Nat2Z.inj; rewrite length_range_of; lia|].
  rewrite length_range_of by lia. split; [lia|]. split; [done|].
  rewrite (config_segment_count _ _ Hcfg3), (config_segment_count _ _ Hcfg2), (config_segment_count _ _ Hcfg1). done.
Qed.

(** The data path of the prefill/decode demo, for any request of tenant-a and any handoff: it returns, and unless a bind failed or the
    master refused the put it ends in success: the decode side read exactly the bytes the prefill side published and the other tenant was
    refused; the mismatch error is never returned. *)
Theorem pd_data_path_sound bind r h :
  fresh_binds bind → req_tenant_id r ≠ "tenant-b" →
  ∃ x, pd_data_path bind r h = Done x ∧ (x = Ok tt ∨ x = Err DemoIo ∨ ∃ e, x = Err (DemoStore e)).
Proof.
  intros Hf Hten. unfold pd_data_path. destruct (start_node bind "prefill-a" empty_world) as [[e0 w0]|] eqn:H0'; [|by exists (Err DemoIo); eauto].
  destruct (start_node_serves _ _ _ _ _ Hf H0') as (Hsv & _). destruct (start_node bind "decode-a" w0) as [[e w]|] eqn:Hd; [|by exists (Err DemoIo); eauto].
  destruct (start_node_serves _ _ _ _ _ Hf Hd) as (_ & Ht & Hst & Hep & Hold).
  destruct (mount_step "prefill-a" (Z.shiftl 1 20) (real_new "random" e w) ∅) as (c & -> & Hr & He & Hw & Hsh & Hid).
  { apply rr_new; [done|by rewrite Hst]. }
  { split; [by vm_compute|]. split; [by apply not_elem_of_nil|by vm_compute]. }
  { by vm_compute. }
  { apply (serves_pool bind); [done|intros n ->%list_elem_of_singleton; by apply Hold|].
    intros n ->%list_elem_of_singleton Hb. by assert ("prefill-a" = "decode-a") by (by apply (Hf _ _ (te_segment e))). }
  cbv zeta. set (key := "kv-handoff:" +:+ _). set (id := identity_of r). assert (Z.of_nat (length pd_kv) = 4096) as Hlen by (unfold pd_kv; rewrite length_replicate; lia).
  assert (staged_len c 0) as Hst0 by (exists []; unfold rc_staged; rewrite He, Hw; done).
  destruct (put_published key id pd_kv (config_replicas 1) c ∅ 0) as (x & c1 & -> & Hok);
    [by apply real_reach_inv|split; [lia|split; [cbn; lia|rewrite Hid; by vm_compute]]|done|rewrite Hlen; by vm_compute|by vm_compute|].
  destruct x as [[]|x]; [|by exists (Err (DemoStore x)); eauto 10]. destruct (Hok eq_refl) as (HI1 & Hp1 & Hst1 & Hcfg1). rewrite Hlen in Hst1.
  destruct (get_served key id pd_kv c1 _ _ HI1 Hp1 (lookup_insert_eq _ _ _) Hst1) as (c2 & -> & HI2 & Hp2 & _); [rewrite Hlen; by vm_compute|].
  destruct (get_refused key id (mkScope (s_model_id id) (s_tokenizer_id id) (s_adapter_id id) "tenant-b") c2 _ HI2 Hp2) as (v & c3 & -> & _);
    [intros [=]; congruence|right; by rewrite lookup_insert_eq|].
  rewrite bool_decide_true by done. cbn. by exists (Ok tt); eauto.
Qed.
End theorems.

(** ** Runs *)

#[local] Existing Instance canonical_iter.
#[local] Existing Instance length_hash.
#[local] Existing Instance bit_codec.
#[local] Existing Instance literal_regex.
#[local] Instance dx_messages : IoMessages := {| connection_refused := "Connection refused"; unexpected_eof := "unexpected end of file" |}.
#[local] Instance dx_libm : Libm := {| f64_exp := λ _, f64_of_u64 1 |}.

(** Distinct addresses, one per name. *)
Definition name_bind : Bind := λ n, Some ("127.0.0.1/" +:+ n).
Lemma name_bind_fresh : fresh_binds name_bind.
Proof. intros n1 n2 ep. unfold name_bind. intros [= <-] [=]. done. Qed.

(** The defaults of the command line: three nodes, twelve requests. *)
Example cluster_default : run_cluster name_bind 3 12 = Done (Ok (mkClusterReport 12 true 1 3 (replicate 12 (Ok prompt_kv)))).
Proof. vm_compute. reflexivity. Qed.
Example cluster_no_bind : run_cluster (λ n, if decide (n = "node-1") then None else Some n) 3 12 = Done (Err DemoIo).
Proof. vm_compute. reflexivity. Qed.

Lemma cluster_serves_all_witness : ∃ rep, run_cluster name_bind 3 12 = Done (Ok rep) ∧ cr_answers rep = replicate 12 (Ok prompt_kv) ∧ cr_served rep = 12 ∧ cr_refused rep = true ∧ cr_segments rep = 3.
Proof.
  destruct (cluster_serves_all name_bind 3 12 name_bind_fresh) as (r & E & Hr); [by vm_compute..|]. rewrite cluster_default in E. injection E as <-.
  eexists. split; [exact cluster_default|exact Hr].
Defined.

(** The plan is disaggregated and the demo succeeds. *)
Example pd_demo_succeeds : run_pd_demo name_bind = Done (Ok tt).
Proof. vm_compute. reflexivity. Qed.

Definition pd_handoff : KvHandoff := mkHandoff "req-pd-0" "prefill-a" "decode-a" (req_blocks pd_request).
Lemma pd_data_path_sound_witness : pd_data_path name_bind pd_request pd_handoff = Done (Ok tt).
Proof.
  destruct (pd_data_path_sound name_bind pd_request pd_handoff name_bind_fresh ltac:(discriminate)) as (x & E & _).
  assert (pd_data_path name_bind pd_request pd_handoff = Done (Ok tt)) as E' by (vm_compute; reflexivity). rewrite E in E'. by rewrite <- E'.
Defined.
