(* ===== verification/BenchCommand.v ===== *)
(** * The command line and the index study

    src/main.rs: the commands, and [bench-index] on the in-memory, RocksDB and Holt indexes
    (with the statistics of crates/quillcache-core/src/index_rocksdb.rs it reports).  The
    benchmark's workload as a trace of index operations, and that all backends end with the
    same content.  The stores are the parameters of PersistIndex.v; their statistics, their
    size on disk and the clock are parameters here. *)
From stdpp Require Import pretty.
From S2P Require Import Prelude F64 Identity MemIndex MemIndexProofs IndexLaws PersistIndex PersistProofs PersistTheorems PdProxy Bench.

(** ** Commands *)

Inductive Command : Type :=
| CmdGateway (config : string)
| CmdPlan
| CmdBenchIndex (backend : string) (requests shared_prefix_blocks unique_blocks block_tokens block_bytes scan_queries churn_ops : Z) (json : bool)
| CmdCluster (nodes requests : Z)
| CmdPd
| CmdPdProxy (bind prefill decode : string)
| CmdStoreMaster (addr strategy : string) (snapshot : option string) (snapshot_interval segment_ttl : Z) (etcd : option string) (node_id : string)
| CmdTransferNode (addr segment : string).

(** The commands with their default arguments. *)
Definition default_commands : list Command :=
  [CmdBenchIndex "memory" 2000 16 4 64 (4 * 1024 * 1024) 20000 0 false; CmdCluster 3 12; CmdPdProxy "127.0.0.1:8080" "" "";
   CmdStoreMaster "127.0.0.1:7777" "random" None 5 0 None "master-0"; CmdTransferNode "127.0.0.1:8100" "seg-0"].

Definition bench_config_of (requests shared_prefix_blocks unique_blocks block_tokens block_bytes scan_queries churn_ops : Z) : IndexBenchConfig :=
  mkBenchConfig requests shared_prefix_blocks unique_blocks block_tokens block_bytes scan_queries churn_ops.

(** ** RocksDB's statistics *)

Definition is_space (c : Ascii.ascii) : bool :=
  let n := Z.of_N (Ascii.N_of_ascii c) in (n =? 32) || ((9 <=? n) && (n <=? 13)).
Fixpoint trim_start (s : list Ascii.ascii) : list Ascii.ascii :=
  match s with [] => [] | c :: s' => if is_space c then trim_start s' else s end.
Definition trim (s : list Ascii.ascii) : list Ascii.ascii := reverse (trim_start (reverse (trim_start s))).

(** [rsplit(c).next()]: what follows the last [c]. *)
Fixpoint after_last (c : Ascii.ascii) (s : list Ascii.ascii) : list Ascii.ascii :=
  match s with
  | [] => []
  | x :: s' => if bool_decide (c ∈ s') then after_last c s' else if bool_decide (x = c) then s' else s
  end.

(** [str::parse::<u64>]: an optional plus sign and decimal digits. *)
Definition digit_of (c : Ascii.ascii) : option Z :=
  let n := Z.of_N (Ascii.N_of_ascii c) in if (48 <=? n) && (n <=? 57) then Some (n - 48) else None.
Definition parse_u64 (s : list Ascii.ascii) : option Z :=
  let digits := match s with c :: s' => if bool_decide (c = Ascii.ascii_of_nat 43) then s' else s | [] => [] end in
  if bool_decide (digits = []) then None
  else foldl (λ acc c, a ← acc; d ← digit_of c; if a * 10 + d <=? u64_max then Some (a * 10 + d) else None) (Some 0) digits.

(** The count of a ticker: the first line that starts with its name. *)
Definition ticker (stats : list (list Ascii.ascii)) (name : string) : Z :=
  let name := String.list_ascii_of_string name in
  default 0 (line ← List.find (λ line, bool_decide (name `prefix_of` trim_start line)) stats;
             parse_u64 (trim (after_last (Ascii.ascii_of_nat 58) line))).

Definition write_amplification (stats : list (list Ascii.ascii)) (on_disk : Z) : option (Z * f64) :=
  let flush := ticker stats "rocksdb.flush.write.bytes" in
  let compaction := ticker stats "rocksdb.compact.write.bytes" in
  physical ← u64_add flush compaction;
  let live := Z.max on_disk 1 in
  Some (physical, f64_div (f64_of_u64 physical) (f64_of_u64 live)).

(** ** The persistent benchmarks *)

(** The stores' own operations: opening an empty directory, reopening, and merging what was written. *)
Record StoreFiles (D : Type) : Type := mkStoreFiles {
  sf_open : result string D;
  sf_reopen : D → result string D;
  sf_merge : D → D;
  sf_on_disk : D → Z;
  sf_statistics : D → list (list Ascii.ascii)
}.
Arguments sf_open {D} _.
Arguments sf_reopen {D} _ _.
Arguments sf_merge {D} _ _.
Arguments sf_on_disk {D} _ _.
Arguments sf_statistics {D} _ _.

Section persistent.
Context `{ResidencyCodec} {D : Type} `{PrefixStore D}.

Definition index_metrics (files : StoreFiles D) (d : D) : option IndexMetrics :=
  '(blocks, bytes, disk) ← pi_metrics (sf_on_disk files) d; Some (mkIndexMetrics blocks bytes 0 0 0 disk).

(** The report with what the harness of a persistent index sets. *)
Definition with_recovery (m : IndexMetrics) (physical : Z) (amp recovery : f64) (r : IndexBenchReport) : IndexBenchReport :=
  mkBenchReport (br_backend r) (br_persistent r) (br_blocks_ingested r) (br_ingest_secs r) (br_ingest_puts_per_sec r) (br_churn_ops r) (br_churn_secs r)
    (br_churn_ops_per_sec r) (br_scan_queries r) (br_scan_mean_us r) (br_scan_p50_us r) (br_scan_p99_us r) (br_scan_p999_us r) (Some recovery) physical amp m.

Definition bench_rocksdb (files : StoreFiles D) (clk : BenchClock) (recovery : f64) (cfg : IndexBenchConfig) : option (result string IndexBenchReport) :=
  match sf_open files with
  | Err e => Some (Err e)
  | Ok d =>
      '(report, d) ← bench_index "rocksdb" true (index_metrics files) clk cfg d;
      let d := sf_merge files d in
      m ← index_metrics files d;
      '(physical, amp) ← write_amplification (sf_statistics files d) (sf_on_disk files d);
      match sf_reopen files d with
      | Err e => Some (Err e)
      | Ok _ => Some (Ok (with_recovery m physical amp recovery report))
      end
  end.

Definition bench_holt (files : StoreFiles D) (clk : BenchClock) (recovery : f64) (cfg : IndexBenchConfig) : option (result string IndexBenchReport) :=
  match sf_open files with
  | Err e => Some (Err ("holt open: " +:+ e))
  | Ok d =>
      '(report, d) ← bench_index "holt" true (index_metrics files) clk cfg d;
      let d := sf_merge files d in
      m ← index_metrics files d;
      match sf_reopen files d with
      | Err e => Some (Err ("holt reopen: " +:+ e))
      | Ok _ => Some (Ok (with_recovery m (im_bytes_written m) (f64_of_u64 1) recovery report))
      end
  end.
End persistent.

(** [bench-index --backend b]: the persistent backends are compiled in by features. *)
Definition run_bench_index `{HashIter} (rocks holt : option (IndexBenchConfig → option (result string IndexBenchReport))) (clk : BenchClock)
    (backend : string) (cfg : IndexBenchConfig) : option (result string IndexBenchReport) :=
  let unknown := Some (Err ("unknown index backend '" +:+ backend +:+ "' (available: memory, rocksdb, holt — build with --features rocksdb,holt)")) in
  if decide (backend = "memory") then '(report, _) ← bench_index "memory" false mi_metrics clk cfg mi_new; Some (Ok report)
  else if decide (backend = "rocksdb") then match rocks with Some f => f cfg | None => unknown end
  else if decide (backend = "holt") then match holt with Some f => f cfg | None => unknown end
  else unknown.

(** ** The workload as a trace *)

Definition put_op (cfg : IndexBenchConfig) (k : KvBlockKey) : IxOp := OpPut (bench_record cfg k).
Definition request_ops (cfg : IndexBenchConfig) (req : Z) : list IxOp := (put_op cfg <$> shared_keys cfg) ++ (put_op cfg <$> unique_keys cfg req).
Definition cycle_ops (cfg : IndexBenchConfig) (c : Z) : list IxOp :=
  let req := c mod Z.max (bc_requests cfg) 1 in
  ((λ j, OpRemoveBlock bench_scope bench_worker (unique_block_hash req j)) <$> range (bc_unique_blocks_per_request cfg)) ++ (put_op cfg <$> unique_keys cfg req).
Definition bench_ops (cfg : IndexBenchConfig) : list IxOp := (range (bc_requests cfg) ≫= request_ops cfg) ++ (range (bc_churn_ops cfg) ≫= cycle_ops cfg).

Section trace.
Context {B : Type} `{IndexBackend B}.
Implicit Types (b : B) (cfg : IndexBenchConfig).

Lemma ix_run_app ops ops' b : ix_run (ops ++ ops') b = b' ← ix_run ops b; ix_run ops' b'.
Proof. revert b. induction ops as [|op ops IH]; intros b; cbn; [done|]. destruct (ix_step op b); cbn; [apply IH|done]. Qed.

Lemma for_each_trace (body : Z → B → option B) (ops : Z → list IxOp) l b :
  (∀ x b, x ∈ l → body x b = ix_run (ops x) b) → for_each body l b = ix_run (l ≫= ops) b.
Proof.
  revert b. induction l as [|x l IH]; intros b Hb; [done|]. rewrite bind_cons, ix_run_app. cbn [for_each]. rewrite Hb by (by left).
  destruct (ix_run (ops x) b); cbn [mbind option_bind]; [|done]. apply IH. intros; apply Hb. by right.
Qed.
Lemma for_each_steps (body : Z → B → option B) (op : Z → IxOp) l b :
  (∀ x b, x ∈ l → body x b = ix_step (op x) b) → for_each body l b = ix_run (op <$> l) b.
Proof.
  revert b. induction l as [|x l IH]; intros b Hb; [done|]. rewrite fmap_cons. cbn [for_each ix_run]. rewrite Hb by (by left).
  destruct (ix_step (op x) b); cbn [mbind option_bind]; [|done]. apply IH. intros; apply Hb. by right.
Qed.

Lemma puts_shared cfg b : for_each (λ i, put_block cfg (shared_block i (bc_block_tokens cfg))) (range (bc_shared_prefix_blocks cfg)) b = ix_run (put_op cfg <$> shared_keys cfg) b.
Proof. unfold shared_keys. rewrite <- list_fmap_compose. by apply for_each_steps. Qed.
Lemma puts_unique cfg req b : bench_fits cfg → for_each (put_unique cfg req) (range (bc_unique_blocks_per_request cfg)) b = ix_run (put_op cfg <$> unique_keys cfg req) b.
Proof. intros Hf. unfold unique_keys. rewrite <- list_fmap_compose. apply for_each_steps. intros x b' Hx. by rewrite put_unique_eq. Qed.

Lemma ingest_request_trace cfg req b n :
  bench_fits cfg → let w := bc_shared_prefix_blocks cfg + bc_unique_blocks_per_request cfg in n + w ≤ u64_max →
  ingest_request cfg req (b, n) = (λ b', (b', n + w)) <$> ix_run (request_ops cfg req) b.
Proof.
  intros Hf w Hn. pose proof Hf as []. unfold ingest_request, request_ops. rewrite counted_eq by (rewrite length_range_of; lia). rewrite puts_shared, ix_run_app.
  destruct (ix_run (put_op cfg <$> shared_keys cfg) b) as [b1|]; cbn [fmap option_fmap option_map mbind option_bind]; [|done].
  rewrite counted_eq by (rewrite !length_range_of; lia). rewrite puts_unique, !length_range_of by done. destruct (ix_run _ b1); cbn; [|done]. do 2 f_equal. lia.
Qed.

Lemma ingest_trace cfg b :
  bench_fits cfg → ingest_phase cfg b =
    (λ b', (b', bc_requests cfg * (bc_shared_prefix_blocks cfg + bc_unique_blocks_per_request cfg))) <$> ix_run (range (bc_requests cfg) ≫= request_ops cfg) b.
Proof.
  intros Hf. pose proof Hf as []. unfold ingest_phase. set (w := bc_shared_prefix_blocks cfg + bc_unique_blocks_per_request cfg) in *.
  assert (∀ l b n, n + Z.of_nat (length l) * w ≤ u64_max → for_each (ingest_request cfg) l (b, n) = (λ b', (b', n + Z.of_nat (length l) * w)) <$> ix_run (l ≫= request_ops cfg) b) as Hgen.
  { induction l as [|x l IH]; intros b0 n Hn; cbn [for_each length] in *; [by rewrite Z.add_0_r|]. rewrite bind_cons, ix_run_app.
    rewrite ingest_request_trace by (done || (fold w; nia)). fold w. destruct (ix_run (request_ops cfg x) b0) as [b1|]; cbn [fmap option_fmap option_map mbind option_bind]; [|done].
    rewrite IH by nia. destruct (ix_run _ b1); cbn; [|done]. do 2 f_equal. lia. }
  rewrite Hgen, length_range_of by (rewrite ?length_range_of; nia). by destruct (ix_run _ b).
Qed.

Lemma churn_cycle_trace cfg c b : bench_fits cfg → churn_cycle cfg c b = ix_run (cycle_ops cfg c) b.
Proof.
  intros Hf. unfold churn_cycle, cycle_ops. cbv zeta. set (req := c mod _). rewrite ix_run_app.
  rewrite <- (for_each_steps (λ j b, snd <$> ix_remove_block bench_scope bench_worker (unique_block_hash req j) b)) by done.
  apply option_bind_ext_fun. intros b1. by apply puts_unique.
Qed.

Lemma workload_trace cfg b :
  bench_fits cfg → run_workload cfg b =
    (λ b', (b', bc_requests cfg * (bc_shared_prefix_blocks cfg + bc_unique_blocks_per_request cfg))) <$> ix_run (bench_ops cfg) b.
Proof.
  intros Hf. unfold run_workload, bench_ops. rewrite ingest_trace, ix_run_app by done. destruct (ix_run _ b) as [b1|]; cbn [fmap option_fmap option_map mbind option_bind]; [|done].
  unfold churn_phase. rewrite (for_each_trace _ (cycle_ops cfg)) by (intros; by apply churn_cycle_trace). by destruct (ix_run _ b1).
Qed.
End trace.

(** ** The key encoding separates the benchmark's blocks *)

Lemma nul_free_app s t : nul_free s → nul_free t → nul_free (s +:+ t).
Proof.
  unfold nul_free, str_bytes. intros Hs Ht. assert (String.list_ascii_of_string (s +:+ t) = String.list_ascii_of_string s ++ String.list_ascii_of_string t) as ->.
  { clear. induction s as [|c s IH]; [done|]. exact (f_equal (cons c) IH). }
  rewrite fmap_app, elem_of_app. tauto.
Qed.

Lemma pretty_nul_free z : 0 ≤ z → nul_free (pretty z).
Proof.
  assert (∀ x s, nul_free s → nul_free (pretty_N_go x s)) as Hgo.
  { intros x. induction (N.lt_wf_0 x) as [x _ IH]; intros s Hs. assert (x = 0 ∨ 0 < x)%N as [->|Hx] by lia; [by rewrite pretty_N_go_0|].
    rewrite pretty_N_go_step by done. apply IH; [by apply N.div_lt|]. unfold nul_free, str_bytes. cbn. rewrite not_elem_of_cons. split; [|done].
    unfold pretty_N_char. repeat case_match; discriminate. }
  intros Hz. destruct z as [|p|p]; [|unfold pretty, pretty_Z|lia].
  - by apply (bool_decide_unpack _); vm_compute.
  - unfold pretty, pretty_positive, pretty, pretty_N. rewrite decide_False by done. apply Hgo. apply not_elem_of_nil.
Qed.

Ltac nul_lit := by apply (bool_decide_unpack _); vm_compute.

Lemma unique_hash_nul_free req j : 0 ≤ req → 0 ≤ j → nul_free (unique_block_hash req j).
Proof. intros. unfold unique_block_hash. apply nul_free_app; [nul_lit|]. apply nul_free_app; [by apply pretty_nul_free|]. apply nul_free_app; [nul_lit|by apply pretty_nul_free]. Qed.

Lemma bench_key_ok cfg k : bench_fits cfg → k ∈ bench_keys cfg → key_ok k ∧ token_count k = bc_block_tokens cfg.
Proof.
  intros [] Hk. assert (∀ p h idx t, nul_free p → nul_free h → 0 ≤ idx ≤ u32_max → key_ok (key_new "bench-model" "bench-tok" "bench-tenant" p h idx t)) as Hok.
  { intros p h idx t Hp Hh Hi. split; cbn; [nul_lit|nul_lit|split; [nul_lit|done]|nul_lit|done|done|unfold is_u32, u32_max in *; lia]. }
  apply elem_of_app in Hk as [(i & Hi & ->)%elem_of_shared_keys|(req & (j & Hj & ->)%elem_of_unique_keys & Hr%elem_of_range)%list_elem_of_bind]; (split; [|done]); apply Hok.
  - apply nul_free_app; [nul_lit|apply pretty_nul_free; lia].
  - apply nul_free_app; [nul_lit|apply pretty_nul_free; lia].
  - lia.
  - apply nul_free_app; [nul_lit|]. apply nul_free_app; [apply pretty_nul_free; lia|]. apply nul_free_app; [nul_lit|apply pretty_nul_free; lia].
  - apply unique_hash_nul_free; lia.
  - lia.
Qed.

Lemma bench_scope_ok : scope_ok bench_scope.
Proof. split; cbn; [nul_lit|nul_lit|split; [nul_lit|done]|nul_lit]. Qed.

Lemma bench_keys_separated cfg k1 k2 : bench_fits cfg → k1 ∈ bench_keys cfg → k2 ∈ bench_keys cfg → same_block k1 k2 → k1 = k2.
Proof.
  intros Hf [_ H1]%bench_key_ok [_ H2]%bench_key_ok (E1 & E2 & E3 & E4); [|done..]. destruct k1, k2. unfold from_key in E1. cbn in *. by simplify_eq.
Qed.

Lemma bench_ops_spec cfg op : bench_fits cfg → op ∈ bench_ops cfg → op_ok op ∧ ∀ r, op = OpPut r → res_key r ∈ bench_keys cfg.
Proof.
  intros Hf Hop. assert (∀ k, k ∈ bench_keys cfg → op = put_op cfg k → op_ok op ∧ ∀ r, op = OpPut r → res_key r ∈ bench_keys cfg) as Hput.
  { intros k Hk ->. split; [split; [by eapply bench_key_ok|nul_lit]|]. by intros r [= <-]. }
  assert (∀ req, 0 ≤ req < bc_requests cfg → ∀ k, k ∈ unique_keys cfg req → k ∈ bench_keys cfg) as Hu.
  { intros req Hr k Hk. apply elem_of_app. right. apply list_elem_of_bind. exists req. by rewrite elem_of_range. }
  pose proof Hf as []. unfold bench_ops in Hop. apply elem_of_app in Hop as [(req & Hop & Hr%elem_of_range)%list_elem_of_bind|(c & Hop & _)%list_elem_of_bind].
  - apply elem_of_app in Hop as [(k & -> & Hk)%list_elem_of_fmap|(k & -> & Hk)%list_elem_of_fmap]; (eapply Hput; [|done]).
    + apply elem_of_app. by left.
    + by apply (Hu req).
  - unfold cycle_ops in Hop. cbv zeta in Hop. pose proof (Z.mod_pos_bound c (Z.max (bc_requests cfg) 1) ltac:(lia)) as Hreq. set (req := c mod _) in *.
    apply elem_of_app in Hop as [(j & -> & Hj%elem_of_range)%list_elem_of_fmap|(k & -> & Hk)%list_elem_of_fmap].
    + split; [|done]. split; [exact bench_scope_ok|]. split; [nul_lit|]. apply unique_hash_nul_free; lia.
    + apply (Hput k); [|done]. apply (Hu req); [lia|done].
Qed.

(** ** Theorems *)

Section theorems.
Context `{HashIter} `{ResidencyCodec} {D : Type} `{PrefixStore D, !PrefixStoreLaws D}.

(** C40 The backends run the same benchmark: when the counters fit, the workload returns on the in-memory index and on any persistent index
    started empty, with the same number of ingested blocks; both hold the same records (up to order), one per shared block and one per unique
    block of each request; and every query of the scan phase returns the same records from both. *)
Theorem bench_backends_agree cfg (d0 : D) :
  bench_fits cfg → kv_view d0 = ∅ →
  let n := bc_requests cfg * (bc_shared_prefix_blocks cfg + bc_unique_blocks_per_request cfg) in
  ∃ m d, run_workload cfg mi_new = Some (m, n) ∧ run_workload cfg d0 = Some (d, n) ∧ pi_snapshot d ≡ₚ mi_snapshot m ∧
    pi_snapshot d ≡ₚ bench_record cfg <$> bench_keys cfg ∧
    pi_len d = bc_shared_prefix_blocks cfg + bc_requests cfg * bc_unique_blocks_per_request cfg ∧
    ∀ q, 0 ≤ q → scan_query cfg q d ≡ₚ scan_query cfg q m.
Proof.
  intros Hf Hd n. destruct (ingest_total cfg Hf) as (m1 & E1 & Hm1). destruct (churn_total cfg m1 Hf Hm1) as (m & E2 & HK & _).
  assert (run_workload cfg mi_new = Some (m, n)) as Hm by (unfold run_workload; rewrite E1; cbn; by rewrite E2).
  assert (ix_run (bench_ops cfg) mi_new = Some m) as Hrun.
  { rewrite workload_trace in Hm by done. destruct (ix_run (bench_ops cfg) mi_new); [|done]. by injection Hm as ->. }
  destruct (sim_run (λ k, k ∈ bench_keys cfg) (λ k1 k2 Hk1 Hk2, bench_keys_separated cfg k1 k2 Hf Hk1 Hk2) (bench_ops cfg) d0 mi_new m ∅) as (d & A & Hd' & [HI Hmi Hkeys Hl]); [| | |done|].
  { split; [by apply pinv_empty|apply mi_new_inv|by intros r [k Hk]%elem_of_recs|]. intros k. unfold recs. by rewrite map_to_list_empty. }
  { apply Forall_forall. intros op Hop. by apply (bench_ops_spec cfg op Hf). }
  { intros r Hr. by apply (bench_ops_spec cfg _ Hf Hr). }
  assert (pi_snapshot d ≡ₚ mi_snapshot m) as Hsnap.
  { rewrite (pi_snapshot_spec d A HI). apply (perm_by_key res_key). intros k. by rewrite mem_snapshot_law. }
  pose proof (holds_snapshot cfg _ m (NoDup_bench_keys cfg) HK : mi_snapshot m ≡ₚ _) as Hc.
  exists m, d. split; [done|]. split; [rewrite workload_trace by done; by rewrite Hd'|]. split; [done|]. split; [by rewrite Hsnap|]. split.
  - rewrite (pi_len_spec d A HI), <- (pi_snapshot_spec d A HI), Hsnap, Hc, length_fmap. destruct Hf. apply length_bench_keys; lia.
  - intros q Hq. unfold scan_query. cbn [ix_prefix_scan persist_backend mi_backend]. set (i := q mod _).
    assert (0 ≤ i) by (apply Z.mod_pos_bound; lia).
    rewrite (pi_prefix_scan_spec d A) by (exact HI || exact bench_scope_ok || (apply nul_free_app; [nul_lit|by apply pretty_nul_free])).
    rewrite mi_prefix_scan_snapshot by done. rewrite <- Hsnap, (pi_snapshot_spec d A HI). erewrite list_filter_iff; [done|]. intros r. split; intros [? ?]; done.
Qed.
End theorems.

(** The command: the in-memory benchmark reports shared + requests times unique resident blocks whenever it returns; a backend that is not
    compiled in, or any other name, is refused before the benchmark starts. *)
Theorem bench_index_command `{HashIter} rocks holt clk backend cfg :
  bench_fits cfg →
  match run_bench_index rocks holt clk backend cfg with
  | Some (Ok r) => backend = "memory" → im_resident_blocks (br_metrics r) = bc_shared_prefix_blocks cfg + bc_requests cfg * bc_unique_blocks_per_request cfg
      ∧ im_puts (br_metrics r) = br_blocks_ingested r + bc_churn_ops cfg * bc_unique_blocks_per_request cfg
  | Some (Err _) => backend ≠ "memory"
  | None => True
  end ∧ (backend ∉ ["memory"; "rocksdb"; "holt"] ∨ rocks = None ∧ backend = "rocksdb" ∨ holt = None ∧ backend = "holt" →
         ∃ e, run_bench_index rocks holt clk backend cfg = Some (Err e)).
Proof.
  intros Hf. unfold run_bench_index. case_decide as E1.
  - split.
    + destruct (bench_index _ _ _ _ _ _) as [[r m']|] eqn:Hb; cbn [mbind option_bind]; [|done]. intros _.
      destruct (ingest_total cfg Hf) as (m1 & Ei & H1). destruct (churn_total cfg m1 Hf H1) as (m & Ec & HK & Hp & _).
      unfold bench_index, run_workload in Hb. rewrite Ei in Hb. cbn [mbind option_bind] in Hb. rewrite Ec in Hb. cbn [mbind option_bind] in Hb.
      apply bind_Some in Hb as (ops & _ & (cops & _ & ([[[mean p50] p99] p999] & _ & (im & Hm & [= <- <-])%bind_Some)%bind_Some)%bind_Some).
      unfold mi_metrics in Hm. apply bind_Some in Hm as (bytes & _ & [= <-]). cbn [br_metrics im_resident_blocks im_puts br_blocks_ingested]. split; [|done].
      rewrite mi_len_snapshot, (holds_snapshot cfg _ m (NoDup_bench_keys cfg) HK : mi_snapshot m ≡ₚ _), length_fmap. destruct Hf. apply length_bench_keys; lia.
    + subst. intros [Hn|[[_ [=]]|[_ [=]]]]. destruct Hn. by left.
  - split; [|intros Hn].
    + repeat case_match; done.
    + case_decide as E2; [|case_decide as E3]; [| |by eexists]; subst.
      * destruct Hn as [Hn|[[-> _]|[_ [=]]]]; [destruct Hn; set_solver|by eexists].
      * destruct Hn as [Hn|[[_ [=]]|[-> _]]]; [destruct Hn; set_solver|by eexists].
Qed.

(** ** Runs *)

#[local] Existing Instance canonical_iter.
#[local] Existing Instance ex_codec.
#[local] Existing Instance map_store.
#[local] Existing Instance map_store_laws.

Lemma bench_backends_agree_witness :
  ∃ m (d : gmap (list Z) (list Z)), run_workload small_bench mi_new = Some (m, 80) ∧ run_workload small_bench (∅ : gmap (list Z) (list Z)) = Some (d, 80) ∧ pi_len d = 42.
Proof.
  destruct (bench_backends_agree small_bench (∅ : gmap (list Z) (list Z))) as (m & d & Hm & Hd & _ & _ & Hl & _); [by split|done|].
  exists m, d. split; [exact Hm|]. split; [exact Hd|exact Hl].
Defined.

Lemma bench_index_command_witness : ∃ e, run_bench_index None None small_clock "rocksdb" small_bench = Some (Err e).
Proof. apply (proj2 (bench_index_command None None small_clock "rocksdb" small_bench ltac:(by split))). by right; left. Defined.

(** The statistics text; a ticker that is missing, or whose count does not parse, counts as 0. *)
Definition chars (s : string) : list Ascii.ascii := String.list_ascii_of_string s.
Definition rocks_stats : list (list Ascii.ascii) :=
  [chars "rocksdb.block.cache.miss COUNT : 7"; chars "  rocksdb.flush.write.bytes COUNT : 12345 "; chars "rocksdb.compact.write.bytes COUNT : many"].
Example ticker_reads : ticker rocks_stats "rocksdb.flush.write.bytes" = 12345 ∧ ticker rocks_stats "rocksdb.compact.write.bytes" = 0 ∧ ticker rocks_stats "rocksdb.absent" = 0.
Proof. split_and!; vm_compute; reflexivity. Qed.

(** The factor is relative to the bytes left on disk, not to the bytes written by the user: 300 bytes
    flushed of 300 written, of which compaction left 100, is reported as 3. *)
Example amplification_is_of_live_bytes :
  write_amplification [chars "rocksdb.flush.write.bytes COUNT : 300"] 100 = Some (300, f64_of_u64 3).
Proof. vm_compute. reflexivity. Qed.
