(* ===== verification/DeviceTier.v ===== *)
(** * The GPU memory tier

    crates/quillcache-cuda: the device tier behind the [cuda] feature (gpu.rs), its stand-in
    without it (gpu_stub.rs) and the quantize kernel (kernels.cu).

    The CUDA driver and compiler are outside the repository: as in DeviceSegment.v the results
    of their calls still to come are a list.  A launch runs one thread per index of its grid;
    the order in which the device runs them is a parameter, any permutation of the indices.
    Floats are IEEE-754 binary32 in the Standard Library's executable specification. *)
From stdpp Require Import pretty.
From S2P Require Import Prelude F64 TransferTypes TcpTransport DeviceSegment Bench.
From Corelib Require Import SpecFloat.

(** ** The kernel *)

Definition f32 : Type := spec_float.
Definition f32_of_Z (n : Z) : f32 := binary_normalize 24 128 n 0 false.
Definition f32_mul (x y : f32) : f32 := SFmul 24 128 x y.

(** [__half2float] of the 16 bits: exact. *)
Definition half2float (h : Z) : f32 :=
  let s := Z.testbit h 15 in
  let e := Z.land (Z.shiftr h 10) 31 in
  let m := Z.land h 1023 in
  if e =? 31 then (if m =? 0 then S754_infinity s else S754_nan)
  else if (e =? 0) && (m =? 0) then S754_zero s
  else let m' := if e =? 0 then m else m + 1024 in
       let e' := if e =? 0 then -24 else e - 25 in
       binary_normalize 24 128 (if s then - m' else m') e' s.

(** Nearest integer, ties to even, of m / 2^k. *)
Definition round_even (m k : Z) : Z :=
  let q := Z.shiftr m k in
  let r := m - Z.shiftl q k in
  let half := Z.shiftl 1 (k - 1) in
  if r <? half then q else if half <? r then q + 1 else if Z.even q then q else q + 1.

Definition i32_min : Z := -2147483648.
Definition i32_top : Z := 2147483647.

(** [__float2int_rn]: saturates; NaN gives 0. *)
Definition float2int_rn (x : f32) : Z :=
  match x with
  | S754_zero _ => 0
  | S754_nan => 0
  | S754_infinity s => if s then i32_min else i32_top
  | S754_finite s m e =>
      let v := if 0 <=? e then Z.shiftl (Zpos m) e else round_even (Zpos m) (- e) in
      Z.max i32_min (Z.min i32_top (if s then - v else v))
  end.

Definition clamp448 (v : f32) : f32 :=
  let v := if SFltb (f32_of_Z 448) v then f32_of_Z 448 else v in
  if SFltb v (f32_of_Z (-448)) then f32_of_Z (-448) else v.

Definition encode (scale : f32) (h : Z) : Z := Z.land (float2int_rn (clamp448 (f32_mul (half2float h) scale))) 255.

(** Element [i] of a buffer of halves, little-endian. *)
Definition half_at (fp16 : list Z) (i : nat) : option Z :=
  lo ← fp16 !! (2 * i)%nat; hi ← fp16 !! (2 * i + 1)%nat; Some (lo + Z.shiftl hi 8).

(** One thread. *)
Definition quantize_thread (fp16 : list Z) (n : Z) (scale : f32) (i : Z) (out : list Z) : option (list Z) :=
  if n <=? i then Some out
  else h ← half_at fp16 (Z.to_nat i);
       if i <? Z.of_nat (length out) then Some (<[Z.to_nat i := encode scale h]> out) else None.

(** ** gpu.rs *)

(** [quantize] is the compiled kernel, once it is. *)
Record DeviceTier : Type := mkTier { dt_ordinal : Z; dt_quantize : bool }.

Definition tier_available : bool := true.

Definition tier_new (ordinal : Z) (d : Cuda) : result string DeviceTier * Cuda :=
  match next_call d with
  | (DrvFail e _, d) => (Err ("CudaContext::new: " +:+ e)%string, d)
  | (DrvOk, d) => (Ok (mkTier ordinal false), d)
  end.

Definition QUANTIZE_FN : string := "quantize_fp16_to_fp8".

(** A driver call whose failure returns with a prefix. *)
Definition call {A} (prefix : string) (k : Cuda → result string A * DeviceTier * Cuda) (t : DeviceTier) (d : Cuda) : result string A * DeviceTier * Cuda :=
  match next_call d with
  | (DrvFail e _, d) => (Err (prefix +:+ e)%string, t, d)
  | (DrvOk, d) => k d
  end.

(** Compile the kernel on first use: compile, load the module, load the function. *)
Definition quantizer (t : DeviceTier) (d : Cuda) : result string unit * DeviceTier * Cuda :=
  if dt_quantize t then (Ok tt, t, d)
  else call "nvrtc compile: " (call "load_module: " (call ("load_function " +:+ QUANTIZE_FN +:+ ": ")
         (λ d, (Ok tt, mkTier (dt_ordinal t) true, d)) t) t) t d.

(** A buffer on the device is its bytes. *)
Definition reload_to_device (host : list Z) (t : DeviceTier) (d : Cuda) : result string (list Z) * DeviceTier * Cuda :=
  call "h2d: " (call "" (λ d, (Ok host, t, d)) t) t d.

Definition offload_to_host (device_buf : list Z) (t : DeviceTier) (d : Cuda) : result string (list Z) * DeviceTier * Cuda :=
  call "d2h: " (call "" (λ d, (Ok device_buf, t, d)) t) t d.

(** [as i32]. *)
Definition wrap_i32 (z : Z) : Z := (z + 2147483648) mod 4294967296 - 2147483648.

(** [LaunchConfig::for_num_elems(n)]: blocks of 1024 threads. *)
Definition grid_threads (n : Z) : Z := 1024 * ((n + 1023) / 1024).

Section launch.
(** The order in which the device runs the threads of a grid. *)
Context (schedule : Z → list Z).

(** [None]: an access outside a buffer. *)
Definition launch (fp16 : list Z) (n : Z) (scale : f32) (out : list Z) : option (list Z) :=
  for_each (quantize_thread fp16 n scale) (schedule (grid_threads n)) out.

(** The allocation of a negative [n as usize] is of more than 2^63 bytes, which no device has. *)
Definition quantize_fp16_to_fp8 (fp16 : list Z) (scale : f32) (oom : string) (t : DeviceTier) (d : Cuda) : option (result string (list Z) * DeviceTier * Cuda) :=
  if negb (Z.of_nat (length fp16) mod 2 =? 0) then Some (Err "fp16 byte length must be even (2 bytes per __half)", t, d)
  else
    let n := wrap_i32 (Z.of_nat (length fp16) / 2) in
    if n =? 0 then Some (Ok [], t, d)
    else match next_call d with
    | (DrvFail e _, d) => Some (Err ("h2d in: " +:+ e)%string, t, d)
    | (DrvOk, d) =>
        if n <? 0 then Some (Err ("alloc out: " +:+ oom)%string, t, (next_call d).2)
        else match next_call d with
        | (DrvFail e _, d) => Some (Err ("alloc out: " +:+ e)%string, t, d)
        | (DrvOk, d) =>
            let d_out := replicate (Z.to_nat n) 0 in
            match quantizer t d with
            | (Err e, t, d) => Some (Err e, t, d)
            | (Ok _, t, d) =>
                match next_call d with
                | (DrvFail e _, d) => Some (Err ("launch: " +:+ e)%string, t, d)
                | (DrvOk, d) =>
                    d_out ← launch fp16 n scale d_out;
                    Some (call "d2h out: " (call "" (λ d, (Ok d_out, t, d)) t) t d)
                end
            end
        end
    end.
End launch.

(** ** gpu_stub.rs: without the feature *)

Definition stub_available : bool := false.
Definition stub_new (_ : Z) : result string unit :=
  Err "built without the `cuda` feature; build with --features cuda on a GPU box".
Definition stub_ordinal : Z := 0.
Definition stub_quantize (_ : list Z) : result string (list Z) :=
  Err "CUDA quantize unavailable; build with --features cuda on a GPU box".

(** ** Lemmas *)

Lemma encode_byte scale h : 0 ≤ encode scale h ≤ 255.
Proof.
  unfold encode. generalize (float2int_rn (clamp448 (f32_mul (half2float h) scale))). intros z. change (Z.land z 255) with (Z.land z (Z.ones 8)).
  rewrite Z.land_ones by lia. change (2 ^ 8) with 256. pose proof (Z.mod_pos_bound z 256 ltac:(lia)). lia.
Qed.

Lemma wrap_i32_id z : 0 ≤ z ≤ i32_top → wrap_i32 z = z.
Proof. unfold wrap_i32, i32_top. intros Hz. rewrite Z.mod_small by lia. lia. Qed.
Lemma wrap_i32_period z k : wrap_i32 (4294967296 * k + z) = wrap_i32 z.
Proof. unfold wrap_i32. rewrite <- (Z.mod_add (z + 2147483648) k) by lia. do 2 f_equal. lia. Qed.

Lemma half_at_total fp16 i : (2 * i + 1 < length fp16)%nat → ∃ h, half_at fp16 i = Some h.
Proof.
  intros Hi. destruct (lookup_lt_is_Some_2 fp16 (2 * i)) as [lo Hlo]; [lia|]. destruct (lookup_lt_is_Some_2 fp16 (2 * i + 1)) as [hi Hhi]; [lia|].
  unfold half_at. rewrite Hlo, Hhi. by eexists.
Qed.

(** The result of the launch, element by element. *)
Definition quantized (fp16 : list Z) (n : nat) (scale : f32) (out : list Z) : Prop :=
  length out = n ∧ ∀ i, (i < n)%nat → ∃ h, half_at fp16 i = Some h ∧ out !! i = Some (encode scale h).

Lemma launch_spec order fp16 n scale :
  0 ≤ n → 2 * n ≤ Z.of_nat (length fp16) → order ≡ₚ range (grid_threads n) →
  ∃ out, for_each (quantize_thread fp16 n scale) order (replicate (Z.to_nat n) 0) = Some out ∧ quantized fp16 (Z.to_nat n) scale out.
Proof.
  intros Hn Hlen Hord.
  destruct (for_each_total (quantize_thread fp16 n scale)
    (λ dn out, length out = Z.to_nat n ∧ ∀ i, i ∈ dn → i < n → ∃ h, half_at fp16 (Z.to_nat i) = Some h ∧ out !! Z.to_nat i = Some (encode scale h)) order (replicate (Z.to_nat n) 0))
    as (out & Hrun & Hl & Hall).
  - split; [apply length_replicate|by intros i []%elem_of_nil].
  - intros dn x rest out -> [Hl Hall]. assert (0 ≤ x) as Hx by (apply (elem_of_range (grid_threads n)); rewrite <- Hord; set_solver).
    unfold quantize_thread. destruct (Z.leb_spec n x).
    + exists out. split; [done|]. split; [done|]. intros i [Hi| ->%list_elem_of_singleton]%elem_of_app Hin; [by apply Hall|lia].
    + destruct (half_at_total fp16 (Z.to_nat x)) as [h Hh]; [lia|]. rewrite Hh. cbn [mbind option_bind]. rewrite (proj2 (Z.ltb_lt _ _)) by lia.
      eexists. split; [done|]. split; [by rewrite length_insert|]. intros i Hi Hin. destruct (decide (i = x)) as [->|Hne].
      * exists h. split; [done|]. apply list_lookup_insert_eq. lia.
      * apply elem_of_app in Hi as [Hi|Hi%list_elem_of_singleton]; [|done]. destruct (Hall i Hi Hin) as (h' & ? & ?). exists h'. split; [done|].
        destruct (decide (0 ≤ i)) as [Hi0|Hi0]; [by rewrite list_lookup_insert_ne by lia|]. exfalso.
        assert (i ∈ range (grid_threads n)) as [? _]%elem_of_range by (rewrite <- Hord; set_solver). done.
  - exists out. split; [done|]. split; [done|]. intros i Hi. rewrite <- (Nat2Z.id i). apply Hall; [|lia]. rewrite Hord, elem_of_range. unfold grid_threads.
    pose proof (Z.div_mod (n + 1023) 1024 ltac:(lia)). pose proof (Z.mod_pos_bound (n + 1023) 1024 ltac:(lia)). lia.
Qed.

(** Every call succeeds. *)
Definition no_failures (d : Cuda) : Prop := Forall (λ c, c = DrvOk) d.
Lemma next_ok d : no_failures d → ∃ d', next_call d = (DrvOk, d') ∧ no_failures d'.
Proof. destruct d as [|c d]; cbn; [by exists []|]. intros [-> Hd]%Forall_cons. by exists d. Qed.

Lemma quantizer_ok t d : no_failures d → ∃ d', quantizer t d = (Ok tt, mkTier (dt_ordinal t) true, d') ∧ no_failures d'.
Proof.
  intros Hd. unfold quantizer, call. destruct t as [o []]; [by exists d|]. destruct (next_ok d Hd) as (d1 & -> & H1). destruct (next_ok d1 H1) as (d2 & -> & H2).
  destruct (next_ok d2 H2) as (d3 & -> & H3). by exists d3.
Qed.

(** ** Theorems *)

Section theorems.
Context (schedule : Z → list Z) (Hschedule : ∀ n, schedule n ≡ₚ range n).

(** Quantizing a block: an odd length is refused; otherwise, up to 2^31 - 1 elements, when the driver's calls succeed the result
    is half as long and byte i is the code of element i, in whatever order the device runs the threads, and no thread reads or writes outside
    a buffer; the kernel is compiled at most once. *)
Theorem quantize_exact fp16 scale oom t d :
  no_failures d → Z.of_nat (length fp16) / 2 ≤ i32_top →
  if Nat.even (length fp16)
  then ∃ out d', quantize_fp16_to_fp8 schedule fp16 scale oom t d = Some (Ok out, if decide (fp16 = []) then t else mkTier (dt_ordinal t) true, d')
    ∧ quantized fp16 (length fp16 / 2) scale out
  else quantize_fp16_to_fp8 schedule fp16 scale oom t d = Some (Err "fp16 byte length must be even (2 bytes per __half)", t, d).
Proof.
  intros Hd Hmax. unfold quantize_fp16_to_fp8. destruct (Nat.even (length fp16)) eqn:He.
  - apply Nat.even_spec in He as [k Hk]. rewrite Hk. replace (Z.of_nat (2 * k)) with (Z.of_nat k * 2) in * by lia. rewrite Hk in Hmax.
    replace (Z.of_nat (2 * k)) with (Z.of_nat k * 2) in Hmax by lia. rewrite Z.mod_mul, Z.div_mul in * by lia. cbn [Z.eqb negb]. cbv zeta.
    rewrite wrap_i32_id by lia. rewrite Nat.mul_comm, Nat.div_mul by done. destruct (Z.eqb_spec (Z.of_nat k) 0) as [E|E].
    + exists [], d. rewrite decide_True by (apply length_zero_iff_nil; lia). split; [done|]. replace k with 0%nat by lia. split; [done|]. lia.
    + rewrite decide_False by (intros ->; cbn in Hk; lia). destruct (next_ok d Hd) as (d1 & -> & H1). rewrite (proj2 (Z.ltb_ge _ _)) by lia.
      destruct (next_ok d1 H1) as (d2 & -> & H2). destruct (quantizer_ok t d2 H2) as (d3 & -> & H3). destruct (next_ok d3 H3) as (d4 & -> & H4).
      destruct (launch_spec (schedule (grid_threads (Z.of_nat k))) fp16 (Z.of_nat k) scale) as (out & Hrun & Hq); [lia|lia|apply Hschedule|].
      unfold launch. rewrite Hrun. cbn [mbind option_bind]. unfold call. destruct (next_ok d4 H4) as (d5 & -> & H5). destruct (next_ok d5 H5) as (d6 & -> & _).
      exists out, d6. split; [done|]. by rewrite Nat2Z.id in Hq.
  - destruct (Z.eqb_spec (Z.of_nat (length fp16) mod 2) 0) as [E|E]; [|done]. exfalso. apply not_true_iff_false in He. apply He, Nat.even_spec.
    exists (Z.to_nat (Z.of_nat (length fp16) / 2)). pose proof (Z.div_mod (Z.of_nat (length fp16)) 2 ltac:(lia)). lia.
Qed.

(** The element count is truncated to 32 bits: of a block of 2 * (2^32 + k) bytes only the first k elements are quantized, and the call
    succeeds with k bytes (none at all at exactly 8 GiB). *)
Theorem quantize_truncates fp16 scale oom t d k :
  no_failures d → 0 ≤ k ≤ i32_top → Z.of_nat (length fp16) = 2 * (4294967296 + k) →
  ∃ out t' d', quantize_fp16_to_fp8 schedule fp16 scale oom t d = Some (Ok out, t', d') ∧ Z.of_nat (length out) = k.
Proof.
  intros Hd Hk Hlen. unfold quantize_fp16_to_fp8. rewrite Hlen. rewrite (Z.mul_comm 2), Z.mod_mul, Z.div_mul by lia. cbn [Z.eqb negb]. cbv zeta.
  pose proof (wrap_i32_period k 1) as Hw. rewrite Z.mul_1_r in Hw. rewrite Hw, wrap_i32_id by lia. destruct (Z.eqb_spec k 0) as [E|E]; [exists [], t, d; split; [done|cbn; lia]|].
  destruct (next_ok d Hd) as (d1 & -> & H1). rewrite (proj2 (Z.ltb_ge _ _)) by lia. destruct (next_ok d1 H1) as (d2 & -> & H2).
  destruct (quantizer_ok t d2 H2) as (d3 & -> & H3). destruct (next_ok d3 H3) as (d4 & -> & H4).
  destruct (launch_spec (schedule (grid_threads k)) fp16 k scale) as (out & Hrun & Hl & _); [lia|lia|apply Hschedule|].
  unfold launch. rewrite Hrun. cbn [mbind option_bind]. unfold call. destruct (next_ok d4 H4) as (d5 & -> & H5). destruct (next_ok d5 H5) as (d6 & -> & _).
  eexists out, _, d6. split; [done|]. lia.
Qed.
End theorems.

(** Reload then offload gives the bytes back whenever both calls succeed; a failed call returns its error and no bytes. *)
Theorem reload_offload_roundtrip host t d :
  match reload_to_device host t d with
  | (Err _, t', _) => t' = t
  | (Ok buf, t', d') => buf = host ∧ t' = t ∧ match offload_to_host buf t' d' with (Ok back, _, _) => back = host | (Err _, t'', _) => t'' = t end
  end.
Proof.
  unfold reload_to_device, offload_to_host, call. destruct (next_call d) as [[|e j] d1]; [|done]. destruct (next_call d1) as [[|e j] d2]; [|done].
  split; [done|]. split; [done|]. destruct (next_call d2) as [[|e j] d3]; [|done]. by destruct (next_call d3) as [[|e j] d4].
Qed.

(** ** Runs *)

Definition in_order (n : Z) : list Z := range n.
Definition one : f32 := f32_of_Z 1.

(** Two halves, 1.0 and -3.0: the codes 1 and 253 (-3 modulo 256). *)
Lemma quantize_exact_witness : ∃ d', quantize_fp16_to_fp8 in_order [0; 60; 0; 194] one "out of memory" (mkTier 0 false) [] = Some (Ok [1; 253], mkTier 0 true, d').
Proof.
  destruct (quantize_exact in_order (λ n, Permutation_refl _) [0; 60; 0; 194] one "out of memory" (mkTier 0 false) []) as (out & d' & E & Hl & Hq); [apply Forall_nil; done|by vm_compute|].
  exists d'. rewrite E. destruct (Hq 0%nat) as (h0 & E0 & O0); [cbn; lia|]. destruct (Hq 1%nat) as (h1 & E1 & O1); [cbn; lia|]. injection E0 as <-. injection E1 as <-.
  destruct out as [|a [|b [|c out]]]; cbn in Hl; try discriminate Hl. cbn in O0, O1. injection O0 as ->. injection O1 as ->. vm_compute. reflexivity.
Defined.

(** *** The codes around zero *)

(** A normal number of the format: 24 bits, exponent in range. *)
Definition f32_normal (m : positive) (e : Z) : Prop := digits2_pos m = 24%positive ∧ -149 ≤ e ≤ 104.

Lemma round_aux_normal s m e : f32_normal m e → binary_round_aux 24 128 s (Zpos m) e loc_Exact = S754_finite s m e.
Proof.
  intros [Hm He]. unfold binary_round_aux, shr_fexp. cbn [Zdigits2 shr_record_of_loc]. rewrite Hm.
  assert (fexp 24 128 (24 + e) - e = 0) as -> by (unfold fexp, emin; lia). cbn [shr shr_m loc_of_shr_record round_nearest_even Zdigits2 shr_record_of_loc]. rewrite Hm.
  assert (fexp 24 128 (24 + e) - e = 0) as -> by (unfold fexp, emin; lia). cbn [shr shr_m]. by rewrite (proj2 (Z.leb_le _ _)) by lia.
Qed.

Lemma digits2_shift m d : Zpos (digits2_pos (Pos.iter xO m d)) = Zpos (digits2_pos m) + Zpos d.
Proof. induction d as [|d IH] using Pos.peano_ind; [cbn; lia|]. rewrite Pos.iter_succ. cbn [digits2_pos]. lia. Qed.

(** A mantissa of fewer bits is shifted up. *)
Lemma round_short s m e :
  Zpos (digits2_pos m) < 24 → -149 ≤ Zpos (digits2_pos m) + e - 24 ≤ 104 →
  ∃ m', f32_normal m' (Zpos (digits2_pos m) + e - 24) ∧ binary_round 24 128 s m e = S754_finite s m' (Zpos (digits2_pos m) + e - 24).
Proof.
  intros Hm He. set (d := 24 - Zpos (digits2_pos m)). assert (0 < d) as Hd by lia. exists (Pos.iter xO m (Z.to_pos d)).
  assert (f32_normal (Pos.iter xO m (Z.to_pos d)) (Zpos (digits2_pos m) + e - 24)) as Hn.
  { split; [|lia]. pose proof (digits2_shift m (Z.to_pos d)) as H. rewrite Z2Pos.id in H by done. subst d. lia. }
  split; [done|]. unfold binary_round, shl_align.
  assert (fexp 24 128 (Zpos (digits2_pos m) + e) = Zpos (digits2_pos m) + e - 24) as -> by (unfold fexp, emin; lia).
  replace (Zpos (digits2_pos m) + e - 24 - e) with (- d) by lia.
  assert (- d = Zneg (Z.to_pos d)) as -> by (rewrite <- Pos2Z.opp_pos, Z2Pos.id; lia). by apply round_aux_normal.
Qed.

Lemma mul_one s m e : f32_normal m e → f32_mul (S754_finite s m e) one = S754_finite s m e.
Proof.
  intros Hn. pose proof Hn as [Hm He]. change one with (S754_finite false 8388608 (-23)). unfold f32_mul, SFmul. rewrite xorb_false_r, Pos.mul_comm.
  assert (shr_fexp 24 128 (Zpos (8388608 * m)) (e + -23) loc_Exact = (Build_shr_record (Zpos m) false false, e)) as Hshr.
  { unfold shr_fexp. assert (Zdigits2 (Zpos (8388608 * m)) = 47) as -> by (change (Zdigits2 _) with (Zpos (digits2_pos (Pos.iter xO m 23))); rewrite digits2_shift, Hm; done).
    assert (fexp 24 128 (47 + (e + -23)) - (e + -23) = 23) as -> by (unfold fexp, emin; lia). unfold shr. replace (e + -23 + 23) with e by lia. done. }
  rewrite <- (round_aux_normal s m e Hn). unfold binary_round_aux. rewrite Hshr.
  assert (shr_fexp 24 128 (Zpos m) e loc_Exact = (Build_shr_record (Zpos m) false false, e)) as ->; [|done].
  unfold shr_fexp. cbn [Zdigits2]. rewrite Hm. by assert (fexp 24 128 (24 + e) - e = 0) as -> by (unfold fexp, emin; lia).
Qed.

Lemma digits2_bounds m : 2 ^ (Zpos (digits2_pos m) - 1) ≤ Zpos m < 2 ^ Zpos (digits2_pos m).
Proof.
  induction m as [m IH|m IH|]; cbn [digits2_pos]; [| |cbn; lia]; rewrite Pos2Z.inj_succ; replace (Z.succ (Zpos (digits2_pos m)) - 1) with (Z.succ (Zpos (digits2_pos m) - 1)) by lia;
    rewrite !Z.pow_succ_r by lia; lia.
Qed.

Lemma half_normal h s m e : half2float h = S754_finite s m e → f32_normal m e.
Proof.
  unfold half2float. set (ex := Z.land (Z.shiftr h 10) 31). set (mt := Z.land h 1023).
  assert (0 ≤ ex < 32) as He by (subst ex; change 31 with (Z.ones 5); rewrite Z.land_ones by lia; by apply Z.mod_pos_bound).
  assert (0 ≤ mt < 1024) as Hm by (subst mt; change 1023 with (Z.ones 10); rewrite Z.land_ones by lia; by apply Z.mod_pos_bound).
  destruct (Z.eqb_spec ex 31) as [E|E]; [by destruct (mt =? 0)|]. destruct ((ex =? 0) && (mt =? 0)) eqn:Ez; [done|]. cbv zeta.
  set (m' := if ex =? 0 then mt else mt + 1024). set (e' := if ex =? 0 then -24 else ex - 25).
  assert (0 < m' < 2048 ∧ -24 ≤ e' ≤ 5) as [Hm' He'] by (subst m' e'; destruct (Z.eqb_spec ex 0), (Z.eqb_spec mt 0); cbn in Ez; try discriminate Ez; lia).
  destruct m' as [|p|p]; [lia| |lia]. assert (Zpos (digits2_pos p) ≤ 11) as Hd.
  { pose proof (digits2_bounds p) as [Hp _]. destruct (Z.le_gt_cases (Zpos (digits2_pos p)) 11) as [?|Hgt]; [done|]. pose proof (Z.pow_le_mono_r 2 11 (Zpos (digits2_pos p) - 1) ltac:(lia) ltac:(lia)). lia. }
  destruct (round_short (Z.testbit h 15) p e') as (q & Hq & E'); [lia|lia|].
  intros Hf. assert (S754_finite (Z.testbit h 15) q (Zpos (digits2_pos p) + e' - 24) = S754_finite s m e) as [= <- <- <-]; [|done].
  rewrite <- E', <- Hf. by destruct (Z.testbit h 15).
Qed.

(** A normal of magnitude at most a half rounds to 0. *)
Lemma small_rounds s m e : f32_normal m e → SFleb (S754_finite false m e) (S754_finite false 8388608 (-24)) = true → float2int_rn (clamp448 (S754_finite s m e)) = 0.
Proof.
  intros [Hm _] Hs. pose proof (digits2_bounds m) as Hb. rewrite Hm in Hb. cbn in Hb.
  assert (e < -24 ∨ e = -24 ∧ m = 8388608%positive) as He.
  { unfold SFleb, SFcompare in Hs. destruct (Z.compare_spec e (-24)) as [->|?|?]; [|by left|done]. right. split; [done|].
    change (Pos.compare_cont Eq m 8388608) with (m ?= 8388608)%positive in Hs. destruct (Pos.compare_spec m 8388608); [done| |done]. lia. }
  assert (clamp448 (S754_finite s m e) = S754_finite s m e) as ->.
  { unfold clamp448. change (f32_of_Z 448) with (S754_finite false 14680064 (-15)). change (f32_of_Z (-448)) with (S754_finite true 14680064 (-15)).
    assert (SFltb (S754_finite false 14680064 (-15)) (S754_finite s m e) = false) as ->.
    { unfold SFltb, SFcompare. destruct s; [done|]. destruct (Z.compare_spec (-15) e); [lia|lia|done]. }
    unfold SFltb, SFcompare. destruct s; [|done]. destruct (Z.compare_spec e (-15)); [lia|done|lia]. }
  unfold float2int_rn. rewrite (proj2 (Z.leb_gt _ _)) by lia. assert (round_even (Zpos m) (- e) = 0) as ->; [|by destruct s].
  destruct He as [He|[-> ->]]; [|done]. unfold round_even.
  assert (2 ^ 24 ≤ 2 ^ (- e - 1)) as Hp by (apply Z.pow_le_mono_r; lia). assert (2 ^ (- e - 1) ≤ 2 ^ (- e)) as Hp' by (apply Z.pow_le_mono_r; lia).
  assert (Z.shiftr (Zpos m) (- e) = 0) as -> by (rewrite Z.shiftr_div_pow2 by lia; apply Z.div_small; lia).
  rewrite Z.shiftl_0_l, Z.shiftl_1_l, Z.sub_0_r. by rewrite (proj2 (Z.ltb_lt _ _)) by lia.
Qed.

(** The kernel's code is not the E4M3 encoding the tier documents: it is the rounded integer modulo 256, so 300.0 and 44.0 share a code,
    and with scale 1 every half between -0.5 and 0.5, and every NaN, is coded 0. *)
Definition small_or_nan (h : Z) : bool :=
  match half2float h with S754_nan => true | x => SFleb (SFabs x) (half2float 14336) end.

Theorem encode_is_not_e4m3 :
  half2float 23728 = f32_of_Z 300 ∧ half2float 20864 = f32_of_Z 44 ∧ encode one 23728 = 44 ∧ encode one 20864 = 44
  ∧ ∀ h, small_or_nan h = true → encode one h = 0.
Proof.
  split_and!; [vm_compute; reflexivity..|]. intros h. unfold small_or_nan, encode. change (half2float 14336) with (S754_finite false 8388608 (-24)).
  destruct (half2float h) as [s|s| |s m e] eqn:E; [|done| |]; intros Hs.
  - by destruct s.
  - done.
  - pose proof (half_normal _ _ _ _ E) as Hn. by rewrite mul_one, (small_rounds s m e Hn Hs).
Qed.
