(* ===== verification/MasterHa.v ===== *)
(** * High availability of the master

    The snapshot file of crates/quillcache-store/src/master_service.rs (save, load), the
    election client of crates/quillcache-store/src/master_election.rs, and the masters of
    src/store_master_http.rs that share both: each joins the election, recovers from the
    snapshot when it has won, serves, and saves it periodically.

    The file system has inodes: two masters that open the same temporary file write to the same
    inode, also after it was renamed.  Opening truncates, a write goes to its own offset in any
    number of pieces, a rename is atomic, and the steps of the masters interleave (a process
    may crash at any point; the machine does not lose power).  The JSON encoding is a parameter: decoding
    inverts encoding on snapshots with the default watermarks (the only ones the server has). *)
From S2P Require Import Prelude F64 BufferAllocator OffsetAllocator Identity ShardedMap CountMin StoreTypes Strategy OpLog Master SegmentLedger MasterInv MasterEvict MasterOps MasterSegments Recovery MasterSteps MasterTheorems MasterExamples MasterHttp.

(** ** Paths *)

Notation Path := (list Ascii.ascii).
Definition chars_of (s : string) : Path := String.list_ascii_of_string s.
Definition DOT : Ascii.ascii := Ascii.ascii_of_nat 46.
Definition SLASH : Ascii.ascii := Ascii.ascii_of_nat 47.

(** The path split after its last slash. *)
Fixpoint split_file (p : Path) : Path * Path :=
  match p with
  | [] => ([], [])
  | c :: p' => if bool_decide (SLASH ∈ p') then let '(d, f) := split_file p' in (c :: d, f)
               else if bool_decide (c = SLASH) then ([c], p') else ([], p)
  end.

(** What precedes the last dot of a name that has one; the dot of a hidden file does not count. *)
Fixpoint before_dot (f : Path) : option Path :=
  match f with
  | [] => None
  | c :: f' => match before_dot f' with
               | Some s => Some (c :: s)
               | None => if bool_decide (c = DOT) then Some [] else None
               end
  end.
Definition file_stem (f : Path) : Path :=
  match before_dot f with Some (c :: s) => c :: s | _ => f end.

(** [Path::with_extension] of a path that names a file. *)
Definition with_extension (ext : string) (p : Path) : Path :=
  let '(d, f) := split_file p in d ++ file_stem f ++ DOT :: chars_of ext.

Definition tmp_path (p : Path) : Path := with_extension "snapshot.tmp" p.

(** ** Saving and loading *)

Record Files : Type := mkFiles { fs_names : gmap Path Z; fs_data : gmap Z (list Z); fs_next : Z }.
Definition no_files : Files := mkFiles ∅ ∅ 0.
Definition file (fs : Files) (p : Path) : option (list Z) := i ← fs_names fs !! p; fs_data fs !! i.

(** [File::create]: the inode of the path, truncated, or a new one. *)
Definition fs_create (p : Path) (fs : Files) : Z * Files :=
  match fs_names fs !! p with
  | Some i => (i, mkFiles (fs_names fs) (<[i := []]> (fs_data fs)) (fs_next fs))
  | None => (fs_next fs, mkFiles (<[p := fs_next fs]> (fs_names fs)) (<[fs_next fs := []]> (fs_data fs)) (fs_next fs + 1))
  end.
(** A write at an offset; a gap before it reads as zeros. *)
Definition overwrite_at (off : nat) (bs old : list Z) : list Z := resize off 0 old ++ bs ++ drop (off + length bs) old.
Definition fs_write (i : Z) (off : nat) (bs : list Z) (fs : Files) : Files :=
  mkFiles (fs_names fs) (<[i := overwrite_at off bs (default [] (fs_data fs !! i))]> (fs_data fs)) (fs_next fs).
Definition fs_rename (p q : Path) (fs : Files) : option Files :=
  i ← fs_names fs !! p; Some (mkFiles (<[q := i]> (delete p (fs_names fs))) (fs_data fs) (fs_next fs)).

Class SnapshotCodec : Type := {
  enc_snap : MasterSnapshot → list Z;
  dec_snap : list Z → option MasterSnapshot;
  dec_enc_snap : ∀ s, snap_high_watermark s = f64_lit 95 100 → snap_eviction_ratio s = f64_lit 1 10 → dec_snap (enc_snap s) = Some s
}.

(** How a save that nothing interferes with goes: [DiesWriting k] and [DiesBeforeRename] are crashes of the process. *)
Inductive SaveFate : Type :=
| Completes
| OpenError (e : string)
| WriteError (k : nat) (e : string)
| RenameError (e : string)
| DiesWriting (k : nat)
| DiesBeforeRename.

(** A save under way: the open temporary file, the bytes to write and how many are written. *)
Record SaveTask : Type := mkTask { st_inode : Z; st_bytes : list Z; st_off : nat }.

Inductive LoadError : Type := SnapshotMissing | SnapshotInvalid | SnapshotRefused (e : ErrorCode).

Section snapshots.
Context `{HashIter} `{KeyHash} `{EntryCodec} `{RegexEngine} `{SnapshotCodec}.
Implicit Types (m : MasterService) (fs : Files).

(** The three parts of a save: serialize and open the temporary file, write some more of the bytes, rename. *)
Definition save_open (path : Path) m fs : SaveTask * Files :=
  let bytes := enc_snap (snapshot m) in
  let '(i, fs) := fs_create (tmp_path path) fs in
  (mkTask i bytes 0, fs).
Definition save_chunk (k : nat) (t : SaveTask) fs : SaveTask * Files :=
  let bs := take k (drop (st_off t) (st_bytes t)) in
  (mkTask (st_inode t) (st_bytes t) (st_off t + length bs), fs_write (st_inode t) (st_off t) bs fs).
Definition save_rename (path : Path) fs : result string unit * Files :=
  match fs_rename (tmp_path path) path fs with
  | Some fs => (Ok tt, fs)
  | None => (Err "No such file or directory", fs)
  end.

(** A save, alone.  [None]: the process died. *)
Definition save_snapshot (fate : SaveFate) (path : Path) m fs : option (result string unit) * Files :=
  match fate with
  | OpenError e => (Some (Err e), fs)
  | _ =>
      let '(t, fs) := save_open path m fs in
      match fate with
      | WriteError k e => (Some (Err e), (save_chunk k t fs).2)
      | DiesWriting k => (None, (save_chunk k t fs).2)
      | _ =>
          let fs := (save_chunk (length (st_bytes t)) t fs).2 in
          match fate with
          | RenameError e => (Some (Err e), fs)
          | DiesBeforeRename => (None, fs)
          | _ => let '(r, fs) := save_rename path fs in (Some r, fs)
          end
      end
  end.

Definition load_snapshot (path : Path) fs : option (result LoadError MasterService) :=
  match file fs path with
  | None => Some (Err SnapshotMissing)
  | Some bytes =>
      match dec_snap bytes with
      | None => Some (Err SnapshotInvalid)
      | Some snap =>
          r ← recover snap;
          Some match r with Ok m => Ok m | Err e => Err (SnapshotRefused e) end
      end
  end.

(** ** Masters over one snapshot *)

(** [run_store_master], steps 2 and on: the server a process starts with. *)
Definition start_server (strategy : string) (ttl : Z) (path : Path) fs : option (result LoadError Server) :=
  r ← (if bool_decide (is_Some (file fs path)) then load_snapshot path fs else Some (Ok (master_new strategy)));
  Some match r with
       | Err e => Err e
       | Ok m => Ok (mkServer (if 0 <? ttl then set_segment_ttl ttl m else m) false)
       end.

(** [ha_saves]: the saves under way; a master holds its lock until its own has ended. *)
Record Ha : Type := mkHa { ha_files : Files; ha_cluster : Cluster; ha_servers : gmap string Server; ha_saves : gmap string SaveTask }.

(** [SaveFails]: a write or the rename returns an error. *)
Inductive SaveStep : Type := SaveOpen | SaveChunk (k : nat) | SaveRename | SaveFails.
Inductive HaEvent : Type :=
| HaElect (e : ElectionEvent)
| HaServe (n : string) (e : ServerEvent)
| HaSave (n : string) (st : SaveStep).        (* of the snapshot task's tick *)

Definition serving (n : string) (c : Cluster) : bool :=
  match processes c !! n with Some (Serving _) => true | _ => false end.
Definition die (n : string) (c : Cluster) : Cluster := mkCluster (leader c) (<[n := Crashed]> (processes c)).

Section ha.
Context (strategy : string) (ttl : Z) (path : Path).
Implicit Types s : Ha.

(** A process that cannot start (an error, or a panic of the recovery) exits, as one that dies. *)
Definition ha_start (n : string) s : Ha :=
  match start_server strategy ttl path (ha_files s) with
  | Some (Ok sv) => mkHa (ha_files s) (ha_cluster s) (<[n := sv]> (ha_servers s)) (ha_saves s)
  | _ => mkHa (ha_files s) (die n (ha_cluster s)) (ha_servers s) (ha_saves s)
  end.

(** One step of the save of master [n]; a tick that finds the lock poisoned ends the task. *)
Definition ha_save (n : string) (st : SaveStep) s : option Ha :=
  match ha_saves s !! n, st with
  | None, SaveOpen =>
      sv ← ha_servers s !! n;
      if sv_poisoned sv then Some s
      else let '(t, fs) := save_open path (sv_master sv) (ha_files s) in
           Some (mkHa fs (ha_cluster s) (ha_servers s) (<[n := t]> (ha_saves s)))
  | Some t, SaveChunk k =>
      let '(t, fs) := save_chunk k t (ha_files s) in
      Some (mkHa fs (ha_cluster s) (ha_servers s) (<[n := t]> (ha_saves s)))
  | Some t, SaveRename =>
      if decide (st_off t = length (st_bytes t))
      then Some (mkHa (save_rename path (ha_files s)).2 (ha_cluster s) (ha_servers s) (delete n (ha_saves s)))
      else None
  | Some t, SaveFails => Some (mkHa (ha_files s) (ha_cluster s) (ha_servers s) (delete n (ha_saves s)))
  | _, _ => None
  end.

Definition ha_step (e : HaEvent) s : option Ha :=
  match e with
  | HaElect ev =>
      c ← election_step ev (ha_cluster s);
      let s := mkHa (ha_files s) c (ha_servers s) (match ev with Crash n => delete n (ha_saves s) | _ => ha_saves s end) in
      Some match ev with Win n => ha_start n s | _ => s end
  | HaServe n ev =>
      if serving n (ha_cluster s) && bool_decide (ha_saves s !! n = None) then
        sv ← ha_servers s !! n;
        Some (mkHa (ha_files s) (ha_cluster s) (<[n := (server_step ev sv).2]> (ha_servers s)) (ha_saves s))
      else None
  | HaSave n st => if serving n (ha_cluster s) then ha_save n st s else None
  end.
Fixpoint ha_run (es : list HaEvent) s : option Ha :=
  match es with [] => Some s | e :: es => s ← ha_step e s; ha_run es s end.
End ha.
End snapshots.

(** ** The temporary file is another file *)

Lemma split_file_app p : (split_file p).1 ++ (split_file p).2 = p.
Proof.
  induction p as [|c p IH]; [done|]. cbn [split_file]. case_bool_decide.
  - destruct (split_file p). cbn in *. by rewrite IH.
  - by case_bool_decide.
Qed.

Lemma before_dot_None f : before_dot f = None → DOT ∉ f.
Proof.
  induction f as [|c f IH]; cbn; [by intros _ ?%elem_of_nil|]. destruct (before_dot f); [done|]. case_bool_decide; [done|].
  intros _ [?|Hin]%elem_of_cons; [done|by apply IH].
Qed.
Lemma before_dot_Some f s : before_dot f = Some s → ∃ e, f = s ++ DOT :: e ∧ DOT ∉ e.
Proof.
  revert s. induction f as [|c f IH]; intros s; cbn; [done|]. destruct (before_dot f) as [s'|] eqn:E.
  - intros [= <-]. destruct (IH s' eq_refl) as (e & -> & He). by exists e.
  - case_bool_decide as Hc; [|done]. intros [= <-]. exists f. by rewrite Hc; split; [|apply before_dot_None].
Qed.

Lemma tmp_path_ne p : tmp_path p ≠ p.
Proof.
  unfold tmp_path, with_extension. pose proof (split_file_app p) as Hp. destruct (split_file p) as [d f]. cbn in Hp. rewrite <- Hp. intros E%app_inv_head.
  unfold file_stem in E. destruct (before_dot f) as [[|c s]|] eqn:Eb.
  - apply (f_equal length) in E. rewrite length_app in E. cbn in E. lia.
  - apply before_dot_Some in Eb as (e & -> & He). apply app_inv_head in E. injection E as <-. apply He. by apply (bool_decide_unpack _); vm_compute.
  - apply before_dot_None in Eb. apply Eb. rewrite <- E. set_solver.
Qed.

Section theorems.
Context `{HashIter} `{KeyHash} `{EntryCodec} `{RegexEngine} `{SnapshotCodec}.
Implicit Types (m : MasterService) (fs : Files).

(** The watermarks are the defaults. *)
Definition default_marks m : Prop := high_watermark m = f64_lit 95 100 ∧ eviction_ratio m = f64_lit 1 10.

(** *** The file system *)

(** No two names share an inode, and every named inode exists. *)
Record fs_wf fs : Prop := {
  fw_inj : ∀ p q i, fs_names fs !! p = Some i → fs_names fs !! q = Some i → p = q;
  fw_data : ∀ p i, fs_names fs !! p = Some i → i < fs_next fs ∧ is_Some (fs_data fs !! i)
}.

Lemma no_files_wf : fs_wf no_files.
Proof. split; intros *; cbn; by rewrite lookup_empty. Qed.

Lemma file_inode fs p i : fs_names fs !! p = Some i → file fs p = fs_data fs !! i.
Proof. unfold file. by intros ->. Qed.
Lemma file_ext fs fs' p :
  fs_names fs' !! p = fs_names fs !! p → (∀ i, fs_names fs !! p = Some i → fs_data fs' !! i = fs_data fs !! i) → file fs' p = file fs p.
Proof. intros Hn Hd. unfold file. rewrite Hn. destruct (fs_names fs !! p) as [i|]; [|done]. cbn. by apply Hd. Qed.

Lemma create_spec p fs i fs' :
  fs_wf fs → fs_create p fs = (i, fs') →
  fs_wf fs' ∧ fs_names fs' !! p = Some i ∧ fs_data fs' !! i = Some [] ∧ (∀ q, q ≠ p → fs_names fs' !! q = fs_names fs !! q)
  ∧ (∀ j, j ≠ i → fs_data fs' !! j = fs_data fs !! j) ∧ (∀ q, q ≠ p → fs_names fs !! q ≠ Some i) ∧ (∀ j, j < fs_next fs → j < fs_next fs').
Proof.
  intros [Hinj Hd] Hc. unfold fs_create in Hc. destruct (fs_names fs !! p) as [i0|] eqn:Ep; injection Hc as <- <-; cbn [fs_names fs_data fs_next].
  - split_and!; [|done|by rewrite lookup_insert_eq|done|intros; by rewrite lookup_insert_ne| |done].
    + split; cbn; [done|]. intros q j Hq. destruct (Hd q j Hq) as [? ?]. split; [done|]. destruct (decide (j = i0)) as [->|]; [by rewrite lookup_insert_eq|by rewrite lookup_insert_ne].
    + intros q Hne Hq. by apply Hne, (Hinj _ _ i0).
  - assert (∀ q, fs_names fs !! q ≠ Some (fs_next fs)) as Hfresh by (intros q [? _]%Hd; lia).
    split_and!; [|by rewrite lookup_insert_eq..|intros; by rewrite lookup_insert_ne|intros; by rewrite lookup_insert_ne|done|lia].
    split; cbn.
    + intros q q' j [[<- <-]|[_ Hq]]%lookup_insert_Some [[<- E]|[_ Hq']]%lookup_insert_Some; [done|by apply Hfresh in Hq'|subst; by apply Hfresh in Hq|by eapply Hinj].
    + intros q j [[<- <-]|[_ Hq]]%lookup_insert_Some; [rewrite lookup_insert_eq; split; [lia|done]|]. destruct (Hd q j Hq) as [? ?].
      rewrite lookup_insert_ne by lia. split; [lia|done].
Qed.

Lemma write_wf i off bs fs : fs_wf fs → fs_wf (fs_write i off bs fs).
Proof.
  intros [Hinj Hd]. split; cbn; [done|]. intros q j Hq. destruct (Hd q j Hq) as [? ?]. split; [done|].
  destruct (decide (j = i)) as [->|]; [by rewrite lookup_insert_eq|by rewrite lookup_insert_ne].
Qed.

Lemma rename_spec p q fs i :
  p ≠ q → fs_wf fs → fs_names fs !! p = Some i →
  ∃ fs', fs_rename p q fs = Some fs' ∧ fs_wf fs' ∧ fs_names fs' !! q = Some i ∧ fs_names fs' !! p = None ∧ fs_data fs' = fs_data fs
    ∧ ∀ r, r ≠ p → r ≠ q → fs_names fs' !! r = fs_names fs !! r.
Proof.
  intros Hne [Hinj Hd] Hp. unfold fs_rename. rewrite Hp. cbn. eexists. split; [done|]. cbn [fs_names fs_data].
  split_and!; [|by rewrite lookup_insert_eq|by rewrite lookup_insert_ne, lookup_delete_eq|done|intros; by rewrite lookup_insert_ne, lookup_delete_ne].
  split; cbn.
  - intros r r' j Hr Hr'. rewrite lookup_insert_Some in Hr, Hr'. rewrite lookup_delete_Some in Hr, Hr'.
    destruct Hr as [[<- <-]|[? [? Hr]]], Hr' as [[<- E]|[? [? Hr']]]; try done; subst; [|..|by eapply Hinj].
    + by assert (p = r') by by eapply Hinj.
    + by assert (p = r) by by eapply Hinj.
  - intros r j [[<- <-]|[? [? Hr]%lookup_delete_Some]]%lookup_insert_Some; [by apply (Hd p)|by apply (Hd r)].
Qed.

(** Writing the next piece of a file written so far. *)
Lemma overwrite_next (bytes : list Z) off k :
  (off ≤ length bytes)%nat → let bs := take k (drop off bytes) in overwrite_at off bs (take off bytes) = take (off + length bs) bytes.
Proof.
  intros Hoff bs. unfold overwrite_at. rewrite resize_all_alt by (rewrite length_take; lia). rewrite drop_ge by (rewrite length_take; lia). rewrite app_nil_r.
  unfold bs. rewrite length_take, length_drop, take_take_drop.
  destruct (Nat.le_gt_cases k (length bytes - off)); [f_equal; lia|by rewrite !take_ge by lia].
Qed.

Lemma chunk_spec k t fs :
  (st_off t ≤ length (st_bytes t))%nat → fs_data fs !! st_inode t = Some (take (st_off t) (st_bytes t)) → let '(t', fs') := save_chunk k t fs in
  st_inode t' = st_inode t ∧ st_bytes t' = st_bytes t ∧ (st_off t' ≤ length (st_bytes t))%nat ∧ fs_data fs' !! st_inode t = Some (take (st_off t') (st_bytes t))
  ∧ ((length (st_bytes t) ≤ k)%nat → st_off t' = length (st_bytes t)).
Proof.
  intros Hoff Hd. cbn [save_chunk st_inode st_bytes st_off fs_write fs_data]. rewrite lookup_insert_eq, Hd. cbn [default from_option id].
  rewrite overwrite_next by done. split_and!; [done|done| |done|]; rewrite length_take, length_drop; lia.
Qed.

(** A save alone, up to its rename: the temporary file holds the bytes. *)
Lemma save_written path m fs : fs_wf fs →
  let '(t, fs1) := save_open path m fs in ∀ k, let fs2 := (save_chunk k t fs1).2 in
  fs_wf fs2 ∧ (∀ q, q ≠ tmp_path path → file fs2 q = file fs q) ∧ fs_names fs2 !! tmp_path path = Some (st_inode t) ∧ st_bytes t = enc_snap (snapshot m)
  ∧ (k = length (st_bytes t) → fs_data fs2 !! st_inode t = Some (enc_snap (snapshot m))).
Proof.
  intros Hwf. unfold save_open. destruct (fs_create (tmp_path path) fs) as [i fs1] eqn:Ec. destruct (create_spec _ _ _ _ Hwf Ec) as (Hwf1 & Hn & Hd & Hno & Hdo & Hne & _).
  cbv beta iota. intros k. set (t := mkTask i (enc_snap (snapshot m)) 0) in *.
  pose proof (chunk_spec k t fs1) as Hc. destruct (save_chunk k t fs1) as [t' fs2] eqn:E. destruct Hc as (_ & _ & _ & Hd2 & Hall); [cbn; lia|done|].
  injection E as _ <-. cbn [snd]. split_and!; [by apply write_wf| |done|done|].
  - intros q Hq. apply file_ext; [cbn; by apply Hno|]. intros j Hj. cbn. assert (j ≠ i) by (intros ->; by apply (Hne q)). rewrite lookup_insert_ne by done. by apply Hdo.
  - intros ->. rewrite Hd2. rewrite Hall by done. cbn. by rewrite firstn_all.
Qed.

Lemma load_saved path m fs :
  reachable m → recoverable m → default_marks m → file fs path = Some (enc_snap (snapshot m)) →
  ∃ m', load_snapshot path fs = Some (Ok m') ∧ reachable m' ∧ view m' = view m ∧ shape (allocs m') = shape (allocs m) ∧ clock m' = clock m
    ∧ next_replica_id (segments m') = next_replica_id (segments m).
Proof.
  intros Hr Hrec [Hw He] Hf. destruct (recover_spec m (reachable_inv m Hr) Hrec) as (m' & Heq & _ & Hv & Hsh & Hc & _ & _ & _ & _ & _ & Hs).
  exists m'. unfold load_snapshot. rewrite Hf, dec_enc_snap by done. rewrite Heq. split; [done|]. split; [by eapply reach_recover|]. by rewrite Hs.
Qed.

(** C38 A save that no other save of the same path interferes with is atomic: however it ends (done, a failed open, write or rename, a crash of the
    process after any number of bytes), the snapshot path afterwards holds the complete new snapshot exactly when the save returned success,
    and otherwise exactly what it held before, and no file but the path and its temporary file has changed.  After a success, a reachable master with the
    default watermarks that can be recovered (every segment at most 3.75 GiB, about two million memory replicas at most) is loaded back with its
    objects, segments, clock and next replica id. *)
Theorem save_snapshot_atomic fate path m fs :
  fs_wf fs → let '(r, fs') := save_snapshot fate path m fs in
  fs_wf fs'
  ∧ (r = Some (Ok tt) ∧ file fs' path = Some (enc_snap (snapshot m)) ∧ file fs' (tmp_path path) = None
       ∧ (reachable m → recoverable m → default_marks m →
          ∃ m', load_snapshot path fs' = Some (Ok m') ∧ reachable m' ∧ view m' = view m ∧ shape (allocs m') = shape (allocs m) ∧ clock m' = clock m
            ∧ next_replica_id (segments m') = next_replica_id (segments m))
     ∨ r ≠ Some (Ok tt) ∧ file fs' path = file fs path)
  ∧ ∀ q, q ≠ path → q ≠ tmp_path path → file fs' q = file fs q.
Proof.
  intros Hwf. pose proof (tmp_path_ne path) as Hne. pose proof (save_written path m fs Hwf) as Hw. unfold save_snapshot.
  destruct (save_open path m fs) as [t fs1]. destruct fate as [|e|k e|e|k|].
  - destruct (Hw (length (st_bytes t))) as (Hwf2 & Hq & Hn & Hb & Hd). unfold save_rename.
    destruct (rename_spec (tmp_path path) path _ _ Hne Hwf2 Hn) as (fs3 & -> & Hwf3 & Hp3 & Ht3 & Hd3 & Ho3).
    assert (file fs3 path = Some (enc_snap (snapshot m))) as Hf by (rewrite (file_inode _ _ _ Hp3), Hd3; by apply Hd).
    split; [done|]. split; [left; split_and!; [done|done|unfold file; by rewrite Ht3|intros; by apply load_saved]|].
    intros q Hq1 Hq2. rewrite <- Hq by done. apply file_ext; [by apply Ho3|]. intros. by rewrite Hd3.
  - split; [done|]. split; [by right|done].
  - destruct (Hw k) as (Hwf2 & Hq & _). split; [done|]. split; [right; split; [done|by apply Hq]|]. intros q _ ?. by apply Hq.
  - destruct (Hw (length (st_bytes t))) as (Hwf2 & Hq & _). split; [done|]. split; [right; split; [done|by apply Hq]|]. intros q _ ?. by apply Hq.
  - destruct (Hw k) as (Hwf2 & Hq & _). split; [done|]. split; [right; split; [done|by apply Hq]|]. intros q _ ?. by apply Hq.
  - destruct (Hw (length (st_bytes t))) as (Hwf2 & Hq & _). split; [done|]. split; [right; split; [done|by apply Hq]|]. intros q _ ?. by apply Hq.
Qed.

(** *** Masters over one snapshot *)

Section failover.
Context (strategy : string) (ttl : Z) (path : Path) (bytes : list Z) (i : Z).
Implicit Types s : Ha.

(** Nothing but the saves touches the files. *)
Lemma ha_elect_files ev s s' :
  ha_step strategy ttl path (HaElect ev) s = Some s' → ha_files s' = ha_files s ∧ ha_saves s' = match ev with Crash n => delete n (ha_saves s) | _ => ha_saves s end.
Proof.
  intros Hs. apply bind_Some in Hs as (c & _ & [= <-]). destruct ev; try done. unfold ha_start. by destruct (start_server _ _ _ _) as [[]|].
Qed.
Lemma ha_serve_files n ev s s' : ha_step strategy ttl path (HaServe n ev) s = Some s' → ha_files s' = ha_files s ∧ ha_saves s' = ha_saves s.
Proof. cbn. destruct (serving _ _ && _); [|done]. by intros (sv & _ & [= <-])%bind_Some. Qed.

(** While master [n] saves alone: its temporary file holds what it has written. *)
Definition saving (n : string) s : Prop :=
  ha_saves s = ∅ ∨ ∃ off, ha_saves s = {[n := mkTask i bytes off]} ∧ (off ≤ length bytes)%nat
    ∧ fs_wf (ha_files s) ∧ fs_names (ha_files s) !! tmp_path path = Some i ∧ fs_data (ha_files s) !! i = Some (take off bytes).

Lemma saving_step n e s s' : (∀ n', e ≠ HaSave n' SaveOpen) → saving n s → ha_step strategy ttl path e s = Some s' → saving n s'.
Proof.
  intros Hno Hs Hstep. destruct e as [ev|n' ev|n' st].
  - destruct (ha_elect_files _ _ _ Hstep) as [Hf Hsv]. unfold saving. rewrite Hf, Hsv. destruct ev as [| | | |n']; try done.
    destruct Hs as [->|(off & -> & Hr)]; [left; apply delete_empty|]. destruct (decide (n' = n)) as [->|Hne]; [left; apply delete_singleton_eq|].
    right. exists off. split; [by apply delete_singleton_ne|done].
  - destruct (ha_serve_files _ _ _ _ Hstep) as [Hf Hsv]. unfold saving. by rewrite Hf, Hsv.
  - cbn in Hstep. destruct (serving n' (ha_cluster s)); [|done]. unfold ha_save in Hstep. destruct Hs as [E|(off & E & Hoff & Hwf & Hn & Hd)]; rewrite E in Hstep.
    + rewrite lookup_empty in Hstep. destruct st; try done. by destruct (Hno n').
    + destruct (decide (n' = n)) as [->|Hne].
      2:{ rewrite lookup_singleton_ne in Hstep by done. destruct st; try done. by destruct (Hno n'). }
      rewrite lookup_singleton_eq in Hstep. destruct st as [|k| |]; [by destruct (Hno n)| | |].
      * destruct (save_chunk k (mkTask i bytes off) (ha_files s)) as [t fs] eqn:Ec. injection Hstep as <-. right. cbn [ha_saves ha_files].
        pose proof (chunk_spec k (mkTask i bytes off) (ha_files s) Hoff Hd) as Hc. rewrite Ec in Hc. destruct Hc as (R1 & R2 & R3 & R4 & _). cbn [st_inode st_bytes] in *.
        exists (st_off t). split; [rewrite insert_singleton_eq; destruct t; cbn in *; by subst|]. injection Ec as _ <-. split_and!; [done|by apply write_wf|done|done].
      * case_decide; [|done]. injection Hstep as <-. left. apply delete_singleton_eq.
      * injection Hstep as <-. left. apply delete_singleton_eq.
Qed.

(** The snapshot is in place, and no save under way has its inode open. *)
Definition in_place s : Prop :=
  fs_wf (ha_files s) ∧ fs_names (ha_files s) !! path = Some i ∧ fs_data (ha_files s) !! i = Some bytes
  ∧ ∀ n t, ha_saves s !! n = Some t → st_inode t ≠ i.

Lemma in_place_step e s s' : (∀ n, e ≠ HaSave n SaveRename) → in_place s → ha_step strategy ttl path e s = Some s' → in_place s'.
Proof.
  intros Hno (Hwf & Hn & Hd & Hsv) Hstep. destruct e as [ev|n ev|n st].
  - destruct (ha_elect_files _ _ _ Hstep) as [Hf Es]. unfold in_place. rewrite Hf, Es. split_and!; [done..|]. destruct ev; try done.
    intros n' t [_ ?]%lookup_delete_Some. by eapply Hsv.
  - destruct (ha_serve_files _ _ _ _ Hstep) as [Hf Es]. unfold in_place. by rewrite Hf, Es.
  - cbn in Hstep. destruct (serving n (ha_cluster s)); [|done]. unfold ha_save in Hstep. destruct (ha_saves s !! n) as [t|] eqn:Et, st as [|k| |]; try done.
    + cbn [save_chunk] in Hstep. injection Hstep as <-. assert (st_inode t ≠ i) as Ht by by eapply Hsv.
      split_and!; [by apply write_wf|done|cbn; by rewrite lookup_insert_ne|]. cbn. intros n' t' [[<- <-]|[_ ?]]%lookup_insert_Some; [done|by eapply Hsv].
    + by destruct (Hno n).
    + injection Hstep as <-. split_and!; [done..|]. cbn. intros n' t' [_ ?]%lookup_delete_Some. by eapply Hsv.
    + apply bind_Some in Hstep as (sv & _ & Hstep). destruct (sv_poisoned sv); [by injection Hstep as <-|]. unfold save_open in Hstep.
      destruct (fs_create (tmp_path path) (ha_files s)) as [j fs] eqn:Ec. injection Hstep as <-. destruct (create_spec _ _ _ _ Hwf Ec) as (Hwf' & _ & _ & Hno' & Hdo & Hnj & _).
      pose proof (tmp_path_ne path) as Hne. assert (j ≠ i) as Hj by (intros ->; by apply (Hnj path)). unfold in_place. cbn [ha_files ha_saves].
      split_and!; [done|by rewrite Hno'|by rewrite Hdo|]. intros n' t' [[<- <-]|[_ ?]]%lookup_insert_Some; [done|by eapply Hsv].
Qed.

Lemma ha_run_inv (I : Ha → Prop) (bad : HaEvent → Prop) es s s' :
  (∀ e s s', ¬ bad e → I s → ha_step strategy ttl path e s = Some s' → I s') → (∀ e, e ∈ es → ¬ bad e) → I s → ha_run strategy ttl path es s = Some s' → I s'.
Proof.
  intros Hstep. revert s. induction es as [|e es IH]; intros s Hes HI Hrun; cbn in Hrun; [by injection Hrun as <-|].
  apply bind_Some in Hrun as (s1 & Hs1 & Hrun). apply (IH s1); [intros; apply Hes; by right| |done]. eapply Hstep; [|done|done]. apply Hes. by left.
Qed.
End failover.

Lemma ha_run_app strategy ttl path es1 es2 s s' :
  ha_run strategy ttl path (es1 ++ es2) s = Some s' → ∃ s1, ha_run strategy ttl path es1 s = Some s1 ∧ ha_run strategy ttl path es2 s1 = Some s'.
Proof.
  revert s. induction es1 as [|e es1 IH]; intros s Hrun; cbn in Hrun |- *; [eauto|]. apply bind_Some in Hrun as (s0 & -> & Hrun). by apply IH.
Qed.

(** A save of master [n] that no other save overlaps leaves its snapshot in place. *)
Lemma lone_save strategy ttl path s n sv es s' :
  fs_wf (ha_files s) → ha_saves s = ∅ → ha_servers s !! n = Some sv → sv_poisoned sv = false →
  ha_run strategy ttl path (HaSave n SaveOpen :: es ++ [HaSave n SaveRename]) s = Some s' → (∀ n', HaSave n' SaveOpen ∉ es) →
  ∃ i, in_place path (enc_snap (snapshot (sv_master sv))) i s'.
Proof.
  intros Hwf He Hsv Hpo Hrun Hes. pose proof (tmp_path_ne path) as Hne. cbn [ha_run] in Hrun. apply bind_Some in Hrun as (s1 & R1 & (s2 & R2 & R3)%ha_run_app).
  cbn in R1. destruct (serving n (ha_cluster s)); [|done]. unfold ha_save in R1. rewrite He, lookup_empty, Hsv in R1. cbn [mbind option_bind] in R1. rewrite Hpo in R1.
  unfold save_open in R1. destruct (fs_create (tmp_path path) (ha_files s)) as [i fs] eqn:Ec. injection R1 as <-. exists i.
  destruct (create_spec _ _ _ _ Hwf Ec) as (Hwf1 & Hn1 & Hd1 & _). set (bytes := enc_snap (snapshot (sv_master sv))) in *.
  apply (ha_run_inv strategy ttl path (saving path bytes i n) (λ e, ∃ n', e = HaSave n' SaveOpen)) in R2; [| |by intros e Hin [n' ->]; eapply Hes|].
  2:{ intros e t t' Hb. apply saving_step. intros n' ->. apply Hb. eauto. }
  2:{ right. exists 0%nat. cbn [ha_saves ha_files]. split; [by rewrite insert_empty|]. split_and!; [lia|done..]. }
  cbn [ha_run] in R3. apply bind_Some in R3 as (s3 & R3 & [= <-]). cbn in R3. destruct (serving n (ha_cluster s2)); [|done]. unfold ha_save in R3.
  destruct R2 as [E|(off & E & Hoff & Hwf2 & Hn2 & Hd2)]; rewrite E in R3; [by rewrite lookup_empty in R3|]. rewrite lookup_singleton_eq in R3. cbn [st_off st_bytes] in R3.
  case_decide as Hlen; [|done]. injection R3 as <-. destruct (rename_spec (tmp_path path) path _ _ Hne Hwf2 Hn2) as (fs3 & Hr & Hwf3 & Hp3 & _ & Hd3 & _).
  unfold save_rename. rewrite Hr. unfold in_place. cbn [ha_files ha_saves snd]. split_and!; [done|done|by rewrite Hd3, Hd2, Hlen, firstn_all|].
  rewrite delete_singleton_eq. intros n' t. by rewrite lookup_empty.
Qed.

(** C37 Fail-over.  A serving master saves, in any number of pieces and while anything else happens to the masters, except that no other save overlaps
    it (two masters serve at once after a lease lapsed, and they write the same temporary file).  Then, whatever happens (requests, ticks, crashes, lapsed
    leases, elections, saves that fail or die) short of another save's rename, the master that wins an election starts serving exactly the saved state: its
    objects with their replicas and identities, its segments, its clock and its next replica id.  The saved master has the default
    watermarks and can be recovered: every segment is at most 3.75 GiB, and there are about two million memory replicas at most. *)
Theorem failover_takes_last_save strategy ttl path s n sv es1 s1 es s2 w s3 :
  fs_wf (ha_files s) → ha_saves s = ∅ → ha_servers s !! n = Some sv → sv_poisoned sv = false →
  reachable (sv_master sv) → recoverable (sv_master sv) → default_marks (sv_master sv) →
  ha_run strategy ttl path (HaSave n SaveOpen :: es1 ++ [HaSave n SaveRename]) s = Some s1 → (∀ n', HaSave n' SaveOpen ∉ es1) →
  ha_run strategy ttl path es s1 = Some s2 → (∀ n', HaSave n' SaveRename ∉ es) →
  ha_step strategy ttl path (HaElect (Win w)) s2 = Some s3 →
  ∃ m', ha_servers s3 !! w = Some (mkServer (if 0 <? ttl then set_segment_ttl ttl m' else m') false) ∧ processes (ha_cluster s3) !! w = Some (Serving true)
    ∧ reachable m' ∧ view m' = view (sv_master sv) ∧ shape (allocs m') = shape (allocs (sv_master sv)) ∧ clock m' = clock (sv_master sv)
    ∧ next_replica_id (segments m') = next_replica_id (segments (sv_master sv)).
Proof.
  intros Hwf He Hsv Hpo Hr Hrec Hd Hrun1 Hes1 Hrun Hes Hs3. destruct (lone_save _ _ _ _ _ _ _ _ Hwf He Hsv Hpo Hrun1 Hes1) as (i & Hin).
  apply (ha_run_inv strategy ttl path (in_place path (enc_snap (snapshot (sv_master sv))) i) (λ e, ∃ n', e = HaSave n' SaveRename)) in Hrun; [| |by intros e He' [n' ->]; eapply Hes|done].
  2:{ intros e t t' Hb. apply in_place_step. intros n' ->. apply Hb. eauto. }
  destruct Hrun as (_ & Hn & Hdata & _). assert (file (ha_files s2) path = Some (enc_snap (snapshot (sv_master sv)))) as Hf by by rewrite (file_inode _ _ _ Hn).
  destruct (load_saved path (sv_master sv) (ha_files s2) Hr Hrec Hd Hf) as (m' & Hload & Hr' & Hv & Hsh & Hc & Hid).
  cbn [ha_step] in Hs3. apply bind_Some in Hs3 as (c & Hc' & Hs3). injection Hs3 as <-. cbn in Hc'. case_decide; [|done]. injection Hc' as <-.
  unfold ha_start. cbn [ha_files]. unfold start_server. rewrite bool_decide_true by (rewrite Hf; eauto). rewrite Hload. cbn [mbind option_bind ha_servers ha_cluster processes].
  exists m'. rewrite !lookup_insert_eq. done.
Qed.
End theorems.

(** ** Runs *)

#[local] Existing Instance canonical_iter.
#[local] Existing Instance length_hash.
#[local] Existing Instance bit_codec.
#[local] Existing Instance literal_regex.

(** A codec: the fields but the watermarks, as one number. *)
Definition object_fields (o : ObjectSnapshot) : string * list Replica * IdentityScope * Z * Z * bool * bool :=
  (os_key o, os_replicas o, os_identity o, os_lease_until o, os_last_access o, os_soft_pinned o, os_hard_pinned o).
Definition object_of (f : string * list Replica * IdentityScope * Z * Z * bool * bool) : ObjectSnapshot :=
  let '(k, rs, i, l, a, s, h) := f in mkObjSnap k rs i l a s h.
Definition snapshot_fields (s : MasterSnapshot) : Z * string * Z * Z * Z * Z * list (string * Z) * list (string * list Replica * IdentityScope * Z * Z * bool * bool) :=
  (snap_version s, snap_strategy s, snap_clock s, snap_lease_ttl s, snap_segment_ttl s, snap_next_replica_id s,
   (λ x, (ss_name x, ss_capacity x)) <$> snap_segments s, object_fields <$> snap_objects s).
Definition decode_snapshot (l : list Z) : option MasterSnapshot :=
  match l with
  | [Zpos p] =>
      '(v, st, c, lt, t, i, ss, os) ← countable.decode (A := Z * string * Z * Z * Z * Z * list (string * Z) * list (string * list Replica * IdentityScope * Z * Z * bool * bool)) p;
      Some (mkSnapshot v st c lt (f64_lit 95 100) (f64_lit 1 10) t i ((λ x : string * Z, mkSegSnap x.1 x.2) <$> ss) (object_of <$> os))
  | _ => None
  end.
#[local] Instance number_codec : SnapshotCodec.
Proof.
  refine {| enc_snap s := [Zpos (countable.encode (snapshot_fields s))]; dec_snap := decode_snapshot |}. intros [v st c lt hw er t i ss os] Hw He. cbn in Hw, He. subst.
  unfold decode_snapshot. rewrite countable.decode_encode. cbn. rewrite <- !list_fmap_compose.
  rewrite (list_fmap_ext _ id ss) by (by intros ? [] _). rewrite (list_fmap_ext _ id os) by (by intros ? [] _). by rewrite !list_fmap_id.
Defined.

Definition snap_file : Path := chars_of "/var/qc/master.json".
Example temp_file : tmp_path snap_file = chars_of "/var/qc/master.snapshot.tmp".
Proof. vm_compute. reflexivity. Qed.
Example temp_of_hidden : tmp_path (chars_of ".state") = chars_of ".state.snapshot.tmp".
Proof. vm_compute. reflexivity. Qed.

(** Two snapshot files that differ in their extension share the temporary file: if the second master's write falls between the first one's
    write and rename, the first one's path receives the second one's state. *)
Theorem shared_temp_file :
  tmp_path (chars_of "master.0") = tmp_path (chars_of "master.1")
  ∧ (let fs1 := (save_snapshot DiesBeforeRename (chars_of "master.0") d4 no_files).2 in
     let fs2 := (save_snapshot DiesBeforeRename (chars_of "master.1") d0 fs1).2 in
     file fs2 (tmp_path (chars_of "master.0")) = Some (enc_snap (snapshot d0))).
Proof.
  assert (tmp_path (chars_of "master.0") = tmp_path (chars_of "master.1")) as E by (vm_compute; reflexivity). split; [done|]. cbv zeta. rewrite E.
  set (fs1 := (save_snapshot _ _ d4 _).2). assert (fs_wf fs1) as Hwf.
  { pose proof (save_snapshot_atomic DiesBeforeRename (chars_of "master.0") d4 no_files no_files_wf) as Ha. subst fs1. destruct (save_snapshot _ _ _ _). apply Ha. }
  pose proof (save_written (chars_of "master.1") d0 fs1 Hwf) as Hw. unfold save_snapshot. destruct (save_open _ _ fs1) as [t fs2].
  destruct (Hw (length (st_bytes t))) as (_ & _ & Hn & _ & Hd). cbn [snd]. rewrite (file_inode _ _ _ Hn). by apply Hd.
Qed.

(** Master "a" wins, mounts a segment and commits an object; it saves, and is then cut off. *)
Definition put_events (n key : string) : list HaEvent :=
  [HaServe n (SERequest (RPutStart key idA 16 None)); HaServe n (SERequest (RPutEnd key))].
Definition save_events (n : string) : list HaEvent := [HaSave n SaveOpen; HaSave n (SaveChunk 1); HaSave n SaveRename].
Definition ha0 : Ha := mkHa no_files no_masters ∅ ∅.
Definition ha_go (es : list HaEvent) (s : Ha) : Ha := default s (ha_run "random" 0 snap_file es s).
Definition ha1 : Ha := ha_go ([HaElect (Join "a"); HaElect (Win "a"); HaElect (Join "b"); HaElect (Join "c"); HaServe "a" (SERequest (RMount "s0" 100))] ++ put_events "a" "x") ha0.
Definition ha2 : Ha := ha_go (save_events "a") ha1.
(** It commits "y" and dies in the middle of the next save. *)
Definition cut_off : list HaEvent := put_events "a" "y" ++ [HaSave "a" SaveOpen; HaElect (Crash "a"); HaElect Lapse].
Definition ha3 : Ha := ha_go cut_off ha2.
Definition ha4 : Ha := default ha3 (ha_step "random" 0 snap_file (HaElect (Win "b")) ha3).

(** The objects a serving master knows. *)
Definition known (n : string) (s : Ha) : option (list string) := (λ sv, (map_to_list (view (sv_master sv))).*1) <$> ha_servers s !! n.

Definition ma : MasterService := step_to (OPutEnd "x") (step_to (OPutStart "x" idA 16 config_default) (step_to (OMount "s0" 100) (master_new "random"))).
Lemma ma_reach : reachable ma.
Proof.
  apply (reach_step (step_to (OPutStart "x" idA 16 config_default) (step_to (OMount "s0" 100) (master_new "random"))) (OPutEnd "x")); [|done|run].
  apply (reach_step (step_to (OMount "s0" 100) (master_new "random")) (OPutStart "x" idA 16 config_default)); [|split; [lia|split; [discriminate|vm_compute; discriminate]]|run].
  apply (reach_step (master_new "random") (OMount "s0" 100)); [apply reach_new| |run].
  split; [unfold MAX_SEGMENT; lia|]. split; [apply not_in_cases; vm_compute; reflexivity|]. vm_compute. discriminate.
Qed.
Lemma ma_recoverable : recoverable ma.
Proof.
  split; [|vm_compute; discriminate].
  apply (bool_decide_eq_true_1 (Forall (λ a : OffsetBufferAllocator, calculate_multiplier (capacity a) = Some 0) (allocs ma))). vm_compute. reflexivity.
Qed.
Lemma ma_marks : default_marks ma.
Proof. split; vm_compute; reflexivity. Qed.

Lemma save_snapshot_atomic_witness : ∃ m', load_snapshot snap_file (save_snapshot Completes snap_file ma no_files).2 = Some (Ok m') ∧ view m' = view ma.
Proof.
  pose proof (save_snapshot_atomic Completes snap_file ma no_files no_files_wf) as Ha.
  assert ((save_snapshot Completes snap_file ma no_files).1 = Some (Ok tt)) as E by (vm_compute; reflexivity).
  destruct (save_snapshot Completes snap_file ma no_files) as [r fs]. cbn [fst snd] in *. destruct Ha as (_ & [(_ & _ & _ & Hl)|[Hne _]] & _); [|destruct (Hne E)].
  destruct (Hl ma_reach ma_recoverable ma_marks) as (m' & Hload & _ & Hv & _). exists m'. split; [exact Hload|exact Hv].
Defined.

Lemma ha1_files : ha_files ha1 = no_files ∧ ha_saves ha1 = ∅ ∧ ha_servers ha1 !! "a" = Some (mkServer ma false).
Proof. split_and!; vm_compute; reflexivity. Qed.
Lemma ha1_wf : fs_wf (ha_files ha1).
Proof. rewrite (proj1 ha1_files). apply no_files_wf. Qed.
Lemma ha_steps : ha_run "random" 0 snap_file (HaSave "a" SaveOpen :: [HaSave "a" (SaveChunk 1)] ++ [HaSave "a" SaveRename]) ha1 = Some ha2
  ∧ ha_run "random" 0 snap_file cut_off ha2 = Some ha3 ∧ ha_step "random" 0 snap_file (HaElect (Win "b")) ha3 = Some ha4.
Proof. split_and!; run. Qed.
Lemma no_open n : HaSave n SaveOpen ∉ [HaSave "a" (SaveChunk 1)].
Proof. intros Hin. apply list_elem_of_singleton in Hin. discriminate Hin. Qed.
Lemma cut_off_no_rename n : HaSave n SaveRename ∉ cut_off.
Proof. unfold cut_off, put_events. cbn [app]. intros Hin. repeat (apply elem_of_cons in Hin as [Hin|Hin]; [discriminate Hin|]). by apply elem_of_nil in Hin. Qed.

Lemma failover_takes_last_save_witness : ∃ m', ha_servers ha4 !! "b" = Some (mkServer m' false) ∧ view m' = view ma.
Proof.
  pose proof (failover_takes_last_save "random" 0 snap_file ha1 "a" (mkServer ma false) [HaSave "a" (SaveChunk 1)] ha2 cut_off ha3 "b" ha4 ha1_wf
    (proj1 (proj2 ha1_files)) (proj2 (proj2 ha1_files)) eq_refl ma_reach ma_recoverable ma_marks
    (proj1 ha_steps) no_open (proj1 (proj2 ha_steps)) cut_off_no_rename (proj2 (proj2 ha_steps))) as Hf.
  cbn [sv_master] in Hf. change (0 <? 0) with false in Hf. cbv beta iota in Hf.
  destruct Hf as (m' & Hsv & _ & _ & Hv & _). exists m'. split; [exact Hsv|exact Hv].
Defined.

(** A master that lost its lease goes on saving: after "a" is cut off and "b" has won, committed "y" and saved it, a save of "a" puts the old
    state back, and when "b" crashes "c" takes over without the object "b" had committed and saved. *)
Definition ha_cut : Ha := ha_go ([HaElect (KeepAlive "a" false); HaElect Lapse; HaElect (Win "b")] ++ put_events "b" "y") ha2.
Definition take_over : list HaEvent := [HaElect (Crash "b"); HaElect Lapse; HaElect (Win "c")].
Definition ha_split : Ha := ha_go (save_events "b" ++ save_events "a" ++ take_over) ha_cut.
Theorem lapsed_leader_overwrites_snapshot :
  known "b" ha_split = Some ["y"; "x"] ∧ known "c" ha_split = Some ["x"] ∧ leader (ha_cluster ha_split) = Some "c".
Proof. split_and!; vm_compute; reflexivity. Qed.

(** Two masters that save at once tear the snapshot: "a" opens, and so truncates, the temporary file "b" has written, and the rename of "b" puts
    the empty file in place of the snapshot "b" itself had recovered from.  When both crash there, "c" wins the election and cannot start. *)
Definition ha_torn : Ha :=
  ha_go ([HaSave "b" SaveOpen; HaSave "b" (SaveChunk 1); HaSave "a" SaveOpen; HaSave "b" SaveRename; HaElect (Crash "a")] ++ take_over) ha_cut.
Theorem overlapping_saves_tear_snapshot :
  known "b" ha_cut = Some ["y"; "x"] ∧ file (ha_files ha_torn) snap_file = Some []
  ∧ leader (ha_cluster ha_torn) = Some "c" ∧ processes (ha_cluster ha_torn) !! "c" = Some Crashed.
Proof. split_and!; vm_compute; reflexivity. Qed.

(** ** The election client

    One election on etcd: its keys in the order of their creation, each held by a lease and
    with the candidate's value; the first is the leader.  A lease that lapses deletes its
    keys.  [fault] is the error of a call that does not reach etcd. *)

Inductive EtcdError : Type := GRpcStatus (message : string) | OtherError (message : string).
Record Etcd : Type := mkEtcd { next_lease : Z; live_leases : gset Z; election_keys : list (Z * string) }.
Definition etcd_new : Etcd := mkEtcd 1 ∅ [].

Record MasterElection : Type := mkElection { me_election : string; me_node_id : string; me_lease_id : Z }.
(** The leader key: the lease that holds it. *)
Record Leadership : Type := mkLeadership { leader_key : Z }.

(** [str::contains]. *)
Fixpoint contains (needle s : string) : bool :=
  String.prefix needle s || match s with EmptyString => false | String.String _ s' => contains needle s' end.

Definition me_join (fault : option EtcdError) (election node_id : string) (e : Etcd) : result EtcdError MasterElection * Etcd :=
  match fault with
  | Some x => (Err x, e)
  | None => (Ok (mkElection election node_id (next_lease e)), mkEtcd (next_lease e + 1) ({[next_lease e]} ∪ live_leases e) (election_keys e))
  end.

(** Etcd's campaign: it creates the key under the lease, or finds it, and answers when no older key is left.  [None]: it waits. *)
Definition enter (lease : Z) (value : string) (e : Etcd) : result EtcdError Etcd :=
  if decide (lease ∈ live_leases e) then
    Ok (if decide (lease ∈ (election_keys e).*1) then e else mkEtcd (next_lease e) (live_leases e) (election_keys e ++ [(lease, value)]))
  else Err (GRpcStatus "etcdserver: requested lease not found").
Definition campaign_poll (m : MasterElection) (e : Etcd) : option (result EtcdError Leadership) :=
  if decide (me_lease_id m ∈ live_leases e) then
    match election_keys e with
    | (l, _) :: _ => if decide (l = me_lease_id m) then Some (Ok (mkLeadership l)) else None
    | [] => None
    end
  else Some (Err (GRpcStatus "etcdserver: requested lease not found")).
Definition campaign (fault : option EtcdError) (m : MasterElection) (e : Etcd) : option (result EtcdError Leadership) * Etcd :=
  match fault with
  | Some x => (Some (Err x), e)
  | None => match enter (me_lease_id m) (me_node_id m) e with
            | Err x => (Some (Err x), e)
            | Ok e' => (campaign_poll m e', e')
            end
  end.

Definition etcd_leader (e : Etcd) : result EtcdError string :=
  match election_keys e with (_, v) :: _ => Ok v | [] => Err (GRpcStatus "election: no leader") end.
Definition me_leader (fault : option EtcdError) (e : Etcd) : result EtcdError (option string) :=
  match from_option Err (etcd_leader e) fault with
  | Ok v => Ok (Some v)
  | Err (GRpcStatus message) => if contains "no leader" message then Ok None else Err (GRpcStatus message)
  | Err x => Err x
  end.

Definition keep_alive (fault : option EtcdError) (m : MasterElection) (e : Etcd) : result EtcdError unit :=
  match fault with
  | Some x => Err x
  | None => if decide (me_lease_id m ∈ live_leases e) then Ok tt else Err (OtherError "lease not found")
  end.

Definition drop_key (l : Z) (e : Etcd) : Etcd := mkEtcd (next_lease e) (live_leases e) (filter (λ k, k.1 ≠ l) (election_keys e)).
Definition resign (fault : option EtcdError) (lead : Leadership) (e : Etcd) : result EtcdError unit * Etcd :=
  match fault with Some x => (Err x, e) | None => (Ok tt, drop_key (leader_key lead) e) end.
Definition expire (l : Z) (e : Etcd) : Etcd := let e := drop_key l e in mkEtcd (next_lease e) (live_leases e ∖ {[l]}) (election_keys e).

Inductive etcd_reach : Etcd → Prop :=
| er_new : etcd_reach etcd_new
| er_join f el n e : etcd_reach e → etcd_reach (me_join f el n e).2
| er_campaign f m e : etcd_reach e → etcd_reach (campaign f m e).2
| er_resign f l e : etcd_reach e → etcd_reach (resign f l e).2
| er_expire l e : etcd_reach e → etcd_reach (expire l e).

Record etcd_inv (e : Etcd) : Prop := {
  ei_nodup : NoDup (election_keys e).*1;
  ei_live : ∀ l v, (l, v) ∈ election_keys e → l ∈ live_leases e
}.

Lemma drop_key_inv l e : etcd_inv e → etcd_inv (drop_key l e) ∧ ∀ v, (l, v) ∉ election_keys (drop_key l e).
Proof.
  intros [Hnd Hl]. split; [split; cbn|].
  - by apply NoDup_fmap_filter.
  - intros l' v [_ Hin]%list_elem_of_filter. by eapply Hl.
  - intros v [Hne _]%list_elem_of_filter. done.
Qed.

Lemma etcd_reach_inv e : etcd_reach e → etcd_inv e.
Proof.
  induction 1 as [|f el n e _ [Hnd Hl]|f m e _ IH|f l e _ IH|l e _ IH].
  - split; [constructor|by intros l v []%elem_of_nil].
  - destruct f; [done|]. split; [done|]. intros l v Hin. cbn. apply elem_of_union. right. by eapply Hl.
  - destruct IH as [Hnd Hl]. destruct f; [done|]. unfold campaign, enter. case_decide as Hlive; [|done]. case_decide as Hin; [done|]. split; cbn.
    + rewrite fmap_app. apply NoDup_app. split_and!; [done| |apply NoDup_singleton]. intros x Hx ->%list_elem_of_singleton. done.
    + intros l v [?|[= -> ->]%list_elem_of_singleton]%elem_of_app; [by eapply Hl|done].
  - destruct f; [done|]. by apply drop_key_inv.
  - destruct (drop_key_inv l e IH) as [[Hnd Hl] Hno]. split; [done|]. intros l' v Hin. cbn [live_leases]. apply elem_of_difference. split; [by eapply Hl|].
    intros ->%elem_of_singleton. by eapply Hno.
Qed.

(** In every state of the election at most one lease holds the leadership; a master whose campaign has been answered
    is that one, its lease is alive and every master that asks is told the value under it; when the leader resigns or its lease lapses, the
    candidate that campaigned next leads at once, and a master whose lease lapsed can neither renew it nor win; without candidates
    there is no leader, which is an answer and not an error. *)
Theorem election_client e :
  etcd_reach e →
  (∀ m1 m2 l1 l2, campaign_poll m1 e = Some (Ok l1) → campaign_poll m2 e = Some (Ok l2) → me_lease_id m1 = me_lease_id m2)
  ∧ (∀ m l, campaign_poll m e = Some (Ok l) → leader_key l = me_lease_id m ∧ keep_alive None m e = Ok tt
       ∧ ∃ v, head (election_keys e) = Some (me_lease_id m, v) ∧ me_leader None e = Ok (Some v))
  ∧ (∀ m1 m2 v1 v2 rest e', election_keys e = (me_lease_id m1, v1) :: (me_lease_id m2, v2) :: rest →
       e' = (resign None (mkLeadership (me_lease_id m1)) e).2 ∨ e' = expire (me_lease_id m1) e →
       campaign_poll m2 e' = Some (Ok (mkLeadership (me_lease_id m2))) ∧ me_leader None e' = Ok (Some v2) ∧ ∀ l, campaign_poll m1 e' ≠ Some (Ok l))
  ∧ (∀ m, (∃ x, keep_alive None m (expire (me_lease_id m) e) = Err x) ∧ ∃ x, campaign_poll m (expire (me_lease_id m) e) = Some (Err x))
  ∧ (election_keys e = [] → me_leader None e = Ok None).
Proof.
  intros [Hnd Hl]%etcd_reach_inv. split_and!.
  - intros m1 m2 l1 l2. unfold campaign_poll. destruct (election_keys e) as [|[l v] ks]; repeat case_decide; intros; congruence.
  - intros m l. unfold campaign_poll, keep_alive, me_leader, etcd_leader. case_decide as Hlive; [|done]. destruct (election_keys e) as [|[l' v] ks]; [done|].
    case_decide as E; [|done]. subst. intros [= <-]. split; [done|]. split; [done|]. by exists v.
  - intros m1 m2 v1 v2 rest e' Hk He'. rewrite Hk in Hnd. apply NoDup_cons in Hnd as [H1 Hnd]. cbn in H1. apply not_elem_of_cons in H1 as [Hne H1].
    assert (election_keys e' = (me_lease_id m2, v2) :: rest) as Hk'.
    { destruct He' as [->| ->]; cbn; rewrite Hk, filter_cons_False by (cbn; tauto); apply list_filter_all; intros [l v] Hin E; cbn in E; subst l;
        (apply elem_of_cons in Hin as [[= E _]|Hin]; [done|]); apply H1; by apply (list_elem_of_fmap_2 fst) in Hin. }
    assert (me_lease_id m2 ∈ live_leases e') as Hlive.
    { assert (me_lease_id m2 ∈ live_leases e) by (apply (Hl _ v2); rewrite Hk; by right; left). destruct He' as [->| ->]; cbn; set_solver. }
    unfold campaign_poll, me_leader, etcd_leader. rewrite Hk', !decide_True by done. split_and!; [done|done|]. intros l. case_decide; [|done]. by rewrite decide_False.
  - intros m. assert (me_lease_id m ∉ live_leases (expire (me_lease_id m) e)) by (cbn; set_solver).
    unfold keep_alive, campaign_poll. rewrite !decide_False by done. split; by eexists.
  - unfold me_leader, etcd_leader. by intros ->.
Qed.

(** Two masters elect one leader and fail over. *)
Example fail_over_run :
  let '(a, e) := me_join None "leader" "master-a" etcd_new in
  let '(b, e) := me_join None "leader" "master-b" e in
  match a, b with
  | Ok a, Ok b =>
      let '(won_a, e) := campaign None a e in
      let '(waits, e) := campaign None b e in
      let e' := (resign None (mkLeadership 1) e).2 in
      won_a = Some (Ok (mkLeadership 1)) ∧ waits = None ∧ me_leader None e = Ok (Some "master-a") ∧ me_leader None e' = Ok (Some "master-b")
  | _, _ => False
  end.
Proof. vm_compute. done. Qed.
